(* ===== verification/_CoqProject ===== *)
-Q . S2P
Prelude.v
SortedVec.v
Sequencer.v
Io.v
Av.v
Packets.v
Channel.v
Reassembly.v
VideoUnreliable.v
VideoTransfer.v
VideoOrder.v
VideoBuffering.v
Fec.v
SystematicCode.v
FecSafety.v
VideoUnreliableFec.v
VideoFecSafety.v
VideoFecProcess.v
FecTransfer.v
FecRecovery.v
Arrivals.v
AudioUnreliable.v
AudioOrder.v
AudioUnreliableFec.v
AudioFecSafety.v
GopStream.v
GopOrder.v
GopTransfer.v
ClockSync.v
Control.v
ControlPeers.v
Router.v
RouterDemux.v
Lifetime.v
Connection.v
Handshake.v
SourceFirst.v
CancelSafe.v
Hex.v
WebStreams.v
Kycom.v
Reliable.v
Endpoints.v
EndpointSetup.v
KycomForward.v
ReceiveTasks.v
ReceiveErrors.v
ControlLifetime.v
StreamSession.v
VideoReceive.v
VideoSession.v
VideoEndToEnd.v
VideoFecReceive.v
VideoFecSession.v
VideoFecEndToEnd.v
VideoFecComplete.v
VideoFecOnTime.v
VideoFecDelivery.v
Multiplex.v
AudioReceive.v
AudioSession.v
AudioEndToEnd.v
AudioFecReceive.v
AudioFecSession.v
AudioFecEndToEnd.v
AudioFecComplete.v
AudioFecDelivery.v
Clock.v
Telemetry.v
Kynet.v
KynetDriver.v
WebTransport.v
