(* ===== verification/Prelude.v ===== *)
(** * A verification library for kymux

    kymux carries the audio, video, input, metrics and data of Kyber's components
    over one QUIC connection.  Four layers matter here: [kymux-types] (packets
    and their serialization, protocol drivers and their wrappers), [kyproto] (the
    connection: control stream, router, and one transport driver per protocol),
    [kynet] (the QUIC and WebTransport libraries) and [kycom] (endpoints
    forwarded to other processes over TCP).  A connection starts with
    a control stream, on which the two peers authenticate, register endpoints
    and declare them ready; the router hands the streams and datagrams that name
    an endpoint to its channel; the driver of the endpoint turns packets into
    streams and datagrams and back.

    ** Reading the library

    The definitions are executable and follow the code: a fallible function
    returns an [outcome] ([Ok], [Err], or [Panic] for a failed assertion,
    [unwrap] or index), a function on [&mut self] is a [handler] that returns the
    new state on every path, an asynchronous reader or writer is a value of
    [Io.v], an integer is a [Z] with its wrap-around written out, and a
    [VecDeque] or [HashMap] is a list or a [gmap].  Concurrent tasks are the
    constructors of a step relation, so that theorems hold for all interleavings.
    Times, received messages and the results of the network library are inputs.

    ** Files

    - [Prelude]: outcomes, handlers, fixed-width integers, byte strings, runs of
      a step relation, and the tactic [inv_ok] that splits successful
      computations.
    - [SortedVec]: binary search and insertion in sorted queues, as the drivers
      use [VecDeque::binary_search_by_key].
    - [Sequencer]: [util/seq.rs].  A counter is recovered from its low bits
      ([seqs_recover_counters]) and the answer is the nearest one
      ([seq_nearest]).
    - [Io], [Av], [Packets]: byte streams, [av.rs], [data.rs], [input.rs],
      [metrics.rs], [ipc.rs] and the forwarding loop of [kymux-types/src/lib.rs].
      The class [Serializable] with its laws is the interface between packets
      and the loops that move them: [ipc_forward_transparent] is proved against
      it once for all packet types.
    - [Channel]: the sending half of [KyChannel], and [ProtocolStats].
    - [ReceiveTasks], [ReceiveErrors], [StreamSession]: the part the four datagram
      receivers share.  [task.rs] and the tasks of a driver (a reader of the
      stream, a reader of datagrams, [process], and the client that calls [recv])
      with their bounded queues, cancellation and drop, over any driver of the
      class [ReceiveDriver].  Every interleaving refines the sequential loop of
      [process] ([pipeline_refines_process]), the queues never lock
      ([pipeline_always_settles]), and where a driver reports errors they reach
      the client ([reader_error_reaches_client]).
    - [Reassembly], [VideoUnreliable], [VideoTransfer], [VideoOrder],
      [VideoBuffering]: [video_unreliable.rs].  The datagrams of a frame rebuild
      it in any order and with repetitions ([video_datagrams_reassemble]); the
      receive loop delivers in increasing order, accounts for every gap
      ([video_in_order_delivery]), takes the expected packet at once when it looks
      for one ([video_expected_taken_at_once]), and forwards a packet held for the
      buffering delay within a bounded number of rounds
      ([video_late_packet_delivered]).  There is no bound in time: a round
      forwards one packet and clears the deadline, and a ready packet may wait for
      the next event ([video_ready_packet_left_waiting]).
      [VideoReceive] is the whole receiving driver; [VideoSession] and
      [VideoEndToEnd] compose it with the sender over a network that loses,
      repeats and reorders ([video_session_end_to_end]).
    - [Fec], [SystematicCode], [FecSafety]: [fec.rs].  The raptorq library is the
      class [RaptorQ] with the laws [RaptorQLaws]; [SystematicCode] is an
      instance, which shows that the laws can hold.  Validation is exact and
      bounds what an object may reserve.
    - [VideoUnreliableFec], [VideoFecSafety], [VideoFecProcess], [FecTransfer]:
      [video_unreliable_fec.rs].  Whatever datagrams arrive, the receiver keeps
      its memory budget and does not panic ([video_fec_receiver_bounded]), and
      makes room by dropping only stale frames; an object is recovered when the
      library can decode it ([fec_object_recovered]).  [VideoFecReceive] is the
      whole driver against a hostile peer ([video_fec_driver_safe]);
      [VideoFecSession] and [VideoFecEndToEnd] compose it with the sender
      ([video_fec_session_end_to_end]).
    - [FecRecovery], [Arrivals]: what the delivery theorems of the two drivers
      with error correction share.  The class [RaptorQRecovery] tells which sets
      of symbols the library decodes from; a decoder stays open exactly until it
      has such a set.  [VideoFecComplete], [VideoFecOnTime] and
      [VideoFecDelivery]: when enough symbols arrive in time and what is in flight fits the
      budget, nothing of a session is lost ([video_fec_session_delivered]).
    - [Multiplex]: two video sessions on one connection, through the router
      ([video_sessions_share_connection]).
    - [AudioUnreliable], [AudioOrder]: [audio_unreliable.rs] refines a player
      that accepts only gap-free timelines ([audio_playback_exact]).
      [AudioReceive] is the whole driver; [AudioSession] and [AudioEndToEnd]
      compose it with the sender ([audio_session_end_to_end]).
      [AudioUnreliableFec], [AudioFecSafety], [AudioFecReceive]:
      [audio_unreliable_fec.rs], bounded in the same way as video
      ([audio_fec_driver_safe]); [AudioFecSession] and [AudioFecEndToEnd] compose
      it with the sender ([audio_fec_session_end_to_end]), [AudioFecComplete] and
      [AudioFecDelivery] prove delivery ([audio_fec_session_delivered]).
    - [GopStream], [GopOrder], [GopTransfer]: [video_gopstream.rs], sender,
      receiver tasks and their composition ([gop_stream_end_to_end]).
    - [ClockSync]: [clock_sync.rs], the exchange and the error of its estimate.
    - [Control], [ControlPeers]: [control.rs], its framing, and two peers whose
      handshakes meet whatever the order of the calls and of the messages
      ([control_ready_rendezvous]), for every endpoint that each side takes once
      and whose receivers are kept while they wait; other endpoints may be used
      again and their notifiers and futures dropped.
      [ControlLifetime]: its tasks, the calls that wait and the drop of the
      control ([control_drop_ends_waits], [stream_end_not_told]).
    - [Router], [RouterDemux]: [router.rs], the table, the routing loops and the
      channels; every datagram reaches exactly its endpoint.  [Lifetime]: who
      owns a channel and the table, halves and drops included
      ([channel_table_exact], [receiver_never_told]).
    - [Connection], [Handshake]: the start of a connection, authentication and
      endpoint ids of [lib.rs] and [auth.rs], up to two peers whose control
      streams run ([authenticated_peers_talk], [peers_talk]).
    - [SourceFirst]: [source_first.rs] and the sending path that uses it.  The
      symbols cut out by the code are those of the RFC 6330 layout and of the
      library's encoder ([source_packets_match_library]), and the datagrams are
      those of the ordinary path in another order
      ([source_first_same_datagrams]).
    - [CancelSafe]: the driver traits, [make_cancel_safe] of both halves,
      [forward] and [forward_bi] of [kymux-types/src/lib.rs], against the classes
      [ProtocolSendDriver] and [ProtocolRecvDriver].  A wrapped receiver returns
      what the driver returns ([cancel_safe_recv_equivalent]), a wrapped sender
      passes on what it accepted ([cancel_safe_send_refines]), and forwarding
      relays exactly ([forward_bi_relays]).
    - [Hex]: hexadecimal text, [hex_to_bytes] of [kymux-util].
    - [WebStreams], [WebTransport]: [webtransport_js.rs].  The streams as polled
      state machines ([web_read_exact], [web_write_exact]), the options, and the
      connection driver, which behaves as the browser
      ([web_driver_transparent]).
    - [Kynet], [KynetDriver], [Telemetry]: [kynet] over quinn and wtransport.
      Configuration, certificate pinning, protocol negotiation and dispatch
      ([native_client_meets_server], [other_generation_reported],
      [webtransport_client_dispatched]); the trait [ConnectionDriver] as a record
      of operations with its native drivers and the measurements of
      [sender_timing.rs] ([diagnostics_passive_and_exact]); the worker of
      [quinn_telemetry.rs] ([telemetry_lines_in_order]).
    - [Kycom], [KycomForward]: addresses, registration, listener and handshake of
      [kycom], its endpoint drivers and forwarders ([kycom_channels_paired],
      [kycom_handshake]); [video_forwarded_end_to_end] follows a video from the
      sender's driver to the process behind the forwarder.
    - [Reliable]: the four [reliable.rs] drivers, end to end through the router.
    - [Endpoints], [EndpointSetup]: [protocol/mod.rs], the endpoint drivers and
      the registration and connection of endpoints in [lib.rs], and two peers
      that set endpoints up.  The ready handshake keeps every stream from
      arriving before its endpoint ([setup_streams_always_routed]), set-up does
      not fail ([setup_never_fails]), and matching endpoints start
      ([matching_endpoints_start]).
    - [Clock]: [clock.rs].

    ** Fuel and bounds

    Loops that consume a list of events recurse on it.  Loops that the code
    leaves on a condition take fuel: the send loops of the datagram drivers get
    the length of the payload (each turn sends at least one byte), the drain
    loops of the FEC receivers and the admission loop get the number of packets,
    objects or groups held (each turn removes one), the readers of whole streams
    the number of packets plus one, [find_id] of [Kycom] one turn per id, and
    [poll_read] and [poll_write] of [WebStreams] three turns.  The theorems state that the result is
    reached ([video_drain_complete], [audio_drain_complete]).  Sequence numbers
    are modelled at their width; sessions of fewer than 2^48 packets are assumed
    where 64-bit counters would otherwise overflow, and the end-to-end sessions
    have fewer than 2^31 packets, within which 32-bit numbers are recovered
    whatever the delays.

    ** Not modelled

    The runtime modules (spawning, sleeping and timeouts appear as steps of the
    models), the times that the FEC sender adds to its measurements, the
    polling of streams that [kynet] and [kycom] pass on to their libraries,
    boxing of drivers, re-exports and tests.  [EndpointSetup] keeps endpoints
    alive: what a drop does to the router is in [RouterDemux] and [Lifetime].
    Dropping a [Connection] drops its router and its control, and closes the
    connection of the network library, which ends the streams of both. *)

From stdpp Require Import prelude list gmap strings.
From Stdlib Require Import ZArith Lia Sorting.Sorted DecimalString.
Open Scope Z_scope.

(** ** Outcomes of fallible code

    [Ok] is Rust's [Ok], [Err] a returned error, [Panic] a failed [assert!],
    [expect], [unwrap] or out-of-range index. *)

Inductive outcome (E A : Type) : Type :=
| Ok (a : A)
| Err (e : E)
| Panic.
Arguments Ok {E A} a.
Arguments Err {E A} e.
Arguments Panic {E A}.

#[export] Instance outcome_ret {E} : MRet (outcome E) := λ A a, Ok a.
#[export] Instance outcome_bind {E} : MBind (outcome E) := λ A B f m,
  match m with Ok a => f a | Err e => Err e | Panic => Panic end.

#[export] Instance outcome_fmap {E} : FMap (outcome E) := λ A B f m,
  match m with Ok a => Ok (f a) | Err e => Err e | Panic => Panic end.

(** [assert!(b)] *)
Definition rassert {E} (b : bool) : outcome E unit := if b then Ok tt else Panic.

(** [opt.expect(..)], [opt.unwrap()], [v[i]] *)
Definition expect {E A} (o : option A) : outcome E A :=
  match o with Some a => Ok a | None => Panic end.

(** [opt.ok_or_else(|| e)] *)
Definition ok_or {E A} (o : option A) (e : E) : outcome E A :=
  match o with Some a => Ok a | None => Err e end.

(** [res.map_err(f)] *)
Definition map_err {E F A} (f : E → F) (m : outcome E A) : outcome F A :=
  match m with Ok a => Ok a | Err e => Err (f e) | Panic => Panic end.

(** [if b { return Err(e) }] *)
Definition bail_if {E} (b : bool) (e : E) : outcome E unit := if b then Err e else Ok tt.

(** Error values: a [ProtocolError] carries its message. *)
Abbreviation ProtocolError := string.

(** [{}] of an integer in a message *)
Definition decimal (n : Z) : string := NilZero.string_of_int (Z.to_int n).

Lemma bind_Ok {E A B} (m : outcome E A) (f : A → outcome E B) b :
  m ≫= f = Ok b ↔ ∃ a, m = Ok a ∧ f a = Ok b.
Proof. destruct m; simpl; naive_solver. Qed.

Lemma bind_no_panic {E A B} (m : outcome E A) (f : A → outcome E B) :
  m ≠ Panic → (∀ a, m = Ok a → f a ≠ Panic) → m ≫= f ≠ Panic.
Proof. destruct m; simpl; naive_solver. Qed.

Lemma rassert_Ok {E} b u : rassert (E:=E) b = Ok u ↔ b = true.
Proof. destruct b, u; simpl; naive_solver. Qed.

Lemma expect_Ok {E A} (o : option A) a : expect (E:=E) o = Ok a ↔ o = Some a.
Proof. destruct o; simpl; naive_solver. Qed.

Lemma bail_if_Ok {E} b (e : E) u : bail_if b e = Ok u ↔ b = false.
Proof. destruct b, u; simpl; naive_solver. Qed.

(** Splits every successful bind, assertion and unwrapping among the
    hypotheses. *)
Ltac inv_ok :=
  repeat match goal with
  | H : _ ≫= _ = Ok _ |- _ =>
      let a := fresh "v" in let Ha := fresh "Hv" in
      apply bind_Ok in H as (a & Ha & H)
  | H : rassert _ = Ok _ |- _ => apply rassert_Ok in H
  | H : expect _ = Ok _ |- _ => apply expect_Ok in H
  | H : bail_if _ _ = Ok _ |- _ => apply bail_if_Ok in H
  | H : mret _ = Ok _ |- _ => injection H as H; try subst
  | H : Ok _ = Ok _ |- _ => injection H as H; try subst
  | H : Err _ = Ok _ |- _ => discriminate H
  | H : Panic = Ok _ |- _ => discriminate H
  end.

(** ** Fixed-width integers

    A Rust integer is a [Z]; the predicates below are its type, the [wrap]
    functions its wrapping arithmetic. *)

Definition is_u8 (x : Z) : Prop := 0 ≤ x < 2 ^ 8.
Definition is_u16 (x : Z) : Prop := 0 ≤ x < 2 ^ 16.
Definition is_u32 (x : Z) : Prop := 0 ≤ x < 2 ^ 32.
Definition is_u64 (x : Z) : Prop := 0 ≤ x < 2 ^ 64.
Definition wrap16 (x : Z) : Z := x mod 2 ^ 16.
Definition wrap32 (x : Z) : Z := x mod 2 ^ 32.
Definition wrap64 (x : Z) : Z := x mod 2 ^ 64.

(** [a.div_ceil(b)] on unsigned integers *)
Definition div_ceil (a b : Z) : Z := if a mod b =? 0 then a / b else a / b + 1.

Lemma div_ceil_spec a b : 0 ≤ a → 0 < b → b * (div_ceil a b - 1) < a ≤ b * div_ceil a b ∨ (a = 0 ∧ div_ceil a b = 0).
Proof.
  intros Ha Hb. unfold div_ceil. destruct (Z.eqb_spec (a mod b) 0) as [E|E];
    pose proof (Z.div_mod a b ltac:(lia)); pose proof (Z.mod_pos_bound a b Hb).
  - destruct (decide (a = 0)) as [->|]; [right; by rewrite Zdiv_0_l | left; nia].
  - left. nia.
Qed.

Lemma div_ceil_upper a b c : 0 < b → a ≤ b * c → div_ceil a b ≤ c.
Proof.
  intros Hb Hc. unfold div_ceil.
  pose proof (Z.div_mod a b ltac:(lia)); pose proof (Z.mod_pos_bound a b Hb).
  destruct (Z.eqb_spec (a mod b) 0); nia.
Qed.

Lemma div_ceil_nonneg a b : 0 ≤ a → 0 < b → 0 ≤ div_ceil a b.
Proof. intros ? ?. unfold div_ceil. pose proof (Z.div_pos a b). destruct (_ =? _); lia. Qed.

Lemma div_ceil_pos a b : 0 < a → 0 < b → 0 < div_ceil a b.
Proof. intros ? ?. destruct (div_ceil_spec a b) as [H1|H1]; nia. Qed.

(** ** Byte strings *)

Abbreviation bytes := (list Z).
Definition is_bytes (l : bytes) : Prop := Forall is_u8 l.
Definition blen (l : bytes) : Z := Z.of_nat (length l).

#[export] Instance is_u8_dec x : Decision (is_u8 x).
Proof. unfold is_u8. apply _. Defined.
#[export] Instance is_bytes_dec l : Decision (is_bytes l).
Proof. unfold is_bytes. apply _. Defined.

(** [uN::to_be_bytes] for a width of [n] bytes *)
Fixpoint be_bytes (n : nat) (x : Z) : bytes :=
  match n with
  | O => []
  | S n => (x / 256 ^ Z.of_nat n) mod 256 :: be_bytes n x
  end.

(** [uN::from_be_bytes], [BigEndian::read_uN] *)
Definition read_be (l : bytes) : Z := fold_left (λ acc b, acc * 256 + b) l 0.

Lemma be_bytes_length n x : length (be_bytes n x) = n.
Proof. induction n; simpl; lia. Qed.

Lemma be_bytes_is_bytes n x : is_bytes (be_bytes n x).
Proof.
  induction n; constructor; [|done].
  unfold is_u8. pose proof (Z.mod_pos_bound (x / 256 ^ Z.of_nat n) 256). lia.
Qed.

Lemma read_be_acc l acc :
  fold_left (λ acc b, acc * 256 + b) l acc = acc * 256 ^ blen l + read_be l.
Proof.
  unfold read_be, blen. revert acc. induction l as [|b l IH]; intros acc; [simpl; lia|].
  cbn [fold_left length]. rewrite IH, (IH (0 * 256 + b)), Nat2Z.inj_succ, Z.pow_succ_r by lia. lia.
Qed.

Lemma read_be_cons b l : read_be (b :: l) = b * 256 ^ blen l + read_be l.
Proof. unfold read_be at 1. cbn [fold_left]. rewrite read_be_acc. lia. Qed.

Lemma read_be_app l k : read_be (l ++ k) = read_be l * 256 ^ blen k + read_be k.
Proof. unfold read_be at 1. rewrite fold_left_app. apply read_be_acc. Qed.

Lemma read_be_bound l : is_bytes l → 0 ≤ read_be l < 256 ^ blen l.
Proof.
  induction 1 as [|b l Hb Hl IH]; [vm_compute; intuition congruence|].
  rewrite read_be_cons. unfold blen in *. cbn [length]. unfold is_u8 in Hb.
  rewrite Nat2Z.inj_succ, Z.pow_succ_r by lia. nia.
Qed.

Lemma read_be_be_bytes n x : read_be (be_bytes n x) = x mod 256 ^ Z.of_nat n.
Proof.
  induction n as [|n IH]; [simpl; by rewrite Z.mod_1_r|].
  cbn [be_bytes]. rewrite read_be_cons, IH. unfold blen. rewrite be_bytes_length.
  rewrite Nat2Z.inj_succ, Z.pow_succ_r by lia.
  rewrite (Z.mul_comm 256), Z.rem_mul_r by lia. lia.
Qed.

Lemma be_bytes_read_be l : is_bytes l → be_bytes (length l) (read_be l) = l.
Proof.
  induction l as [|b l IH]; [done|]. intros [Hb Hl]%Forall_cons.
  cbn [length be_bytes]. unfold is_u8 in Hb. pose proof (read_be_bound l Hl) as Hr.
  assert (Heq : ∀ n x y, (n ≤ length l)%nat → y = x + b * 256 ^ blen l → be_bytes n y = be_bytes n x).
  { intros n x y Hn ->. induction n as [|n IHn]; [done|]. cbn [be_bytes]. f_equal; [|apply IHn; lia].
    replace (blen l) with (Z.of_nat n + (1 + (blen l - 1 - Z.of_nat n))) by (unfold blen; lia).
    rewrite !Z.pow_add_r by (unfold blen; lia).
    replace (b * (256 ^ Z.of_nat n * (256 ^ 1 * 256 ^ (blen l - 1 - Z.of_nat n))))
      with ((b * 256 ^ (blen l - 1 - Z.of_nat n) * 256) * 256 ^ Z.of_nat n) by lia.
    rewrite Z.div_add by lia. by rewrite Z.mod_add by lia. }
  rewrite read_be_cons. f_equal.
  - fold (blen l). rewrite Z.div_add_l by lia. rewrite Z.div_small by lia.
    rewrite Z.add_0_r. apply Z.mod_small. lia.
  - rewrite (Heq _ (read_be l)); [by apply IH|done|lia].
Qed.

(** ** Stateful fallible code

    A handler that mutates a state [S] and may fail: the state reached is kept
    on every path, as [&mut self] keeps it. *)

Definition handler (S E A : Type) : Type := S → S * outcome E A.

#[export] Instance handler_ret {S E} : MRet (handler S E) := λ A a s, (s, Ok a).
#[export] Instance handler_bind {S E} : MBind (handler S E) := λ A B f m s,
  match m s with
  | (s, Ok a) => f a s
  | (s, Err e) => (s, Err e)
  | (s, Panic) => (s, Panic)
  end.

(** Pure fallible code inside a handler *)
Definition pureM {S E A} (m : outcome E A) : handler S E A := λ s, (s, m).
Definition getM {S E A} (f : S → A) : handler S E A := λ s, (s, Ok (f s)).
Definition modifyM {S E} (f : S → S) : handler S E unit := λ s, (f s, Ok tt).

(** Runs the monad operations of a handler in the goal. *)
Ltac run_handler := unfold mbind, handler_bind, getM, pureM, modifyM, mret, handler_ret.
Tactic Notation "run_handler" "in" hyp(H) := unfold mbind, handler_bind, getM, pureM, modifyM, mret, handler_ret in H.

Lemma handler_bind_eq {S E A B} (m : handler S E A) (f : A → handler S E B) s s' a :
  m s = (s', Ok a) → (m ≫= f) s = f a s'.
Proof. intros H. run_handler. by rewrite H. Qed.

(** Case analysis on the result of a bound handler. *)
Lemma handler_bind_inv {S E A B} (m : handler S E A) (f : A → handler S E B) s s' r :
  (m ≫= f) s = (s', r) →
  (∃ s1 a, m s = (s1, Ok a) ∧ f a s1 = (s', r)) ∨
  (∃ e, m s = (s', Err e) ∧ r = Err e) ∨ (m s = (s', Panic) ∧ r = Panic).
Proof. run_handler. destruct (m s) as [s1 [a|e|]]; naive_solver. Qed.

(** ** Sums over lists *)

Definition sum_list_with {A} (f : A → Z) (l : list A) : Z := foldr (λ x acc, f x + acc) 0 l.

Lemma sum_list_app {A} (f : A → Z) l k : sum_list_with f (l ++ k) = sum_list_with f l + sum_list_with f k.
Proof. induction l; simpl; lia. Qed.

#[export] Instance sum_list_perm {A} (f : A → Z) : Proper ((≡ₚ) ==> eq) (sum_list_with f).
Proof. induction 1; simpl; lia. Qed.

Lemma sum_list_nonneg {A} (f : A → Z) l : (∀ x, x ∈ l → 0 ≤ f x) → 0 ≤ sum_list_with f l.
Proof.
  induction l as [|x l IH]; intros Hf; simpl; [lia|].
  assert (0 ≤ f x) by (apply Hf; left). assert (0 ≤ sum_list_with f l) by (apply IH; intros; apply Hf; by right). lia.
Qed.

(** ** Labelled steps

    Runs of a step relation with the labels of its steps, oldest first.  A
    concurrent component is a state type, a label per visible event and such a
    relation. *)

Section Runs.
Context {S L : Type} (step : S → L → S → Prop).

Inductive runs (s0 : S) : list L → S → Prop :=
| runs_nil : runs s0 [] s0
| runs_snoc ls l s s' : runs s0 ls s → step s l s' → runs s0 (ls ++ [l]) s'.

(** Rule induction: an invariant of states and the labels so far *)
Lemma runs_invariant (P : list L → S → Prop) s0 ls s :
  P [] s0 → (∀ ls l s s', P ls s → step s l s' → P (ls ++ [l]) s') → runs s0 ls s → P ls s.
Proof. intros H0 Hs. induction 1; eauto. Qed.

Lemma runs_trans s0 ls s ls' s' : runs s0 ls s → runs s ls' s' → runs s0 (ls ++ ls') s'.
Proof. intros Ha. induction 1 as [|ls' l s' s'' _ IH Hs]; [by rewrite app_nil_r|]. rewrite app_assoc. by econstructor. Qed.

Lemma runs_one s l s' : step s l s' → runs s [l] s'.
Proof. intros Hs. apply (runs_snoc s [] l s s'); [constructor|done]. Qed.

Lemma runs_cons s l s1 ls s' : step s l s1 → runs s1 ls s' → runs s (l :: ls) s'.
Proof. intros Hs. apply (runs_trans s [l]). by apply runs_one. Qed.
End Runs.

(** ** Interleavings *)

(** [m] is made of the elements of [l] and of [r], each in its own order. *)
Inductive interleaves {A : Type} : list A → list A → list A → Prop :=
| il_nil : interleaves [] [] []
| il_left l r m x : interleaves l r m → interleaves (l ++ [x]) r (m ++ [x])
| il_right l r m x : interleaves l r m → interleaves l (r ++ [x]) (m ++ [x]).

Lemma interleaves_snoc {A} (l r m : list A) x :
  interleaves l r (m ++ [x]) →
  (∃ l', l = l' ++ [x] ∧ interleaves l' r m) ∨ (∃ r', r = r' ++ [x] ∧ interleaves l r' m).
Proof.
  remember (m ++ [x]) as m' eqn:Hm. destruct 1 as [|l r m1 y H|l r m1 y H].
  - by destruct m.
  - apply app_inj_tail in Hm as [-> ->]. eauto.
  - apply app_inj_tail in Hm as [-> ->]. eauto.
Qed.

Lemma interleaves_prefix {A} (l r m1 m2 : list A) :
  interleaves l r (m1 ++ m2) → ∃ l1 r1, l1 `prefix_of` l ∧ r1 `prefix_of` r ∧ interleaves l1 r1 m1.
Proof.
  revert l r. induction m2 as [|x m2 IH] using rev_ind; intros l r H.
  { rewrite app_nil_r in H. eauto. }
  rewrite app_assoc in H. apply interleaves_snoc in H as [(l' & -> & H)|(r' & -> & H)];
    destruct (IH _ _ H) as (l1 & r1 & Hl & Hr & Hi); exists l1, r1; split_and!; try done; by apply prefix_app_r.
Qed.

Lemma interleaves_elem {A} (l r m : list A) x : interleaves l r m → x ∈ m ↔ x ∈ l ∨ x ∈ r.
Proof. induction 1; set_solver. Qed.

Lemma interleaves_length {A} (l r m : list A) : interleaves l r m → length m = (length l + length r)%nat.
Proof. induction 1 as [| |]; rewrite ?length_app; simpl in *; lia. Qed.
