(* ===== verification/SortedVec.v ===== *)
(** * Sorted vectors

    The receivers keep their pending objects in vectors sorted by sequence
    number and search them with the standard library's binary search.  This
    file holds the search loop, the reference definition it is equivalent to
    on sorted vectors, and how insertion, removal, replacement and draining
    keep a vector sorted. *)

From stdpp Require Import prelude list.
From Stdlib Require Import ZArith Lia Sorting.Sorted.
From S2P Require Import Prelude.
Open Scope Z_scope.

(** The result of [binary_search_by_key]: [Ok(index)] or [Err(index)]. *)
Inductive search := Found (i : nat) | NotFound (i : nat).

#[export] Instance search_eq_dec : EqDecision search.
Proof. solve_decision. Defined.

Section Search.
Context {A : Type} (key : A → Z).
Implicit Types (l : list A) (k : Z).

(** The loop of [slice::binary_search_by]: [size] candidates from [base] on. *)
Fixpoint search_loop (fuel : nat) (k : Z) (l : list A) (size base : nat) : nat :=
  match fuel with
  | O => base
  | S fuel =>
      if (1 <? size)%nat then
        let half := (size / 2)%nat in
        let mid := (base + half)%nat in
        let base' := match l !! mid with
                     | Some x => if k <? key x then base else mid
                     | None => base
                     end in
        search_loop fuel k l (size - half) base'
      else base
  end.

Definition binary_search_by_key (k : Z) (l : list A) : search :=
  match length l with
  | O => NotFound 0
  | size =>
      let base := search_loop size k l size 0 in
      match l !! base with
      | Some x => if key x =? k then Found base
                  else NotFound (if key x <? k then S base else base)
      | None => NotFound base
      end
  end.

(** Strictly increasing keys *)
Definition sorted_by (l : list A) : Prop := StronglySorted Z.lt (key <$> l).

(** Reference: the number of leading elements with a key below [k]. *)
Fixpoint lower_bound (k : Z) (l : list A) : nat :=
  match l with
  | [] => O
  | x :: l => if key x <? k then S (lower_bound k l) else O
  end.

Definition linear_search (k : Z) (l : list A) : search :=
  let i := lower_bound k l in
  match l !! i with
  | Some x => if key x =? k then Found i else NotFound i
  | None => NotFound i
  end.

Lemma sorted_lookup_lt l i j x y :
  sorted_by l → (i < j)%nat → l !! i = Some x → l !! j = Some y → key x < key y.
Proof.
  unfold sorted_by. revert i j. induction l as [|z l IH]; intros i j Hs Hij Hi Hj; [done|].
  rewrite fmap_cons in Hs. apply StronglySorted_inv in Hs as [Hs Hz].
  destruct j as [|j]; [lia|]. destruct i as [|i]; simpl in *.
  - simplify_eq. rewrite Forall_fmap, Forall_lookup in Hz. by apply (Hz j).
  - apply (IH i j); [done|lia|done|done].
Qed.

Lemma sorted_lookup_le l i j x y :
  sorted_by l → (i ≤ j)%nat → l !! i = Some x → l !! j = Some y → key x ≤ key y.
Proof.
  intros Hs Hij Hi Hj. destruct (decide (i = j)) as [->|]; [simplify_eq; lia|].
  pose proof (sorted_lookup_lt l i j x y Hs ltac:(lia) Hi Hj). lia.
Qed.

Lemma lower_bound_unique k l i :
  (i ≤ length l)%nat →
  (∀ j x, (j < i)%nat → l !! j = Some x → key x < k) →
  (∀ x, l !! i = Some x → k ≤ key x) →
  lower_bound k l = i.
Proof.
  revert i. induction l as [|z l IH]; intros i Hi Hlt Hge; simpl in *; [lia|].
  destruct i as [|i].
  - specialize (Hge z eq_refl). destruct (Z.ltb_spec (key z) k); [lia|done].
  - pose proof (Hlt 0%nat z ltac:(lia) eq_refl).
    destruct (Z.ltb_spec (key z) k); [|lia]. f_equal.
    apply IH; [lia| |naive_solver]. intros j x Hj. apply (Hlt (S j)). lia.
Qed.

Definition loop_inv (k : Z) (l : list A) (size base : nat) : Prop :=
  (0 < size)%nat ∧ (base + size ≤ length l)%nat ∧
  (∀ j x, (base + size ≤ j)%nat → l !! j = Some x → k < key x) ∧
  (base = O ∨ ∃ x, l !! base = Some x ∧ key x ≤ k).

Lemma search_loop_inv fuel k l size base :
  sorted_by l → (size ≤ fuel)%nat → loop_inv k l size base →
  loop_inv k l 1 (search_loop fuel k l size base).
Proof.
  intros Hs. revert size base.
  induction fuel as [|fuel IH]; intros size base Hf Hinv; [unfold loop_inv in Hinv; lia|].
  cbn [search_loop]. destruct (Nat.ltb_spec 1 size) as [H1|H1]; last first.
  { assert (size = 1%nat) as -> by (unfold loop_inv in Hinv; lia). done. }
  destruct Hinv as (Hpos & Hlen & Hgt & Hle).
  assert (Hh : (0 < size / 2 < size)%nat).
  { split; [apply Nat.div_str_pos; lia|apply Nat.div_lt; lia]. }
  apply IH; [lia|].
  destruct (lookup_lt_is_Some_2 l (base + size / 2)) as [x Hx]; [lia|]. rewrite Hx.
  destruct (Z.ltb_spec k (key x)) as [Hk|Hk]; (split_and!; [lia|lia| |]).
  - intros j y Hj Hy. assert ((size - size / 2) = size / 2 ∨ size - size / 2 = S (size / 2))%nat as Hhalf.
    { pose proof (Nat.div_mod size 2). pose proof (Nat.mod_upper_bound size 2). lia. }
    pose proof (sorted_lookup_le l (base + size / 2) j x y Hs ltac:(lia) Hx Hy). lia.
  - done.
  - intros j y Hj Hy. apply (Hgt j); [lia|done].
  - eauto.
Qed.

(** The binary search agrees with the linear reference on sorted vectors. *)
Lemma binary_search_linear k l :
  sorted_by l → binary_search_by_key k l = linear_search k l.
Proof.
  intros Hs. unfold binary_search_by_key, linear_search.
  destruct (decide (l = [])) as [->|Hne]; [done|].
  assert (Hpos : (0 < length l)%nat) by (destruct l; simpl; [done|lia]).
  destruct (length l) as [|n] eqn:Hl; [lia|]. rewrite <- Hl.
  pose proof (search_loop_inv (length l) k l (length l) 0 Hs ltac:(lia)) as Hinv.
  destruct Hinv as (_ & Hb & Hgt & Hle).
  { split_and!; [lia|lia| |by left]. intros j x Hj Hx%lookup_lt_Some. lia. }
  set (b := search_loop _ _ _ _ _) in *. clearbody b.
  destruct (lookup_lt_is_Some_2 l b ltac:(lia)) as [x Hx]. rewrite Hx.
  assert (Hlow : ∀ j y, (j < b)%nat → l !! j = Some y → key y < key x).
  { intros j y Hj Hy. by apply (sorted_lookup_lt l j b). }
  destruct (Z.eqb_spec (key x) k) as [He|He]; [|destruct (Z.ltb_spec (key x) k) as [Hlt|Hlt]].
  - assert (lower_bound k l = b) as ->; [|rewrite Hx; by rewrite He, Z.eqb_refl].
    apply lower_bound_unique; [lia| |naive_solver lia].
    intros j y Hj Hy. pose proof (Hlow j y Hj Hy). lia.
  - assert (lower_bound k l = S b) as ->.
    { apply lower_bound_unique; [lia| |].
      - intros j y Hj Hy. pose proof (sorted_lookup_le l j b y x Hs ltac:(lia) Hy Hx). lia.
      - intros y Hy. pose proof (Hgt (S b) y ltac:(lia) Hy). lia. }
    destruct (l !! S b) as [y|] eqn:Hy; [|done].
    pose proof (Hgt (S b) y ltac:(lia) Hy). by destruct (Z.eqb_spec (key y) k); [lia|].
  - destruct Hle as [->|(y & Hy & Hyk)]; [|simplify_eq; lia].
    assert (lower_bound k l = 0%nat) as ->.
    { apply lower_bound_unique; [lia|intros; lia|]. intros y Hy. simplify_eq. lia. }
    rewrite Hx. by destruct (Z.eqb_spec (key x) k).
Qed.

Lemma linear_search_found k l i :
  linear_search k l = Found i → ∃ x, l !! i = Some x ∧ key x = k.
Proof.
  unfold linear_search. destruct (l !! _) as [x|] eqn:Hx; [|done].
  destruct (Z.eqb_spec (key x) k); naive_solver.
Qed.

Lemma lower_bound_le k l : (lower_bound k l ≤ length l)%nat.
Proof. induction l; simpl; [lia|]. destruct (_ <? _); lia. Qed.

Lemma take_lower_bound k l : Forall (λ x, key x < k) (take (lower_bound k l) l).
Proof.
  induction l as [|x l IH]; simpl; [constructor|].
  destruct (Z.ltb_spec (key x) k); simpl; by constructor.
Qed.

Lemma sorted_cons x l : sorted_by (x :: l) ↔ sorted_by l ∧ Forall (λ y, key x < key y) l.
Proof.
  unfold sorted_by. rewrite fmap_cons. split.
  - intros [? H]%StronglySorted_inv. by rewrite Forall_fmap in H.
  - intros [? H]. constructor; [done|]. by rewrite Forall_fmap.
Qed.

Lemma drop_lower_bound k l : sorted_by l → Forall (λ x, k ≤ key x) (drop (lower_bound k l) l).
Proof.
  induction l as [|x l IH]; simpl; [constructor|].
  intros [Hs Hx]%sorted_cons. destruct (Z.ltb_spec (key x) k); simpl; [by apply IH|].
  constructor; [done|]. eapply Forall_impl; [done|]. simpl. lia.
Qed.

Lemma linear_search_not_found k l i :
  sorted_by l → linear_search k l = NotFound i →
  i = lower_bound k l ∧ Forall (λ x, k < key x) (drop i l) ∧ Forall (λ x, key x ≠ k) l.
Proof.
  unfold linear_search. intros Hs Hf.
  assert (i = lower_bound k l) as -> by (repeat case_match; congruence).
  assert (Hd : Forall (λ x, k < key x) (drop (lower_bound k l) l)).
  { pose proof (drop_lower_bound k l Hs) as Hge.
    rewrite Forall_lookup in Hge |- *. intros j y Hj. rewrite lookup_drop in Hj.
    destruct (l !! lower_bound k l) as [x|] eqn:Hx; last first.
    { apply lookup_ge_None in Hx. apply lookup_lt_Some in Hj. lia. }
    destruct (Z.eqb_spec (key x) k); [done|].
    pose proof (Hge 0%nat x) as H0. rewrite lookup_drop, Nat.add_0_r in H0. specialize (H0 Hx).
    pose proof (sorted_lookup_le l _ _ x y Hs (Nat.le_add_r _ j) Hx Hj). lia. }
  split_and!; [done|done|]. rewrite <- (take_drop (lower_bound k l) l). apply Forall_app. split.
  - eapply Forall_impl; [apply take_lower_bound|]. simpl. lia.
  - eapply Forall_impl; [done|]. simpl. lia.
Qed.

Lemma linear_search_elem k l :
  sorted_by l → (∃ x, x ∈ l ∧ key x = k) ↔ ∃ i, linear_search k l = Found i.
Proof.
  intros Hs. split.
  - intros (x & Hx & Hk). destruct (linear_search k l) as [i|i] eqn:Hf; [eauto|].
    apply linear_search_not_found in Hf as (_ & _ & Hn); [|done].
    rewrite Forall_forall in Hn. by destruct (Hn x).
  - intros [i (x & Hx & Hk)%linear_search_found]. exists x. split; [|done].
    by eapply list_elem_of_lookup_2.
Qed.

(** ** Structural operations on sorted vectors *)

(** [Vec::insert(i, x)] for [i <= len] *)
Definition vec_insert (i : nat) (x : A) (l : list A) : list A := take i l ++ x :: drop i l.

Lemma vec_insert_perm i x l : vec_insert i x l ≡ₚ x :: l.
Proof. unfold vec_insert. rewrite <- Permutation_middle. by rewrite take_drop. Qed.

Lemma vec_insert_lookup i x l : (i ≤ length l)%nat → vec_insert i x l !! i = Some x.
Proof.
  intros Hi. unfold vec_insert. rewrite lookup_app_r; rewrite length_take; [|lia].
  by replace (i - i `min` length l)%nat with 0%nat by lia.
Qed.

Lemma vec_insert_length i x l : length (vec_insert i x l) = S (length l).
Proof. by rewrite vec_insert_perm. Qed.

Lemma sorted_app l1 l2 :
  sorted_by (l1 ++ l2) ↔
  sorted_by l1 ∧ sorted_by l2 ∧ (∀ x y, x ∈ l1 → y ∈ l2 → key x < key y).
Proof.
  induction l1 as [|z l1 IH]; simpl.
  - split; [|naive_solver]. intros ?. split_and!; [constructor|done|]. by intros ? ? ?%not_elem_of_nil.
  - rewrite !sorted_cons, IH, Forall_app, !Forall_forall. setoid_rewrite elem_of_cons. naive_solver.
Qed.

Lemma sorted_vec_insert k x l :
  sorted_by l → key x = k → Forall (λ y, key y ≠ k) l →
  sorted_by (vec_insert (lower_bound k l) x l).
Proof.
  intros Hs Hx Hn. unfold vec_insert.
  pose proof (take_lower_bound k l) as Ht. pose proof (drop_lower_bound k l Hs) as Hd.
  assert (Hs' := Hs). rewrite <- (take_drop (lower_bound k l) l) in Hs', Hn.
  apply sorted_app in Hs' as (H1 & H2 & H3). apply Forall_app in Hn as [_ Hn].
  rewrite Forall_forall in Ht, Hd, Hn.
  apply sorted_app. split_and!; [done| |].
  - apply sorted_cons. split; [done|]. apply Forall_forall. intros y Hy.
    specialize (Hd y Hy). specialize (Hn y Hy). simpl in *. lia.
  - intros a b Ha [->|Hb]%elem_of_cons; [|by apply H3]. specialize (Ht a Ha). simpl in Ht. lia.
Qed.

Lemma sorted_replace i x y l :
  sorted_by l → l !! i = Some x → key y = key x → sorted_by (<[i:=y]> l).
Proof.
  intros Hs Hx Hk. unfold sorted_by. rewrite list_fmap_insert, list_insert_id; [done|].
  by rewrite list_lookup_fmap, Hx, Hk.
Qed.

Lemma sorted_delete i l : sorted_by l → sorted_by (delete i l).
Proof.
  revert i. induction l as [|x l IH]; intros [|i]; simpl; [done|done| |].
  - by intros [? _]%sorted_cons.
  - intros [Hs Hx]%sorted_cons. apply sorted_cons. split; [by apply IH|].
    rewrite Forall_forall in Hx |- *. intros y Hy. apply Hx.
    by apply (sublist_subseteq (delete i l)); [apply sublist_delete|].
Qed.

Lemma sorted_drop n l : sorted_by l → sorted_by (drop n l).
Proof.
  intros Hs. rewrite <- (take_drop n l) in Hs. by apply sorted_app in Hs as (_ & ? & _).
Qed.

Lemma sorted_key_inj l x y : sorted_by l → x ∈ l → y ∈ l → key x = key y → x = y.
Proof.
  intros Hs [i Hi]%list_elem_of_lookup [j Hj]%list_elem_of_lookup Hk.
  destruct (Nat.lt_trichotomy i j) as [Hij|[->|Hij]].
  - pose proof (sorted_lookup_lt l i j x y Hs Hij Hi Hj). lia.
  - congruence.
  - pose proof (sorted_lookup_lt l j i y x Hs Hij Hj Hi). lia.
Qed.

Lemma insert_delete_perm i (x y : A) l :
  l !! i = Some x → <[i:=y]> l ≡ₚ y :: delete i l.
Proof.
  intros Hx. rewrite insert_take_drop by (by eapply lookup_lt_Some).
  rewrite delete_take_drop, <- Permutation_middle. done.
Qed.
End Search.

Arguments vec_insert {A} i x l.

Create HintDb sorted_vec.
#[export] Hint Resolve sorted_delete sorted_drop sorted_vec_insert : sorted_vec.

(** Result of a search in a sorted vector, in one step. *)
Lemma binary_search_cases {A} (key : A → Z) k l :
  sorted_by key l →
  (∃ i x, binary_search_by_key key k l = Found i ∧ l !! i = Some x ∧ key x = k) ∨
  (binary_search_by_key key k l = NotFound (lower_bound key k l) ∧ Forall (λ x, key x ≠ k) l).
Proof.
  intros Hs. rewrite binary_search_linear by done.
  destruct (linear_search key k l) as [i|i] eqn:Hf.
  - left. apply linear_search_found in Hf as (x & ? & ?). eauto.
  - right. apply linear_search_not_found in Hf as (-> & _ & ?); done.
Qed.

(** What comes after a key stays when everything before it is dropped. *)
Lemma kept_after_search {A} (key : A → Z) u l x :
  sorted_by key l → x ∈ l → u < key x →
  x ∈ drop (match binary_search_by_key key u l with Found i => i | NotFound i => i end) l.
Proof.
  intros Hs Hx Hu. set (i := match binary_search_by_key key u l with Found i => i | NotFound i => i end).
  assert (Hi : ∀ y j, l !! j = Some y → (j < i)%nat → key y < u).
  { intros y j Hj Hlt. subst i. destruct (binary_search_cases key u l Hs) as [(i & z & Hb & Hz & <-)|[Hb _]]; rewrite Hb in Hlt.
    - by eapply sorted_lookup_lt.
    - pose proof (take_lower_bound key u l) as Hall. rewrite Forall_forall in Hall. apply Hall. apply elem_of_take. by exists j. }
  rewrite <- (take_drop i l) in Hx. apply elem_of_app in Hx as [(j & Hj & Hlt)%elem_of_take|]; [|done]. specialize (Hi x j Hj Hlt). lia.
Qed.
