(* ===== verification/Sequencer.v ===== *)
(** * Sequence-number unrolling

    Models [kyproto/src/protocol/driver/util/seq.rs]: a [Sequencer<T>] turns
    the wrapping 8, 16 or 32-bit sequence numbers of the wire into 64-bit
    numbers that do not wrap.  The [u64] arithmetic of [seq] is kept with its
    wrap-around. *)

From stdpp Require Import prelude.
From Stdlib Require Import ZArith Lia.
From S2P Require Import Prelude.
Open Scope Z_scope.

(** The types the macro [impl_sequencer!] is instantiated with, by width. *)
Inductive seq_type := SeqU8 | SeqU16 | SeqU32.

Definition size_bits (t : seq_type) : Z :=
  match t with SeqU8 => 8 | SeqU16 => 16 | SeqU32 => 32 end.

Record Sequencer := { newest_seq : Z }.

Definition Sequencer_new : Sequencer := {| newest_seq := 0 |}.

(** [!x] on [u64] *)
Definition not64 (x : Z) : Z := Z.lxor x (2 ^ 64 - 1).

Definition hi_mask (t : seq_type) : Z := not64 (Z.shiftl 1 (size_bits t) - 1).
Definition range (t : seq_type) : Z := Z.shiftl 1 (size_bits t).
Definition half_range (t : seq_type) : Z := Z.shiftl 1 (size_bits t - 1).

(** [Sequencer<T>::seq]: the unrolled number and the updated sequencer *)
Definition seq (t : seq_type) (self : Sequencer) (value : Z) : Z * Sequencer :=
  let newest := newest_seq self in
  let seq0 := wrap64 (Z.land newest (hi_mask t) + value) in
  let seq1 :=
    if wrap64 (seq0 + half_range t) <=? newest then wrap64 (seq0 + range t)
    else if (wrap64 (newest + half_range t) <? seq0) && (range t <=? seq0)
         then wrap64 (seq0 - range t)
         else seq0 in
  (seq1, if newest <? seq1 then {| newest_seq := seq1 |} else self).

(** The sequence of unrolled numbers for a sequence of wire values *)
Fixpoint seqs (t : seq_type) (self : Sequencer) (values : list Z) : list Z :=
  match values with
  | [] => []
  | v :: values => let '(n, self) := seq t self v in n :: seqs t self values
  end.

(** The assertions of [test_sequencer] and [test_sequencer_special]. *)
Example seqs_test :
  seqs SeqU8 Sequencer_new
    [0x12; 0x55; 0x44; 0x95; 0x00; 0xFF; 0x80; 0x00; 0x40; 0x80; 0x40; 0xC0; 0x40; 0xC1; 0xC0] =
    [0x12; 0x55; 0x44; 0x95; 0x100; 0xFF; 0x180; 0x200; 0x240; 0x280; 0x240; 0x2C0; 0x340; 0x2C1; 0x3C0].
Proof. vm_compute. reflexivity. Qed.

Example seqs_test_special : seqs SeqU8 Sequencer_new [0xFF; 0x00; 0xFF] = [0xFF; 0x100; 0xFF].
Proof. vm_compute. reflexivity. Qed.

(** ** Arithmetic reading of the constants *)

Lemma range_pow t : range t = 2 ^ size_bits t.
Proof. by destruct t. Qed.

Lemma range_half t : range t = 2 * half_range t ∧ 128 ≤ half_range t ≤ 2 ^ 31.
Proof. destruct t; vm_compute; intuition congruence. Qed.

Lemma land_hi_mask t n :
  is_u64 n → Z.land n (hi_mask t) = n - n mod range t.
Proof.
  intros [Hn Hn']. unfold hi_mask, not64. rewrite range_pow.
  assert (Hsz : 0 < size_bits t < 64) by (destruct t; simpl; lia).
  rewrite Z.shiftl_1_l. set (b := size_bits t) in *. clearbody b.
  replace (2 ^ b - 1) with (Z.ones b) by (rewrite Z.ones_equiv; lia).
  replace (2 ^ 64 - 1) with (Z.ones 64) by (rewrite Z.ones_equiv; lia).
  assert (Z.land n (Z.lxor (Z.ones b) (Z.ones 64)) = Z.ldiff n (Z.ones b)) as ->.
  { apply Z.bits_inj'. intros i Hi. rewrite Z.land_spec, Z.lxor_spec, Z.ldiff_spec.
    rewrite !Z.testbit_ones_nonneg by lia.
    destruct (Z.ltb_spec i 64).
    - by rewrite xorb_true_r.
    - rewrite (Z.bits_above_log2 n i); [done|done|].
      destruct (decide (n = 0)) as [->|]; [simpl; lia|].
      pose proof (Z.log2_lt_pow2 n 64 ltac:(lia)). lia. }
  rewrite Z.ldiff_ones_r by lia. rewrite Z.shiftl_mul_pow2, Z.shiftr_div_pow2 by lia.
  pose proof (Z.div_mod n (2 ^ b) ltac:(lia)). lia.
Qed.

(** A sequencer whose 64-bit counter is far from wrapping: it would take
    2^63 packets to leave this set. *)
Definition seq_room (self : Sequencer) : Prop := 0 ≤ newest_seq self < 2 ^ 63.

Lemma seq_arith t self v :
  seq_room self → 0 ≤ v < range t →
  let n := newest_seq self in
  let base := n - n mod range t + v in
  seq t self v =
  let s := if base + half_range t <=? n then base + range t
           else if (n + half_range t <? base) && (range t <=? base) then base - range t
           else base in
  (s, {| newest_seq := Z.max n s |}).
Proof.
  intros [Hn Hn'] Hv n base. unfold seq. assert (Hself : {| newest_seq := n |} = self) by by destruct self. fold n. rewrite land_hi_mask by (unfold is_u64, n; lia).
  destruct (range_half t) as [Hr Hh]. pose proof (Z.mod_pos_bound n (range t) ltac:(lia)) as Hm.
  pose proof (Z.mod_le n (range t) Hn ltac:(lia)) as Hm'.
  fold base. assert (Hb : 0 ≤ base < 2 ^ 63 + 2 ^ 32) by (unfold base, n in *; lia).
  unfold wrap64. clearbody base. assert (Hn2 : 0 ≤ n < 2 ^ 63) by (unfold n; lia). clearbody n. rewrite (Z.mod_small base) by lia.
  rewrite (Z.mod_small (base + half_range t)), (Z.mod_small (base + range t)),
    (Z.mod_small (n + half_range t)) by lia.
  set (s := if _ <=? _ then _ else _).
  assert (s = if base + half_range t <=? n then base + range t
     else if (n + half_range t <? base) && (range t <=? base) then base - range t else base) as Hs.
  { unfold s. destruct (_ <=? n); [done|]. destruct (_ <? base), (Z.leb_spec (range t) base); simpl; try done.
    apply Z.mod_small. lia. }
  rewrite <- Hs. clearbody s. f_equal. destruct (Z.ltb_spec n s).
  - by rewrite Z.max_r by lia.
  - by rewrite Z.max_l by lia.
Qed.

(** ** Recovery of the sender's counter *)

Lemma mod_shift_unique n x y m : 0 < m → x mod m = y mod m → n < x ≤ n + m → n < y ≤ n + m → x = y.
Proof.
  intros Hm Hxy Hx Hy.
  pose proof (Z.div_mod x m ltac:(lia)) as Hdx. pose proof (Z.div_mod y m ltac:(lia)) as Hdy.
  rewrite Hxy in Hdx. destruct (Z.lt_trichotomy (x / m) (y / m)) as [Hq|[Hq|Hq]]; [nia| |nia].
  rewrite Hq in Hdx. lia.
Qed.

Lemma seq_window t self v :
  seq_room self → 0 ≤ v < range t →
  let n := newest_seq self in
  let s := (seq t self v).1 in
  s mod range t = v ∧ 0 ≤ s ∧ s ≤ n + range t ∧
  (n - half_range t < s ≤ n + half_range t ∨ (s = v ∧ n + half_range t < s)).
Proof.
  intros Hroom Hv n s. unfold s. rewrite seq_arith by done. cbv zeta. fold n. simpl.
  destruct Hroom as [Hn Hn']. fold n in Hn, Hn'.
  destruct (range_half t) as [Hr Hh]. set (R := range t) in *. set (H := half_range t) in *.
  pose proof (Z.mod_pos_bound n R ltac:(lia)) as Hm.
  pose proof (Z.div_mod n R ltac:(lia)) as Hd. set (q := n / R) in *.
  assert (Hq : 0 ≤ q) by (apply Z.div_pos; lia).
  replace (n - n mod R + v) with (q * R + v) by lia.
  assert (Hmod : ∀ c, (c * R + v) mod R = v).
  { intros c. rewrite Z.add_comm, Z.mod_add by lia. by apply Z.mod_small. }
  destruct (Z.leb_spec (q * R + v + H) n).
  - replace (q * R + v + R) with ((q + 1) * R + v) by lia. rewrite Hmod. split_and!; [done|nia|lia|left; lia].
  - destruct (Z.ltb_spec (n + H) (q * R + v)); simpl.
    + destruct (Z.leb_spec R (q * R + v)).
      * replace (q * R + v - R) with ((q - 1) * R + v) by lia. rewrite Hmod. split_and!; [done|lia|lia|left; lia].
      * rewrite Hmod. assert (q = 0) as -> by nia. split_and!; [done|lia|lia|right; lia].
    + rewrite Hmod. split_and!; [done|nia|lia|left; lia].
Qed.

(** Shared by the receivers: the unrolled number is the sender's own counter
    as long as it stays within half a range of the newest one. *)
Lemma seq_recovers t self k :
  seq_room self → 0 ≤ k →
  newest_seq self - half_range t < k ≤ newest_seq self + half_range t →
  seq t self (k mod range t) = (k, {| newest_seq := Z.max (newest_seq self) k |}).
Proof.
  intros Hroom Hk Hwin. destruct (range_half t) as [Hr Hh].
  pose proof (Z.mod_pos_bound k (range t) ltac:(lia)) as Hv.
  destruct (seq_window t self _ Hroom Hv) as (Hmod & Hs0 & Hsu & Hcase).
  rewrite seq_arith in * by done. cbv zeta in *. cbn [fst] in *.
  set (s := if _ <=? _ then _ else _) in *. clearbody s.
  assert (s = k) as ->; [|done]. set (n := newest_seq self) in *.
  destruct Hcase as [Hc|[Hsv Hc]].
  - apply (mod_shift_unique (n - half_range t) s k (range t)); [lia| |lia|lia].
    by rewrite Hmod.
  - (* [k] itself is below the range, so [s] cannot be further than [k] *)
    pose proof (Z.mod_le k (range t) Hk ltac:(lia)). lia.
Qed.

(** A receiver of fewer than 2^31 numbers unrolls each to itself. *)
Definition newest (q : Sequencer) : Prop := ∃ n, q = {| newest_seq := n |} ∧ 0 ≤ n < 2 ^ 31.

Lemma seq_newest q k : newest q → 0 ≤ k < 2 ^ 31 → ∃ q', seq SeqU32 q k = (k, q') ∧ newest q'.
Proof.
  intros (n & -> & Hn) Hk. assert (Hm : k mod range SeqU32 = k) by (apply Z.mod_small; change (range SeqU32) with (2 ^ 32); lia).
  assert (Hs : seq SeqU32 {| newest_seq := n |} (k mod range SeqU32) = (k, {| newest_seq := Z.max n k |})).
  { apply seq_recovers; change (half_range SeqU32) with (2 ^ 31); unfold seq_room; cbn; lia. }
  rewrite Hm in Hs. eexists. split; [exact Hs|]. eexists. split; [done|]. lia.
Qed.

(** ** Whole streams *)

(** The sender's counters [ks] arrive with reordering bounded by half a range
    around the newest counter seen so far, which starts at [n]. *)
Fixpoint in_window (t : seq_type) (n : Z) (ks : list Z) : Prop :=
  match ks with
  | [] => True
  | k :: ks => (0 ≤ k < 2 ^ 63 ∧ n - half_range t < k ≤ n + half_range t) ∧ in_window t (Z.max n k) ks
  end.

#[export] Instance in_window_dec t n ks : Decision (in_window t n ks).
Proof. revert n. induction ks as [|k ks IH]; intros n; simpl; apply _. Defined.

(** C35: fed with the wire image (counter modulo the range of the type) of any
    stream of counters whose reordering stays within half a range, the
    sequencer returns exactly the sender's unwrapped counters. *)
Theorem seqs_recover_counters t self ks :
  seq_room self → in_window t (newest_seq self) ks →
  seqs t self ((λ k, k mod range t) <$> ks) = ks.
Proof.
  revert self. induction ks as [|k ks IH]; intros self Hroom Hwin; [done|].
  destruct Hwin as [[Hk Hw] Hwin]. cbn [fmap list_fmap seqs].
  rewrite seq_recovers by (done || lia). f_equal. apply IH; [|done].
  unfold seq_room in *. simpl. lia.
Qed.

Lemma seqs_recover_counters_witness :
  seqs SeqU16 {| newest_seq := 65530 |}
    ((λ k, k mod range SeqU16) <$> [65535; 65537; 65536; 33000; 98000]) = [65535; 65537; 65536; 33000; 98000].
Proof. apply seqs_recover_counters; [done|vm_compute; intuition congruence]. Defined.

(** Whatever the value received, the unrolled number is congruent to it
    modulo the range of the type, does not overflow 64 bits, lies within half a
    range of the newest number, or is the value itself when no number of that
    window is non-negative; and the newest number becomes the maximum. *)
Theorem seq_nearest t self v :
  seq_room self → 0 ≤ v < range t →
  let n := newest_seq self in
  let '(s, self') := seq t self v in
  s mod range t = v ∧ is_u64 s ∧ newest_seq self' = Z.max n s ∧
  (n - half_range t < s ≤ n + half_range t ∨ (s = v ∧ n + half_range t < v ∧ v - range t < 0)).
Proof.
  intros Hroom Hv n. pose proof (seq_window t self v Hroom Hv) as (Hm & H0 & Hu & Hc).
  rewrite seq_arith in * by done. cbv zeta in *. cbn [fst newest_seq] in *. fold n in Hm, H0, Hu, Hc |- *.
  set (s := if _ <=? _ then _ else _) in *. clearbody s.
  destruct (range_half t). unfold seq_room in Hroom. fold n in Hroom.
  split_and!; [done|unfold is_u64; lia|done|]. destruct Hc as [?|[-> ?]]; [by left|right; lia].
Qed.

Lemma seq_nearest_witness :
  let '(s, self') := seq SeqU32 {| newest_seq := 4294967294 |} 3 in
  s mod range SeqU32 = 3 ∧ is_u64 s ∧ newest_seq self' = Z.max 4294967294 s ∧
  (4294967294 - half_range SeqU32 < s ≤ 4294967294 + half_range SeqU32 ∨
   (s = 3 ∧ 4294967294 + half_range SeqU32 < 3 ∧ 3 - range SeqU32 < 0)).
Proof. apply (seq_nearest SeqU32 {| newest_seq := 4294967294 |} 3); vm_compute; intuition congruence. Defined.
