(* ===== verification/Io.v ===== *)
(** * Byte streams

    The asynchronous readers and writers the packets are read from and written
    to.  A reader holds the chunks that [AsyncRead::read] will deliver one at a
    time and how the stream ends; a writer the bytes written so far and the
    number of [write_all] calls that still succeed. *)

From stdpp Require Import prelude list.
From Stdlib Require Import ZArith Lia.
From S2P Require Import Prelude.
Open Scope Z_scope.

(** [std::io::ErrorKind], as far as the code distinguishes it *)
Inductive ErrorKind :=
| UnexpectedEof | InvalidInput | InvalidData | ConnectionAborted | AddrInUse | BrokenPipe | Other.

#[export] Instance ErrorKind_eq_dec : EqDecision ErrorKind.
Proof. solve_decision. Defined.

Abbreviation io := (outcome ErrorKind).

(** ** Readers *)

Record Reader := { rd_chunks : list bytes; rd_fail : option ErrorKind }.

Definition rd_data (r : Reader) : bytes := concat (rd_chunks r).

Definition end_error (r : Reader) : ErrorKind := default UnexpectedEof (rd_fail r).

(** The reader after it has failed: everything before its end was consumed. *)
Definition exhausted (r : Reader) : Reader := {| rd_chunks := []; rd_fail := rd_fail r |}.

Fixpoint take_chunk (n : nat) (cs : list bytes) : option (bytes * list bytes) :=
  match cs with
  | [] => None
  | [] :: cs => take_chunk n cs
  | c :: cs => Some (take n c, drop n c :: cs)
  end.

(** [reader.read(&mut buf)] with a buffer of [n > 0] bytes: some bytes of the
    next chunk, none at the end of the stream *)
Definition read (n : nat) (r : Reader) : io (bytes * Reader) :=
  match take_chunk n (rd_chunks r) with
  | Some (b, cs) => Ok (b, {| rd_chunks := cs; rd_fail := rd_fail r |})
  | None => match rd_fail r with None => Ok ([], r) | Some e => Err e end
  end.

Fixpoint exact_chunks (n : nat) (cs : list bytes) : option (bytes * list bytes) :=
  match cs with
  | [] => if decide (n = O) then Some ([], []) else None
  | c :: cs =>
      if decide (length c ≤ n)%nat then
        match exact_chunks (n - length c) cs with
        | Some (b, cs) => Some (c ++ b, cs)
        | None => None
        end
      else Some (take n c, drop n c :: cs)
  end.

(** [reader.read_exact(&mut buf)] with a buffer of [n] bytes *)
Definition read_exact (n : nat) (r : Reader) : io (bytes * Reader) :=
  match exact_chunks n (rd_chunks r) with
  | Some (b, cs) => Ok (b, {| rd_chunks := cs; rd_fail := rd_fail r |})
  | None => Err (end_error r)
  end.

Lemma exact_chunks_spec n cs :
  match exact_chunks n cs with
  | Some (b, cs') => (n ≤ length (concat cs))%nat ∧ b = take n (concat cs) ∧ concat cs' = drop n (concat cs)
  | None => (length (concat cs) < n)%nat
  end.
Proof.
  revert n. induction cs as [|c cs IH]; intros n; cbn [exact_chunks concat].
  { case_decide; [subst; done|simpl; lia]. }
  rewrite length_app. case_decide as Hc.
  - specialize (IH (n - length c)%nat). destruct (exact_chunks _ _) as [[b cs']|]; [|lia].
    destruct IH as (Hl & -> & ->). split_and!; [lia| |].
    + by rewrite take_app_ge by lia.
    + by rewrite drop_app_ge by lia.
  - split_and!; [lia| |].
    + by rewrite take_app_le by lia.
    + cbn [concat]. by rewrite drop_app_le by lia.
Qed.

Lemma take_chunk_spec n cs :
  (0 < n)%nat →
  match take_chunk n cs with
  | Some (b, cs') => b ≠ [] ∧ (length b ≤ n)%nat ∧ concat cs = b ++ concat cs'
  | None => concat cs = []
  end.
Proof.
  intros Hn. induction cs as [|[|x c] cs IH]; cbn [take_chunk concat]; [done|done|].
  split_and!.
  - destruct n; [lia|done].
  - rewrite length_take. lia.
  - cbn [concat]. rewrite app_assoc. by rewrite take_drop.
Qed.

(** What follows a well-delimited prefix [b] of the stream. *)
Lemma read_exact_app n r b rest :
  rd_data r = b ++ rest → length b = n →
  ∃ r', read_exact n r = Ok (b, r') ∧ rd_data r' = rest ∧ rd_fail r' = rd_fail r.
Proof.
  unfold rd_data, read_exact. intros Hd Hn. pose proof (exact_chunks_spec n (rd_chunks r)) as Hs.
  rewrite Hd in Hs. destruct (exact_chunks _ _) as [[b' cs']|].
  - destruct Hs as (_ & Hb & Hcs). rewrite take_app_length' in Hb by done.
    rewrite drop_app_length' in Hcs by done. subst b'. eauto.
  - rewrite length_app in Hs. lia.
Qed.

Lemma read_exact_short n r :
  (length (rd_data r) < n)%nat → read_exact n r = Err (end_error r).
Proof.
  unfold rd_data, read_exact. intros Hn. pose proof (exact_chunks_spec n (rd_chunks r)) as Hs.
  destruct (exact_chunks _ _) as [[b' cs']|]; [lia|done].
Qed.

Lemma read_exact_inv n r b r' :
  read_exact n r = Ok (b, r') → rd_data r = b ++ rd_data r' ∧ length b = n ∧ rd_fail r' = rd_fail r.
Proof.
  unfold rd_data, read_exact. pose proof (exact_chunks_spec n (rd_chunks r)) as Hs.
  destruct (exact_chunks _ _) as [[b' cs']|]; [|done]. intros [= <- <-]. destruct Hs as (Hl & -> & Hcs).
  simpl. rewrite Hcs, take_drop. split_and!; [done| |done]. rewrite length_take. lia.
Qed.

(** ** Writers *)

Record Writer := { w_out : bytes; w_budget : option nat }.

Definition writing (A : Type) : Type := Writer → Writer * io A.

#[export] Instance writing_ret : MRet writing := λ A a w, (w, Ok a).
#[export] Instance writing_bind : MBind writing := λ A B f m w,
  match m w with
  | (w, Ok a) => f a w
  | (w, Err e) => (w, Err e)
  | (w, Panic) => (w, Panic)
  end.

(** [writer.write_all(bs)] *)
Definition write_all (bs : bytes) : writing unit := λ w,
  match w_budget w with
  | Some O => (w, Err BrokenPipe)
  | Some (S n) => ({| w_out := w_out w ++ bs; w_budget := Some n |}, Ok tt)
  | None => ({| w_out := w_out w ++ bs; w_budget := None |}, Ok tt)
  end.

(** [writer.flush()]: no bytes are held back by the model *)
Definition flush : writing unit := λ w,
  match w_budget w with Some O => (w, Err BrokenPipe) | _ => (w, Ok tt) end.

(** Runs pure fallible code inside a writing computation. *)
Definition lift_io {A} (m : io A) : writing A := λ w, (w, m).

(** A writer that never fails *)
Definition open_writer (bs : bytes) : Writer := {| w_out := bs; w_budget := None |}.

Lemma write_all_open bs out : write_all bs (open_writer out) = (open_writer (out ++ bs), Ok tt).
Proof. done. Qed.

Lemma writing_bind_eq {A B} (m : writing A) (f : A → writing B) w w' a :
  m w = (w', Ok a) → (m ≫= f) w = f a w'.
Proof. intros H. unfold mbind, writing_bind. by rewrite H. Qed.

(** ** Serializable packets

    Models the trait of [kymux-types/src/serial.rs]; the law says that a
    packet accepted by [wf] survives the trip whatever follows it and however
    the stream is chunked. *)

Class Serializable (P : Type) := {
  ser_write : P → writing unit;
  ser_read : Reader → io (option P * Reader);
}.

Class SerializableLaws (P : Type) `{Serializable P} (wf : P → Prop) := {
  ser_encoding : P → bytes;
  ser_write_ok p out :
    wf p → ser_write p (open_writer out) = (open_writer (out ++ ser_encoding p), Ok tt);
  ser_read_ok p r rest :
    wf p → rd_data r = ser_encoding p ++ rest →
    ∃ r', ser_read r = Ok (Some p, r') ∧ rd_data r' = rest ∧ rd_fail r' = rd_fail r;
}.
