(* ===== verification/Av.v ===== *)
(** * Audio/video packets

    Models [kymux-types/src/av.rs]: the three packet kinds, their 12-byte
    headers with the bit layout of the source, and the [Serializable]
    implementation of [AVPacket]. *)

From stdpp Require Import prelude list.
From Stdlib Require Import ZArith Lia.
From S2P Require Import Prelude Io.
Open Scope Z_scope.

Record CodecPacketHeader := { codec : Z; rotation : Z; frame_size : Z }.
Record MediaPacketHeader := { is_config : bool; is_key : bool; pts : Z; size : Z }.
Record HolePacketHeader := { missing_audio_samples : Z }.

Record CodecPacket := { codec_header : CodecPacketHeader }.
Record MediaPacket := { header : MediaPacketHeader; payload : bytes }.
Record HolePacket := { hole_header : HolePacketHeader }.

Inductive AVPacket :=
| Codec (p : CodecPacket)
| Media (p : MediaPacket)
| Hole (p : HolePacket).

Inductive AVPacketHeader :=
| CodecH (h : CodecPacketHeader)
| MediaH (h : MediaPacketHeader)
| HoleH (h : HolePacketHeader).

#[export] Instance CodecPacketHeader_eq_dec : EqDecision CodecPacketHeader.
Proof. solve_decision. Defined.
#[export] Instance MediaPacketHeader_eq_dec : EqDecision MediaPacketHeader.
Proof. solve_decision. Defined.
#[export] Instance HolePacketHeader_eq_dec : EqDecision HolePacketHeader.
Proof. solve_decision. Defined.
#[export] Instance CodecPacket_eq_dec : EqDecision CodecPacket.
Proof. solve_decision. Defined.
#[export] Instance MediaPacket_eq_dec : EqDecision MediaPacket.
Proof. solve_decision. Defined.
#[export] Instance HolePacket_eq_dec : EqDecision HolePacket.
Proof. solve_decision. Defined.
#[export] Instance AVPacket_eq_dec : EqDecision AVPacket.
Proof. solve_decision. Defined.

Definition SERIALIZED_SIZE : nat := 12.

(** [buf[off..off + bs.len()].copy_from_slice(bs)] *)
Definition splice (off : nat) (bs buf : bytes) : bytes :=
  take off buf ++ bs ++ drop (off + length bs) buf.

(** [buf[off..len].fill(0)] *)
Definition zero_from (off len : nat) (buf : bytes) : bytes := splice off (replicate (len - off) 0) buf.

Definition slice (off len : nat) (buf : bytes) : bytes := take len (drop off buf).
Definition byte_at (i : nat) (buf : bytes) : Z := default 0 (buf !! i).

Section Headers.
Context {E : Type}.

(** ** [CodecPacketHeader] *)

Definition codec_serialize_to (self : CodecPacketHeader) (buf : bytes) : outcome E bytes :=
  _ ← rassert (bool_decide (length buf = SERIALIZED_SIZE));
  let buf := splice 0 (be_bytes 4 (codec self)) buf in
  let buf := splice 4 [rotation self] buf in
  let buf := splice 5 (be_bytes 2 (frame_size self)) buf in
  Ok (zero_from 7 SERIALIZED_SIZE buf).

Definition codec_serialize (self : CodecPacketHeader) : outcome E bytes :=
  codec_serialize_to self (replicate SERIALIZED_SIZE 0).

Definition codec_deserialize (buf : bytes) : outcome E CodecPacketHeader :=
  _ ← rassert (bool_decide (length buf = SERIALIZED_SIZE));
  _ ← rassert (Z.land (byte_at 0 buf) 0x80 =? 0);
  Ok {| codec := read_be (slice 0 4 buf);
        rotation := byte_at 4 buf;
        frame_size := read_be (slice 5 2 buf) |}.

(** ** [MediaPacketHeader] *)

Definition pts_and_flags (self : MediaPacketHeader) : Z :=
  let v := Z.lor (pts self) (Z.shiftl 1 63) in
  let v := if is_config self then Z.lor v (Z.shiftl 1 62) else v in
  if is_key self then Z.lor v (Z.shiftl 1 61) else v.

Definition media_serialize_to (self : MediaPacketHeader) (buf : bytes) : outcome E bytes :=
  _ ← rassert (bool_decide (length buf = SERIALIZED_SIZE));
  _ ← rassert (Z.land (pts self) (Z.lxor 0x1FFFFFFFFFFFFFFF (2 ^ 64 - 1)) =? 0);
  let buf := splice 0 (be_bytes 8 (pts_and_flags self)) buf in
  Ok (splice 8 (be_bytes 4 (size self)) buf).

Definition media_serialize (self : MediaPacketHeader) : outcome E bytes :=
  media_serialize_to self (replicate SERIALIZED_SIZE 0).

Definition media_deserialize (buf : bytes) : outcome E MediaPacketHeader :=
  _ ← rassert (bool_decide (length buf = SERIALIZED_SIZE));
  _ ← rassert (negb (Z.land (byte_at 0 buf) 0x80 =? 0));
  let v := read_be (slice 0 8 buf) in
  Ok {| is_config := negb (Z.land v (Z.shiftl 1 62) =? 0);
        is_key := negb (Z.land v (Z.shiftl 1 61) =? 0);
        pts := Z.land v (Z.shiftl 1 61 - 1);
        size := read_be (slice 8 4 buf) |}.

(** ** [HolePacketHeader] *)

Definition hole_serialize_to (self : HolePacketHeader) (buf : bytes) : outcome E bytes :=
  _ ← rassert (bool_decide (length buf = SERIALIZED_SIZE));
  let buf := zero_from 0 4 buf in
  let buf := splice 4 (be_bytes 4 (missing_audio_samples self)) buf in
  Ok (zero_from 8 SERIALIZED_SIZE buf).

Definition hole_serialize (self : HolePacketHeader) : outcome E bytes :=
  hole_serialize_to self (replicate SERIALIZED_SIZE 0).

Definition first_four_zero (buf : bytes) : bool :=
  (byte_at 0 buf =? 0) && (byte_at 1 buf =? 0) && (byte_at 2 buf =? 0) && (byte_at 3 buf =? 0).

Definition hole_deserialize (buf : bytes) : outcome E HolePacketHeader :=
  _ ← rassert (bool_decide (length buf = SERIALIZED_SIZE));
  _ ← rassert (first_four_zero buf);
  let n := read_be (slice 4 4 buf) in
  _ ← rassert (0 <? n);
  Ok {| missing_audio_samples := n |}.

(** ** [AVPacketHeader::deserialize] *)

Definition av_deserialize (buf : bytes) : outcome E AVPacketHeader :=
  _ ← rassert (bool_decide (length buf = SERIALIZED_SIZE));
  if negb (Z.land (byte_at 0 buf) 0x80 =? 0) then
    h ← media_deserialize buf; Ok (MediaH h)
  else if first_four_zero buf then
    h ← hole_deserialize buf; Ok (HoleH h)
  else
    h ← codec_deserialize buf; Ok (CodecH h).
End Headers.

(** ** [impl Serializable for AVPacket] *)

Definition av_write (self : AVPacket) : writing unit :=
  match self with
  | Codec p => hdr ← lift_io (codec_serialize (codec_header p)); write_all hdr
  | Media p => hdr ← lift_io (media_serialize (header p)); _ ← write_all hdr; write_all (payload p)
  | Hole p => hdr ← lift_io (hole_serialize (hole_header p)); write_all hdr
  end.

Definition av_read (r : Reader) : io (option AVPacket * Reader) :=
  match read_exact SERIALIZED_SIZE r with
  | Err UnexpectedEof => Ok (None, exhausted r)
  | Err e => Err e
  | Panic => Panic
  | Ok (hdr, r) =>
      h ← av_deserialize hdr;
      match h with
      | MediaH h =>
          '(buf, r) ← read_exact (Z.to_nat (size h)) r;
          Ok (Some (Media {| header := h; payload := buf |}), r)
      | CodecH h => Ok (Some (Codec {| codec_header := h |}), r)
      | HoleH h => Ok (Some (Hole {| hole_header := h |}), r)
      end
  end.

#[export] Instance AVPacket_Serializable : Serializable AVPacket := {
  ser_write := av_write;
  ser_read := av_read;
}.

(** ** Bit-level lemmas *)

Lemma land_bit_eqb x k : 0 ≤ k → (Z.land x (Z.shiftl 1 k) =? 0) = negb (Z.testbit x k).
Proof.
  intros Hk. rewrite Z.shiftl_1_l. destruct (Z.testbit x k) eqn:Hb; simpl.
  - apply Z.eqb_neq. intros H0. apply (f_equal (λ z, Z.testbit z k)) in H0.
    rewrite Z.land_spec, Hb, Z.pow2_bits_true, Z.bits_0 in H0; done.
  - apply Z.eqb_eq. apply Z.bits_inj'. intros i Hi. rewrite Z.land_spec, Z.bits_0.
    destruct (decide (i = k)) as [->|]; [by rewrite Hb|].
    rewrite Z.pow2_bits_false by done. apply andb_false_r.
Qed.

Lemma testbit_small x n i : 0 ≤ x < 2 ^ n → n ≤ i → Z.testbit x i = false.
Proof.
  intros [H0 Hx] Hi. destruct (decide (x = 0)) as [->|]; [apply Z.bits_0|].
  apply Z.bits_above_log2; [done|]. pose proof (Z.log2_lt_pow2 x n ltac:(lia)). lia.
Qed.

Lemma shiftl1_bit k i : 0 ≤ k → 0 ≤ i → Z.testbit (Z.shiftl 1 k) i = bool_decide (i = k).
Proof.
  intros Hk Hi. rewrite Z.shiftl_1_l. case_bool_decide as Heq; [subst; by apply Z.pow2_bits_true|].
  apply Z.pow2_bits_false. congruence.
Qed.

Lemma pts_and_flags_bit h i :
  0 ≤ i →
  Z.testbit (pts_and_flags h) i =
  (Z.testbit (pts h) i || bool_decide (i = 63) || (is_config h && bool_decide (i = 62))
   || (is_key h && bool_decide (i = 61))).
Proof.
  intros Hi. unfold pts_and_flags.
  destruct (is_config h), (is_key h); rewrite ?Z.lor_spec, ?shiftl1_bit by lia;
    rewrite ?andb_true_l, ?andb_false_l, ?orb_false_r; done.
Qed.

Definition wf_media (h : MediaPacketHeader) : Prop := 0 ≤ pts h < 2 ^ 61 ∧ is_u32 (size h).

Lemma pts_and_flags_u64 h : wf_media h → is_u64 (pts_and_flags h).
Proof.
  intros [Hp _]. assert (Hn : 0 ≤ pts_and_flags h).
  { unfold pts_and_flags. destruct (is_config h), (is_key h); rewrite ?Z.lor_nonneg; split_and?; try lia; done. }
  split; [done|]. destruct (decide (pts_and_flags h = 0)) as [->|]; [lia|].
  apply Z.log2_lt_pow2; [lia|]. destruct (Z.lt_ge_cases (Z.log2 (pts_and_flags h)) 64) as [|Hge]; [done|].
  pose proof (Z.bit_log2 (pts_and_flags h) ltac:(lia)) as Hb.
  rewrite pts_and_flags_bit in Hb by (apply Z.log2_nonneg).
  rewrite (testbit_small _ 61) in Hb by lia.
  rewrite !bool_decide_false in Hb by lia. by destruct (is_config h), (is_key h).
Qed.

Lemma pts_mask_zero p :
  is_u64 p → (Z.land p (Z.lxor 0x1FFFFFFFFFFFFFFF (2 ^ 64 - 1)) =? 0) = true ↔ p < 2 ^ 61.
Proof.
  intros Hp. change (Z.lxor 0x1FFFFFFFFFFFFFFF (2 ^ 64 - 1)) with (Z.shiftl (Z.ones 3) 61).
  rewrite Z.eqb_eq. split.
  - intros H0. destruct (decide (p = 0)) as [->|]; [lia|].
    apply Z.log2_lt_pow2; [unfold is_u64 in *; lia|].
    destruct (Z.lt_ge_cases (Z.log2 p) 61) as [|Hge]; [done|].
    apply (f_equal (λ z, Z.testbit z (Z.log2 p))) in H0.
    pose proof (Z.log2_lt_pow2 p 64 ltac:(unfold is_u64 in *; lia)).
    rewrite Z.land_spec, Z.bits_0, Z.bit_log2, Z.shiftl_spec, Z.testbit_ones_nonneg in H0
      by (unfold is_u64 in *; lia).
    destruct (Z.ltb_spec (Z.log2 p - 61) 3); unfold is_u64 in *; [done|lia].
  - intros Hlt. apply Z.bits_inj'. intros i Hi. rewrite Z.land_spec, Z.bits_0, Z.shiftl_spec by done.
    destruct (Z.lt_ge_cases i 61).
    + rewrite (Z.testbit_neg_r _ (i - 61)) by lia. apply andb_false_r.
    + by rewrite (testbit_small p 61) by (unfold is_u64 in *; lia).
Qed.

Lemma media_serialize_eq {E} h :
  wf_media h →
  media_serialize (E:=E) h = Ok (be_bytes 8 (pts_and_flags h) ++ be_bytes 4 (size h)).
Proof.
  intros [Hp Hs]. unfold media_serialize, media_serialize_to.
  rewrite (proj2 (pts_mask_zero (pts h) ltac:(unfold is_u64; lia))) by lia. reflexivity.
Qed.

Lemma be_bytes_first_bit v rest :
  Z.testbit (byte_at 0 (be_bytes 8 v ++ rest)) 7 = Z.testbit v 63.
Proof.
  change (byte_at 0 (be_bytes 8 v ++ rest)) with ((v / 256 ^ 7) mod 2 ^ 8).
  change (256 ^ 7) with (2 ^ 56). rewrite Z.mod_pow2_bits_low by lia. by rewrite Z.div_pow2_bits by lia.
Qed.

Lemma first_bit_media b : (Z.land b 0x80 =? 0) = negb (Z.testbit b 7).
Proof. apply (land_bit_eqb b 7). lia. Qed.

Lemma slice_app_l n a b : length a = n → slice 0 n (a ++ b) = a.
Proof. intros. unfold slice. rewrite drop_0. by apply take_app_length'. Qed.

Lemma slice_app_r n m a b : length a = n → length b = m → slice n m (a ++ b) = b.
Proof. intros. unfold slice. rewrite drop_app_length' by done. apply take_ge. lia. Qed.

Lemma media_deserialize_serialized {E} h :
  wf_media h →
  media_deserialize (E:=E) (be_bytes 8 (pts_and_flags h) ++ be_bytes 4 (size h)) = Ok h.
Proof.
  intros Hwf. pose proof (pts_and_flags_u64 h Hwf) as Hu. destruct Hwf as [Hp Hs].
  unfold media_deserialize.
  rewrite (bool_decide_true (length _ = _)) by (by rewrite length_app, !be_bytes_length).
  cbn [rassert mbind outcome_bind]. rewrite first_bit_media, be_bytes_first_bit.
  rewrite pts_and_flags_bit, (bool_decide_true (63 = 63)), orb_true_r by done. cbn [orb negb rassert mbind outcome_bind].
  rewrite slice_app_l, slice_app_r by apply be_bytes_length.
  rewrite !read_be_be_bytes. rewrite (Z.mod_small (pts_and_flags h)) by (unfold is_u64 in Hu; lia).
  rewrite (Z.mod_small (size h)) by (unfold is_u32 in Hs; lia).
  rewrite !land_bit_eqb, !pts_and_flags_bit by lia. rewrite !(testbit_small (pts h) 61) by lia.
  destruct h as [c k p s]. cbn [is_config is_key pts size] in *. f_equal. f_equal.
  - by destruct c, k.
  - by destruct c, k.
  - change (Z.shiftl 1 61 - 1) with (Z.ones 61).
    apply Z.bits_inj'. intros i Hi. rewrite Z.land_spec, Z.testbit_ones_nonneg, pts_and_flags_bit by lia.
    cbn [is_config is_key pts]. destruct (Z.ltb_spec i 61).
    + rewrite !bool_decide_false by lia. by destruct c, k, (Z.testbit p i).
    + rewrite andb_false_r. symmetry. apply (testbit_small p 61); lia.
Qed.

(** ** Codec and hole headers *)

Definition wf_codec (h : CodecPacketHeader) : Prop :=
  is_u32 (codec h) ∧ is_u8 (rotation h) ∧ is_u16 (frame_size h).

Definition codec_image (h : CodecPacketHeader) : bytes :=
  be_bytes 4 (codec h) ++ [rotation h] ++ be_bytes 2 (frame_size h) ++ replicate 5 0.

Lemma codec_serialize_eq {E} h : codec_serialize (E:=E) h = Ok (codec_image h).
Proof. reflexivity. Qed.

Lemma first_four_zero_be4 v rest :
  is_u32 v → first_four_zero (be_bytes 4 v ++ rest) = (v =? 0).
Proof.
  intros Hv. pose proof (read_be_be_bytes 4 v) as Hr.
  change (256 ^ Z.of_nat 4) with (2 ^ 32) in Hr. rewrite Z.mod_small in Hr by done.
  pose proof (be_bytes_is_bytes 4 v) as Hb.
  destruct (be_bytes 4 v) as [|a [|b [|c [|d [|? ?]]]]] eqn:Hl;
    pose proof (f_equal length Hl) as Hlen; rewrite be_bytes_length in Hlen; try discriminate.
  unfold is_bytes in Hb. rewrite !Forall_cons in Hb. unfold is_u8 in Hb. destruct Hb as (Ha & Hb & Hc & Hd & _).
  unfold read_be in Hr. cbn [fold_left] in Hr. unfold first_four_zero, byte_at. cbn.
  destruct (Z.eqb_spec a 0), (Z.eqb_spec b 0), (Z.eqb_spec c 0), (Z.eqb_spec d 0), (Z.eqb_spec v 0); simpl; lia.
Qed.

Lemma be4_first_bit v rest :
  is_u32 v → (Z.land (byte_at 0 (be_bytes 4 v ++ rest)) 0x80 =? 0) = (v <? 2 ^ 31).
Proof.
  intros Hv. rewrite first_bit_media.
  change (byte_at 0 (be_bytes 4 v ++ rest)) with ((v / 256 ^ 3) mod 2 ^ 8).
  change (256 ^ 3) with (2 ^ 24). rewrite Z.mod_pow2_bits_low by lia. rewrite Z.div_pow2_bits by lia.
  change (7 + 24) with 31. unfold is_u32 in Hv. destruct (Z.ltb_spec v (2 ^ 31)).
  - by rewrite (testbit_small v 31) by lia.
  - rewrite negb_false_iff, Z.testbit_true by lia. replace (v / 2 ^ 31) with 1; [done|].
    apply (Z.div_unique_pos v (2 ^ 31) 1 (v - 2 ^ 31)); lia.
Qed.

Lemma codec_image_first_bit h :
  is_u32 (codec h) → (Z.land (byte_at 0 (codec_image h)) 0x80 =? 0) = (codec h <? 2 ^ 31).
Proof. apply be4_first_bit. Qed.

Lemma codec_image_first_four h :
  is_u32 (codec h) → first_four_zero (codec_image h) = (codec h =? 0).
Proof. apply first_four_zero_be4. Qed.

Lemma codec_deserialize_image {E} h :
  wf_codec h → codec h < 2 ^ 31 → codec_deserialize (E:=E) (codec_image h) = Ok h.
Proof.
  intros (Hc & Hr & Hf) Hlt. unfold codec_deserialize.
  rewrite (bool_decide_true (length _ = _)) by reflexivity. cbn [rassert mbind outcome_bind].
  rewrite codec_image_first_bit by done.
  destruct (Z.ltb_spec (codec h) (2 ^ 31)); [|lia]. cbn [rassert mbind outcome_bind].
  change (slice 0 4 (codec_image h)) with (be_bytes 4 (codec h)).
  change (slice 5 2 (codec_image h)) with (be_bytes 2 (frame_size h)).
  change (byte_at 4 (codec_image h)) with (rotation h).
  rewrite !read_be_be_bytes. unfold is_u32, is_u16 in *. rewrite !Z.mod_small by (simpl; lia).
  by destruct h.
Qed.

Lemma av_deserialize_codec {E} h :
  wf_codec h → 0 < codec h < 2 ^ 31 → av_deserialize (E:=E) (codec_image h) = Ok (CodecH h).
Proof.
  intros Hwf Hc. unfold av_deserialize.
  rewrite (bool_decide_true (length _ = _)) by reflexivity. cbn [rassert mbind outcome_bind].
  rewrite codec_image_first_bit by apply Hwf.
  destruct (Z.ltb_spec (codec h) (2 ^ 31)); [|lia]. cbn [negb].
  rewrite codec_image_first_four by apply Hwf.
  destruct (Z.eqb_spec (codec h) 0); [lia|].
  by rewrite codec_deserialize_image.
Qed.

Lemma av_deserialize_media {E} h :
  wf_media h →
  av_deserialize (E:=E) (be_bytes 8 (pts_and_flags h) ++ be_bytes 4 (size h)) = Ok (MediaH h).
Proof.
  intros Hwf. unfold av_deserialize.
  rewrite (bool_decide_true (length _ = _)) by (by rewrite length_app, !be_bytes_length).
  cbn [rassert mbind outcome_bind]. rewrite first_bit_media, be_bytes_first_bit.
  rewrite pts_and_flags_bit, (bool_decide_true (63 = 63)), orb_true_r by done. cbn [orb negb].
  by rewrite media_deserialize_serialized.
Qed.

Definition hole_image (h : HolePacketHeader) : bytes :=
  replicate 4 0 ++ be_bytes 4 (missing_audio_samples h) ++ replicate 4 0.

Lemma hole_serialize_eq {E} h : hole_serialize (E:=E) h = Ok (hole_image h).
Proof. reflexivity. Qed.

Lemma av_deserialize_hole {E} h :
  0 < missing_audio_samples h < 2 ^ 32 → av_deserialize (E:=E) (hole_image h) = Ok (HoleH h).
Proof.
  intros Hn. unfold av_deserialize, hole_deserialize.
  change (slice 4 4 (hole_image h)) with (be_bytes 4 (missing_audio_samples h)).
  rewrite read_be_be_bytes, Z.mod_small by (simpl; lia).
  destruct (Z.ltb_spec 0 (missing_audio_samples h)); [|lia]. by destruct h.
Qed.

(** ** The [Serializable] law *)

Definition wf_av (p : AVPacket) : Prop :=
  match p with
  | Codec p => wf_codec (codec_header p) ∧ 0 < codec (codec_header p) < 2 ^ 31
  | Media p => wf_media (header p) ∧ size (header p) = blen (payload p)
  | Hole p => 0 < missing_audio_samples (hole_header p) < 2 ^ 32
  end.

Definition av_image (p : AVPacket) : bytes :=
  match p with
  | Codec p => codec_image (codec_header p)
  | Media p => (be_bytes 8 (pts_and_flags (header p)) ++ be_bytes 4 (size (header p))) ++ payload p
  | Hole p => hole_image (hole_header p)
  end.

Lemma av_write_ok p out :
  wf_av p → av_write p (open_writer out) = (open_writer (out ++ av_image p), Ok tt).
Proof.
  destruct p as [p|p|p]; cbn [wf_av av_write]; intros Hwf.
  - reflexivity.
  - destruct Hwf as [Hh _]. rewrite (media_serialize_eq _ Hh).
    unfold mbind, writing_bind, lift_io. cbn [av_image]. rewrite !write_all_open. by rewrite <- app_assoc.
  - reflexivity.
Qed.

Lemma av_read_ok p r rest :
  wf_av p → rd_data r = av_image p ++ rest →
  ∃ r', av_read r = Ok (Some p, r') ∧ rd_data r' = rest ∧ rd_fail r' = rd_fail r.
Proof.
  destruct p as [[h]|[h pl]|[h]]; cbn [wf_av av_image]; intros Hwf Hd; unfold av_read.
  - destruct (read_exact_app SERIALIZED_SIZE r _ _ Hd eq_refl) as (r1 & -> & H1 & H2).
    rewrite av_deserialize_codec by apply Hwf. simpl. eauto.
  - destruct Hwf as [Hh Hsz]. cbn [header payload] in *. rewrite <- app_assoc in Hd.
    destruct (read_exact_app SERIALIZED_SIZE r _ _ Hd) as (r1 & -> & H1 & H2).
    { by rewrite length_app, !be_bytes_length. }
    rewrite av_deserialize_media by done. cbn [mbind outcome_bind].
    destruct (read_exact_app (Z.to_nat (size h)) r1 pl rest H1) as (r2 & -> & H3 & H4).
    { unfold blen in Hsz. lia. }
    simpl. eexists. split_and!; [done|done|congruence].
  - destruct (read_exact_app SERIALIZED_SIZE r _ _ Hd eq_refl) as (r1 & -> & H1 & H2).
    rewrite av_deserialize_hole by done. simpl. eauto.
Qed.

#[export] Instance AVPacket_laws : SerializableLaws AVPacket wf_av := {
  ser_encoding := av_image;
  ser_write_ok := av_write_ok;
  ser_read_ok := av_read_ok;
}.

(** ** Properties *)

(** Every well-formed audio/video packet survives serialization: reading
    the bytes that [write] produced, whatever bytes follow and however the
    stream is chunked, gives back the same packet and leaves what follows. *)
Theorem av_packet_roundtrip p :
  wf_av p →
  ∃ out, av_write p (open_writer []) = (open_writer out, Ok tt) ∧
    ∀ r rest, rd_data r = out ++ rest →
      ∃ r', av_read r = Ok (Some p, r') ∧ rd_data r' = rest.
Proof.
  intros Hwf. exists (av_image p). split; [by rewrite av_write_ok|].
  intros r rest Hd. destruct (av_read_ok p r rest Hwf Hd) as (r' & ? & ? & _). eauto.
Qed.

Lemma av_packet_roundtrip_witness :
  ∃ out,
    av_write (Media {| header := {| is_config := false; is_key := true; pts := 0x1234567; size := 3 |};
                       payload := [1; 2; 3] |}) (open_writer []) = (open_writer out, Ok tt) ∧
    ∀ r rest, rd_data r = out ++ rest →
      ∃ r', av_read r =
        Ok (Some (Media {| header := {| is_config := false; is_key := true; pts := 0x1234567; size := 3 |};
                           payload := [1; 2; 3] |}), r') ∧ rd_data r' = rest.
Proof. apply av_packet_roundtrip. vm_compute. intuition congruence. Defined.

(** A serialized codec header is read back as the same codec header
    exactly when its codec id is neither zero (it then reads as a hole) nor has
    its top bit set (it then reads as media). *)
Theorem codec_header_domain h :
  wf_codec h →
  (∃ buf, codec_serialize (E:=unit) h = Ok buf ∧ av_deserialize (E:=unit) buf = Ok (CodecH h)) ↔ 0 < codec h < 2 ^ 31.
Proof.
  intros Hwf. rewrite (codec_serialize_eq (E:=unit)). split.
  - intros (buf & [= <-] & Hd). unfold av_deserialize in Hd.
    rewrite (bool_decide_true (length _ = _)) in Hd by reflexivity. cbn [rassert mbind outcome_bind] in Hd.
    rewrite codec_image_first_bit in Hd by apply Hwf.
    destruct (Z.ltb_spec (codec h) (2 ^ 31)); cbn [negb] in Hd; [|inv_ok; done].
    rewrite codec_image_first_four in Hd by apply Hwf.
    destruct (Z.eqb_spec (codec h) 0); [inv_ok; done|]. destruct Hwf as [[? ?] _]. lia.
  - intros Hc. eexists. split; [done|]. by apply av_deserialize_codec.
Qed.

Lemma codec_header_domain_witness :
  ∃ buf, codec_serialize (E:=unit) {| codec := 7; rotation := 1; frame_size := 960 |} = Ok buf ∧
    av_deserialize (E:=unit) buf = Ok (CodecH {| codec := 7; rotation := 1; frame_size := 960 |}).
Proof.
  apply (codec_header_domain {| codec := 7; rotation := 1; frame_size := 960 |}); vm_compute; intuition congruence.
Defined.
