(* ===== verification/Packets.v ===== *)
(** * Data, input and metrics packets, IPC endpoints and forwarding

    Models [kymux-types/src/data.rs], [input.rs], [metrics.rs], [ipc.rs] and the
    [forward] loop of [kymux-types/src/lib.rs]. *)

From stdpp Require Import prelude list strings.
From Stdlib Require Import ZArith Lia.
From S2P Require Import Prelude Io Av.
Open Scope Z_scope.

(** ** [data.rs] *)

Definition MAX_DATA_PACKET_SIZE : Z := 1024 * 1024.

Record DataPacket := { data_payload : bytes }.

Definition valid_data_size (n : Z) : bool := (1 <=? n) && (n <=? MAX_DATA_PACKET_SIZE).

Definition data_write (self : DataPacket) : writing unit :=
  if negb (valid_data_size (blen (data_payload self))) then lift_io (Err InvalidInput)
  else
    let size := wrap32 (blen (data_payload self)) in
    _ ← write_all (be_bytes 4 size);
    write_all (data_payload self).

Definition data_read (r : Reader) : io (option DataPacket * Reader) :=
  '(first, r) ← read 4 r;
  if decide (length first = O) then Ok (None, r)
  else
    '(rest, r) ← read_exact (4 - length first) r;
    let size := read_be (first ++ rest) in
    if negb (valid_data_size size) then Err InvalidData
    else
      '(payload, r) ← read_exact (Z.to_nat size) r;
      Ok (Some {| data_payload := payload |}, r).

#[export] Instance DataPacket_Serializable : Serializable DataPacket := {
  ser_write := data_write;
  ser_read := data_read;
}.

(** ** [input.rs] *)

Record InputPacket := { type_ : Z; input_payload : bytes }.

(** [u16::try_from(len).expect(..)] *)
Definition u16_try_from (n : Z) : io Z := if n <? 2 ^ 16 then Ok n else Panic.

Definition input_write (self : InputPacket) : writing unit :=
  size ← lift_io (u16_try_from (blen (input_payload self)));
  _ ← write_all [type_ self];
  _ ← write_all (be_bytes 2 size);
  write_all (input_payload self).

Definition input_read (r : Reader) : io (option InputPacket * Reader) :=
  '(ty, r) ← read_exact 1 r;
  match read_exact 2 r with
  | Err UnexpectedEof => Ok (None, exhausted r)
  | Err e => Err e
  | Panic => Panic
  | Ok (buf, r) =>
      '(payload, r) ← read_exact (Z.to_nat (read_be buf)) r;
      Ok (Some {| type_ := read_be ty; input_payload := payload |}, r)
  end.

#[export] Instance InputPacket_Serializable : Serializable InputPacket := {
  ser_write := input_write;
  ser_read := input_read;
}.

(** ** [metrics.rs] *)

Record MetricsPacket := { metrics_payload : bytes }.

Definition metrics_write (self : MetricsPacket) : writing unit :=
  size ← lift_io (u16_try_from (blen (metrics_payload self)));
  _ ← write_all (be_bytes 2 size);
  write_all (metrics_payload self).

Definition metrics_read (r : Reader) : io (option MetricsPacket * Reader) :=
  match read_exact 2 r with
  | Err UnexpectedEof => Ok (None, exhausted r)
  | Err e => Err e
  | Panic => Panic
  | Ok (buf, r) =>
      '(payload, r) ← read_exact (Z.to_nat (read_be buf)) r;
      Ok (Some {| metrics_payload := payload |}, r)
  end.

#[export] Instance MetricsPacket_Serializable : Serializable MetricsPacket := {
  ser_write := metrics_write;
  ser_read := metrics_read;
}.

(** ** [ipc.rs] and the [forward] loop *)

(** [ProtocolError::new(err)] for an I/O error *)
Definition io_message (e : ErrorKind) : ProtocolError :=
  match e with
  | UnexpectedEof => "unexpected end of file"
  | InvalidInput => "invalid input parameter"
  | InvalidData => "invalid data"
  | ConnectionAborted => "connection aborted"
  | AddrInUse => "address in use"
  | BrokenPipe => "broken pipe"
  | Other => "other error"
  end.

Section Ipc.
Context {P : Type} `{Serializable P}.

(** [IpcSend::send] *)
Definition ipc_send (packet : P) (w : Writer) : Writer * outcome ProtocolError unit :=
  let '(w, res) := (_ ← ser_write packet; flush) w in
  (w, map_err io_message res).

(** [IpcRecv::recv] *)
Definition ipc_recv (r : Reader) : outcome ProtocolError (option P * Reader) :=
  map_err io_message (ser_read r).

(** [forward(recv, send)] over an IPC connection; [None] when the fuel runs out *)
Fixpoint forward (fuel : nat) (r : Reader) (w : Writer) : option (Writer * outcome ProtocolError unit) :=
  match fuel with
  | O => None
  | S fuel =>
      match ipc_recv r with
      | Err e => Some (w, Err e)
      | Panic => Some (w, Panic)
      | Ok (None, _) => Some (w, Ok tt)
      | Ok (Some packet, r) =>
          match ipc_send packet w with
          | (w, Ok _) => forward fuel r w
          | (w, Err e) => Some (w, Err e)
          | (w, Panic) => Some (w, Panic)
          end
      end
  end.

(** Sends the packets of a list one after the other. *)
Fixpoint ipc_send_all (ps : list P) (w : Writer) : Writer * outcome ProtocolError unit :=
  match ps with
  | [] => (w, Ok tt)
  | p :: ps =>
      match ipc_send p w with
      | (w, Ok _) => ipc_send_all ps w
      | res => res
      end
  end.
End Ipc.

(** What a packet type promises at the end of a stream: a clean end between
    two packets is not an error.  ([InputPacket] does not have this instance.) *)
Class CleanEof (P : Type) `{Serializable P} : Prop :=
  read_clean_eof r : rd_data r = [] → rd_fail r = None → ∃ r', ser_read r = Ok (None, r').

(** ** Reading lemmas *)

Lemma read_nonempty n r :
  (0 < n)%nat → rd_data r ≠ [] →
  ∃ b r', read n r = Ok (b, r') ∧ b ≠ [] ∧ (length b ≤ n)%nat ∧ rd_data r = b ++ rd_data r' ∧ rd_fail r' = rd_fail r.
Proof.
  intros Hn Hd. unfold read. pose proof (take_chunk_spec n (rd_chunks r) Hn) as Hs.
  destruct (take_chunk _ _) as [[b cs]|]; [|done]. destruct Hs as (? & ? & Hc). eexists b, _. eauto 6.
Qed.

Lemma read_at_end n r : (0 < n)%nat → rd_data r = [] → rd_fail r = None → read n r = Ok ([], r).
Proof.
  intros Hn Hd Hf. unfold read. pose proof (take_chunk_spec n (rd_chunks r) Hn) as Hs.
  destruct (take_chunk _ _) as [[b cs]|]; [|by rewrite Hf].
  destruct Hs as (Hb & _ & Hc). unfold rd_data in Hd. rewrite Hd in Hc. by destruct b.
Qed.

Lemma wrap32_small n : 0 ≤ n < 2 ^ 32 → wrap32 n = n.
Proof. intros. by apply Z.mod_small. Qed.

Lemma read_be_be4 n : 0 ≤ n < 2 ^ 32 → read_be (be_bytes 4 n) = n.
Proof. intros. rewrite read_be_be_bytes. by apply Z.mod_small. Qed.

Lemma read_be_be2 n : 0 ≤ n < 2 ^ 16 → read_be (be_bytes 2 n) = n.
Proof. intros. rewrite read_be_be_bytes. by apply Z.mod_small. Qed.

Lemma valid_data_size_spec n : valid_data_size n = true ↔ 1 ≤ n ≤ MAX_DATA_PACKET_SIZE.
Proof. unfold valid_data_size. rewrite andb_true_iff, !Z.leb_le. done. Qed.

(** The four-byte length prefix, read in one or several pieces. *)
Lemma data_read_header r :
  (4 ≤ length (rd_data r))%nat →
  ∃ r', data_read r =
    (let size := read_be (take 4 (rd_data r)) in
     if negb (valid_data_size size) then Err InvalidData
     else '(payload, r) ← read_exact (Z.to_nat size) r'; Ok (Some {| data_payload := payload |}, r)) ∧
    rd_data r' = drop 4 (rd_data r) ∧ rd_fail r' = rd_fail r.
Proof.
  intros Hl. unfold data_read.
  destruct (read_nonempty 4 r) as (b & r1 & -> & Hb & Hbl & Hd & Hf); [lia|by intros H; rewrite H in Hl; simpl in Hl; lia|].
  cbn [mbind outcome_bind]. rewrite decide_False by (by destruct b).
  assert (Hsplit : rd_data r1 = take (4 - length b) (rd_data r1) ++ drop (4 - length b) (rd_data r1)) by (by rewrite take_drop).
  rewrite Hd in Hl. rewrite length_app in Hl.
  destruct (read_exact_app (4 - length b) r1 _ _ Hsplit) as (r2 & -> & Hd2 & Hf2); [rewrite length_take; lia|].
  exists r2. cbn [mbind outcome_bind].
  assert (take 4 (rd_data r) = b ++ take (4 - length b) (rd_data r1)) as ->.
  { rewrite Hd, take_app_ge by lia. done. }
  split_and!; [done| |congruence]. rewrite Hd, drop_app_ge by lia. done.
Qed.

Definition wf_data (p : DataPacket) : Prop := 1 ≤ blen (data_payload p) ≤ MAX_DATA_PACKET_SIZE.
Definition data_image (p : DataPacket) : bytes := be_bytes 4 (blen (data_payload p)) ++ data_payload p.

Lemma data_write_ok p out :
  wf_data p → data_write p (open_writer out) = (open_writer (out ++ data_image p), Ok tt).
Proof.
  intros Hp. unfold data_write. rewrite (proj2 (valid_data_size_spec _) Hp). cbn [negb].
  unfold wf_data, MAX_DATA_PACKET_SIZE in Hp. rewrite wrap32_small by lia.
  unfold mbind, writing_bind. rewrite !write_all_open. by rewrite <- app_assoc.
Qed.

Lemma data_read_ok p r rest :
  wf_data p → rd_data r = data_image p ++ rest →
  ∃ r', data_read r = Ok (Some p, r') ∧ rd_data r' = rest ∧ rd_fail r' = rd_fail r.
Proof.
  intros Hp Hd. unfold data_image in Hd. rewrite <- app_assoc in Hd.
  destruct (data_read_header r) as (r1 & -> & Hd1 & Hf1).
  { rewrite Hd, length_app, be_bytes_length. lia. }
  rewrite Hd in *. rewrite take_app_length' by done. rewrite drop_app_length' in Hd1 by done.
  pose proof Hp as Hp'. unfold wf_data, MAX_DATA_PACKET_SIZE in Hp'. rewrite read_be_be4 by lia. cbv zeta.
  rewrite (proj2 (valid_data_size_spec _) Hp). cbn [negb].
  destruct (read_exact_app (Z.to_nat (blen (data_payload p))) r1 _ _ Hd1) as (r2 & -> & Hd2 & Hf2).
  { unfold blen. lia. }
  cbn [mbind outcome_bind]. exists r2. split_and!; [by destruct p|done|congruence].
Qed.

#[export] Instance DataPacket_laws : SerializableLaws DataPacket wf_data := {
  ser_encoding := data_image; ser_write_ok := data_write_ok; ser_read_ok := data_read_ok }.

#[export] Instance DataPacket_eof : CleanEof DataPacket.
Proof. intros r Hd Hf. simpl. unfold data_read. rewrite read_at_end by (lia || done). simpl. eauto. Qed.

(** ** Metrics and input packets *)

Definition wf_metrics (p : MetricsPacket) : Prop := blen (metrics_payload p) < 2 ^ 16.
Definition metrics_image (p : MetricsPacket) : bytes := be_bytes 2 (blen (metrics_payload p)) ++ metrics_payload p.

Lemma u16_try_from_ok n : n < 2 ^ 16 → u16_try_from n = Ok n.
Proof. intros Hn. unfold u16_try_from. by destruct (Z.ltb_spec n (2 ^ 16)); [|lia]. Qed.

Lemma metrics_write_ok p out :
  wf_metrics p → metrics_write p (open_writer out) = (open_writer (out ++ metrics_image p), Ok tt).
Proof.
  intros Hp. unfold metrics_write. rewrite (u16_try_from_ok _ Hp).
  unfold mbind, writing_bind, lift_io. rewrite !write_all_open. by rewrite <- app_assoc.
Qed.

(** The two-byte length prefix and the payload shared by both formats. *)
Lemma read_sized_payload r pl rest :
  blen pl < 2 ^ 16 → rd_data r = be_bytes 2 (blen pl) ++ pl ++ rest →
  ∃ r1 r2, read_exact 2 r = Ok (be_bytes 2 (blen pl), r1) ∧
    read_exact (Z.to_nat (read_be (be_bytes 2 (blen pl)))) r1 = Ok (pl, r2) ∧
    rd_data r2 = rest ∧ rd_fail r2 = rd_fail r.
Proof.
  intros Hl Hd. destruct (read_exact_app 2 r _ _ Hd) as (r1 & H1 & Hd1 & Hf1); [apply be_bytes_length|].
  rewrite read_be_be2 by (unfold blen in *; lia).
  destruct (read_exact_app (Z.to_nat (blen pl)) r1 _ _ Hd1) as (r2 & H2 & Hd2 & Hf2); [unfold blen; lia|].
  exists r1, r2. split_and!; congruence.
Qed.

Lemma metrics_read_ok p r rest :
  wf_metrics p → rd_data r = metrics_image p ++ rest →
  ∃ r', metrics_read r = Ok (Some p, r') ∧ rd_data r' = rest ∧ rd_fail r' = rd_fail r.
Proof.
  intros Hp Hd. unfold metrics_image in Hd. rewrite <- app_assoc in Hd.
  destruct (read_sized_payload r _ _ Hp Hd) as (r1 & r2 & H1 & H2 & H3 & H4).
  unfold metrics_read. rewrite H1, H2. exists r2. split_and!; [by destruct p|done|done].
Qed.

#[export] Instance MetricsPacket_laws : SerializableLaws MetricsPacket wf_metrics := {
  ser_encoding := metrics_image; ser_write_ok := metrics_write_ok; ser_read_ok := metrics_read_ok }.

Lemma read_exact_eof n r : (0 < n)%nat → rd_data r = [] → rd_fail r = None → read_exact n r = Err UnexpectedEof.
Proof. intros ? Hd Hf. rewrite read_exact_short by (rewrite Hd; simpl; lia). unfold end_error. by rewrite Hf. Qed.

#[export] Instance MetricsPacket_eof : CleanEof MetricsPacket.
Proof. intros r Hd Hf. simpl. unfold metrics_read. rewrite read_exact_eof by (lia || done). eauto. Qed.

#[export] Instance AVPacket_eof : CleanEof AVPacket.
Proof.
  intros r Hd Hf. simpl. unfold av_read. rewrite read_exact_eof by (done || unfold SERIALIZED_SIZE; lia). eauto.
Qed.

Definition wf_input (p : InputPacket) : Prop := is_u8 (type_ p) ∧ blen (input_payload p) < 2 ^ 16.
Definition input_image (p : InputPacket) : bytes :=
  [type_ p] ++ be_bytes 2 (blen (input_payload p)) ++ input_payload p.

Lemma input_write_ok p out :
  wf_input p → input_write p (open_writer out) = (open_writer (out ++ input_image p), Ok tt).
Proof.
  intros [_ Hp]. unfold input_write. rewrite (u16_try_from_ok _ Hp).
  unfold mbind, writing_bind, lift_io. rewrite !write_all_open. by rewrite <- !app_assoc.
Qed.

Lemma input_read_ok p r rest :
  wf_input p → rd_data r = input_image p ++ rest →
  ∃ r', input_read r = Ok (Some p, r') ∧ rd_data r' = rest ∧ rd_fail r' = rd_fail r.
Proof.
  intros [_ Hp] Hd. unfold input_image in Hd. rewrite <- !app_assoc in Hd.
  unfold input_read. destruct (read_exact_app 1 r _ _ Hd eq_refl) as (r0 & -> & Hd0 & Hf0).
  destruct (read_sized_payload r0 _ _ Hp Hd0) as (r1 & r2 & H1 & H2 & H3 & H4).
  cbn [mbind outcome_bind]. rewrite H1, H2. exists r2. split_and!; [by destruct p|done|congruence].
Qed.

#[export] Instance InputPacket_laws : SerializableLaws InputPacket wf_input := {
  ser_encoding := input_image; ser_write_ok := input_write_ok; ser_read_ok := input_read_ok }.

(** ** IPC streams, against the [Serializable] interface *)

Section IpcLaws.
Context {P : Type} `{HS : Serializable P} {wf : P → Prop} `{HL : !SerializableLaws P wf}.

Definition stream_image (ps : list P) : bytes := concat (ser_encoding <$> ps).

Lemma ipc_send_ok p out :
  wf p → ipc_send p (open_writer out) = (open_writer (out ++ ser_encoding p), Ok tt).
Proof.
  intros Hp. unfold ipc_send, mbind, writing_bind. rewrite (ser_write_ok p out Hp). done.
Qed.

Lemma ipc_send_all_ok ps out :
  Forall wf ps → ipc_send_all ps (open_writer out) = (open_writer (out ++ stream_image ps), Ok tt).
Proof.
  intros Hps. revert out. induction Hps as [|p ps Hp Hps IH]; intros out; cbn [ipc_send_all].
  - unfold stream_image. simpl. by rewrite app_nil_r.
  - rewrite (ipc_send_ok p out Hp), IH. unfold stream_image. simpl. by rewrite app_assoc.
Qed.

Lemma ipc_recv_ok p ps r :
  wf p → rd_data r = stream_image (p :: ps) →
  ∃ r', ipc_recv r = Ok (Some p, r') ∧ rd_data r' = stream_image ps ∧ rd_fail r' = rd_fail r.
Proof.
  intros Hp Hd. destruct (ser_read_ok p r _ Hp Hd) as (r' & H1 & H2 & H3).
  exists r'. unfold ipc_recv. by rewrite H1.
Qed.

Lemma forward_stream `{HE : !CleanEof P} ps fuel r out :
  Forall wf ps → rd_data r = stream_image ps → rd_fail r = None → (length ps < fuel)%nat →
  forward fuel r (open_writer out) = Some (open_writer (out ++ stream_image ps), Ok tt).
Proof.
  intros Hps. revert fuel r out. induction Hps as [|p ps Hp Hps IH];
    intros fuel r out Hd Hf Hfuel; (destruct fuel as [|fuel]; [simpl in Hfuel; lia|]); cbn [forward].
  - destruct (read_clean_eof r Hd Hf) as [r' Hr]. unfold ipc_recv. rewrite Hr. cbn [map_err].
    unfold stream_image. simpl. by rewrite app_nil_r.
  - destruct (ipc_recv_ok p ps r Hp Hd) as (r' & -> & Hd' & Hf').
    rewrite (ipc_send_ok p out Hp). rewrite IH; [|done|congruence|simpl in Hfuel; lia].
    unfold stream_image. simpl. by rewrite app_assoc.
Qed.
End IpcLaws.

(** Receives packets until the end of the stream, as the loop of [forward]
    does with its receiving half. *)
Fixpoint recv_all {P} `{Serializable P} (fuel : nat) (r : Reader) : option (list P * outcome ProtocolError unit) :=
  match fuel with
  | O => None
  | S fuel =>
      match ipc_recv r with
      | Err e => Some ([], Err e)
      | Panic => Some ([], Panic)
      | Ok (None, _) => Some ([], Ok tt)
      | Ok (Some p, r) =>
          match recv_all fuel r with
          | Some (ps, res) => Some (p :: ps, res)
          | None => None
          end
      end
  end.

Lemma recv_all_stream {P} `{HS : Serializable P} {wf : P → Prop} `{HL : !SerializableLaws P wf}
    `{HE : !CleanEof P} (ps : list P) fuel r :
  Forall wf ps → rd_data r = stream_image ps → rd_fail r = None → (length ps < fuel)%nat →
  recv_all fuel r = Some (ps, Ok tt).
Proof.
  intros Hps. revert fuel r. induction Hps as [|p ps Hp Hps IH];
    intros fuel r Hd Hf Hfuel; (destruct fuel as [|fuel]; [simpl in Hfuel; lia|]); cbn [recv_all].
  - destruct (read_clean_eof (P:=P) r Hd Hf) as [r' Hr]. unfold ipc_recv. by rewrite Hr.
  - destruct (ipc_recv_ok p ps r Hp Hd) as (r' & -> & Hd' & Hf').
    rewrite IH; [done|done|congruence|simpl in Hfuel; lia].
Qed.

(** For every packet type whose [Serializable] implementation satisfies
    the round-trip and clean-end laws, sending any list of well-formed packets
    over IPC succeeds; forwarding the resulting stream terminates, succeeds and
    writes the same bytes to the other side; and its receiver gets exactly the
    packets sent, in order, however the streams are chunked. *)
Theorem ipc_forward_transparent {P} `{HS : Serializable P} {wf : P → Prop}
    `{HL : !SerializableLaws P wf} `{HE : !CleanEof P} (ps : list P) :
  Forall wf ps →
  ∃ wire, ipc_send_all ps (open_writer []) = (open_writer wire, Ok tt) ∧
    ∀ r fuel, rd_data r = wire → rd_fail r = None → (length ps < fuel)%nat →
      forward (P:=P) fuel r (open_writer []) = Some (open_writer wire, Ok tt) ∧
      recv_all fuel r = Some (ps, Ok tt).
Proof.
  intros Hps. exists (stream_image ps). split; [by rewrite (ipc_send_all_ok ps [] Hps)|].
  intros r fuel Hd Hf Hfuel. split.
  - by rewrite (forward_stream ps fuel r [] Hps Hd Hf Hfuel).
  - by apply recv_all_stream.
Qed.

Lemma ipc_forward_transparent_witness :
  ∃ wire, ipc_send_all [{| data_payload := [1; 2] |}; {| data_payload := [3] |}] (open_writer []) = (open_writer wire, Ok tt) ∧
    ∀ r fuel, rd_data r = wire → rd_fail r = None → (2 < fuel)%nat →
      forward (P:=DataPacket) fuel r (open_writer []) = Some (open_writer wire, Ok tt) ∧
      recv_all fuel r = Some ([{| data_payload := [1; 2] |}; {| data_payload := [3] |}], Ok tt).
Proof.
  apply (ipc_forward_transparent (P:=DataPacket) (wf:=wf_data)).
  repeat constructor; vm_compute; congruence.
Defined.

(** The complete behaviour of [DataPacket::read] on a stream that ends
    cleanly: [None] exactly when no byte is left; a truncated prefix or payload
    is an [UnexpectedEof] error; a declared size outside 1..=1 MiB is rejected
    before the payload is read; otherwise the packet is the declared number of
    bytes and the rest of the stream is left. *)
Theorem data_read_cases r :
  rd_fail r = None →
  let d := rd_data r in
  let size := read_be (take 4 d) in
  match data_read r with
  | Ok (None, _) => d = []
  | Ok (Some p, r') =>
      1 ≤ size ≤ MAX_DATA_PACKET_SIZE ∧ blen (data_payload p) = size ∧ d = take 4 d ++ data_payload p ++ rd_data r'
  | Err UnexpectedEof =>
      0 < blen d < 4 ∨ (4 ≤ blen d ∧ 1 ≤ size ≤ MAX_DATA_PACKET_SIZE ∧ blen d < 4 + size)
  | Err InvalidData => 4 ≤ blen d ∧ ¬ (1 ≤ size ≤ MAX_DATA_PACKET_SIZE)
  | _ => False
  end.
Proof.
  intros Hf d size. destruct (decide (d = [])) as [Hd|Hd].
  { unfold data_read. by rewrite read_at_end by (lia || done). }
  destruct (decide (4 ≤ length d)%nat) as [Hl|Hl].
  - destruct (data_read_header r Hl) as (r1 & -> & Hd1 & Hf1). cbv zeta. fold d size.
    destruct (valid_data_size size) eqn:Hv; cbn [negb].
    + apply valid_data_size_spec in Hv.
      destruct (read_exact (Z.to_nat size) r1) as [[pl r2]|e|] eqn:Hr; cbn [mbind outcome_bind].
      * apply read_exact_inv in Hr as (H1 & H2 & _). cbn [data_payload]. split; [done|]. split.
        -- unfold blen. lia.
        -- by rewrite <- H1, Hd1, take_drop.
      * destruct (decide (length (rd_data r1) < Z.to_nat size)%nat) as [Hs|Hs].
        -- rewrite (read_exact_short _ _ Hs) in Hr. unfold end_error in Hr. rewrite Hf1, Hf in Hr. simplify_eq/=.
           right. rewrite Hd1, length_drop in Hs. fold d in Hs. unfold blen. lia.
        -- rewrite <- (take_drop (Z.to_nat size) (rd_data r1)) in Hs. exfalso.
           destruct (read_exact_app (Z.to_nat size) r1 (take (Z.to_nat size) (rd_data r1)) (drop (Z.to_nat size) (rd_data r1)))
             as (? & H1 & _); [by rewrite take_drop|rewrite length_take; rewrite take_drop in Hs; lia|congruence].
      * unfold read_exact in Hr. by destruct (exact_chunks _ _) as [[? ?]|].
    + split; [unfold blen; lia|]. rewrite <- valid_data_size_spec. congruence.
  - destruct (read_nonempty 4 r) as (b & r1 & Hr & Hb & Hbl & Hdr & Hf1); [lia|done|].
    unfold data_read. rewrite Hr. cbn [mbind outcome_bind]. rewrite decide_False by (by destruct b).
    rewrite read_exact_short; last first.
    { unfold d in *. rewrite Hdr, length_app in Hl. lia. }
    cbn [mbind outcome_bind]. unfold end_error. rewrite Hf1, Hf. cbn. left.
    unfold blen. assert (length d ≠ 0%nat) by (by destruct d). lia.
Qed.

Lemma data_read_cases_witness :
  match data_read {| rd_chunks := [[0; 0]; [0; 2; 7]; [8; 9]]; rd_fail := None |} with
  | Ok (Some p, r') => data_payload p = [7; 8] ∧ rd_data r' = [9] ∧ 1 ≤ 2 ≤ MAX_DATA_PACKET_SIZE
  | _ => False
  end.
Proof.
  pose proof (data_read_cases {| rd_chunks := [[0; 0]; [0; 2; 7]; [8; 9]]; rd_fail := None |} eq_refl) as H.
  vm_compute in H |- *. intuition congruence.
Defined.

(** A cleanly closed input stream is reported as an error, and a stream
    cut right after a packet's type byte as a clean end: the end-of-file test
    of [InputPacket::read] guards the second read instead of the first. *)
Theorem input_read_eof_misplaced r :
  rd_fail r = None →
  (rd_data r = [] → input_read r = Err UnexpectedEof) ∧
  (∀ b, rd_data r = [b] → ∃ r', input_read r = Ok (None, r')).
Proof.
  intros Hf. split.
  - intros Hd. unfold input_read. by rewrite read_exact_eof by (lia || done).
  - intros b Hd. unfold input_read.
    destruct (read_exact_app 1 r [b] [] Hd eq_refl) as (r1 & -> & Hd1 & Hf1).
    cbn [mbind outcome_bind]. rewrite read_exact_eof by (lia || congruence). eauto.
Qed.

Lemma input_read_eof_misplaced_witness :
  (rd_data {| rd_chunks := [[5]]; rd_fail := None |} = [] →
   input_read {| rd_chunks := [[5]]; rd_fail := None |} = Err UnexpectedEof) ∧
  (∀ b, rd_data {| rd_chunks := [[5]]; rd_fail := None |} = [b] →
   ∃ r', input_read {| rd_chunks := [[5]]; rd_fail := None |} = Ok (None, r')).
Proof. apply input_read_eof_misplaced. reflexivity. Defined.
