(* ===== verification/Channel.v ===== *)
(** * Channels as the senders see them

    The sending half of [KyChannel] ([kyproto/src/router.rs]): the endpoint id
    written in front of every datagram, the datagram size limit of the
    connection, the datagrams handed to it and the unidirectional stream opened
    on it.  The connection is [kynet]'s: it may refuse datagrams, and it may
    fail after any number of them or of stream writes. *)

From stdpp Require Import prelude list strings.
From Stdlib Require Import ZArith Lia.
From S2P Require Import Prelude Io Packets.
Open Scope Z_scope.

Record KyChannel := {
  endpoint_id : Z;
  max_datagram_size : option Z;
  datagrams_sent : list bytes;
  datagram_budget : option nat;
}.

(** [KyChannelSend::write_datagram_header_]: the bytes put in the buffer *)
Definition write_datagram_header (self : KyChannel) : bytes := be_bytes 2 (endpoint_id self).

(** [KyChannelSend::send_datagram_] *)
Definition send_datagram {E} (err : E) (data : bytes) : handler KyChannel E unit := λ self,
  match datagram_budget self with
  | Some O => (self, Err err)
  | b => ({| endpoint_id := endpoint_id self; max_datagram_size := max_datagram_size self;
             datagrams_sent := datagrams_sent self ++ [data];
             datagram_budget := pred <$> b |}, Ok tt)
  end.

(** A channel of a connection that does not fail *)
Definition open_channel (id : Z) (max : Z) (sent : list bytes) : KyChannel :=
  {| endpoint_id := id; max_datagram_size := Some max; datagrams_sent := sent; datagram_budget := None |}.

Lemma send_datagram_open {E} (err : E) data id max sent :
  send_datagram err data (open_channel id max sent) = (open_channel id max (sent ++ [data]), Ok tt).
Proof. done. Qed.

Definition connection_lost : ProtocolError := "connection lost".

(** ** [ProtocolStats] ([kyproto/src/lib.rs]) *)

Record ProtocolStats := {
  dropped_packets : option Z;
  video_fec_source_symbols : option Z;
  video_fec_source_symbols_missing : option Z;
  video_fec_source_symbols_unrecovered : option Z;
}.

Definition stats_default : ProtocolStats :=
  {| dropped_packets := None; video_fec_source_symbols := None;
     video_fec_source_symbols_missing := None; video_fec_source_symbols_unrecovered := None |}.

(** [stats.dropped_packets = Some(stats.dropped_packets.unwrap_or_default() + n)] *)
Definition add_dropped (n : Z) (s : ProtocolStats) : ProtocolStats :=
  {| dropped_packets := Some (default 0 (dropped_packets s) + n);
     video_fec_source_symbols := video_fec_source_symbols s;
     video_fec_source_symbols_missing := video_fec_source_symbols_missing s;
     video_fec_source_symbols_unrecovered := video_fec_source_symbols_unrecovered s |}.
