(* ===== verification/Reassembly.v ===== *)
(** * Reassembly of segmented packets

    The code shared, line for line, by the drivers without error correction,
    [video_unreliable.rs] and [audio_unreliable.rs]: [DatagramSegments], which
    collects the segments of one packet, and the part of [PendingGroup] that
    holds the reassembled packets and the incomplete ones. *)

From stdpp Require Import prelude list gmap strings.
From Stdlib Require Import ZArith Lia.
From S2P Require Import Prelude SortedVec Io Av.
Open Scope Z_scope.

(** [runtime::Instant], in microseconds *)
Abbreviation Instant := Z.

Record DatagramPacket := { dg_packet : AVPacket; dg_seq : Z; dg_instant : Instant }.
Record StreamPacket := { st_packet : AVPacket; st_seq : Z }.

(** ** [ConfigPacket] *)

Inductive ConfigPacket := CfgNone | CfgReady (p : StreamPacket) | CfgSent.

Definition cfg_is_ready (c : ConfigPacket) : bool := match c with CfgReady _ => true | _ => false end.
Definition cfg_is_none (c : ConfigPacket) : bool := match c with CfgNone => true | _ => false end.

(** [ConfigPacket::consume]: the packet and the state left behind *)
Definition cfg_consume {E} (c : ConfigPacket) : outcome E (StreamPacket * ConfigPacket) :=
  _ ← rassert (cfg_is_ready c);
  match c with CfgReady p => Ok (p, CfgSent) | _ => Panic end.

(** ** [DatagramSegments] *)

Record DatagramSegments := {
  seg_seq : Z;                        (* kypacket_seq *)
  total_segments : option nat;
  segs : list (option bytes);
  segments_count : nat;
  total_segment_bytes : nat;
}.

Definition segments_new (kypacket_seq : Z) : DatagramSegments :=
  {| seg_seq := kypacket_seq; total_segments := None; segs := []; segments_count := 0; total_segment_bytes := 0 |}.

Definition is_complete (self : DatagramSegments) : bool :=
  bool_decide (total_segments self = Some (segments_count self)).

Fixpoint concat_segments {E} (l : list (option bytes)) : outcome E bytes :=
  match l with
  | [] => Ok []
  | s :: l => b ← expect s; rest ← concat_segments l; Ok (b ++ rest)
  end.

Definition merge_segments {E} (l : list (option bytes)) (total : nat) : outcome E bytes :=
  b ← concat_segments l;
  _ ← rassert (bool_decide (length b = total));
  Ok b.

(** [vec.resize(n, None)] for [n >= len] *)
Definition resize_none (n : nat) (l : list (option bytes)) : list (option bytes) :=
  l ++ replicate (n - length l) None.

Definition set_segment {E} (index : nat) (segment : bytes) (end_ : bool) (self : DatagramSegments)
    : outcome E DatagramSegments :=
  let l := if decide (length (segs self) ≤ index)%nat then resize_none (index + 1) (segs self) else segs self in
  cur ← expect (l !! index);
  match cur with
  | None =>
      total ← (if end_ : bool then
                 _ ← rassert (bool_decide (total_segments self = None)); Ok (Some (index + 1)%nat)
               else Ok (total_segments self));
      Ok {| seg_seq := seg_seq self; total_segments := total;
            segs := <[index := Some segment]> l;
            segments_count := segments_count self + 1;
            total_segment_bytes := total_segment_bytes self + length segment |}
  | Some _ =>
      Ok {| seg_seq := seg_seq self; total_segments := total_segments self; segs := l;
            segments_count := segments_count self; total_segment_bytes := total_segment_bytes self |}
  end.

Definition assemble {E} (now : Instant) (self : DatagramSegments) : outcome E DatagramPacket :=
  _ ← rassert (is_complete self);
  data ← merge_segments (segs self) (total_segment_bytes self);
  _ ← rassert (bool_decide (SERIALIZED_SIZE ≤ length data)%nat);
  h ← media_deserialize (take SERIALIZED_SIZE data);
  Ok {| dg_packet := Media {| header := h; payload := drop SERIALIZED_SIZE data |};
        dg_seq := seg_seq self; dg_instant := now |}.

(** ** The reassembly part of [PendingGroup] *)

Record Pending := { datagrams : list DatagramPacket; segments : list DatagramSegments }.

Definition pending_new : Pending := {| datagrams := []; segments := [] |}.

Definition prepare_datagram_segments (kypacket_seq : Z) (self : Pending) : Pending * nat :=
  match binary_search_by_key seg_seq kypacket_seq (segments self) with
  | Found index => (self, index)
  | NotFound index =>
      ({| datagrams := datagrams self;
          segments := vec_insert index (segments_new kypacket_seq) (segments self) |}, index)
  end.

Definition insert_datagram_packet (packet : DatagramPacket) (self : Pending) : Pending :=
  match binary_search_by_key dg_seq (dg_seq packet) (datagrams self) with
  | NotFound index => {| datagrams := vec_insert index packet (datagrams self); segments := segments self |}
  | Found _ => self
  end.

Definition insert_datagram {E} (now : Instant) (kypacket_seq : Z) (datagram_number : nat) (end_ : bool)
    (data : bytes) (self : Pending) : outcome E Pending :=
  match binary_search_by_key dg_seq kypacket_seq (datagrams self) with
  | Found _ => Ok self
  | NotFound _ =>
      let '(self, index) := prepare_datagram_segments kypacket_seq self in
      s ← expect (segments self !! index);
      s ← set_segment datagram_number data end_ s;
      let self := {| datagrams := datagrams self; segments := <[index := s]> (segments self) |} in
      if is_complete s then
        let self := {| datagrams := datagrams self; segments := delete index (segments self) |} in
        packet ← assemble now s;
        Ok (insert_datagram_packet packet self)
      else Ok self
  end.

Definition drop_expired_segments (until_kypacket_seq : Z) (self : Pending) : Pending :=
  let index := match binary_search_by_key seg_seq until_kypacket_seq (segments self) with
               | Found i => i
               | NotFound i => i
               end in
  {| datagrams := datagrams self; segments := drop index (segments self) |}.

Definition min_opt (a b : option Instant) : option Instant :=
  match a, b with Some x, Some y => Some (Z.min x y) | None, o => o | o, None => o end.

(** [datagrams.iter().map(|datagram| datagram.instant).min()] *)
Fixpoint min_of_datagrams (ds : list DatagramPacket) : option Instant :=
  match ds with
  | [] => None
  | d :: ds => min_opt (Some (dg_instant d)) (min_of_datagrams ds)
  end.

Lemma min_opt_le a b m : a = Some m ∨ b = Some m → ∃ m', min_opt a b = Some m' ∧ m' ≤ m.
Proof. destruct a as [x|], b as [y|]; intros [[= <-]|[= <-]]; cbn; eexists; (split; [done|lia]). Qed.

Lemma min_of_datagrams_le ds d : d ∈ ds → ∃ m, min_of_datagrams ds = Some m ∧ m ≤ dg_instant d.
Proof.
  induction ds as [|x ds IH]; intros Hd; [by apply not_elem_of_nil in Hd|]. cbn [min_of_datagrams].
  apply elem_of_cons in Hd as [->|Hd]; [apply min_opt_le; by left|].
  destruct (IH Hd) as (m & Hm & Hle). destruct (min_opt_le (Some (dg_instant x)) (min_of_datagrams ds) m) as (m' & ? & ?); [by right|].
  exists m'. split; [done|lia].
Qed.

(** ** Collecting the segments of one packet *)

Lemma omap_id_insert (l : list (option bytes)) i b :
  l !! i = Some None →
  omap id l = omap id (take i l) ++ omap id (drop (S i) l) ∧
  omap id (<[i := Some b]> l) = omap id (take i l) ++ b :: omap id (drop (S i) l).
Proof.
  intros Hi. split.
  - rewrite <- (take_drop_middle l i None Hi) at 1. by rewrite omap_app.
  - rewrite insert_take_drop by (by eapply lookup_lt_Some). by rewrite omap_app.
Qed.

Lemma omap_id_length (l : list (option bytes)) : (length (omap id l) ≤ length l)%nat.
Proof. induction l as [|[b|] l IH]; cbn in *; lia. Qed.

Lemma omap_id_full (l : list (option bytes)) :
  length (omap id l) = length l → l = Some <$> omap id l.
Proof.
  induction l as [|[b|] l IH]; cbn; [done| |].
  - intros [= H]. f_equal. by apply IH.
  - intros H. pose proof (omap_id_length l). lia.
Qed.

Lemma omap_id_fmap_Some (bs : list bytes) : omap id (Some <$> bs) = bs.
Proof. induction bs as [|b bs IH]; [done|]. cbn. by f_equal. Qed.

Lemma omap_id_replicate_None n : omap id (replicate n (@None bytes)) = [].
Proof. by induction n. Qed.

Lemma concat_segments_full {E} (bs : list bytes) : concat_segments (E:=E) (Some <$> bs) = Ok (concat bs).
Proof. induction bs as [|b bs IH]; [done|]. cbn [concat_segments fmap list_fmap]. by rewrite IH. Qed.

Section OnePacket.
Context {E : Type} (chunks : list bytes).
Abbreviation n := (length chunks).

Definition present (s : DatagramSegments) (i : nat) : Prop := ∃ b, segs s !! i = Some (Some b).

(** The segments collected so far are segments of the packet, and the
    counters describe them. *)
Definition collects (s : DatagramSegments) : Prop :=
  (length (segs s) ≤ n)%nat ∧
  (∀ i b, segs s !! i = Some (Some b) → chunks !! i = Some b) ∧
  segments_count s = length (omap id (segs s)) ∧
  total_segment_bytes s = length (concat (omap id (segs s))) ∧
  (present s (n - 1) → total_segments s = Some n) ∧
  (¬ present s (n - 1) → total_segments s = None).

#[export] Instance present_dec s i : Decision (present s i).
Proof.
  unfold present. destruct (segs s !! i) as [[b|]|] eqn:H.
  - left. by exists b.
  - right. naive_solver.
  - right. naive_solver.
Defined.

Lemma collects_new k : (0 < n)%nat → collects (segments_new k).
Proof. intros. split_and!; simpl; [lia|done|done|done| |done]. intros [b Hb]. done. Qed.

(** The vector after the resize of [set_segment]. *)
Definition grown (index : nat) (s : DatagramSegments) : list (option bytes) :=
  if decide (length (segs s) ≤ index)%nat then resize_none (index + 1) (segs s) else segs s.

Lemma grown_spec index s :
  (index < length (grown index s))%nat ∧ omap id (grown index s) = omap id (segs s) ∧
  (∀ i b, grown index s !! i = Some (Some b) ↔ segs s !! i = Some (Some b)) ∧
  (length (segs s) ≤ n → index < n → length (grown index s) ≤ n)%nat.
Proof.
  unfold grown, resize_none. case_decide as Hl.
  - rewrite length_app, length_replicate, omap_app, omap_id_replicate_None, app_nil_r.
    split_and!; [lia|done| |lia]. intros i b. rewrite lookup_app.
    destruct (segs s !! i) as [o|] eqn:Ho; [done|].
    split; [|done]. intros [Hx _]%lookup_replicate. done.
  - split_and!; [lia|done|done|lia].
Qed.

Lemma set_segment_collects index b s :
  (0 < n)%nat → collects s → chunks !! index = Some b →
  ∃ s', set_segment (E:=E) index b (bool_decide (index + 1 = n)%nat) s = Ok s' ∧
    collects s' ∧ seg_seq s' = seg_seq s ∧ ∀ i, present s' i ↔ i = index ∨ present s i.
Proof.
  intros Hn (Hlen & Hag & Hcnt & Hbytes & Htot & Htot') Hb.
  assert (Hin : (index < n)%nat) by (by eapply lookup_lt_Some).
  destruct (grown_spec index s) as (Hg1 & Hg2 & Hg3 & Hg4). specialize (Hg4 Hlen Hin).
  unfold set_segment. fold (grown index s). set (l := grown index s) in *. clearbody l.
  destruct (lookup_lt_is_Some_2 l index Hg1) as [cur Hcur]. rewrite Hcur. cbn [expect mbind outcome_bind].
  destruct cur as [b0|].
  - eexists. split; [done|]. split_and!; [split_and!; simpl; [done| |congruence|congruence| |]|done|].
    + intros i c Hc. by apply Hag, Hg3.
    + intros [c Hc]. apply Htot. exists c. by apply Hg3.
    + intros Hno. apply Htot'. intros [c Hc]. apply Hno. exists c. by apply Hg3.
    + intros i. unfold present at 1. simpl. setoid_rewrite Hg3. split; [by right|].
      intros [->|]; [|done]. exists b0. by apply Hg3.
  - assert (Hnp : ¬ present s index). { intros [c Hc%Hg3]. congruence. }
    destruct (omap_id_insert l index b Hcur) as [Ho1 Ho2].
    assert (Hpres : ∀ i c, <[index := Some b]> l !! i = Some (Some c) ↔ (i = index ∧ c = b) ∨ segs s !! i = Some (Some c)).
    { intros i c. destruct (decide (i = index)) as [->|Hne].
      - rewrite list_lookup_insert_eq by done. split; [intros [= ->]; by left|].
        intros [[_ ->]|Hc]; [done|]. exfalso. apply Hnp. by exists c.
      - rewrite list_lookup_insert_ne by done. rewrite Hg3. naive_solver. }
    assert (Hend : (if bool_decide (index + 1 = n)%nat
                    then _ ← rassert (E:=E) (bool_decide (total_segments s = None)); Ok (Some (index + 1)%nat)
                    else Ok (total_segments s)) =
                   Ok (if bool_decide (index + 1 = n)%nat then Some n else total_segments s)).
    { case_bool_decide as He; [|done]. rewrite bool_decide_true; [by rewrite He|].
      apply Htot'. by replace (n - 1)%nat with index by lia. }
    rewrite Hend. cbn [mbind outcome_bind]. eexists. split; [done|].
    split_and!; [split_and!; simpl|done|].
    + by rewrite length_insert.
    + intros i c [[-> ->]|Hc]%Hpres; [done|by apply Hag].
    + rewrite Ho2, Hcnt, <- Hg2, Ho1, !length_app. simpl. lia.
    + rewrite Ho2, Hbytes, <- Hg2, Ho1, !concat_app, !length_app. simpl. rewrite length_app. lia.
    + intros [c [[He _]|Hc]%Hpres].
      * by rewrite bool_decide_true by lia.
      * rewrite bool_decide_false; [apply Htot; by exists c|].
        intros He. apply Hnp. exists c. by replace index with (n - 1)%nat by lia.
    + intros Hno. rewrite bool_decide_false; [apply Htot'|]; [intros [c Hc]; apply Hno; exists c; apply Hpres; by right|].
      intros He. apply Hno. exists b. apply Hpres. left. split; [lia|done].
    + intros i. unfold present. simpl. setoid_rewrite Hpres. naive_solver.
Qed.

(** Feeds the segments with the given numbers, in that order. *)
Fixpoint feed (idxs : list nat) (s : DatagramSegments) : outcome E DatagramSegments :=
  match idxs with
  | [] => Ok s
  | i :: idxs =>
      b ← expect (chunks !! i);
      s ← set_segment i b (bool_decide (i + 1 = n)%nat) s;
      feed idxs s
  end.

Lemma feed_collects idxs s :
  (0 < n)%nat → collects s → Forall (λ i, (i < n)%nat) idxs →
  ∃ s', feed idxs s = Ok s' ∧ collects s' ∧ seg_seq s' = seg_seq s ∧
    ∀ i, present s' i ↔ i ∈ idxs ∨ present s i.
Proof.
  intros Hn. revert s. induction idxs as [|i idxs IH]; intros s Hs Hi; cbn [feed].
  { exists s. split_and!; [done..|]. intros i. rewrite elem_of_nil. naive_solver. }
  apply Forall_cons in Hi as [Hi His]. destruct (lookup_lt_is_Some_2 chunks i Hi) as [b Hb].
  rewrite Hb. cbn [expect mbind outcome_bind].
  destruct (set_segment_collects i b s Hn Hs Hb) as (s1 & -> & Hc1 & Hk1 & Hp1). cbn [mbind outcome_bind].
  destruct (IH s1 Hc1 His) as (s2 & -> & Hc2 & Hk2 & Hp2).
  exists s2. split_and!; [done|done|congruence|]. intros j. rewrite Hp2, Hp1, elem_of_cons. naive_solver.
Qed.

Lemma collects_complete s :
  (0 < n)%nat → collects s → is_complete s = true → segs s = Some <$> chunks.
Proof.
  intros Hn (Hlen & Hag & Hcnt & Hbytes & Htot & Htot') Hc.
  unfold is_complete in Hc. apply bool_decide_eq_true in Hc.
  assert (Hp : present s (n - 1)) by (destruct (decide (present s (n - 1))) as [|Hnp]; [done|rewrite Htot' in Hc; done]).
  rewrite (Htot Hp) in Hc. injection Hc as Hc. rewrite Hcnt in Hc.
  pose proof (omap_id_length (segs s)). pose proof (omap_id_full (segs s) ltac:(lia)) as Hfull.
  rewrite Hfull. f_equal. apply list_eq_same_length with n; [lia|done|].
  intros i x y Hi Hx Hy. rewrite (Hag i x) in Hy; [congruence|]. rewrite Hfull, list_lookup_fmap, Hx. done.
Qed.

Lemma collects_complete_iff s :
  (0 < n)%nat → collects s → is_complete s = true ↔ ∀ i, (i < n)%nat → present s i.
Proof.
  intros Hn Hs. split.
  - intros Hc i Hi. pose proof (collects_complete s Hn Hs Hc) as Hf.
    destruct (lookup_lt_is_Some_2 chunks i Hi) as [b Hb]. exists b. by rewrite Hf, list_lookup_fmap, Hb.
  - intros Hall. destruct Hs as (Hlen & Hag & Hcnt & Hbytes & Htot & Htot').
    unfold is_complete. apply bool_decide_eq_true. rewrite (Htot (Hall (n - 1)%nat ltac:(lia))). f_equal.
    assert (Hf : segs s = Some <$> chunks).
    { destruct (Hall (n - 1)%nat ltac:(lia)) as [b0 Hb0]. apply lookup_lt_Some in Hb0.
      apply list_eq_same_length with n; [by rewrite length_fmap|lia|].
      intros i x y Hi Hx Hy. destruct (Hall i Hi) as [b Hb]. rewrite list_lookup_fmap, (Hag i b Hb) in Hy.
      simpl in Hy. congruence. }
    by rewrite Hcnt, Hf, omap_id_fmap_Some.
Qed.

Lemma collects_merge s :
  (0 < n)%nat → collects s → is_complete s = true →
  merge_segments (E:=E) (segs s) (total_segment_bytes s) = Ok (concat chunks).
Proof.
  intros Hn Hs Hc. pose proof (collects_complete s Hn Hs Hc) as Hf.
  destruct Hs as (_ & _ & _ & Hbytes & _). unfold merge_segments. rewrite Hbytes, Hf, concat_segments_full.
  cbn [mbind outcome_bind]. by rewrite omap_id_fmap_Some, bool_decide_true.
Qed.
End OnePacket.

(** ** Invariant of the pending part *)

Definition wf_pending (p : Pending) : Prop :=
  sorted_by dg_seq (datagrams p) ∧ sorted_by seg_seq (segments p) ∧
  (∀ d s, d ∈ datagrams p → s ∈ segments p → dg_seq d ≠ seg_seq s).

(** Every sequence number held satisfies [P]. *)
Definition seqs_all (P : Z → Prop) (p : Pending) : Prop :=
  (∀ d, d ∈ datagrams p → P (dg_seq d)) ∧ (∀ s, s ∈ segments p → P (seg_seq s)).

Lemma wf_pending_new : wf_pending pending_new.
Proof. split_and!; [constructor|constructor|]. intros d s Hd. by apply not_elem_of_nil in Hd. Qed.

Lemma seqs_all_new P : seqs_all P pending_new.
Proof. split; intros x Hx; by apply not_elem_of_nil in Hx. Qed.

Lemma set_segment_seq {E} i b e s s' : set_segment (E:=E) i b e s = Ok s' → seg_seq s' = seg_seq s.
Proof. unfold set_segment. intros H. inv_ok. destruct v; inv_ok; done. Qed.

Lemma assemble_seq {E} now s d : assemble (E:=E) now s = Ok d → dg_seq d = seg_seq s ∧ dg_instant d = now.
Proof. unfold assemble. intros H. inv_ok. done. Qed.

Lemma prepare_spec k p :
  sorted_by seg_seq (segments p) →
  ∃ s i, prepare_datagram_segments k p = ({| datagrams := datagrams p; segments := s |}, i) ∧
    sorted_by seg_seq s ∧ (∃ x, s !! i = Some x ∧ seg_seq x = k) ∧
    (∀ x, x ∈ s → x ∈ segments p ∨ x = segments_new k) ∧ (∀ x, x ∈ segments p → x ∈ s).
Proof.
  intros Hs. unfold prepare_datagram_segments.
  destruct (binary_search_cases seg_seq k (segments p) Hs) as [(i & x & -> & Hx & Hk)|[-> Hn]].
  - exists (segments p), i. split_and!; [by destruct p|done|eauto|by left|done].
  - eexists _, _. split_and!; [done| | | |].
    + by apply sorted_vec_insert.
    + exists (segments_new k). split; [|done]. apply vec_insert_lookup. apply lower_bound_le.
    + intros x. rewrite vec_insert_perm, elem_of_cons. naive_solver.
    + intros x Hx. rewrite vec_insert_perm. by right.
Qed.

Lemma delete_insert {A} (l : list A) i x : delete i (<[i := x]> l) = delete i l.
Proof. revert i. induction l as [|y l IH]; intros [|i]; [done..|]. cbn. by rewrite IH. Qed.

Lemma elem_of_delete_neq {A} (key : A → Z) (l : list A) i x y :
  sorted_by key l → l !! i = Some x → y ∈ delete i l → y ∈ l ∧ key y ≠ key x.
Proof.
  intros Hs Hx Hy. assert (Hp : l ≡ₚ x :: delete i l) by (by apply delete_Permutation).
  split; [rewrite Hp; by right|]. intros Hk.
  assert (Hnd : NoDup (key <$> l)).
  { clear -Hs. induction l as [|z l IH]; [constructor|]. apply sorted_cons in Hs as [Hs Hz].
    rewrite fmap_cons. constructor; [|by apply IH]. rewrite list_elem_of_fmap.
    intros (w & Hw & Hin). rewrite Forall_forall in Hz. specialize (Hz w Hin). simpl in Hz. lia. }
  rewrite Hp in Hnd. rewrite fmap_cons, NoDup_cons in Hnd. destruct Hnd as [Hnd _]. apply Hnd.
  rewrite <- Hk. apply list_elem_of_fmap. eauto.
Qed.

Lemma elem_of_replace {A} (l : list A) i x y z :
  l !! i = Some x → z ∈ <[i := y]> l → z = y ∨ z ∈ l.
Proof.
  intros Hx Hz. rewrite (insert_delete_perm i x y l Hx) in Hz.
  apply elem_of_cons in Hz as [?|Hz]; [by left|right].
  rewrite (delete_Permutation l i x Hx). by right.
Qed.

Lemma insert_datagram_packet_spec d p :
  sorted_by dg_seq (datagrams p) →
  sorted_by dg_seq (datagrams (insert_datagram_packet d p)) ∧
  segments (insert_datagram_packet d p) = segments p ∧
  (∀ x, x ∈ datagrams (insert_datagram_packet d p) → x ∈ datagrams p ∨ x = d).
Proof.
  intros Hs. unfold insert_datagram_packet.
  destruct (binary_search_cases dg_seq (dg_seq d) (datagrams p) Hs) as [(i & x & -> & Hx & Hk)|[-> Hn]]; simpl.
  - split_and!; [done|done|by left].
  - split_and!; [by apply sorted_vec_insert|done|]. intros x. rewrite vec_insert_perm, elem_of_cons. naive_solver.
Qed.

Lemma insert_datagram_inv {E} now k num e data p p' (P : Z → Prop) :
  wf_pending p → seqs_all P p → P k → insert_datagram (E:=E) now k num e data p = Ok p' →
  wf_pending p' ∧ seqs_all P p'.
Proof.
  intros (Hd & Hs & Hdisj) [HPd HPs] HPk. unfold insert_datagram.
  destruct (binary_search_cases dg_seq k (datagrams p) Hd) as [(i & x & -> & Hx & Hk)|[-> Hn]].
  { intros [= <-]. done. }
  destruct (prepare_spec k p Hs) as (sl & i & -> & Hsl & (x & Hx & Hxk) & Hsub & _). intros H.
  cbn [segments datagrams] in H. rewrite Hx in H. cbn [expect mbind outcome_bind] in H.
  apply bind_Ok in H as (s & Hset & H). pose proof (set_segment_seq _ _ _ _ _ Hset) as Hsk. rewrite Hxk in Hsk.
  rewrite Forall_forall in Hn.
  assert (HPsl : ∀ y, y ∈ sl → P (seg_seq y)).
  { intros y [Hy| ->]%Hsub; [by apply HPs|done]. }
  assert (Hdsl : ∀ d y, d ∈ datagrams p → y ∈ sl → dg_seq d ≠ seg_seq y).
  { intros d y Hdd [Hy| ->]%Hsub; [by apply Hdisj|]. simpl. by apply Hn. }
  assert (Hsorted : sorted_by seg_seq (<[i:=s]> sl)) by (eapply sorted_replace; [done..|congruence]).
  assert (Hlk : <[i:=s]> sl !! i = Some s) by (apply list_lookup_insert_eq; by eapply lookup_lt_Some).
  destruct (is_complete s) eqn:Hc.
  - apply bind_Ok in H as (v & Hv & [= <-]). apply assemble_seq in Hv as [Hdk _]. cbn [segments datagrams] in *.
    destruct (insert_datagram_packet_spec v {| datagrams := datagrams p; segments := delete i (<[i:=s]> sl) |} Hd)
      as (H1 & H2 & H3). cbn [segments datagrams] in *. rewrite Hsk in Hdk.
    assert (Hdel : ∀ y, y ∈ delete i (<[i:=s]> sl) → y ∈ sl ∧ seg_seq y ≠ k).
    { intros y Hy. destruct (elem_of_delete_neq seg_seq _ i s y Hsorted Hlk Hy) as [Hy1 Hy2].
      destruct (elem_of_replace _ _ _ _ _ Hx Hy1) as [->|?]; [done|]. split; [done|congruence]. }
    split.
    + split_and!; [done|rewrite H2; by apply sorted_delete|]. rewrite H2.
      intros d y [Hdd| ->]%H3 [Hy1 Hy2]%Hdel; [by apply Hdsl|congruence].
    + split; [|rewrite H2; by intros y [Hy _]%Hdel; apply HPsl].
      intros d [Hdd| ->]%H3; [by apply HPd|by rewrite Hdk].
  - inv_ok. cbn [segments datagrams] in *. split.
    + split_and!; [done|done|]. intros d y Hdd Hy.
      destruct (elem_of_replace _ _ _ _ _ Hx Hy) as [->|?]; [rewrite Hsk; by apply Hn|by apply Hdsl].
    + split; [done|]. intros y Hy. destruct (elem_of_replace _ _ _ _ _ Hx Hy) as [->|?]; [by rewrite Hsk|by apply HPsl].
Qed.

(** [drop_expired_segments] keeps exactly the segments from [k] on. *)
Lemma drop_expired_spec k p :
  sorted_by seg_seq (segments p) →
  drop_expired_segments k p =
  {| datagrams := datagrams p; segments := drop (lower_bound seg_seq k (segments p)) (segments p) |}.
Proof.
  intros Hs. unfold drop_expired_segments. rewrite binary_search_linear by done.
  unfold linear_search. by repeat case_match; simplify_eq.
Qed.

Lemma elem_of_drop {A} n (l : list A) x : x ∈ drop n l → x ∈ l.
Proof. intros Hx. rewrite <- (take_drop n l), elem_of_app. by right. Qed.

(** Delivering the first reassembled packet leaves only later ones. *)
Lemma pop_front_inv d ds p (P : Z → Prop) :
  wf_pending p → seqs_all P p → datagrams p = d :: ds →
  let p' := drop_expired_segments (dg_seq d) {| datagrams := ds; segments := segments p |} in
  wf_pending p' ∧ seqs_all (λ k, P k ∧ dg_seq d < k) p'.
Proof.
  intros (Hd & Hs & Hdisj) [HPd HPs] Hp. rewrite Hp in *. apply sorted_cons in Hd as [Hds Hlt].
  rewrite Forall_forall in Hlt. cbv zeta. rewrite drop_expired_spec by done. cbn [datagrams segments]. split.
  - split_and!; simpl; [done|by apply sorted_drop|]. intros x s Hx Hss%elem_of_drop. apply Hdisj; [by right|done].
  - split; cbn [datagrams segments].
    + intros x Hx. split; [apply HPd; by right|by apply Hlt].
    + intros s Hss. pose proof (drop_lower_bound seg_seq (dg_seq d) (segments p) Hs) as Hge.
      rewrite Forall_forall in Hge. pose proof (elem_of_drop _ _ _ Hss) as Hss'. split; [by apply HPs|].
      specialize (Hge s Hss). simpl in Hge. assert (dg_seq d ≠ seg_seq s) by (apply Hdisj; [by left|done]). lia.
Qed.
