(* ===== verification/VideoUnreliable.v ===== *)
(** * Unreliable video driver

    Models [kyproto/src/protocol/driver/av/video_unreliable.rs]: the sender
    that splits media packets into datagrams, the two receiving tasks that
    parse the stream and the datagrams, the pending groups, and the [process]
    task that orders and forwards packets. *)

From stdpp Require Import prelude list strings.
From Stdlib Require Import ZArith Lia.
From S2P Require Import Prelude SortedVec Sequencer Io Av Packets Channel Reassembly.
Open Scope Z_scope.

Definition DATAGRAM_HEADER_SIZE : Z := 14.

(** [Duration::from_millis(50)], in microseconds *)
Definition MAX_BUFFERING : Z := 50 * 1000.

(** ** Sender *)

Record SendDriver := {
  ky_channel : KyChannel;
  stream : Writer;
  kypacket_seq : Z;
  group_seq : Z;
}.

(** [VideoUnreliableProtocolSendDriver::start], on the opened stream *)
Definition send_start (ch : KyChannel) (st : Writer) : SendDriver :=
  {| ky_channel := ch; stream := st; kypacket_seq := 0; group_seq := 0 |}.

Abbreviation sending := (handler SendDriver ProtocolError).

Definition on_channel {A} (m : handler KyChannel ProtocolError A) : sending A := λ self,
  let '(ch, r) := m (ky_channel self) in
  ({| ky_channel := ch; stream := stream self; kypacket_seq := kypacket_seq self; group_seq := group_seq self |}, r).

Definition on_stream {A} (m : writing A) : sending A := λ self,
  let '(w, r) := m (stream self) in
  ({| ky_channel := ky_channel self; stream := w; kypacket_seq := kypacket_seq self; group_seq := group_seq self |},
   map_err io_message r).

Definition set_seqs (k g : Z) (self : SendDriver) : SendDriver :=
  {| ky_channel := ky_channel self; stream := stream self; kypacket_seq := k; group_seq := g |}.

(** The buffer of one datagram *)
Definition datagram_bytes (self : SendDriver) (number_and_end : Z) (segment : bytes) : bytes :=
  write_datagram_header (ky_channel self) ++ be_bytes 4 (kypacket_seq self) ++
  be_bytes 4 (group_seq self) ++ be_bytes 4 number_and_end ++ segment.

(** The [while offset < data.len()] loop; every round advances by at least one
    byte, so [length data] rounds are enough. *)
Fixpoint send_loop (fuel : nat) (max_payload : nat) (data : bytes) (offset : nat) (number : Z) : sending unit :=
  if decide (offset < length data)%nat then
    match fuel with
    | O => pureM Panic
    | S fuel =>
        let payload_size := Nat.min max_payload (length data - offset) in
        _ ← pureM (rassert (bool_decide (Z.of_nat payload_size < 2 ^ 16)));
        let end_ := bool_decide (offset + payload_size = length data)%nat in
        let number_and_end := Z.lor number (if end_ then Z.shiftl 1 31 else 0) in
        buf ← getM (λ self, datagram_bytes self number_and_end (slice offset payload_size data));
        _ ← on_channel (send_datagram connection_lost buf);
        send_loop fuel max_payload data (offset + payload_size) (number + 1)
    end
  else mret tt.

Definition send_datagrams (packet : MediaPacket) : sending unit :=
  max ← getM (λ self, max_datagram_size (ky_channel self));
  max ← pureM (ok_or max "Datagram not supported"%string);
  _ ← pureM (rassert (DATAGRAM_HEADER_SIZE <? max));
  hdr ← pureM (media_serialize (header packet));
  let data := hdr ++ payload packet in
  send_loop (length data) (Z.to_nat (max - DATAGRAM_HEADER_SIZE)) data 0 0.

(** [ProtocolSendDriver::send] *)
Definition send (packet : AVPacket) : sending unit :=
  match packet with
  | Codec p =>
      hdr ← pureM (codec_serialize (codec_header p));
      _ ← on_stream (write_all (be_bytes 8 0 ++ hdr));
      on_stream flush
  | Media p =>
      _ ← (if is_config (header p) then
             _ ← modifyM (λ self, set_seqs (kypacket_seq self) (wrap32 (group_seq self + 1)) self);
             hdr ← pureM (media_serialize (header p));
             prefix ← getM (λ self, be_bytes 4 (kypacket_seq self) ++ be_bytes 4 (group_seq self));
             _ ← on_stream (write_all (prefix ++ hdr ++ payload p));
             on_stream flush
           else send_datagrams p);
      modifyM (λ self, set_seqs (wrap32 (kypacket_seq self + 1)) (group_seq self) self)
  | Hole _ => pureM Panic
  end.

(** ** Receiving tasks *)

Record StreamMsg := { sm_packet : AVPacket; sm_raw_kypacket_seq : Z; sm_raw_group_seq : Z }.
Record DatagramMsg := {
  dm_data : bytes; dm_raw_kypacket_seq : Z; dm_raw_group_seq : Z; dm_number : Z; dm_end : bool }.
Inductive RecvMsg := RStream (m : StreamMsg) | RDatagram (m : DatagramMsg).

(** One round of [recv_stream_packets] *)
Definition recv_stream_packet (r : Reader) : outcome ProtocolError (RecvMsg * Reader) :=
  '(seqs, r) ← map_err io_message (read_exact 8 r);
  '(packet, r) ← map_err io_message (av_read r);
  packet ← ok_or packet "Missing packet data on stream"%string;
  Ok (RStream {| sm_packet := packet; sm_raw_kypacket_seq := read_be (slice 0 4 seqs);
                 sm_raw_group_seq := read_be (slice 4 4 seqs) |}, r).

(** One round of [recv_datagrams], on the datagram received *)
Definition recv_datagram {E} (datagram : bytes) : outcome E RecvMsg :=
  _ ← rassert (DATAGRAM_HEADER_SIZE <=? blen datagram);
  let number_and_end := read_be (slice 10 4 datagram) in
  Ok (RDatagram {| dm_data := drop 14 datagram;
                   dm_raw_kypacket_seq := read_be (slice 2 4 datagram);
                   dm_raw_group_seq := read_be (slice 6 4 datagram);
                   dm_number := Z.land number_and_end (Z.shiftl 1 31 - 1);
                   dm_end := negb (Z.land number_and_end (Z.shiftl 1 31) =? 0) |}).

(** ** Pending groups *)

Record PendingGroup := { pg_seq : Z; config_packet : ConfigPacket; pending : Pending }.

Definition PendingGroup_new (group_seq : Z) : PendingGroup :=
  {| pg_seq := group_seq; config_packet := CfgNone; pending := pending_new |}.

Abbreviation PendingGroups := (list PendingGroup).

Definition with_pending (p : Pending) (g : PendingGroup) : PendingGroup :=
  {| pg_seq := pg_seq g; config_packet := config_packet g; pending := p |}.
Definition with_config (c : ConfigPacket) (g : PendingGroup) : PendingGroup :=
  {| pg_seq := pg_seq g; config_packet := c; pending := pending g |}.

Definition prepare_pending_group (group_seq : Z) (self : PendingGroups) : PendingGroups * nat :=
  match binary_search_by_key pg_seq group_seq self with
  | Found index => (self, index)
  | NotFound index => (vec_insert index (PendingGroup_new group_seq) self, index)
  end.

Definition insert_stream_packet {E} (group_seq kypacket_seq : Z) (packet : AVPacket) (self : PendingGroups)
    : outcome E PendingGroups :=
  let '(self, index) := prepare_pending_group group_seq self in
  g ← expect (self !! index);
  _ ← rassert (cfg_is_none (config_packet g));
  Ok (<[index := with_config (CfgReady {| st_packet := packet; st_seq := kypacket_seq |}) g]> self).

Definition groups_insert_datagram {E} (now : Instant) (group_seq kypacket_seq : Z) (number : nat) (end_ : bool)
    (data : bytes) (self : PendingGroups) : outcome E PendingGroups :=
  let '(self, index) := prepare_pending_group group_seq self in
  g ← expect (self !! index);
  p ← insert_datagram now kypacket_seq number end_ data (pending g);
  Ok (<[index := with_pending p g]> self).

(** Minimum over all datagrams of all groups *)
Fixpoint min_instant (self : PendingGroups) : option Instant :=
  match self with
  | [] => None
  | g :: self => min_opt (min_of_datagrams (datagrams (pending g))) (min_instant self)
  end.

Inductive NextPacket :=
| NpNone
| NpReady (pending_group_index : nat) (config : bool)
| NpDeadline (i : Instant).

(** The loop of [next_packet], with its cached minimum *)
Fixpoint next_packet_loop (now next : Z) (all gs : PendingGroups) (index : nat)
    (cached : option (option Instant)) : NextPacket :=
  match gs with
  | [] => NpNone
  | g :: gs =>
      if cfg_is_none (config_packet g) then next_packet_loop now next all gs (S index) cached
      else
        if match config_packet g with CfgReady p => st_seq p =? next | _ => false end then NpReady index true
        else
          match datagrams (pending g) with
          | [] => next_packet_loop now next all gs (S index) cached
          | d :: _ =>
              if dg_seq d =? next then NpReady index (cfg_is_ready (config_packet g))
              else
                let min := match cached with Some c => c | None => min_instant all end in
                match min with
                | Some m =>
                    if m + MAX_BUFFERING <=? now then NpReady index (cfg_is_ready (config_packet g))
                    else NpDeadline (m + MAX_BUFFERING)
                | None => next_packet_loop now next all gs (S index) (Some min)
                end
          end
  end.

Definition next_packet (now next_kypacket_seq : Z) (self : PendingGroups) : NextPacket :=
  next_packet_loop now next_kypacket_seq self self 0 None.

Inductive Action :=
| APacket (kypacket_seq : Z) (packet : AVPacket)
| ADeadline (i : Instant)
| ANone.

Definition take_next_packet {E} (now next_kypacket_seq : Z) (self : PendingGroups) : outcome E (Action * PendingGroups) :=
  match next_packet now next_kypacket_seq self with
  | NpNone => Ok (ANone, self)
  | NpDeadline instant => Ok (ADeadline instant, self)
  | NpReady index config =>
      let self := drop index self in
      g ← expect (self !! 0%nat);
      _ ← rassert (negb (cfg_is_none (config_packet g)));
      if config : bool then
        _ ← rassert (cfg_is_ready (config_packet g));
        '(p, c) ← cfg_consume (config_packet g);
        Ok (APacket (st_seq p) (st_packet p), <[0%nat := with_config c g]> self)
      else
        match datagrams (pending g) with
        | [] => Panic
        | d :: ds =>
            let p := drop_expired_segments (dg_seq d) {| datagrams := ds; segments := segments (pending g) |} in
            Ok (APacket (dg_seq d) (dg_packet d), <[0%nat := with_pending p g]> self)
        end
  end.

(** ** [process] *)

Record Process := {
  group_sequencer : Sequencer;
  kypacket_sequencer : Sequencer;
  pending_groups : PendingGroups;
  next_kypacket_seq : Z;
  deadline : option Instant;
  protocol_stats : ProtocolStats;
  client : list (option Z * AVPacket);  (* packets sent to the client queue, annotated
                                           with the sequence number they were taken under *)
  client_open : bool;                   (* the client still holds its receiver *)
}.

Definition process_init (stats : ProtocolStats) : Process :=
  {| group_sequencer := Sequencer_new; kypacket_sequencer := Sequencer_new; pending_groups := [];
     next_kypacket_seq := 0; deadline := None; protocol_stats := stats; client := []; client_open := true |}.

Abbreviation processing := (handler Process ProtocolError).

Definition set_sequencers (k g : Sequencer) (s : Process) : Process :=
  {| group_sequencer := g; kypacket_sequencer := k; pending_groups := pending_groups s;
     next_kypacket_seq := next_kypacket_seq s; deadline := deadline s; protocol_stats := protocol_stats s;
     client := client s; client_open := client_open s |}.
Definition set_groups (gs : PendingGroups) (s : Process) : Process :=
  {| group_sequencer := group_sequencer s; kypacket_sequencer := kypacket_sequencer s; pending_groups := gs;
     next_kypacket_seq := next_kypacket_seq s; deadline := deadline s; protocol_stats := protocol_stats s;
     client := client s; client_open := client_open s |}.
Definition set_deadline (d : option Instant) (s : Process) : Process :=
  {| group_sequencer := group_sequencer s; kypacket_sequencer := kypacket_sequencer s;
     pending_groups := pending_groups s; next_kypacket_seq := next_kypacket_seq s; deadline := d;
     protocol_stats := protocol_stats s; client := client s; client_open := client_open s |}.
Definition set_next (k : Z) (st : ProtocolStats) (s : Process) : Process :=
  {| group_sequencer := group_sequencer s; kypacket_sequencer := kypacket_sequencer s;
     pending_groups := pending_groups s; next_kypacket_seq := k; deadline := deadline s;
     protocol_stats := st; client := client s; client_open := client_open s |}.
Definition push_client (p : option Z * AVPacket) (s : Process) : Process :=
  {| group_sequencer := group_sequencer s; kypacket_sequencer := kypacket_sequencer s;
     pending_groups := pending_groups s; next_kypacket_seq := next_kypacket_seq s; deadline := deadline s;
     protocol_stats := protocol_stats s; client := client s ++ [p]; client_open := client_open s |}.

(** [tx_client.send(packet).await.map_err(ProtocolError::new)?] *)
Definition send_client (p : option Z * AVPacket) : processing unit := λ s,
  if client_open s then (push_client p s, Ok tt) else (s, Err "channel closed"%string).

(** Both sequencers applied to the numbers of a message *)
Definition unroll (raw_kypacket raw_group : Z) : processing (Z * Z) := λ s,
  let '(k, ks) := seq SeqU32 (kypacket_sequencer s) raw_kypacket in
  let '(g, gs) := seq SeqU32 (group_sequencer s) raw_group in
  (set_sequencers ks gs s, Ok (k, g)).

Definition update_groups (f : PendingGroups → outcome ProtocolError PendingGroups) : processing unit := λ s,
  match f (pending_groups s) with
  | Ok gs => (set_groups gs s, Ok tt)
  | Err e => (s, Err e)
  | Panic => (s, Panic)
  end.

(** What the [select!] yields: a message of the queue, its end, or the deadline *)
Inductive Event := EvMsg (m : RecvMsg) | EvEnd | EvDeadline.

(** How the loop goes on after the [select!] *)
Inductive Flow := Proceed | Continue | Return.

Definition handle_event (now : Instant) (ev : Event) : processing Flow :=
  match ev with
  | EvMsg (RStream m) =>
      match sm_packet m with
      | Codec _ => _ ← send_client (None, sm_packet m); mret Continue
      | _ =>
          '(k, g) ← unroll (sm_raw_kypacket_seq m) (sm_raw_group_seq m);
          next ← getM next_kypacket_seq;
          if next <=? k then _ ← update_groups (insert_stream_packet g k (sm_packet m)); mret Proceed
          else mret Proceed
      end
  | EvMsg (RDatagram m) =>
      '(k, g) ← unroll (dm_raw_kypacket_seq m) (dm_raw_group_seq m);
      next ← getM next_kypacket_seq;
      if k <? next then mret Continue
      else
        _ ← update_groups (groups_insert_datagram now g k (Z.to_nat (dm_number m)) (dm_end m) (dm_data m));
        mret Proceed
  | EvEnd => mret Return
  | EvDeadline => mret Proceed
  end.

(** [match pending_groups.take_next_packet(next_kypacket_seq)] *)
Definition take_step (now : Instant) : processing unit := λ s,
  match take_next_packet now (next_kypacket_seq s) (pending_groups s) with
  | Err e => (s, Err e)
  | Panic => (s, Panic)
  | Ok (ANone, gs) => (set_deadline None (set_groups gs s), Ok tt)
  | Ok (ADeadline instant, gs) => (set_deadline (Some instant) (set_groups gs s), Ok tt)
  | Ok (APacket k packet, gs) =>
      let stats := if next_kypacket_seq s <? k then add_dropped (k - next_kypacket_seq s) (protocol_stats s)
                   else protocol_stats s in
      (_ ← send_client (Some k, packet); modifyM (set_deadline None)) (set_next (k + 1) stats (set_groups gs s))
  end.

(** One round of the loop of [process]: [now1] is the clock when a packet is
    assembled, [now2] when the next packet is looked for.  The result tells
    whether the loop goes on. *)
Definition step (now1 now2 : Instant) (ev : Event) : processing bool :=
  flow ← handle_event now1 ev;
  match flow with
  | Return => mret false
  | Continue => mret true
  | Proceed => _ ← take_step now2; mret true
  end.

(** A run of [process] over a sequence of timed events *)
Fixpoint run (evs : list (Instant * Instant * Event)) : processing unit :=
  match evs with
  | [] => mret tt
  | (now1, now2, ev) :: evs =>
      continue ← step now1 now2 ev;
      if continue : bool then run evs else mret tt
  end.
