(* ===== verification/VideoTransfer.v ===== *)
(** * From the video sender to the reassembled packet

    Shows that the datagrams [VideoUnreliable.send_datagrams] produces for a
    media packet, parsed by the receiver and inserted in any order, with any
    duplication and any loss, give back exactly that packet, once, as soon as
    all of them have arrived, and nothing before. *)

From stdpp Require Import prelude list strings.
From Stdlib Require Import ZArith Lia.
From S2P Require Import Prelude SortedVec Io Av Packets Channel Reassembly VideoUnreliable.
Open Scope Z_scope.

(** ** The segments a packet is split into *)

Fixpoint chunks (fuel m : nat) (data : bytes) : list bytes :=
  match fuel, data with
  | _, [] => []
  | O, _ => []
  | S fuel, _ => take m data :: chunks fuel m (drop m data)
  end.

Lemma chunks_concat fuel m data : (0 < m)%nat → (length data ≤ fuel)%nat → concat (chunks fuel m data) = data.
Proof.
  intros Hm. revert data. induction fuel as [|fuel IH]; intros [|b data] Hf; simpl in *; [done|lia|done|].
  change (take m (b :: data) ++ concat (chunks fuel m (drop m (b :: data))) = b :: data).
  rewrite IH, take_drop; [done|]. rewrite length_drop. simpl. lia.
Qed.

Lemma chunks_bound fuel m data : Forall (λ c, (length c ≤ m)%nat) (chunks fuel m data).
Proof.
  revert data. induction fuel as [|fuel IH]; intros [|b data]; simpl; try constructor; [|apply IH].
  rewrite length_take. lia.
Qed.

Lemma chunks_length fuel m data : (length (chunks fuel m data) ≤ fuel)%nat.
Proof. revert data. induction fuel as [|fuel IH]; intros [|b data]; simpl; try lia. specialize (IH (drop m (b :: data))). lia. Qed.

Lemma chunks_nil fuel m data : (length data ≤ fuel)%nat → chunks fuel m data = [] ↔ data = [].
Proof. destruct fuel, data; simpl; intros; split; try done; lia. Qed.

(** The first chunk and the rest of the data *)
Lemma chunks_step fuel m data offset :
  (0 < m)%nat → (offset < length data)%nat → (length data ≤ S fuel + offset)%nat →
  let ps := Nat.min m (length data - offset) in
  chunks (S fuel) m (drop offset data) = slice offset ps data :: chunks fuel m (drop (offset + ps) data) ∧
  bool_decide (chunks fuel m (drop (offset + ps) data) = []) = bool_decide (offset + ps = length data)%nat.
Proof.
  intros Hm Ho Hf ps. assert (Hps : ps = m ∨ ps = (length data - offset)%nat ∧ (ps ≤ m)%nat) by (unfold ps; lia).
  assert (Hle : (0 < ps)%nat ∧ (offset + ps ≤ length data)%nat) by (unfold ps; lia). clearbody ps. split.
  - destruct (drop offset data) as [|b rest] eqn:Hd; [apply (f_equal length) in Hd; rewrite length_drop in Hd; cbn in Hd; lia|].
    cbn [chunks]. rewrite <- Hd, drop_drop. unfold slice. destruct Hps as [->|[Hpe Hpm]]; [done|].
    rewrite !take_ge by (rewrite length_drop; lia). by rewrite (drop_ge data (offset + m)), (drop_ge data (offset + ps)) by lia.
  - apply bool_decide_ext. rewrite chunks_nil by (rewrite length_drop; lia). split.
    + intros Hd. apply (f_equal length) in Hd. rewrite length_drop in Hd. cbn in Hd. lia.
    + intros Hd. apply drop_ge. lia.
Qed.

(** ** The datagrams on the wire *)

Definition number_and_end (number : Z) (last : bool) : Z := Z.lor number (if last then Z.shiftl 1 31 else 0).

Fixpoint wire_datagrams (self : SendDriver) (number : Z) (cs : list bytes) : list bytes :=
  match cs with
  | [] => []
  | c :: cs => datagram_bytes self (number_and_end number (bool_decide (cs = []))) c :: wire_datagrams self (number + 1) cs
  end.

Definition with_sent (sent : list bytes) (self : SendDriver) : SendDriver :=
  {| ky_channel := {| endpoint_id := endpoint_id (ky_channel self);
                      max_datagram_size := max_datagram_size (ky_channel self);
                      datagrams_sent := datagrams_sent (ky_channel self) ++ sent;
                      datagram_budget := datagram_budget (ky_channel self) |};
     stream := stream self; kypacket_seq := kypacket_seq self; group_seq := group_seq self |}.

Lemma wire_datagrams_with_sent self sent number cs :
  wire_datagrams (with_sent sent self) number cs = wire_datagrams self number cs.
Proof. revert number. induction cs as [|c cs IH]; intros number; [done|]. cbn [wire_datagrams]. by rewrite IH. Qed.

Lemma send_loop_open fuel m data offset number self :
  (0 < m)%nat → Z.of_nat m < 2 ^ 16 → (length data ≤ fuel + offset)%nat → (offset ≤ length data)%nat →
  datagram_budget (ky_channel self) = None →
  send_loop fuel m data offset number self =
  (with_sent (wire_datagrams self number (chunks fuel m (drop offset data))) self, Ok tt).
Proof.
  intros Hm Hm16. revert offset number self. induction fuel as [|fuel IH]; intros offset number self Hf Ho Hb.
  { cbn [send_loop]. rewrite decide_False by lia. rewrite (drop_ge data offset) by lia. simpl.
    destruct self as [[] ? ? ?]. unfold with_sent. simpl in *. by rewrite app_nil_r. }
  cbn [send_loop]. case_decide as Hlt; last first.
  { rewrite (drop_ge data offset) by lia. simpl. destruct self as [[] ? ? ?]. unfold with_sent. simpl in *. by rewrite app_nil_r. }
  destruct (chunks_step fuel m data offset Hm Hlt ltac:(lia)) as [Hchunk Hlast]. set (ps := Nat.min m (length data - offset)) in *.
  assert (Hps : (0 < ps ≤ m)%nat ∧ (offset + ps ≤ length data)%nat) by (unfold ps; lia). clearbody ps.
  rewrite (bool_decide_true (Z.of_nat ps < 2 ^ 16)) by lia. unfold mbind, handler_bind at 1. cbn [pureM rassert].
  unfold getM at 1. unfold handler_bind at 1. unfold handler_bind at 1. unfold on_channel at 1, send_datagram at 1.
  rewrite Hb. cbn [fmap option_fmap option_map]. rewrite Hchunk. cbn [wire_datagrams].
  rewrite Hlast. fold (number_and_end number (bool_decide (offset + ps = length data)%nat)).
  set (d := datagram_bytes self _ _).
  assert (Hself : {| ky_channel := {| endpoint_id := endpoint_id (ky_channel self);
                       max_datagram_size := max_datagram_size (ky_channel self);
                       datagrams_sent := datagrams_sent (ky_channel self) ++ [d]; datagram_budget := None |};
                     stream := stream self; kypacket_seq := kypacket_seq self; group_seq := group_seq self |}
                  = with_sent [d] self) by (unfold with_sent; by rewrite Hb).
  rewrite Hself. rewrite IH; [|lia|lia|done]. rewrite wire_datagrams_with_sent.
  unfold with_sent. cbn. by rewrite <- app_assoc.
Qed.

(** ** Parsing what was sent *)

Lemma number_and_end_parts i last :
  0 ≤ i < 2 ^ 31 →
  is_u32 (number_and_end i last) ∧
  Z.land (number_and_end i last) (Z.shiftl 1 31 - 1) = i ∧
  negb (Z.land (number_and_end i last) (Z.shiftl 1 31) =? 0) = last.
Proof.
  intros Hi. unfold number_and_end.
  assert (Hbit : ∀ j, 0 ≤ j → Z.testbit (Z.lor i (if last then Z.shiftl 1 31 else 0)) j =
                              Z.testbit i j || (last && bool_decide (j = 31))).
  { intros j Hj. rewrite Z.lor_spec. f_equal. destruct last; [by apply shiftl1_bit; lia|apply Z.bits_0]. }
  set (v := Z.lor _ _) in *. split_and!.
  - assert (0 ≤ v) by (unfold v; apply Z.lor_nonneg; destruct last; (split; [lia|done])).
    split; [done|]. destruct (decide (v = 0)) as [->|]; [lia|]. apply Z.log2_lt_pow2; [lia|].
    destruct (Z.lt_ge_cases (Z.log2 v) 32) as [|Hge]; [done|].
    pose proof (Z.bit_log2 v ltac:(lia)) as Hb. rewrite Hbit in Hb by apply Z.log2_nonneg.
    rewrite (testbit_small i 31), bool_decide_false, andb_false_r in Hb by lia. done.
  - change (Z.shiftl 1 31 - 1) with (Z.ones 31). apply Z.bits_inj'. intros j Hj.
    rewrite Z.land_spec, Z.testbit_ones_nonneg, Hbit by lia. destruct (Z.ltb_spec j 31).
    + by rewrite bool_decide_false, andb_false_r, orb_false_r, andb_true_r by lia.
    + rewrite andb_false_r. symmetry. apply (testbit_small i 31); lia.
  - rewrite land_bit_eqb, Hbit, (testbit_small i 31), bool_decide_true by lia. by destruct last.
Qed.

Lemma recv_datagram_wire {E} self i last c :
  is_u32 (kypacket_seq self) → is_u32 (group_seq self) → 0 ≤ i < 2 ^ 31 →
  recv_datagram (E:=E) (datagram_bytes self (number_and_end i last) c) =
  Ok (RDatagram {| dm_data := c; dm_raw_kypacket_seq := kypacket_seq self; dm_raw_group_seq := group_seq self;
                   dm_number := i; dm_end := last |}).
Proof.
  intros Hk Hg Hi. destruct (number_and_end_parts i last Hi) as (H1 & H2 & H3).
  set (v := number_and_end i last) in *.
  unfold recv_datagram.
  assert (Hlen : (DATAGRAM_HEADER_SIZE <=? blen (datagram_bytes self v c)) = true).
  { apply Z.leb_le. unfold blen, datagram_bytes, write_datagram_header, DATAGRAM_HEADER_SIZE.
    rewrite !length_app, !be_bytes_length. lia. }
  rewrite Hlen. cbn [rassert mbind outcome_bind].
  change (slice 2 4 (datagram_bytes self v c)) with (be_bytes 4 (kypacket_seq self)).
  change (slice 6 4 (datagram_bytes self v c)) with (be_bytes 4 (group_seq self)).
  change (slice 10 4 (datagram_bytes self v c)) with (be_bytes 4 v).
  change (drop 14 (datagram_bytes self v c)) with c.
  rewrite !read_be_be4 by done. by rewrite H2, H3.
Qed.

(** Parses one datagram and inserts it under the unrolled number [k]. *)
Definition receive_datagram {E} (now : Instant) (k : Z) (d : bytes) (p : Pending) : outcome E Pending :=
  m ← recv_datagram d;
  match m with
  | RDatagram m => insert_datagram now k (Z.to_nat (dm_number m)) (dm_end m) (dm_data m) p
  | RStream _ => Panic
  end.

Fixpoint receive_all {E} (now : Instant) (k : Z) (ds : list bytes) (p : Pending) : outcome E Pending :=
  match ds with
  | [] => Ok p
  | d :: ds => p ← receive_datagram now k d p; receive_all now k ds p
  end.

Lemma wire_datagrams_lookup self cs number i c :
  cs !! i = Some c →
  wire_datagrams self number cs !! i =
  Some (datagram_bytes self (number_and_end (number + Z.of_nat i) (bool_decide (i + 1 = length cs)%nat)) c).
Proof.
  revert number i. induction cs as [|c0 cs IH]; intros number [|i] Hc; simpl in Hc; [done|done| |].
  - injection Hc as ->. cbn [wire_datagrams lookup list_lookup]. rewrite Z.add_0_r. do 3 f_equal.
    apply bool_decide_ext. destruct cs; simpl; split; try done; lia.
  - cbn [wire_datagrams lookup list_lookup]. rewrite (IH _ _ Hc). do 3 f_equal; [lia|].
    apply bool_decide_ext. simpl. lia.
Qed.

Lemma wire_datagrams_length self number cs : length (wire_datagrams self number cs) = length cs.
Proof. revert number. induction cs as [|c cs IH]; intros number; simpl; [done|]. by rewrite IH. Qed.

(** ** Receiving the segments of one packet *)

(** Every number below [n] occurs in [X]. *)
Definition all_received (n : nat) (X : list nat) : bool := forallb (λ i, bool_decide (i ∈ X)) (seq 0 n).

Lemma all_received_spec n X : all_received n X = true ↔ ∀ i, (i < n)%nat → i ∈ X.
Proof.
  unfold all_received. rewrite forallb_forall. split.
  - intros H i Hi. specialize (H i). rewrite bool_decide_eq_true in H. apply H, in_seq. lia.
  - intros H i Hi%in_seq. apply bool_decide_eq_true. apply H. lia.
Qed.

Section OnePacket.
Context {E : Type} (now : Instant) (k : Z) (packet : MediaPacket) (cs : list bytes).
Hypothesis Hwf : wf_media (header packet).
Hypothesis Hcs : concat cs =
  (be_bytes 8 (pts_and_flags (header packet)) ++ be_bytes 4 (size (header packet))) ++ payload packet.
Hypothesis Hne : (0 < length cs)%nat.

Definition assembled : DatagramPacket := {| dg_packet := Media packet; dg_seq := k; dg_instant := now |}.

(** The pending state after the segments with numbers in [X] were received. *)
Definition receiving (X : list nat) (p : Pending) : Prop :=
  if all_received (length cs) X then p = {| datagrams := [assembled]; segments := [] |}
  else datagrams p = [] ∧
       (segments p = [] ∧ X = [] ∨
        ∃ s, segments p = [s] ∧ collects cs s ∧ seg_seq s = k ∧ ∀ i, present s i ↔ i ∈ X).

Lemma assemble_collected s :
  collects cs s → seg_seq s = k → is_complete s = true → assemble (E:=E) now s = Ok assembled.
Proof.
  intros Hs Hk Hc. unfold assemble. rewrite Hc. cbn [rassert mbind outcome_bind].
  rewrite (collects_merge cs s Hne Hs Hc), Hcs. cbn [mbind outcome_bind].
  set (hdr := be_bytes 8 _ ++ be_bytes 4 _).
  assert (Hl : length hdr = SERIALIZED_SIZE) by (unfold hdr; by rewrite length_app, !be_bytes_length).
  rewrite bool_decide_true by (rewrite length_app; lia). cbn [rassert mbind outcome_bind].
  rewrite take_app_length', drop_app_length' by done. unfold hdr.
  rewrite media_deserialize_serialized by done. cbn [mbind outcome_bind].
  unfold assembled. rewrite Hk. by destruct packet.
Qed.

Lemma search_one {A} (key : A → Z) (x : A) : key x = k → binary_search_by_key key k [x] = Found 0.
Proof. intros <-. unfold binary_search_by_key. simpl. by rewrite Z.eqb_refl. Qed.

(** Collecting one more segment in the entry [s] of the packet. *)
Lemma receive_collect i c s X :
  cs !! i = Some c → collects cs s → seg_seq s = k → (∀ j, present s j ↔ j ∈ X) →
  ∃ p, (s' ← set_segment (E:=E) i c (bool_decide (i + 1 = length cs)%nat) s;
        if is_complete s' then d ← assemble now s'; Ok (insert_datagram_packet d {| datagrams := []; segments := [] |})
        else Ok {| datagrams := []; segments := [s'] |}) = Ok p ∧ receiving (X ++ [i]) p.
Proof.
  intros Hc Hs Hk Hp. destruct (set_segment_collects cs (E:=E) i c s Hne Hs Hc) as (s' & -> & Hs' & Hk' & Hp').
  cbn [mbind outcome_bind].
  assert (Hset : ∀ j, present s' j ↔ j ∈ X ++ [i]).
  { intros j. rewrite Hp', Hp, elem_of_app, list_elem_of_singleton. naive_solver. }
  assert (Hall : is_complete s' = true ↔ all_received (length cs) (X ++ [i]) = true).
  { rewrite (collects_complete_iff cs s' Hne Hs'), all_received_spec. by setoid_rewrite Hset. }
  unfold receiving. destruct (is_complete s') eqn:Hcomp.
  - rewrite (proj1 Hall eq_refl). rewrite assemble_collected by (done || congruence).
    cbn [mbind outcome_bind]. eexists. split; [done|]. done.
  - destruct (all_received _ _); [naive_solver|]. eexists. split; [done|].
    split; [done|]. right. exists s'. split_and!; [done|done|congruence|done].
Qed.

Lemma receive_step i c X p :
  cs !! i = Some c → receiving X p →
  ∃ p', insert_datagram (E:=E) now k i (bool_decide (i + 1 = length cs)%nat) c p = Ok p' ∧ receiving (X ++ [i]) p'.
Proof.
  intros Hc Hr. unfold receiving in Hr. destruct (all_received (length cs) X) eqn:Hall.
  - subst p. exists {| datagrams := [assembled]; segments := [] |}. split.
    + unfold insert_datagram. cbn [datagrams]. by rewrite search_one.
    + unfold receiving. rewrite (proj2 (all_received_spec _ _)); [done|].
      intros j Hj. rewrite elem_of_app. left. by apply all_received_spec with (n := length cs).
  - destruct Hr as [Hd Hs]. unfold insert_datagram, prepare_datagram_segments. rewrite Hd. cbn [binary_search_by_key length].
    destruct Hs as [[Hs ->]|(s & Hs & Hcol & Hk & Hp)]; rewrite Hs.
    + cbn. apply (receive_collect i c (segments_new k) []); [done|by apply collects_new|done|].
      intros j. rewrite elem_of_nil. split; [|done]. intros [b Hb]. done.
    + rewrite search_one by done. rewrite Hs. cbn [lookup list_lookup expect mbind outcome_bind datagrams segments].
      destruct (receive_collect i c s X Hc Hcol Hk Hp) as (p' & Heq & Hr). exists p'. split; [|done].
      rewrite <- Heq. rewrite Hd. done.
Qed.
End OnePacket.

(** The datagrams with the given numbers, in that order *)
Definition pick (ds : list bytes) (idxs : list nat) : list bytes := omap (λ i, ds !! i) idxs.

Lemma receive_all_wire {E} now k packet cs self idxs X p :
  wf_media (header packet) →
  concat cs = (be_bytes 8 (pts_and_flags (header packet)) ++ be_bytes 4 (size (header packet))) ++ payload packet →
  (0 < length cs)%nat → Z.of_nat (length cs) ≤ 2 ^ 31 →
  is_u32 (kypacket_seq self) → is_u32 (group_seq self) →
  Forall (λ i, (i < length cs)%nat) idxs → receiving now k packet cs X p →
  ∃ p', receive_all (E:=E) now k (pick (wire_datagrams self 0 cs) idxs) p = Ok p' ∧
    receiving now k packet cs (X ++ idxs) p'.
Proof.
  intros Hwf Hcs Hne Hlen Hk Hg Hi. revert X p. induction Hi as [|i idxs Hi His IH]; intros X p Hr.
  { exists p. rewrite app_nil_r. done. }
  destruct (lookup_lt_is_Some_2 cs i Hi) as [c Hc].
  unfold pick. cbn [omap list_omap]. rewrite (wire_datagrams_lookup self cs 0 i c Hc). cbn [receive_all].
  unfold receive_datagram. rewrite Z.add_0_l, recv_datagram_wire by (done || lia).
  cbn [mbind outcome_bind dm_number dm_end dm_data]. rewrite Nat2Z.id.
  destruct (receive_step (E:=E) now k packet cs Hwf Hcs Hne i c X p Hc Hr) as (p1 & -> & Hr1).
  cbn [mbind outcome_bind]. destruct (IH (X ++ [i]) p1 Hr1) as (p2 & Hp2 & Hr2).
  exists p2. split; [done|]. by rewrite <- app_assoc in Hr2.
Qed.

(** For a well-formed media packet and any usable datagram size, sending
    succeeds and produces datagrams that fit in it; and whatever subset of them
    arrives, in whatever order and with whatever duplicates, the receiver does
    not fail and holds the original packet, exactly once and with nothing left
    over, if every datagram arrived at least once, and no packet otherwise. *)
Theorem video_datagrams_reassemble packet id max k_wire g k now :
  wf_media (header packet) → blen (payload packet) ≤ 2 ^ 31 - 12 →
  DATAGRAM_HEADER_SIZE < max < DATAGRAM_HEADER_SIZE + 2 ^ 16 → is_u32 k_wire → is_u32 g →
  let drv := {| ky_channel := open_channel id max []; stream := open_writer [];
                kypacket_seq := k_wire; group_seq := g |} in
  ∃ ds, send_datagrams packet drv = (with_sent ds drv, Ok tt) ∧
    Forall (λ d, blen d ≤ max) ds ∧
    ∀ idxs, Forall (λ i, (i < length ds)%nat) idxs →
      ∃ p, receive_all (E:=ProtocolError) now k (pick ds idxs) pending_new = Ok p ∧
        datagrams p = (if all_received (length ds) idxs then [assembled now k packet] else []) ∧
        (all_received (length ds) idxs = true → segments p = []).
Proof.
  intros Hwf Hpl Hmax Hk Hg drv. unfold DATAGRAM_HEADER_SIZE in *.
  set (m := Z.to_nat (max - 14)).
  set (data := (be_bytes 8 (pts_and_flags (header packet)) ++ be_bytes 4 (size (header packet))) ++ payload packet).
  set (cs := chunks (length data) m data).
  assert (Hm : (0 < m)%nat ∧ Z.of_nat m < 2 ^ 16) by (unfold m; lia). destruct Hm as [Hm Hm16].
  assert (Hl : length data = (12 + length (payload packet))%nat).
  { unfold data. rewrite !length_app, !be_bytes_length. done. }
  assert (Hcs : concat cs = data) by (by apply chunks_concat).
  assert (Hcl : (0 < length cs)%nat).
  { destruct cs eqn:Hc; [|simpl; lia]. apply (f_equal length) in Hcs. simpl in Hcs. lia. }
  assert (Hcl2 : Z.of_nat (length cs) ≤ 2 ^ 31).
  { pose proof (chunks_length (length data) m data) as Hx. fold cs in Hx. unfold blen in Hpl. lia. }
  exists (wire_datagrams drv 0 cs). split_and!.
  - unfold send_datagrams.
    assert (Hend : send_loop (length data) m data 0 0 drv = (with_sent (wire_datagrams drv 0 cs) drv, Ok tt)).
    { rewrite send_loop_open by (done || lia). by rewrite drop_0. }
    run_handler. cbn [ky_channel drv open_channel max_datagram_size ok_or].
    replace (DATAGRAM_HEADER_SIZE <? max) with true by (symmetry; apply Z.ltb_lt; unfold DATAGRAM_HEADER_SIZE; lia).
    cbn [rassert]. rewrite (media_serialize_eq _ Hwf). exact Hend.
  - apply Forall_lookup. intros i d Hd.
    assert (Hi : (i < length cs)%nat) by (rewrite <- (wire_datagrams_length drv 0 cs); by eapply lookup_lt_Some).
    destruct (lookup_lt_is_Some_2 cs i Hi) as [c Hc]. rewrite (wire_datagrams_lookup drv cs 0 i c Hc) in Hd.
    injection Hd as <-. pose proof (chunks_bound (length data) m data) as Hb. rewrite Forall_lookup in Hb.
    specialize (Hb i c Hc). simpl in Hb. unfold blen, datagram_bytes, write_datagram_header.
    rewrite !length_app, !be_bytes_length. unfold m in Hb. lia.
  - rewrite wire_datagrams_length. intros idxs Hi.
    destruct (receive_all_wire (E:=ProtocolError) now k packet cs drv idxs [] pending_new) as (p & Hp & Hr); try done.
    { unfold receiving. destruct (all_received (length cs) []) eqn:Ha; [|split; [done|by left]].
      apply all_received_spec with (i := 0%nat) in Ha; [by apply not_elem_of_nil in Ha|done]. }
    exists p. split; [done|]. unfold receiving in Hr. cbn [app] in Hr.
    destruct (all_received (length cs) idxs); [by subst|]. by destruct Hr.
Qed.

Definition sample_packet : MediaPacket :=
  {| header := {| is_config := false; is_key := true; pts := 0x1234567; size := 7 |}; payload := [1; 3; 5; 7; 9; 11; 13] |}.

Lemma video_datagrams_reassemble_witness :
  let drv := {| ky_channel := open_channel 2 20 []; stream := open_writer []; kypacket_seq := 42; group_seq := 1 |} in
  ∃ ds, send_datagrams sample_packet drv = (with_sent ds drv, Ok tt) ∧
    Forall (λ d, blen d ≤ 20) ds ∧
    ∀ idxs, Forall (λ i, (i < length ds)%nat) idxs →
      ∃ p, receive_all (E:=ProtocolError) 9 42 (pick ds idxs) pending_new = Ok p ∧
        datagrams p = (if all_received (length ds) idxs then [assembled 9 42 sample_packet] else []) ∧
        (all_received (length ds) idxs = true → segments p = []).
Proof. apply video_datagrams_reassemble; vm_compute; intuition congruence. Defined.
