(* ===== verification/VideoOrder.v ===== *)
(** * Ordering and accounting of the unreliable video receiver

    The invariant of the pending groups and of [process] in
    [VideoUnreliable], and what it gives: no failure when taking packets,
    strictly increasing delivery, exact accounting of dropped packets, immediate
    delivery of the expected packet and the deadline announced for the others. *)

From stdpp Require Import prelude list strings.
From Stdlib Require Import ZArith Lia.
From S2P Require Import Prelude SortedVec Sequencer Io Av Packets Channel Reassembly VideoUnreliable.
Open Scope Z_scope.

(** ** What the sender guarantees

    [group k] is the group of packet [k] and [is_cfg k] tells that packet [k]
    is the config packet of its group, which is then the first of it. *)

Class SenderPlan (group : Z → Z) (is_cfg : Z → Prop) : Prop := {
  plan_mono a b : a ≤ b → group a ≤ group b;
  plan_first c k : is_cfg c → group k = group c → c ≤ k;
}.

(** The plan of a session: the list of the packets sent, [true] for configs.
    Packet [k] belongs to the group numbered by the configs up to it. *)
Definition session_group (plan : list bool) (k : Z) : Z :=
  Z.of_nat (length (List.filter id (take (Z.to_nat (k + 1)) plan))).
Definition session_cfg (plan : list bool) (k : Z) : Prop :=
  0 ≤ k ∧ plan !! Z.to_nat k = Some true.

Lemma filter_take_mono (plan : list bool) i j :
  (i ≤ j)%nat → (length (List.filter id (take i plan)) ≤ length (List.filter id (take j plan)))%nat.
Proof.
  intros Hij. replace j with (i + (j - i))%nat by lia. rewrite <- take_take_drop, List.filter_app, length_app. lia.
Qed.

#[export] Instance session_plan plan : SenderPlan (session_group plan) (session_cfg plan).
Proof.
  split.
  - intros a b Hab. unfold session_group. apply inj_le, filter_take_mono. lia.
  - intros c k [Hc Hcfg] Heq. destruct (Z.le_gt_cases c k) as [|Hlt]; [done|exfalso].
    unfold session_group in Heq. apply Nat2Z.inj in Heq.
    pose proof (filter_take_mono plan (Z.to_nat (k + 1)) (Z.to_nat c) ltac:(lia)) as Hm.
    replace (Z.to_nat (c + 1)) with (S (Z.to_nat c)) in Heq by lia.
    rewrite (take_S_r plan _ true Hcfg), List.filter_app, length_app in Heq. simpl in Heq. lia.
Qed.

(** ** Invariant of the groups *)

Section Invariant.
Context (group : Z → Z) (is_cfg : Z → Prop) `{!SenderPlan group is_cfg}.

Definition media_ok (next gseq : Z) (k : Z) : Prop := next ≤ k ∧ group k = gseq ∧ ¬ is_cfg k.

Definition config_ok (next gseq : Z) (c : ConfigPacket) : Prop :=
  match c with CfgReady p => next ≤ st_seq p ∧ group (st_seq p) = gseq ∧ is_cfg (st_seq p) | _ => True end.

Definition group_inv (next : Z) (g : PendingGroup) : Prop :=
  wf_pending (pending g) ∧ seqs_all (media_ok next (pg_seq g)) (pending g) ∧
  config_ok next (pg_seq g) (config_packet g).

Definition groups_inv (next : Z) (gs : PendingGroups) : Prop :=
  sorted_by pg_seq gs ∧ ∀ g, g ∈ gs → group_inv next g.

Lemma groups_inv_nil next : groups_inv next [].
Proof. split; [constructor|]. intros g Hg. by apply not_elem_of_nil in Hg. Qed.

Lemma group_inv_new next gseq : group_inv next (PendingGroup_new gseq).
Proof. split_and!; [apply wf_pending_new|apply seqs_all_new|done]. Qed.

Lemma prepare_group_spec gseq gs next :
  groups_inv next gs →
  ∃ gs' i g, prepare_pending_group gseq gs = (gs', i) ∧ gs' !! i = Some g ∧ pg_seq g = gseq ∧
    groups_inv next gs' ∧ (g ∈ gs ∨ g = PendingGroup_new gseq).
Proof.
  intros [Hs Hg]. unfold prepare_pending_group.
  destruct (binary_search_cases pg_seq gseq gs Hs) as [(i & g & -> & Hgi & Hk)|[-> Hn]].
  - exists gs, i, g. split_and!; [done..|]. left. by eapply list_elem_of_lookup_2.
  - eexists _, _, _. split_and!; [done|apply vec_insert_lookup, lower_bound_le|done| |by right].
    split; [by apply sorted_vec_insert|]. intros g. rewrite vec_insert_perm, elem_of_cons.
    intros [->|?]; [apply group_inv_new|by apply Hg].
Qed.

Lemma groups_inv_replace next gs i g g' :
  groups_inv next gs → gs !! i = Some g → pg_seq g' = pg_seq g → group_inv next g' →
  groups_inv next (<[i := g']> gs).
Proof.
  intros [Hs Hg] Hi Hk Hg'. split; [by eapply sorted_replace|].
  intros x Hx. destruct (elem_of_replace gs i g g' x Hi Hx) as [->|?]; [done|by apply Hg].
Qed.

Lemma insert_stream_packet_inv {E} next gseq k packet gs gs' :
  groups_inv next gs → next ≤ k → group k = gseq → is_cfg k →
  insert_stream_packet (E:=E) gseq k packet gs = Ok gs' → groups_inv next gs'.
Proof.
  intros Hinv Hk Hg Hc. unfold insert_stream_packet.
  destruct (prepare_group_spec gseq gs next Hinv) as (gs1 & i & g & -> & Hi & Hgk & Hinv1 & _).
  rewrite Hi. cbn [expect mbind outcome_bind]. intros H. inv_ok.
  eapply groups_inv_replace; [done|done|done|].
  destruct Hinv1 as [_ Hall]. destruct (Hall g) as (H1 & H2 & _); [by eapply list_elem_of_lookup_2|].
  split_and!; [done|done|]. simpl. by rewrite Hgk.
Qed.

Lemma groups_insert_datagram_inv {E} now next gseq k num e data gs gs' :
  groups_inv next gs → media_ok next gseq k →
  groups_insert_datagram (E:=E) now gseq k num e data gs = Ok gs' → groups_inv next gs'.
Proof.
  intros Hinv Hk. unfold groups_insert_datagram.
  destruct (prepare_group_spec gseq gs next Hinv) as (gs1 & i & g & -> & Hi & Hgk & Hinv1 & _).
  rewrite Hi. cbn [expect mbind outcome_bind]. intros H. apply bind_Ok in H as (p & Hp & [= <-]).
  eapply groups_inv_replace; [done|done|done|].
  destruct Hinv1 as [_ Hall]. destruct (Hall g) as (H1 & H2 & H3); [by eapply list_elem_of_lookup_2|].
  destruct (insert_datagram_inv now k num e data (pending g) p _ H1 H2 ltac:(by rewrite Hgk) Hp). done.
Qed.

(** ** Taking a packet *)

Lemma next_packet_loop_ready now next all gs index cached i c :
  next_packet_loop now next all gs index cached = NpReady i c →
  ∃ j g, i = (index + j)%nat ∧ gs !! j = Some g ∧ cfg_is_none (config_packet g) = false ∧
    cfg_is_ready (config_packet g) = c ∧ (c = false → datagrams (pending g) ≠ []).
Proof.
  revert index cached. induction gs as [|g gs IH]; intros index cached H; [done|]. cbn [next_packet_loop] in H.
  assert (Hrec : ∀ cached, next_packet_loop now next all gs (S index) cached = NpReady i c →
    ∃ j g', i = (index + j)%nat ∧ (g :: gs) !! j = Some g' ∧ cfg_is_none (config_packet g') = false ∧
      cfg_is_ready (config_packet g') = c ∧ (c = false → datagrams (pending g') ≠ [])).
  { intros c0 (j & g' & -> & Hj & Hr)%IH. exists (S j), g'. split_and!; [lia|done|apply Hr..]. }
  destruct (cfg_is_none (config_packet g)) eqn:Hn; [by eapply Hrec|].
  destruct (match config_packet g with CfgReady p => st_seq p =? next | _ => false end) eqn:Hcfg.
  { injection H as <- <-. exists 0%nat, g. split_and!; [lia|done|done| |done].
    destruct (config_packet g); try done. }
  destruct (datagrams (pending g)) as [|d ds] eqn:Hd; [by eapply Hrec|].
  assert (Hhere : NpReady index (cfg_is_ready (config_packet g)) = NpReady i c →
    ∃ j g', i = (index + j)%nat ∧ (g :: gs) !! j = Some g' ∧ cfg_is_none (config_packet g') = false ∧
      cfg_is_ready (config_packet g') = c ∧ (c = false → datagrams (pending g') ≠ [])).
  { intros [= <- <-]. exists 0%nat, g. split_and!; [lia|done|done|done|]. by rewrite Hd. }
  destruct (dg_seq d =? next); [by apply Hhere|].
  destruct (match cached with Some c => c | None => min_instant all end) as [m|]; [|by eapply Hrec].
  destruct (m + MAX_BUFFERING <=? now); [by apply Hhere|done].
Qed.

(** The group a ready packet is taken from, first after the drain. *)
Lemma next_packet_ready now next gs i c :
  next_packet now next gs = NpReady i c →
  ∃ g, gs !! i = Some g ∧ drop i gs !! 0%nat = Some g ∧ cfg_is_none (config_packet g) = false ∧
    cfg_is_ready (config_packet g) = c ∧ (c = false → datagrams (pending g) ≠ []).
Proof.
  intros (j & g & -> & Hj & Hr)%next_packet_loop_ready. exists g. split_and!; [done| |apply Hr..].
  by rewrite lookup_drop, Nat.add_0_r.
Qed.

Lemma take_next_packet_total {E} now next gs : ∃ a gs', take_next_packet (E:=E) now next gs = Ok (a, gs').
Proof.
  unfold take_next_packet. destruct (next_packet now next gs) as [|i c|d] eqn:Hn; [eauto| |eauto].
  destruct (next_packet_ready _ _ _ _ _ Hn) as (g & _ & -> & Hnone & Hc & Hd).
  cbn [expect mbind outcome_bind]. rewrite Hnone. cbn [negb rassert mbind outcome_bind]. destruct c.
  - destruct (config_packet g) as [|p|] eqn:Hcfg; try done. cbn. eauto.
  - destruct (datagrams (pending g)); [by destruct (Hd eq_refl)|]. eauto.
Qed.

Lemma group_inv_mono next next' g :
  group_inv next g → (∀ k, next ≤ k → group k = pg_seq g → next' ≤ k) → group_inv next' g.
Proof.
  intros (H1 & [H2 H3] & H4) Hm. split_and!; [done| |].
  - split; intros x Hx; [destruct (H2 x Hx) as (?&?&?)|destruct (H3 x Hx) as (?&?&?)]; split_and!; auto.
  - destruct (config_packet g); try done. destruct H4 as (?&?&?). split_and!; auto.
Qed.

Lemma groups_after next c g rest :
  groups_inv next (g :: rest) → group c = pg_seq g → ∀ g', g' ∈ rest → group_inv (c + 1) g'.
Proof.
  intros [Hs Hall] Hc g' Hg'. apply sorted_cons in Hs as [_ Hlt]. rewrite Forall_forall in Hlt.
  specialize (Hlt g' Hg'). simpl in Hlt. apply (group_inv_mono next); [apply Hall; by right|].
  intros k Hk Hgk. destruct (Z.le_gt_cases (c + 1) k) as [|Hle]; [done|].
  pose proof (plan_mono k c ltac:(lia)). lia.
Qed.

(** Delivering a packet keeps the invariant beyond its sequence number. *)
Lemma take_next_packet_inv {E} now next gs a gs' :
  groups_inv next gs → take_next_packet (E:=E) now next gs = Ok (a, gs') →
  match a with
  | APacket k _ => next ≤ k ∧ groups_inv (k + 1) gs'
  | _ => gs' = gs
  end.
Proof.
  intros Hinv. unfold take_next_packet. destruct (next_packet now next gs) as [|i c|d] eqn:Hn; [by intros [= <- <-]| |by intros [= <- <-]].
  destruct (next_packet_ready _ _ _ _ _ Hn) as (g & Hgi & Hg0 & Hnone & Hc & Hd).
  rewrite Hg0. cbn [expect mbind outcome_bind]. rewrite Hnone. cbn [negb rassert mbind outcome_bind].
  assert (Hdrop : groups_inv next (drop i gs)).
  { destruct Hinv as [Hs Hall]. split; [by apply sorted_drop|]. intros x Hx%elem_of_drop. by apply Hall. }
  destruct (drop i gs) as [|g' rest] eqn:Hdr; [done|]. injection Hg0 as ->.
  assert (Hg : group_inv next g) by (apply Hdrop; left). pose proof Hdrop as [Hs _].
  apply sorted_cons in Hs as [Hsr Hlt]. destruct Hg as (Hwf & Hseqs & Hcfg).
  assert (Hrest : ∀ k gnew, group k = pg_seq g → pg_seq gnew = pg_seq g → group_inv (k + 1) gnew →
                  groups_inv (k + 1) (<[0%nat := gnew]> (g :: rest))).
  { intros k gnew Hk Hgk Hgi'. split.
    - apply (sorted_replace pg_seq 0 g gnew (g :: rest)); [by apply sorted_cons|done|done].
    - cbn. intros x [->|Hx]%elem_of_cons; [done|]. by apply (groups_after next k g rest). }
  destruct c.
  - destruct (config_packet g) as [|p|] eqn:Hp; try done. cbn. intros [= <- <-].
    destruct Hcfg as (Hk & Hgk & Hcf). split; [done|]. apply Hrest; [done|done|].
    split_and!; cbn; [done| |done]. destruct Hseqs as [Hs1 Hs2].
    split; intros x Hx; [destruct (Hs1 x Hx) as (H1 & H2 & H3)|destruct (Hs2 x Hx) as (H1 & H2 & H3)];
      (split_and!; [|done|done]); rewrite <- Hgk in H2;
      pose proof (plan_first (st_seq p) _ Hcf H2);
      [destruct (decide (dg_seq x = st_seq p)) as [He|He]|destruct (decide (seg_seq x = st_seq p)) as [He|He]];
      try (by rewrite He in H3); lia.
  - destruct (datagrams (pending g)) as [|d ds] eqn:Hds; [done|]. intros [= <- <-].
    destruct (pop_front_inv d ds (pending g) _ Hwf Hseqs Hds) as [Hwf' Hseqs'].
    assert (Hd0 : media_ok next (pg_seq g) (dg_seq d)) by (apply Hseqs; rewrite Hds; left).
    split; [apply Hd0|]. apply Hrest; [apply Hd0|done|].
    split_and!; cbn; [done| |by destruct (config_packet g)].
    split; intros x Hx; [destruct (proj1 Hseqs' x Hx) as [(?&?&?) ?]|destruct (proj2 Hseqs' x Hx) as [(?&?&?) ?]];
      (split_and!; [lia|done|done]).
Qed.
End Invariant.

(** ** The [process] task *)

Section Process.
Context (group : Z → Z) (is_cfg : Z → Prop) `{!SenderPlan group is_cfg}.

(** Packet [k] and its group, stamped modulo 2^32, arrive while both stay
    within half a range of the newest numbers [nk] and [ng] seen so far. *)
Definition stamped (nk ng raw_k raw_g k : Z) : Prop :=
  raw_k = k mod range SeqU32 ∧ raw_g = group k mod range SeqU32 ∧
  0 ≤ k < 2 ^ 63 ∧ nk - half_range SeqU32 < k ≤ nk + half_range SeqU32 ∧
  0 ≤ group k < 2 ^ 63 ∧ ng - half_range SeqU32 < group k ≤ ng + half_range SeqU32.

(** The messages come from a sender that follows the plan; they may be
    reordered (within the windows above), duplicated and lost. *)
Fixpoint honest (nk ng : Z) (evs : list (Instant * Instant * Event)) : Prop :=
  match evs with
  | [] => True
  | (_, _, EvMsg (RStream m)) :: evs =>
      match sm_packet m with
      | Codec _ => honest nk ng evs
      | _ => ∃ k, stamped nk ng (sm_raw_kypacket_seq m) (sm_raw_group_seq m) k ∧ is_cfg k ∧
                  honest (Z.max nk k) (Z.max ng (group k)) evs
      end
  | (_, _, EvMsg (RDatagram m)) :: evs =>
      ∃ k, stamped nk ng (dm_raw_kypacket_seq m) (dm_raw_group_seq m) k ∧ ¬ is_cfg k ∧
           honest (Z.max nk k) (Z.max ng (group k)) evs
  | _ :: evs => honest nk ng evs
  end.

(** Sequence numbers of the packets forwarded to the client *)
Definition forwarded (s : Process) : list Z := omap fst (client s).

Definition dropped (s : Process) : Z := default 0 (dropped_packets (protocol_stats s)).

Record process_inv (d0 nk ng : Z) (s : Process) : Prop := {
  pi_kseq : kypacket_sequencer s = {| newest_seq := nk |} ∧ 0 ≤ nk < 2 ^ 63;
  pi_gseq : group_sequencer s = {| newest_seq := ng |} ∧ 0 ≤ ng < 2 ^ 63;
  pi_groups : groups_inv group is_cfg (next_kypacket_seq s) (pending_groups s);
  pi_sorted : sorted_by id (forwarded s);
  pi_below : Forall (λ k, k < next_kypacket_seq s) (forwarded s);
  pi_account : Z.of_nat (length (forwarded s)) + (dropped s - d0) = next_kypacket_seq s;
  pi_open : client_open s = true;
}.

Lemma sorted_snoc (l : list Z) x : sorted_by id l → Forall (λ k, k < x) l → sorted_by id (l ++ [x]).
Proof.
  intros Hs Hl. apply sorted_app. split_and!; [done|repeat constructor|].
  intros a b Ha ->%list_elem_of_singleton. rewrite Forall_forall in Hl. by apply Hl.
Qed.

Lemma take_step_inv d0 nk ng now s s' r :
  process_inv d0 nk ng s → take_step now s = (s', r) → r = Ok tt ∧ process_inv d0 nk ng s'.
Proof.
  intros [Hk Hg Hgs Hso Hb Ha Ho]. unfold take_step.
  destruct (take_next_packet_total (E:=ProtocolError) now (next_kypacket_seq s) (pending_groups s)) as (a & gs' & Ht).
  rewrite Ht. pose proof (take_next_packet_inv group is_cfg now _ _ _ _ Hgs Ht) as Hinv. destruct a as [k p|d|].
  - destruct Hinv as [Hle Hinv].
    unfold send_client, set_next, set_groups; run_handler. cbn [client_open]. rewrite Ho.
    unfold push_client, modifyM, set_deadline. cbn. intros [= <- <-]. split; [done|].
    assert (Hf : ∀ x y z w v u t, forwarded {| group_sequencer := x; kypacket_sequencer := y; pending_groups := z;
      next_kypacket_seq := w; deadline := v; protocol_stats := u; client := client s ++ [(Some k, p)]; client_open := t |}
      = forwarded s ++ [k]).
    { intros. unfold forwarded. cbn [client]. by rewrite omap_app. }
    split; rewrite ?Hf; cbn; try done.
    + apply sorted_snoc; [done|]. eapply Forall_impl; [done|]. simpl. lia.
    + apply Forall_app. split; [|repeat constructor; lia]. eapply Forall_impl; [done|]. simpl. lia.
    + rewrite length_app. unfold dropped in *. cbn. destruct (Z.ltb_spec (next_kypacket_seq s) k); cbn; lia.
  - subst gs'. intros [= <- <-]. split; [done|]. by split.
  - subst gs'. intros [= <- <-]. split; [done|]. by split.
Qed.

Lemma unroll_inv d0 nk ng raw_k raw_g k s :
  process_inv d0 nk ng s → stamped nk ng raw_k raw_g k →
  ∃ s1, unroll raw_k raw_g s = (s1, Ok (k, group k)) ∧
    process_inv d0 (Z.max nk k) (Z.max ng (group k)) s1 ∧ next_kypacket_seq s1 = next_kypacket_seq s.
Proof.
  intros [[Hk Hk'] [Hg Hg'] Hgs Hso Hb Ha Ho] (-> & -> & Hk0 & Hkw & Hg0 & Hgw).
  unfold unroll. rewrite Hk, Hg.
  rewrite !seq_recovers by (simpl; unfold seq_room; simpl; lia).
  eexists. split; [done|]. split; [|done]. split; cbn; try done; split; (done || lia).
Qed.

Lemma update_groups_inv d0 nk ng f s s' r :
  process_inv d0 nk ng s →
  (∀ gs', f (pending_groups s) = Ok gs' → groups_inv group is_cfg (next_kypacket_seq s) gs') →
  update_groups f s = (s', r) → process_inv d0 nk ng s'.
Proof.
  intros Hinv Hf. unfold update_groups. destruct (f (pending_groups s)) as [gs|e|] eqn:He; intros [= <- <-]; [|done..].
  destruct Hinv. by split; auto.
Qed.

Lemma send_client_inv d0 nk ng p s s' r :
  process_inv d0 nk ng s → send_client (None, p) s = (s', r) → process_inv d0 nk ng s'.
Proof.
  intros [Hk Hg Hgs Hso Hb Ha Ho]. unfold send_client. rewrite Ho. intros [= <- <-].
  assert (Hf : forwarded (push_client (None, p) s) = forwarded s).
  { unfold forwarded, push_client. cbn. rewrite omap_app. cbn. by rewrite app_nil_r. }
  split; rewrite ?Hf; done.
Qed.

Lemma handle_event_inv d0 nk ng t1 t2 now ev rest s s' r :
  process_inv d0 nk ng s → honest nk ng ((t1, t2, ev) :: rest) → handle_event now ev s = (s', r) →
  ∃ nk' ng', process_inv d0 nk' ng' s' ∧ honest nk' ng' rest.
Proof.
  intros Hinv Hh. destruct ev as [[m|m]| |]; cbn [honest handle_event] in Hh |- *.
  - assert (Hstream : (∃ k, stamped nk ng (sm_raw_kypacket_seq m) (sm_raw_group_seq m) k ∧ is_cfg k ∧
                            honest (Z.max nk k) (Z.max ng (group k)) rest) →
      ('(k, g) ← unroll (sm_raw_kypacket_seq m) (sm_raw_group_seq m);
       next ← getM next_kypacket_seq;
       if next <=? k then _ ← update_groups (insert_stream_packet g k (sm_packet m)); mret Proceed
       else mret Proceed) s = (s', r) →
      ∃ nk' ng', process_inv d0 nk' ng' s' ∧ honest nk' ng' rest).
    { intros (k & Hst & Hcfg & Hrest). destruct (unroll_inv _ _ _ _ _ _ _ Hinv Hst) as (s1 & Hu & Hinv1 & Hnext).
      rewrite (handler_bind_eq _ _ _ _ _ Hu), (handler_bind_eq _ _ s1 s1 (next_kypacket_seq s1) eq_refl).
      intros H. exists (Z.max nk k), (Z.max ng (group k)). split; [|done].
      destruct (Z.leb_spec (next_kypacket_seq s1) k) as [Hle|]; [|by injection H as <- _].
      apply handler_bind_inv in H as [(s2 & [] & H1 & [= <- <-])|[(e & H1 & _)|[H1 _]]];
        (eapply update_groups_inv; [done| |exact H1]); intros gs' Hgs'; eapply insert_stream_packet_inv; eauto; apply Hinv1. }
    destruct (sm_packet m) as [c|p|p] eqn:Hp; [|by apply Hstream..].
    intros [(s1 & [] & H1 & [= <- <-])|[(e & H1 & _)|[H1 _]]]%handler_bind_inv; exists nk, ng;
      (split; [by eapply send_client_inv|done]).
  - destruct Hh as (k & Hst & Hcfg & Hrest). destruct (unroll_inv _ _ _ _ _ _ _ Hinv Hst) as (s1 & Hu & Hinv1 & Hnext).
    rewrite (handler_bind_eq _ _ _ _ _ Hu), (handler_bind_eq _ _ s1 s1 (next_kypacket_seq s1) eq_refl).
    intros H. exists (Z.max nk k), (Z.max ng (group k)). split; [|done].
    destruct (Z.ltb_spec k (next_kypacket_seq s1)) as [|Hle]; [by injection H as <- _|].
    apply handler_bind_inv in H as [(s2 & [] & H1 & [= <- <-])|[(e & H1 & _)|[H1 _]]];
      (eapply update_groups_inv; [done| |exact H1]); intros gs' Hgs';
      (eapply groups_insert_datagram_inv; [apply Hinv1| |exact Hgs']; done).
  - intros [= <- <-]. eauto.
  - intros [= <- <-]. eauto.
Qed.

Lemma step_inv d0 nk ng now1 now2 ev rest s s' r :
  process_inv d0 nk ng s → honest nk ng ((now1, now2, ev) :: rest) → step now1 now2 ev s = (s', r) →
  ∃ nk' ng', process_inv d0 nk' ng' s' ∧ honest nk' ng' rest.
Proof.
  intros Hinv Hh. unfold step.
  intros [(s1 & fl & H1 & H2)|[(e & H1 & _)|[H1 _]]]%handler_bind_inv;
    destruct (handle_event_inv _ _ _ _ _ _ _ _ _ _ _ Hinv Hh H1) as (nk' & ng' & Hinv1 & Hrest); [|eauto..].
  destruct fl; [|injection H2 as <- _; eauto..]. exists nk', ng'. split; [|done].
  apply handler_bind_inv in H2 as [(s2 & [] & H2 & [= <- <-])|[(e & H2 & _)|[H2 _]]]; by eapply take_step_inv.
Qed.

Lemma run_inv d0 nk ng evs s s' r :
  process_inv d0 nk ng s → honest nk ng evs → run evs s = (s', r) → ∃ nk' ng', process_inv d0 nk' ng' s'.
Proof.
  revert nk ng s. induction evs as [|[[now1 now2] ev] evs IH]; intros nk ng s Hinv Hh H.
  { injection H as <- _. eauto. }
  cbn [run] in H. apply handler_bind_inv in H as [(s1 & b & H1 & H2)|[(e & H1 & _)|[H1 _]]];
    destruct (step_inv _ _ _ _ _ _ _ _ _ _ Hinv Hh H1) as (nk' & ng' & Hinv1 & Hrest); [|eauto..].
  destruct b; [by eapply IH|]. injection H2 as <- _. eauto.
Qed.

Lemma process_init_inv stats :
  process_inv (default 0 (dropped_packets stats)) 0 0 (process_init stats).
Proof.
  split.
  - done.
  - done.
  - apply groups_inv_nil.
  - apply Sorted.SSorted_nil.
  - apply Forall_nil_2.
  - unfold dropped. cbn. lia.
  - done.
Qed.
End Process.

(** With an honest sender, whatever the reordering, duplication and loss of
    its messages and whatever the deadlines, [process] forwards the packets of
    the session in strictly increasing sequence order, each at most once, and
    every sequence number below the next expected one was either forwarded or
    counted in [dropped_packets]. *)
Theorem video_in_order_delivery plan evs stats s r :
  honest (session_group plan) (session_cfg plan) 0 0 evs →
  run evs (process_init stats) = (s, r) →
  sorted_by id (forwarded s) ∧ Forall (λ k, k < next_kypacket_seq s) (forwarded s) ∧
  Z.of_nat (length (forwarded s)) + (dropped s - default 0 (dropped_packets stats)) = next_kypacket_seq s.
Proof.
  intros Hh Hr. destruct (run_inv _ _ _ _ _ _ _ _ _ (process_init_inv _ _ stats) Hh Hr) as (nk & ng & []). done.
Qed.

Definition sample_media (k : Z) : bytes :=
  be_bytes 8 (pts_and_flags {| is_config := false; is_key := false; pts := k; size := 1 |}) ++ be_bytes 4 1 ++ [k].

Definition sample_datagram (k : Z) : Event :=
  EvMsg (RDatagram {| dm_data := sample_media k; dm_raw_kypacket_seq := k; dm_raw_group_seq := 1; dm_number := 0; dm_end := true |}).

Definition sample_config (k : Z) : Event :=
  EvMsg (RStream {| sm_packet := Media {| header := {| is_config := true; is_key := false; pts := 0; size := 0 |}; payload := [] |};
                    sm_raw_kypacket_seq := k; sm_raw_group_seq := 1 |}).

(** Packet 3 overtakes the others, packet 2 is lost, the config comes last. *)
Definition sample_run : list (Instant * Instant * Event) :=
  [(0, 0, sample_datagram 3); (1, 1, sample_datagram 1); (2, 2, sample_config 0);
   (3, 3, sample_datagram 1); (60000, 60000, sample_datagram 3)].

Lemma video_in_order_delivery_witness :
  let s := (run sample_run (process_init stats_default)).1 in
  sorted_by id (forwarded s) ∧ Forall (λ k, k < next_kypacket_seq s) (forwarded s) ∧
  Z.of_nat (length (forwarded s)) + (dropped s - default 0 (dropped_packets stats_default)) = next_kypacket_seq s.
Proof.
  apply (video_in_order_delivery [true; false; false; false] sample_run stats_default _
           (run sample_run (process_init stats_default)).2); [|vm_compute; reflexivity].
  cbn [honest sample_run sample_datagram sample_config sm_packet].
  exists 3. split; [vm_compute; intuition congruence|]. split; [vm_compute; naive_solver|].
  exists 1. split; [vm_compute; intuition congruence|]. split; [vm_compute; naive_solver|].
  exists 0. split; [vm_compute; intuition congruence|]. split; [vm_compute; naive_solver|].
  exists 1. split; [vm_compute; intuition congruence|]. split; [vm_compute; naive_solver|].
  exists 3. split; [vm_compute; intuition congruence|]. split; [vm_compute; naive_solver|done].
Defined.

(** ** Immediate delivery and the deadline *)

(** The expected packet is there and its group has its config. *)
Definition available (next : Z) (gs : PendingGroups) : Prop :=
  ∃ g, g ∈ gs ∧
    ((∃ p, config_packet g = CfgReady p ∧ st_seq p = next) ∨
     (config_packet g = CfgSent ∧ ∃ d, d ∈ datagrams (pending g) ∧ dg_seq d = next)).

Lemma next_packet_loop_skip now next all gs1 gs2 index cached :
  Forall (λ g, cfg_is_none (config_packet g) = true ∨
               (cfg_is_ready (config_packet g) = false ∧ datagrams (pending g) = [])) gs1 →
  next_packet_loop now next all (gs1 ++ gs2) index cached = next_packet_loop now next all gs2 (index + length gs1) cached.
Proof.
  intros Hall. revert index. induction Hall as [|g gs1 Hg Hall IH]; intros index; [cbn; f_equal; lia|].
  cbn [app next_packet_loop length]. rewrite IH. replace (S index + length gs1)%nat with (index + S (length gs1))%nat by lia.
  destruct Hg as [->|[Hr Hd]]; [done|]. destruct (config_packet g); [done|done|]. cbn. by rewrite Hd.
Qed.

Lemma sorted_head_min next (l : list DatagramPacket) d :
  sorted_by dg_seq l → (∀ x, x ∈ l → next ≤ dg_seq x) → d ∈ l → dg_seq d = next → ∃ l', l = d :: l'.
Proof.
  intros Hs Hge Hd Hk. destruct l as [|x l]; [by apply not_elem_of_nil in Hd|].
  apply sorted_cons in Hs as [_ Hlt]. rewrite Forall_forall in Hlt.
  apply elem_of_cons in Hd as [->|Hd]; [eauto|]. specialize (Hlt d Hd). simpl in Hlt.
  assert (next ≤ dg_seq x) by (apply Hge; left). lia.
Qed.

(** When the expected packet is available, it is the one taken, at once,
    whatever the clock and whatever else is pending. *)
Theorem video_expected_taken_at_once group is_cfg `{!SenderPlan group is_cfg} now next gs :
  groups_inv group is_cfg next gs → available next gs →
  ∃ p gs', take_next_packet (E:=ProtocolError) now next gs = Ok (APacket next p, gs').
Proof.
  intros [Hs Hall] (g & Hg & Hav). destruct (list_elem_of_split gs g Hg) as (gs1 & gs2 & ->).
  assert (Hgi : group_inv group is_cfg next g) by (apply Hall; set_solver).
  destruct Hgi as (Hwf & [Hsd Hss] & Hcfg).
  assert (Hgn : group next = pg_seq g).
  { destruct Hav as [(p & Hp & <-)|(Hc & d & Hd & <-)]; [rewrite Hp in Hcfg; apply Hcfg|by apply Hsd]. }
  assert (Hearlier : ∀ g' k, g' ∈ gs1 → next ≤ k → group k ≠ pg_seq g').
  { intros g' k Hg' Hk Hgk. apply sorted_app in Hs as (_ & _ & Hlt).
    assert (pg_seq g' < pg_seq g) by (apply Hlt; [done|left]). pose proof (plan_mono next k Hk). lia. }
  assert (Hskip : Forall (λ g, cfg_is_none (config_packet g) = true ∨
               (cfg_is_ready (config_packet g) = false ∧ datagrams (pending g) = [])) gs1).
  { apply Forall_forall. intros g' Hg'. destruct (Hall g') as (_ & [Hd' _] & Hc'); [set_solver|].
    destruct (config_packet g') as [|p|] eqn:Hcp; [by left| |].
    - exfalso. destruct Hc' as (H1 & H2 & _). by apply (Hearlier g' (st_seq p)).
    - right. split; [done|]. destruct (datagrams (pending g')) as [|d ds]; [done|exfalso].
      destruct (Hd' d) as (H1 & H2 & _); [left|]. by apply (Hearlier g' (dg_seq d)). }
  unfold take_next_packet, next_packet. rewrite next_packet_loop_skip by done. cbn [next_packet_loop].
  destruct Hav as [(p & Hp & Hpk)|(Hc & d & Hd & Hdk)].
  - rewrite Hp. cbn [cfg_is_none]. rewrite Hpk, Z.eqb_refl. rewrite drop_app_length'. 2: lia.
    cbn. rewrite Hp. cbn. rewrite Hpk. eauto.
  - rewrite Hc. cbn [cfg_is_none].
    destruct (sorted_head_min next (datagrams (pending g)) d) as [ds Hds]; [apply Hwf|intros x Hx; by apply Hsd|done|done|].
    rewrite Hds, Hdk, Z.eqb_refl. rewrite drop_app_length'. 2: lia.
    cbn. rewrite Hc. cbn. rewrite Hds, Hdk. eauto.
Qed.

Definition sample_packet_1 : DatagramPacket :=
  {| dg_packet := Media {| header := {| is_config := false; is_key := false; pts := 1; size := 0 |}; payload := [] |};
     dg_seq := 1; dg_instant := 5 |}.

Definition sample_group : PendingGroup :=
  {| pg_seq := 1; config_packet := CfgSent; pending := {| datagrams := [sample_packet_1]; segments := [] |} |}.

Definition sample_groups : PendingGroups := [sample_group].

Lemma video_expected_taken_at_once_witness :
  ∃ p gs', take_next_packet (E:=ProtocolError) 6 1 sample_groups = Ok (APacket 1 p, gs').
Proof.
  apply (video_expected_taken_at_once (session_group [true; false]) (session_cfg [true; false])).
  - split; [repeat constructor|]. intros g ->%list_elem_of_singleton. split_and!; [split_and!; [repeat constructor..|]| |done].
    + intros d s _ Hs. by apply not_elem_of_nil in Hs.
    + split; intros x Hx; [|by apply not_elem_of_nil in Hx]. apply list_elem_of_singleton in Hx as ->.
      vm_compute. naive_solver.
  - eexists. split; [left|]. right. split; [done|]. eexists. split; [left|done].
Defined.

Lemma min_instant_le gs g d :
  g ∈ gs → d ∈ datagrams (pending g) → ∃ m, min_instant gs = Some m ∧ m ≤ dg_instant d.
Proof.
  intros Hg Hd. induction gs as [|x gs IH]; [by apply not_elem_of_nil in Hg|]. cbn [min_instant].
  apply elem_of_cons in Hg as [->|Hg].
  - destruct (min_of_datagrams_le _ _ Hd) as (m & Hm & Hle).
    destruct (min_opt_le _ (min_instant gs) m (or_introl Hm)) as (m' & ? & ?). exists m'. split; [done|lia].
  - destruct (IH Hg) as (m & Hm & Hle).
    destruct (min_opt_le (min_of_datagrams (datagrams (pending x))) _ m (or_intror Hm)) as (m' & ? & ?). exists m'. split; [done|lia].
Qed.

Lemma next_packet_loop_waiting now next all gs index m :
  min_instant all = Some m →
  (∃ g, g ∈ gs ∧ cfg_is_none (config_packet g) = false ∧ datagrams (pending g) ≠ []) →
  match next_packet_loop now next all gs index None with
  | NpReady _ _ => True
  | NpDeadline t => t = m + MAX_BUFFERING ∧ now < t
  | NpNone => False
  end.
Proof.
  intros Hm. revert index. induction gs as [|g gs IH]; intros index (x & Hx & Hnone & Hds); [by apply not_elem_of_nil in Hx|].
  cbn [next_packet_loop].
  destruct (cfg_is_none (config_packet g)) eqn:Hn.
  { apply IH. exists x. apply elem_of_cons in Hx as [->|]; [congruence|done]. }
  destruct (match config_packet g with CfgReady p => st_seq p =? next | _ => false end); [done|].
  destruct (datagrams (pending g)) as [|d ds] eqn:Hd.
  { apply IH. exists x. apply elem_of_cons in Hx as [->|]; [congruence|done]. }
  destruct (dg_seq d =? next); [done|]. rewrite Hm. destruct (Z.leb_spec (m + MAX_BUFFERING) now); [done|lia].
Qed.

(** One look at the groups takes a packet, or announces a deadline in the
    future, at most [MAX_BUFFERING] after the reassembly of any packet whose group
    has its config.  [VideoBuffering] has what this gives over the rounds. *)
Lemma take_or_deadline now next gs g d :
  g ∈ gs → config_packet g ≠ CfgNone → d ∈ datagrams (pending g) →
  (∃ k p gs', take_next_packet (E:=ProtocolError) now next gs = Ok (APacket k p, gs')) ∨
  (∃ t, take_next_packet (E:=ProtocolError) now next gs = Ok (ADeadline t, gs) ∧ now < t ≤ dg_instant d + MAX_BUFFERING).
Proof.
  intros Hg Hc Hd. destruct (min_instant_le gs g d Hg Hd) as (m & Hm & Hle).
  pose proof (next_packet_loop_waiting now next gs gs 0 m Hm) as Hw.
  assert (Hex : ∃ g, g ∈ gs ∧ cfg_is_none (config_packet g) = false ∧ datagrams (pending g) ≠ []).
  { exists g. split_and!; [done|by destruct (config_packet g)|]. intros Hnil. rewrite Hnil in Hd. by apply not_elem_of_nil in Hd. }
  specialize (Hw Hex). fold (next_packet now next gs) in Hw.
  destruct (take_next_packet_total (E:=ProtocolError) now next gs) as (a & gs' & Ht). rewrite Ht.
  unfold take_next_packet in Ht. destruct (next_packet now next gs) as [|i c|t]; [done| |injection Ht as <- <-; right; exists t; split; [done|lia]].
  left. destruct a; [eauto| |]; repeat (inv_ok; case_match; try done); inv_ok; destruct v1; inv_ok; done.
Qed.

(** One event forwards at most one packet, and forwarding clears the
    deadline: after the config of a group arrives behind two complete media
    packets, both expected, the receiver sleeps without a deadline while the
    next expected packet is ready to be taken. *)
Theorem video_ready_packet_left_waiting :
  let s := (run [(0, 0, sample_datagram 1); (1, 1, sample_datagram 2); (2, 2, sample_config 0)] (process_init stats_default)).1 in
  forwarded s = [0] ∧ deadline s = None ∧ available (next_kypacket_seq s) (pending_groups s).
Proof.
  vm_compute. split_and!; [done|done|]. eexists. split; [left|]. right. split; [done|]. eexists. split; [left|done].
Qed.
