(* ===== verification/VideoBuffering.v ===== *)
(** * How long a reassembled video packet waits

    The receiver without error correction holds the packets that arrive behind a
    missing one.  A round of [process] forwards at most one packet, and forwarding
    clears the deadline ([video_ready_packet_left_waiting]), so that the wait has
    no bound in time when nothing arrives.  It has one in rounds: once a packet
    has been held for [MAX_BUFFERING], every round that looks for a packet forwards
    one, and none that comes after the held packet before it. *)

From stdpp Require Import prelude list strings.
From Stdlib Require Import ZArith Lia.
From S2P Require Import Prelude SortedVec Sequencer Io Av Packets Channel Reassembly VideoUnreliable VideoOrder.
Open Scope Z_scope.

(** ** Packets held *)

(** [d] is reassembled and its group has, or had, its config packet. *)
Definition held_in (d : DatagramPacket) (gs : PendingGroups) : Prop :=
  ∃ g, g ∈ gs ∧ config_packet g ≠ CfgNone ∧ d ∈ datagrams (pending g).

Definition held (d : DatagramPacket) (s : Process) : Prop := held_in d (pending_groups s).

(** The round handles its event and then looks for a packet. *)
Definition decides (now1 : Instant) (ev : Event) (s : Process) : bool :=
  match (handle_event now1 ev s).2 with Ok Proceed => true | _ => false end.

(** Of the rounds of a run, those that look for a packet at time [t] or later *)
Fixpoint late_rounds (t : Instant) (evs : list (Instant * Instant * Event)) (s : Process) : nat :=
  match evs with
  | [] => O
  | (now1, now2, ev) :: evs =>
      Nat.add (Nat.b2n (decides now1 ev s && (t <=? now2)))
        (match step now1 now2 ev s with (s', Ok true) => late_rounds t evs s' | _ => O end)
  end.

(** ** An event keeps the packets held *)

Lemma elem_of_insert_or {A} (l : list A) i x y z : l !! i = Some x → z ∈ l → z = x ∨ z ∈ <[i := y]> l.
Proof.
  intros Hi [j Hj]%list_elem_of_lookup. destruct (decide (i = j)) as [<-|Hne]; [left; congruence|right].
  apply list_elem_of_lookup. exists j. by rewrite list_lookup_insert_ne.
Qed.

Lemma prepare_group_keeps gseq gs g : g ∈ gs → g ∈ (prepare_pending_group gseq gs).1.
Proof.
  intros Hg. unfold prepare_pending_group. destruct (binary_search_by_key pg_seq gseq gs) as [i|i]; cbn; [done|].
  rewrite vec_insert_perm. by right.
Qed.

Lemma insert_datagram_keeps {E} now k num e data p p' d :
  insert_datagram (E:=E) now k num e data p = Ok p' → d ∈ datagrams p → d ∈ datagrams p'.
Proof.
  unfold insert_datagram. destruct (binary_search_by_key dg_seq k (datagrams p)) as [j|j]; [by intros [= <-]|].
  assert (datagrams (prepare_datagram_segments k p).1 = datagrams p) as Hp
    by (unfold prepare_datagram_segments; by destruct (binary_search_by_key seg_seq k (segments p))).
  destruct (prepare_datagram_segments k p) as [p1 i]. cbn in Hp. intros (s0 & _ & H)%bind_Ok Hd. apply bind_Ok in H as (s1 & _ & H).
  cbn zeta in H. destruct (is_complete s1); [|injection H as <-; cbn; congruence]. apply bind_Ok in H as (pk & _ & [= <-]).
  unfold insert_datagram_packet. cbn. rewrite Hp. destruct (binary_search_by_key dg_seq (dg_seq pk) (datagrams p)); cbn; [done|].
  rewrite vec_insert_perm. by right.
Qed.

Lemma insert_stream_packet_held {E} gseq k packet gs gs' d :
  insert_stream_packet (E:=E) gseq k packet gs = Ok gs' → held_in d gs → held_in d gs'.
Proof.
  intros H (g & Hg%(prepare_group_keeps gseq) & Hc & Hd). unfold insert_stream_packet in H.
  destruct (prepare_pending_group gseq gs) as [gs1 i]. cbn in Hg. apply bind_Ok in H as (g0 & Hi & H). apply bind_Ok in H as ([] & Ha & [= <-]).
  destruct (gs1 !! i) as [x|] eqn:Hx; [injection Hi as ->|done].
  destruct (elem_of_insert_or gs1 i g0 (with_config (CfgReady {| st_packet := packet; st_seq := k |}) g0) g Hx Hg) as [->|Hin]; [|by exists g].
  by destruct (config_packet g0).
Qed.

Lemma groups_insert_datagram_held {E} now gseq k num e data gs gs' d :
  groups_insert_datagram (E:=E) now gseq k num e data gs = Ok gs' → held_in d gs → held_in d gs'.
Proof.
  intros H (g & Hg%(prepare_group_keeps gseq) & Hc & Hd). unfold groups_insert_datagram in H.
  destruct (prepare_pending_group gseq gs) as [gs1 i]. cbn in Hg. apply bind_Ok in H as (g0 & Hi & H). apply bind_Ok in H as (p & Hp & [= <-]).
  destruct (gs1 !! i) as [x|] eqn:Hx; [injection Hi as ->|done].
  destruct (elem_of_insert_or gs1 i g0 (with_pending p g0) g Hx Hg) as [->|Hin]; [|by exists g].
  exists (with_pending p g0). split_and!; [|done|by eapply insert_datagram_keeps].
  apply list_elem_of_lookup. exists i. apply list_lookup_insert_eq. by eapply lookup_lt_Some.
Qed.

Section Handling.
(** Something the insertions into the groups keep *)
Context (P : PendingGroups → Prop).
Hypothesis Hstream : ∀ g k packet gs gs', insert_stream_packet (E:=ProtocolError) g k packet gs = Ok gs' → P gs → P gs'.
Hypothesis Hdatagram : ∀ now g k num e data gs gs', groups_insert_datagram (E:=ProtocolError) now g k num e data gs = Ok gs' → P gs → P gs'.

(** The handling of an event kept it, and forwarded nothing. *)
Definition undisturbed (s s' : Process) : Prop :=
  P (pending_groups s') ∧ client s' = client s ∧ client_open s' = client_open s ∧ next_kypacket_seq s' = next_kypacket_seq s.

Lemma update_groups_keeps {A} f (a : A) s s' r :
  (∀ gs gs', f gs = Ok gs' → P gs → P gs') → P (pending_groups s) → (_ ← update_groups f; mret a) s = (s', r) → undisturbed s s'.
Proof.
  intros Hf HP H. run_handler in H. unfold update_groups in H.
  destruct (f (pending_groups s)) as [gs|e|] eqn:He; injection H as <- <-; [|done..]. split_and!; [|done..]. cbn. by eapply Hf.
Qed.

Lemma unroll_shape raw_k raw_g s : ∃ ks gs k g, unroll raw_k raw_g s = (set_sequencers ks gs s, Ok (k, g)).
Proof. unfold unroll. destruct (seq SeqU32 (kypacket_sequencer s) raw_k), (seq SeqU32 (group_sequencer s) raw_g). by do 4 eexists. Qed.

(** Only a codec packet goes to the client, and its round looks for nothing. *)
Lemma handle_event_keeps now ev s s' r :
  handle_event now ev s = (s', r) → P (pending_groups s) →
  P (pending_groups s') ∧ client s `prefix_of` client s' ∧ next_kypacket_seq s' = next_kypacket_seq s ∧
  (r = Ok Proceed → client s' = client s ∧ client_open s' = client_open s).
Proof.
  intros H HP.
  assert (Hquiet : undisturbed s s' → P (pending_groups s') ∧ client s `prefix_of` client s' ∧ next_kypacket_seq s' = next_kypacket_seq s ∧
    (r = Ok Proceed → client s' = client s ∧ client_open s' = client_open s)) by (intros (? & -> & ? & ?); by split_and!).
  destruct ev as [[m|m]| |]; cbn [handle_event] in H.
  - assert (Hmedia : ('(k, g) ← unroll (sm_raw_kypacket_seq m) (sm_raw_group_seq m); next ← getM next_kypacket_seq;
       if next <=? k then _ ← update_groups (insert_stream_packet g k (sm_packet m)); mret Proceed else mret Proceed) s = (s', r) → undisturbed s s').
    { destruct (unroll_shape (sm_raw_kypacket_seq m) (sm_raw_group_seq m) s) as (ks & gs & k & g & Hu).
      rewrite (handler_bind_eq _ _ _ _ _ Hu), (handler_bind_eq (getM next_kypacket_seq) _ (set_sequencers ks gs s) _ (next_kypacket_seq s) eq_refl).
      destruct (_ <=? k); [|by intros [= <- <-]].
      intros H'. by apply (update_groups_keeps _ _ (set_sequencers ks gs s) _ _ (Hstream _ _ _) HP H'). }
    destruct (sm_packet m) as [c|p|p] eqn:Hp; [|by apply Hquiet, Hmedia..].
    run_handler in H. unfold send_client in H. destruct (client_open s); injection H as <- <-; [|done].
    split_and!; [done|by eexists|done|done].
  - apply Hquiet. destruct (unroll_shape (dm_raw_kypacket_seq m) (dm_raw_group_seq m) s) as (ks & gs & k & g & Hu).
    rewrite (handler_bind_eq _ _ _ _ _ Hu), (handler_bind_eq (getM next_kypacket_seq) _ (set_sequencers ks gs s) _ (next_kypacket_seq s) eq_refl) in H.
    destruct (k <? _); [by injection H as <- <-|].
    by apply (update_groups_keeps _ _ (set_sequencers ks gs s) _ _ (Hdatagram _ _ _ _ _ _) HP H).
  - injection H as <- <-. by apply Hquiet.
  - injection H as <- <-. by apply Hquiet.
Qed.
End Handling.

Lemma handle_event_held now ev d s s' r :
  handle_event now ev s = (s', r) → held d s →
  held d s' ∧ client s `prefix_of` client s' ∧ next_kypacket_seq s' = next_kypacket_seq s ∧
  (r = Ok Proceed → client s' = client s ∧ client_open s' = client_open s).
Proof.
  apply (handle_event_keeps (held_in d)); intros; [by eapply insert_stream_packet_held|by eapply groups_insert_datagram_held].
Qed.

(** What was forwarded stays forwarded. *)
Lemma take_step_grows now s s' r : take_step now s = (s', r) → client s `prefix_of` client s'.
Proof.
  unfold take_step. destruct (take_next_packet now (next_kypacket_seq s) (pending_groups s)) as [[[k p|t|] gs]|e|]; try by intros [= <- <-].
  unfold send_client; run_handler. cbn [client_open set_next set_groups]. destruct (client_open s); intros [= <- <-]; [by eexists|done].
Qed.

Lemma run_grows evs s s' r : run evs s = (s', r) → client s `prefix_of` client s'.
Proof.
  revert s. induction evs as [|[[now1 now2] ev] evs IH]; intros s H; [by injection H as <- _|]. cbn [run] in H.
  assert (Hstep : ∀ s1 r1, step now1 now2 ev s = (s1, r1) → client s `prefix_of` client s1).
  { unfold step. intros s1 r1 [(s2 & fl & H1 & H2)|[(e & H1 & _)|[H1 _]]]%handler_bind_inv;
      destruct (handle_event_keeps (λ _, True) ltac:(done) ltac:(done) _ _ _ _ _ H1 I) as (_ & Hp & _); [|done..].
    destruct fl; [|by injection H2 as <- _..].
    apply handler_bind_inv in H2 as [(s3 & [] & H2 & [= <- <-])|[(e & H2 & _)|[H2 _]]];
      (etrans; [exact Hp|exact (take_step_grows _ _ _ _ H2)]). }
  apply handler_bind_inv in H as [(s1 & b & H1 & H2)|[(e & H1 & _)|[H1 _]]]; [|by eapply Hstep..].
  etrans; [by eapply Hstep|]. destruct b; [by apply IH|by injection H2 as <- _].
Qed.

(** ** Taking a packet *)

(** The search does not go past a group that holds a packet. *)
Lemma next_packet_loop_stops now next all gs index m i c j g :
  min_instant all = Some m → next_packet_loop now next all gs index None = NpReady i c →
  gs !! j = Some g → config_packet g ≠ CfgNone → datagrams (pending g) ≠ [] → (i ≤ index + j)%nat.
Proof.
  intros Hm. revert index j. induction gs as [|x gs IH]; intros index j H Hj Hc Hd; [done|]. cbn [next_packet_loop] in H.
  assert (Hrec : next_packet_loop now next all gs (S index) None = NpReady i c → x ≠ g ∨ j ≠ O → (i ≤ index + j)%nat).
  { intros H' Hne. destruct j as [|j]; [injection Hj as ->; by destruct Hne|]. specialize (IH (S index) j H' Hj Hc Hd). lia. }
  destruct (cfg_is_none (config_packet x)) eqn:Hn; [apply Hrec; [done|left; intros ->; by destruct (config_packet g)]|].
  destruct (match config_packet x with CfgReady p => st_seq p =? next | _ => false end); [injection H as <- <-; lia|].
  destruct (datagrams (pending x)) as [|y ds] eqn:Hdx; [apply Hrec; [done|left; by intros ->]|].
  destruct (dg_seq y =? next); [injection H as <- <-; lia|]. rewrite Hm in H. destruct (m + MAX_BUFFERING <=? now); [injection H as <- <-; lia|done].
Qed.

Section Taking.
Context (group : Z → Z) (is_cfg : Z → Prop) `{!SenderPlan group is_cfg}.

(** No packet is taken before [d] that comes after it. *)
Lemma take_next_packet_held now next gs d k p gs' :
  groups_inv group is_cfg next gs → held_in d gs → take_next_packet (E:=ProtocolError) now next gs = Ok (APacket k p, gs') →
  k = dg_seq d ∧ p = dg_packet d ∨ k < dg_seq d ∧ held_in d gs'.
Proof.
  intros [Hs Hall] (g & Hg & Hc & Hd). unfold take_next_packet. destruct (next_packet now next gs) as [|i c|t] eqn:Hn; [done| |done].
  destruct (next_packet_ready _ _ _ _ _ Hn) as (gi & Hgi & Hg0 & Hnone & Hci & Hdi). rewrite Hg0. cbn [expect mbind outcome_bind].
  rewrite Hnone. cbn [negb rassert mbind outcome_bind].
  destruct (min_instant_le gs g d Hg Hd) as (m & Hm & _). apply list_elem_of_lookup in Hg as [j Hj].
  assert (i ≤ j)%nat as Hij.
  { apply (next_packet_loop_stops now next gs gs 0 m i c j g Hm Hn Hj Hc). intros Hnil. rewrite Hnil in Hd. by apply not_elem_of_nil in Hd. }
  destruct (Hall g ltac:(by eapply list_elem_of_lookup_2)) as ((Hsd & _) & [Hmd _] & _). destruct (Hmd d Hd) as (_ & Hgd & Hncfg).
  destruct (Hall gi ltac:(by eapply list_elem_of_lookup_2)) as (_ & [Hmi _] & Hcfgi).
  assert (Hlater : ∀ x, i ≠ j → held_in d (<[0%nat := x]> (drop i gs))).
  { intros x Hne. exists g. split_and!; [|done|done]. apply list_elem_of_lookup. exists (j - i)%nat.
    rewrite list_lookup_insert_ne, lookup_drop by lia. by replace (i + (j - i))%nat with j by lia. }
  assert (Hbefore : ∀ k, i ≠ j → group k = pg_seq gi → k < dg_seq d).
  { intros k' Hne Hk. pose proof (sorted_lookup_lt pg_seq gs i j gi g Hs ltac:(lia) Hgi Hj).
    destruct (Z.le_gt_cases (dg_seq d) k') as [Hle|]; [|done]. pose proof (plan_mono _ _ Hle). lia. }
  assert (Hhere : ∀ x, config_packet x ≠ CfgNone → d ∈ datagrams (pending x) → held_in d (<[0%nat := x]> (drop i gs))).
  { intros x Hcx Hdx. exists x. split_and!; [|done|done]. apply list_elem_of_lookup. exists 0%nat. apply list_lookup_insert_eq.
    by eapply lookup_lt_Some. }
  destruct c.
  - destruct (config_packet gi) as [|q|] eqn:Hq; try done. cbn. intros [= <- <- <-]. destruct Hcfgi as (_ & Hkg & Hkc). right.
    destruct (decide (i = j)) as [<-|Hne]; [|split; [by apply Hbefore|by apply Hlater]]. rewrite Hgi in Hj. injection Hj as ->.
    split; [|by apply Hhere]. assert (group (dg_seq d) = group (st_seq q)) as Hsame by congruence. pose proof (plan_first _ _ Hkc Hsame).
    destruct (decide (st_seq q = dg_seq d)) as [He|]; [by rewrite He in Hkc|lia].
  - destruct (datagrams (pending gi)) as [|x ds] eqn:Hx; [done|]. intros [= <- <- <-].
    destruct (decide (i = j)) as [<-|Hne].
    2: { right. split; [apply Hbefore; [done|]; apply (Hmi x); left|by apply Hlater]. }
    rewrite Hgi in Hj. injection Hj as ->. rewrite Hx in Hd, Hsd. apply elem_of_cons in Hd as [->|Hd]; [by left|]. right.
    apply sorted_cons in Hsd as [_ Hlt]. rewrite Forall_forall in Hlt. split; [by apply Hlt|by apply Hhere].
Qed.

(** A round that looks for a packet while [d] is held forwards one or sets the
    deadline. *)
Lemma take_step_or_deadline now d s :
  client_open s = true → held d s →
  ∃ s', take_step now s = (s', Ok tt) ∧
    ((∃ k p, take_next_packet (E:=ProtocolError) now (next_kypacket_seq s) (pending_groups s) = Ok (APacket k p, pending_groups s') ∧
        client s' = client s ++ [(Some k, p)] ∧ next_kypacket_seq s' = k + 1) ∨
     (client s' = client s ∧ next_kypacket_seq s' = next_kypacket_seq s ∧ pending_groups s' = pending_groups s ∧
        ∃ t, deadline s' = Some t ∧ now < t ≤ dg_instant d + MAX_BUFFERING)).
Proof.
  intros Ho (g & Hg & Hc & Hd). unfold take_step.
  destruct (take_or_deadline now (next_kypacket_seq s) (pending_groups s) g d Hg Hc Hd) as [(k & p & gs & Ht)|(t & Ht & Hle)]; rewrite Ht.
  - unfold send_client; run_handler. cbn [client_open set_next set_groups]. rewrite Ho. eexists. split; [done|]. left. by exists k, p.
  - eexists. split; [done|]. right. split_and!; [done|done|done|]. by exists t.
Qed.

Lemma held_next d0 nk ng d s : process_inv group is_cfg d0 nk ng s → held d s → next_kypacket_seq s ≤ dg_seq d.
Proof. intros [_ _ [_ Hall] _ _ _ _] (g & Hg & _ & Hd). destruct (Hall g Hg) as (_ & [Hm _] & _). by apply (Hm d Hd). Qed.

(** A late round brings [d] closer to its turn. *)
Lemma take_step_late d0 nk ng now d s :
  process_inv group is_cfg d0 nk ng s → held d s →
  ∃ s', take_step now s = (s', Ok tt) ∧
    ((Some (dg_seq d), dg_packet d) ∈ client s' ∨
     held d s' ∧ next_kypacket_seq s ≤ next_kypacket_seq s' ∧
     (dg_instant d + MAX_BUFFERING ≤ now → next_kypacket_seq s < next_kypacket_seq s')).
Proof.
  intros Hinv Hd. destruct (take_step_or_deadline now d s (pi_open _ _ _ _ _ _ Hinv) Hd) as (s' & Hs' & Hcase). exists s'. split; [done|].
  destruct Hcase as [(k & p & Ht & Hcl & Hn)|(_ & Hn & Hg & t & _ & Hle)].
  - destruct (take_next_packet_inv group is_cfg now _ _ _ _ (pi_groups _ _ _ _ _ _ Hinv) Ht) as [Hk _].
    destruct (take_next_packet_held now _ _ d k p _ (pi_groups _ _ _ _ _ _ Hinv) Hd Ht) as [[-> ->]|[_ Hd']]; [left; rewrite Hcl; set_solver|].
    right. rewrite Hn. split_and!; [done|lia|lia].
  - right. rewrite Hn. split_and!; [unfold held; by rewrite Hg|lia|lia].
Qed.

(** By induction over the rounds: [d] is forwarded after as many late rounds
    as there are sequence numbers up to its own. *)
Lemma late_rounds_deliver d0 nk ng d evs s s' r :
  process_inv group is_cfg d0 nk ng s → honest group is_cfg nk ng evs → held d s → run evs s = (s', r) →
  (Z.to_nat (dg_seq d + 1 - next_kypacket_seq s) ≤ late_rounds (dg_instant d + MAX_BUFFERING) evs s)%nat →
  (Some (dg_seq d), dg_packet d) ∈ client s'.
Proof.
  revert nk ng s. induction evs as [|[[now1 now2] ev] evs IH]; intros nk ng s Hinv Hh Hd Hr Hle;
    pose proof (held_next _ _ _ _ _ Hinv Hd) as Hnext; cbn [late_rounds] in Hle; [lia|].
  destruct (handle_event now1 ev s) as [s1 r1] eqn:H1.
  destruct (handle_event_held _ _ _ _ _ _ H1 Hd) as (Hd1 & _ & Hn1 & _).
  destruct (handle_event_inv group is_cfg _ _ _ _ _ _ _ _ _ _ _ Hinv Hh H1) as (nk' & ng' & Hinv1 & Hrest).
  unfold decides in Hle. rewrite H1 in Hle. cbn [snd run] in Hle, Hr. unfold step in Hle, Hr.
  destruct r1 as [[]|e|]; [| |run_handler in Hle; rewrite H1 in Hle; cbn in Hle; lia..].
  - destruct (take_step_late _ _ _ now2 d s1 Hinv1 Hd1) as (s2 & H2 & Hcase).
    destruct (take_step_inv group is_cfg _ _ _ _ _ _ _ Hinv1 H2) as [_ Hinv2].
    run_handler in Hle. run_handler in Hr. rewrite H1, H2 in Hle, Hr. cbn in Hle.
    destruct Hcase as [Hin|(Hd2 & Hle2 & Hlt2)]; [by eapply elem_of_prefix, run_grows|].
    apply (IH nk' ng' s2 Hinv2 Hrest Hd2 Hr). destruct (Z.leb_spec (dg_instant d + MAX_BUFFERING) now2) as [Hlate|]; cbn in Hle; [specialize (Hlt2 Hlate)|]; lia.
  - run_handler in Hle. run_handler in Hr. rewrite H1 in Hle, Hr. cbn in Hle. apply (IH nk' ng' s1 Hinv1 Hrest Hd1 Hr). by rewrite Hn1.
Qed.
End Taking.

(** ** Runs that have not ended *)

Lemma handle_event_return now ev s : ev ≠ EvEnd → (handle_event now ev s).2 ≠ Ok Return.
Proof.
  intros Hev H. destruct (handle_event now ev s) as [s' r] eqn:He. cbn in H. subst r.
  destruct ev as [[m|m]| |]; cbn [handle_event] in He; [|..|done|done].
  - assert (Hmedia : ∀ p, ('(k, g) ← unroll (sm_raw_kypacket_seq m) (sm_raw_group_seq m); next ← getM next_kypacket_seq;
       if next <=? k then _ ← update_groups (insert_stream_packet g k p); mret Proceed else mret Proceed) s ≠ (s', Ok Return)).
    { intros p. unfold unroll, update_groups; run_handler. repeat (case_match; simplify_eq; try done). }
    destruct (sm_packet m); [|by eapply Hmedia..]. unfold send_client in He. run_handler in He. by destruct (client_open s).
  - unfold unroll, update_groups in He. run_handler in He. repeat (case_match; simplify_eq; try done).
Qed.

Lemma run_reaches group is_cfg `{!SenderPlan group is_cfg} d0 nk ng evs0 evs s s' :
  process_inv group is_cfg d0 nk ng s → honest group is_cfg nk ng (evs0 ++ evs) → Forall (λ e, e.2 ≠ EvEnd) evs0 →
  run evs0 s = (s', Ok tt) → ∃ nk' ng', process_inv group is_cfg d0 nk' ng' s' ∧ honest group is_cfg nk' ng' evs.
Proof.
  revert nk ng s. induction evs0 as [|[[now1 now2] ev] evs0 IH]; intros nk ng s Hinv Hh Hne H; [injection H as <-; eauto|].
  apply Forall_cons in Hne as [Hev Hne]. cbn [run] in H. apply handler_bind_inv in H as [(s1 & b & H1 & H2)|[(e & _ & ?)|[_ ?]]]; [|done..].
  destruct (step_inv group is_cfg _ _ _ _ _ _ _ _ _ _ Hinv Hh H1) as (nk' & ng' & Hinv1 & Hrest).
  destruct b; [by eapply IH|]. exfalso. apply handler_bind_inv in H1 as [(s2 & fl & H3 & H4)|[(e & _ & ?)|[_ ?]]]; [|done..].
  apply (handle_event_return now1 ev s Hev). rewrite H3. destruct fl; [|done..].
  by apply handler_bind_inv in H4 as [(s3 & [] & _ & [= _ ?])|[(e & _ & ?)|[_ ?]]].
Qed.

(** ** The property *)

(** C34: the wait of a reassembled packet [d] whose group has its config, in any
    state that [process] reaches with an honest sender.  A round that looks for a
    packet forwards one, or sets the deadline in the future, at most
    [MAX_BUFFERING] after the reassembly of [d].  And whatever then happens,
    [d] itself is forwarded once the run has had as many rounds that look for a
    packet after that time as there are sequence numbers from the next one up to
    that of [d]: from then on every such round forwards a packet, and none after
    [d] before it.  The bound is in rounds and not in time, since forwarding a
    packet clears the deadline. *)
Theorem video_late_packet_delivered plan evs0 evs stats s d :
  honest (session_group plan) (session_cfg plan) 0 0 (evs0 ++ evs) → Forall (λ e, e.2 ≠ EvEnd) evs0 →
  run evs0 (process_init stats) = (s, Ok tt) → held d s →
  (∀ now1 now2 ev, decides now1 ev s = true →
     ∃ s1, step now1 now2 ev s = (s1, Ok true) ∧
       ((∃ k p, client s1 = client s ++ [(Some k, p)]) ∨
        (client s1 = client s ∧ ∃ t, deadline s1 = Some t ∧ now2 < t ≤ dg_instant d + MAX_BUFFERING))) ∧
  (∀ s' r, run evs s = (s', r) →
     (Z.to_nat (dg_seq d + 1 - next_kypacket_seq s) ≤ late_rounds (dg_instant d + MAX_BUFFERING) evs s)%nat →
     (Some (dg_seq d), dg_packet d) ∈ client s').
Proof.
  intros Hh Hne Hr Hd. destruct (run_reaches _ _ _ _ _ _ _ _ _ (process_init_inv _ _ stats) Hh Hne Hr) as (nk & ng & Hinv & Hrest). split.
  - intros now1 now2 ev Hdec. unfold decides in Hdec. destruct (handle_event now1 ev s) as [s1 r1] eqn:H1.
    cbn in Hdec. destruct r1 as [[]| |]; [|done..]. destruct (handle_event_held _ _ _ _ _ _ H1 Hd) as (Hd1 & _ & _ & [Hcl Ho]%(λ H, H eq_refl)).
    destruct (take_step_or_deadline now2 d s1 ltac:(rewrite Ho; apply Hinv) Hd1) as (s2 & H2 & Hcase).
    exists s2. split; [unfold step; run_handler; by rewrite H1, H2|]. rewrite <- Hcl. destruct Hcase as [(k & p & _ & -> & _)|(-> & _ & _ & H)]; eauto.
  - intros s' r Hrun Hle. by eapply (late_rounds_deliver (session_group plan) (session_cfg plan)).
Qed.

(** Packet 2 is lost; packets 3 and 4 are held. *)
Definition sample_before : list (Instant * Instant * Event) :=
  [(0, 0, sample_config 0); (1, 1, sample_datagram 1); (2, 2, sample_datagram 3); (3, 3, sample_datagram 4)].
Definition sample_after : list (Instant * Instant * Event) :=
  [(50002, 50002, EvDeadline); (60000, 60000, sample_datagram 6); (60001, 60001, EvDeadline); (60002, 60002, EvDeadline)].

Definition sample_held : DatagramPacket :=
  {| dg_packet := Media {| header := {| is_config := false; is_key := false; pts := 4; size := 1 |}; payload := [4] |};
     dg_seq := 4; dg_instant := 3 |}.

Lemma video_late_packet_delivered_witness :
  let s := (run sample_before (process_init stats_default)).1 in
  (Some 4, dg_packet sample_held) ∈ client (run sample_after s).1.
Proof.
  cbn zeta.
  apply (video_late_packet_delivered [true; false; false; false; false; false; false] sample_before sample_after stats_default
    (run sample_before (process_init stats_default)).1 sample_held) with (r := (run sample_after (run sample_before (process_init stats_default)).1).2).
  - cbn [honest sample_before sample_after sample_datagram sample_config sm_packet app].
    exists 0. split; [vm_compute; intuition congruence|]. split; [vm_compute; naive_solver|].
    exists 1. split; [vm_compute; intuition congruence|]. split; [vm_compute; naive_solver|].
    exists 3. split; [vm_compute; intuition congruence|]. split; [vm_compute; naive_solver|].
    exists 4. split; [vm_compute; intuition congruence|]. split; [vm_compute; naive_solver|].
    exists 6. split; [vm_compute; intuition congruence|]. split; [vm_compute; naive_solver|done].
  - by repeat constructor.
  - vm_compute. reflexivity.
  - vm_compute. eexists. split; [left|]. split; [done|]. right. left.
  - vm_compute. reflexivity.
  - vm_compute. lia.
Defined.
