(* ===== verification/Fec.v ===== *)
(** * Validation of FEC media

    Models [kyproto/src/protocol/driver/av/fec.rs]: the checks that untrusted
    RaptorQ parameters and symbols pass before the RaptorQ library sees them,
    the admission budget and the decoder of one object.  The library itself is
    a parameter, the class [RaptorQ]; what the code relies on is the class
    [RaptorQLaws]. *)

From stdpp Require Import prelude list gmap strings.
From Stdlib Require Import ZArith Lia.
From S2P Require Import Prelude Io Av Packets.
Open Scope Z_scope.

(** ** The RaptorQ library *)

Class RaptorQ := {
  Oti : Type;
  Oti_eq_dec :: EqDecision Oti;
  transfer_length : Oti → Z;
  symbol_size : Oti → Z;
  source_blocks : Oti → Z;
  sub_blocks : Oti → Z;
  symbol_alignment : Oti → Z;
  oti_serialize : Oti → bytes;
  oti_deserialize : bytes → Oti;
  PayloadId : Type;
  source_block_number : PayloadId → Z;
  encoding_symbol_id : PayloadId → Z;
  id_serialize : PayloadId → bytes;
  id_deserialize : bytes → PayloadId;
  partition : Z → Z → Z * Z * Z * Z;
  Decoder : Type;
  Decoder_new : Oti → outcome ProtocolError Decoder;
  Decoder_decode : PayloadId → bytes → Decoder → outcome ProtocolError (Decoder * option bytes);
  encoder_config : bytes → Z → Oti;
  get_encoded_packets : bytes → Oti → Z → list (PayloadId * bytes);
}.

Definition MAX_VIDEO_PAYLOAD : Z := 64 * 1024 * 1024 + 16.
Definition MAX_AUDIO_PAYLOAD : Z := 64 * 1024.
Definition MAX_PENDING_OBJECTS : Z := 128.
Definition MAX_PENDING_GROUPS : Z := 32.
Definition MAX_SOURCE_SYMBOLS : Z := 131072.
Definition MAX_BLOCK_SYMBOLS : Z := 56403.
Definition MEDIA_HEADER : Z := Z.of_nat SERIALIZED_SIZE.
Definition MAX_CONFIG_PAYLOAD : Z := 1024 * 1024.

Definition invalid (reason : string) : ProtocolError := String.append "Invalid FEC media: " reason.

Section Fec.
Context `{RQ : RaptorQ}.

(** [oti.transfer_length().div_ceil(u64::from(oti.symbol_size()))] *)
Definition symbols_of (oti : Oti) : Z := div_ceil (transfer_length oti) (symbol_size oti).

Definition validate_oti (oti : Oti) (max_payload : Z) : outcome ProtocolError unit :=
  let length := transfer_length oti in
  let symbol := symbol_size oti in
  let blocks := source_blocks oti in
  let alignment := symbol_alignment oti in
  let sub_blocks := sub_blocks oti in
  _ ← bail_if (negb ((MEDIA_HEADER <=? length) && (length <=? max_payload + MEDIA_HEADER)))
              (invalid "object length outside media limit");
  _ ← bail_if ((symbol =? 0) || (blocks =? 0) || (alignment =? 0) || (sub_blocks =? 0))
              (invalid "zero RaptorQ partition parameter");
  _ ← bail_if (negb (symbol mod alignment =? 0) || (symbol / alignment <? sub_blocks))
              (invalid "invalid symbol alignment or sub-block partition");
  let symbols := symbols_of oti in
  bail_if ((MAX_SOURCE_SYMBOLS <? symbols) || (symbols <? blocks) || (MAX_BLOCK_SYMBOLS <? div_ceil symbols blocks))
          (invalid "source-symbol partition exceeds decoder bounds").

Definition source_symbols_for_block (oti : Oti) (block : Z) : Z :=
  let symbols := wrap32 (symbols_of oti) in
  let '(large, small, large_blocks, _) := partition symbols (source_blocks oti) in
  if block <? large_blocks then large else small.

Definition validate_symbol (oti : Oti) (id : PayloadId) (size : Z) : outcome ProtocolError unit :=
  _ ← bail_if (source_blocks oti <=? source_block_number id) (invalid "source block outside object");
  bail_if (negb (size =? symbol_size oti)) (invalid "symbol length does not match OTI").

Definition parse_datagram (datagram : bytes) (header_size : nat) (max_payload : Z)
    : outcome ProtocolError (bytes * Oti * PayloadId) :=
  _ ← bail_if (bool_decide (length datagram < header_size)%nat) (invalid "truncated datagram header");
  let offset := (header_size - 16)%nat in
  let raw_oti := slice offset 12 datagram in
  _ ← bail_if (negb (byte_at 5 raw_oti =? 0)) (invalid "nonzero reserved OTI field");
  let oti := oti_deserialize raw_oti in
  _ ← validate_oti oti max_payload;
  let id := id_deserialize (slice (offset + 12) 4 datagram) in
  _ ← validate_symbol oti id (blen datagram - Z.of_nat header_size);
  Ok (drop header_size datagram, oti, id).

Definition reservation (oti : Oti) : Z :=
  let symbols := symbols_of oti in
  3 * symbols * symbol_size oti + 128 * symbols + 4096 * source_blocks oti.

Definition pending_limit (max_payload : Z) : Z :=
  if max_payload =? MAX_VIDEO_PAYLOAD then 256 * 1024 * 1024 else 8 * 1024 * 1024.

(** The message of the error, with its counts *)
Definition budget_exceeded (objects bytes additional limit : Z) : ProtocolError :=
  invalid ("pending receive budget exceeded (objects " +:+ decimal objects +:+ "/" +:+ decimal MAX_PENDING_OBJECTS +:+
           ", bytes " +:+ decimal bytes +:+ "+" +:+ decimal additional +:+ "/" +:+ decimal limit +:+ ")").

Definition check_pending (objects bytes additional max_payload : Z) : outcome ProtocolError unit :=
  let limit := pending_limit max_payload in
  bail_if ((MAX_PENDING_OBJECTS <=? objects) || (limit <? additional) || (limit - additional <? bytes))
          (budget_exceeded objects bytes additional limit).

(** ** [ObjectDecoder] *)

Record ObjectDecoder := {
  od_oti : Oti;
  decoder : Decoder;
  received : gset (Z * Z);
  per_block : list Z;
  received_sources : Z;
}.

Definition ObjectDecoder_new (oti : Oti) (max_payload : Z) : outcome ProtocolError ObjectDecoder :=
  _ ← validate_oti oti max_payload;
  d ← Decoder_new oti;
  Ok {| od_oti := oti; decoder := d; received := ∅;
        per_block := replicate (Z.to_nat (source_blocks oti)) 0; received_sources := 0 |}.

Definition ObjectDecoder_decode (oti : Oti) (id : PayloadId) (data : bytes) (self : ObjectDecoder)
    : outcome ProtocolError (ObjectDecoder * option bytes) :=
  _ ← bail_if (negb (bool_decide (oti = od_oti self))) (invalid "OTI changed within one object");
  _ ← validate_symbol oti id (blen data);
  let key := (source_block_number id, encoding_symbol_id id) in
  if bool_decide (key ∈ received self) then Ok (self, None)
  else
    let sources := source_symbols_for_block oti (source_block_number id) in
    count ← expect (per_block self !! Z.to_nat (source_block_number id));
    _ ← bail_if (wrap32 (wrap32 (2 * sources) + 32) <=? count)
                (invalid "too many distinct symbols for one source block");
    '(d, out) ← Decoder_decode id data (decoder self);
    Ok ({| od_oti := od_oti self; decoder := d; received := {[key]} ∪ received self;
           per_block := <[Z.to_nat (source_block_number id) := wrap32 (count + 1)]> (per_block self);
           received_sources := received_sources self + (if encoding_symbol_id id <? sources then 1 else 0) |}, out).

Definition media_packet (data : bytes) : outcome ProtocolError AVPacket :=
  _ ← bail_if ((blen data <? MEDIA_HEADER) || (Z.land (byte_at 0 data) 128 =? 0))
              (invalid "reconstructed object is not a complete media packet");
  header ← media_deserialize (take SERIALIZED_SIZE data);
  _ ← bail_if (is_config header || negb (size header =? blen data - MEDIA_HEADER))
              (invalid "reconstructed media type or length mismatch");
  Ok (Media {| header := header; payload := drop SERIALIZED_SIZE data |}).

Definition read_stream_packet (max_payload : Z) (stream : Reader) : outcome ProtocolError (AVPacket * Reader) :=
  '(raw, stream) ← map_err io_message (read_exact SERIALIZED_SIZE stream);
  if Z.land (byte_at 0 raw) 128 =? 0 then
    _ ← bail_if (first_four_zero raw) (invalid "unexpected hole record from sender");
    header ← codec_deserialize raw;
    Ok (Codec {| codec_header := header |}, stream)
  else
    header ← media_deserialize raw;
    _ ← bail_if (negb (is_config header) || (Z.min max_payload MAX_CONFIG_PAYLOAD <? size header))
                (invalid "invalid reliable config type or length");
    '(payload, stream) ← map_err io_message (read_exact (Z.to_nat (size header)) stream);
    Ok (Media {| header := header; payload := payload |}, stream).
End Fec.

(** ** What the code relies on

    The parameters of RFC 6330: nonzero, an aligned symbol split in at most as
    many sub-blocks as it has alignment units, and source blocks within the
    systematic parameter table. *)
Definition rfc_valid `{RaptorQ} (oti : Oti) : Prop :=
  0 < transfer_length oti ∧ 0 < symbol_size oti ∧ 0 < source_blocks oti ∧ 0 < symbol_alignment oti ∧
  0 < sub_blocks oti ∧ symbol_size oti mod symbol_alignment oti = 0 ∧
  sub_blocks oti ≤ symbol_size oti / symbol_alignment oti ∧
  source_blocks oti ≤ symbols_of oti ∧ div_ceil (symbols_of oti) (source_blocks oti) ≤ MAX_BLOCK_SYMBOLS.

(** The outputs of a decoder fed with a list of symbols *)
Fixpoint feed_decoder `{RaptorQ} (ps : list (PayloadId * bytes)) (d : Decoder) : outcome ProtocolError (list (option bytes)) :=
  match ps with
  | [] => Ok []
  | (id, sym) :: ps =>
      '(d, out) ← Decoder_decode id sym d;
      outs ← feed_decoder ps d;
      Ok (out :: outs)
  end.

Class RaptorQLaws `{RaptorQ} := {
  oti_widths oti : 0 ≤ transfer_length oti < 2 ^ 40 ∧ is_u16 (symbol_size oti) ∧ is_u8 (source_blocks oti) ∧
    is_u16 (sub_blocks oti) ∧ is_u8 (symbol_alignment oti);
  id_widths id : is_u8 (source_block_number id) ∧ 0 ≤ encoding_symbol_id id < 2 ^ 24;
  oti_image oti : length (oti_serialize oti) = 12%nat ∧ byte_at 5 (oti_serialize oti) = 0 ∧
    oti_deserialize (oti_serialize oti) = oti;
  id_image id : length (id_serialize id) = 4%nat ∧ id_deserialize (id_serialize id) = id;
  (* RFC 6330, section 4.4.1.2 *)
  partition_spec i j : 0 ≤ i → 0 < j → partition i j = (div_ceil i j, i / j, i mod j, j - i mod j);
  (* a decoder built for these parameters *)
  decoder_for : Oti → Decoder → Prop;
  decoder_new_ok oti : rfc_valid oti → ∃ d, Decoder_new oti = Ok d ∧ decoder_for oti d;
  decoder_decode_ok oti id sym d :
    decoder_for oti d → source_block_number id < source_blocks oti → blen sym = symbol_size oti →
    ∃ d' out, Decoder_decode id sym d = Ok (d', out) ∧ decoder_for oti d';
  encoder_config_spec data max :
    0 < blen data < 2 ^ 40 → 0 < max → transfer_length (encoder_config data max) = blen data ∧
    symbol_size (encoder_config data max) ≤ max;
  encoded_shape data oti n id sym :
    transfer_length oti = blen data → rfc_valid oti → (id, sym) ∈ get_encoded_packets data oti n →
    source_block_number id < source_blocks oti ∧ blen sym = symbol_size oti;
  (* distinct symbols of one object decode to it or to nothing yet *)
  decode_sound data oti n ps d outs :
    transfer_length oti = blen data → rfc_valid oti → Decoder_new oti = Ok d →
    NoDup ((λ p, (source_block_number p.1, encoding_symbol_id p.1)) <$> ps) →
    (∀ p, p ∈ ps → p ∈ get_encoded_packets data oti n) →
    feed_decoder ps d = Ok outs → ∀ out, Some out ∈ outs → out = data;
}.
