(* ===== verification/SystematicCode.v ===== *)
(** * An instance of the RaptorQ interface

    The simplest erasure code with the interface of [Fec.RaptorQ]: one source
    block, its symbols in order and no repair symbols.  It shows that the laws
    the development assumes of RaptorQ can hold, and lets the sample runs
    evaluate. *)

From stdpp Require Import prelude list gmap strings.
From Stdlib Require Import ZArith Lia.
From S2P Require Import Prelude Io Av Fec.
Open Scope Z_scope.

(** ** Parameters and symbol identifiers, with the layout of RFC 6330 *)

Record raw_oti := { r_length : Z; r_symbol : Z; r_blocks : Z; r_sub : Z; r_align : Z }.

#[export] Instance raw_oti_eq_dec : EqDecision raw_oti.
Proof. solve_decision. Defined.

Definition raw_ok (r : raw_oti) : Prop :=
  (0 ≤ r_length r ∧ r_length r < 2 ^ 40) ∧ (0 ≤ r_symbol r ∧ r_symbol r < 2 ^ 16) ∧
  (0 ≤ r_blocks r ∧ r_blocks r < 2 ^ 8) ∧ (0 ≤ r_sub r ∧ r_sub r < 2 ^ 16) ∧ (0 ≤ r_align r ∧ r_align r < 2 ^ 8).

#[export] Instance raw_ok_dec r : Decision (raw_ok r).
Proof. unfold raw_ok. apply _. Defined.

Definition sys_oti := dsig raw_ok.

Definition clamp_raw (r : raw_oti) : raw_oti :=
  {| r_length := r_length r mod 2 ^ 40; r_symbol := r_symbol r mod 2 ^ 16; r_blocks := r_blocks r mod 2 ^ 8;
     r_sub := r_sub r mod 2 ^ 16; r_align := r_align r mod 2 ^ 8 |}.

Lemma clamp_raw_ok r : raw_ok (clamp_raw r).
Proof. unfold raw_ok, clamp_raw. cbn. repeat split; apply Z.mod_pos_bound; lia. Qed.

Lemma clamp_raw_id r : raw_ok r → clamp_raw r = r.
Proof. destruct r. unfold raw_ok, clamp_raw. cbn. intros. f_equal; apply Z.mod_small; lia. Qed.

Definition mk_oti (r : raw_oti) : sys_oti := dexist (clamp_raw r) (clamp_raw_ok r).

Definition sys_oti_serialize (o : sys_oti) : bytes :=
  let r := `o in
  be_bytes 5 (r_length r) ++ [0] ++ be_bytes 2 (r_symbol r) ++ be_bytes 1 (r_blocks r) ++ be_bytes 2 (r_sub r) ++
  be_bytes 1 (r_align r).

Definition sys_oti_deserialize (bs : bytes) : sys_oti :=
  mk_oti {| r_length := read_be (slice 0 5 bs); r_symbol := read_be (slice 6 2 bs); r_blocks := read_be (slice 8 1 bs);
            r_sub := read_be (slice 9 2 bs); r_align := read_be (slice 11 1 bs) |}.

Definition id_ok (i : Z * Z) : Prop := (0 ≤ i.1 ∧ i.1 < 2 ^ 8) ∧ (0 ≤ i.2 ∧ i.2 < 2 ^ 24).

#[export] Instance id_ok_dec i : Decision (id_ok i).
Proof. unfold id_ok. apply _. Defined.

Definition sys_id := dsig id_ok.

Lemma clamp_id_ok b e : id_ok (b mod 2 ^ 8, e mod 2 ^ 24).
Proof. repeat split; apply Z.mod_pos_bound; lia. Qed.

Definition mk_id (b e : Z) : sys_id := dexist (b mod 2 ^ 8, e mod 2 ^ 24) (clamp_id_ok b e).

Definition sys_id_serialize (i : sys_id) : bytes := be_bytes 1 (`i).1 ++ be_bytes 3 (`i).2.
Definition sys_id_deserialize (bs : bytes) : sys_id := mk_id (read_be (slice 0 1 bs)) (read_be (slice 1 3 bs)).

(** ** Encoder and decoder *)

Definition sys_symbols (o : sys_oti) : nat := Z.to_nat (div_ceil (r_length (`o)) (r_symbol (`o))).

(** Symbol [i] of the object, padded with zeros *)
Definition symbol_at (data : bytes) (symbol i : nat) : bytes :=
  let part := slice (i * symbol) symbol data in
  part ++ replicate (symbol - length part) 0.

Record sys_decoder := { sd_oti : sys_oti; sd_symbols : list (Z * bytes) }.

Fixpoint find_symbol (e : Z) (l : list (Z * bytes)) : option bytes :=
  match l with
  | [] => None
  | (e', s) :: l => if decide (e = e') then Some s else find_symbol e l
  end.

Definition sys_decode (i : sys_id) (sym : bytes) (d : sys_decoder) : outcome ProtocolError (sys_decoder * option bytes) :=
  let syms := ((`i).2, sym) :: sd_symbols d in
  let d := {| sd_oti := sd_oti d; sd_symbols := syms |} in
  let parts := (λ e, find_symbol (Z.of_nat e) syms) <$> seq 0 (sys_symbols (sd_oti d)) in
  Ok (d, if decide (Forall is_Some parts) then Some (take (Z.to_nat (r_length (proj1_sig (sd_oti d)))) (concat (omap id parts))) else None).

(** The parameters: one block, one sub-block, symbols of at most [max] bytes *)
Definition sys_config (data : bytes) (max : Z) : sys_oti :=
  mk_oti {| r_length := blen data; r_symbol := Z.min max 65535; r_blocks := 1; r_sub := 1; r_align := 1 |}.

Definition sys_packets (data : bytes) (o : sys_oti) (_ : Z) : list (sys_id * bytes) :=
  if decide (r_blocks (`o) = 1) then
    (λ e, (mk_id 0 (Z.of_nat e), symbol_at data (Z.to_nat (r_symbol (`o))) e)) <$> seq 0 (sys_symbols o)
  else [].

#[export] Instance systematic : RaptorQ := {
  Oti := sys_oti;
  transfer_length o := r_length (`o);
  symbol_size o := r_symbol (`o);
  source_blocks o := r_blocks (`o);
  sub_blocks o := r_sub (`o);
  symbol_alignment o := r_align (`o);
  oti_serialize := sys_oti_serialize;
  oti_deserialize := sys_oti_deserialize;
  PayloadId := sys_id;
  source_block_number i := (`i).1;
  encoding_symbol_id i := (`i).2;
  id_serialize := sys_id_serialize;
  id_deserialize := sys_id_deserialize;
  partition i j := (div_ceil i j, i / j, i mod j, j - i mod j);
  Decoder := sys_decoder;
  Decoder_new o := Ok {| sd_oti := o; sd_symbols := [] |};
  Decoder_decode := sys_decode;
  encoder_config := sys_config;
  get_encoded_packets := sys_packets;
}.

(** ** The laws *)

Lemma sys_oti_image o :
  length (sys_oti_serialize o) = 12%nat ∧ byte_at 5 (sys_oti_serialize o) = 0 ∧ sys_oti_deserialize (sys_oti_serialize o) = o.
Proof.
  split_and!; [done|done|]. apply dsig_eq. unfold sys_oti_deserialize, mk_oti. cbn [proj1_sig dexist].
  pose proof (proj2_sig o) as Ho. apply bool_decide_unpack in Ho. etrans; [|exact (clamp_raw_id (`o) Ho)]. f_equal.
  unfold sys_oti_serialize. destruct (`o) as [a b c d e]. unfold raw_ok in Ho. cbn [r_length r_symbol r_blocks r_sub r_align] in *.
  f_equal.
  - change (slice 0 5 _) with (be_bytes 5 a). rewrite read_be_be_bytes. apply Z.mod_small. lia.
  - change (slice 6 2 _) with (be_bytes 2 b). rewrite read_be_be_bytes. apply Z.mod_small. lia.
  - change (slice 8 1 _) with (be_bytes 1 c). rewrite read_be_be_bytes. apply Z.mod_small. lia.
  - change (slice 9 2 _) with (be_bytes 2 d). rewrite read_be_be_bytes. apply Z.mod_small. lia.
  - change (slice 11 1 _) with (be_bytes 1 e). rewrite read_be_be_bytes. apply Z.mod_small. lia.
Qed.

Lemma sys_id_image i : length (sys_id_serialize i) = 4%nat ∧ sys_id_deserialize (sys_id_serialize i) = i.
Proof.
  split; [done|]. apply dsig_eq. pose proof (proj2_sig i) as Hi. apply bool_decide_unpack in Hi.
  unfold sys_id_deserialize, mk_id, sys_id_serialize. destruct (`i) as [b e] eqn:Heq. unfold id_ok in Hi. cbn [proj1_sig dexist fst snd] in *.
  change (slice 0 1 _) with (be_bytes 1 b). change (slice 1 3 _) with (be_bytes 3 e). rewrite !read_be_be_bytes.
  change (256 ^ Z.of_nat 1) with (2 ^ 8). change (256 ^ Z.of_nat 3) with (2 ^ 24).
  rewrite !(Z.mod_small b), !(Z.mod_small e) by lia. done.
Qed.

Lemma symbol_at_length data symbol i : length (symbol_at data symbol i) = symbol.
Proof. unfold symbol_at, slice. rewrite length_app, length_replicate, length_take. lia. Qed.

(** The padded symbols start with the object. *)
Lemma symbols_cover_data data symbol n :
  (0 < symbol)%nat → (length data ≤ n * symbol)%nat →
  take (length data) (concat (symbol_at data symbol <$> seq 0 n)) = data.
Proof.
  intros Hs Hn. 
  assert (H : ∀ k, (k ≤ n)%nat → ∃ pad, concat (symbol_at data symbol <$> seq 0 k) = take (k * symbol) data ++ pad ∧
                 (pad = [] ∨ length data ≤ k * symbol)%nat).
  { induction k as [|k IH]; intros Hk; [exists []; split; [done|by left]|].
    destruct IH as (pad & Hpad & Hor); [lia|]. rewrite seq_S, fmap_app, concat_app, Hpad. cbn [fmap list_fmap concat].
    rewrite app_nil_r, Nat.add_0_l. unfold symbol_at, slice. destruct (Nat.le_gt_cases (length data) (k * symbol)) as [Hle|Hgt].
    - rewrite (take_ge data (k * symbol)), (take_ge data (S k * symbol)) by lia. eexists. rewrite <- app_assoc. split; [done|right; lia].
    - destruct Hor as [->|]; [|lia]. rewrite app_nil_r, app_assoc.
      eexists. split; [f_equal; rewrite take_take_drop; f_equal; lia|].
      destruct (Nat.le_gt_cases (length data) (S k * symbol)); [by right|left].
      rewrite length_take, length_drop. replace (symbol - _)%nat with 0%nat by lia. done. }
  destruct (H n) as (pad & -> & _); [lia|]. rewrite (take_ge data (n * symbol)) by lia. by apply take_app_length.
Qed.

(** Every stored symbol is the symbol of the object with its number. *)
Definition stores (data : bytes) (d : sys_decoder) : Prop :=
  Forall (λ p : Z * bytes, ∃ e : nat, p = (Z.of_nat e, symbol_at data (Z.to_nat (r_symbol (proj1_sig (sd_oti d)))) e)) (sd_symbols d).

Lemma find_symbol_stores (f : nat → bytes) l e s :
  Forall (λ p : Z * bytes, ∃ e : nat, p = (Z.of_nat e, f e)) l → find_symbol (Z.of_nat e) l = Some s → s = f e.
Proof.
  induction 1 as [|p l [e' ->] Hl IH]; cbn; [done|]. case_decide as He; [|done].
  apply Nat2Z.inj in He as ->. by intros [= <-].
Qed.

Lemma omap_all_found (f : nat → option bytes) (g : nat → bytes) l :
  (∀ e s, f e = Some s → s = g e) → Forall is_Some (f <$> l) → omap id (f <$> l) = g <$> l.
Proof.
  intros Hf. induction l as [|e l IH]; cbn; [done|]. intros [[s Hs] Hl]%Forall_cons. cbn in *. rewrite Hs. cbn.
  f_equal; [by apply Hf|by apply IH].
Qed.

Lemma feed_sound data n ps d outs :
  r_length (proj1_sig (sd_oti d)) = blen data → 0 < r_symbol (proj1_sig (sd_oti d)) → Z.of_nat (sys_symbols (sd_oti d)) ≤ 56403 →
  stores data d → (∀ p, p ∈ ps → p ∈ sys_packets data (sd_oti d) n) →
  feed_decoder (H:=systematic) ps d = Ok outs → ∀ out, Some out ∈ outs → out = data.
Proof.
  intros Hl Hsym Hcap. revert d outs Hl Hsym Hcap. induction ps as [|[i s] ps IH]; intros d outs Hl Hsym Hcap Hst Hps Hf out Hout.
  { injection Hf as <-. by apply not_elem_of_nil in Hout. }
  cbn [feed_decoder] in Hf. unfold Decoder_decode, systematic, sys_decode in Hf. cbn [mbind outcome_bind] in Hf.
  set (d' := {| sd_oti := sd_oti d; sd_symbols := _ |}) in Hf.
  assert (Hst' : stores data d').
  { unfold stores. cbn. constructor; [|done]. specialize (Hps (i, s) ltac:(left)). unfold sys_packets in Hps.
    destruct (decide (r_blocks _ = 1)) as [_|]; [|by apply not_elem_of_nil in Hps]. apply list_elem_of_fmap in Hps as (e & [= -> ->] & He%elem_of_seq).
    exists e. cbn. rewrite Z.mod_small by lia. done. }
  apply bind_Ok in Hf as (outs' & Hf & [= <-]).
  apply elem_of_cons in Hout as [Hout|Hout]; [|eapply (IH d'); try done; intros p Hp; apply Hps; by right].
  case_decide as Hall; [|done]. injection Hout as ->. cbn [sd_oti d'] in *. rewrite Hl. unfold blen. rewrite Nat2Z.id.
  rewrite (omap_all_found _ (symbol_at data (Z.to_nat (r_symbol (proj1_sig (sd_oti d)))))) by (done || (intros e x; apply (find_symbol_stores _ (sd_symbols d')); apply Hst')).
  apply symbols_cover_data; [lia|]. unfold sys_symbols, blen in *.
  destruct (div_ceil_spec (r_length (proj1_sig (sd_oti d))) (r_symbol (proj1_sig (sd_oti d)))) as [Hd|Hd]; [lia|lia|nia|lia].
Qed.

#[export] Instance systematic_laws : RaptorQLaws.
Proof.
  refine {| decoder_for := λ o d, sd_oti d = o |}.
  - intros o. pose proof (proj2_sig o) as Ho. apply bool_decide_unpack in Ho. unfold raw_ok in Ho. cbn.
    unfold is_u16, is_u8. destruct Ho as ([? ?] & [? ?] & [? ?] & [? ?] & [? ?]). done.
  - intros i. pose proof (proj2_sig i) as Hi. apply bool_decide_unpack in Hi. unfold id_ok in Hi. cbn.
    unfold is_u8. destruct Hi as [[? ?] [? ?]]. done.
  - apply sys_oti_image.
  - apply sys_id_image.
  - done.
  - intros o _. eexists. split; [done|done].
  - intros o i s d Hd _ _. eexists _, _. split; [done|]. done.
  - intros data max Hd Hm. cbn. rewrite !Z.mod_small by lia. lia.
  - intros data o n i s _ Hv Hin. cbn in Hin. unfold sys_packets in Hin. case_decide as Hb; [|by apply not_elem_of_nil in Hin].
    apply list_elem_of_fmap in Hin as (e & [= -> ->] & _). cbn. rewrite Hb. split; [done|].
    unfold blen. rewrite symbol_at_length. pose proof (proj1 (proj2 Hv)) as Hs. cbn in Hs. lia.
  - intros data o n ps d outs Hl Hv [= <-] _ Hps Hf. destruct Hv as (_ & Hs & _ & _ & _ & _ & _ & Hbs & Hcap).
    destruct (decide (r_blocks (`o) = 1)) as [Hb|Hb].
    + eapply (feed_sound data n ps {| sd_oti := o; sd_symbols := [] |}); try done; [|constructor].
      cbn in Hcap. rewrite Hb in Hcap. unfold symbols_of in Hcap. cbn in Hcap. unfold sys_symbols, MAX_BLOCK_SYMBOLS in *. cbn.
      unfold div_ceil at 1 in Hcap. rewrite Z.mod_1_r, Z.div_1_r in Hcap. cbn in Hcap. lia.
    + destruct ps as [|p ps]; [injection Hf as <-; intros out Hout; by apply not_elem_of_nil in Hout|].
      specialize (Hps p ltac:(left)). cbn in Hps. unfold sys_packets in Hps. case_decide; [done|]. by apply not_elem_of_nil in Hps.
Defined.
