(* ===== verification/FecSafety.v ===== *)
(** * Correctness of the FEC validation boundary

    [validate_oti] accepts exactly the parameters RaptorQ can take within the
    media limits; behind it nothing fails and every counter of the object
    decoder is bounded by the object's own partition. *)

From stdpp Require Import prelude list gmap strings.
From Stdlib Require Import ZArith Lia.
From S2P Require Import Prelude Io Av Packets Fec SystematicCode.
Open Scope Z_scope.

Lemma MEDIA_HEADER_eq : MEDIA_HEADER = 12.
Proof. done. Qed.

Section Safety.
Context `{RL : RaptorQLaws}.

(** What [validate_oti] guarantees *)
Definition acceptable (max_payload : Z) (oti : Oti) : Prop :=
  MEDIA_HEADER ≤ transfer_length oti ≤ max_payload + MEDIA_HEADER ∧ rfc_valid oti ∧
  symbols_of oti ≤ MAX_SOURCE_SYMBOLS.

Lemma validate_oti_iff oti max_payload : validate_oti oti max_payload = Ok tt ↔ acceptable max_payload oti.
Proof.
  destruct (oti_widths oti) as (Hl & [Ws _] & [Wb _] & [Wn _] & [Wa _]).
  unfold validate_oti, acceptable, rfc_valid. split.
  - intros Hok. inv_ok. rewrite MEDIA_HEADER_eq in *. split_and!; lia.
  - intros (H1 & (H2 & H3 & H4 & H5 & H6 & H7 & H8 & H9 & H10) & H11). rewrite MEDIA_HEADER_eq in *. unfold bail_if.
    repeat match goal with |- context [if ?b then _ else _] => destruct b eqn:?; cbn [mbind outcome_bind]; [exfalso; lia|] end.
    done.
Qed.

Lemma bail_if_no_panic {E} b (e : E) : bail_if b e ≠ Panic.
Proof. by destruct b. Qed.

Lemma validate_oti_no_panic oti max_payload : validate_oti oti max_payload ≠ Panic.
Proof. unfold validate_oti. repeat (apply bind_no_panic; [apply bail_if_no_panic|intros _ _]). apply bail_if_no_panic. Qed.

(** The readers of the stream and of the datagrams never panic. *)
Lemma read_exact_no_panic n r : read_exact n r ≠ Panic.
Proof. unfold read_exact. by destruct (exact_chunks n (rd_chunks r)) as [[]|]. Qed.

Lemma map_err_no_panic {E F A} (f : E → F) (m : outcome E A) : m ≠ Panic → map_err f m ≠ Panic.
Proof. by destruct m. Qed.

Lemma parse_datagram_no_panic datagram hs max : parse_datagram datagram hs max ≠ Panic.
Proof.
  unfold parse_datagram, validate_symbol. do 2 (apply bind_no_panic; [apply bail_if_no_panic|intros _ _]).
  apply bind_no_panic; [apply validate_oti_no_panic|intros _ _].
  apply bind_no_panic; [apply bind_no_panic; [apply bail_if_no_panic|intros _ _; apply bail_if_no_panic]|done].
Qed.

Lemma read_stream_packet_no_panic max r : read_stream_packet max r ≠ Panic.
Proof.
  unfold read_stream_packet. apply bind_no_panic; [apply map_err_no_panic, read_exact_no_panic|]. intros [raw r1] Hr.
  assert (Hl : length raw = SERIALIZED_SIZE).
  { destruct (read_exact SERIALIZED_SIZE r) as [[raw' r']|e|] eqn:Hx; try done. injection Hr as <- <-. by apply read_exact_inv in Hx as (_ & -> & _). }
  destruct (Z.land (byte_at 0 raw) 128 =? 0) eqn:Hb.
  - apply bind_no_panic; [apply bail_if_no_panic|intros _ _]. unfold codec_deserialize. rewrite bool_decide_true by done.
    change 0x80 with 128. rewrite Hb. done.
  - unfold media_deserialize. rewrite bool_decide_true by done. change 0x80 with 128. rewrite Hb. cbn [negb rassert mbind outcome_bind].
    apply bind_no_panic; [apply bail_if_no_panic|intros _ _]. apply bind_no_panic; [apply map_err_no_panic, read_exact_no_panic|by intros [] _].
Qed.

(** [validate_oti] succeeds exactly on the parameters that satisfy RFC
    6330 and stay within the media and symbol limits; it never panics. *)
Theorem validate_oti_exact oti max_payload :
  (validate_oti oti max_payload = Ok tt ↔ acceptable max_payload oti) ∧ validate_oti oti max_payload ≠ Panic.
Proof. split; [apply validate_oti_iff|apply validate_oti_no_panic]. Qed.

Lemma validate_oti_acceptable oti max u : validate_oti oti max = Ok u → acceptable max oti.
Proof. destruct u. apply validate_oti_iff. Qed.

(** The size in symbols covers the object by less than one symbol. *)
Lemma symbols_cover oti max :
  acceptable max oti →
  0 < symbols_of oti ∧ transfer_length oti ≤ symbols_of oti * symbol_size oti < transfer_length oti + symbol_size oti.
Proof.
  intros (_ & (H1 & H2 & _) & _). unfold symbols_of.
  pose proof (div_ceil_pos _ _ H1 H2). destruct (div_ceil_spec (transfer_length oti) (symbol_size oti)); nia.
Qed.

(** An accepted object reserves less than 2^32 bytes, so the products of
    [reservation] do not overflow a 32-bit [usize], and an accepted video object
    is always admitted by a receiver that holds nothing. *)
Theorem reservation_bounded oti max_payload :
  0 ≤ max_payload ≤ MAX_VIDEO_PAYLOAD → validate_oti oti max_payload = Ok tt →
  0 < reservation oti < 2 ^ 32 ∧ check_pending 0 0 (reservation oti) MAX_VIDEO_PAYLOAD = Ok tt.
Proof.
  intros Hm Hv%validate_oti_acceptable. pose proof (symbols_cover oti max_payload Hv) as [Hs1 Hs2].
  destruct Hv as (Hlen & (H1 & H2 & H3 & _) & Hs). destruct (oti_widths oti) as (_ & [_ Hsy] & [_ Hbl] & _).
  rewrite MEDIA_HEADER_eq in *. unfold MAX_VIDEO_PAYLOAD, MAX_SOURCE_SYMBOLS in *.
  assert (Hr : 0 < reservation oti ≤ 256 * 1024 * 1024) by (unfold reservation; nia).
  split; [lia|]. unfold check_pending, bail_if, pending_limit, MAX_VIDEO_PAYLOAD, MAX_PENDING_OBJECTS.
  rewrite Z.eqb_refl. case_match eqn:Hb; [exfalso; lia|done].
Qed.

(** ** The partition of an object *)

Lemma source_symbols_spec oti max block :
  acceptable max oti →
  source_symbols_for_block oti block =
    (if block <? symbols_of oti mod source_blocks oti then div_ceil (symbols_of oti) (source_blocks oti)
     else symbols_of oti / source_blocks oti) ∧
  0 ≤ source_symbols_for_block oti block ≤ MAX_BLOCK_SYMBOLS.
Proof.
  intros Hv. pose proof (symbols_cover oti max Hv) as [Hs1 _].
  destruct Hv as (Hlen & (H1 & H2 & H3 & H4 & H5 & H6 & H7 & H8 & H9) & Hs).
  unfold source_symbols_for_block, wrap32. unfold MAX_SOURCE_SYMBOLS in Hs. rewrite Z.mod_small by lia.
  rewrite partition_spec by lia. split; [done|].
  assert (0 ≤ symbols_of oti / source_blocks oti) by (apply Z.div_pos; lia).
  assert (symbols_of oti / source_blocks oti ≤ div_ceil (symbols_of oti) (source_blocks oti)) by (unfold div_ceil; case_match; lia).
  case_match; lia.
Qed.

(** The identifiers of all source symbols *)
Definition source_keys (oti : Oti) (blocks : nat) : list (Z * Z) :=
  seq 0 blocks ≫= λ b, (λ e, (Z.of_nat b, Z.of_nat e)) <$> seq 0 (Z.to_nat (source_symbols_for_block oti (Z.of_nat b))).

Lemma elem_of_source_keys oti blocks b e :
  0 ≤ b < Z.of_nat blocks → 0 ≤ e < source_symbols_for_block oti b → (b, e) ∈ source_keys oti blocks.
Proof.
  intros Hb He. unfold source_keys. apply list_elem_of_bind. exists (Z.to_nat b). rewrite Z2Nat.id by lia.
  split; [|apply elem_of_seq; lia]. apply list_elem_of_fmap. exists (Z.to_nat e). rewrite Z2Nat.id by lia.
  split; [done|apply elem_of_seq; lia].
Qed.

Lemma source_keys_length oti max blocks :
  acceptable max oti → (Z.of_nat blocks ≤ source_blocks oti) →
  Z.of_nat (length (source_keys oti blocks)) =
    Z.of_nat blocks * (symbols_of oti / source_blocks oti) + Z.min (Z.of_nat blocks) (symbols_of oti mod source_blocks oti).
Proof.
  intros Hv. pose proof (symbols_cover oti max Hv) as [Hs1 _]. assert (Hb : 0 < source_blocks oti) by apply Hv.
  pose proof (Z.mod_pos_bound (symbols_of oti) (source_blocks oti) Hb).
  induction blocks as [|n IH]; intros Hn; [cbn; lia|].
  unfold source_keys. rewrite seq_S, bind_app, length_app. fold (source_keys oti n).
  rewrite Nat2Z.inj_add, IH by lia. cbn [mbind list_bind app]. rewrite app_nil_r, length_fmap, length_seq, Nat.add_0_l.
  destruct (source_symbols_spec oti max (Z.of_nat n) Hv) as [-> _]. unfold div_ceil.
  assert (0 ≤ symbols_of oti / source_blocks oti) by (apply Z.div_pos; lia).
  destruct (Z.ltb_spec (Z.of_nat n) (symbols_of oti mod source_blocks oti)); [|lia].
  destruct (Z.eqb_spec (symbols_of oti mod source_blocks oti) 0); lia.
Qed.

Lemma source_keys_total oti max :
  acceptable max oti → Z.of_nat (length (source_keys oti (Z.to_nat (source_blocks oti)))) = symbols_of oti.
Proof.
  intros Hv. assert (Hb : 0 < source_blocks oti) by apply Hv. rewrite (source_keys_length oti max) by (done || lia).
  rewrite Z2Nat.id by lia. pose proof (Z.mod_pos_bound (symbols_of oti) (source_blocks oti) Hb).
  pose proof (Z.div_mod (symbols_of oti) (source_blocks oti) ltac:(lia)). lia.
Qed.

(** ** The object decoder *)

Abbreviation of_block b k := (k.1 = b).
Definition is_source (oti : Oti) (k : Z * Z) : Prop := k.2 < source_symbols_for_block oti k.1.

#[export] Instance is_source_dec oti k : Decision (is_source oti k).
Proof. unfold is_source. apply _. Defined.

Definition block_count (b : Z) (keys : gset (Z * Z)) : Z := Z.of_nat (base.size (filter (λ k, of_block b k) keys)).
Definition source_count (oti : Oti) (keys : gset (Z * Z)) : Z := Z.of_nat (base.size (filter (is_source oti) keys)).

Record wf_decoder (max : Z) (d : ObjectDecoder) : Prop := {
  wd_oti : acceptable max (od_oti d);
  wd_decoder : decoder_for (od_oti d) (decoder d);
  wd_blocks : length (per_block d) = Z.to_nat (source_blocks (od_oti d));
  wd_keys k : k ∈ received d → 0 ≤ k.1 < source_blocks (od_oti d) ∧ 0 ≤ k.2 < 2 ^ 24;
  wd_counts b c : per_block d !! b = Some c →
    c = block_count (Z.of_nat b) (received d) ∧
    c ≤ 2 * source_symbols_for_block (od_oti d) (Z.of_nat b) + 32;
  wd_sources : received_sources d = source_count (od_oti d) (received d);
}.

Lemma filter_size_insert (P : Z * Z → Prop) `{!∀ k, Decision (P k)} (key : Z * Z) (keys : gset (Z * Z)) :
  key ∉ keys →
  Z.of_nat (base.size (filter P ({[key]} ∪ keys))) = Z.of_nat (base.size (filter P keys)) + (if decide (P key) then 1 else 0).
Proof.
  intros Hn. rewrite (filter_union_L P), (filter_singleton_L P). destruct (decide (P key)) as [Hp|Hp].
  - rewrite size_union by set_solver. rewrite size_singleton. lia.
  - rewrite union_empty_l_L. lia.
Qed.

Lemma filter_size_empty (P : Z * Z → Prop) `{!∀ k, Decision (P k)} : base.size (filter P (∅ : gset (Z * Z))) = 0%nat.
Proof. by rewrite (filter_empty_L P), size_empty. Qed.

Lemma received_sources_bounded max d : wf_decoder max d → 0 ≤ received_sources d ≤ symbols_of (od_oti d).
Proof.
  intros []. rewrite wd_sources0. unfold source_count. split; [lia|].
  rewrite <- (source_keys_total (od_oti d) max) by done. apply inj_le. unfold base.size, set_size. cbn.
  apply submseteq_length, NoDup_submseteq; [apply NoDup_elements|].
  intros [b e] [Hs Hk]%elem_of_elements%elem_of_filter. destruct (wd_keys0 _ Hk). cbn in *.
  apply elem_of_source_keys; [lia|]. unfold is_source in Hs. cbn in Hs. lia.
Qed.

Lemma ObjectDecoder_new_wf oti max :
  match ObjectDecoder_new oti max with
  | Ok d => wf_decoder max d ∧ od_oti d = oti ∧ received d = ∅ ∧ acceptable max oti
  | Err _ => validate_oti oti max ≠ Ok tt
  | Panic => False
  end.
Proof.
  unfold ObjectDecoder_new. pose proof (validate_oti_iff oti max) as Hv. pose proof (validate_oti_no_panic oti max) as Hp.
  destruct (validate_oti oti max) as [[]|e|]; cbn [mbind outcome_bind]; [|done|done].
  assert (Ha : acceptable max oti) by (by apply Hv). destruct (decoder_new_ok oti) as (dd & -> & Hd); [apply Ha|].
  cbn [mbind outcome_bind]. split_and!; [|done..]. split; cbn; [done|done|by rewrite length_replicate| |
    |by unfold source_count; rewrite (filter_size_empty (is_source oti))].
  - intros k Hk. set_solver.
  - intros b c [-> _]%lookup_replicate. unfold block_count. rewrite (filter_size_empty (λ k, of_block (Z.of_nat b) k)).
    destruct (source_symbols_spec oti max (Z.of_nat b) Ha) as [_ ?]. lia.
Qed.

Lemma lookup_per_block max d id :
  wf_decoder max d → source_block_number id < source_blocks (od_oti d) →
  ∃ c, per_block d !! Z.to_nat (source_block_number id) = Some c.
Proof.
  intros [] Hb. destruct (id_widths id) as [[? ?] _]. apply lookup_lt_is_Some_2. rewrite wd_blocks0. lia.
Qed.

(** What one symbol does to a well-formed decoder. *)
Lemma decode_wf max oti id data d :
  wf_decoder max d →
  match ObjectDecoder_decode oti id data d with
  | Ok (d', out) =>
      wf_decoder max d' ∧ od_oti d' = od_oti d ∧ oti = od_oti d ∧ received d ⊆ received d' ∧
      (source_block_number id, encoding_symbol_id id) ∈ received d' ∧
      ((source_block_number id, encoding_symbol_id id) ∈ received d → d' = d ∧ out = None)
  | Err _ => True
  | Panic => False
  end.
Proof.
  intros Hd. unfold ObjectDecoder_decode, bail_if at 1.
  destruct (decide (oti = od_oti d)) as [->|Ho]; [|by rewrite (bool_decide_false (oti = od_oti d))].
  rewrite (bool_decide_true (od_oti d = od_oti d)) by done. cbn [negb mbind outcome_bind].
  unfold validate_symbol, bail_if at 1. destruct (Z.leb_spec (source_blocks (od_oti d)) (source_block_number id)) as [|Hb]; [done|].
  cbn [mbind outcome_bind]. unfold bail_if at 1. destruct (Z.eqb_spec (blen data) (symbol_size (od_oti d))) as [Hlen|]; [|done].
  cbn [negb mbind outcome_bind]. set (key := (source_block_number id, encoding_symbol_id id)).
  case_bool_decide as Hk; [split_and!; done|].
  destruct (lookup_per_block max d id Hd Hb) as [c Hc]. rewrite Hc. cbn [expect mbind outcome_bind].
  destruct (source_symbols_spec (od_oti d) max (source_block_number id)) as [_ Hsrc]; [apply Hd|].
  destruct (wd_counts max d Hd _ _ Hc) as [Hcount Hcap]. destruct (id_widths id) as [[Hid0 Hid1] He].
  rewrite Z2Nat.id in Hcount, Hcap by done. unfold MAX_BLOCK_SYMBOLS in Hsrc. unfold wrap32.
  rewrite (Z.mod_small (2 * _)) by lia. rewrite (Z.mod_small (_ + 32)) by lia.
  unfold bail_if. destruct (Z.leb_spec (2 * source_symbols_for_block (od_oti d) (source_block_number id) + 32) c) as [|Hlt]; [done|].
  cbn [mbind outcome_bind]. destruct (decoder_decode_ok (od_oti d) id data (decoder d)) as (dd & out & -> & Hdd); [apply Hd|done|done|].
  cbn [mbind outcome_bind]. assert (0 ≤ c) by (rewrite Hcount; unfold block_count; lia). rewrite (Z.mod_small (c + 1)) by lia.
  split_and!; [|done|done|set_solver|set_solver|done]. destruct Hd. split; cbn [od_oti decoder received per_block received_sources].
  - done.
  - done.
  - by rewrite length_insert.
  - intros k [->%elem_of_singleton|Hin]%elem_of_union; [cbn; lia|by apply wd_keys0].
  - intros b c' Hl. unfold block_count. rewrite filter_size_insert by done. cbn [fst key].
    destruct (decide (b = Z.to_nat (source_block_number id))) as [->|Hne].
    + rewrite list_lookup_insert_eq in Hl by (by eapply lookup_lt_Some). injection Hl as <-.
      rewrite Z2Nat.id by done. rewrite decide_True by done. fold (block_count (source_block_number id) (received d)). lia.
    + rewrite list_lookup_insert_ne in Hl by done. rewrite decide_False by lia. rewrite Z.add_0_r.
      fold (block_count (Z.of_nat b) (received d)). by apply wd_counts0.
  - unfold source_count in *. rewrite filter_size_insert by done. rewrite wd_sources0. f_equal.
    unfold is_source. cbn [fst snd key]. destruct (Z.ltb_spec (encoding_symbol_id id) (source_symbols_for_block (od_oti d) (source_block_number id))).
    + by rewrite decide_True.
    + rewrite decide_False by lia. done.
Qed.

(** A decoder fed with any sequence of symbols; the outputs are dropped. *)
Fixpoint decode_all (ps : list (Oti * PayloadId * bytes)) (d : ObjectDecoder) : outcome ProtocolError ObjectDecoder :=
  match ps with
  | [] => Ok d
  | (oti, id, data) :: ps => '(d, _) ← ObjectDecoder_decode oti id data d; decode_all ps d
  end.

Lemma decode_all_wf max ps d :
  wf_decoder max d →
  match decode_all ps d with Ok d' => wf_decoder max d' ∧ od_oti d' = od_oti d | Err _ => True | Panic => False end.
Proof.
  revert d. induction ps as [|[[oti id] data] ps IH]; intros d Hd; cbn [decode_all]; [done|].
  pose proof (decode_wf max oti id data d Hd) as Hs. destruct (ObjectDecoder_decode oti id data d) as [[d1 out]|e|]; [|done|done].
  cbn [mbind outcome_bind]. destruct Hs as (Hd1 & Ho & _). specialize (IH d1 Hd1). destruct (decode_all ps d1) as [d2|e|]; [|done|done].
  destruct IH as [? ?]. split; [done|congruence].
Qed.

(** Whatever symbols a peer sends for an object, the decoder never panics,
    holds at most [2 * K + 32] symbols of each source block of [K] symbols, and
    never counts more original symbols than the object has. *)
Theorem object_decoder_bounded oti max ps :
  match (d ← ObjectDecoder_new oti max; decode_all ps d) with
  | Ok d => od_oti d = oti ∧ 0 ≤ received_sources d ≤ symbols_of oti ∧
            (∀ b, 0 ≤ b < source_blocks oti →
               block_count b (received d) ≤ 2 * source_symbols_for_block oti b + 32) ∧
            (∀ k, k ∈ received d → 0 ≤ k.1 < source_blocks oti)
  | Err _ => True
  | Panic => False
  end.
Proof.
  pose proof (ObjectDecoder_new_wf oti max) as Hn. destruct (ObjectDecoder_new oti max) as [d|e|]; [|done|done].
  destruct Hn as (Hd & Ho & _). cbn [mbind outcome_bind]. pose proof (decode_all_wf max ps d Hd) as Hs.
  destruct (decode_all ps d) as [d'|e|]; [|done|done]. destruct Hs as [Hd' Ho']. assert (od_oti d' = oti) as Heq by congruence.
  split; [done|]. rewrite <- Heq. split; [by apply (received_sources_bounded max)|]. split.
  - intros b Hb. destruct (lookup_lt_is_Some_2 (per_block d') (Z.to_nat b)) as [c Hc]; [rewrite (wd_blocks max) by done; lia|].
    destruct (wd_counts max d' Hd' _ _ Hc) as [Hc1 Hc2]. rewrite Z2Nat.id in Hc1, Hc2 by lia. lia.
  - intros k Hk. by apply (wd_keys max).
Qed.
End Safety.

(** ** Samples *)

Definition sample_oti : @Oti systematic := mk_oti {| r_length := 20; r_symbol := 8; r_blocks := 1; r_sub := 1; r_align := 1 |}.

Lemma validate_oti_exact_witness :
  (validate_oti sample_oti MAX_VIDEO_PAYLOAD = Ok tt ↔ acceptable MAX_VIDEO_PAYLOAD sample_oti) ∧
  validate_oti sample_oti MAX_VIDEO_PAYLOAD ≠ Panic.
Proof. apply (validate_oti_exact sample_oti MAX_VIDEO_PAYLOAD). Defined.

Lemma reservation_bounded_witness :
  0 < reservation sample_oti < 2 ^ 32 ∧ check_pending 0 0 (reservation sample_oti) MAX_VIDEO_PAYLOAD = Ok tt.
Proof. apply (reservation_bounded sample_oti MAX_VIDEO_PAYLOAD); [by vm_compute|by vm_compute]. Defined.

(** A source symbol sent twice and a symbol that is too short *)
Definition sample_symbols : list (Oti * PayloadId * bytes) :=
  [(sample_oti, mk_id 0 0, replicate 8 7); (sample_oti, mk_id 0 0, replicate 8 7); (sample_oti, mk_id 0 5, replicate 8 7)].

Lemma object_decoder_bounded_witness :
  match (d ← ObjectDecoder_new sample_oti MAX_VIDEO_PAYLOAD; decode_all sample_symbols d) with
  | Ok d => od_oti d = sample_oti ∧ 0 ≤ received_sources d ≤ symbols_of sample_oti ∧
            (∀ b, 0 ≤ b < source_blocks sample_oti →
               block_count b (received d) ≤ 2 * source_symbols_for_block sample_oti b + 32) ∧
            (∀ k, k ∈ received d → 0 ≤ k.1 < source_blocks sample_oti)
  | Err _ => True
  | Panic => False
  end.
Proof. apply (object_decoder_bounded sample_oti MAX_VIDEO_PAYLOAD sample_symbols). Defined.

Example sample_symbols_decoded :
  (received_sources <$> (d ← ObjectDecoder_new sample_oti MAX_VIDEO_PAYLOAD; decode_all sample_symbols d)) = Ok 1.
Proof. by vm_compute. Qed.
