(* ===== verification/VideoUnreliableFec.v ===== *)
(** * Unreliable video driver with error correction

    Models [kyproto/src/protocol/driver/av/video_unreliable_fec.rs]: the sender
    that turns media packets into RaptorQ symbols, the parsing of datagrams,
    the pending groups with their admission budget and the [process] task.
    Every reading of the clock is an argument of the definition that makes
    it. *)

From stdpp Require Import prelude list gmap strings.
From Stdlib Require Import ZArith Lia.
From S2P Require Import Prelude SortedVec Sequencer Io Av Packets Channel Reassembly Fec.
Open Scope Z_scope.

Definition DATAGRAM_HEADER_SIZE : nat := 26.

(** [Duration::from_millis(50)], in microseconds *)
Definition MAX_BUFFERING : Z := 50 * 1000.

(** ** The number of repair symbols *)

(** The [f32] nearest to an integer multiple of a power of two, ties to even:
    24 significant bits *)
Definition f32_round (m : Z) : Z :=
  let k := Z.log2 m - 23 in
  if k <=? 0 then m
  else
    let q := m / 2 ^ k in
    let r := m mod 2 ^ k in
    let h := 2 ^ (k - 1) in
    (if (h <? r) || ((h =? r) && Z.odd q) then q + 1 else q) * 2 ^ k.

(** [((n as f32 * 0.3).ceil() as u32).max(2)]; the literal [0.3] is the [f32]
    [10066330 / 2^25] *)
Definition repair_symbols (source_symbols : Z) : Z :=
  let product := f32_round (f32_round source_symbols * 10066330) in
  Z.max 2 (Z.min (div_ceil product (2 ^ 25)) (2 ^ 32 - 1)).

(** A candidate of [retire_oldest_media]: group index, whether it is a
    reassembled packet, sequence number, instant *)
Abbreviation Candidate := (nat * bool * Z * Instant)%type.

Section Driver.
Context `{RQ : RaptorQ}.

(** ** Sender *)

Record SendDriver := {
  ky_channel : KyChannel;
  stream : Writer;
  kypacket_seq : Z;
  group_seq : Z;
}.

(** [VideoUnreliableFecProtocolSendDriver::start], on the opened stream *)
Definition send_start (ch : KyChannel) (st : Writer) : SendDriver :=
  {| ky_channel := ch; stream := st; kypacket_seq := 0; group_seq := 0 |}.

Abbreviation sending := (handler SendDriver ProtocolError).

Definition on_channel {A} (m : handler KyChannel ProtocolError A) : sending A := λ self,
  let '(ch, r) := m (ky_channel self) in
  ({| ky_channel := ch; stream := stream self; kypacket_seq := kypacket_seq self; group_seq := group_seq self |}, r).

Definition on_stream {A} (m : writing A) : sending A := λ self,
  let '(w, r) := m (stream self) in
  ({| ky_channel := ky_channel self; stream := w; kypacket_seq := kypacket_seq self; group_seq := group_seq self |},
   map_err io_message r).

Definition set_seqs (k g : Z) (self : SendDriver) : SendDriver :=
  {| ky_channel := ky_channel self; stream := stream self; kypacket_seq := k; group_seq := g |}.

(** The buffer of one datagram *)
Definition datagram_bytes (self : SendDriver) (oti : bytes) (id : PayloadId) (data : bytes) : bytes :=
  write_datagram_header (ky_channel self) ++ be_bytes 4 (kypacket_seq self) ++ be_bytes 4 (group_seq self) ++
  oti ++ id_serialize id ++ data.

(** The loop over the encoded packets *)
Fixpoint send_encoded (oti : bytes) (packets : list (PayloadId * bytes)) : sending unit :=
  match packets with
  | [] => mret tt
  | (id, data) :: packets =>
      buf ← getM (λ self, datagram_bytes self oti id data);
      _ ← on_channel (send_datagram connection_lost buf);
      send_encoded oti packets
  end.

(** Without the [source-first-fec] feature; [div_ceil] panics on a symbol size
    of zero. *)
Definition send_datagrams (packet : MediaPacket) : sending unit :=
  max ← getM (λ self, max_datagram_size (ky_channel self));
  max ← pureM (ok_or max "Datagram not supported"%string);
  _ ← pureM (rassert (Z.of_nat DATAGRAM_HEADER_SIZE <? max));
  _ ← pureM (rassert (max <? 0x10000));
  hdr ← pureM (media_serialize (header packet));
  let data := hdr ++ payload packet in
  let oti := encoder_config data (max - Z.of_nat DATAGRAM_HEADER_SIZE) in
  _ ← pureM (rassert (negb (symbol_size oti =? 0)));
  let source_symbols := div_ceil (blen data) (symbol_size oti) in
  send_encoded (oti_serialize oti) (get_encoded_packets data oti (repair_symbols source_symbols)).

(** [ProtocolSendDriver::send] *)
Definition send (packet : AVPacket) : sending unit :=
  match packet with
  | Codec p =>
      hdr ← pureM (codec_serialize (codec_header p));
      _ ← on_stream (write_all (be_bytes 8 0 ++ hdr));
      on_stream flush
  | Media p =>
      _ ← (if is_config (header p) then
             _ ← modifyM (λ self, set_seqs (kypacket_seq self) (wrap32 (group_seq self + 1)) self);
             hdr ← pureM (media_serialize (header p));
             prefix ← getM (λ self, be_bytes 4 (kypacket_seq self) ++ be_bytes 4 (group_seq self));
             _ ← on_stream (write_all (prefix ++ hdr ++ payload p));
             on_stream flush
           else send_datagrams p);
      modifyM (λ self, set_seqs (wrap32 (kypacket_seq self + 1)) (group_seq self) self)
  | Hole _ => pureM Panic
  end.

(** ** Receiving tasks *)

Record StreamMsg := { sm_packet : AVPacket; sm_raw_kypacket_seq : Z; sm_raw_group_seq : Z }.
Record DatagramMsg := {
  dm_data : bytes; dm_raw_kypacket_seq : Z; dm_raw_group_seq : Z; dm_oti : Oti; dm_payload_id : PayloadId }.
Inductive RecvMsg := RStream (m : StreamMsg) | RDatagram (m : DatagramMsg).

(** [DatagramMsg::parse] *)
Definition parse (datagram : bytes) : outcome ProtocolError DatagramMsg :=
  '(data, oti, payload_id) ← parse_datagram datagram DATAGRAM_HEADER_SIZE MAX_VIDEO_PAYLOAD;
  Ok {| dm_data := data; dm_raw_kypacket_seq := read_be (slice 2 4 datagram);
        dm_raw_group_seq := read_be (slice 6 4 datagram); dm_oti := oti; dm_payload_id := payload_id |}.

(** One round of [recv_stream_packets] *)
Definition recv_stream_packet (r : Reader) : outcome ProtocolError (RecvMsg * Reader) :=
  '(seqs, r) ← map_err io_message (read_exact 8 r);
  '(packet, r) ← read_stream_packet MAX_VIDEO_PAYLOAD r;
  Ok (RStream {| sm_packet := packet; sm_raw_kypacket_seq := read_be (slice 0 4 seqs);
                 sm_raw_group_seq := read_be (slice 4 4 seqs) |}, r).

(** ** [VideoFecStats] *)

Record VideoFecStats := {
  source_symbols : Z;
  missing_source_symbols : Z;
  unrecovered_source_symbols : Z;
}.

Definition fec_stats_default : VideoFecStats :=
  {| source_symbols := 0; missing_source_symbols := 0; unrecovered_source_symbols := 0 |}.

Definition accumulate (self other : VideoFecStats) : VideoFecStats :=
  {| source_symbols := source_symbols self + source_symbols other;
     missing_source_symbols := missing_source_symbols self + missing_source_symbols other;
     unrecovered_source_symbols := unrecovered_source_symbols self + unrecovered_source_symbols other |}.

(** ** [DatagramSegments] *)

Record DatagramPacket := {
  fd_oti : Oti;
  fd_packet : AVPacket;
  fd_seq : Z;
  fd_instant : Instant;
  fd_stats : VideoFecStats;
}.

Record DatagramSegments := {
  fs_seq : Z;
  fs_decoder : ObjectDecoder;
  assembled : option bytes;
  created : Instant;
}.

Definition DatagramSegments_new (now : Instant) (kypacket_seq : Z) (oti : Oti) : outcome ProtocolError DatagramSegments :=
  d ← ObjectDecoder_new oti MAX_VIDEO_PAYLOAD;
  Ok {| fs_seq := kypacket_seq; fs_decoder := d; assembled := None; created := now |}.

Definition add_packet (oti : Oti) (payload_id : PayloadId) (data : bytes) (self : DatagramSegments)
    : outcome ProtocolError DatagramSegments :=
  '(d, out) ← ObjectDecoder_decode oti payload_id data (fs_decoder self);
  Ok {| fs_seq := fs_seq self; fs_decoder := d; assembled := out; created := created self |}.

Definition is_complete (self : DatagramSegments) : bool := bool_decide (is_Some (assembled self)).

Definition fec_stats (self : DatagramSegments) : VideoFecStats :=
  let source := symbols_of (od_oti (fs_decoder self)) in
  let missing := Z.max 0 (source - received_sources (fs_decoder self)) in
  {| source_symbols := source; missing_source_symbols := missing;
     unrecovered_source_symbols := if is_complete self then 0 else missing |}.

Definition assemble (now : Instant) (self : DatagramSegments) : outcome ProtocolError DatagramPacket :=
  let stats := fec_stats self in
  data ← ok_or (assembled self) (invalid "incomplete video object");
  packet ← media_packet data;
  Ok {| fd_oti := od_oti (fs_decoder self); fd_packet := packet; fd_seq := fs_seq self; fd_instant := now; fd_stats := stats |}.

(** ** [PendingGroup] *)

Record PendingGroup := {
  fg_seq : Z;
  fg_config : ConfigPacket;
  fg_datagrams : list DatagramPacket;
  fg_segments : list DatagramSegments;
}.

Definition PendingGroup_new (group_seq : Z) : PendingGroup :=
  {| fg_seq := group_seq; fg_config := CfgNone; fg_datagrams := []; fg_segments := [] |}.

Definition with_config (c : ConfigPacket) (g : PendingGroup) : PendingGroup :=
  {| fg_seq := fg_seq g; fg_config := c; fg_datagrams := fg_datagrams g; fg_segments := fg_segments g |}.
Definition with_datagrams (ds : list DatagramPacket) (g : PendingGroup) : PendingGroup :=
  {| fg_seq := fg_seq g; fg_config := fg_config g; fg_datagrams := ds; fg_segments := fg_segments g |}.
Definition with_segments (ss : list DatagramSegments) (g : PendingGroup) : PendingGroup :=
  {| fg_seq := fg_seq g; fg_config := fg_config g; fg_datagrams := fg_datagrams g; fg_segments := ss |}.

Definition is_found (r : search) : bool := match r with Found _ => true | NotFound _ => false end.

Definition contains (seq : Z) (self : PendingGroup) : bool :=
  is_found (binary_search_by_key fs_seq seq (fg_segments self)) ||
  is_found (binary_search_by_key fd_seq seq (fg_datagrams self)).

Definition usage (self : PendingGroup) : Z * Z :=
  let objects := Z.of_nat (length (fg_segments self)) + Z.of_nat (length (fg_datagrams self)) in
  let bytes := sum_list_with (λ s, reservation (od_oti (fs_decoder s))) (fg_segments self) +
               sum_list_with (λ d, reservation (fd_oti d)) (fg_datagrams self) in
  match fg_config self with
  | CfgReady {| st_packet := Media media |} => (objects + 1, bytes + blen (payload media))
  | _ => (objects, bytes)
  end.

Definition prepare_datagram_segments (now : Instant) (kypacket_seq : Z) (oti : Oti) (self : PendingGroup)
    : outcome ProtocolError (PendingGroup * nat) :=
  match binary_search_by_key fs_seq kypacket_seq (fg_segments self) with
  | Found index => Ok (self, index)
  | NotFound index =>
      s ← DatagramSegments_new now kypacket_seq oti;
      Ok (with_segments (vec_insert index s (fg_segments self)) self, index)
  end.

Definition insert_datagram_packet (packet : DatagramPacket) (self : PendingGroup) : PendingGroup :=
  match binary_search_by_key fd_seq (fd_seq packet) (fg_datagrams self) with
  | NotFound index => with_datagrams (vec_insert index packet (fg_datagrams self)) self
  | Found _ => self
  end.

(** The readings of the clock while a datagram is inserted *)
Record Clocks := { at_admit : Instant; at_create : Instant; at_assemble : Instant }.

(** [PendingGroup::insert_datagram] *)
Definition group_insert_datagram (now : Clocks) (kypacket_seq : Z) (oti : Oti) (payload_id : PayloadId) (data : bytes)
    (self : PendingGroup) : outcome ProtocolError PendingGroup :=
  match binary_search_by_key fd_seq kypacket_seq (fg_datagrams self) with
  | NotFound _ =>
      '(self, index) ← prepare_datagram_segments (at_create now) kypacket_seq oti self;
      s ← expect (fg_segments self !! index);
      s ← add_packet oti payload_id data s;
      let self := with_segments (<[index := s]> (fg_segments self)) self in
      if is_complete s then
        let self := with_segments (delete index (fg_segments self)) self in
        packet ← assemble (at_assemble now) s;
        Ok (insert_datagram_packet packet self)
      else Ok self
  | Found index =>
      d ← expect (fg_datagrams self !! index);
      _ ← bail_if (negb (bool_decide (fd_oti d = oti))) (invalid "OTI changed for completed video object");
      Ok self
  end.

Definition drop_expired_segments (until_kypacket_seq : Z) (self : PendingGroup) : PendingGroup * VideoFecStats :=
  let index := match binary_search_by_key fs_seq until_kypacket_seq (fg_segments self) with
               | Found i => i
               | NotFound i => i
               end in
  (with_segments (drop index (fg_segments self)) self,
   foldl (λ st s, accumulate st (fec_stats s)) fec_stats_default (take index (fg_segments self))).

Definition discarded_fec_stats (self : PendingGroup) : VideoFecStats :=
  foldl (λ st s, accumulate st (fec_stats s))
    (foldl (λ st d, accumulate st (fd_stats d)) fec_stats_default (fg_datagrams self)) (fg_segments self).

(** ** [PendingGroups] *)

Record PendingGroups := {
  groups : list PendingGroup;
  retired_through : option Z;
  retired_stats : VideoFecStats;
}.

Definition PendingGroups_new : PendingGroups :=
  {| groups := []; retired_through := None; retired_stats := fec_stats_default |}.

Definition with_groups (gs : list PendingGroup) (self : PendingGroups) : PendingGroups :=
  {| groups := gs; retired_through := retired_through self; retired_stats := retired_stats self |}.

Definition prepare_pending_group (group_seq : Z) (self : PendingGroups) : outcome ProtocolError (PendingGroups * nat) :=
  match binary_search_by_key fg_seq group_seq (groups self) with
  | Found index => Ok (self, index)
  | NotFound index =>
      _ ← bail_if (MAX_PENDING_GROUPS <=? Z.of_nat (length (groups self))) (invalid "too many pending video groups");
      Ok (with_groups (vec_insert index (PendingGroup_new group_seq) (groups self)) self, index)
  end.

Definition check_capacity (additional : Z) (self : PendingGroups) : outcome ProtocolError unit :=
  let '(objects, bytes) :=
    foldl (λ nb g, let '(count, charge) := usage g in (nb.1 + count, nb.2 + charge)) (0, 0) (groups self) in
  check_pending objects bytes additional MAX_VIDEO_PAYLOAD.

Definition pick_oldest (oldest : option Candidate) (c : Candidate) : option Candidate :=
  match oldest with
  | None => Some c
  | Some (_, _, oldest_seq, _) => let '(_, _, seq, _) := c in if seq <? oldest_seq then Some c else oldest
  end.

Fixpoint find_oldest (index : nat) (gs : list PendingGroup) (oldest : option Candidate) : option Candidate :=
  match gs with
  | [] => oldest
  | g :: gs =>
      let segment := (λ s, (index, false, fs_seq s, created s)) <$> head (fg_segments g) in
      let datagram := (λ d, (index, true, fd_seq d, fd_instant d)) <$> head (fg_datagrams g) in
      find_oldest (S index) gs (foldl pick_oldest oldest (option_list segment ++ option_list datagram))
  end.

(** The group after its first candidate left, and the stats of that one *)
Definition retire_from (is_datagram : bool) (g : PendingGroup) : outcome ProtocolError (PendingGroup * VideoFecStats) :=
  if is_datagram then
    match fg_datagrams g with
    | [] => Ok (g, fec_stats_default)
    | d :: ds => Ok (with_datagrams ds g, fd_stats d)
    end
  else
    match fg_segments g with
    | [] => Panic
    | s :: ss => Ok (with_segments ss g, fec_stats s)
    end.

Definition group_is_empty (g : PendingGroup) : bool :=
  cfg_is_none (fg_config g) && match fg_segments g, fg_datagrams g with [], [] => true | _, _ => false end.

(** [None] stands for the result [false] *)
Definition retire_oldest_media (now : Instant) (self : PendingGroups) : outcome ProtocolError (option PendingGroups) :=
  match find_oldest 0 (groups self) None with
  | None => Ok None
  | Some (index, is_datagram, seq, instant) =>
      if now <? instant + MAX_BUFFERING then Ok None
      else
        g ← expect (groups self !! index);
        '(g, stats) ← retire_from is_datagram g;
        Ok (Some {| groups := if group_is_empty g then delete index (groups self) else <[index := g]> (groups self);
                    retired_through := Some (match retired_through self with Some r => Z.max r seq | None => seq end);
                    retired_stats := accumulate (retired_stats self) stats |})
  end.

(** Number of media objects held *)
Definition media_count (gs : list PendingGroup) : nat :=
  sum_list ((λ g, length (fg_segments g) + length (fg_datagrams g))%nat <$> gs).

(** The loop of [admit]: every round retires one media object. *)
Fixpoint admit_loop (fuel : nat) (now : Instant) (additional : Z) (self : PendingGroups) : outcome ProtocolError PendingGroups :=
  match check_capacity additional self with
  | Ok _ => Ok self
  | Panic => Panic
  | Err error =>
      retired ← retire_oldest_media now self;
      match retired with
      | None => Err error
      | Some self => match fuel with O => Panic | S fuel => admit_loop fuel now additional self end
      end
  end.

(** [PendingGroups::admit] *)
Definition admit_ (now : Instant) (additional : Z) (self : PendingGroups) : outcome ProtocolError PendingGroups :=
  admit_loop (media_count (groups self)) now additional self.

Definition insert_stream_packet (now : Instant) (group_seq kypacket_seq : Z) (packet : AVPacket) (self : PendingGroups)
    : outcome ProtocolError PendingGroups :=
  match packet with
  | Media media =>
      _ ← bail_if (negb (is_config (header media))) (invalid "expected video config");
      self ← admit_ now (blen (payload media)) self;
      '(self, index) ← prepare_pending_group group_seq self;
      g ← expect (groups self !! index);
      _ ← bail_if (negb (cfg_is_none (fg_config g))) (invalid "duplicate video group config");
      Ok (with_groups (<[index := with_config (CfgReady {| st_packet := packet; st_seq := kypacket_seq |}) g]> (groups self)) self)
  | _ => Err (invalid "expected video config")
  end.

Definition is_retired (kypacket_seq : Z) (self : PendingGroups) : bool :=
  match retired_through self with Some retired => kypacket_seq <=? retired | None => false end.

Definition insert_datagram (now : Clocks) (group_seq kypacket_seq : Z) (oti : Oti) (payload_id : PayloadId) (data : bytes)
    (self : PendingGroups) : outcome ProtocolError PendingGroups :=
  _ ← validate_oti oti MAX_VIDEO_PAYLOAD;
  if is_retired kypacket_seq self then Ok self
  else
    _ ← bail_if (existsb (λ g, negb (fg_seq g =? group_seq) && contains kypacket_seq g) (groups self))
                (invalid "object changed video group");
    let already_pending := existsb (λ g, (fg_seq g =? group_seq) && contains kypacket_seq g) (groups self) in
    self ← (if already_pending then Ok self else admit_ (at_admit now) (reservation oti) self);
    if negb already_pending && is_retired kypacket_seq self then Ok self
    else
      '(self, index) ← prepare_pending_group group_seq self;
      g ← expect (groups self !! index);
      g ← group_insert_datagram now kypacket_seq oti payload_id data g;
      Ok (with_groups (<[index := g]> (groups self)) self).

(** ** Choosing and taking the next packet *)

Definition min_of_group (g : PendingGroup) : option Instant :=
  foldr (λ d m, min_opt (Some (fd_instant d)) m) None (fg_datagrams g).

(** Minimum over all datagrams of all groups *)
Definition min_instant (gs : list PendingGroup) : option Instant :=
  foldr (λ g m, min_opt (min_of_group g) m) None gs.

Inductive NextPacket :=
| NpNone
| NpReady (pending_group_index : nat) (config : bool)
| NpDeadline (i : Instant).

(** The loop of [next_packet], with its cached minimum *)
Fixpoint next_packet_loop (now next : Z) (all gs : list PendingGroup) (index : nat)
    (cached : option (option Instant)) : NextPacket :=
  match gs with
  | [] => NpNone
  | g :: gs =>
      if cfg_is_none (fg_config g) then next_packet_loop now next all gs (S index) cached
      else
        if match fg_config g with CfgReady p => st_seq p =? next | _ => false end then NpReady index true
        else
          match fg_datagrams g with
          | [] => next_packet_loop now next all gs (S index) cached
          | d :: _ =>
              if fd_seq d =? next then NpReady index (cfg_is_ready (fg_config g))
              else
                let min := match cached with Some c => c | None => min_instant all end in
                match min with
                | Some m =>
                    if m + MAX_BUFFERING <=? now then NpReady index (cfg_is_ready (fg_config g))
                    else NpDeadline (m + MAX_BUFFERING)
                | None => next_packet_loop now next all gs (S index) (Some min)
                end
          end
  end.

Definition next_packet (now next_kypacket_seq : Z) (self : PendingGroups) : NextPacket :=
  next_packet_loop now next_kypacket_seq (groups self) (groups self) 0 None.

Inductive Action :=
| APacket (kypacket_seq : Z) (packet : AVPacket) (stats : VideoFecStats)
| ADeadline (i : Instant)
| ANone.

Definition take_next_packet (now next_kypacket_seq : Z) (self : PendingGroups)
    : outcome ProtocolError (Action * PendingGroups) :=
  match next_packet now next_kypacket_seq self with
  | NpNone => Ok (ANone, self)
  | NpDeadline instant => Ok (ADeadline instant, self)
  | NpReady index config =>
      let stats := foldl (λ st g, accumulate st (discarded_fec_stats g)) (retired_stats self) (take index (groups self)) in
      let gs := drop index (groups self) in
      let left gs := {| groups := gs; retired_through := retired_through self; retired_stats := fec_stats_default |} in
      g ← expect (gs !! 0%nat);
      _ ← rassert (negb (cfg_is_none (fg_config g)));
      if config : bool then
        _ ← rassert (cfg_is_ready (fg_config g));
        '(p, c) ← cfg_consume (fg_config g);
        Ok (APacket (st_seq p) (st_packet p) stats, left (<[0%nat := with_config c g]> gs))
      else
        match fg_datagrams g with
        | [] => Panic
        | d :: ds =>
            let '(g, expired) := drop_expired_segments (fd_seq d) (with_datagrams ds g) in
            Ok (APacket (fd_seq d) (fd_packet d) (accumulate (accumulate stats expired) (fd_stats d)),
                left (<[0%nat := g]> gs))
        end
  end.

(** ** [process] *)

Record Process := {
  group_sequencer : Sequencer;
  kypacket_sequencer : Sequencer;
  pending_groups : PendingGroups;
  next_kypacket_seq : Z;
  deadline : option Instant;
  protocol_stats : ProtocolStats;
  client : list (option Z * AVPacket);  (* packets sent to the client queue, annotated
                                           with the sequence number they were taken under *)
  client_open : bool;                   (* the client still holds its receiver *)
}.

Definition process_init (stats : ProtocolStats) : Process :=
  {| group_sequencer := Sequencer_new; kypacket_sequencer := Sequencer_new; pending_groups := PendingGroups_new;
     next_kypacket_seq := 0; deadline := None; protocol_stats := stats; client := []; client_open := true |}.

Abbreviation processing := (handler Process ProtocolError).

Definition set_sequencers (k g : Sequencer) (s : Process) : Process :=
  {| group_sequencer := g; kypacket_sequencer := k; pending_groups := pending_groups s;
     next_kypacket_seq := next_kypacket_seq s; deadline := deadline s; protocol_stats := protocol_stats s;
     client := client s; client_open := client_open s |}.
Definition set_groups (gs : PendingGroups) (s : Process) : Process :=
  {| group_sequencer := group_sequencer s; kypacket_sequencer := kypacket_sequencer s; pending_groups := gs;
     next_kypacket_seq := next_kypacket_seq s; deadline := deadline s; protocol_stats := protocol_stats s;
     client := client s; client_open := client_open s |}.
Definition set_deadline (d : option Instant) (s : Process) : Process :=
  {| group_sequencer := group_sequencer s; kypacket_sequencer := kypacket_sequencer s;
     pending_groups := pending_groups s; next_kypacket_seq := next_kypacket_seq s; deadline := d;
     protocol_stats := protocol_stats s; client := client s; client_open := client_open s |}.
Definition set_next (k : Z) (st : ProtocolStats) (s : Process) : Process :=
  {| group_sequencer := group_sequencer s; kypacket_sequencer := kypacket_sequencer s;
     pending_groups := pending_groups s; next_kypacket_seq := k; deadline := deadline s;
     protocol_stats := st; client := client s; client_open := client_open s |}.
Definition push_client (p : option Z * AVPacket) (s : Process) : Process :=
  {| group_sequencer := group_sequencer s; kypacket_sequencer := kypacket_sequencer s;
     pending_groups := pending_groups s; next_kypacket_seq := next_kypacket_seq s; deadline := deadline s;
     protocol_stats := protocol_stats s; client := client s ++ [p]; client_open := client_open s |}.

(** [tx_client.send(Ok(packet)).await.map_err(ProtocolError::new)?] *)
Definition send_client (p : option Z * AVPacket) : processing unit := λ s,
  if client_open s then (push_client p s, Ok tt) else (s, Err "channel closed"%string).

(** Both sequencers applied to the numbers of a message *)
Definition unroll (raw_kypacket raw_group : Z) : processing (Z * Z) := λ s,
  let '(k, ks) := seq SeqU32 (kypacket_sequencer s) raw_kypacket in
  let '(g, gs) := seq SeqU32 (group_sequencer s) raw_group in
  (set_sequencers ks gs s, Ok (k, g)).

Definition update_groups (f : PendingGroups → outcome ProtocolError PendingGroups) : processing unit := λ s,
  match f (pending_groups s) with
  | Ok gs => (set_groups gs s, Ok tt)
  | Err e => (s, Err e)
  | Panic => (s, Panic)
  end.

(** What the [select!] yields: a message of the queue or an error of a
    receiving task, the end of the queue, or the deadline *)
Inductive Event := EvMsg (m : RecvMsg) | EvErr (e : ProtocolError) | EvEnd | EvDeadline.

(** How the loop goes on after the [select!] *)
Inductive Flow := Proceed | Continue | Return.

Definition handle_event (now : Clocks) (ev : Event) : processing Flow :=
  match ev with
  | EvMsg (RStream m) =>
      match sm_packet m with
      | Codec _ => _ ← send_client (None, sm_packet m); mret Continue
      | _ =>
          '(k, g) ← unroll (sm_raw_kypacket_seq m) (sm_raw_group_seq m);
          next ← getM next_kypacket_seq;
          if next <=? k then _ ← update_groups (insert_stream_packet (at_admit now) g k (sm_packet m)); mret Proceed
          else mret Proceed
      end
  | EvMsg (RDatagram m) =>
      '(k, g) ← unroll (dm_raw_kypacket_seq m) (dm_raw_group_seq m);
      next ← getM next_kypacket_seq;
      if k <? next then mret Continue
      else
        _ ← update_groups (insert_datagram now g k (dm_oti m) (dm_payload_id m) (dm_data m));
        mret Proceed
  | EvErr e => pureM (Err e)
  | EvEnd => mret Return
  | EvDeadline => mret Proceed
  end.

(** The statistics of a forwarded packet *)
Definition add_fec_stats (st : VideoFecStats) (s : ProtocolStats) : ProtocolStats :=
  if source_symbols st =? 0 then s
  else
    {| dropped_packets := dropped_packets s;
       video_fec_source_symbols := Some (default 0 (video_fec_source_symbols s) + source_symbols st);
       video_fec_source_symbols_missing := Some (default 0 (video_fec_source_symbols_missing s) + missing_source_symbols st);
       video_fec_source_symbols_unrecovered :=
         Some (default 0 (video_fec_source_symbols_unrecovered s) + unrecovered_source_symbols st) |}.

(** One round of the drain loop, which goes on while the result is [true] *)
Definition take_step (now : Instant) : processing bool := λ s,
  match take_next_packet now (next_kypacket_seq s) (pending_groups s) with
  | Err e => (s, Err e)
  | Panic => (s, Panic)
  | Ok (ANone, gs) => (set_deadline None (set_groups gs s), Ok false)
  | Ok (ADeadline instant, gs) => (set_deadline (Some instant) (set_groups gs s), Ok false)
  | Ok (APacket k packet fec, gs) =>
      let stats := add_fec_stats fec (protocol_stats s) in
      let stats := if next_kypacket_seq s <? k then add_dropped (k - next_kypacket_seq s) stats else stats in
      (_ ← send_client (Some k, packet); mret true) (set_next (k + 1) stats (set_groups gs s))
  end.

(** Number of packets that can still be taken *)
Definition deliverable (self : PendingGroups) : nat :=
  sum_list ((λ g, (if cfg_is_ready (fg_config g) then 1 else 0) + length (fg_datagrams g))%nat <$> groups self).

(** The drain loop; round [i] reads the clock [nows i].  Every round but the
    last takes a packet. *)
Fixpoint drain_loop (fuel : nat) (nows : nat → Instant) (round : nat) : processing unit :=
  match fuel with
  | O => pureM Panic
  | S fuel =>
      more ← take_step (nows round);
      if more : bool then drain_loop fuel nows (S round) else mret tt
  end.

Definition drain (nows : nat → Instant) : processing unit := λ s,
  drain_loop (S (deliverable (pending_groups s))) nows 0 s.

(** One round of the loop of [process]; the result tells whether it goes on. *)
Definition step (now : Clocks) (nows : nat → Instant) (ev : Event) : processing bool :=
  flow ← handle_event now ev;
  match flow with
  | Return => mret false
  | Continue => mret true
  | Proceed => _ ← drain nows; mret true
  end.

(** A run of [process] over a sequence of timed events *)
Fixpoint run (evs : list (Clocks * (nat → Instant) * Event)) : processing unit :=
  match evs with
  | [] => mret tt
  | (now, nows, ev) :: evs =>
      continue ← step now nows ev;
      if continue : bool then run evs else mret tt
  end.
End Driver.
