(* ===== verification/VideoFecSafety.v ===== *)
(** * Safety of the video receiver with error correction

    For a peer that sends anything at all: the invariant of the pending groups
    of [VideoUnreliableFec], the admission budget as a bound on every reachable
    state, and the absence of panics. *)

From stdpp Require Import prelude list gmap strings.
From Stdlib Require Import ZArith Lia.
From S2P Require Import Prelude SortedVec Sequencer Io Av Packets Channel Reassembly Fec SystematicCode FecSafety VideoUnreliableFec.
Open Scope Z_scope.

(** ** Sums over vectors updated in place *)

Lemma sum_list_cons {A} (f : A → Z) x l : sum_list_with f (x :: l) = f x + sum_list_with f l.
Proof. done. Qed.

Lemma sum_replace {A} (f : A → Z) l i x y :
  l !! i = Some x → sum_list_with f (<[i := y]> l) = sum_list_with f l - f x + f y.
Proof.
  intros Hx. rewrite (sum_list_perm f _ _ (insert_delete_perm i x y l Hx)), (sum_list_perm f _ _ (delete_Permutation l i x Hx)), !sum_list_cons. lia.
Qed.

Lemma sum_delete {A} (f : A → Z) l i x :
  l !! i = Some x → sum_list_with f (delete i l) = sum_list_with f l - f x.
Proof. intros Hx. rewrite (sum_list_perm f _ _ (delete_Permutation l i x Hx)), !sum_list_cons. lia. Qed.

Lemma sum_vec_insert {A} (f : A → Z) l i x : sum_list_with f (vec_insert i x l) = f x + sum_list_with f l.
Proof. by rewrite vec_insert_perm. Qed.

Lemma sum_drop_le {A} (f : A → Z) l n :
  (∀ x, x ∈ l → 0 ≤ f x) → sum_list_with f (drop n l) ≤ sum_list_with f l.
Proof.
  intros Hf. rewrite <- (take_drop n l) at 2. rewrite sum_list_app.
  assert (0 ≤ sum_list_with f (take n l)); [|lia]. apply sum_list_nonneg. intros x Hx. apply Hf.
  rewrite <- (take_drop n l). set_solver.
Qed.

Section Safety.
Context `{RL : RaptorQLaws}.

(** ** Invariant *)

Definition media_seqs (g : PendingGroup) : list Z := (fs_seq <$> fg_segments g) ++ (fd_seq <$> fg_datagrams g).

Definition wf_segments (s : DatagramSegments) : Prop := wf_decoder MAX_VIDEO_PAYLOAD (fs_decoder s) ∧ assembled s = None.
Definition wf_datagram (d : DatagramPacket) : Prop := acceptable MAX_VIDEO_PAYLOAD (fd_oti d).
Definition wf_config (c : ConfigPacket) : Prop :=
  match c with CfgReady p => ∃ m, st_packet p = Media m ∧ is_config (header m) = true | _ => True end.

Record wf_group (g : PendingGroup) : Prop := {
  wg_datagrams : sorted_by fd_seq (fg_datagrams g);
  wg_segments : sorted_by fs_seq (fg_segments g);
  wg_disjoint d s : d ∈ fg_datagrams g → s ∈ fg_segments g → fd_seq d ≠ fs_seq s;
  wg_wf_datagrams d : d ∈ fg_datagrams g → wf_datagram d;
  wg_wf_segments s : s ∈ fg_segments g → wf_segments s;
  wg_config : wf_config (fg_config g);
}.

Record wf_groups (self : PendingGroups) : Prop := {
  ws_sorted : sorted_by fg_seq (groups self);
  ws_groups g : g ∈ groups self → wf_group g;
  ws_unique g g' k : g ∈ groups self → g' ∈ groups self → k ∈ media_seqs g → k ∈ media_seqs g' → g = g';
  ws_retired g k : g ∈ groups self → k ∈ media_seqs g → is_retired k self = false;
}.

Definition objects (g : PendingGroup) : Z := (usage g).1.
Definition charge (g : PendingGroup) : Z := (usage g).2.
Definition total_objects (self : PendingGroups) : Z := sum_list_with objects (groups self).
Definition total_bytes (self : PendingGroups) : Z := sum_list_with charge (groups self).

(** The admission budget *)
Definition within_budget (self : PendingGroups) : Prop :=
  total_objects self ≤ MAX_PENDING_OBJECTS ∧ total_bytes self ≤ pending_limit MAX_VIDEO_PAYLOAD ∧
  Z.of_nat (length (groups self)) ≤ MAX_PENDING_GROUPS.

Lemma elem_of_media_seqs k g :
  k ∈ media_seqs g ↔ (∃ s, s ∈ fg_segments g ∧ fs_seq s = k) ∨ (∃ d, d ∈ fg_datagrams g ∧ fd_seq d = k).
Proof. unfold media_seqs. rewrite elem_of_app, !list_elem_of_fmap. naive_solver. Qed.

Lemma is_found_spec {A} (key : A → Z) k l :
  sorted_by key l → is_found (binary_search_by_key key k l) = true ↔ ∃ x, x ∈ l ∧ key x = k.
Proof.
  intros Hs. destruct (binary_search_cases key k l Hs) as [(i & x & -> & Hx & Hk)|[-> Hn]]; cbn.
  - split; [|done]. intros _. exists x. split; [by eapply list_elem_of_lookup_2|done].
  - split; [done|]. intros (x & Hx & Hk). rewrite Forall_forall in Hn. by destruct (Hn x).
Qed.

Lemma contains_spec k g : wf_group g → contains k g = true ↔ k ∈ media_seqs g.
Proof.
  intros []. unfold contains. rewrite orb_true_iff, !is_found_spec by done. by rewrite elem_of_media_seqs.
Qed.

Lemma wf_group_new k : wf_group (PendingGroup_new k).
Proof. split; cbn; try constructor; intros; by (exfalso; eapply not_elem_of_nil). Qed.

(** ** Usage *)

Lemma reservation_nonneg {max} oti : acceptable max oti → 0 ≤ reservation oti.
Proof.
  intros Ha. destruct (symbols_cover oti max Ha) as [? _]. destruct Ha as (_ & (_ & ? & ? & _) & _).
  unfold reservation. nia.
Qed.

Definition media_objects (g : PendingGroup) : Z := Z.of_nat (length (fg_segments g)) + Z.of_nat (length (fg_datagrams g)).
Definition media_bytes (g : PendingGroup) : Z :=
  sum_list_with (λ s, reservation (od_oti (fs_decoder s))) (fg_segments g) +
  sum_list_with (λ d, reservation (fd_oti d)) (fg_datagrams g).
Definition config_objects (c : ConfigPacket) : Z :=
  match c with CfgReady {| st_packet := Media _ |} => 1 | _ => 0 end.
Definition config_bytes (c : ConfigPacket) : Z :=
  match c with CfgReady {| st_packet := Media m |} => blen (payload m) | _ => 0 end.

Lemma usage_split g :
  objects g = media_objects g + config_objects (fg_config g) ∧ charge g = media_bytes g + config_bytes (fg_config g).
Proof.
  unfold objects, charge, usage, media_objects, media_bytes, config_objects, config_bytes.
  destruct (fg_config g) as [|[[c|m|h] s]|]; cbn; lia.
Qed.

Lemma usage_nonneg g : wf_group g → 0 ≤ media_objects g ∧ 0 ≤ media_bytes g ∧ 0 ≤ objects g ∧ 0 ≤ charge g.
Proof.
  intros Hg. destruct (usage_split g) as [-> ->].
  assert (0 ≤ media_bytes g).
  { unfold media_bytes. apply Z.add_nonneg_nonneg; apply sum_list_nonneg; intros x Hx; eapply reservation_nonneg.
    - apply (wg_wf_segments g Hg x Hx).
    - apply (wg_wf_datagrams g Hg x Hx). }
  assert (0 ≤ media_objects g) by (unfold media_objects; lia).
  assert (0 ≤ config_objects (fg_config g) ∧ 0 ≤ config_bytes (fg_config g)).
  { unfold config_objects, config_bytes, blen. destruct (fg_config g) as [|[[c|m|h] s]|]; lia. }
  lia.
Qed.

Lemma check_capacity_eq additional self :
  check_capacity additional self = check_pending (total_objects self) (total_bytes self) additional MAX_VIDEO_PAYLOAD.
Proof.
  unfold check_capacity, total_objects, total_bytes.
  assert (Hf : ∀ gs n b, foldl (λ nb g, let '(count, charge) := usage g in (nb.1 + count, nb.2 + charge)) (n, b) gs =
    (n + sum_list_with objects gs, b + sum_list_with charge gs)).
  { induction gs as [|g gs IH]; intros n b; cbn [foldl]; [cbn; f_equal; lia|]. rewrite !sum_list_cons.
    unfold objects at 1, charge at 1. destruct (usage g) as [c w] eqn:Hu. cbn [fst snd]. rewrite IH. f_equal; lia. }
  by rewrite Hf.
Qed.

Lemma check_capacity_Ok additional self u :
  check_capacity additional self = Ok u →
  total_objects self < MAX_PENDING_OBJECTS ∧ total_bytes self + additional ≤ pending_limit MAX_VIDEO_PAYLOAD.
Proof. rewrite check_capacity_eq. unfold check_pending. intros Hc. inv_ok. lia. Qed.

Lemma check_capacity_no_panic additional self : check_capacity additional self ≠ Panic.
Proof. rewrite check_capacity_eq. apply bail_if_no_panic. Qed.

(** ** Retiring media *)

Definition cseq (c : Candidate) : Z := let '(_, _, seq, _) := c in seq.

Definition group_candidates (index : nat) (g : PendingGroup) : list Candidate :=
  option_list ((λ s, (index, false, fs_seq s, created s)) <$> head (fg_segments g)) ++
  option_list ((λ d, (index, true, fd_seq d, fd_instant d)) <$> head (fg_datagrams g)).

Fixpoint candidates (index : nat) (gs : list PendingGroup) : list Candidate :=
  match gs with [] => [] | g :: gs => group_candidates index g ++ candidates (S index) gs end.

Lemma find_oldest_eq index gs oldest : find_oldest index gs oldest = foldl pick_oldest oldest (candidates index gs).
Proof.
  revert index oldest. induction gs as [|g gs IH]; intros index oldest; [done|].
  cbn [find_oldest candidates]. rewrite IH, (foldl_app _ (group_candidates index g)). done.
Qed.

Lemma pick_oldest_min cs oldest :
  match foldl pick_oldest oldest cs with
  | None => oldest = None ∧ cs = []
  | Some c => (oldest = Some c ∨ c ∈ cs) ∧ (∀ o, oldest = Some o → cseq c ≤ cseq o) ∧ (∀ x, x ∈ cs → cseq c ≤ cseq x)
  end.
Proof.
  revert oldest. induction cs as [|x cs IH]; intros oldest; cbn [foldl].
  { destruct oldest as [o|]; [|done]. split_and!; [by left|intros ? [= <-]; lia|intros ? Hx; by apply not_elem_of_nil in Hx]. }
  specialize (IH (pick_oldest oldest x)). destruct (foldl pick_oldest (pick_oldest oldest x) cs) as [c|] eqn:Hf.
  - destruct IH as (H1 & H2 & H3).
    assert (Hp : ∃ o', pick_oldest oldest x = Some o' ∧ (oldest = Some o' ∨ o' = x) ∧ cseq o' ≤ cseq x ∧
                 (∀ o, oldest = Some o → cseq o' ≤ cseq o)).
    { destruct oldest as [[[[i b] q] t]|]; destruct x as [[[i' b'] q'] t']; cbn.
      - destruct (Z.ltb_spec q' q); eexists; (split; [done|]); split_and!; cbn; try lia; eauto;
          intros o [= <-]; cbn; lia.
      - eexists. split; [done|]. split_and!; [by right|cbn; lia|done]. }
    destruct Hp as (o' & Ho' & Hor & Hle & Hall). specialize (H2 o' Ho'). split_and!.
    + destruct H1 as [H1|H1]; [|right; by right]. rewrite Ho' in H1. injection H1 as <-.
      destruct Hor as [?| ->]; [by left|right; left].
    + intros o Ho. specialize (Hall o Ho). lia.
    + intros y [->|Hy]%elem_of_cons; [lia|by apply H3].
  - destruct IH as [IH _]. destruct oldest as [[[[i b] q] t]|]; destruct x as [[[i' b'] q'] t']; cbn in IH; [|done].
    by destruct (q' <? q).
Qed.

(** Where a candidate comes from *)
Definition candidate_of (gs : list PendingGroup) (index : nat) (c : Candidate) : Prop :=
  let '(i, is_datagram, seq, instant) := c in
  ∃ j g, i = (index + j)%nat ∧ gs !! j = Some g ∧
    if is_datagram : bool then ∃ d ds, fg_datagrams g = d :: ds ∧ fd_seq d = seq ∧ fd_instant d = instant
    else ∃ s ss, fg_segments g = s :: ss ∧ fs_seq s = seq ∧ created s = instant.

Lemma candidates_spec index gs c : c ∈ candidates index gs → candidate_of gs index c.
Proof.
  revert index. induction gs as [|g gs IH]; intros index; cbn [candidates]; [by intros ?%not_elem_of_nil|].
  rewrite elem_of_app. intros [Hc|Hc%IH].
  - unfold group_candidates in Hc. apply elem_of_app in Hc as [Hc|Hc].
    + destruct (fg_segments g) as [|s ss] eqn:Hs; [by apply not_elem_of_nil in Hc|]. apply list_elem_of_singleton in Hc as ->.
      exists 0%nat, g. split_and!; [lia|done|]. eauto.
    + destruct (fg_datagrams g) as [|d ds] eqn:Hd; [by apply not_elem_of_nil in Hc|]. apply list_elem_of_singleton in Hc as ->.
      exists 0%nat, g. split_and!; [lia|done|]. eauto.
  - destruct c as [[[i b] q] t]. destruct Hc as (j & g' & -> & Hj & Hr). exists (S j), g'. split_and!; [lia|done|done].
Qed.

Lemma candidates_cover index gs g k :
  g ∈ gs → wf_group g → k ∈ media_seqs g → ∃ c, c ∈ candidates index gs ∧ cseq c ≤ k.
Proof.
  revert index. induction gs as [|x gs IH]; intros index Hg Hwf Hk; [by apply not_elem_of_nil in Hg|].
  cbn [candidates]. apply elem_of_cons in Hg as [->|Hg].
  - assert (Hc : ∃ c, c ∈ group_candidates index x ∧ cseq c ≤ k).
    { apply elem_of_media_seqs in Hk as [(s & Hs & <-)|(d & Hd & <-)]; unfold group_candidates.
      - pose proof (wg_segments x Hwf) as Hso. destruct (fg_segments x) as [|s0 ss]; [by apply not_elem_of_nil in Hs|].
        eexists. split; [left|]. cbn. apply sorted_cons in Hso as [_ Hlt]. rewrite Forall_forall in Hlt.
        apply elem_of_cons in Hs as [->|Hs]; [lia|]. specialize (Hlt s Hs). cbn in Hlt. lia.
      - pose proof (wg_datagrams x Hwf) as Hso. destruct (fg_datagrams x) as [|d0 ds]; [by apply not_elem_of_nil in Hd|].
        exists (index, true, fd_seq d0, fd_instant d0). split; [cbn; set_solver|]. cbn.
        apply sorted_cons in Hso as [_ Hlt]. rewrite Forall_forall in Hlt.
        apply elem_of_cons in Hd as [->|Hd]; [lia|]. specialize (Hlt d Hd). cbn in Hlt. lia. }
    destruct Hc as (c & Hc & Hle). exists c. split; [|done]. apply elem_of_app. by left.
  - destruct (IH (S index) Hg Hwf Hk) as (c & Hc & Hle). exists c. split; [|done]. apply elem_of_app. by right.
Qed.

Lemma sorted_NoDup {A} (key : A → Z) l : sorted_by key l → NoDup (key <$> l).
Proof.
  induction l as [|z l IH]; [constructor|]. intros [Hs Hz]%sorted_cons. rewrite fmap_cons. constructor; [|by apply IH].
  rewrite list_elem_of_fmap. intros (w & Hw & Hin). rewrite Forall_forall in Hz. specialize (Hz w Hin). cbn in Hz. lia.
Qed.

Lemma media_seqs_NoDup g : wf_group g → NoDup (media_seqs g).
Proof.
  intros []. apply NoDup_app. split_and!; [by apply sorted_NoDup| |by apply sorted_NoDup].
  intros k (s & -> & Hs)%list_elem_of_fmap (d & Hk & Hd)%list_elem_of_fmap. by destruct (wg_disjoint0 d s Hd Hs).
Qed.

(** What a group is after its oldest media left *)
Record loses_one (seq : Z) (g g1 : PendingGroup) : Prop := {
  lo_wf : wf_group g1;
  lo_seq : fg_seq g1 = fg_seq g;
  lo_config : fg_config g1 = fg_config g;
  lo_media : media_seqs g ≡ₚ seq :: media_seqs g1;
  lo_segments s : s ∈ fg_segments g1 → s ∈ fg_segments g;
  lo_datagrams d : d ∈ fg_datagrams g1 → d ∈ fg_datagrams g;
  lo_objects : objects g1 = objects g - 1;
  lo_bytes : charge g1 ≤ charge g;
}.

Lemma retire_from_spec (is_datagram : bool) seq instant g :
  wf_group g →
  (if is_datagram then ∃ d ds, fg_datagrams g = d :: ds ∧ fd_seq d = seq ∧ fd_instant d = instant
   else ∃ s ss, fg_segments g = s :: ss ∧ fs_seq s = seq ∧ created s = instant) →
  ∃ g1 st, retire_from is_datagram g = Ok (g1, st) ∧ loses_one seq g g1 ∧
    (∀ s, s ∈ fg_segments g → s ∈ fg_segments g1 ∨ created s = instant) ∧
    (∀ d, d ∈ fg_datagrams g → d ∈ fg_datagrams g1 ∨ fd_instant d = instant).
Proof.
  intros Hg. destruct (usage_split g) as [Ho Hc]. destruct Hg as [Hd Hs Hdis Hwd Hws Hcfg]. destruct is_datagram.
  - intros (d & ds & Heq & <- & <-). unfold retire_from. rewrite Heq in *. eexists _, _. split; [done|].
    apply sorted_cons in Hd as [Hd _]. split.
    + split; cbn; [|done|done| |done|intros x Hx; rewrite Heq; by right| |].
      * split; cbn; [done|done| | |done|done].
        -- intros d' s Hd' Hs'. apply Hdis; [by right|done].
        -- intros d' Hd'. apply Hwd. by right.
      * unfold media_seqs. rewrite Heq. cbn. by rewrite <- Permutation_middle.
      * destruct (usage_split (with_datagrams ds g)) as [-> _]. rewrite Ho. unfold media_objects. rewrite Heq. cbn. lia.
      * destruct (usage_split (with_datagrams ds g)) as [_ ->]. rewrite Hc. unfold media_bytes. rewrite Heq, sum_list_cons.
        cbn [with_datagrams with_segments fg_segments fg_datagrams fg_config].
        pose proof (reservation_nonneg (fd_oti d) (Hwd d ltac:(left))). lia.
    + split; [by left|]. intros x [->|Hx]%elem_of_cons; [by right|by left].
  - intros (s & ss & Heq & <- & <-). unfold retire_from. rewrite Heq in *. eexists _, _. split; [done|].
    apply sorted_cons in Hs as [Hs _]. split.
    + split; cbn; [|done|done| |intros x Hx; rewrite Heq; by right|done| |].
      * split; cbn; [done|done| |done| |done].
        -- intros d' s' Hd' Hs'. apply Hdis; [done|by right].
        -- intros d' Hd'. apply Hws. by right.
      * unfold media_seqs. by rewrite Heq.
      * destruct (usage_split (with_segments ss g)) as [-> _]. rewrite Ho. unfold media_objects. rewrite Heq. cbn. lia.
      * destruct (usage_split (with_segments ss g)) as [_ ->]. rewrite Hc. unfold media_bytes. rewrite Heq, sum_list_cons.
        cbn [with_datagrams with_segments fg_segments fg_datagrams fg_config].
        pose proof (reservation_nonneg _ (wd_oti _ _ (proj1 (Hws s ltac:(left))))). lia.
    + split; [|by left]. intros x [->|Hx]%elem_of_cons; [by right|by left].
Qed.

(** [self'] is [self] without some media that was stale at [now]; no config
    is lost. *)
Record shrinks (now : Instant) (self self' : PendingGroups) : Prop := {
  sh_from g' : g' ∈ groups self' → ∃ g, g ∈ groups self ∧ fg_seq g' = fg_seq g ∧ fg_config g' = fg_config g ∧
    (∀ s, s ∈ fg_segments g' → s ∈ fg_segments g) ∧ (∀ d, d ∈ fg_datagrams g' → d ∈ fg_datagrams g);
  sh_config g : g ∈ groups self → fg_config g ≠ CfgNone →
    ∃ g', g' ∈ groups self' ∧ fg_seq g' = fg_seq g ∧ fg_config g' = fg_config g;
  sh_segments g s : g ∈ groups self → s ∈ fg_segments g →
    (∃ g', g' ∈ groups self' ∧ fg_seq g' = fg_seq g ∧ s ∈ fg_segments g') ∨ created s + MAX_BUFFERING ≤ now;
  sh_datagrams g d : g ∈ groups self → d ∈ fg_datagrams g →
    (∃ g', g' ∈ groups self' ∧ fg_seq g' = fg_seq g ∧ d ∈ fg_datagrams g') ∨ fd_instant d + MAX_BUFFERING ≤ now;
  sh_retired k : is_retired k self = true → is_retired k self' = true;
}.

#[export] Instance shrinks_refl now : Reflexive (shrinks now).
Proof. intros self. split; eauto 10. Qed.

#[export] Instance shrinks_trans now : Transitive (shrinks now).
Proof.
  intros a b c [F1 C1 S1 D1 R1] [F2 C2 S2 D2 R2]. split.
  - intros g'' (g' & Hg' & ? & ? & ? & ?)%F2. destruct (F1 g' Hg') as (g & Hg & ? & ? & ? & ?).
    exists g. split_and!; [done|congruence|congruence|auto|auto].
  - intros g Hg Hn. destruct (C1 g Hg Hn) as (g' & Hg' & ? & Hc). destruct (C2 g' Hg') as (g'' & ? & ? & ?); [by rewrite Hc|].
    exists g''. split_and!; [done|congruence|congruence].
  - intros g s Hg Hs. destruct (S1 g s Hg Hs) as [(g' & Hg' & ? & Hs')|]; [|by right].
    destruct (S2 g' s Hg' Hs') as [(g'' & ? & ? & ?)|]; [|by right]. left. exists g''. split_and!; [done|congruence|done].
  - intros g d Hg Hd. destruct (D1 g d Hg Hd) as [(g' & Hg' & ? & Hd')|]; [|by right].
    destruct (D2 g' d Hg' Hd') as [(g'' & ? & ? & ?)|]; [|by right]. left. exists g''. split_and!; [done|congruence|done].
  - auto.
Qed.

Lemma group_is_empty_spec g :
  group_is_empty g = true → fg_config g = CfgNone ∧ media_seqs g = [] ∧ fg_segments g = [] ∧ fg_datagrams g = [].
Proof.
  unfold group_is_empty, media_seqs. intros [Hc Hm]%andb_true_iff.
  destruct (fg_config g), (fg_segments g), (fg_datagrams g); done.
Qed.

(** The groups after a retirement: the touched one, unless it became empty,
    and the others. *)
Lemma retired_groups_perm (gs : list PendingGroup) i g g1 :
  gs !! i = Some g →
  (if group_is_empty g1 then delete i gs else <[i := g1]> gs) ≡ₚ (if group_is_empty g1 then [] else [g1]) ++ delete i gs.
Proof. intros Hi. destruct (group_is_empty g1); [done|]. by apply (insert_delete_perm i g). Qed.

(** What one retirement does *)
Record retires (now : Instant) (self self' : PendingGroups) : Prop := {
  re_wf : wf_groups self';
  re_shrinks : shrinks now self self';
  re_objects : total_objects self' = total_objects self - 1;
  re_bytes : total_bytes self' ≤ total_bytes self;
  re_length : (length (groups self') ≤ length (groups self))%nat;
  re_count : media_count (groups self) = S (media_count (groups self'));
}.

Lemma media_count_perm gs gs' : gs ≡ₚ gs' → media_count gs = media_count gs'.
Proof. unfold media_count. induction 1; cbn in *; lia. Qed.

Lemma media_seqs_length g : length (media_seqs g) = (length (fg_segments g) + length (fg_datagrams g))%nat.
Proof. unfold media_seqs. by rewrite length_app, !length_fmap. Qed.

Section Retire.
Context (now : Instant) (self : PendingGroups) (i : nat) (g g1 : PendingGroup) (seq : Z) (st : VideoFecStats).
Hypothesis Hwf : wf_groups self.
Hypothesis Hi : groups self !! i = Some g.
Hypothesis Hlo : loses_one seq g g1.
Hypothesis Hmin : ∀ g' k, g' ∈ groups self → k ∈ media_seqs g' → seq ≤ k.

Definition retired_self : PendingGroups :=
  {| groups := if group_is_empty g1 then delete i (groups self) else <[i := g1]> (groups self);
     retired_through := Some (match retired_through self with Some r => Z.max r seq | None => seq end);
     retired_stats := accumulate (retired_stats self) st |}.

Lemma in_group : g ∈ groups self.
Proof. by eapply list_elem_of_lookup_2. Qed.

Lemma other_group x : x ∈ delete i (groups self) → x ∈ groups self ∧ fg_seq x ≠ fg_seq g.
Proof. intros Hx. eapply (elem_of_delete_neq fg_seq); [apply Hwf|done|done]. Qed.

Lemma elem_of_retired x : x ∈ groups retired_self → x = g1 ∨ x ∈ delete i (groups self).
Proof.
  cbn. rewrite (elem_of_Permutation_proper _ _ _ (retired_groups_perm _ _ _ _ Hi)). rewrite elem_of_app.
  destruct (group_is_empty g1); set_solver.
Qed.

Lemma touched_media k : k ∈ media_seqs g1 → k ∈ media_seqs g ∧ k ≠ seq.
Proof.
  intros Hk. pose proof (media_seqs_NoDup g (ws_groups self Hwf g in_group)) as Hnd. rewrite (lo_media _ _ _ Hlo) in Hnd |- *.
  apply NoDup_cons in Hnd as [Hn _]. split; [by right|]. intros ->. done.
Qed.

Lemma other_unique x k : x ∈ delete i (groups self) → k ∈ media_seqs x → k ∉ media_seqs g.
Proof.
  intros [Hx Hne]%other_group Hk Hkg. by rewrite (ws_unique self Hwf g x k in_group Hx Hkg Hk) in Hne.
Qed.

Lemma retired_wf : wf_groups retired_self.
Proof.
  split.
  - cbn. destruct (group_is_empty g1); [apply sorted_delete; apply Hwf|].
    eapply sorted_replace; [apply Hwf|done|apply Hlo].
  - intros x [->|[Hx _]%other_group]%elem_of_retired; [apply Hlo|by apply Hwf].
  - intros x y k [->|Hx]%elem_of_retired [->|Hy]%elem_of_retired Hkx Hky; [done| | |].
    + apply touched_media in Hkx as [Hkx _]. by destruct (other_unique y k Hy Hky).
    + apply touched_media in Hky as [Hky _]. by destruct (other_unique x k Hx Hkx).
    + apply (ws_unique self Hwf x y k); [by apply other_group..|done|done].
  - intros x k Hx Hk.
    assert (Hk2 : is_retired k self = false ∧ seq < k).
    { apply elem_of_retired in Hx as [->|Hx].
      - apply touched_media in Hk as [Hk Hne]. split; [apply (ws_retired self Hwf g); [apply in_group|done]|].
        pose proof (Hmin g k in_group Hk). lia.
      - pose proof (other_unique x k Hx Hk) as Hng. apply other_group in Hx as [Hx _].
        split; [by eapply ws_retired|]. pose proof (Hmin x k Hx Hk).
        destruct (decide (k = seq)) as [->|]; [|lia]. destruct Hng. rewrite (lo_media _ _ _ Hlo). left. }
    unfold is_retired in *. cbn. destruct (retired_through self); lia.
Qed.

Lemma retired_totals :
  total_objects retired_self = total_objects self - 1 ∧ total_bytes retired_self ≤ total_bytes self ∧
  (length (groups retired_self) ≤ length (groups self))%nat ∧
  media_count (groups self) = S (media_count (groups retired_self)).
Proof.
  pose proof (retired_groups_perm _ _ _ g1 Hi) as Hp. pose proof (delete_Permutation _ _ _ Hi) as Hp0.
  unfold total_objects, total_bytes. cbn [groups retired_self].
  rewrite (sum_list_perm objects _ _ Hp), (sum_list_perm charge _ _ Hp), (sum_list_perm objects _ _ Hp0),
    (sum_list_perm charge _ _ Hp0), (Permutation_length Hp), (Permutation_length Hp0), (media_count_perm _ _ Hp),
    (media_count_perm _ _ Hp0), !sum_list_app, !sum_list_cons, length_app.
  destruct Hlo as [Hwf1 _ Hcfg Hmed _ _ Hob Hby]. pose proof (Permutation_length Hmed) as Hlen. cbn in Hlen.
  rewrite !media_seqs_length in Hlen. pose proof (usage_nonneg g1 Hwf1).
  destruct (group_is_empty g1) eqn:He; cbn; [|unfold media_count in *; cbn; lia].
  apply group_is_empty_spec in He as (Hc & _ & Hs & Hd).
  assert (objects g1 = 0) by (destruct (usage_split g1) as [-> _]; unfold media_objects, config_objects; rewrite Hs, Hd, Hc; done).
  unfold media_count in *. cbn. rewrite Hs, Hd in Hlen. cbn in Hlen. lia.
Qed.

Lemma retired_shrinks :
  (∀ s, s ∈ fg_segments g → s ∈ fg_segments g1 ∨ created s + MAX_BUFFERING ≤ now) →
  (∀ d, d ∈ fg_datagrams g → d ∈ fg_datagrams g1 ∨ fd_instant d + MAX_BUFFERING ≤ now) →
  shrinks now self retired_self.
Proof.
  intros Hsegs Hdgs.
  assert (Hin : ∀ x, x ∈ groups self → x = g ∨ x ∈ groups retired_self).
  { intros x Hx. rewrite (elem_of_Permutation_proper x _ _ (delete_Permutation _ _ _ Hi)) in Hx.
    apply elem_of_cons in Hx as [->|Hx]; [by left|right]. cbn.
    rewrite (elem_of_Permutation_proper _ _ _ (retired_groups_perm _ _ _ _ Hi)), elem_of_app. by right. }
  assert (Hg1 : group_is_empty g1 = false → g1 ∈ groups retired_self).
  { intros He. cbn. rewrite (elem_of_Permutation_proper _ _ _ (retired_groups_perm _ _ _ _ Hi)), He. left. }
  pose proof (group_is_empty_spec g1) as Hemp. split.
  - intros x [->|[Hx _]%other_group]%elem_of_retired; [|eauto 10]. exists g. destruct Hlo. eauto 10 using in_group.
  - intros x [->|Hx]%Hin Hn; [|eauto]. exists g1. destruct Hlo. split_and!; [|done|done].
    apply Hg1. destruct (group_is_empty g1); [|done]. destruct Hemp as [Hc _]; [done|]. congruence.
  - intros x s [->|Hx]%Hin Hs; [|eauto]. destruct (Hsegs s Hs) as [Hs1|]; [|by right]. left. exists g1.
    split_and!; [|apply Hlo|done]. apply Hg1. destruct (group_is_empty g1); [|done]. destruct Hemp as (_ & _ & Hnil & _); [done|].
    rewrite Hnil in Hs1. by apply not_elem_of_nil in Hs1.
  - intros x d [->|Hx]%Hin Hd; [|eauto]. destruct (Hdgs d Hd) as [Hd1|]; [|by right]. left. exists g1.
    split_and!; [|apply Hlo|done]. apply Hg1. destruct (group_is_empty g1); [|done]. destruct Hemp as (_ & _ & _ & Hnil); [done|].
    rewrite Hnil in Hd1. by apply not_elem_of_nil in Hd1.
  - intros k. unfold is_retired. cbn. destruct (retired_through self); lia.
Qed.
End Retire.

Lemma retire_oldest_media_spec now self :
  wf_groups self →
  ∃ r, retire_oldest_media now self = Ok r ∧ match r with Some self' => retires now self self' | None => True end.
Proof.
  intros Hwf. unfold retire_oldest_media. rewrite find_oldest_eq.
  pose proof (pick_oldest_min (candidates 0 (groups self)) None) as Hp.
  destruct (foldl pick_oldest None (candidates 0 (groups self))) as [[[[i b] q] t]|]; [|by eexists].
  destruct Hp as ([?|Hc] & _ & Hle); [done|]. destruct (Z.ltb_spec now (t + MAX_BUFFERING)) as [|Ht]; [by eexists|].
  apply candidates_spec in Hc as (j & g & -> & Hj & Hb). cbn [Nat.add]. rewrite Hj. cbn [expect mbind outcome_bind].
  assert (Hg : g ∈ groups self) by (by eapply list_elem_of_lookup_2).
  destruct (retire_from_spec b q t g (ws_groups self Hwf g Hg) Hb) as (g1 & st & -> & Hlo & Hs & Hd).
  cbn [mbind outcome_bind]. eexists. split; [done|].
  assert (Hmin : ∀ g' k, g' ∈ groups self → k ∈ media_seqs g' → q ≤ k).
  { intros g' k Hg' Hk. destruct (candidates_cover 0 (groups self) g' k Hg' (ws_groups self Hwf g' Hg') Hk) as (c & Hc & ?).
    specialize (Hle c Hc). cbn in Hle. lia. }
  destruct (retired_totals self j g g1 q st Hj Hlo) as (? & ? & ? & ?).
  fold (retired_self self j g1 q st). split; [by eapply retired_wf| |done|done|done|done].
  eapply retired_shrinks; try done.
  - intros s [?| ->]%Hs; [by left|right; lia].
  - intros d [?| ->]%Hd; [by left|right; lia].
Qed.

(** ** Admission *)

Lemma admit_loop_spec fuel now additional self :
  wf_groups self → (media_count (groups self) ≤ fuel)%nat →
  match admit_loop fuel now additional self with
  | Ok self' =>
      wf_groups self' ∧ shrinks now self self' ∧ total_objects self' < MAX_PENDING_OBJECTS ∧
      total_bytes self' + additional ≤ pending_limit MAX_VIDEO_PAYLOAD ∧ (length (groups self') ≤ length (groups self))%nat
  | Err _ => True
  | Panic => False
  end.
Proof.
  revert self. induction fuel as [|fuel IH]; intros self Hwf Hf; cbn [admit_loop];
    (destruct (check_capacity additional self) as [u|e|] eqn:Hc;
     [apply check_capacity_Ok in Hc as [? ?]; split_and!; [done|reflexivity|done|done|lia]| |by apply check_capacity_no_panic in Hc]);
    destruct (retire_oldest_media_spec now self Hwf) as ([self'|] & -> & Hr); cbn [mbind outcome_bind]; try done.
  - pose proof (re_count _ _ _ Hr). lia.
  - destruct Hr. specialize (IH self' re_wf0 ltac:(lia)). destruct (admit_loop fuel now additional self') as [s2|e2|]; [|done|done].
    destruct IH as (? & ? & ? & ? & ?). split_and!; [done|by etrans|done|done|lia].
Qed.

Lemma admit_spec now additional self :
  wf_groups self →
  match admit_ now additional self with
  | Ok self' =>
      wf_groups self' ∧ shrinks now self self' ∧ total_objects self' < MAX_PENDING_OBJECTS ∧
      total_bytes self' + additional ≤ pending_limit MAX_VIDEO_PAYLOAD ∧ (length (groups self') ≤ length (groups self))%nat
  | Err _ => True
  | Panic => False
  end.
Proof. intros Hwf. by apply admit_loop_spec. Qed.

Lemma shrinks_media now self self' k :
  shrinks now self self' → (∀ g, g ∈ groups self → k ∉ media_seqs g) → ∀ g, g ∈ groups self' → k ∉ media_seqs g.
Proof.
  intros Hsh Hno g' Hg' Hk. destruct (sh_from _ _ _ Hsh g' Hg') as (g & Hg & _ & _ & Hs & Hd). apply (Hno g Hg).
  apply elem_of_media_seqs in Hk as [(s & ? & ?)|(d & ? & ?)]; apply elem_of_media_seqs; [left|right]; eauto.
Qed.

(** ** Preparing a group *)

Lemma fec_prepare_group_spec gseq self :
  wf_groups self →
  match prepare_pending_group gseq self with
  | Ok (self', i) =>
      wf_groups self' ∧ total_objects self' = total_objects self ∧ total_bytes self' = total_bytes self ∧
      retired_through self' = retired_through self ∧ (∀ g, g ∈ groups self → g ∈ groups self') ∧
      (∀ g, g ∈ groups self' → g ∈ groups self ∨ g = PendingGroup_new gseq) ∧
      (Z.of_nat (length (groups self)) ≤ MAX_PENDING_GROUPS → Z.of_nat (length (groups self')) ≤ MAX_PENDING_GROUPS) ∧
      ∃ g, groups self' !! i = Some g ∧ fg_seq g = gseq
  | Err _ => True
  | Panic => False
  end.
Proof.
  intros Hwf. unfold prepare_pending_group.
  destruct (binary_search_cases fg_seq gseq (groups self) (ws_sorted _ Hwf)) as [(i & g & -> & Hi & Hk)|[-> Hn]].
  { split_and!; eauto. }
  unfold bail_if. destruct (Z.leb_spec MAX_PENDING_GROUPS (Z.of_nat (length (groups self)))) as [|Hlt]; [done|].
  cbn [mbind outcome_bind].
  assert (Hel : ∀ g, g ∈ vec_insert (lower_bound fg_seq gseq (groups self)) (PendingGroup_new gseq) (groups self) ↔
                g = PendingGroup_new gseq ∨ g ∈ groups self).
  { intros g. rewrite (elem_of_Permutation_proper g _ _ (vec_insert_perm _ _ _)). apply elem_of_cons. }
  assert (Hnew : ∀ k, k ∉ media_seqs (PendingGroup_new gseq)) by (intros k; apply not_elem_of_nil).
  split_and!; unfold total_objects, total_bytes; cbn [groups with_groups retired_through].
  - split; cbn [groups with_groups].
    + apply sorted_vec_insert; [apply Hwf|done|done].
    + intros g [->|Hg]%Hel; [apply wf_group_new|by apply Hwf].
    + intros g g' k [->|Hg]%Hel [->|Hg']%Hel Hk Hk'; [done|by apply Hnew in Hk|by apply Hnew in Hk'|by eapply ws_unique].
    + intros g k [->|Hg]%Hel Hk; [by apply Hnew in Hk|]. by apply (ws_retired self Hwf g).
  - by rewrite sum_vec_insert.
  - by rewrite sum_vec_insert.
  - done.
  - intros g Hg. apply Hel. by right.
  - intros g [->|Hg]%Hel; [by right|by left].
  - rewrite vec_insert_length. lia.
  - exists (PendingGroup_new gseq). split; [|done]. apply vec_insert_lookup, lower_bound_le.
Qed.

(** ** Inserting a symbol in a group *)

Lemma media_packet_no_panic data : media_packet data ≠ Panic.
Proof.
  unfold media_packet. apply bind_no_panic; [apply bail_if_no_panic|]. intros [] Hok. apply bail_if_Ok in Hok.
  apply bind_no_panic; [|intros h _; apply bind_no_panic; [apply bail_if_no_panic|done]].
  rewrite MEDIA_HEADER_eq in Hok. unfold media_deserialize, blen in *.
  assert (length (take SERIALIZED_SIZE data) = SERIALIZED_SIZE) as Hl by (rewrite length_take; unfold SERIALIZED_SIZE; lia).
  rewrite bool_decide_true by done. cbn [rassert mbind outcome_bind].
  assert (byte_at 0 (take SERIALIZED_SIZE data) = byte_at 0 data) as -> by (destruct data; done).
  destruct (Z.land (byte_at 0 data) 128 =? 0); [lia|done].
Qed.

Lemma add_packet_spec oti id data s :
  wf_segments s →
  match add_packet oti id data s with
  | Ok s' => wf_decoder MAX_VIDEO_PAYLOAD (fs_decoder s') ∧ fs_seq s' = fs_seq s ∧ created s' = created s ∧
             od_oti (fs_decoder s') = od_oti (fs_decoder s) ∧ od_oti (fs_decoder s') = oti
  | Err _ => True
  | Panic => False
  end.
Proof.
  intros [Hd _]. unfold add_packet. pose proof (decode_wf MAX_VIDEO_PAYLOAD oti id data (fs_decoder s) Hd) as Hdec.
  destruct (ObjectDecoder_decode oti id data (fs_decoder s)) as [[d out]|e|]; [|done|done]. cbn.
  destruct Hdec as (? & ? & ? & _). split_and!; [done|done|done|done|congruence].
Qed.

(** The segments a symbol goes to: those of the packet if it has some already,
    new ones otherwise. *)
Lemma prepare_segments_spec now k oti g :
  wf_group g → acceptable MAX_VIDEO_PAYLOAD oti →
  ∃ S1 i s, prepare_datagram_segments now k oti g = Ok (with_segments S1 g, i) ∧ S1 !! i = Some s ∧ fs_seq s = k ∧
    sorted_by fs_seq S1 ∧ wf_segments s ∧
    ((∃ s0, s0 ∈ fg_segments g ∧ fs_seq s0 = k ∧ S1 = fg_segments g) ∨
     (Forall (λ x, fs_seq x ≠ k) (fg_segments g) ∧ S1 ≡ₚ s :: fg_segments g ∧ od_oti (fs_decoder s) = oti)).
Proof.
  intros Hg Ha. unfold prepare_datagram_segments.
  destruct (binary_search_cases fs_seq k (fg_segments g) (wg_segments _ Hg)) as [(i & s & -> & Hi & Hk)|[-> Hn]].
  - assert (Hs : s ∈ fg_segments g) by (by eapply list_elem_of_lookup_2).
    exists (fg_segments g), i, s. split_and!; [by destruct g|done|done|apply Hg|by apply Hg|]. left. eauto.
  - unfold DatagramSegments_new. pose proof (ObjectDecoder_new_wf oti MAX_VIDEO_PAYLOAD) as Hnew.
    destruct (ObjectDecoder_new oti MAX_VIDEO_PAYLOAD) as [d|e|]; [|by apply validate_oti_iff in Ha|done].
    destruct Hnew as (Hd & Ho & _). cbn [mbind outcome_bind]. eexists _, _, _. split_and!; [done|apply vec_insert_lookup, lower_bound_le|done| |done|].
    + apply sorted_vec_insert; [apply Hg|done|done].
    + right. split_and!; [done|apply vec_insert_perm|done].
Qed.

(** What inserting a symbol of packet [k] makes of a group *)
Record receives (k : Z) (oti : Oti) (g g' : PendingGroup) : Prop := {
  rc_wf : wf_group g';
  rc_seq : fg_seq g' = fg_seq g;
  rc_config : fg_config g' = fg_config g;
  rc_media x : x ∈ media_seqs g' → x = k ∨ x ∈ media_seqs g;
  rc_objects : objects g' = objects g + (if bool_decide (k ∈ media_seqs g) then 0 else 1);
  rc_bytes : charge g' = charge g + (if bool_decide (k ∈ media_seqs g) then 0 else reservation oti);
}.

Section Insert.
Context (g : PendingGroup) (k : Z) (oti : Oti) (S1 : list DatagramSegments) (i : nat) (s s' : DatagramSegments).
Hypothesis Hg : wf_group g.
Hypothesis Hn : Forall (λ d, fd_seq d ≠ k) (fg_datagrams g).
Hypothesis Hi : S1 !! i = Some s.
Hypothesis Hsk : fs_seq s = k.
Hypothesis HS1 : sorted_by fs_seq S1.
Hypothesis Hcase : (∃ s0, s0 ∈ fg_segments g ∧ fs_seq s0 = k ∧ S1 = fg_segments g) ∨
     (Forall (λ x, fs_seq x ≠ k) (fg_segments g) ∧ S1 ≡ₚ s :: fg_segments g ∧ od_oti (fs_decoder s) = oti).
Hypothesis Hwf' : wf_decoder MAX_VIDEO_PAYLOAD (fs_decoder s').
Hypothesis Hsk' : fs_seq s' = fs_seq s.
Hypothesis Hoti' : od_oti (fs_decoder s') = od_oti (fs_decoder s).
Hypothesis Hoti : od_oti (fs_decoder s') = oti.

Lemma others x : x ∈ delete i S1 → x ∈ fg_segments g ∧ fs_seq x ≠ k.
Proof.
  intros Hx. destruct (elem_of_delete_neq fs_seq S1 i s x HS1 Hi Hx) as [Hx1 Hne]. rewrite Hsk in Hne.
  split; [|done]. destruct Hcase as [(_ & _ & _ & ->)|(_ & Hp & _)]; [done|].
  rewrite (elem_of_Permutation_proper x _ _ Hp) in Hx1. apply elem_of_cons in Hx1 as [->|?]; [congruence|done].
Qed.

(** The change in the number of segments and in their reservations *)
Lemma others_usage :
  let fresh := if bool_decide (k ∈ media_seqs g) then 0 else 1 in
  Z.of_nat (length (delete i S1)) = Z.of_nat (length (fg_segments g)) + fresh - 1 ∧
  sum_list_with (λ s, reservation (od_oti (fs_decoder s))) (delete i S1) =
    sum_list_with (λ s, reservation (od_oti (fs_decoder s))) (fg_segments g) + fresh * reservation oti - reservation oti.
Proof.
  pose proof (delete_Permutation S1 i s Hi) as Hd. pose proof (Permutation_length Hd) as Hl. cbn [length] in Hl.
  pose proof (sum_list_perm (λ s, reservation (od_oti (fs_decoder s))) _ _ Hd) as Hsum. rewrite sum_list_cons in Hsum.
  assert (Ho : od_oti (fs_decoder s) = oti) by congruence. rewrite Ho in Hsum.
  destruct Hcase as [(s0 & Hs0 & Hk0 & ->)|(Hns & Hp & _)].
  - rewrite bool_decide_true by (apply elem_of_media_seqs; left; eauto). cbn zeta. lia.
  - assert (k ∉ media_seqs g).
    { rewrite Forall_forall in Hns. pose proof (proj1 (Forall_forall _ _) Hn) as Hnd. intros [(x & Hx & Hxk)|(x & Hx & Hxk)]%elem_of_media_seqs;
        [by destruct (Hns x)|by destruct (Hnd x)]. }
    rewrite bool_decide_false by done. cbn zeta. pose proof (Permutation_length Hp) as Hl2. cbn [length] in Hl2.
    pose proof (sum_list_perm (λ s, reservation (od_oti (fs_decoder s))) _ _ Hp) as Hsum2. rewrite sum_list_cons, Ho in Hsum2. lia.
Qed.

Lemma keep_incomplete :
  assembled s' = None → receives k oti g (with_segments (<[i := s']> S1) g).
Proof.
  intros Hnone. destruct others_usage as [Hlen Hsum]. pose proof (insert_delete_perm i s s' S1 Hi) as Hp.
  assert (Hin : ∀ x, x ∈ <[i := s']> S1 → x = s' ∨ (x ∈ fg_segments g ∧ fs_seq x ≠ k)).
  { intros x Hx. rewrite (elem_of_Permutation_proper x _ _ Hp) in Hx. apply elem_of_cons in Hx as [->|Hx%others]; [by left|by right]. }
  destruct (usage_split g) as [Ho Hc]. rewrite Forall_forall in Hn. split; cbn [with_segments fg_seq fg_config].
  - destruct Hg. split; cbn; [done| | |done| |done].
    + by eapply sorted_replace.
    + intros d x Hd [->|[Hx _]]%Hin; [rewrite Hsk', Hsk; by apply Hn|by apply wg_disjoint0].
    + intros x [->|[Hx _]]%Hin; [done|by apply wg_wf_segments0].
  - done.
  - done.
  - intros x [(y & [->|[Hy _]]%Hin & <-)|(d & Hd & <-)]%elem_of_media_seqs; [left; congruence|right; apply elem_of_media_seqs; eauto..].
  - destruct (usage_split (with_segments (<[i := s']> S1) g)) as [-> _]. rewrite Ho. unfold media_objects. cbn.
    rewrite (Permutation_length Hp). cbn [length]. lia.
  - destruct (usage_split (with_segments (<[i := s']> S1) g)) as [_ ->]. rewrite Hc. unfold media_bytes.
    cbn [with_segments fg_segments fg_datagrams fg_config].
    rewrite (sum_list_perm _ _ _ Hp), sum_list_cons, Hoti. destruct (bool_decide (k ∈ media_seqs g)); lia.
Qed.

Lemma complete_packet p :
  fd_seq p = k → fd_oti p = oti →
  receives k oti g (insert_datagram_packet p (with_segments (delete i (<[i := s']> S1)) g)).
Proof.
  intros Hpk Hpo. destruct others_usage as [Hlen Hsum].
  assert (Hdel : delete i (<[i := s']> S1) ≡ₚ delete i S1).
  { apply (Permutation_cons_inv (a := s')). rewrite <- (insert_delete_perm i s s' S1 Hi).
    symmetry. apply delete_Permutation. apply list_lookup_insert_eq. by eapply lookup_lt_Some. }
  set (g0 := with_segments (delete i (<[i := s']> S1)) g).
  assert (Hins : ∃ ds, insert_datagram_packet p g0 = with_datagrams ds g0 ∧ ds ≡ₚ p :: fg_datagrams g ∧ sorted_by fd_seq ds).
  { unfold insert_datagram_packet. cbn [fg_datagrams g0 with_segments].
    destruct (binary_search_cases fd_seq (fd_seq p) (fg_datagrams g) (wg_datagrams _ Hg)) as [(j & d & _ & Hj & Hk)|[-> Hn2]].
    - rewrite Forall_forall in Hn. destruct (Hn d); [by eapply list_elem_of_lookup_2|congruence].
    - eexists. split_and!; [done|apply vec_insert_perm|]. apply sorted_vec_insert; [apply Hg|done|done]. }
  destruct Hins as (ds & -> & Hds & Hsds).
  assert (Hin : ∀ x, x ∈ delete i (<[i := s']> S1) → x ∈ fg_segments g ∧ fs_seq x ≠ k).
  { intros x Hx. rewrite (elem_of_Permutation_proper x _ _ Hdel) in Hx. by apply others. }
  assert (Hind : ∀ d, d ∈ ds → d = p ∨ d ∈ fg_datagrams g).
  { intros d Hd. rewrite (elem_of_Permutation_proper d _ _ Hds) in Hd. by apply elem_of_cons in Hd. }
  destruct (usage_split g) as [Ho Hc]. split; cbn [with_segments with_datagrams fg_seq fg_config g0].
  - destruct Hg. split; cbn; [done| | | | |done].
    + apply sorted_delete. by eapply sorted_replace.
    + intros d x [->|Hd]%Hind [Hx Hne]%Hin; [congruence|by apply wg_disjoint0].
    + intros d [->|Hd]%Hind; [|by apply wg_wf_datagrams0]. unfold wf_datagram. rewrite Hpo, <- Hoti. apply Hwf'.
    + intros x [Hx _]%Hin. by apply wg_wf_segments0.
  - done.
  - done.
  - intros x [(y & [Hy _]%Hin & <-)|(d & [->|Hd]%Hind & <-)]%elem_of_media_seqs; [right|by left|right]; apply elem_of_media_seqs; eauto.
  - destruct (usage_split (with_datagrams ds g0)) as [-> _]. rewrite Ho. unfold media_objects, g0. cbn.
    rewrite (Permutation_length Hdel), (Permutation_length Hds). cbn [length]. lia.
  - destruct (usage_split (with_datagrams ds g0)) as [_ ->]. rewrite Hc. unfold media_bytes, g0.
    cbn [with_segments with_datagrams fg_segments fg_datagrams fg_config].
    rewrite (sum_list_perm _ _ _ Hdel), (sum_list_perm _ _ _ Hds), sum_list_cons, Hpo.
    destruct (bool_decide (k ∈ media_seqs g)); lia.
Qed.
End Insert.

Lemma receives_refl k oti g : wf_group g → k ∈ media_seqs g → receives k oti g g.
Proof. intros Hg Hk. split; [done|done|done|by right| |]; rewrite bool_decide_true by done; lia. Qed.

Lemma group_insert_datagram_spec now k oti id data g :
  wf_group g → acceptable MAX_VIDEO_PAYLOAD oti →
  match group_insert_datagram now k oti id data g with
  | Ok g' => receives k oti g g'
  | Err _ => True
  | Panic => False
  end.
Proof.
  intros Hg Ha. unfold group_insert_datagram.
  destruct (binary_search_cases fd_seq k (fg_datagrams g) (wg_datagrams _ Hg)) as [(i & d & -> & Hi & Hk)|[-> Hn]].
  { rewrite Hi. cbn [expect mbind outcome_bind]. unfold bail_if. destruct (negb _); [done|]. cbn.
    apply receives_refl; [done|]. apply elem_of_media_seqs. right. exists d. split; [by eapply list_elem_of_lookup_2|done]. }
  destruct (prepare_segments_spec (at_create now) k oti g Hg Ha) as (S1 & i & s & -> & Hi & Hsk & HS1 & Hws & Hcase).
  cbn [mbind outcome_bind with_segments fg_segments]. rewrite Hi. cbn [expect mbind outcome_bind].
  pose proof (add_packet_spec oti id data s Hws) as Hadd. destruct (add_packet oti id data s) as [s'|e|]; [|done|done].
  destruct Hadd as (Hwd & Hsq & _ & Ho1 & Ho2). cbn [mbind outcome_bind]. unfold is_complete.
  destruct (assembled s') as [out|] eqn:Hout.
  - rewrite bool_decide_true by done. unfold assemble. rewrite Hout. cbn [ok_or mbind outcome_bind].
    pose proof (media_packet_no_panic out) as Hnp. destruct (media_packet out) as [p|e|]; cbn [mbind outcome_bind]; [|done|done].
    apply (complete_packet g k oti S1 i s s'); try done. cbn. congruence.
  - rewrite bool_decide_false by (by intros [x ?]). by apply (keep_incomplete g k oti S1 i s s').
Qed.

(** C21: admission makes room only by retiring media that has waited at least
    [MAX_BUFFERING]: no config packet is lost, everything else stays, and the
    object admitted fits the budget.  The loop ends and never panics. *)
Theorem video_admission_retires_only_stale now additional self :
  wf_groups self →
  match admit_ now additional self with
  | Ok self' =>
      total_objects self' < MAX_PENDING_OBJECTS ∧
      total_bytes self' + additional ≤ pending_limit MAX_VIDEO_PAYLOAD ∧
      (∀ g, g ∈ groups self → fg_config g ≠ CfgNone →
         ∃ g', g' ∈ groups self' ∧ fg_seq g' = fg_seq g ∧ fg_config g' = fg_config g) ∧
      (∀ g s, g ∈ groups self → s ∈ fg_segments g → now < created s + MAX_BUFFERING →
         ∃ g', g' ∈ groups self' ∧ fg_seq g' = fg_seq g ∧ s ∈ fg_segments g') ∧
      (∀ g d, g ∈ groups self → d ∈ fg_datagrams g → now < fd_instant d + MAX_BUFFERING →
         ∃ g', g' ∈ groups self' ∧ fg_seq g' = fg_seq g ∧ d ∈ fg_datagrams g')
  | Err _ => True
  | Panic => False
  end.
Proof.
  intros Hwf. pose proof (admit_spec now additional self Hwf) as Ha. destruct (admit_ now additional self) as [self'|e|]; [|done|done].
  destruct Ha as (_ & [_ Hc Hs Hd _] & ? & ? & _). split_and!; [done|done|done| |].
  - intros g s Hg Hin Hlt. destruct (Hs g s Hg Hin); [done|lia].
  - intros g d Hg Hin Hlt. destruct (Hd g d Hg Hin); [done|lia].
Qed.
End Safety.

(** ** Samples *)

(** One incomplete packet, received long ago *)
Definition sample_segments : DatagramSegments :=
  {| fs_seq := 1; created := 0; assembled := None;
     fs_decoder := {| od_oti := sample_oti; decoder := {| sd_oti := sample_oti; sd_symbols := [] |};
                      received := ∅; per_block := [0]; received_sources := 0 |} |}.

Definition sample_pending : PendingGroups :=
  {| groups := [{| fg_seq := 1; fg_config := CfgNone; fg_datagrams := []; fg_segments := [sample_segments] |}];
     retired_through := None; retired_stats := fec_stats_default |}.

Lemma sample_decoder_wf : wf_decoder MAX_VIDEO_PAYLOAD (fs_decoder sample_segments).
Proof.
  pose proof (ObjectDecoder_new_wf sample_oti MAX_VIDEO_PAYLOAD) as Hn.
  assert (He : ObjectDecoder_new sample_oti MAX_VIDEO_PAYLOAD = Ok (fs_decoder sample_segments)).
  { unfold ObjectDecoder_new. replace (validate_oti sample_oti MAX_VIDEO_PAYLOAD) with (Ok (E:=ProtocolError) tt) by (vm_compute; reflexivity). done. }
  rewrite He in Hn. apply Hn.
Qed.

Lemma sample_pending_wf : wf_groups sample_pending.
Proof.
  assert (Hg : wf_group {| fg_seq := 1; fg_config := CfgNone; fg_datagrams := []; fg_segments := [sample_segments] |}).
  { split; cbn; [constructor|repeat constructor| | | |done].
    - intros d s Hd. by apply not_elem_of_nil in Hd.
    - intros d Hd. by apply not_elem_of_nil in Hd.
    - intros s ->%list_elem_of_singleton. split; [apply sample_decoder_wf|done]. }
  split; cbn.
  - repeat constructor.
  - by intros g ->%list_elem_of_singleton.
  - by intros g g' k ->%list_elem_of_singleton ->%list_elem_of_singleton.
  - done.
Qed.

Lemma video_admission_witness :
  match admit_ 60000 (256 * 1024 * 1024) sample_pending with
  | Ok self' =>
      total_objects self' < MAX_PENDING_OBJECTS ∧
      total_bytes self' + 256 * 1024 * 1024 ≤ pending_limit MAX_VIDEO_PAYLOAD ∧
      (∀ g, g ∈ groups sample_pending → fg_config g ≠ CfgNone →
         ∃ g', g' ∈ groups self' ∧ fg_seq g' = fg_seq g ∧ fg_config g' = fg_config g) ∧
      (∀ g s, g ∈ groups sample_pending → s ∈ fg_segments g → 60000 < created s + MAX_BUFFERING →
         ∃ g', g' ∈ groups self' ∧ fg_seq g' = fg_seq g ∧ s ∈ fg_segments g') ∧
      (∀ g d, g ∈ groups sample_pending → d ∈ fg_datagrams g → 60000 < fd_instant d + MAX_BUFFERING →
         ∃ g', g' ∈ groups self' ∧ fg_seq g' = fg_seq g ∧ d ∈ fg_datagrams g')
  | Err _ => True
  | Panic => False
  end.
Proof. apply (video_admission_retires_only_stale 60000 (256 * 1024 * 1024) sample_pending). apply sample_pending_wf. Defined.

(** The incomplete packet of the sample is retired to make room. *)
Example sample_retired :
  ((λ self, length (groups self)) <$> admit_ 60000 (256 * 1024 * 1024) sample_pending) = Ok 0%nat.
Proof. by vm_compute. Qed.
