(* ===== verification/VideoFecProcess.v ===== *)
(** * The video receiver with error correction, as a whole

    The invariant of [VideoFecSafety] through insertions, the drain loop and
    runs of [process]: no panic and no state beyond the budget, whatever the
    peer sends; nothing ready is left when the loop goes back to sleep. *)

From stdpp Require Import prelude list gmap strings.
From Stdlib Require Import ZArith Lia.
From S2P Require Import Prelude SortedVec Sequencer Io Av Packets Channel Reassembly Fec SystematicCode FecSafety VideoUnreliableFec VideoFecSafety.
Open Scope Z_scope.

Section Process.
Context `{RL : RaptorQLaws}.

(** ** Replacing a group *)

Lemma replace_group_wf self i g g' :
  wf_groups self → groups self !! i = Some g → wf_group g' → fg_seq g' = fg_seq g →
  (∀ k, k ∈ media_seqs g' → k ∈ media_seqs g ∨
     (is_retired k self = false ∧ ∀ x, x ∈ groups self → k ∈ media_seqs x → fg_seq x = fg_seq g)) →
  wf_groups (with_groups (<[i := g']> (groups self)) self).
Proof.
  intros Hwf Hi Hg' Hk Hmed. assert (Hg : g ∈ groups self) by (by eapply list_elem_of_lookup_2).
  assert (Hin : ∀ x, x ∈ <[i := g']> (groups self) → x = g' ∨ (x ∈ groups self ∧ fg_seq x ≠ fg_seq g)).
  { intros x Hx. rewrite (elem_of_Permutation_proper x _ _ (insert_delete_perm i g g' _ Hi)) in Hx.
    apply elem_of_cons in Hx as [->|Hx]; [by left|right]. eapply (elem_of_delete_neq fg_seq); [apply Hwf|done|done]. }
  assert (Hno : ∀ x k, x ∈ groups self → fg_seq x ≠ fg_seq g → k ∈ media_seqs x → k ∉ media_seqs g').
  { intros x k Hx Hne Hkx [Hkg|[_ Hu]]%Hmed; [|by destruct (Hne (Hu x Hx Hkx))].
    by rewrite (ws_unique self Hwf g x k Hg Hx Hkg Hkx) in Hne. }
  split; cbn [groups with_groups].
  - eapply sorted_replace; [apply Hwf|done|done].
  - intros x [->|[Hx _]]%Hin; [done|by apply Hwf].
  - intros x y k [->|[Hx Hnx]]%Hin [->|[Hy Hny]]%Hin Hkx Hky; [done| | |by apply (ws_unique self Hwf x y k)].
    + by destruct (Hno y k Hy Hny Hky).
    + by destruct (Hno x k Hx Hnx Hkx).
  - intros x k [->|[Hx _]]%Hin Hkx; [|by apply (ws_retired self Hwf x)].
    destruct (Hmed k Hkx) as [?|[? _]]; [by apply (ws_retired self Hwf g)|done].
Qed.

Lemma replace_group_totals self i g g' :
  groups self !! i = Some g →
  total_objects (with_groups (<[i := g']> (groups self)) self) = total_objects self - objects g + objects g' ∧
  total_bytes (with_groups (<[i := g']> (groups self)) self) = total_bytes self - charge g + charge g'.
Proof. intros Hi. unfold total_objects, total_bytes. cbn [groups with_groups]. by rewrite !(sum_replace _ _ _ _ _ Hi). Qed.

(** ** Insertions *)

(** Invariant of the pending groups of a running receiver *)
Definition pending_ok (self : PendingGroups) : Prop := wf_groups self ∧ within_budget self.

Definition keeps_ok (m : outcome ProtocolError PendingGroups) : Prop :=
  match m with Ok self' => pending_ok self' | Err _ => True | Panic => False end.

Lemma insert_stream_packet_ok now gseq k packet self :
  pending_ok self → keeps_ok (insert_stream_packet now gseq k packet self).
Proof.
  intros [Hwf (_ & _ & Hlen)]. unfold insert_stream_packet. destruct packet as [c|m|h]; [done| |done].
  unfold bail_if at 1. destruct (is_config (header m)) eqn:Hcfg; [|done]. cbn [negb mbind outcome_bind].
  pose proof (admit_spec now (blen (payload m)) self Hwf) as Ha. destruct (admit_ now (blen (payload m)) self) as [s1|e|]; [|done|done].
  destruct Ha as (Hwf1 & _ & Ho1 & Hb1 & Hl1). cbn [mbind outcome_bind].
  pose proof (fec_prepare_group_spec gseq s1 Hwf1) as Hp. destruct (prepare_pending_group gseq s1) as [[s2 i]|e|]; [|done|done].
  destruct Hp as (Hwf2 & Ho2 & Hb2 & _ & _ & _ & Hl2 & g & Hi & Hgk). cbn [mbind outcome_bind]. rewrite Hi.
  cbn [expect mbind outcome_bind]. unfold bail_if. destruct (fg_config g) as [| |] eqn:Hc; [|done|done]. cbn [cfg_is_none negb mbind outcome_bind].
  set (g' := with_config _ g). assert (Hg : wf_group g) by (apply Hwf2; by eapply list_elem_of_lookup_2).
  destruct (replace_group_totals s2 i g g' Hi) as [Ht1 Ht2].
  destruct (usage_split g) as [Hu1 Hu2]. destruct (usage_split g') as [Hv1 Hv2]. rewrite Hc in Hu1, Hu2.
  cbn [config_objects config_bytes g' with_config fg_config st_packet] in Hv1, Hv2, Hu1, Hu2. fold g' in Hv1, Hv2.
  change (media_objects g') with (media_objects g) in Hv1. change (media_bytes g') with (media_bytes g) in Hv2.
  split; [|split_and!].
  - apply (replace_group_wf s2 i g g'); [done|done| |done|by left]. destruct Hg. split; cbn; eauto.
  - lia.
  - lia.
  - cbn. rewrite length_insert. apply Hl2. lia.
Qed.

Lemma existsb_contains (P : PendingGroup → bool) k self :
  wf_groups self →
  existsb (λ g, P g && contains k g) (groups self) = true ↔ ∃ g, g ∈ groups self ∧ P g = true ∧ k ∈ media_seqs g.
Proof.
  intros Hwf. rewrite existsb_exists. split.
  - intros (g & Hg%list_elem_of_In & [HP Hc]%andb_true_iff). exists g. split_and!; [done|done|].
    apply contains_spec; [by apply Hwf|done].
  - intros (g & Hg & HP & Hk). exists g. split; [by apply list_elem_of_In|]. apply andb_true_iff. split; [done|].
    apply contains_spec; [by apply Hwf|done].
Qed.

(** The last part of [insert_datagram], once room is made for the packet. *)
Lemma insert_admitted now gseq k oti id data self :
  wf_groups self → acceptable MAX_VIDEO_PAYLOAD oti → is_retired k self = false →
  Z.of_nat (length (groups self)) ≤ MAX_PENDING_GROUPS →
  (∀ g, g ∈ groups self → k ∈ media_seqs g → fg_seq g = gseq) →
  ((∃ g, g ∈ groups self ∧ k ∈ media_seqs g) ∧ within_budget self ∨
   total_objects self < MAX_PENDING_OBJECTS ∧ total_bytes self + reservation oti ≤ pending_limit MAX_VIDEO_PAYLOAD) →
  keeps_ok ('(self, index) ← prepare_pending_group gseq self;
            g ← expect (groups self !! index);
            g ← group_insert_datagram now k oti id data g;
            Ok (with_groups (<[index := g]> (groups self)) self)).
Proof.
  intros Hwf Ha Hr Hlen Hin Hroom. pose proof (fec_prepare_group_spec gseq self Hwf) as Hp.
  destruct (prepare_pending_group gseq self) as [[s2 i]|e|]; [|done|done].
  destruct Hp as (Hwf2 & Ho2 & Hb2 & Hrt & Hsub & Hfrom & Hl2 & g & Hi & Hgk). cbn [mbind outcome_bind]. rewrite Hi.
  cbn [expect mbind outcome_bind]. assert (Hg2 : g ∈ groups s2) by (by eapply list_elem_of_lookup_2).
  assert (Hg : wf_group g) by (by apply Hwf2). pose proof (group_insert_datagram_spec now k oti id data g Hg Ha) as Hins.
  destruct (group_insert_datagram now k oti id data g) as [g'|e|]; [|done|done]. destruct Hins as [Hg' Hsq _ Hmed Hob Hby].
  cbn [mbind outcome_bind]. destruct (replace_group_totals s2 i g g' Hi) as [Ht1 Ht2].
  pose proof (reservation_nonneg oti Ha) as Hres. split.
  - apply (replace_group_wf s2 i g g'); [done|done|done|done|]. intros x [->|Hx]%Hmed; [|by left]. right. split.
    + unfold is_retired in *. by rewrite Hrt.
    + intros y [Hy| ->]%Hfrom Hky; [rewrite Hgk; by apply Hin|by apply not_elem_of_nil in Hky].
  - unfold within_budget in *. cbn [groups with_groups]. rewrite length_insert. split_and!; [| |by apply Hl2].
    + destruct Hroom as [[(y & Hy & Hky) ?]|?]; [|case_bool_decide; lia].
      rewrite bool_decide_true in Hob; [lia|]. assert (y = g) as <-; [|done].
      apply (sorted_key_inj fg_seq (groups s2)); [apply Hwf2|by apply Hsub|done|]. rewrite Hgk. by apply Hin.
    + destruct Hroom as [[(y & Hy & Hky) ?]|?]; [|case_bool_decide; lia].
      rewrite bool_decide_true in Hby; [lia|]. assert (y = g) as <-; [|done].
      apply (sorted_key_inj fg_seq (groups s2)); [apply Hwf2|by apply Hsub|done|]. rewrite Hgk. by apply Hin.
Qed.

Lemma insert_datagram_ok now gseq k oti id data self :
  pending_ok self → keeps_ok (insert_datagram now gseq k oti id data self).
Proof.
  intros [Hwf Hbud]. unfold insert_datagram. pose proof (validate_oti_iff oti MAX_VIDEO_PAYLOAD) as Hv.
  pose proof (validate_oti_no_panic oti MAX_VIDEO_PAYLOAD) as Hvp.
  destruct (validate_oti oti MAX_VIDEO_PAYLOAD) as [[]|e|]; [|done|done]. assert (Ha : acceptable MAX_VIDEO_PAYLOAD oti) by (by apply Hv).
  cbn [mbind outcome_bind]. destruct (is_retired k self) eqn:Hr; [by split|].
  pose proof (existsb_contains (λ g, negb (fg_seq g =? gseq)) k self Hwf) as Hex1.
  pose proof (existsb_contains (λ g, fg_seq g =? gseq) k self Hwf) as Hex2.
  unfold bail_if at 1. destruct (existsb (λ g, negb (fg_seq g =? gseq) && contains k g) (groups self)) eqn:He1; [done|].
  cbn [mbind outcome_bind].
  assert (Hin : ∀ g, g ∈ groups self → k ∈ media_seqs g → fg_seq g = gseq).
  { intros g Hg Hk. destruct (Z.eqb_spec (fg_seq g) gseq) as [|Hne]; [done|]. exfalso.
    assert (false = true); [|done]. apply Hex1. exists g. split_and!; [done| |done]. by destruct (Z.eqb_spec (fg_seq g) gseq). }
  destruct (existsb (λ g, (fg_seq g =? gseq) && contains k g) (groups self)) eqn:He2; cbn [negb andb mbind outcome_bind].
  - apply insert_admitted; [done|done|done|apply Hbud|done|]. left. split; [|done].
    destruct (proj1 Hex2 eq_refl) as (g & ? & _ & ?). eauto.
  - assert (Hno : ∀ g, g ∈ groups self → k ∉ media_seqs g).
    { intros g Hg Hk. assert (false = true); [|done]. apply Hex2. exists g. split_and!; [done| |done]. apply Z.eqb_eq. by apply Hin. }
    pose proof (admit_spec (at_admit now) (reservation oti) self Hwf) as Had.
    destruct (admit_ (at_admit now) (reservation oti) self) as [s1|e|]; [|done|done].
    destruct Had as (Hwf1 & Hsh & Ho1 & Hb1 & Hl1). cbn [mbind outcome_bind].
    destruct Hbud as (_ & _ & Hlen). pose proof (reservation_nonneg oti Ha).
    destruct (is_retired k s1) eqn:Hr1; [split; [done|]; split_and!; lia|].
    apply insert_admitted; [done|done|done|lia| |by right]. intros g Hg Hk. by destruct (shrinks_media _ _ _ k Hsh Hno g Hg).
Qed.

(** ** Taking packets *)

Definition ready (np : NextPacket) : Prop := match np with NpReady _ _ => True | _ => False end.

Lemma fec_next_packet_loop_ready now next all gs index cached i c :
  next_packet_loop now next all gs index cached = NpReady i c →
  ∃ j g, i = (index + j)%nat ∧ gs !! j = Some g ∧ cfg_is_none (fg_config g) = false ∧
    cfg_is_ready (fg_config g) = c ∧ (c = false → fg_datagrams g ≠ []).
Proof.
  revert index cached. induction gs as [|g gs IH]; intros index cached Hr; [done|]. cbn [next_packet_loop] in Hr.
  assert (Hrec : ∀ cached, next_packet_loop now next all gs (S index) cached = NpReady i c →
    ∃ j g', i = (index + j)%nat ∧ (g :: gs) !! j = Some g' ∧ cfg_is_none (fg_config g') = false ∧
      cfg_is_ready (fg_config g') = c ∧ (c = false → fg_datagrams g' ≠ [])).
  { intros c0 (j & g' & -> & Hj & Hg')%IH. exists (S j), g'. split_and!; [lia|done|apply Hg'..]. }
  assert (Hhere : cfg_is_none (fg_config g) = false → fg_datagrams g ≠ [] →
    NpReady index (cfg_is_ready (fg_config g)) = NpReady i c →
    ∃ j g', i = (index + j)%nat ∧ (g :: gs) !! j = Some g' ∧ cfg_is_none (fg_config g') = false ∧
      cfg_is_ready (fg_config g') = c ∧ (c = false → fg_datagrams g' ≠ [])).
  { intros Hn Hd [= <- <-]. exists 0%nat, g. split_and!; [lia|done|done|done|done]. }
  destruct (cfg_is_none (fg_config g)) eqn:Hn; [by eapply Hrec|].
  destruct (match fg_config g with CfgReady p => st_seq p =? next | _ => false end) eqn:Hcfg.
  { injection Hr as <- <-. exists 0%nat, g. split_and!; [lia|done|done| |done]. by destruct (fg_config g). }
  destruct (fg_datagrams g) as [|d ds] eqn:Hd; [by eapply Hrec|].
  destruct (fd_seq d =? next); [by apply Hhere|].
  destruct (match cached with Some c => c | None => min_instant all end) as [m|]; [|by eapply Hrec].
  destruct (m + MAX_BUFFERING <=? now); [by apply Hhere|done].
Qed.

Lemma wf_groups_drop self n st :
  wf_groups self → wf_groups {| groups := drop n (groups self); retired_through := retired_through self; retired_stats := st |}.
Proof.
  intros Hwf. assert (Hin : ∀ g, g ∈ drop n (groups self) → g ∈ groups self) by (intros g; by apply elem_of_drop).
  split; cbn [groups].
  - apply sorted_drop, Hwf.
  - intros g Hg. by apply Hwf, Hin.
  - intros g g' k Hg Hg'. apply (ws_unique self Hwf); by apply Hin.
  - intros g k Hg. apply (ws_retired self Hwf). by apply Hin.
Qed.

Lemma totals_drop self n st :
  wf_groups self →
  let self' := {| groups := drop n (groups self); retired_through := retired_through self; retired_stats := st |} in
  total_objects self' ≤ total_objects self ∧ total_bytes self' ≤ total_bytes self ∧
  (length (groups self') ≤ length (groups self))%nat.
Proof.
  intros Hwf self'. unfold total_objects, total_bytes, self'. cbn [groups]. split_and!.
  - apply sum_drop_le. intros g Hg. by apply usage_nonneg, Hwf.
  - apply sum_drop_le. intros g Hg. by apply usage_nonneg, Hwf.
  - rewrite length_drop. lia.
Qed.

(** A group after one of its packets was taken *)
Record gives (g g' : PendingGroup) : Prop := {
  gi_wf : wf_group g';
  gi_seq : fg_seq g' = fg_seq g;
  gi_media k : k ∈ media_seqs g' → k ∈ media_seqs g;
  gi_objects : objects g' ≤ objects g;
  gi_bytes : charge g' ≤ charge g;
}.

Lemma gives_config g : wf_group g → gives g (with_config CfgSent g).
Proof.
  intros Hg. destruct (usage_split g) as [H1 H2]. destruct (usage_split (with_config CfgSent g)) as [H3 H4].
  change (media_objects (with_config CfgSent g)) with (media_objects g) in H3.
  change (media_bytes (with_config CfgSent g)) with (media_bytes g) in H4.
  cbn [with_config fg_config config_objects config_bytes] in H3, H4.
  assert (0 ≤ config_objects (fg_config g) ∧ 0 ≤ config_bytes (fg_config g)).
  { unfold config_objects, config_bytes, blen. destruct (fg_config g) as [|[[c|m|h] q]|]; lia. }
  split; [|done|done|lia|lia]. destruct Hg. split; cbn; done.
Qed.

Lemma gives_datagram g d ds n : wf_group g → fg_datagrams g = d :: ds →
  gives g (with_segments (drop n (fg_segments g)) (with_datagrams ds g)).
Proof.
  intros Hg Hd. destruct (usage_split g) as [H1 H2]. set (g' := with_segments _ _). destruct (usage_split g') as [H3 H4].
  change (fg_config g') with (fg_config g) in H3, H4. pose proof Hg as [Hso1 Hso2 Hdis Hwd Hws Hcfg].
  assert (Hb : media_bytes g' ≤ media_bytes g).
  { unfold media_bytes. rewrite Hd, sum_list_cons. cbn [g' with_segments with_datagrams fg_segments fg_datagrams].
    pose proof (sum_drop_le (λ s, reservation (od_oti (fs_decoder s))) (fg_segments g) n) as Hle.
    assert (0 ≤ reservation (fd_oti d)) by (eapply reservation_nonneg, Hwd; rewrite Hd; left).
    specialize (Hle ltac:(intros x Hx; eapply reservation_nonneg, (Hws x Hx))). lia. }
  assert (Ho : media_objects g' ≤ media_objects g).
  { unfold media_objects. rewrite Hd. cbn [g' with_segments with_datagrams fg_segments fg_datagrams length]. rewrite length_drop. lia. }
  split; [|done| |lia|lia].
  - rewrite Hd in *. apply sorted_cons in Hso1 as [Hso1 _]. split; cbn; [done|by apply sorted_drop| | | |done].
    + intros x y Hx Hy%elem_of_drop. apply Hdis; [by right|done].
    + intros x Hx. apply Hwd. by right.
    + intros x Hx%elem_of_drop. by apply Hws.
  - intros k [(s & Hs%elem_of_drop & Hk)|(x & Hx & Hk)]%elem_of_media_seqs; apply elem_of_media_seqs; [left; eauto|right].
    exists x. rewrite Hd. split; [by right|done].
Qed.

(** What a delivery leaves *)
Record delivers (self self' : PendingGroups) : Prop := {
  de_wf : wf_groups self';
  de_objects : total_objects self' ≤ total_objects self;
  de_bytes : total_bytes self' ≤ total_bytes self;
  de_length : (length (groups self') ≤ length (groups self))%nat;
  de_count : (deliverable self' < deliverable self)%nat;
}.

Definition deliverable_of (g : PendingGroup) : nat := ((if cfg_is_ready (fg_config g) then 1 else 0) + length (fg_datagrams g))%nat.

Lemma deliver_first self n st g rest g' :
  wf_groups self → drop n (groups self) = g :: rest → gives g g' → (deliverable_of g' < deliverable_of g)%nat →
  delivers self {| groups := g' :: rest; retired_through := retired_through self; retired_stats := st |}.
Proof.
  intros Hwf Hdr [Hg' Hk Hmed Hob Hby] Hlt. pose proof (wf_groups_drop self n st Hwf) as Hwd.
  destruct (totals_drop self n st Hwf) as (H1 & H2 & H3). rewrite Hdr in *.
  set (s1 := {| groups := g :: rest; retired_through := retired_through self; retired_stats := st |}) in *.
  destruct (replace_group_totals s1 0 g g' eq_refl) as [Ht1 Ht2]. cbn [groups s1 insert list_insert with_groups retired_through retired_stats] in *.
  pose proof (replace_group_wf s1 0 g g' Hwd eq_refl Hg' Hk ltac:(intros k ?; left; by apply Hmed)) as Hwf'.
  cbn [groups s1 insert list_insert with_groups retired_through retired_stats] in Hwf'.
  change (delivers self (with_groups (g' :: rest) s1)). split; [done|lia|lia|done|]. unfold deliverable. cbn [groups].
  rewrite <- (take_drop n (groups self)), Hdr, fmap_app, sum_list_with_app. cbn.
  unfold deliverable_of in Hlt. lia.
Qed.

Lemma take_next_packet_spec now next self :
  wf_groups self →
  ∃ a self', take_next_packet now next self = Ok (a, self') ∧
    match a with
    | APacket _ _ _ => delivers self self'
    | ADeadline t => self' = self ∧ next_packet now next self = NpDeadline t
    | ANone => self' = self ∧ next_packet now next self = NpNone
    end.
Proof.
  intros Hwf. unfold take_next_packet. destruct (next_packet now next self) as [|i c|t] eqn:Hn; [by eexists _, _| |by eexists _, _].
  apply fec_next_packet_loop_ready in Hn as (j & g & -> & Hj & Hnone & Hc & Hd). cbn [Nat.add].
  assert (Hg : wf_group g) by (apply Hwf; by eapply list_elem_of_lookup_2).
  destruct (drop j (groups self)) as [|g0 rest] eqn:Hdr.
  { apply lookup_lt_Some in Hj. assert (length (drop j (groups self)) = 0%nat) as Hl by (by rewrite Hdr). rewrite length_drop in Hl. lia. }
  assert (g0 = g) as -> by (pose proof (lookup_drop (groups self) j 0) as Hl; rewrite Hdr, Nat.add_0_r, Hj in Hl; by injection Hl).
  cbn [lookup list_lookup expect mbind outcome_bind]. rewrite Hnone. cbn [negb rassert mbind outcome_bind]. destruct c.
  - destruct (fg_config g) as [|p|] eqn:Hcfg; [done| |done]. cbn. eexists _, _. split; [done|].
    eapply deliver_first; [done|done|by apply gives_config|]. unfold deliverable_of. cbn. rewrite Hcfg. cbn. lia.
  - destruct (fg_datagrams g) as [|d ds] eqn:Hds; [by destruct (Hd eq_refl)|]. eexists _, _. split; [done|]. cbn [insert list_insert].
    eapply deliver_first; [done|done|by apply (gives_datagram g d ds)|]. unfold deliverable_of. cbn. rewrite Hds. cbn. lia.
Qed.

(** ** The drain loop *)

(** The client only loses interest, it never makes the receiver panic. *)
Lemma drain_loop_spec fuel nows round s :
  wf_groups (pending_groups s) → (deliverable (pending_groups s) < fuel)%nat →
  ∃ s' r, drain_loop fuel nows round s = (s', r) ∧ r ≠ Panic ∧
    wf_groups (pending_groups s') ∧
    (within_budget (pending_groups s) → within_budget (pending_groups s')) ∧
    client_open s' = client_open s ∧ (client_open s = true → r = Ok tt) ∧
    (r = Ok tt → ∃ i, (i ≤ deliverable (pending_groups s))%nat ∧
       match next_packet (nows (round + i)%nat) (next_kypacket_seq s') (pending_groups s') with
       | NpNone => deadline s' = None
       | NpDeadline t => deadline s' = Some t
       | NpReady _ _ => False
       end).
Proof.
  revert round s. induction fuel as [|fuel IH]; intros round s Hwf Hf; [lia|]. cbn [drain_loop].
  destruct (take_next_packet_spec (nows round) (next_kypacket_seq s) (pending_groups s) Hwf) as (a & gs & Ht & Ha).
  unfold mbind, handler_bind at 1, take_step. rewrite Ht. destruct a as [k p st|t|].
  - destruct Ha as [Hwf' H1 H2 H3 H4]. unfold send_client; run_handler. cbn [client_open set_next set_groups].
    set (s1 := set_next _ _ _). destruct (client_open s) eqn:Hopen.
    + cbn [mret handler_ret]. destruct (IH (S round) (push_client (Some k, p) s1)) as (s' & r & Hr & Hnp & Hw & Hb & Ho & Hok & Hlast).
      { done. }
      { cbn. lia. }
      exists s', r. split_and!; [exact Hr|done|done| | |intros _; by apply Hok|].
      * intros (? & ? & ?). apply Hb. unfold within_budget in *. cbn. split_and!; lia.
      * rewrite Ho. cbn. done.
      * intros Hrt. destruct (Hlast Hrt) as (i & Hi & Hl). exists (S i). split; [cbn in Hi; lia|].
        by replace (round + S i)%nat with (S round + i)%nat by lia.
    + eexists _, _. split_and!; [done|done|done| |done|done|done]. intros (? & ? & ?). unfold within_budget in *. cbn. split_and!; lia.
  - destruct Ha as [-> Hn]. eexists _, _. split_and!; [done|done|done|done|done|done|].
    intros _. exists 0%nat. split; [lia|]. rewrite Nat.add_0_r. cbn. by rewrite Hn.
  - destruct Ha as [-> Hn]. eexists _, _. split_and!; [done|done|done|done|done|done|].
    intros _. exists 0%nat. split; [lia|]. rewrite Nat.add_0_r. cbn. by rewrite Hn.
Qed.

(** The drain loop ends after at most one round per packet held plus one,
    and when it ends nothing is ready: at its last reading of the clock the
    receiver either waits for a message or has armed the deadline of
    [next_packet]. *)
Theorem video_drain_complete nows s :
  wf_groups (pending_groups s) → client_open s = true →
  ∃ s' i, drain nows s = (s', Ok tt) ∧ (i ≤ deliverable (pending_groups s))%nat ∧
    match next_packet (nows i) (next_kypacket_seq s') (pending_groups s') with
    | NpNone => deadline s' = None
    | NpDeadline t => deadline s' = Some t
    | NpReady _ _ => False
    end.
Proof.
  intros Hwf Ho. unfold drain.
  destruct (drain_loop_spec (S (deliverable (pending_groups s))) nows 0 s Hwf) as (s' & r & Hr & _ & _ & _ & _ & Hok & Hlast); [lia|].
  specialize (Hok Ho). subst r. destruct (Hlast eq_refl) as (i & Hi & Hl). eauto.
Qed.

(** ** Runs of [process] *)

Definition process_ok (s : Process) : Prop := pending_ok (pending_groups s).

(** The handler keeps the invariant and does not panic. *)
Definition safe {A} (m : handler Process ProtocolError A) : Prop :=
  ∀ s, process_ok s → ∃ s' r, m s = (s', r) ∧ process_ok s' ∧ r ≠ Panic.

Lemma safe_ret {A} (a : A) : safe (mret a).
Proof. intros s Hs. by eexists _, _. Qed.

Lemma safe_bind {A B} (m : handler Process ProtocolError A) (f : A → handler Process ProtocolError B) : safe m → (∀ a, safe (f a)) → safe (m ≫= f).
Proof.
  intros Hm Hf s Hs. destruct (Hm s Hs) as (s1 & r & Hr & Hs1 & Hnp). run_handler. rewrite Hr.
  destruct r as [a|e|]; [by apply Hf|by eexists _, _|done].
Qed.

Lemma safe_get {A} (f : Process → A) : safe (getM f).
Proof. intros s Hs. by eexists _, _. Qed.

Lemma safe_send_client p : safe (send_client p).
Proof. intros s Hs. unfold send_client. destruct (client_open s); by eexists _, _. Qed.

Lemma safe_unroll k g : safe (unroll k g).
Proof. intros s Hs. unfold unroll. destruct (seq _ _ k), (seq _ _ g). by eexists _, _. Qed.

Lemma safe_update f : (∀ self, pending_ok self → keeps_ok (f self)) → safe (update_groups f).
Proof.
  intros Hf s Hs. unfold update_groups. specialize (Hf (pending_groups s) Hs).
  destruct (f (pending_groups s)); [by eexists _, _..|done].
Qed.

Lemma safe_drain nows : safe (drain nows).
Proof.
  intros s [Hwf Hb]. unfold drain.
  destruct (drain_loop_spec (S (deliverable (pending_groups s))) nows 0 s Hwf) as (s' & r & Hr & Hnp & Hw & Hbud & _); [lia|].
  exists s', r. split_and!; [done|split; [done|by apply Hbud]|done].
Qed.

Create HintDb fec_safe.
#[local] Hint Resolve safe_ret safe_bind safe_get safe_send_client safe_unroll safe_update safe_drain
  insert_stream_packet_ok insert_datagram_ok : fec_safe.

Lemma safe_handle_event now ev : safe (handle_event now ev).
Proof.
  destruct ev as [[m|m]|e| |]; cbn [handle_event].
  - destruct (sm_packet m); [auto with fec_safe|..];
      (apply safe_bind; [auto with fec_safe|intros [k g]; apply safe_bind; [auto with fec_safe|intros next]];
       destruct (next <=? k); auto with fec_safe).
  - apply safe_bind; [auto with fec_safe|intros [k g]]. apply safe_bind; [auto with fec_safe|intros next].
    destruct (k <? next); auto with fec_safe.
  - intros s Hs. by eexists _, _.
  - auto with fec_safe.
  - auto with fec_safe.
Qed.

Lemma safe_step now nows ev : safe (step now nows ev).
Proof. apply safe_bind; [apply safe_handle_event|]. intros []; auto with fec_safe. Qed.

Lemma safe_run evs : safe (run evs).
Proof.
  induction evs as [|[[now nows] ev] evs IH]; cbn [run]; [apply safe_ret|].
  apply safe_bind; [apply safe_step|]. intros []; [done|apply safe_ret].
Qed.

Lemma process_init_ok stats : process_ok (process_init stats).
Proof.
  split; [split; cbn; [constructor|..]; intros; exfalso; by eapply not_elem_of_nil|]. by vm_compute.
Qed.

(** Whatever messages and errors arrive, in whatever order and at whatever
    times, [process] never panics, and every state it reaches holds at most 128
    pending objects, 256 MiB of reservations and 32 groups. *)
Theorem video_fec_receiver_bounded evs stats :
  let '(s, r) := run evs (process_init stats) in
  r ≠ Panic ∧ total_objects (pending_groups s) ≤ 128 ∧ total_bytes (pending_groups s) ≤ 256 * 1024 * 1024 ∧
  Z.of_nat (length (groups (pending_groups s))) ≤ 32.
Proof.
  destruct (safe_run evs (process_init stats) (process_init_ok stats)) as (s & r & -> & [_ (H1 & H2 & H3)] & Hnp). done.
Qed.
End Process.

(** ** Samples *)

(** Packet 1 of group 1 as the sender cuts it, then the config of the group *)
Definition sample_object : bytes :=
  be_bytes 8 (pts_and_flags {| is_config := false; is_key := false; pts := 1; size := 8 |}) ++ be_bytes 4 8 ++ replicate 8 5.

Definition sample_symbol (e : Z) : Event :=
  EvMsg (RDatagram {| dm_data := symbol_at sample_object 8 (Z.to_nat e); dm_raw_kypacket_seq := 1; dm_raw_group_seq := 1;
                      dm_oti := sample_oti; dm_payload_id := mk_id 0 e |}).

Definition sample_config : Event :=
  EvMsg (RStream {| sm_packet := Media {| header := {| is_config := true; is_key := false; pts := 0; size := 0 |}; payload := [] |};
                    sm_raw_kypacket_seq := 0; sm_raw_group_seq := 1 |}).

Definition at_time (t : Z) (ev : Event) : Clocks * (nat → Instant) * Event :=
  ({| at_admit := t; at_create := t; at_assemble := t |}, λ _, t, ev).

Definition sample_events : list (Clocks * (nat → Instant) * Event) :=
  [at_time 0 (sample_symbol 0); at_time 1 (sample_symbol 2); at_time 2 (sample_symbol 1); at_time 3 sample_config].

(** One event delivers both packets. *)
Example sample_delivered :
  (λ p : option Z * AVPacket, p.1) <$> client (run sample_events (process_init stats_default)).1 = [Some 0; Some 1].
Proof. by vm_compute. Qed.

Lemma video_fec_receiver_bounded_witness :
  let '(s, r) := run sample_events (process_init stats_default) in
  r ≠ Panic ∧ total_objects (pending_groups s) ≤ 128 ∧ total_bytes (pending_groups s) ≤ 256 * 1024 * 1024 ∧
  Z.of_nat (length (groups (pending_groups s))) ≤ 32.
Proof. apply (video_fec_receiver_bounded sample_events stats_default). Defined.

Definition sample_state : Process := (run (take 3 sample_events) (process_init stats_default)).1.

Lemma sample_state_wf : wf_groups (pending_groups sample_state).
Proof.
  unfold sample_state. destruct (safe_run (take 3 sample_events) _ (process_init_ok stats_default)) as (s & r & -> & [Hwf _] & _). done.
Qed.

Lemma video_drain_complete_witness :
  ∃ s' i, drain (λ _, 5) sample_state = (s', Ok tt) ∧ (i ≤ deliverable (pending_groups sample_state))%nat ∧
    match next_packet 5 (next_kypacket_seq s') (pending_groups s') with
    | NpNone => deadline s' = None
    | NpDeadline t => deadline s' = Some t
    | NpReady _ _ => False
    end.
Proof. apply (video_drain_complete (λ _, 5) sample_state); [apply sample_state_wf|by vm_compute]. Defined.
