(* ===== verification/FecTransfer.v ===== *)
(** * From the FEC sender to the FEC receiver

    What the video sender of [VideoUnreliableFec] puts on the wire, and what
    the validation boundary and the object decoder make of it: its datagrams
    parse to the symbols they carry, the symbols decode to the packet sent or to
    nothing yet, and the number of repair symbols keeps every block within the
    decoder's cap. *)

From stdpp Require Import prelude list gmap strings.
From Stdlib Require Import ZArith Lia.
From S2P Require Import Prelude SortedVec Io Av Packets Channel Reassembly Fec SystematicCode FecSafety VideoUnreliableFec.
Open Scope Z_scope.

(** ** The number of repair symbols *)

(** Rounding to single precision moves a number by at most one part in 2^24. *)
Lemma f32_round_error m : 0 < m → Z.abs (f32_round m - m) * 2 ^ 24 ≤ m.
Proof.
  intros Hm. unfold f32_round. destruct (Z.leb_spec (Z.log2 m - 23) 0) as [|Hk]; [rewrite Z.sub_diag; cbn; lia|].
  set (k := Z.log2 m - 23) in *. destruct (Z.log2_spec m Hm) as [Hlow _].
  replace (Z.log2 m) with (k - 1 + 24) in Hlow by lia. rewrite Z.pow_add_r in Hlow by lia.
  assert (H2k : 2 ^ k = 2 * 2 ^ (k - 1)) by (rewrite <- Z.pow_succ_r by lia; f_equal; lia).
  assert (0 < 2 ^ (k - 1)) by (apply Z.pow_pos_nonneg; lia).
  pose proof (Z.div_mod m (2 ^ k) ltac:(lia)). pose proof (Z.mod_pos_bound m (2 ^ k) ltac:(lia)).
  set (q := m / 2 ^ k) in *. set (r := m mod 2 ^ k) in *. set (h := 2 ^ (k - 1)) in *.
  destruct (Z.ltb_spec h r); cbn [orb]; [nia|]. destruct ((h =? r) && Z.odd q) eqn:He; [|nia].
  apply andb_true_iff in He as [->%Z.eqb_eq _]. nia.
Qed.

Lemma repair_close n :
  1 ≤ n ≤ MAX_SOURCE_SYMBOLS →
  Z.max 2 (div_ceil (3 * n) 10) ≤ repair_symbols n ≤ Z.max 2 (div_ceil (3 * n) 10) + 1.
Proof.
  unfold MAX_SOURCE_SYMBOLS. intros Hn.
  assert (f32_round n = n) as Hexact.
  { unfold f32_round. assert (Z.log2 n ≤ 17) by (apply (Z.log2_le_mono n 131072); lia).
    destruct (Z.leb_spec (Z.log2 n - 23) 0); [done|lia]. }
  unfold repair_symbols. rewrite Hexact. set (p := n * 10066330). set (f := f32_round p).
  pose proof (f32_round_error p ltac:(lia)) as Herr. fold f in Herr. change (2 ^ 24) with 16777216 in Herr.
  change (2 ^ 25) with 33554432. change (2 ^ 32 - 1) with 4294967295.
  pose proof (div_ceil_spec (3 * n) 10 ltac:(lia) ltac:(lia)) as Ht.
  pose proof (div_ceil_spec f 33554432 ltac:(lia) ltac:(lia)) as Hc. lia.
Qed.

(** For every object the receiver accepts, the single-precision arithmetic
    of the sender yields 30% of repair symbols rounded up, or one more, and at
    least two. *)
Theorem repair_symbols_thirty_percent n :
  1 ≤ n ≤ MAX_SOURCE_SYMBOLS →
  Z.max 2 (div_ceil (3 * n) 10) ≤ repair_symbols n ≤ Z.max 2 (div_ceil (3 * n) 10) + 1.
Proof. apply repair_close. Qed.

Lemma repair_symbols_thirty_percent_witness : 15 ≤ repair_symbols 50 ≤ 16.
Proof. apply (repair_symbols_thirty_percent 50). unfold MAX_SOURCE_SYMBOLS. lia. Defined.

(** The table of the driver's documentation *)
Example repair_table :
  repair_symbols <$> [1; 2; 3; 4; 5; 6; 7; 8; 9; 10; 11; 12; 13; 14; 15; 16; 17; 18] =
  [2; 2; 2; 2; 2; 2; 3; 3; 3; 3; 4; 4; 4; 5; 5; 5; 6; 6].
Proof. by vm_compute. Qed.

Section Transfer.
Context `{RL : RaptorQLaws}.

(** The sender asks for [repair_symbols] repair symbols of the whole object
    in each source block; for an accepted object of at most three blocks, the
    source and repair symbols of a block stay below the cap at which
    [ObjectDecoder::decode] rejects the object. *)
Theorem sender_within_symbol_cap oti max_payload b :
  validate_oti oti max_payload = Ok tt → source_blocks oti ≤ 3 →
  let sources := source_symbols_for_block oti b in
  sources + repair_symbols (symbols_of oti) ≤ 2 * sources + 32.
Proof.
  intros Hv%validate_oti_acceptable Hb sources. pose proof (symbols_cover oti max_payload Hv) as [Hs _].
  destruct (source_symbols_spec oti max_payload b Hv) as [Heq _]. destruct Hv as (_ & (_ & _ & Hb0 & _) & Hmax).
  pose proof (repair_close (symbols_of oti) ltac:(lia)) as [_ Hr].
  pose proof (div_ceil_upper (3 * symbols_of oti) 10 (3 * symbols_of oti / 10 + 1)) as Hc.
  pose proof (Z.div_mod (3 * symbols_of oti) 10 ltac:(lia)). pose proof (Z.mod_pos_bound (3 * symbols_of oti) 10 ltac:(lia)).
  specialize (Hc ltac:(lia) ltac:(lia)).
  assert (Hlow : symbols_of oti / source_blocks oti ≤ sources).
  { unfold sources. rewrite Heq. unfold div_ceil. repeat case_match; lia. }
  pose proof (Z.div_mod (symbols_of oti) (source_blocks oti) ltac:(lia)).
  pose proof (Z.mod_pos_bound (symbols_of oti) (source_blocks oti) ltac:(lia)). nia.
Qed.

(** ** Datagrams *)

Lemma datagram_parts (a b c : bytes) rest :
  length a = 2%nat → length b = 4%nat → length c = 4%nat →
  slice 2 4 (a ++ b ++ c ++ rest) = b ∧ slice 6 4 (a ++ b ++ c ++ rest) = c ∧ drop 10 (a ++ b ++ c ++ rest) = rest.
Proof.
  intros Ha Hb Hc. unfold slice. split_and!.
  - rewrite drop_app_length' by done. by apply take_app_length'.
  - replace 6%nat with (2 + 4)%nat by done. rewrite <- drop_drop, drop_app_length', drop_app_length' by done. by apply take_app_length'.
  - replace 10%nat with (2 + (4 + 4))%nat by done. rewrite <- !drop_drop. by rewrite !drop_app_length' by done.
Qed.

(** The tail that both FEC drivers share: OTI, payload id and symbol *)
Lemma parse_datagram_image prefix oti id sym max :
  validate_oti oti max = Ok tt → source_block_number id < source_blocks oti → blen sym = symbol_size oti →
  parse_datagram (prefix ++ oti_serialize oti ++ id_serialize id ++ sym) (length prefix + 16) max = Ok (sym, oti, id).
Proof.
  intros Hv Hb Hs. destruct (oti_image oti) as (Ho1 & Ho2 & Ho3). destruct (id_image id) as (Hi1 & Hi2).
  unfold parse_datagram, bail_if at 1. rewrite (bool_decide_false (_ < _)%nat) by (rewrite !length_app; lia). cbn [mbind outcome_bind].
  replace (length prefix + 16 - 16)%nat with (length prefix) by lia.
  assert (slice (length prefix) 12 (prefix ++ oti_serialize oti ++ id_serialize id ++ sym) = oti_serialize oti) as ->
    by (unfold slice; rewrite drop_app_length, take_app_length' by done; done).
  assert (slice (length prefix + 12) 4 (prefix ++ oti_serialize oti ++ id_serialize id ++ sym) = id_serialize id) as ->.
  { unfold slice. rewrite <- drop_drop, drop_app_length, drop_app_length' by done. by apply take_app_length'. }
  rewrite Ho2, Ho3, Hi2. cbn [Z.eqb negb bail_if mbind outcome_bind]. rewrite Hv. cbn [mbind outcome_bind].
  assert (blen (prefix ++ oti_serialize oti ++ id_serialize id ++ sym) - Z.of_nat (length prefix + 16) = symbol_size oti) as ->
    by (rewrite <- Hs; unfold blen; rewrite !length_app; lia).
  unfold validate_symbol. destruct (Z.leb_spec (source_blocks oti) (source_block_number id)); [lia|].
  rewrite Z.eqb_refl. cbn [negb bail_if mbind outcome_bind].
  replace (length prefix + 16)%nat with (length prefix + (12 + 4))%nat by lia.
  rewrite <- !drop_drop. by rewrite drop_app_length, !drop_app_length' by done.
Qed.

Lemma parse_datagram_bytes self oti id sym :
  is_u32 (kypacket_seq self) → is_u32 (group_seq self) → validate_oti oti MAX_VIDEO_PAYLOAD = Ok tt →
  source_block_number id < source_blocks oti → blen sym = symbol_size oti →
  parse (datagram_bytes self (oti_serialize oti) id sym) =
  Ok {| dm_data := sym; dm_raw_kypacket_seq := kypacket_seq self; dm_raw_group_seq := group_seq self;
        dm_oti := oti; dm_payload_id := id |}.
Proof.
  intros Hk Hg Hv Hb Hs. unfold parse, datagram_bytes.
  set (a := write_datagram_header (ky_channel self)). set (b := be_bytes 4 (kypacket_seq self)). set (c := be_bytes 4 (group_seq self)).
  assert (Ha : length a = 2%nat) by apply be_bytes_length. assert (Hbl : length b = 4%nat) by apply be_bytes_length.
  assert (Hc : length c = 4%nat) by apply be_bytes_length.
  pose proof (parse_datagram_image (a ++ b ++ c) oti id sym MAX_VIDEO_PAYLOAD Hv Hb Hs) as Hp.
  rewrite !length_app, Ha, Hbl, Hc, <- !app_assoc in Hp. change (2 + (4 + 4) + 16)%nat with DATAGRAM_HEADER_SIZE in Hp.
  rewrite Hp. cbn [mbind outcome_bind].
  destruct (datagram_parts a b c (oti_serialize oti ++ id_serialize id ++ sym) Ha Hbl Hc) as (-> & -> & _).
  unfold b, c. by rewrite !read_be_be4.
Qed.

(** ** Objects *)

Definition media_image (p : MediaPacket) : bytes :=
  be_bytes 8 (pts_and_flags (header p)) ++ be_bytes 4 (size (header p)) ++ payload p.

Lemma media_packet_image p :
  wf_media (header p) → is_config (header p) = false → size (header p) = blen (payload p) →
  media_packet (media_image p) = Ok (Media p).
Proof.
  intros Hwf Hc Hs. unfold media_packet, media_image, bail_if at 1.
  assert (Hlen : blen (be_bytes 8 (pts_and_flags (header p)) ++ be_bytes 4 (size (header p)) ++ payload p) = 12 + blen (payload p))
    by (unfold blen; rewrite !length_app, !be_bytes_length; lia).
  rewrite Hlen, MEDIA_HEADER_eq. destruct (Z.ltb_spec (12 + blen (payload p)) 12) as [|_]; [unfold blen in *; lia|].
  rewrite first_bit_media, be_bytes_first_bit, pts_and_flags_bit, (bool_decide_true (63 = 63)), orb_true_r by done.
  cbn [orb negb mbind outcome_bind]. rewrite app_assoc.
  rewrite take_app_length' by (by rewrite length_app, !be_bytes_length). rewrite media_deserialize_serialized by done.
  cbn [mbind outcome_bind]. rewrite Hc, Hs. replace (12 + blen (payload p) - 12) with (blen (payload p)) by lia.
  rewrite Z.eqb_refl. cbn [orb negb bail_if mbind outcome_bind].
  rewrite drop_app_length' by (by rewrite length_app, !be_bytes_length). by destruct p.
Qed.

Definition key_of (p : PayloadId * bytes) : Z * Z := (source_block_number p.1, encoding_symbol_id p.1).

(** The outputs of an object decoder over a sequence of symbols *)
Fixpoint decode_outputs (oti : Oti) (ps : list (PayloadId * bytes)) (d : ObjectDecoder)
    : outcome ProtocolError (list (option bytes)) :=
  match ps with
  | [] => Ok []
  | (id, sym) :: ps =>
      '(d, out) ← ObjectDecoder_decode oti id sym d;
      outs ← decode_outputs oti ps d;
      Ok (out :: outs)
  end.

(** The decoder after distinct symbols *)
Fixpoint feed_state (ps : list (PayloadId * bytes)) (d : Decoder) : outcome ProtocolError Decoder :=
  match ps with
  | [] => Ok d
  | (id, sym) :: ps => '(d, _) ← Decoder_decode id sym d; feed_state ps d
  end.

Lemma feed_snoc fed d0 d id sym d' out :
  feed_state fed d0 = Ok d → Decoder_decode id sym d = Ok (d', out) →
  feed_state (fed ++ [(id, sym)]) d0 = Ok d' ∧ ∃ outs, feed_decoder (fed ++ [(id, sym)]) d0 = Ok (outs ++ [out]).
Proof.
  revert d0. induction fed as [|[i s] fed IH]; intros d0 Hf Hd; cbn [app feed_state feed_decoder] in *.
  - injection Hf as ->. rewrite Hd. cbn. split; [done|]. by exists [].
  - destruct (Decoder_decode i s d0) as [[d1 o]|e|]; cbn [mbind outcome_bind] in *; [|done|done].
    destruct (IH d1 Hf Hd) as (-> & outs & ->). split; [done|]. by exists (o :: outs).
Qed.

Section OneObject.
Context (data : bytes) (oti : Oti) (n : Z) (d0 : Decoder).
Hypothesis Hlen : transfer_length oti = blen data.
Hypothesis Hv : rfc_valid oti.
Hypothesis Hd0 : Decoder_new oti = Ok d0.

(** The object decoder has been fed the distinct symbols [fed] of the object. *)
Definition fed_with (fed : list (PayloadId * bytes)) (d : ObjectDecoder) : Prop :=
  feed_state fed d0 = Ok (decoder d) ∧ NoDup (key_of <$> fed) ∧ od_oti d = oti ∧
  (∀ p, p ∈ fed → p ∈ get_encoded_packets data oti n) ∧ (∀ p, p ∈ fed → key_of p ∈ received d).

(** A further symbol of the object *)
Lemma decode_fed id sym fed d d' o :
  fed_with fed d → (id, sym) ∈ get_encoded_packets data oti n → ObjectDecoder_decode oti id sym d = Ok (d', o) →
  (∃ fed', fed_with fed' d') ∧ ∀ out, o = Some out → out = data.
Proof.
  intros Hfed Hin Hd. pose proof Hfed as (Hf & Hnd & Hoti & Hsub & Hrec).
  unfold ObjectDecoder_decode in Hd. apply bind_Ok in Hd as ([] & _ & Hd). apply bind_Ok in Hd as ([] & _ & Hd).
  case_bool_decide as Hk; [injection Hd as <- <-; split; [by exists fed|done]|].
  apply bind_Ok in Hd as (c & _ & Hd). apply bind_Ok in Hd as ([] & _ & Hd).
  apply bind_Ok in Hd as ([d2 o2] & Hdec & [= <- <-]). destruct (feed_snoc _ _ _ _ _ _ _ Hf Hdec) as (Hf2 & outs2 & Hfeed).
  assert (Hnd2 : NoDup (key_of <$> fed ++ [(id, sym)])).
  { rewrite fmap_app. apply NoDup_app. split_and!; [done| |apply NoDup_singleton].
    intros k (p & -> & Hp)%list_elem_of_fmap Hk2. apply Hk. apply list_elem_of_singleton in Hk2. unfold key_of at 2 in Hk2.
    cbn in Hk2. rewrite <- Hk2. by apply Hrec. }
  assert (Hsub2 : ∀ p, p ∈ fed ++ [(id, sym)] → p ∈ get_encoded_packets data oti n).
  { intros p [Hp| ->%list_elem_of_singleton]%elem_of_app; [by apply Hsub|done]. }
  split.
  - exists (fed ++ [(id, sym)]). split_and!; [done|done|done|done|]. cbn.
    intros p [Hp| ->%list_elem_of_singleton]%elem_of_app; [|set_solver]. apply elem_of_union_r. by apply Hrec.
  - intros out ->. apply (decode_sound data oti n (fed ++ [(id, sym)]) d0 (outs2 ++ [Some out])); try done.
    apply elem_of_app. right. left.
Qed.

Lemma decode_outputs_sound ps fed d outs :
  fed_with fed d → (∀ p, p ∈ ps → p ∈ get_encoded_packets data oti n) →
  decode_outputs oti ps d = Ok outs → ∀ out, Some out ∈ outs → out = data.
Proof.
  revert fed d outs. induction ps as [|[id sym] ps IH]; intros fed d outs Hfed Hps Ho out Hin.
  { injection Ho as <-. by apply not_elem_of_nil in Hin. }
  cbn [decode_outputs] in Ho. apply bind_Ok in Ho as ([d1 o] & Hd & Ho). apply bind_Ok in Ho as (outs' & Ho & [= <-]).
  destruct (decode_fed _ _ _ _ _ _ Hfed (Hps _ ltac:(left)) Hd) as [(fed' & Hfed') Hout].
  apply elem_of_cons in Hin as [Hin|Hin]; [by apply Hout|]. eapply IH; [exact Hfed'| |exact Ho|done].
  intros p Hp. apply Hps. by right.
Qed.

(** A new decoder of the object *)
Lemma fed_with_new d max_payload : ObjectDecoder_new oti max_payload = Ok d → fed_with [] d.
Proof.
  unfold ObjectDecoder_new. intros Hnew. apply bind_Ok in Hnew as ([] & _ & Hnew). rewrite Hd0 in Hnew. injection Hnew as <-.
  split_and!; cbn; [done|constructor|done|..]; intros p Hp; by apply not_elem_of_nil in Hp.
Qed.
End OneObject.

(** Whatever symbols of a video packet arrive, in whatever order and
    however often, an object decoder of the receiver only ever outputs the bytes
    the sender encoded, and they convert back to the packet sent; each datagram
    of the sender parses to the symbol, the OTI and the sequence numbers it
    carries. *)
Theorem fec_object_recovered packet self max ps d outs :
  wf_media (header packet) → is_config (header packet) = false → size (header packet) = blen (payload packet) →
  is_u32 (kypacket_seq self) → is_u32 (group_seq self) →
  let data := media_image packet in
  let oti := encoder_config data (max - Z.of_nat DATAGRAM_HEADER_SIZE) in
  let sent := get_encoded_packets data oti (repair_symbols (symbols_of oti)) in
  blen data < 2 ^ 40 → Z.of_nat DATAGRAM_HEADER_SIZE < max → validate_oti oti MAX_VIDEO_PAYLOAD = Ok tt →
  (∀ p, p ∈ ps → p ∈ sent) →
  ObjectDecoder_new oti MAX_VIDEO_PAYLOAD = Ok d → decode_outputs oti ps d = Ok outs →
  (∀ out, Some out ∈ outs → out = data ∧ media_packet out = Ok (Media packet)) ∧
  (∀ id sym, (id, sym) ∈ sent →
     parse (datagram_bytes self (oti_serialize oti) id sym) =
     Ok {| dm_data := sym; dm_raw_kypacket_seq := kypacket_seq self; dm_raw_group_seq := group_seq self;
           dm_oti := oti; dm_payload_id := id |}).
Proof.
  intros Hwf Hc Hs Hk Hg data oti sent Hlen Hmax Hv Hps Hnew Hout.
  assert (Hdata : 0 < blen data) by (unfold data, media_image, blen; rewrite !length_app, !be_bytes_length; lia).
  destruct (encoder_config_spec data (max - Z.of_nat DATAGRAM_HEADER_SIZE) ltac:(lia) ltac:(lia)) as [Htl _]. fold oti in Htl.
  pose proof (validate_oti_acceptable _ _ _ Hv) as (_ & Hrfc & _). split.
  - destruct (decoder_new_ok oti Hrfc) as (d0 & Hd0 & _). intros out Hin.
    pose proof (fed_with_new data oti (repair_symbols (symbols_of oti)) d0 Hd0 _ _ Hnew) as Hfed.
    assert (out = data) as -> by (eapply decode_outputs_sound; eauto). split; [done|]. by apply media_packet_image.
  - intros id sym Hin. destruct (encoded_shape data oti _ id sym Htl Hrfc Hin). by apply parse_datagram_bytes.
Qed.
End Transfer.

(** ** Samples *)

Lemma sender_within_symbol_cap_witness :
  source_symbols_for_block sample_oti 0 + repair_symbols (symbols_of sample_oti) ≤ 2 * source_symbols_for_block sample_oti 0 + 32.
Proof. apply (sender_within_symbol_cap sample_oti MAX_VIDEO_PAYLOAD 0); [by vm_compute|by vm_compute]. Defined.

Definition sample_packet : MediaPacket :=
  {| header := {| is_config := false; is_key := true; pts := 7; size := 8 |}; payload := replicate 8 5 |}.

Definition sample_sender : SendDriver := send_start (open_channel 3 34 []) (open_writer []).

(** The three symbols of the packet, out of order, one of them twice *)
Definition sample_received : list (PayloadId * bytes) :=
  [(mk_id 0 2, symbol_at (media_image sample_packet) 8 2); (mk_id 0 0, symbol_at (media_image sample_packet) 8 0);
   (mk_id 0 2, symbol_at (media_image sample_packet) 8 2); (mk_id 0 1, symbol_at (media_image sample_packet) 8 1)].

Definition sample_decoder : @ObjectDecoder systematic :=
  {| od_oti := sys_config (media_image sample_packet) 8;
     decoder := {| sd_oti := sys_config (media_image sample_packet) 8; sd_symbols := [] |};
     received := ∅; per_block := [0]; received_sources := 0 |}.

Lemma fec_object_recovered_witness :
  (∀ out, Some out ∈ [None; None; None; Some (media_image sample_packet)] →
     out = media_image sample_packet ∧ media_packet out = Ok (Media sample_packet)) ∧
  (∀ id sym, (id, sym) ∈ get_encoded_packets (media_image sample_packet) (encoder_config (media_image sample_packet) 8) 2 →
     parse (datagram_bytes sample_sender (oti_serialize (encoder_config (media_image sample_packet) 8)) id sym) =
     Ok {| dm_data := sym; dm_raw_kypacket_seq := 0; dm_raw_group_seq := 0;
           dm_oti := encoder_config (media_image sample_packet) 8; dm_payload_id := id |}).
Proof.
  apply (fec_object_recovered sample_packet sample_sender 34 sample_received sample_decoder [None; None; None; Some (media_image sample_packet)]).
  - by vm_compute.
  - done.
  - done.
  - by vm_compute.
  - by vm_compute.
  - by vm_compute.
  - done.
  - by vm_compute.
  - intros p Hp. apply list_elem_of_In. apply list_elem_of_In in Hp. cbn in Hp |- *. naive_solver.
  - done.
  - by vm_compute.
Defined.
