(* ===== verification/FecRecovery.v ===== *)
(** * Recovery of an object

    When an object comes back: the laws of RaptorQ that say that enough symbols
    are enough, and the object decoder of [fec.rs] under them.  Its cap on the
    symbols of a block never rejects what a sender produces, and once sufficient
    symbols have been given to it, in any order, it has output the object. *)

From stdpp Require Import prelude list gmap strings.
From Stdlib Require Import ZArith Lia.
From S2P Require Import Prelude Io Av Packets Fec SystematicCode FecSafety VideoUnreliableFec FecTransfer.
Open Scope Z_scope.

(** ** What the code relies on

    Which sets of symbol identifiers determine an object is a matter of the
    parameters alone (RFC 6330, section 5.4.2): more symbols are never worse, and
    the source symbols are enough, the code being systematic.  The encoder makes
    the source symbols of a block and the repair symbols asked for. *)
Class RaptorQRecovery `{RaptorQ} := {
  sufficient : Oti → gset (Z * Z) → bool;
  sufficient_more oti (ids ids' : gset (Z * Z)) : ids ⊆ ids' → sufficient oti ids = true → sufficient oti ids' = true;
  sufficient_sources oti (ids : gset (Z * Z)) :
    rfc_valid oti → (∀ k, k ∈ source_keys oti (Z.to_nat (source_blocks oti)) → k ∈ ids) → sufficient oti ids = true;
  encoded_per_block data oti n b :
    transfer_length oti = blen data → rfc_valid oti → 0 ≤ n →
    Z.of_nat (length (filter (λ p, source_block_number p.1 = b) (get_encoded_packets data oti n))) ≤ source_symbols_for_block oti b + n;
  decode_complete data oti n ps d outs :
    transfer_length oti = blen data → rfc_valid oti → Decoder_new oti = Ok d → NoDup (key_of <$> ps) →
    (∀ p, p ∈ ps → p ∈ get_encoded_packets data oti n) →
    sufficient oti (list_to_set (key_of <$> ps)) = true →
    feed_decoder ps d = Ok outs → ∃ out, Some out ∈ outs;
}.

(** ** The symbols of a block *)

Section Blocks.
Context `{RL : RaptorQLaws} (oti : Oti) (Hv : rfc_valid oti).

Lemma symbols_fit : 0 < symbols_of oti < 2 ^ 32.
Proof.
  destruct Hv as (H1 & H2 & H3 & _ & _ & _ & _ & H8 & H9). split; [by apply div_ceil_pos|]. unfold MAX_BLOCK_SYMBOLS in H9.
  destruct (oti_widths oti) as (_ & _ & [_ Hu] & _). destruct (div_ceil_spec (symbols_of oti) (source_blocks oti)); nia.
Qed.

Lemma block_symbols_positive b : 1 ≤ source_symbols_for_block oti b.
Proof.
  pose proof symbols_fit. destruct Hv as (_ & _ & H3 & _ & _ & _ & _ & H8 & _). unfold source_symbols_for_block, wrap32. rewrite Z.mod_small by lia.
  rewrite partition_spec by lia. pose proof (Z.div_le_lower_bound (symbols_of oti) (source_blocks oti) 1 ltac:(lia) ltac:(lia)).
  unfold div_ceil. repeat case_match; lia.
Qed.

Lemma one_block_symbols : source_blocks oti = 1 → source_symbols_for_block oti 0 = symbols_of oti.
Proof.
  intros Hb. pose proof symbols_fit. unfold source_symbols_for_block, wrap32. rewrite Z.mod_small by lia. rewrite Hb, partition_spec by lia.
  by rewrite Z.mod_1_r, Z.div_1_r.
Qed.

Lemma first_source_key : (0, 0) ∈ source_keys oti (Z.to_nat (source_blocks oti)).
Proof. pose proof (block_symbols_positive 0). destruct Hv as (_ & _ & H3 & _). apply elem_of_source_keys; lia. Qed.
End Blocks.

(** ** The systematic code *)

Lemma find_symbol_here e l : e ∈ l.*1 → is_Some (find_symbol e l).
Proof.
  induction l as [|[e' s] l IH]; cbn; [by intros ?%not_elem_of_nil|]. intros [->|He]%elem_of_cons; [by rewrite decide_True|].
  case_decide; [done|by apply IH].
Qed.

Lemma sys_feed_complete ps d outs :
  ps ≠ [] → (∀ e, (e < sys_symbols (sd_oti d))%nat → Z.of_nat e ∈ ((λ p : sys_id * bytes, (`p.1).2) <$> ps) ++ (sd_symbols d).*1) →
  feed_decoder (H := systematic) ps d = Ok outs → ∃ out, Some out ∈ outs.
Proof.
  revert d outs. induction ps as [|[i s] ps IH]; intros d outs Hne Hall Hf; [done|].
  cbn [feed_decoder] in Hf. unfold Decoder_decode, systematic, sys_decode in Hf. cbn [mbind outcome_bind] in Hf.
  set (d' := {| sd_oti := sd_oti d; sd_symbols := _ |}) in Hf. apply bind_Ok in Hf as (outs' & Hf & [= <-]).
  destruct (decide (ps = [])) as [->|Hps].
  - injection Hf as <-. rewrite decide_True; [eexists; by left|]. apply Forall_fmap, Forall_forall. intros e He%elem_of_seq.
    apply (find_symbol_here (Z.of_nat e) (((`i).2, s) :: sd_symbols d)), Hall. lia.
  - destruct (IH d' outs' Hps) as [out Hout]; [|exact Hf|exists out; by right].
    intros e He. specialize (Hall e He). cbn in Hall |- *. set_solver.
Qed.

Lemma sys_symbols_of (oti : sys_oti) : rfc_valid (H := systematic) oti → Z.of_nat (sys_symbols oti) = symbols_of (RQ := systematic) oti.
Proof. intros Hv. pose proof (symbols_fit (RL := systematic_laws) oti Hv) as [? _]. unfold sys_symbols. rewrite Z2Nat.id; [done|]. by apply Z.lt_le_incl. Qed.

Lemma sys_block_packets data (oti : sys_oti) n b :
  rfc_valid (H := systematic) oti → 0 ≤ n →
  Z.of_nat (length (filter (λ p, source_block_number p.1 = b) (sys_packets data oti n))) ≤ source_symbols_for_block (RQ := systematic) oti b + n.
Proof.
  intros Hv Hn. pose proof (block_symbols_positive (RL := systematic_laws) oti Hv b) as Hs.
  assert (Hpos : 0 ≤ source_symbols_for_block oti b + n) by lia. unfold sys_packets.
  destruct (decide (r_blocks (`oti) = 1)) as [H1|]; [|done]. destruct (decide (b = 0)) as [->|Hb].
  - rewrite (one_block_symbols (RL := systematic_laws) oti Hv H1), <- (sys_symbols_of oti Hv).
    etrans; [apply inj_le, length_filter|]. rewrite length_fmap, length_seq. lia.
  - assert (∀ l, filter (λ p : sys_id * bytes, source_block_number p.1 = b)
      ((λ e : nat, (mk_id 0 (Z.of_nat e), symbol_at data (Z.to_nat (r_symbol (`oti))) e)) <$> l) = []) as ->; [|done].
    intros l. induction l as [|e l IH]; [done|]. cbn [fmap list_fmap]. rewrite filter_cons_False; [exact IH|]. intros Heq. by apply Hb.
Qed.

#[export] Instance systematic_recovery : RaptorQRecovery (H := systematic).
Proof.
  refine {| sufficient (oti : Oti (RaptorQ := systematic)) ids := bool_decide (Forall (λ k, k ∈ ids) (source_keys oti (Z.to_nat (source_blocks oti)))) |}.
  - intros oti ids ids' Hsub Hs%bool_decide_eq_true. apply bool_decide_eq_true. eapply Forall_impl; [exact Hs|]. set_solver.
  - intros oti ids _ Hk. by apply bool_decide_eq_true, Forall_forall.
  - intros data oti n b _ Hv Hn. by apply sys_block_packets.
  - intros data oti n ps d outs Hl Hv [= <-] _ Hps Hsuf%bool_decide_eq_true Hf. rewrite Forall_forall in Hsuf.
    pose proof (Hsuf _ (first_source_key (RL := systematic_laws) oti Hv)) as Hne.
    assert (ps ≠ []) as Hps0 by (intros ->; cbn in Hne; set_solver). destruct (decide (r_blocks (`oti) = 1)) as [Hb|Hb].
    2:{ destruct ps as [|p ps]; [done|]. specialize (Hps p ltac:(left)). cbn in Hps. unfold sys_packets in Hps. rewrite decide_False in Hps by done.
        by apply not_elem_of_nil in Hps. }
    eapply (sys_feed_complete ps {| sd_oti := oti; sd_symbols := [] |}); [done| |exact Hf].
    intros e He. cbn [sd_oti sd_symbols fmap list_fmap] in *. rewrite app_nil_r.
    assert (Hin : (0, Z.of_nat e) ∈ source_keys oti (Z.to_nat (source_blocks oti))).
    { assert (Hb1 : source_blocks oti = 1) by exact Hb. apply elem_of_source_keys; [rewrite Hb1; done|].
      rewrite (one_block_symbols (RL := systematic_laws) oti Hv Hb1), <- (sys_symbols_of oti Hv). lia. }
    specialize (Hsuf _ Hin). rewrite elem_of_list_to_set in Hsuf. apply list_elem_of_fmap in Hsuf as (p & [= Hp1 Hp2] & Hp).
    apply list_elem_of_fmap. by exists p.
Defined.

(** ** The object decoder *)

Section Recovery.
Context `{RL : RaptorQLaws} {RR : RaptorQRecovery}.

Lemma feed_decoder_snoc fed d0 d id sym d' out outs :
  feed_state fed d0 = Ok d → feed_decoder fed d0 = Ok outs → Decoder_decode id sym d = Ok (d', out) →
  feed_decoder (fed ++ [(id, sym)]) d0 = Ok (outs ++ [out]).
Proof.
  revert d0 outs. induction fed as [|[i s] fed IH]; intros d0 outs Hf Ho Hd; cbn [app feed_state feed_decoder] in *.
  - injection Hf as ->. injection Ho as <-. by rewrite Hd.
  - destruct (Decoder_decode i s d0) as [[d1 o]|e|]; cbn [mbind outcome_bind] in *; [|done..].
    apply bind_Ok in Ho as (outs1 & Ho & [= <-]). by rewrite (IH d1 outs1 Hf Ho Hd).
Qed.

Section OneObject.
Context (data : bytes) (oti : Oti) (n : Z) (d0 : Decoder) (max_payload : Z).
Hypothesis Hlen : transfer_length oti = blen data.
Hypothesis Hv : validate_oti oti max_payload = Ok tt.
Hypothesis Hd0 : Decoder_new oti = Ok d0.

(** The object decoder holds the distinct symbols [fed] and has output nothing. *)
Definition undecoded (fed : list (PayloadId * bytes)) (d : ObjectDecoder) : Prop :=
  fed_with data oti n d0 fed d ∧ (∀ k, k ∈ received d → k ∈ key_of <$> fed) ∧
  ∃ outs, feed_decoder fed d0 = Ok outs ∧ Forall (λ o, o = None) outs.

Lemma undecoded_new d : ObjectDecoder_new oti max_payload = Ok d → undecoded [] d.
Proof.
  intros Hnew. split; [by apply (fed_with_new _ _ _ _ Hd0 d max_payload)|]. split; [|by exists []].
  unfold ObjectDecoder_new in Hnew. rewrite Hv, Hd0 in Hnew. injection Hnew as <-. cbn. set_solver.
Qed.

(** Symbols that determine the object would have been output. *)
Lemma undecoded_insufficient fed d ids : undecoded fed d → ids ⊆ received d → sufficient oti ids = false.
Proof.
  intros ((_ & Hnd & _ & Hsub & _) & Hrec & outs & Hf & Hnone) Hids. apply not_true_is_false. intros Hs.
  destruct (decode_complete data oti n fed d0 outs) as [out Hout]; [done|apply (validate_oti_acceptable _ _ _ Hv)|done|done|done| |done|].
  - eapply sufficient_more; [|exact Hs]. intros k Hk. apply elem_of_list_to_set. auto.
  - rewrite Forall_forall in Hnone. by specialize (Hnone _ Hout).
Qed.

Hypothesis Hn : 0 ≤ n.
Hypothesis Hcap : ∀ b, 0 ≤ b < source_blocks oti → source_symbols_for_block oti b + n ≤ 2 * source_symbols_for_block oti b + 32.

(** A symbol that is new leaves the block below its cap. *)
Lemma block_room fed d id sym :
  undecoded fed d → (id, sym) ∈ get_encoded_packets data oti n → key_of (id, sym) ∉ received d →
  block_count (source_block_number id) (received d) < 2 * source_symbols_for_block oti (source_block_number id) + 32.
Proof.
  intros ((_ & _ & _ & Hsub & _) & Hrec & _) Hin Hnew. set (b := source_block_number id).
  pose proof (validate_oti_acceptable _ _ _ Hv) as (_ & Hrfc & _).
  destruct (encoded_shape _ _ _ _ _ Hlen Hrfc Hin) as [Hb _]. destruct (id_widths id) as [[Hb0 _] _]. fold b in Hb, Hb0.
  enough (block_count b (received d) + 1 ≤ source_symbols_for_block oti b + n) by (pose proof (Hcap b ltac:(lia)); lia).
  etrans; [|apply (encoded_per_block data oti n b Hlen Hrfc Hn)]. unfold block_count, base.size, set_size. cbn.
  set (ks := elements (filter (λ k : Z * Z, k.1 = b) (received d))).
  assert (Hsm : key_of (id, sym) :: ks ⊆+ key_of <$> filter (λ p, source_block_number p.1 = b) (get_encoded_packets data oti n)).
  { apply NoDup_submseteq.
    - constructor; [|apply NoDup_elements]. unfold ks. rewrite elem_of_elements, elem_of_filter. by intros [_ ?].
    - intros k [->|Hk]%elem_of_cons; apply list_elem_of_fmap.
      + exists (id, sym). split; [done|]. by apply list_elem_of_filter.
      + unfold ks in Hk. apply elem_of_elements, elem_of_filter in Hk as [Hkb Hk]. apply Hrec, list_elem_of_fmap in Hk as (p & -> & Hp).
        exists p. split; [done|]. apply list_elem_of_filter. split; [done|]. by apply Hsub. }
  apply submseteq_length in Hsm. rewrite length_fmap in Hsm. cbn in Hsm. lia.
Qed.

(** Every symbol of the sender is accepted. *)
Lemma decode_accepts fed d id sym :
  wf_decoder max_payload d → undecoded fed d → (id, sym) ∈ get_encoded_packets data oti n →
  ∃ d' o, ObjectDecoder_decode oti id sym d = Ok (d', o) ∧ received d' = {[key_of (id, sym)]} ∪ received d ∧
    od_oti d' = oti ∧ (o = None → ∃ fed', undecoded fed' d') ∧ (∀ out, o = Some out → out = data).
Proof.
  intros Hwf Hun Hin. pose proof Hun as ((Hf & Hnd & Hoti & Hsub & Hfr) & Hrec & outs & Hfeed & Hnone).
  pose proof (validate_oti_acceptable _ _ _ Hv) as (_ & Hrfc & _). destruct (encoded_shape _ _ _ _ _ Hlen Hrfc Hin) as [Hb Hs].
  assert (Hdec : ∃ d' o, ObjectDecoder_decode oti id sym d = Ok (d', o) ∧ received d' = {[key_of (id, sym)]} ∪ received d ∧ od_oti d' = oti ∧
    (o = None → ∃ outs', feed_state (if bool_decide (key_of (id, sym) ∈ received d) then fed else fed ++ [(id, sym)]) d0 = Ok (decoder d') ∧
       feed_decoder (if bool_decide (key_of (id, sym) ∈ received d) then fed else fed ++ [(id, sym)]) d0 = Ok outs' ∧ Forall (λ o, o = None) outs')).
  { unfold ObjectDecoder_decode. rewrite Hoti, (bool_decide_true (oti = oti)) by done. cbn [negb bail_if mbind outcome_bind].
    unfold validate_symbol. destruct (Z.leb_spec (source_blocks oti) (source_block_number id)); [lia|]. rewrite Hs, Z.eqb_refl. cbn [negb bail_if mbind outcome_bind].
    case_bool_decide as Hk.
    { rewrite (bool_decide_true (key_of (id, sym) ∈ received d)) by exact Hk. exists d, None. split_and!; [done|set_solver|done|]. intros _. by exists outs. }
    rewrite (bool_decide_false (key_of (id, sym) ∈ received d)) by exact Hk.
    destruct (lookup_per_block max_payload d id Hwf ltac:(by rewrite Hoti)) as [c Hc]. rewrite Hc. cbn [expect mbind outcome_bind].
    destruct (source_symbols_spec oti max_payload (source_block_number id)) as [_ Hsrc]; [by apply validate_oti_acceptable in Hv|].
    destruct (wd_counts _ _ Hwf _ _ Hc) as [Hcount _]. destruct (id_widths id) as [[Hid0 Hid1] _]. rewrite Z2Nat.id in Hcount by done.
    pose proof (block_room fed d id sym Hun Hin Hk). unfold MAX_BLOCK_SYMBOLS in Hsrc.
    assert (wrap32 (wrap32 (2 * source_symbols_for_block oti (source_block_number id)) + 32) = 2 * source_symbols_for_block oti (source_block_number id) + 32) as ->
      by (unfold wrap32; rewrite (Z.mod_small (2 * _)) by lia; apply Z.mod_small; lia).
    unfold bail_if.
    destruct (Z.leb_spec (2 * source_symbols_for_block oti (source_block_number id) + 32) c) as [|_]; [lia|]. cbn [mbind outcome_bind].
    destruct (decoder_decode_ok oti id sym (decoder d)) as (dd & out & Hdd & _); [rewrite <- Hoti; apply Hwf|done|done|]. rewrite Hdd. cbn [mbind outcome_bind].
    eexists _, out. split_and!; [done|done|done|]. intros ->. exists (outs ++ [None]). cbn [decoder]. split_and!.
    - by eapply feed_snoc.
    - by eapply feed_decoder_snoc.
    - apply Forall_app. split; [done|by repeat constructor]. }
  destruct Hdec as (d' & o & Hd & Hr & Ho & Hnext). exists d', o.
  destruct (decode_fed data oti n d0 Hlen Hrfc Hd0 id sym fed d d' o (proj1 Hun) Hin Hd) as [_ Hout]. split_and!; [done|done|done| |done].
  intros Hno. destruct (Hnext Hno) as (outs' & Hf' & Hfeed' & Hnone'). eexists. split; [|split; [|exists outs'; split; [exact Hfeed'|exact Hnone']]].
  - split; [exact Hf'|]. case_bool_decide as Hk; [split_and!; [done|done|done|]; intros p Hp; rewrite Hr; set_solver|]. split_and!; [|done|..].
    + rewrite fmap_app. apply NoDup_app. split_and!; [done| |apply NoDup_singleton]. cbn. intros k (p & -> & Hp)%list_elem_of_fmap Hkk.
      apply list_elem_of_singleton in Hkk. apply Hk. rewrite <- Hkk. by apply Hfr.
    + intros p [Hp| ->%list_elem_of_singleton]%elem_of_app; auto.
    + rewrite Hr. intros p [Hp| ->%list_elem_of_singleton]%elem_of_app; [|set_solver]. apply elem_of_union_r. auto.
  - rewrite Hr. case_bool_decide as Hk; intros k [->%elem_of_singleton|Hk']%elem_of_union; auto; rewrite fmap_app; apply elem_of_app; [right; by left|left; auto].
Qed.
End OneObject.

(** ** A decoder that has not output its object *)

Section OpenObject.
Context (data : bytes) (oti : Oti) (n max_payload : Z).
Hypothesis Hlen : transfer_length oti = blen data.
Hypothesis Hv : validate_oti oti max_payload = Ok tt.

Definition open_object (d : ObjectDecoder) : Prop := ∃ d0 fed, Decoder_new oti = Ok d0 ∧ undecoded data oti n d0 fed d.

Lemma open_object_oti d : open_object d → od_oti d = oti.
Proof. by intros (d0 & fed & _ & (_ & _ & Ho & _) & _). Qed.

Lemma open_object_new : ∃ d, ObjectDecoder_new oti max_payload = Ok d ∧ wf_decoder max_payload d ∧ open_object d ∧ received d = ∅.
Proof.
  pose proof (ObjectDecoder_new_wf oti max_payload) as Hnew. destruct (ObjectDecoder_new oti max_payload) as [d|e|] eqn:Hd; [|done..].
  destruct Hnew as (Hwf & _ & Hr & _). destruct (decoder_new_ok oti) as (d0 & Hd0 & _); [apply (validate_oti_acceptable _ _ _ Hv)|].
  exists d. split_and!; [done|done| |done]. exists d0, []. split; [done|]. exact (undecoded_new _ _ _ _ max_payload Hlen Hv Hd0 _ Hd).
Qed.

Lemma open_object_insufficient d ids : open_object d → ids ⊆ received d → sufficient oti ids = false.
Proof. intros (d0 & fed & Hd0 & Hun). by eapply undecoded_insufficient. Qed.

Lemma nothing_insufficient : sufficient oti ∅ = false.
Proof. destruct open_object_new as (d & _ & _ & Hd & _). by apply (open_object_insufficient d); [|set_solver]. Qed.

Lemma open_object_decode id sym d :
  0 ≤ n → (∀ b, 0 ≤ b < source_blocks oti → source_symbols_for_block oti b + n ≤ 2 * source_symbols_for_block oti b + 32) →
  wf_decoder max_payload d → open_object d → (id, sym) ∈ get_encoded_packets data oti n →
  ∃ d' o, ObjectDecoder_decode oti id sym d = Ok (d', o) ∧ received d' = {[key_of (id, sym)]} ∪ received d ∧ od_oti d' = oti ∧
    match o with None => open_object d' | Some out => out = data end.
Proof.
  intros Hn Hcap Hwf (d0 & fed & Hd0 & Hun) Hin.
  destruct (decode_accepts _ _ _ _ _ Hlen Hv Hd0 Hn Hcap _ _ _ _ Hwf Hun Hin) as (d' & o & Hdec & Hrec & Ho & Hnone & Hsome).
  exists d', o. split_and!; [done|done|done|]. destruct o as [out|]; [by apply Hsome|].
  destruct (Hnone eq_refl) as (fed' & Hun'). by exists d0, fed'.
Qed.
End OpenObject.

(** The repair symbols of a sender are within the cap of the decoder. *)
Lemma repair_within_cap oti max_payload :
  validate_oti oti max_payload = Ok tt → source_blocks oti ≤ 3 →
  0 ≤ repair_symbols (symbols_of oti) ∧
  ∀ b, source_symbols_for_block oti b + repair_symbols (symbols_of oti) ≤ 2 * source_symbols_for_block oti b + 32.
Proof.
  intros Hv Hb. pose proof (validate_oti_acceptable _ _ _ Hv) as Ha. destruct (symbols_cover _ _ Ha) as [Hpos _]. destruct Ha as (_ & _ & Hmax).
  set (k := symbols_of oti) in *. pose proof (repair_close k ltac:(lia)). split; [lia|]. intros b.
  exact (sender_within_symbol_cap oti max_payload b Hv Hb).
Qed.
End Recovery.
