(* ===== verification/Arrivals.v ===== *)
(** * What has arrived of a session

    Shared by the delivery of audio and of video with error correction: the
    symbols of a packet among the events of a run, the first packet that is
    missing, and the weight of distinct packets. *)

From stdpp Require Import prelude list gmap.
From Stdlib Require Import ZArith Lia.
From S2P Require Import Prelude.
Open Scope Z_scope.

(** ** Symbols *)

Section Symbols.
Context {Event : Type} (symbol_of : Event → option (Z * (Z * Z))).

(** The identifiers of the symbols of packet [k] *)
Definition packet_ids (evs : list Event) (k : Z) : gset (Z * Z) :=
  list_to_set (omap (λ ev, '(k', key) ← symbol_of ev; if k' =? k then Some key else None) evs).

Lemma elem_of_packet_ids evs k key : key ∈ packet_ids evs k ↔ ∃ ev, ev ∈ evs ∧ symbol_of ev = Some (k, key).
Proof.
  unfold packet_ids. rewrite elem_of_list_to_set, list_elem_of_omap. split.
  - intros (ev & Hev & Hk). exists ev. split; [done|]. destruct (symbol_of ev) as [[k' key']|]; [|done]. cbn in Hk.
    destruct (Z.eqb_spec k' k) as [->|]; congruence.
  - intros (ev & Hev & Hk). exists ev. split; [done|]. rewrite Hk. cbn. by rewrite Z.eqb_refl.
Qed.

Lemma packet_ids_snoc evs ev k : packet_ids (evs ++ [ev]) k = packet_ids evs k ∪ packet_ids [ev] k.
Proof. unfold packet_ids. by rewrite omap_app, list_to_set_app_L. Qed.

Lemma packet_ids_other ev k : match symbol_of ev with Some (k', _) => k' ≠ k | None => True end → packet_ids [ev] k = ∅.
Proof.
  intros Hk. apply set_eq. intros key. rewrite elem_of_packet_ids. split; [|set_solver]. intros (ev' & ->%list_elem_of_singleton & Hs).
  by rewrite Hs in Hk.
Qed.

(** An event that brings a symbol *)
Lemma packet_ids_self evs ev k key x : symbol_of ev = Some (k, key) → x ∈ packet_ids (evs ++ [ev]) k ↔ x ∈ packet_ids evs k ∨ x = key.
Proof.
  intros Hev. rewrite packet_ids_snoc, elem_of_union, (elem_of_packet_ids [ev]). split; (intros [?|Hx]; [by left|right]).
  - destruct Hx as (ev' & ->%list_elem_of_singleton & Hs). congruence.
  - exists ev. split; [by apply list_elem_of_singleton|]. by rewrite Hx.
Qed.

Lemma packet_ids_kept evs ev k : match symbol_of ev with Some (k', _) => k' ≠ k | None => True end → packet_ids (evs ++ [ev]) k = packet_ids evs k.
Proof. intros Hk. rewrite packet_ids_snoc, packet_ids_other by done. apply (right_id_L _ _). Qed.
End Symbols.

(** ** The first packet missing *)

Section Frontier.
Context (n : nat) (arrived : Z → bool).

Definition numbers : list Z := seqZ 0 (Z.of_nat n).

Lemma elem_of_numbers k : k ∈ numbers ↔ 0 ≤ k < Z.of_nat n.
Proof. unfold numbers. rewrite elem_of_seqZ. lia. Qed.

Definition first_missing : Z :=
  match list_find (λ k, arrived k = false) numbers with
  | Some (_, k) => k
  | None => Z.of_nat n
  end.

Lemma first_missing_le k : 0 ≤ k → arrived k = false → first_missing ≤ k.
Proof.
  intros Hk Ha. unfold first_missing. destruct (list_find _ numbers) as [[i x]|] eqn:Hf.
  - apply list_find_Some in Hf as (Hi & _ & Hmin). apply lookup_seqZ in Hi as [-> Hi]. destruct (Z.le_gt_cases (0 + Z.of_nat i) k) as [|Hlt]; [done|].
    exfalso. destruct (Hmin (Z.to_nat k) k) as []; [apply lookup_seqZ; lia|lia|done].
  - apply list_find_None in Hf. rewrite Forall_forall in Hf. destruct (Z.le_gt_cases (Z.of_nat n) k) as [|Hlt]; [done|].
    destruct (Hf k); [apply elem_of_numbers; lia|done].
Qed.

Lemma first_missing_bound : 0 ≤ first_missing ≤ Z.of_nat n.
Proof.
  unfold first_missing. destruct (list_find _ numbers) as [[i x]|] eqn:Hf; [|lia].
  apply list_find_Some in Hf as (Hi & _). apply lookup_seqZ in Hi as [-> Hi]. lia.
Qed.

Lemma first_missing_all : first_missing = Z.of_nat n ↔ ∀ k, 0 ≤ k < Z.of_nat n → arrived k = true.
Proof.
  split.
  - intros Heq k Hk. destruct (arrived k) eqn:Ha; [done|]. apply first_missing_le in Ha; lia.
  - intros Hall. unfold first_missing. destruct (list_find _ numbers) as [[i x]|] eqn:Hf; [|done]. apply list_find_Some in Hf as (Hi & Hx & _).
    rewrite Hall in Hx; [done|]. apply elem_of_numbers. by eapply list_elem_of_lookup_2.
Qed.
End Frontier.

(** ** Weights *)

Lemma sum_list_fmap {A B} (f : B → Z) (g : A → B) l : sum_list_with f (g <$> l) = sum_list_with (λ x, f (g x)) l.
Proof. induction l as [|x l IH]; [done|]. cbn -[Z.add]. unfold sum_list_with in IH. by rewrite IH. Qed.

Lemma sum_list_ext {A} (f g : A → Z) l : (∀ x, x ∈ l → f x = g x) → sum_list_with f l = sum_list_with g l.
Proof.
  induction l as [|x l IH]; intros Hfg; [done|]. cbn -[Z.add]. rewrite (Hfg x) by left. f_equal. apply IH. intros y Hy. apply Hfg. by right.
Qed.

(** Distinct packets among others weigh less. *)
Lemma weights_some (w : Z → Z) ks ks' :
  (∀ k, 0 ≤ w k) → NoDup ks' → (∀ k, k ∈ ks' → k ∈ ks) → (length ks' ≤ length ks)%nat ∧ sum_list_with w ks' ≤ sum_list_with w ks.
Proof.
  intros Hw Hnd Hsub. apply NoDup_submseteq in Hsub; [|done]. apply submseteq_Permutation in Hsub as (rest & Hp).
  rewrite Hp, sum_list_app, length_app. pose proof (sum_list_nonneg w rest ltac:(auto)). lia.
Qed.
