(* ===== verification/AudioUnreliable.v ===== *)
(** * Unreliable audio driver

    Models [kyproto/src/protocol/driver/av/audio_unreliable.rs]: the sender, the
    parsing of its stream and datagrams, the single pending group and the
    [process] task, which fills gaps with hole packets.  The reassembly of
    segments is the one of [Reassembly]. *)

From stdpp Require Import prelude list strings.
From Stdlib Require Import ZArith Lia.
From S2P Require Import Prelude SortedVec Sequencer Io Av Packets Channel Reassembly.
Open Scope Z_scope.

Definition DATAGRAM_HEADER_SIZE : Z := 10.

(** [Duration::from_millis(10)], in microseconds *)
Definition MAX_BUFFERING : Z := 10 * 1000.

(** ** Sender *)

Record SendDriver := { ky_channel : KyChannel; stream : Writer; kypacket_seq : Z }.

(** [AudioUnreliableProtocolSendDriver::start], on the opened stream *)
Definition send_start (ch : KyChannel) (st : Writer) : SendDriver :=
  {| ky_channel := ch; stream := st; kypacket_seq := 0 |}.

Abbreviation sending := (handler SendDriver ProtocolError).

Definition on_channel {A} (m : handler KyChannel ProtocolError A) : sending A := λ self,
  let '(ch, r) := m (ky_channel self) in
  ({| ky_channel := ch; stream := stream self; kypacket_seq := kypacket_seq self |}, r).

Definition on_stream {A} (m : writing A) : sending A := λ self,
  let '(w, r) := m (stream self) in
  ({| ky_channel := ky_channel self; stream := w; kypacket_seq := kypacket_seq self |}, map_err io_message r).

Definition set_seq (k : Z) (self : SendDriver) : SendDriver :=
  {| ky_channel := ky_channel self; stream := stream self; kypacket_seq := k |}.

(** The buffer of one datagram *)
Definition datagram_bytes (self : SendDriver) (number_and_end : Z) (segment : bytes) : bytes :=
  write_datagram_header (ky_channel self) ++ be_bytes 4 (kypacket_seq self) ++ be_bytes 4 number_and_end ++ segment.

(** The [while offset < data.len()] loop; every round advances by at least one
    byte, so [length data] rounds are enough. *)
Fixpoint send_loop (fuel : nat) (max_payload : nat) (data : bytes) (offset : nat) (number : Z) : sending unit :=
  if decide (offset < length data)%nat then
    match fuel with
    | O => pureM Panic
    | S fuel =>
        let payload_size := Nat.min max_payload (length data - offset) in
        _ ← pureM (rassert (bool_decide (Z.of_nat payload_size < 2 ^ 16)));
        let end_ := bool_decide (offset + payload_size = length data)%nat in
        let number_and_end := Z.lor number (if end_ then Z.shiftl 1 31 else 0) in
        buf ← getM (λ self, datagram_bytes self number_and_end (slice offset payload_size data));
        _ ← on_channel (send_datagram connection_lost buf);
        send_loop fuel max_payload data (offset + payload_size) (number + 1)
    end
  else mret tt.

Definition send_datagrams (packet : MediaPacket) : sending unit :=
  max ← getM (λ self, max_datagram_size (ky_channel self));
  max ← pureM (ok_or max "Datagram not supported"%string);
  _ ← pureM (rassert (DATAGRAM_HEADER_SIZE <? max));
  hdr ← pureM (media_serialize (header packet));
  let data := hdr ++ payload packet in
  send_loop (length data) (Z.to_nat (max - DATAGRAM_HEADER_SIZE)) data 0 0.

(** [ProtocolSendDriver::send] *)
Definition send (packet : AVPacket) : sending unit :=
  match packet with
  | Codec p =>
      hdr ← pureM (codec_serialize (codec_header p));
      _ ← on_stream (write_all (be_bytes 4 0 ++ hdr));
      on_stream flush
  | Media p =>
      _ ← (if is_config (header p) then
             hdr ← pureM (media_serialize (header p));
             prefix ← getM (λ self, be_bytes 4 (kypacket_seq self));
             _ ← on_stream (write_all (prefix ++ hdr ++ payload p));
             on_stream flush
           else send_datagrams p);
      modifyM (λ self, set_seq (wrap32 (kypacket_seq self + 1)) self)
  | Hole _ => pureM Panic
  end.

(** ** Receiving tasks *)

Record StreamMsg := { sm_packet : AVPacket; sm_raw_kypacket_seq : Z }.
Record DatagramMsg := { dm_data : bytes; dm_raw_kypacket_seq : Z; dm_number : Z; dm_end : bool }.
Inductive RecvMsg := RStream (m : StreamMsg) | RDatagram (m : DatagramMsg).

(** One round of [recv_stream_packets] *)
Definition recv_stream_packet (r : Reader) : outcome ProtocolError (RecvMsg * Reader) :=
  '(seqs, r) ← map_err io_message (read_exact 4 r);
  '(packet, r) ← map_err io_message (av_read r);
  packet ← ok_or packet "Missing packet data on stream"%string;
  Ok (RStream {| sm_packet := packet; sm_raw_kypacket_seq := read_be seqs |}, r).

(** One round of [recv_datagrams], on the datagram received *)
Definition recv_datagram {E} (datagram : bytes) : outcome E RecvMsg :=
  _ ← rassert (DATAGRAM_HEADER_SIZE <=? blen datagram);
  let number_and_end := read_be (slice 6 4 datagram) in
  Ok (RDatagram {| dm_data := drop 10 datagram;
                   dm_raw_kypacket_seq := read_be (slice 2 4 datagram);
                   dm_number := Z.land number_and_end (Z.shiftl 1 31 - 1);
                   dm_end := negb (Z.land number_and_end (Z.shiftl 1 31) =? 0) |}).

(** ** The pending group *)

Record PendingGroup := { config_packet : ConfigPacket; pending : Pending }.

Definition PendingGroup_new : PendingGroup := {| config_packet := CfgNone; pending := pending_new |}.

Definition insert_stream_packet {E} (kypacket_seq : Z) (packet : AVPacket) (self : PendingGroup) : outcome E PendingGroup :=
  _ ← rassert (cfg_is_none (config_packet self));
  Ok {| config_packet := CfgReady {| st_packet := packet; st_seq := kypacket_seq |}; pending := pending self |}.

(** [PendingGroup::insert_datagram] *)
Definition group_insert_datagram {E} (now : Instant) (kypacket_seq : Z) (number : nat) (end_ : bool) (data : bytes)
    (self : PendingGroup) : outcome E PendingGroup :=
  p ← insert_datagram now kypacket_seq number end_ data (pending self);
  Ok {| config_packet := config_packet self; pending := p |}.

Definition min_instant (self : PendingGroup) : option Instant := min_of_datagrams (datagrams (pending self)).

Inductive NextPacket := NpNone | NpReady (config : bool) | NpDeadline (i : Instant).

Definition next_packet (now next_kypacket_seq : Z) (self : PendingGroup) : NextPacket :=
  if cfg_is_none (config_packet self) then NpNone
  else
    if match config_packet self with CfgReady p => st_seq p =? next_kypacket_seq | _ => false end then NpReady true
    else
      match datagrams (pending self) with
      | [] => NpNone
      | d :: _ =>
          if dg_seq d =? next_kypacket_seq then NpReady (cfg_is_ready (config_packet self))
          else
            match min_instant self with
            | Some m =>
                if m + MAX_BUFFERING <=? now then NpReady (cfg_is_ready (config_packet self))
                else NpDeadline (m + MAX_BUFFERING)
            | None => NpNone
            end
      end.

Inductive Action :=
| APacket (kypacket_seq : Z) (packet : AVPacket)
| ADeadline (i : Instant)
| ANone.

Definition take_next_packet {E} (now next_kypacket_seq : Z) (self : PendingGroup) : outcome E (Action * PendingGroup) :=
  match next_packet now next_kypacket_seq self with
  | NpNone => Ok (ANone, self)
  | NpDeadline instant => Ok (ADeadline instant, self)
  | NpReady config =>
      _ ← rassert (negb (cfg_is_none (config_packet self)));
      if config : bool then
        _ ← rassert (cfg_is_ready (config_packet self));
        '(p, c) ← cfg_consume (config_packet self);
        Ok (APacket (st_seq p) (st_packet p), {| config_packet := c; pending := pending self |})
      else
        match datagrams (pending self) with
        | [] => Panic
        | d :: ds =>
            let p := drop_expired_segments (dg_seq d) {| datagrams := ds; segments := segments (pending self) |} in
            Ok (APacket (dg_seq d) (dg_packet d), {| config_packet := config_packet self; pending := p |})
        end
  end.

(** ** [process] *)

Record Process := {
  kypacket_sequencer : Sequencer;
  pending_group : PendingGroup;
  next_kypacket_seq : Z;
  deadline : option Instant;
  frame_size : option Z;
  protocol_stats : ProtocolStats;
  client : list (option Z * AVPacket);  (* packets sent to the client queue, annotated
                                           with the sequence number they were taken under *)
  client_open : bool;                   (* the client still holds its receiver *)
}.

Definition process_init (stats : ProtocolStats) : Process :=
  {| kypacket_sequencer := Sequencer_new; pending_group := PendingGroup_new; next_kypacket_seq := 0;
     deadline := None; frame_size := None; protocol_stats := stats; client := []; client_open := true |}.

Abbreviation processing := (handler Process ProtocolError).

Definition set_sequencer (k : Sequencer) (s : Process) : Process :=
  {| kypacket_sequencer := k; pending_group := pending_group s; next_kypacket_seq := next_kypacket_seq s;
     deadline := deadline s; frame_size := frame_size s; protocol_stats := protocol_stats s; client := client s;
     client_open := client_open s |}.
Definition set_group (g : PendingGroup) (s : Process) : Process :=
  {| kypacket_sequencer := kypacket_sequencer s; pending_group := g; next_kypacket_seq := next_kypacket_seq s;
     deadline := deadline s; frame_size := frame_size s; protocol_stats := protocol_stats s; client := client s;
     client_open := client_open s |}.
Definition set_deadline (d : option Instant) (s : Process) : Process :=
  {| kypacket_sequencer := kypacket_sequencer s; pending_group := pending_group s;
     next_kypacket_seq := next_kypacket_seq s; deadline := d; frame_size := frame_size s;
     protocol_stats := protocol_stats s; client := client s; client_open := client_open s |}.
Definition set_frame_size (f : Z) (s : Process) : Process :=
  {| kypacket_sequencer := kypacket_sequencer s; pending_group := pending_group s;
     next_kypacket_seq := next_kypacket_seq s; deadline := deadline s; frame_size := Some f;
     protocol_stats := protocol_stats s; client := client s; client_open := client_open s |}.
Definition set_next (k : Z) (s : Process) : Process :=
  {| kypacket_sequencer := kypacket_sequencer s; pending_group := pending_group s; next_kypacket_seq := k;
     deadline := deadline s; frame_size := frame_size s; protocol_stats := protocol_stats s; client := client s;
     client_open := client_open s |}.
Definition set_stats (st : ProtocolStats) (s : Process) : Process :=
  {| kypacket_sequencer := kypacket_sequencer s; pending_group := pending_group s;
     next_kypacket_seq := next_kypacket_seq s; deadline := deadline s; frame_size := frame_size s;
     protocol_stats := st; client := client s; client_open := client_open s |}.
Definition push_client (p : option Z * AVPacket) (s : Process) : Process :=
  {| kypacket_sequencer := kypacket_sequencer s; pending_group := pending_group s;
     next_kypacket_seq := next_kypacket_seq s; deadline := deadline s; frame_size := frame_size s;
     protocol_stats := protocol_stats s; client := client s ++ [p]; client_open := client_open s |}.

(** [tx_client.send(packet).await.map_err(ProtocolError::new)?] *)
Definition send_client (p : option Z * AVPacket) : processing unit := λ s,
  if client_open s then (push_client p s, Ok tt) else (s, Err "channel closed"%string).

Definition unroll (raw_kypacket : Z) : processing Z := λ s,
  let '(k, ks) := seq SeqU32 (kypacket_sequencer s) raw_kypacket in (set_sequencer ks s, Ok k).

Definition update_group (f : PendingGroup → outcome ProtocolError PendingGroup) : processing unit := λ s,
  match f (pending_group s) with
  | Ok g => (set_group g s, Ok tt)
  | Err e => (s, Err e)
  | Panic => (s, Panic)
  end.

(** What the [select!] yields: a message of the queue, its end, or the deadline *)
Inductive Event := EvMsg (m : RecvMsg) | EvEnd | EvDeadline.

(** How the loop goes on after the [select!] *)
Inductive Flow := Proceed | Continue | Return.

Definition handle_event (now : Instant) (ev : Event) : processing Flow :=
  match ev with
  | EvMsg (RStream m) =>
      match sm_packet m with
      | Codec p =>
          _ ← modifyM (set_frame_size (Av.frame_size (codec_header p)));
          _ ← pureM (rassert (0 <? Av.frame_size (codec_header p)));
          _ ← send_client (None, sm_packet m);
          mret Continue
      | _ =>
          k ← unroll (sm_raw_kypacket_seq m);
          next ← getM next_kypacket_seq;
          if next <=? k then _ ← update_group (insert_stream_packet k (sm_packet m)); mret Proceed
          else mret Proceed
      end
  | EvMsg (RDatagram m) =>
      k ← unroll (dm_raw_kypacket_seq m);
      next ← getM next_kypacket_seq;
      if k <? next then mret Continue
      else
        _ ← update_group (group_insert_datagram now k (Z.to_nat (dm_number m)) (dm_end m) (dm_data m));
        mret Proceed
  | EvEnd => mret Return
  | EvDeadline => mret Proceed
  end.

(** The samples missing for a gap of [missing] packets; the product is a [u64] *)
Definition hole_samples (missing frame_size : Z) : Z := Z.min (wrap64 (missing * frame_size)) (2 ^ 32 - 1).

(** The gap before packet [k]: statistics and hole packet *)
Definition fill_gap (k : Z) : processing unit :=
  next ← getM next_kypacket_seq;
  if next <? k then
    let missing := k - next in
    _ ← modifyM (λ s, set_stats (add_dropped missing (protocol_stats s)) s);
    f ← getM frame_size;
    f ← pureM (expect f);
    send_client (None, Hole {| hole_header := {| missing_audio_samples := hole_samples missing f |} |})
  else mret tt.

(** [match pending_group.take_next_packet(next_kypacket_seq)] *)
Definition take_step (now : Instant) : processing unit := λ s,
  match take_next_packet now (next_kypacket_seq s) (pending_group s) with
  | Err e => (s, Err e)
  | Panic => (s, Panic)
  | Ok (ANone, g) => (set_deadline None (set_group g s), Ok tt)
  | Ok (ADeadline instant, g) => (set_deadline (Some instant) (set_group g s), Ok tt)
  | Ok (APacket k packet, g) =>
      (f ← getM frame_size;
       _ ← pureM (rassert (bool_decide (is_Some f)));
       _ ← fill_gap k;
       _ ← modifyM (set_next (k + 1));
       _ ← send_client (Some k, packet);
       modifyM (set_deadline None)) (set_group g s)
  end.

(** One round of the loop of [process]: [now1] is the clock when a packet is
    assembled, [now2] when the next packet is looked for.  The result tells
    whether the loop goes on. *)
Definition step (now1 now2 : Instant) (ev : Event) : processing bool :=
  flow ← handle_event now1 ev;
  match flow with
  | Return => mret false
  | Continue => mret true
  | Proceed => _ ← take_step now2; mret true
  end.

(** A run of [process] over a sequence of timed events *)
Fixpoint run (evs : list (Instant * Instant * Event)) : processing unit :=
  match evs with
  | [] => mret tt
  | (now1, now2, ev) :: evs =>
      continue ← step now1 now2 ev;
      if continue : bool then run evs else mret tt
  end.
