(* ===== verification/AudioOrder.v ===== *)
(** * The audio timeline

    An abstract player that accepts exactly the streams without loss of time:
    packets in sequence, each gap announced by one hole packet of the right
    length.  The receiver of [AudioUnreliable] refines it for an honest sender,
    whatever the network reorders, duplicates or loses. *)

From stdpp Require Import prelude list strings.
From Stdlib Require Import ZArith Lia.
From S2P Require Import Prelude SortedVec Sequencer Io Av Packets Channel Reassembly AudioUnreliable.
Open Scope Z_scope.

(** ** The player *)

Record Playback := {
  pb_next : Z;                 (* next packet on the timeline *)
  pb_frame : option Z;         (* samples per packet *)
  pb_hole : option Z;          (* samples of a hole just announced *)
}.

Definition playback_start : Playback := {| pb_next := 0; pb_frame := None; pb_hole := None |}.

(** Samples of a gap of [missing] packets, up to what a hole packet can hold *)
Definition gap_samples (missing frame : Z) : Z := Z.min (missing * frame) (2 ^ 32 - 1).

Definition play (pb : Playback) (item : option Z * AVPacket) : option Playback :=
  match item, pb_hole pb with
  | (None, Codec p), None => Some {| pb_next := pb_next pb; pb_frame := Some (Av.frame_size (codec_header p)); pb_hole := None |}
  | (None, Hole h), None =>
      Some {| pb_next := pb_next pb; pb_frame := pb_frame pb; pb_hole := Some (missing_audio_samples (hole_header h)) |}
  | (Some k, _), None =>
      if bool_decide (k = pb_next pb ∧ is_Some (pb_frame pb)) then
        Some {| pb_next := k + 1; pb_frame := pb_frame pb; pb_hole := None |}
      else None
  | (Some k, _), Some samples =>
      if bool_decide (pb_next pb < k ∧ (gap_samples (k - pb_next pb) <$> pb_frame pb) = Some samples) then
        Some {| pb_next := k + 1; pb_frame := pb_frame pb; pb_hole := None |}
      else None
  | _, _ => None
  end.

Fixpoint play_all (pb : Playback) (items : list (option Z * AVPacket)) : option Playback :=
  match items with [] => Some pb | i :: items => pb ← play pb i; play_all pb items end.

Lemma play_all_app pb l1 l2 : play_all pb (l1 ++ l2) = pb' ← play_all pb l1; play_all pb' l2.
Proof. revert pb. induction l1 as [|i l1 IH]; intros pb; cbn; [done|]. destruct (play pb i); cbn; [apply IH|done]. Qed.

(** ** Honest sessions *)

Section Session.
Context (c : Z).  (* the sequence number of the config packet *)

(** Packet [k], stamped modulo 2^32, arrives within half a range of the newest
    one; a session has fewer than 2^48 packets. *)
Definition stamped (nk raw k : Z) : Prop :=
  raw = k mod range SeqU32 ∧ 0 ≤ k < 2 ^ 48 ∧ nk - half_range SeqU32 < k ≤ nk + half_range SeqU32.

(** The stream carries the codec packet and then one config packet, the first
    packet of the session; datagrams carry the media packets after it. *)
Fixpoint honest (nk : Z) (codec cfg : bool) (evs : list (Instant * Instant * Event)) : Prop :=
  match evs with
  | [] => True
  | (_, _, EvMsg (RStream m)) :: evs =>
      match sm_packet m with
      | Codec p => 0 < Av.frame_size (codec_header p) < 2 ^ 16 ∧ honest nk true cfg evs
      | _ => codec = true ∧ cfg = false ∧ stamped nk (sm_raw_kypacket_seq m) c ∧ honest (Z.max nk c) codec true evs
      end
  | (_, _, EvMsg (RDatagram m)) :: evs =>
      ∃ k, c < k ∧ stamped nk (dm_raw_kypacket_seq m) k ∧ honest (Z.max nk k) codec cfg evs
  | _ :: evs => honest nk codec cfg evs
  end.

Definition dropped (s : Process) : Z := default 0 (dropped_packets (protocol_stats s)).
Definition forwarded (s : Process) : list Z := omap fst (client s).

Definition config_inv (next : Z) (cfg : ConfigPacket) : Prop :=
  match cfg with
  | CfgNone => next ≤ c
  | CfgReady p => next ≤ c ∧ st_seq p = c ∧ c < 2 ^ 48
  | CfgSent => c < next
  end.

Record process_inv (d0 nk : Z) (codec cfg : bool) (s : Process) : Prop := {
  pi_seq : kypacket_sequencer s = {| newest_seq := nk |} ∧ 0 ≤ nk < 2 ^ 48;
  pi_wf : wf_pending (pending (pending_group s));
  pi_media : seqs_all (λ k, next_kypacket_seq s ≤ k ∧ c < k < 2 ^ 48) (pending (pending_group s));
  pi_next : 0 ≤ next_kypacket_seq s < 2 ^ 48 + 1;
  pi_config : config_inv (next_kypacket_seq s) (config_packet (pending_group s));
  pi_cfg : cfg = false → config_packet (pending_group s) = CfgNone;
  pi_codec : config_packet (pending_group s) ≠ CfgNone → codec = true;
  pi_frame : codec = true → ∃ f, frame_size s = Some f ∧ 0 < f < 2 ^ 16;
  pi_play : play_all playback_start (client s) =
            Some {| pb_next := next_kypacket_seq s; pb_frame := frame_size s; pb_hole := None |};
  pi_account : Z.of_nat (length (forwarded s)) + (dropped s - d0) = next_kypacket_seq s;
  pi_open : client_open s = true;
}.

Lemma audio_process_init_inv stats : 0 ≤ c →
  process_inv (default 0 (dropped_packets stats)) 0 false false (process_init stats).
Proof.
  intros Hc. split; cbn; try done.
  - apply wf_pending_new.
  - apply seqs_all_new.
  - unfold dropped. cbn. lia.
Qed.

(** Taking a packet from the group *)
Lemma audio_next_packet_ready now next g b :
  next_packet now next g = NpReady b →
  config_packet g ≠ CfgNone ∧ b = cfg_is_ready (config_packet g) ∧ (b = false → datagrams (pending g) ≠ []).
Proof.
  unfold next_packet. destruct (config_packet g) as [|p|]; cbn [cfg_is_none cfg_is_ready]; [done|..];
    repeat case_match; intros [= <-]; naive_solver.
Qed.

Lemma audio_take_next_packet_inv now next g :
  wf_pending (pending g) → seqs_all (λ k, next ≤ k ∧ c < k < 2 ^ 48) (pending g) → config_inv next (config_packet g) →
  ∃ a g', take_next_packet (E:=ProtocolError) now next g = Ok (a, g') ∧
    match a with
    | APacket k _ => next ≤ k < 2 ^ 48 ∧ c ≤ k ∧ config_packet g ≠ CfgNone ∧ config_packet g' = CfgSent ∧
        wf_pending (pending g') ∧ seqs_all (λ x, k + 1 ≤ x ∧ c < x < 2 ^ 48) (pending g')
    | _ => g' = g
    end.
Proof.
  intros Hwf Hs Hc. unfold take_next_packet. destruct (next_packet now next g) as [|b|t] eqn:Hn; [by eexists _, _| |by eexists _, _].
  apply audio_next_packet_ready in Hn as (Hcfg & -> & Hd). destruct (config_packet g) as [|p|] eqn:Hp; [done| |]; cbn.
  - destruct Hc as (H1 & -> & H2). eexists _, _. split; [done|]. cbn. split_and!; try done.
    destruct Hs as [Hs1 Hs2]. split; intros x Hx; [destruct (Hs1 x Hx)|destruct (Hs2 x Hx)]; lia.
  - destruct (datagrams (pending g)) as [|d ds] eqn:Hds; [by destruct (Hd eq_refl)|].
    destruct (pop_front_inv d ds (pending g) _ Hwf Hs Hds) as [Hwf' [Hs1 Hs2]].
    assert (Hdk : next ≤ dg_seq d ∧ c < dg_seq d < 2 ^ 48) by (apply Hs; rewrite Hds; left).
    eexists _, _. split; [done|]. cbn. split_and!; try (done || lia).
    split; intros x Hx; [destruct (Hs1 x Hx)|destruct (Hs2 x Hx)]; lia.
Qed.

(** What a delivery appends to the client's queue *)
Lemma hole_samples_exact missing f : 0 ≤ missing ≤ 2 ^ 48 → 0 < f < 2 ^ 16 → hole_samples missing f = gap_samples missing f.
Proof. intros Hm Hf. unfold hole_samples, gap_samples, wrap64. rewrite Z.mod_small by nia. done. Qed.

Lemma play_packet pb f k p :
  pb_frame pb = Some f → pb_hole pb = None → pb_next pb = k →
  play_all pb [(Some k, p)] = Some {| pb_next := k + 1; pb_frame := Some f; pb_hole := None |}.
Proof. intros Hf Hh Hn. unfold play_all, play. cbn. rewrite Hh, Hf, bool_decide_true by done. done. Qed.

Lemma play_hole_packet pb f k p h :
  pb_frame pb = Some f → pb_hole pb = None → pb_next pb < k → h = gap_samples (k - pb_next pb) f →
  play_all pb [(None, Hole {| hole_header := {| missing_audio_samples := h |} |}); (Some k, p)] =
  Some {| pb_next := k + 1; pb_frame := Some f; pb_hole := None |}.
Proof.
  intros Hf Hh Hn ->. unfold play_all, play. cbn. rewrite Hh. cbn. rewrite Hf. cbn.
  rewrite bool_decide_true by done. done.
Qed.

Lemma audio_take_step_inv d0 nk codec cfg now s s' r :
  process_inv d0 nk codec cfg s → take_step now s = (s', r) → process_inv d0 nk codec cfg s'.
Proof.
  intros [Hk Hwf Hm Hn Hc Hcf Hco Hf Hp Ha Ho]. unfold take_step.
  destruct (audio_take_next_packet_inv now (next_kypacket_seq s) (pending_group s) Hwf Hm Hc) as (a & g' & -> & Hg).
  destruct a as [k p|d|]; [|subst g'; intros [= <- <-]; by split..].
  destruct Hg as (Hk1 & Hck & Hcn & Hsent & Hwf' & Hm'). destruct (Hf (Hco Hcn)) as (f & Hfs & Hf1).
  assert (Hcfg : cfg = true) by (destruct cfg; [done|by destruct (Hcn (Hcf eq_refl))]).
  run_handler. cbn [frame_size set_group]. rewrite Hfs, bool_decide_true by done.
  cbn [rassert]. unfold fill_gap; run_handler. cbn [next_kypacket_seq set_group].
  destruct (Z.ltb_spec (next_kypacket_seq s) k) as [Hlt|Hge].
  - cbn [frame_size set_stats set_group protocol_stats]. rewrite Hfs. cbn [expect]. unfold send_client.
    cbn [client_open set_stats set_group set_next push_client]. rewrite Ho. cbn. rewrite Ho. intros [= <- _].
    split; cbn; try done; [lia|by rewrite Hsent; cbn; lia|by rewrite Hcfg|by intros _; apply Hco| |].
    + rewrite <- app_assoc, play_all_app, Hp. cbn [mbind option_bind app]. rewrite (play_hole_packet _ f); [by rewrite Hfs|done|done|done|].
      cbn. apply hole_samples_exact; lia.
    + unfold forwarded, dropped in *. cbn. rewrite <- app_assoc, omap_app, length_app. cbn. lia.
  - unfold send_client. cbn [mret handler_ret client_open set_next set_group]. rewrite Ho. cbn. intros [= <- _].
    assert (k = next_kypacket_seq s) as -> by lia.
    split; cbn; try done; [lia|by rewrite Hsent; cbn; lia|by rewrite Hcfg|by intros _; apply Hco| |].
    + rewrite play_all_app, Hp. cbn [mbind option_bind]. rewrite (play_packet _ f); [by rewrite Hfs|done|done|done].
    + unfold forwarded, dropped in *. cbn. rewrite omap_app, length_app. cbn. lia.
Qed.

Lemma audio_unroll_inv d0 nk codec cfg raw k s :
  process_inv d0 nk codec cfg s → stamped nk raw k →
  ∃ s1, unroll raw s = (s1, Ok k) ∧ process_inv d0 (Z.max nk k) codec cfg s1 ∧ next_kypacket_seq s1 = next_kypacket_seq s ∧
    pending_group s1 = pending_group s.
Proof.
  intros [[Hk Hk'] Hwf Hm Hn Hc Hcf Hco Hf Hp Ha Ho] (-> & Hk0 & Hkw). unfold unroll. rewrite Hk.
  rewrite seq_recovers by (simpl; unfold seq_room; simpl; lia).
  eexists. split; [done|]. split; [|done]. split; cbn; try done. split; [done|lia].
Qed.

Lemma audio_handle_event_inv d0 nk codec cfg t1 t2 now ev rest s s' r :
  process_inv d0 nk codec cfg s → honest nk codec cfg ((t1, t2, ev) :: rest) → handle_event now ev s = (s', r) →
  ∃ nk' codec' cfg', process_inv d0 nk' codec' cfg' s' ∧ honest nk' codec' cfg' rest.
Proof.
  intros Hinv Hh. destruct ev as [[m|m]| |]; cbn [honest handle_event] in Hh |- *.
  - assert (Hstream : codec = true ∧ cfg = false ∧ stamped nk (sm_raw_kypacket_seq m) c ∧ honest (Z.max nk c) codec true rest →
      (k ← unroll (sm_raw_kypacket_seq m);
       next ← getM next_kypacket_seq;
       if next <=? k then _ ← update_group (insert_stream_packet k (sm_packet m)); mret Proceed else mret Proceed) s = (s', r) →
      ∃ nk' codec' cfg', process_inv d0 nk' codec' cfg' s' ∧ honest nk' codec' cfg' rest).
    { intros (-> & -> & Hst & Hrest). destruct (audio_unroll_inv _ _ _ _ _ _ _ Hinv Hst) as (s1 & Hu & Hinv1 & Hnx & Hpg).
      rewrite (handler_bind_eq _ _ _ _ _ Hu), (handler_bind_eq _ _ s1 s1 (next_kypacket_seq s1) eq_refl).
      destruct Hinv1 as [Hk Hwf Hm Hn Hc Hcf Hco Hf Hp Ha Ho]. pose proof (Hcf eq_refl) as Hnone. rewrite Hnone in Hc. cbn in Hc.
      destruct (Z.leb_spec (next_kypacket_seq s1) c) as [_|]; [|lia].
      unfold update_group, insert_stream_packet; run_handler. rewrite Hnone. cbn. intros [= <- _].
      exists (Z.max nk c), true, true. split; [|done]. destruct Hst as (_ & ? & _). split; cbn; try done; lia. }
    destruct (sm_packet m) as [p|p|p] eqn:Hpk; [|by apply Hstream..]. destruct Hh as [Hfs Hrest].
    unfold send_client; run_handler. destruct (Z.ltb_spec 0 (Av.frame_size (codec_header p))); [|lia].
    cbn [rassert client_open set_frame_size]. destruct Hinv as [Hk Hwf Hm Hn Hc Hcf Hco Hf Hp Ha Ho]. rewrite Ho.
    intros [= <- _]. exists nk, true, cfg. split; [|done]. split; cbn; try done; [by eexists| |].
    + rewrite play_all_app, Hp. done.
    + unfold forwarded, dropped in *. cbn. rewrite omap_app. cbn. by rewrite app_nil_r.
  - destruct Hh as (k & Hck & Hst & Hrest). destruct (audio_unroll_inv _ _ _ _ _ _ _ Hinv Hst) as (s1 & Hu & Hinv1 & Hnx & _).
    rewrite (handler_bind_eq _ _ _ _ _ Hu), (handler_bind_eq _ _ s1 s1 (next_kypacket_seq s1) eq_refl).
    intros Hs'. exists (Z.max nk k), codec, cfg. split; [|done].
    destruct (Z.ltb_spec k (next_kypacket_seq s1)) as [|Hle]; [by injection Hs' as <- _|].
    unfold update_group, group_insert_datagram in Hs'; run_handler in Hs'.
    destruct (insert_datagram now k (Z.to_nat (dm_number m)) (dm_end m) (dm_data m) (pending (pending_group s1))) as [p|e|] eqn:Hi;
      cbn in Hs'; injection Hs' as <- _; [|done..].
    destruct Hinv1 as [Hk Hwf Hm Hn Hc Hcf Hco Hf Hp Ha Ho]. destruct Hst as (_ & ? & _).
    assert (Hkk : next_kypacket_seq s1 ≤ k ∧ c < k < 2 ^ 48) by lia.
    destruct (insert_datagram_inv now k _ _ _ _ p _ Hwf Hm Hkk Hi). by split.
  - intros [= <- _]. eauto.
  - intros [= <- _]. eauto.
Qed.

Lemma audio_run_inv d0 nk codec cfg evs s s' r :
  process_inv d0 nk codec cfg s → honest nk codec cfg evs → run evs s = (s', r) →
  ∃ nk' codec' cfg', process_inv d0 nk' codec' cfg' s'.
Proof.
  revert nk codec cfg s. induction evs as [|[[now1 now2] ev] evs IH]; intros nk codec cfg s Hinv Hh Hr.
  { injection Hr as <- _. eauto. }
  assert (Hstep : ∀ s1 r1, step now1 now2 ev s = (s1, r1) →
    ∃ nk' codec' cfg', process_inv d0 nk' codec' cfg' s1 ∧ honest nk' codec' cfg' evs).
  { intros s1 r1. unfold step. intros [(s2 & fl & H1 & H2)|[(e & H1 & _)|[H1 _]]]%handler_bind_inv;
      destruct (audio_handle_event_inv _ _ _ _ _ _ _ _ _ _ _ _ Hinv Hh H1) as (nk' & co & cf & Hinv1 & Hrest); [|eauto 6..].
    exists nk', co, cf. split; [|done]. destruct fl; [|by injection H2 as <- _..].
    apply handler_bind_inv in H2 as [(s3 & [] & H2 & [= <- <-])|[(e & H2 & _)|[H2 _]]]; by eapply audio_take_step_inv. }
  cbn [run] in Hr. apply handler_bind_inv in Hr as [(s1 & b & H1 & H2)|[(e & H1 & _)|[H1 _]]];
    destruct (Hstep _ _ H1) as (nk' & co & cf & Hinv1 & Hrest); [|eauto..].
  destruct b; [by eapply IH|]. injection H2 as <- _. eauto.
Qed.
End Session.

(** For an honest sender, whatever the network reorders, duplicates or
    loses, the packets the audio receiver hands to its client play back on an
    exact timeline: packets in sequence, every gap announced by one hole of
    exactly the missing samples (up to the 32-bit field), and every sequence
    number below the next one either forwarded or counted as dropped. *)
Theorem audio_playback_exact c evs stats s r :
  0 ≤ c → honest c 0 false false evs → run evs (process_init stats) = (s, r) →
  play_all playback_start (client s) =
    Some {| pb_next := next_kypacket_seq s; pb_frame := frame_size s; pb_hole := None |} ∧
  Z.of_nat (length (forwarded s)) + (dropped s - default 0 (dropped_packets stats)) = next_kypacket_seq s.
Proof.
  intros Hc Hh Hr. destruct (audio_run_inv _ _ _ _ _ _ _ _ _ (audio_process_init_inv c stats Hc) Hh Hr) as (nk & co & cf & []). done.
Qed.

Definition sample_media (k : Z) : bytes :=
  be_bytes 8 (pts_and_flags {| is_config := false; is_key := false; pts := k; size := 1 |}) ++ be_bytes 4 1 ++ [k].

Definition sample_datagram (k : Z) : Event :=
  EvMsg (RDatagram {| dm_data := sample_media k; dm_raw_kypacket_seq := k; dm_number := 0; dm_end := true |}).

Definition sample_codec : Event :=
  EvMsg (RStream {| sm_packet := Codec {| codec_header := {| codec := 7; rotation := 0; Av.frame_size := 960 |} |};
                    sm_raw_kypacket_seq := 0 |}).

Definition sample_config : Event :=
  EvMsg (RStream {| sm_packet := Media {| header := {| is_config := true; is_key := false; pts := 0; size := 0 |}; payload := [] |};
                    sm_raw_kypacket_seq := 0 |}).

(** Packets 2 and 3 are lost. *)
Definition sample_run : list (Instant * Instant * Event) :=
  [(0, 0, sample_codec); (1, 1, sample_datagram 4); (2, 2, sample_config); (3, 3, sample_datagram 1); (20000, 20000, EvDeadline)].

Example sample_run_client :
  (λ p : option Z * AVPacket, match p.2 with Hole h => (p.1, missing_audio_samples (hole_header h)) | _ => (p.1, 0) end) <$>
    client (run sample_run (process_init stats_default)).1 =
  [(None, 0); (Some 0, 0); (Some 1, 0); (None, 1920); (Some 4, 0)].
Proof. by vm_compute. Qed.

Lemma audio_playback_exact_witness :
  let s := (run sample_run (process_init stats_default)).1 in
  play_all playback_start (client s) =
    Some {| pb_next := next_kypacket_seq s; pb_frame := frame_size s; pb_hole := None |} ∧
  Z.of_nat (length (forwarded s)) + (dropped s - default 0 (dropped_packets stats_default)) = next_kypacket_seq s.
Proof.
  apply (audio_playback_exact 0 sample_run stats_default _ (run sample_run (process_init stats_default)).2); [lia| |vm_compute; reflexivity].
  cbn [honest sample_run sample_codec sample_datagram sample_config sm_packet]. split; [vm_compute; intuition congruence|].
  exists 4. split; [lia|]. split; [vm_compute; intuition congruence|]. do 2 (split; [done|]).
  split; [vm_compute; intuition congruence|]. exists 1. split; [lia|]. split; [vm_compute; intuition congruence|done].
Defined.
