(* ===== verification/AudioUnreliableFec.v ===== *)
(** * Unreliable audio driver with error correction

    Models [kyproto/src/protocol/driver/av/audio_unreliable_fec.rs]: the sender,
    the parsing of its stream and datagrams, the single pending group with its
    admission budget and the [process] task, which fills gaps with hole packets
    and drains every ready packet before it sleeps. *)

From stdpp Require Import prelude list gmap strings.
From Stdlib Require Import ZArith Lia.
From S2P Require Import Prelude SortedVec Sequencer Io Av Packets Channel Reassembly Fec VideoUnreliableFec.
Open Scope Z_scope.

Definition DATAGRAM_HEADER_SIZE : nat := 22.

(** [Duration::from_millis(10)], in microseconds *)
Definition MAX_BUFFERING : Z := 10 * 1000.

Section Driver.
Context `{RQ : RaptorQ}.

(** ** Sender *)

Record SendDriver := { ky_channel : KyChannel; stream : Writer; kypacket_seq : Z }.

(** [AudioUnreliableFecProtocolSendDriver::start], on the opened stream *)
Definition send_start (ch : KyChannel) (st : Writer) : SendDriver :=
  {| ky_channel := ch; stream := st; kypacket_seq := 0 |}.

Abbreviation sending := (handler SendDriver ProtocolError).

Definition on_channel {A} (m : handler KyChannel ProtocolError A) : sending A := λ self,
  let '(ch, r) := m (ky_channel self) in
  ({| ky_channel := ch; stream := stream self; kypacket_seq := kypacket_seq self |}, r).

Definition on_stream {A} (m : writing A) : sending A := λ self,
  let '(w, r) := m (stream self) in
  ({| ky_channel := ky_channel self; stream := w; kypacket_seq := kypacket_seq self |}, map_err io_message r).

Definition set_seq (k : Z) (self : SendDriver) : SendDriver :=
  {| ky_channel := ky_channel self; stream := stream self; kypacket_seq := k |}.

(** The buffer of one datagram *)
Definition datagram_bytes (self : SendDriver) (oti : bytes) (id : PayloadId) (data : bytes) : bytes :=
  write_datagram_header (ky_channel self) ++ be_bytes 4 (kypacket_seq self) ++ oti ++ id_serialize id ++ data.

(** The loop over the encoded packets *)
Fixpoint send_encoded (oti : bytes) (packets : list (PayloadId * bytes)) : sending unit :=
  match packets with
  | [] => mret tt
  | (id, data) :: packets =>
      buf ← getM (λ self, datagram_bytes self oti id data);
      _ ← on_channel (send_datagram connection_lost buf);
      send_encoded oti packets
  end.

(** [div_ceil] panics on a symbol size of zero. *)
Definition send_datagrams (packet : MediaPacket) : sending unit :=
  max ← getM (λ self, max_datagram_size (ky_channel self));
  max ← pureM (ok_or max "Datagram not supported"%string);
  _ ← pureM (rassert (Z.of_nat DATAGRAM_HEADER_SIZE <? max));
  _ ← pureM (rassert (max <? 0x10000));
  hdr ← pureM (media_serialize (header packet));
  let data := hdr ++ payload packet in
  let oti := encoder_config data (max - Z.of_nat DATAGRAM_HEADER_SIZE) in
  _ ← pureM (rassert (negb (symbol_size oti =? 0)));
  let source_symbols := div_ceil (blen data) (symbol_size oti) in
  send_encoded (oti_serialize oti) (get_encoded_packets data oti (repair_symbols source_symbols)).

(** [ProtocolSendDriver::send] *)
Definition send (packet : AVPacket) : sending unit :=
  match packet with
  | Codec p =>
      hdr ← pureM (codec_serialize (codec_header p));
      _ ← on_stream (write_all (be_bytes 4 0 ++ hdr));
      on_stream flush
  | Media p =>
      _ ← (if is_config (header p) then
             hdr ← pureM (media_serialize (header p));
             prefix ← getM (λ self, be_bytes 4 (kypacket_seq self));
             _ ← on_stream (write_all (prefix ++ hdr ++ payload p));
             on_stream flush
           else send_datagrams p);
      modifyM (λ self, set_seq (wrap32 (kypacket_seq self + 1)) self)
  | Hole _ => pureM Panic
  end.

(** ** Receiving tasks *)

Record StreamMsg := { sm_packet : AVPacket; sm_raw_kypacket_seq : Z }.
Record DatagramMsg := { dm_data : bytes; dm_raw_kypacket_seq : Z; dm_oti : Oti; dm_payload_id : PayloadId }.
Inductive RecvMsg := RStream (m : StreamMsg) | RDatagram (m : DatagramMsg).

(** [DatagramMsg::parse] *)
Definition parse (datagram : bytes) : outcome ProtocolError DatagramMsg :=
  '(data, oti, payload_id) ← parse_datagram datagram DATAGRAM_HEADER_SIZE MAX_AUDIO_PAYLOAD;
  Ok {| dm_data := data; dm_raw_kypacket_seq := read_be (slice 2 4 datagram); dm_oti := oti; dm_payload_id := payload_id |}.

(** One round of [recv_stream_packets] *)
Definition recv_stream_packet (r : Reader) : outcome ProtocolError (RecvMsg * Reader) :=
  '(seqs, r) ← map_err io_message (read_exact 4 r);
  '(packet, r) ← read_stream_packet MAX_AUDIO_PAYLOAD r;
  Ok (RStream {| sm_packet := packet; sm_raw_kypacket_seq := read_be seqs |}, r).

(** ** [DatagramSegments] *)

Record DatagramPacket := { ad_oti : Oti; ad_packet : AVPacket; ad_seq : Z; ad_instant : Instant }.
Record DatagramSegments := { as_seq : Z; as_decoder : ObjectDecoder; assembled : option bytes }.

Definition DatagramSegments_new (kypacket_seq : Z) (oti : Oti) : outcome ProtocolError DatagramSegments :=
  d ← ObjectDecoder_new oti MAX_AUDIO_PAYLOAD;
  Ok {| as_seq := kypacket_seq; as_decoder := d; assembled := None |}.

Definition add_packet (oti : Oti) (payload_id : PayloadId) (data : bytes) (self : DatagramSegments)
    : outcome ProtocolError DatagramSegments :=
  '(d, out) ← ObjectDecoder_decode oti payload_id data (as_decoder self);
  Ok {| as_seq := as_seq self; as_decoder := d; assembled := out |}.

Definition is_complete (self : DatagramSegments) : bool := bool_decide (is_Some (assembled self)).

Definition assemble (now : Instant) (self : DatagramSegments) : outcome ProtocolError DatagramPacket :=
  data ← ok_or (assembled self) (invalid "incomplete audio object");
  packet ← media_packet data;
  Ok {| ad_oti := od_oti (as_decoder self); ad_packet := packet; ad_seq := as_seq self; ad_instant := now |}.

(** ** The pending group *)

Record PendingGroup := {
  ag_config : ConfigPacket;
  ag_datagrams : list DatagramPacket;
  ag_segments : list DatagramSegments;
}.

Definition PendingGroup_new : PendingGroup := {| ag_config := CfgNone; ag_datagrams := []; ag_segments := [] |}.

Definition with_config (c : ConfigPacket) (g : PendingGroup) : PendingGroup :=
  {| ag_config := c; ag_datagrams := ag_datagrams g; ag_segments := ag_segments g |}.
Definition with_datagrams (ds : list DatagramPacket) (g : PendingGroup) : PendingGroup :=
  {| ag_config := ag_config g; ag_datagrams := ds; ag_segments := ag_segments g |}.
Definition with_segments (ss : list DatagramSegments) (g : PendingGroup) : PendingGroup :=
  {| ag_config := ag_config g; ag_datagrams := ag_datagrams g; ag_segments := ss |}.

(** The objects and bytes counted by [check_capacity] *)
Definition usage (self : PendingGroup) : Z * Z :=
  let objects := Z.of_nat (length (ag_segments self)) + Z.of_nat (length (ag_datagrams self)) in
  let bytes := sum_list_with (λ s, reservation (od_oti (as_decoder s))) (ag_segments self) +
               sum_list_with (λ d, reservation (ad_oti d)) (ag_datagrams self) in
  match ag_config self with
  | CfgReady {| st_packet := Media media |} => (objects + 1, bytes + blen (payload media))
  | _ => (objects, bytes)
  end.

Definition check_capacity (additional : Z) (self : PendingGroup) : outcome ProtocolError unit :=
  let '(objects, bytes) := usage self in
  check_pending objects bytes additional MAX_AUDIO_PAYLOAD.

Definition insert_stream_packet (kypacket_seq : Z) (packet : AVPacket) (self : PendingGroup) : outcome ProtocolError PendingGroup :=
  match packet with
  | Media media =>
      _ ← bail_if (negb (is_config (header media)) || negb (cfg_is_none (ag_config self)))
                  (invalid "invalid or duplicate audio config");
      _ ← check_capacity (blen (payload media)) self;
      Ok (with_config (CfgReady {| st_packet := packet; st_seq := kypacket_seq |}) self)
  | _ => Err (invalid "expected audio config")
  end.

Definition prepare_datagram_segments (kypacket_seq : Z) (oti : Oti) (self : PendingGroup)
    : outcome ProtocolError (PendingGroup * nat) :=
  match binary_search_by_key as_seq kypacket_seq (ag_segments self) with
  | Found index => Ok (self, index)
  | NotFound index =>
      _ ← validate_oti oti MAX_AUDIO_PAYLOAD;
      _ ← check_capacity (reservation oti) self;
      s ← DatagramSegments_new kypacket_seq oti;
      Ok (with_segments (vec_insert index s (ag_segments self)) self, index)
  end.

Definition insert_datagram_packet (packet : DatagramPacket) (self : PendingGroup) : PendingGroup :=
  match binary_search_by_key ad_seq (ad_seq packet) (ag_datagrams self) with
  | NotFound index => with_datagrams (vec_insert index packet (ag_datagrams self)) self
  | Found _ => self
  end.

Definition insert_datagram (now : Instant) (kypacket_seq : Z) (oti : Oti) (payload_id : PayloadId) (data : bytes)
    (self : PendingGroup) : outcome ProtocolError PendingGroup :=
  match binary_search_by_key ad_seq kypacket_seq (ag_datagrams self) with
  | NotFound _ =>
      '(self, index) ← prepare_datagram_segments kypacket_seq oti self;
      s ← expect (ag_segments self !! index);
      s ← add_packet oti payload_id data s;
      let self := with_segments (<[index := s]> (ag_segments self)) self in
      if is_complete s then
        let self := with_segments (delete index (ag_segments self)) self in
        packet ← assemble now s;
        Ok (insert_datagram_packet packet self)
      else Ok self
  | Found index =>
      d ← expect (ag_datagrams self !! index);
      _ ← bail_if (negb (bool_decide (ad_oti d = oti))) (invalid "OTI changed for completed audio object");
      Ok self
  end.

Definition drop_expired_segments (until_kypacket_seq : Z) (self : PendingGroup) : PendingGroup :=
  let index := match binary_search_by_key as_seq until_kypacket_seq (ag_segments self) with
               | Found i => i
               | NotFound i => i
               end in
  with_segments (drop index (ag_segments self)) self.

Definition min_instant (self : PendingGroup) : option Instant :=
  foldr (λ d m, min_opt (Some (ad_instant d)) m) None (ag_datagrams self).

Inductive NextPacket := NpNone | NpReady (config : bool) | NpDeadline (i : Instant).

Definition next_packet (now next_kypacket_seq : Z) (self : PendingGroup) : NextPacket :=
  if cfg_is_none (ag_config self) then NpNone
  else
    if match ag_config self with CfgReady p => st_seq p =? next_kypacket_seq | _ => false end then NpReady true
    else
      match ag_datagrams self with
      | [] => NpNone
      | d :: _ =>
          if ad_seq d =? next_kypacket_seq then NpReady (cfg_is_ready (ag_config self))
          else
            match min_instant self with
            | Some m =>
                if m + MAX_BUFFERING <=? now then NpReady (cfg_is_ready (ag_config self))
                else NpDeadline (m + MAX_BUFFERING)
            | None => NpNone
            end
      end.

Inductive Action :=
| APacket (kypacket_seq : Z) (packet : AVPacket)
| ADeadline (i : Instant)
| ANone.

Definition take_next_packet (now next_kypacket_seq : Z) (self : PendingGroup) : outcome ProtocolError (Action * PendingGroup) :=
  match next_packet now next_kypacket_seq self with
  | NpNone => Ok (ANone, self)
  | NpDeadline instant => Ok (ADeadline instant, self)
  | NpReady config =>
      _ ← rassert (negb (cfg_is_none (ag_config self)));
      if config : bool then
        _ ← rassert (cfg_is_ready (ag_config self));
        '(p, c) ← cfg_consume (ag_config self);
        Ok (APacket (st_seq p) (st_packet p), with_config c self)
      else
        match ag_datagrams self with
        | [] => Panic
        | d :: ds => Ok (APacket (ad_seq d) (ad_packet d), drop_expired_segments (ad_seq d) (with_datagrams ds self))
        end
  end.

(** ** [process] *)

Record Process := {
  kypacket_sequencer : Sequencer;
  pending_group : PendingGroup;
  next_kypacket_seq : Z;
  deadline : option Instant;
  frame_size : option Z;
  protocol_stats : ProtocolStats;
  client : list (option Z * AVPacket);  (* packets sent to the client queue, annotated
                                           with the sequence number they were taken under *)
  client_open : bool;                   (* the client still holds its receiver *)
}.

Definition process_init (stats : ProtocolStats) : Process :=
  {| kypacket_sequencer := Sequencer_new; pending_group := PendingGroup_new; next_kypacket_seq := 0;
     deadline := None; frame_size := None; protocol_stats := stats; client := []; client_open := true |}.

Abbreviation processing := (handler Process ProtocolError).

Definition set_sequencer (k : Sequencer) (s : Process) : Process :=
  {| kypacket_sequencer := k; pending_group := pending_group s; next_kypacket_seq := next_kypacket_seq s;
     deadline := deadline s; frame_size := frame_size s; protocol_stats := protocol_stats s; client := client s;
     client_open := client_open s |}.
Definition set_group (g : PendingGroup) (s : Process) : Process :=
  {| kypacket_sequencer := kypacket_sequencer s; pending_group := g; next_kypacket_seq := next_kypacket_seq s;
     deadline := deadline s; frame_size := frame_size s; protocol_stats := protocol_stats s; client := client s;
     client_open := client_open s |}.
Definition set_deadline (d : option Instant) (s : Process) : Process :=
  {| kypacket_sequencer := kypacket_sequencer s; pending_group := pending_group s;
     next_kypacket_seq := next_kypacket_seq s; deadline := d; frame_size := frame_size s;
     protocol_stats := protocol_stats s; client := client s; client_open := client_open s |}.
Definition set_frame_size (f : Z) (s : Process) : Process :=
  {| kypacket_sequencer := kypacket_sequencer s; pending_group := pending_group s;
     next_kypacket_seq := next_kypacket_seq s; deadline := deadline s; frame_size := Some f;
     protocol_stats := protocol_stats s; client := client s; client_open := client_open s |}.
Definition set_next (k : Z) (s : Process) : Process :=
  {| kypacket_sequencer := kypacket_sequencer s; pending_group := pending_group s; next_kypacket_seq := k;
     deadline := deadline s; frame_size := frame_size s; protocol_stats := protocol_stats s; client := client s;
     client_open := client_open s |}.
Definition set_stats (st : ProtocolStats) (s : Process) : Process :=
  {| kypacket_sequencer := kypacket_sequencer s; pending_group := pending_group s;
     next_kypacket_seq := next_kypacket_seq s; deadline := deadline s; frame_size := frame_size s;
     protocol_stats := st; client := client s; client_open := client_open s |}.
Definition push_client (p : option Z * AVPacket) (s : Process) : Process :=
  {| kypacket_sequencer := kypacket_sequencer s; pending_group := pending_group s;
     next_kypacket_seq := next_kypacket_seq s; deadline := deadline s; frame_size := frame_size s;
     protocol_stats := protocol_stats s; client := client s ++ [p]; client_open := client_open s |}.

(** [tx_client.send(Ok(packet)).await.map_err(ProtocolError::new)?] *)
Definition send_client (p : option Z * AVPacket) : processing unit := λ s,
  if client_open s then (push_client p s, Ok tt) else (s, Err "channel closed"%string).

Definition unroll (raw_kypacket : Z) : processing Z := λ s,
  let '(k, ks) := seq SeqU32 (kypacket_sequencer s) raw_kypacket in (set_sequencer ks s, Ok k).

Definition update_group (f : PendingGroup → outcome ProtocolError PendingGroup) : processing unit := λ s,
  match f (pending_group s) with
  | Ok g => (set_group g s, Ok tt)
  | Err e => (s, Err e)
  | Panic => (s, Panic)
  end.

(** What the [select!] yields: a message of the queue or an error of a
    receiving task, the end of the queue, or the deadline *)
Inductive Event := EvMsg (m : RecvMsg) | EvErr (e : ProtocolError) | EvEnd | EvDeadline.

(** How the loop goes on after the [select!] *)
Inductive Flow := Proceed | Continue | Return.

Definition handle_event (now : Instant) (ev : Event) : processing Flow :=
  match ev with
  | EvMsg (RStream m) =>
      match sm_packet m with
      | Codec p =>
          _ ← modifyM (set_frame_size (Av.frame_size (codec_header p)));
          _ ← pureM (bail_if (Av.frame_size (codec_header p) =? 0) (invalid "zero audio frame size"));
          _ ← send_client (None, sm_packet m);
          mret Continue
      | _ =>
          k ← unroll (sm_raw_kypacket_seq m);
          next ← getM next_kypacket_seq;
          if next <=? k then _ ← update_group (insert_stream_packet k (sm_packet m)); mret Proceed
          else mret Proceed
      end
  | EvMsg (RDatagram m) =>
      k ← unroll (dm_raw_kypacket_seq m);
      next ← getM next_kypacket_seq;
      if k <? next then mret Continue
      else
        _ ← update_group (insert_datagram now k (dm_oti m) (dm_payload_id m) (dm_data m));
        mret Proceed
  | EvErr e => pureM (Err e)
  | EvEnd => mret Return
  | EvDeadline => mret Proceed
  end.

(** The samples missing for a gap of [missing] packets, with a saturating product *)
Definition hole_samples (missing frame_size : Z) : Z := Z.min (Z.min (missing * frame_size) (2 ^ 64 - 1)) (2 ^ 32 - 1).

(** The gap before packet [k]: statistics and hole packet *)
Definition fill_gap (k f : Z) : processing unit :=
  next ← getM next_kypacket_seq;
  if next <? k then
    let missing := k - next in
    _ ← modifyM (λ s, set_stats (add_dropped missing (protocol_stats s)) s);
    send_client (None, Hole {| hole_header := {| missing_audio_samples := hole_samples missing f |} |})
  else mret tt.

(** One round of the drain loop, which goes on while the result is [true] *)
Definition take_step (now : Instant) : processing bool := λ s,
  match take_next_packet now (next_kypacket_seq s) (pending_group s) with
  | Err e => (s, Err e)
  | Panic => (s, Panic)
  | Ok (ANone, g) => (set_deadline None (set_group g s), Ok false)
  | Ok (ADeadline instant, g) => (set_deadline (Some instant) (set_group g s), Ok false)
  | Ok (APacket k packet, g) =>
      (f ← getM frame_size;
       f ← pureM (ok_or f (invalid "audio before codec"));
       _ ← fill_gap k f;
       _ ← modifyM (set_next (k + 1));
       _ ← send_client (Some k, packet);
       mret true) (set_group g s)
  end.

(** Number of packets that can still be taken *)
Definition deliverable (self : PendingGroup) : nat :=
  ((if cfg_is_ready (ag_config self) then 1 else 0) + length (ag_datagrams self))%nat.

(** The drain loop; round [i] reads the clock [nows i].  Every round but the
    last takes a packet. *)
Fixpoint drain_loop (fuel : nat) (nows : nat → Instant) (round : nat) : processing unit :=
  match fuel with
  | O => pureM Panic
  | S fuel =>
      more ← take_step (nows round);
      if more : bool then drain_loop fuel nows (S round) else mret tt
  end.

Definition drain (nows : nat → Instant) : processing unit := λ s,
  drain_loop (S (deliverable (pending_group s))) nows 0 s.

(** One round of the loop of [process]; the result tells whether it goes on. *)
Definition step (now : Instant) (nows : nat → Instant) (ev : Event) : processing bool :=
  flow ← handle_event now ev;
  match flow with
  | Return => mret false
  | Continue => mret true
  | Proceed => _ ← drain nows; mret true
  end.

(** A run of [process] over a sequence of timed events *)
Fixpoint run (evs : list (Instant * (nat → Instant) * Event)) : processing unit :=
  match evs with
  | [] => mret tt
  | (now, nows, ev) :: evs =>
      continue ← step now nows ev;
      if continue : bool then run evs else mret tt
  end.
End Driver.
