(* ===== verification/AudioFecSafety.v ===== *)
(** * Safety of the audio receiver with error correction

    For a peer that sends anything at all, the receiver of [AudioUnreliableFec]
    never panics, stays within its admission budget, and drains everything that
    is ready before it sleeps. *)

From stdpp Require Import prelude list gmap strings.
From Stdlib Require Import ZArith Lia.
From S2P Require Import Prelude SortedVec Sequencer Io Av Packets Channel Reassembly Fec SystematicCode FecSafety VideoFecSafety AudioUnreliableFec.
Open Scope Z_scope.

Section Safety.
Context `{RL : RaptorQLaws}.

(** ** Invariant *)

Definition wf_segments (s : DatagramSegments) : Prop := wf_decoder MAX_AUDIO_PAYLOAD (as_decoder s) ∧ assembled s = None.

Record wf_group (g : PendingGroup) : Prop := {
  wg_datagrams : sorted_by ad_seq (ag_datagrams g);
  wg_segments : sorted_by as_seq (ag_segments g);
  wg_wf_datagrams d : d ∈ ag_datagrams g → acceptable MAX_AUDIO_PAYLOAD (ad_oti d);
  wg_wf_segments s : s ∈ ag_segments g → wf_segments s;
}.

Definition within_budget (g : PendingGroup) : Prop :=
  (usage g).1 ≤ MAX_PENDING_OBJECTS ∧ (usage g).2 ≤ pending_limit MAX_AUDIO_PAYLOAD.

Definition group_ok (g : PendingGroup) : Prop := wf_group g ∧ within_budget g.

Definition media_objects (g : PendingGroup) : Z := Z.of_nat (length (ag_segments g)) + Z.of_nat (length (ag_datagrams g)).
Definition media_bytes (g : PendingGroup) : Z :=
  sum_list_with (λ s, reservation (od_oti (as_decoder s))) (ag_segments g) +
  sum_list_with (λ d, reservation (ad_oti d)) (ag_datagrams g).

Lemma audio_usage_split g :
  (usage g).1 = media_objects g + config_objects (ag_config g) ∧ (usage g).2 = media_bytes g + config_bytes (ag_config g).
Proof.
  unfold usage, media_objects, media_bytes, config_objects, config_bytes.
  destruct (ag_config g) as [|[[c|m|h] s]|]; cbn; lia.
Qed.

Lemma config_usage_nonneg c : 0 ≤ config_objects c ∧ 0 ≤ config_bytes c.
Proof. unfold config_objects, config_bytes, blen. destruct c as [|[[c|m|h] s]|]; lia. Qed.

Lemma audio_check_capacity_Ok additional g u :
  check_capacity additional g = Ok u →
  (usage g).1 < MAX_PENDING_OBJECTS ∧ (usage g).2 + additional ≤ pending_limit MAX_AUDIO_PAYLOAD.
Proof. unfold check_capacity. destruct (usage g) as [o b]. unfold check_pending. cbn. intros Hc. inv_ok. lia. Qed.

Lemma audio_check_capacity_no_panic additional g : check_capacity additional g ≠ Panic.
Proof. unfold check_capacity. destruct (usage g). apply bail_if_no_panic. Qed.

Definition keeps_ok (m : outcome ProtocolError PendingGroup) : Prop :=
  match m with Ok g => group_ok g | Err _ => True | Panic => False end.

Lemma audio_insert_stream_packet_ok k packet g : group_ok g → keeps_ok (insert_stream_packet k packet g).
Proof.
  intros [Hg Hb]. unfold insert_stream_packet. destruct packet as [p|m|p]; [done| |done].
  unfold bail_if. destruct (negb (is_config (header m)) || negb (cfg_is_none (ag_config g))) eqn:Hc; [done|].
  cbn [mbind outcome_bind]. pose proof (audio_check_capacity_no_panic (blen (payload m)) g) as Hnp.
  destruct (check_capacity (blen (payload m)) g) as [u|e|] eqn:Hcap; [|done|done]. apply audio_check_capacity_Ok in Hcap as [Ho Hby].
  cbn [mbind outcome_bind]. set (g' := with_config _ g). destruct (audio_usage_split g) as [H1 H2]. destruct (audio_usage_split g') as [H3 H4].
  change (media_objects g') with (media_objects g) in H3. change (media_bytes g') with (media_bytes g) in H4.
  cbn [g' with_config ag_config config_objects config_bytes st_packet] in H3, H4. fold g' in H3, H4.
  destruct (config_usage_nonneg (ag_config g)). split; [destruct Hg; by split|]. split; lia.
Qed.

(** ** Datagrams *)

(** Replacing the segments and adding datagrams, counted *)
Lemma group_budget g g' extra_o extra_b :
  ag_config g' = ag_config g → media_objects g' = media_objects g + extra_o → media_bytes g' = media_bytes g + extra_b →
  (usage g).1 + extra_o ≤ MAX_PENDING_OBJECTS → (usage g).2 + extra_b ≤ pending_limit MAX_AUDIO_PAYLOAD → within_budget g'.
Proof.
  intros Hc Ho Hb H1 H2. unfold within_budget. destruct (audio_usage_split g) as [H3 H4]. destruct (audio_usage_split g') as [H5 H6].
  rewrite Hc in H5, H6. lia.
Qed.

(** The segments a symbol goes to, and the room made for them *)
Lemma audio_prepare_spec k oti g :
  group_ok g →
  match prepare_datagram_segments k oti g with
  | Ok (g1, i) => ∃ s, g1 = with_segments (ag_segments g1) g ∧ ag_segments g1 !! i = Some s ∧ as_seq s = k ∧
      sorted_by as_seq (ag_segments g1) ∧ (∀ x, x ∈ ag_segments g1 → wf_segments x) ∧ within_budget g1
  | Err _ => True
  | Panic => False
  end.
Proof.
  intros [Hg Hb]. unfold prepare_datagram_segments.
  destruct (binary_search_cases as_seq k (ag_segments g) (wg_segments _ Hg)) as [(i & s & -> & Hi & Hk)|[-> Hn]].
  { exists s. split_and!; [by destruct g|done|done|apply Hg|apply Hg|done]. }
  pose proof (validate_oti_no_panic oti MAX_AUDIO_PAYLOAD) as Hvp. pose proof (validate_oti_iff oti MAX_AUDIO_PAYLOAD) as Hv.
  destruct (validate_oti oti MAX_AUDIO_PAYLOAD) as [[]|e|]; cbn [mbind outcome_bind]; [|done|done].
  pose proof (audio_check_capacity_no_panic (reservation oti) g) as Hnp.
  destruct (check_capacity (reservation oti) g) as [u|e|] eqn:Hcap; cbn [mbind outcome_bind]; [|done|done].
  apply audio_check_capacity_Ok in Hcap as [Ho Hby]. unfold DatagramSegments_new. pose proof (ObjectDecoder_new_wf oti MAX_AUDIO_PAYLOAD) as Hnew.
  destruct (ObjectDecoder_new oti MAX_AUDIO_PAYLOAD) as [d|e|]; cbn [mbind outcome_bind]; [|done|done].
  destruct Hnew as (Hd & Hdo & _). eexists. split_and!; [done|apply vec_insert_lookup, lower_bound_le|done| | |].
  - apply sorted_vec_insert; [apply Hg|done|done].
  - intros x. cbn. rewrite (elem_of_Permutation_proper x _ _ (vec_insert_perm _ _ _)). intros [->|Hx]%elem_of_cons; [done|by apply Hg].
  - apply (group_budget g _ 1 (reservation oti)); [done| | |lia|lia].
    + unfold media_objects. cbn. rewrite vec_insert_length. lia.
    + unfold media_bytes. cbn [with_segments ag_segments ag_datagrams]. rewrite sum_vec_insert. cbn [as_decoder]. rewrite Hdo. lia.
Qed.

(** A symbol kept in its segments *)
Lemma replaced_ok g i s s' :
  group_ok g → ag_segments g !! i = Some s → as_seq s' = as_seq s → wf_segments s' →
  od_oti (as_decoder s') = od_oti (as_decoder s) → group_ok (with_segments (<[i := s']> (ag_segments g)) g).
Proof.
  intros [Hg [Hb1 Hb2]] Hi Hk Hs' Ho. split.
  - split; cbn; [apply Hg|by eapply sorted_replace; [apply Hg|..]|apply Hg|].
    intros x. rewrite (elem_of_Permutation_proper x _ _ (insert_delete_perm i s s' _ Hi)).
    intros [->|Hx]%elem_of_cons; [done|]. apply Hg. rewrite (elem_of_Permutation_proper x _ _ (delete_Permutation _ i s Hi)). by right.
  - apply (group_budget g _ 0 0); [done| | |lia|lia].
    + unfold media_objects. cbn. rewrite length_insert. lia.
    + unfold media_bytes. cbn [with_segments ag_segments ag_datagrams]. rewrite (sum_replace _ _ i s s' Hi), Ho. lia.
Qed.

(** Segments that became a packet *)
Lemma completed_ok g i s dp :
  group_ok g → ag_segments g !! i = Some s → acceptable MAX_AUDIO_PAYLOAD (ad_oti dp) → ad_oti dp = od_oti (as_decoder s) →
  Forall (λ d, ad_seq d ≠ ad_seq dp) (ag_datagrams g) →
  group_ok (insert_datagram_packet dp (with_segments (delete i (ag_segments g)) g)).
Proof.
  intros [Hg [Hb1 Hb2]] Hi Ha Ho Hn. unfold insert_datagram_packet. cbn [with_segments ag_datagrams].
  destruct (binary_search_cases ad_seq (ad_seq dp) (ag_datagrams g) (wg_datagrams _ Hg)) as [(j & x & _ & Hj & Hxk)|[-> _]].
  { rewrite Forall_forall in Hn. by destruct (Hn x); [eapply list_elem_of_lookup_2|]. }
  pose proof (delete_Permutation _ i s Hi) as Hp. split.
  - split; cbn.
    + apply sorted_vec_insert; [apply Hg|done|done].
    + apply sorted_delete, Hg.
    + intros x. rewrite (elem_of_Permutation_proper x _ _ (vec_insert_perm _ _ _)). intros [->|Hx]%elem_of_cons; [done|by apply Hg].
    + intros x Hx. apply Hg. rewrite (elem_of_Permutation_proper x _ _ Hp). by right.
  - apply (group_budget g _ 0 0); [done| | |lia|lia].
    + unfold media_objects. cbn [with_segments with_datagrams ag_segments ag_datagrams]. rewrite vec_insert_length, (Permutation_length Hp).
      cbn [length]. lia.
    + unfold media_bytes. cbn [with_segments with_datagrams ag_segments ag_datagrams]. rewrite sum_vec_insert, (sum_delete _ _ i s Hi), Ho. lia.
Qed.

Lemma audio_insert_datagram_ok now k oti id data g : group_ok g → keeps_ok (insert_datagram now k oti id data g).
Proof.
  intros Hok. pose proof Hok as [Hg Hb]. unfold insert_datagram.
  destruct (binary_search_cases ad_seq k (ag_datagrams g) (wg_datagrams _ Hg)) as [(i & d & -> & Hi & Hk)|[-> Hn]].
  { rewrite Hi. cbn [expect mbind outcome_bind]. unfold bail_if. destruct (negb _); [done|]. exact Hok. }
  pose proof (audio_prepare_spec k oti g Hok) as Hprep. destruct (prepare_datagram_segments k oti g) as [[g1 i]|e|]; [|done|done].
  destruct Hprep as (s & Hg1 & Hi & Hsk & Hso & Hws & Hb1). cbn [mbind outcome_bind]. rewrite Hi. cbn [expect mbind outcome_bind].
  assert (Hs : wf_segments s) by (apply Hws; by eapply list_elem_of_lookup_2).
  assert (ag_datagrams g1 = ag_datagrams g) as Hds by (by rewrite Hg1).
  assert (group_ok g1) as Hok1 by (split; [split; rewrite ?Hds; by try apply Hg|done]).
  unfold add_packet. pose proof (decode_wf MAX_AUDIO_PAYLOAD oti id data (as_decoder s) (proj1 Hs)) as Hdec.
  destruct (ObjectDecoder_decode oti id data (as_decoder s)) as [[d out]|e|]; cbn [mbind outcome_bind]; [|done|done].
  destruct Hdec as (Hwd & Ho & _). unfold is_complete. destruct out as [out|]; cbn [assembled].
  - rewrite bool_decide_true by done. unfold assemble. cbn [assembled ok_or mbind outcome_bind].
    pose proof (media_packet_no_panic out) as Hnp. destruct (media_packet out) as [p|e|]; cbn [mbind outcome_bind]; [|done|done].
    cbn [with_segments ag_segments]. rewrite delete_insert. apply (completed_ok g1 i s); [done|done|apply Hwd|done|]. by rewrite Hds, <- Hsk in *.
  - rewrite bool_decide_false by (by intros [x ?]). by apply (replaced_ok g1 i s).
Qed.

(** ** Taking packets *)

Lemma audio_fec_next_packet_ready now next g b :
  next_packet now next g = NpReady b →
  ag_config g ≠ CfgNone ∧ b = cfg_is_ready (ag_config g) ∧ (b = false → ag_datagrams g ≠ []).
Proof.
  unfold next_packet. destruct (ag_config g) as [|p|]; cbn [cfg_is_none cfg_is_ready]; [done|..];
    repeat case_match; intros [= <-]; naive_solver.
Qed.

Lemma audio_take_next_packet_spec now next g :
  group_ok g →
  ∃ a g', take_next_packet now next g = Ok (a, g') ∧
    match a with
    | APacket _ _ => group_ok g' ∧ (deliverable g' < deliverable g)%nat
    | ADeadline t => g' = g ∧ next_packet now next g = NpDeadline t
    | ANone => g' = g ∧ next_packet now next g = NpNone
    end.
Proof.
  intros [Hg [Hb1 Hb2]]. unfold take_next_packet. destruct (next_packet now next g) as [|b|t] eqn:Hn; [by eexists _, _| |by eexists _, _].
  apply audio_fec_next_packet_ready in Hn as (Hcfg & -> & Hd). destruct (audio_usage_split g) as [H1 H2].
  destruct (ag_config g) as [|p|] eqn:Hp; [done| |]; cbn.
  - eexists _, _. split; [done|]. cbn. destruct (audio_usage_split (with_config CfgSent g)) as [H3 H4].
    change (media_objects (with_config CfgSent g)) with (media_objects g) in H3.
    change (media_bytes (with_config CfgSent g)) with (media_bytes g) in H4.
    cbn [with_config ag_config config_objects config_bytes] in H3, H4. destruct (config_usage_nonneg (CfgReady p)).
    split; [|unfold deliverable; cbn; rewrite Hp; cbn; lia]. split; [destruct Hg; by split|]. split; lia.
  - destruct (ag_datagrams g) as [|d ds] eqn:Hds; [by destruct (Hd eq_refl)|]. eexists _, _. split; [done|]. cbn.
    split; [|unfold deliverable; cbn; rewrite Hp, Hds; cbn; lia]. unfold drop_expired_segments.
    set (n := match binary_search_by_key _ _ _ with Found i => i | NotFound i => i end). clearbody n.
    destruct Hg as [Hs1 Hs2 Hw1 Hw2]. rewrite Hds in Hs1, Hw1. split.
    + apply sorted_cons in Hs1 as [Hs1 _]. split; cbn; [done|by apply sorted_drop| |].
      * intros x Hx. apply Hw1. by right.
      * intros x Hx%elem_of_drop. by apply Hw2.
    + set (g' := with_segments _ _). destruct (audio_usage_split g') as [H3 H4]. change (ag_config g') with (ag_config g) in H3, H4.
      assert (media_objects g' ≤ media_objects g).
      { unfold media_objects. rewrite Hds. cbn [g' with_segments with_datagrams ag_segments ag_datagrams length]. rewrite length_drop. lia. }
      assert (media_bytes g' ≤ media_bytes g).
      { unfold media_bytes. rewrite Hds, sum_list_cons. cbn [g' with_segments with_datagrams ag_segments ag_datagrams].
        assert (0 ≤ reservation (ad_oti d)) by (eapply reservation_nonneg, Hw1; left).
        pose proof (sum_drop_le (λ s, reservation (od_oti (as_decoder s))) (ag_segments g) n
          ltac:(intros x Hx; eapply reservation_nonneg, (Hw2 x Hx))). lia. }
      unfold within_budget. rewrite Hp in H3, H4. lia.
Qed.

(** ** The drain loop *)

Definition process_ok (s : Process) : Prop := group_ok (pending_group s).

(** What a round of the drain loop leaves behind on every path *)
Lemma take_step_spec now s :
  process_ok s →
  ∃ s' r, take_step now s = (s', r) ∧ r ≠ Panic ∧ process_ok s' ∧ client_open s' = client_open s ∧ frame_size s' = frame_size s ∧
    (client_open s = true → is_Some (frame_size s) → ∃ b, r = Ok b) ∧
    (r = Ok true → (deliverable (pending_group s') < deliverable (pending_group s))%nat) ∧
    (r = Ok false → match next_packet now (next_kypacket_seq s') (pending_group s') with
                    | NpNone => deadline s' = None
                    | NpDeadline t => deadline s' = Some t
                    | NpReady _ => False
                    end).
Proof.
  intros Hok. unfold take_step. destruct (audio_take_next_packet_spec now (next_kypacket_seq s) (pending_group s) Hok) as (a & g & -> & Ha).
  destruct a as [k p|t|].
  - destruct Ha as [Hg Hlt]. run_handler. cbn [frame_size set_group].
    destruct (frame_size s) as [f|] eqn:Hf; cbn [ok_or].
    2:{ eexists _, _. split; [done|]. split_and!; try done. }
    unfold fill_gap, send_client; run_handler. cbn [next_kypacket_seq set_group].
    destruct (next_kypacket_seq s <? k); cbn [client_open set_stats set_group set_next mret handler_ret push_client];
      destruct (client_open s) eqn:Ho; cbn; rewrite ?Ho; cbn; (eexists _, _; split; [done|]); split_and!; try done; intros; by eexists.
  - destruct Ha as [-> Hn]. eexists _, _. split; [done|]. split_and!; try done; [by eexists|]. intros _. cbn. by rewrite Hn.
  - destruct Ha as [-> Hn]. eexists _, _. split; [done|]. split_and!; try done; [by eexists|]. intros _. cbn. by rewrite Hn.
Qed.

Lemma audio_drain_loop_spec fuel nows round s :
  process_ok s → (deliverable (pending_group s) < fuel)%nat →
  ∃ s' r, drain_loop fuel nows round s = (s', r) ∧ r ≠ Panic ∧ process_ok s' ∧
    (client_open s = true → is_Some (frame_size s) → r = Ok tt) ∧
    (r = Ok tt → ∃ i, (i ≤ deliverable (pending_group s))%nat ∧
       match next_packet (nows (round + i)%nat) (next_kypacket_seq s') (pending_group s') with
       | NpNone => deadline s' = None
       | NpDeadline t => deadline s' = Some t
       | NpReady _ => False
       end).
Proof.
  revert round s. induction fuel as [|fuel IH]; intros round s Hok Hf; [lia|]. cbn [drain_loop].
  destruct (take_step_spec (nows round) s Hok) as (s1 & r1 & Hr1 & Hnp & Hok1 & Ho & Hfs & Htot & Hmore & Hlast).
  run_handler. rewrite Hr1. destruct r1 as [[]|e|]; [| | |done].
  - specialize (Hmore eq_refl). destruct (IH (S round) s1 Hok1 ltac:(lia)) as (s' & r & Hr & Hnp' & Hok' & Htot' & Hl').
    exists s', r. split_and!; [done|done|done| |].
    + intros H1 H2. apply Htot'; [by rewrite Ho|by rewrite Hfs].
    + intros He. destruct (Hl' He) as (i & Hi & Hm). exists (S i). split; [lia|]. by replace (round + S i)%nat with (S round + i)%nat by lia.
  - exists s1, (Ok tt). split_and!; [done|done|done|done|]. intros _. exists 0%nat. split; [lia|]. rewrite Nat.add_0_r. by apply Hlast.
  - exists s1, (Err e). split_and!; [done|done|done| |done]. intros H1 H2. destruct (Htot H1 H2). done.
Qed.

(** Once the codec is known and while the client listens, the audio drain
    loop ends after at most one round per packet held plus one and leaves nothing
    ready: the receiver waits for a message, or has armed the deadline of
    [next_packet]. *)
Theorem audio_drain_complete nows s :
  process_ok s → client_open s = true → is_Some (frame_size s) →
  ∃ s' i, drain nows s = (s', Ok tt) ∧ (i ≤ deliverable (pending_group s))%nat ∧
    match next_packet (nows i) (next_kypacket_seq s') (pending_group s') with
    | NpNone => deadline s' = None
    | NpDeadline t => deadline s' = Some t
    | NpReady _ => False
    end.
Proof.
  intros Hok Ho Hf. unfold drain.
  destruct (audio_drain_loop_spec (S (deliverable (pending_group s))) nows 0 s Hok ltac:(lia)) as (s' & r & Hr & _ & _ & Htot & Hlast).
  specialize (Htot Ho Hf). subst r. destruct (Hlast eq_refl) as (i & Hi & Hl). eauto.
Qed.

(** ** Runs of [process] *)

Definition safe {A} (m : handler Process ProtocolError A) : Prop :=
  ∀ s, process_ok s → ∃ s' r, m s = (s', r) ∧ process_ok s' ∧ r ≠ Panic.

Lemma audio_safe_ret {A} (a : A) : safe (mret a).
Proof. intros s Hs. by eexists _, _. Qed.

Lemma audio_safe_bind {A B} (m : handler Process ProtocolError A) (f : A → handler Process ProtocolError B) :
  safe m → (∀ a, safe (f a)) → safe (m ≫= f).
Proof.
  intros Hm Hf s Hs. destruct (Hm s Hs) as (s1 & r & Hr & Hs1 & Hnp). run_handler. rewrite Hr.
  destruct r as [a|e|]; [by apply Hf|by eexists _, _|done].
Qed.

Lemma audio_safe_get {A} (f : Process → A) : safe (getM f).
Proof. intros s Hs. by eexists _, _. Qed.

Lemma audio_safe_send_client p : safe (send_client p).
Proof. intros s Hs. unfold send_client. destruct (client_open s); by eexists _, _. Qed.

Lemma audio_safe_unroll k : safe (unroll k).
Proof. intros s Hs. unfold unroll. destruct (seq _ _ k). by eexists _, _. Qed.

Lemma audio_safe_update f : (∀ g, group_ok g → keeps_ok (f g)) → safe (update_group f).
Proof. intros Hf s Hs. unfold update_group. specialize (Hf (pending_group s) Hs). destruct (f (pending_group s)); [by eexists _, _..|done]. Qed.

Lemma safe_bail b e : safe (pureM (bail_if b e)).
Proof. intros s Hs. unfold pureM. destruct b; by eexists _, _. Qed.

Lemma safe_frame f : safe (modifyM (set_frame_size f)).
Proof. intros s Hs. by eexists _, _. Qed.

Lemma audio_safe_drain nows : safe (drain nows).
Proof.
  intros s Hs. unfold drain.
  destruct (audio_drain_loop_spec (S (deliverable (pending_group s))) nows 0 s Hs ltac:(lia)) as (s' & r & Hr & Hnp & Hok & _). eauto.
Qed.

Create HintDb audio_safe.
#[local] Hint Resolve audio_safe_ret audio_safe_bind audio_safe_get audio_safe_send_client audio_safe_unroll audio_safe_update safe_bail safe_frame audio_safe_drain
  audio_insert_stream_packet_ok audio_insert_datagram_ok : audio_safe.

Lemma audio_safe_handle_event now ev : safe (handle_event now ev).
Proof.
  destruct ev as [[m|m]|e| |]; cbn [handle_event].
  - destruct (sm_packet m); [auto 10 with audio_safe|..];
      (apply audio_safe_bind; [auto with audio_safe|intros k; apply audio_safe_bind; [auto with audio_safe|intros next]];
       destruct (next <=? k); auto with audio_safe).
  - apply audio_safe_bind; [auto with audio_safe|intros k]. apply audio_safe_bind; [auto with audio_safe|intros next].
    destruct (k <? next); auto with audio_safe.
  - intros s Hs. by eexists _, _.
  - auto with audio_safe.
  - auto with audio_safe.
Qed.

Lemma audio_safe_run evs : safe (run evs).
Proof.
  induction evs as [|[[now nows] ev] evs IH]; cbn [run]; [apply audio_safe_ret|].
  apply audio_safe_bind; [apply audio_safe_bind; [apply audio_safe_handle_event|intros []; auto with audio_safe]|]. intros []; [done|apply audio_safe_ret].
Qed.

Lemma audio_process_init_ok stats : process_ok (process_init stats).
Proof. split; [split; cbn; [constructor|constructor|..]; intros; exfalso; by eapply not_elem_of_nil|]. by vm_compute. Qed.

(** Whatever messages and errors arrive, in whatever order and at whatever
    times, the audio [process] never panics, and every state it reaches holds at
    most 128 pending objects and 8 MiB of reservations. *)
Theorem audio_fec_receiver_bounded evs stats :
  let '(s, r) := run evs (process_init stats) in
  r ≠ Panic ∧ (usage (pending_group s)).1 ≤ 128 ∧ (usage (pending_group s)).2 ≤ 8 * 1024 * 1024.
Proof.
  destruct (audio_safe_run evs (process_init stats) (audio_process_init_ok stats)) as (s & r & -> & [_ [H1 H2]] & Hnp). done.
Qed.
End Safety.

(** ** Samples *)

Definition sample_object : bytes :=
  be_bytes 8 (pts_and_flags {| is_config := false; is_key := false; pts := 3; size := 8 |}) ++ be_bytes 4 8 ++ replicate 8 5.

Definition sample_symbol (e : Z) : Event :=
  EvMsg (RDatagram {| dm_data := symbol_at sample_object 8 (Z.to_nat e); dm_raw_kypacket_seq := 3; dm_oti := sample_oti;
                      dm_payload_id := mk_id 0 e |}).

Definition sample_codec : @Event systematic :=
  EvMsg (RStream {| sm_packet := Codec {| codec_header := {| codec := 7; rotation := 0; Av.frame_size := 960 |} |};
                    sm_raw_kypacket_seq := 0 |}).

Definition sample_config : @Event systematic :=
  EvMsg (RStream {| sm_packet := Media {| header := {| is_config := true; is_key := false; pts := 0; size := 0 |}; payload := [] |};
                    sm_raw_kypacket_seq := 0 |}).

Definition sample_events : list (Instant * (nat → Instant) * Event) :=
  [(0, λ _, 0, sample_codec); (1, λ _, 1, sample_symbol 0); (2, λ _, 2, sample_symbol 2); (3, λ _, 3, sample_symbol 1);
   (4, λ _, 20000, sample_config)].

(** Packets 1 and 2 never came. *)
Example audio_sample_delivered :
  (λ p : option Z * AVPacket, match p.2 with Hole h => (p.1, missing_audio_samples (hole_header h)) | _ => (p.1, 0) end) <$>
    client (run sample_events (process_init stats_default)).1 =
  [(None, 0); (Some 0, 0); (None, 1920); (Some 3, 0)].
Proof. by vm_compute. Qed.

Lemma audio_fec_receiver_bounded_witness :
  let '(s, r) := run sample_events (process_init stats_default) in
  r ≠ Panic ∧ (usage (pending_group s)).1 ≤ 128 ∧ (usage (pending_group s)).2 ≤ 8 * 1024 * 1024.
Proof. apply (audio_fec_receiver_bounded sample_events stats_default). Defined.

Definition sample_state : Process := (run (take 4 sample_events) (process_init stats_default)).1.

Lemma sample_state_ok : process_ok sample_state.
Proof.
  unfold sample_state. destruct (audio_safe_run (take 4 sample_events) _ (audio_process_init_ok stats_default)) as (s & r & -> & Hok & _). done.
Qed.

Lemma audio_drain_complete_witness :
  ∃ s' i, drain (λ _, 5) sample_state = (s', Ok tt) ∧ (i ≤ deliverable (pending_group sample_state))%nat ∧
    match next_packet 5 (next_kypacket_seq s') (pending_group s') with
    | NpNone => deadline s' = None
    | NpDeadline t => deadline s' = Some t
    | NpReady _ => False
    end.
Proof. apply (audio_drain_complete (λ _, 5) sample_state); [apply sample_state_ok|by vm_compute|eexists; by vm_compute]. Defined.
