(* ===== verification/GopStream.v ===== *)
(** * One stream per group of pictures

    Models [kyproto/src/protocol/driver/av/video_gopstream.rs]: the sender,
    which opens a stream on every keyframe and repeats the codec and the config
    on it, and the receiver, a queue fed by concurrent tasks (one that accepts
    streams, one per stream that reads its ids, and the reader of the current
    stream), as a step relation. *)

From stdpp Require Import prelude list strings.
From Stdlib Require Import ZArith Lia.
From S2P Require Import Prelude SortedVec Io Av Packets Channel.
Open Scope Z_scope.

(** ** Sender *)

Record SendDriver := {
  openings : list (option Writer);   (* results of the next calls of [open_uni] *)
  current_stream : option Writer;
  finished : list Writer;            (* streams replaced and finished *)
  gop_id : Z;
  codec_gen : Z;
  codec_packet : option CodecPacket;
  config_gen : Z;
  config_packet : option MediaPacket;
}.

(** [VideoGopStreamProtocolSendDriver::start] *)
Definition send_start (openings : list (option Writer)) : SendDriver :=
  {| openings := openings; current_stream := None; finished := []; gop_id := 0; codec_gen := 0; codec_packet := None;
     config_gen := 0; config_packet := None |}.

Abbreviation sending := (handler SendDriver ProtocolError).

Definition set_codec (p : CodecPacket) (s : SendDriver) : SendDriver :=
  {| openings := openings s; current_stream := current_stream s; finished := finished s; gop_id := gop_id s;
     codec_gen := wrap32 (codec_gen s + 1); codec_packet := Some p; config_gen := config_gen s; config_packet := config_packet s |}.
Definition set_config (p : MediaPacket) (s : SendDriver) : SendDriver :=
  {| openings := openings s; current_stream := current_stream s; finished := finished s; gop_id := gop_id s;
     codec_gen := codec_gen s; codec_packet := codec_packet s; config_gen := wrap32 (config_gen s + 1); config_packet := Some p |}.
Definition next_gop (s : SendDriver) : SendDriver :=
  {| openings := openings s; current_stream := current_stream s; finished := finished s; gop_id := wrap32 (gop_id s + 1);
     codec_gen := codec_gen s; codec_packet := codec_packet s; config_gen := config_gen s; config_packet := config_packet s |}.
Definition replace_stream (w : Writer) (s : SendDriver) : SendDriver :=
  {| openings := openings s; current_stream := Some w; finished := finished s ++ option_list (current_stream s);
     gop_id := gop_id s; codec_gen := codec_gen s; codec_packet := codec_packet s; config_gen := config_gen s;
     config_packet := config_packet s |}.
Definition set_current (w : Writer) (s : SendDriver) : SendDriver :=
  {| openings := openings s; current_stream := Some w; finished := finished s; gop_id := gop_id s; codec_gen := codec_gen s;
     codec_packet := codec_packet s; config_gen := config_gen s; config_packet := config_packet s |}.

(** [ky_channel.open_uni()] *)
Definition open_uni : sending Writer := λ s,
  let s' rest := {| openings := rest; current_stream := current_stream s; finished := finished s; gop_id := gop_id s;
                    codec_gen := codec_gen s; codec_packet := codec_packet s; config_gen := config_gen s;
                    config_packet := config_packet s |} in
  match openings s with
  | Some w :: rest => (s' rest, Ok w)
  | None :: rest => (s' rest, Err connection_lost)
  | [] => (s, Err connection_lost)
  end.

(** Writes on a stream the driver does not own yet; the stream is dropped when
    they fail. *)
Definition on_new_stream (m : writing unit) (w : Writer) : sending Writer := λ s,
  match m w with (w, Ok _) => (s, Ok w) | (_, Err e) => (s, Err (io_message e)) | (_, Panic) => (s, Panic) end.

(** The start of a stream: the ids *)
Definition ids_bytes (s : SendDriver) : bytes := be_bytes 4 (gop_id s) ++ be_bytes 4 (codec_gen s) ++ be_bytes 4 (config_gen s).

(** The part of [send] that starts a new stream on a keyframe *)
Definition start_gop : sending unit :=
  new_stream ← open_uni;
  ids ← getM ids_bytes;
  _ ← modifyM next_gop;
  codec ← getM codec_packet;
  codec ← pureM (expect codec);
  config ← getM config_packet;
  config ← pureM (expect config);
  codec_hdr ← pureM (codec_serialize (codec_header codec));
  config_hdr ← pureM (media_serialize (header config));
  new_stream ← on_new_stream (_ ← write_all (ids ++ codec_hdr ++ config_hdr ++ payload config); flush) new_stream;
  modifyM (replace_stream new_stream).

(** The part of [send] that writes a media packet on the current stream *)
Definition write_frame (p : MediaPacket) : sending unit := λ s,
  match current_stream s with
  | Some w =>
      let '(w, r) := (hdr ← lift_io (media_serialize (header p)); _ ← write_all hdr; _ ← write_all (payload p); flush) w in
      (set_current w s, map_err io_message r)
  | None => (s, Ok tt)
  end.

(** [ProtocolSendDriver::send] *)
Definition send (packet : AVPacket) : sending unit :=
  match packet with
  | Codec p => modifyM (set_codec p)
  | Media p =>
      if is_config (header p) then modifyM (set_config p)
      else
        _ ← (if is_key (header p) then start_gop else mret tt);
        write_frame p
  | Hole _ => pureM Panic
  end.

Fixpoint send_all (ps : list AVPacket) : sending unit :=
  match ps with [] => mret tt | p :: ps => _ ← send p; send_all ps end.

(** ** Receiver *)

Record Gop := { g_id : Z; g_codec_gen : Z; g_config_gen : Z }.

Inductive RecvMsg :=
| NewStream (recv : Reader)
| StreamIds (recv : Reader) (gop : Gop)
| NewPacket (packet : AVPacket) (id : Z).

Record RecvDriver := {
  rx : list RecvMsg;                       (* the queue of messages *)
  gop : option Gop;
  last_codec_gen : Z;
  last_config_gen : Z;
  ids_tasks : list Reader;                 (* the spawned [read_stream_ids] *)
  read_packets_task : option (Reader * Z); (* the reader of the current stream and its gop id *)
  cancelled : list (Reader * Z);           (* readers told to stop that may still run *)
}.

(** [VideoGopStreamProtocolRecvDriver::start] *)
Definition recv_start : RecvDriver :=
  {| rx := []; gop := None; last_codec_gen := 0; last_config_gen := 0; ids_tasks := []; read_packets_task := None;
     cancelled := [] |}.

Definition set_rx (q : list RecvMsg) (d : RecvDriver) : RecvDriver :=
  {| rx := q; gop := gop d; last_codec_gen := last_codec_gen d; last_config_gen := last_config_gen d;
     ids_tasks := ids_tasks d; read_packets_task := read_packets_task d; cancelled := cancelled d |}.
Definition push (m : RecvMsg) (d : RecvDriver) : RecvDriver := set_rx (rx d ++ [m]) d.
Definition set_ids_tasks (l : list Reader) (d : RecvDriver) : RecvDriver :=
  {| rx := rx d; gop := gop d; last_codec_gen := last_codec_gen d; last_config_gen := last_config_gen d;
     ids_tasks := l; read_packets_task := read_packets_task d; cancelled := cancelled d |}.
Definition set_task (t : option (Reader * Z)) (d : RecvDriver) : RecvDriver :=
  {| rx := rx d; gop := gop d; last_codec_gen := last_codec_gen d; last_config_gen := last_config_gen d;
     ids_tasks := ids_tasks d; read_packets_task := t; cancelled := cancelled d |}.
Definition set_cancelled (l : list (Reader * Z)) (d : RecvDriver) : RecvDriver :=
  {| rx := rx d; gop := gop d; last_codec_gen := last_codec_gen d; last_config_gen := last_config_gen d;
     ids_tasks := ids_tasks d; read_packets_task := read_packets_task d; cancelled := l |}.
Definition set_gop (g : Gop) (d : RecvDriver) : RecvDriver :=
  {| rx := rx d; gop := Some g; last_codec_gen := last_codec_gen d; last_config_gen := last_config_gen d;
     ids_tasks := ids_tasks d; read_packets_task := read_packets_task d; cancelled := cancelled d |}.
Definition set_gens (codec config : Z) (d : RecvDriver) : RecvDriver :=
  {| rx := rx d; gop := gop d; last_codec_gen := codec; last_config_gen := config;
     ids_tasks := ids_tasks d; read_packets_task := read_packets_task d; cancelled := cancelled d |}.

(** [task.cancel()] on the current reader, then [Task::spawn_task] of the next *)
Definition switch_reader (t : Reader * Z) (d : RecvDriver) : RecvDriver :=
  set_task (Some t) (set_cancelled (cancelled d ++ option_list (read_packets_task d)) d).

(** [read_stream_ids], up to the message it sends *)
Definition read_stream_ids (recv : Reader) : outcome ProtocolError (Gop * Reader) :=
  '(ids, recv) ← map_err io_message (read_exact 12 recv);
  Ok ({| g_id := read_be (slice 0 4 ids); g_codec_gen := read_be (slice 4 4 ids); g_config_gen := read_be (slice 8 4 ids) |}, recv).

Definition is_newer (g : Gop) (prev : option Gop) : bool :=
  match prev with Some prev => g_id prev <? g_id g | None => true end.

(** One round of the loop of [recv]: the packet returned, if any *)
Definition handle_msg (m : RecvMsg) : handler RecvDriver ProtocolError (option AVPacket) :=
  match m with
  | NewStream recv => _ ← modifyM (λ d, set_ids_tasks (ids_tasks d ++ [recv]) d); mret None
  | StreamIds recv g =>
      prev ← getM gop;
      if is_newer g prev then _ ← modifyM (λ d, switch_reader (recv, g_id g) (set_gop g d)); mret None
      else mret None
  | NewPacket packet id =>
      g ← getM gop;
      g ← pureM (expect g);
      if id =? g_id g then
        match packet with
        | Codec _ =>
            last ← getM last_codec_gen;
            if g_codec_gen g =? last then mret None
            else _ ← modifyM (λ d, set_gens (g_codec_gen g) (last_config_gen d) d); mret (Some packet)
        | Media p =>
            if is_config (header p) then
              last ← getM last_config_gen;
              if g_config_gen g =? last then mret None
              else _ ← modifyM (λ d, set_gens (last_codec_gen d) (g_config_gen g) d); mret (Some packet)
            else mret (Some packet)
        | Hole _ => pureM Panic
        end
      else mret None
  end.

(** [recv] on the messages already queued: [None] when it has to wait.  The
    driver keeps a sender of its own queue, so the queue never closes. *)
Fixpoint recv_loop (fuel : nat) : handler RecvDriver ProtocolError (option AVPacket) := λ d,
  match fuel, rx d with
  | S fuel, m :: q => (p ← handle_msg m; match p with Some p => mret (Some p) | None => recv_loop fuel end) (set_rx q d)
  | _, _ => (d, Ok None)
  end.

Definition recv : handler RecvDriver ProtocolError (option AVPacket) := λ d, recv_loop (length (rx d)) d.

(** ** The receiver and its tasks as a step relation

    [A] holds of the streams the peer opens.  An output carries the gop that is
    current when [recv] returns it.  Cancelling a task only signals it
    ([kyproto/src/task.rs]): until it sees the signal it may still read and
    queue packets.  The queue holds 16 messages in the code; here a task that
    waits for room is one that has not read its packet yet. *)

Section Steps.
Context (A : Reader → Prop).

Inductive gop_step : RecvDriver → option (Gop * AVPacket) → RecvDriver → Prop :=
| step_accept d r : A r → gop_step d None (push (NewStream r) d)
| step_ids d l1 r l2 g r' :
    ids_tasks d = l1 ++ r :: l2 → read_stream_ids r = Ok (g, r') →
    gop_step d None (push (StreamIds r' g) (set_ids_tasks (l1 ++ l2) d))
| step_ids_failed d l1 r l2 e :
    ids_tasks d = l1 ++ r :: l2 → read_stream_ids r = Err e → gop_step d None (set_ids_tasks (l1 ++ l2) d)
| step_packet d r id p r' :
    read_packets_task d = Some (r, id) → av_read r = Ok (Some p, r') →
    gop_step d None (push (NewPacket p id) (set_task (Some (r', id)) d))
| step_stream_end d r id :
    read_packets_task d = Some (r, id) → (∀ p r', av_read r ≠ Ok (Some p, r')) → gop_step d None (set_task None d)
| step_cancelled_packet d l1 r id l2 p r' :
    cancelled d = l1 ++ (r, id) :: l2 → av_read r = Ok (Some p, r') →
    gop_step d None (push (NewPacket p id) (set_cancelled (l1 ++ (r', id) :: l2) d))
| step_cancelled_stop d l1 t l2 : cancelled d = l1 ++ t :: l2 → gop_step d None (set_cancelled (l1 ++ l2) d)
| step_recv_silent d m q d' :
    rx d = m :: q → handle_msg m (set_rx q d) = (d', Ok None) → gop_step d None d'
| step_recv_output d m q d' g p :
    rx d = m :: q → handle_msg m (set_rx q d) = (d', Ok (Some p)) → gop d' = Some g → gop_step d (Some (g, p)) d'.

Inductive gop_runs : list (Gop * AVPacket) → RecvDriver → Prop :=
| runs_start : gop_runs [] recv_start
| runs_step outs d o d' : gop_runs outs d → gop_step d o d' → gop_runs (outs ++ option_list o) d'.
End Steps.
