(* ===== verification/GopOrder.v ===== *)
(** * Group-of-pictures streams: what the receiver delivers

    A script lists the groups of pictures a sender puts on the wire.  Whatever
    the order in which the streams arrive, are read and are cut, the receiver
    moves forward through the groups, delivers a prefix of the frames of each,
    and announces every codec and config once, before the first frame that
    needs it. *)

From stdpp Require Import prelude list strings sorting.
From Stdlib Require Import ZArith Lia.
From S2P Require Import Prelude SortedVec Io Av Packets Channel GopStream.
Open Scope Z_scope.

(** ** Scripts *)

Record GopScript := {
  gs_gop : Gop;
  gs_codec : CodecPacket;
  gs_config : MediaPacket;
  gs_frames : list MediaPacket;
}.

(** The packets of a stream, after its ids *)
Definition script_packets (s : GopScript) : list AVPacket :=
  Codec (gs_codec s) :: Media (gs_config s) :: (Media <$> gs_frames s).

Record wf_script (sc : list GopScript) : Prop := {
  script_id i s : sc !! i = Some s → g_id (gs_gop s) = Z.of_nat i;
  script_config s : s ∈ sc → is_config (header (gs_config s)) = true;
  script_frames s p : s ∈ sc → p ∈ gs_frames s → is_config (header p) = false;
  script_gens s : s ∈ sc → 0 < g_codec_gen (gs_gop s) ∧ 0 < g_config_gen (gs_gop s);
  script_monotone i j s t :
    sc !! i = Some s → sc !! j = Some t → (i ≤ j)%nat →
    g_codec_gen (gs_gop s) ≤ g_codec_gen (gs_gop t) ∧ g_config_gen (gs_gop s) ≤ g_config_gen (gs_gop t);
}.

(** Successive packets read from a stream *)
Inductive reads : Reader → list AVPacket → Reader → Prop :=
| reads_nil r : reads r [] r
| reads_snoc r ps r1 p r2 : reads r ps r1 → av_read r1 = Ok (Some p, r2) → reads r (ps ++ [p]) r2.

(** ** Observations of a run *)

Definition is_frame (p : AVPacket) : bool := match p with Media p => negb (is_config (header p)) | _ => false end.
Definition frames (ps : list AVPacket) : list AVPacket := filter is_frame ps.

Definition of_gop (i : Z) (outs : list (Gop * AVPacket)) : list AVPacket :=
  omap (λ o, if g_id o.1 =? i then Some o.2 else None) outs.

Definition packet_of (i : Z) (m : RecvMsg) : option AVPacket :=
  match m with NewPacket p id => if id =? i then Some p else None | _ => None end.
Definition queued (i : Z) (q : list RecvMsg) : list AVPacket := omap (packet_of i) q.

(** A decoder that accepts a codec or a config only when it is new, and a frame
    only when the codec and the config it was encoded with are in force *)
Definition watch (st : Z * Z) (o : Gop * AVPacket) : option (Z * Z) :=
  let '(codec, config) := st in
  let '(g, p) := o in
  match p with
  | Codec _ => if codec <? g_codec_gen g then Some (g_codec_gen g, config) else None
  | Media p =>
      if is_config (header p) then if config <? g_config_gen g then Some (codec, g_config_gen g) else None
      else if (codec =? g_codec_gen g) && (config =? g_config_gen g) then Some (codec, config) else None
  | Hole _ => None
  end.

Fixpoint watch_all (st : Z * Z) (outs : list (Gop * AVPacket)) : option (Z * Z) :=
  match outs with [] => Some st | o :: outs => st ← watch st o; watch_all st outs end.

Lemma watch_all_snoc st outs o : watch_all st (outs ++ [o]) = st' ← watch_all st outs; watch st' o.
Proof.
  revert st. induction outs as [|o' outs IH]; intros st; cbn; [by destruct (watch st o)|].
  destruct (watch st o'); cbn; [apply IH|done].
Qed.

Lemma frames_app l k : frames (l ++ k) = frames l ++ frames k.
Proof. apply filter_app. Qed.

Lemma of_gop_app i l k : of_gop i (l ++ k) = of_gop i l ++ of_gop i k.
Proof. apply omap_app. Qed.

Lemma queued_snoc i q m : queued i (q ++ [m]) = queued i q ++ option_list (packet_of i m).
Proof. unfold queued. rewrite omap_app. cbn. by destruct (packet_of i m). Qed.

Lemma of_gop_nil i outs : (∀ o, o ∈ outs → g_id o.1 < i) → of_gop i outs = [].
Proof.
  intros Ho. induction outs as [|o outs IH]; [done|]. cbn.
  destruct (Z.eqb_spec (g_id o.1) i) as [E|_].
  - pose proof (Ho o ltac:(left)). lia.
  - apply IH. intros o' Ho'. apply Ho. by right.
Qed.

Lemma queued_nil i q : (∀ p id, NewPacket p id ∈ q → id < i) → queued i q = [].
Proof.
  intros Hq. induction q as [|m q IH]; [done|].
  assert (queued i q = []) as Hnil by (apply IH; intros p id ?; apply (Hq p id); by right).
  destruct m as [r|r g|p id]; cbn; [done|done|]. destruct (Z.eqb_spec id i); [|done].
  pose proof (Hq p id ltac:(left)). lia.
Qed.

Arguments queued : simpl never.
Arguments of_gop : simpl never.
Arguments frames : simpl never.

(** ** The invariant *)

Section Receiver.
Context (A : Reader → Prop) (sc : list GopScript) (Hsc : wf_script sc).

Definition script (g : Gop) (s : GopScript) : Prop := sc !! Z.to_nat (g_id g) = Some s ∧ gs_gop s = g.

(** A stream whose ids have been read: it is in the script, and what is read
    from it is read in the order of the script. *)
Definition announced (g : Gop) (r0 : Reader) : Prop :=
  ∃ s, script g s ∧ ∀ ps r1, reads r0 ps r1 → ps `prefix_of` script_packets s.

Definition follows_script : Prop := ∀ r g r0, A r → read_stream_ids r = Ok (g, r0) → announced g r0.

Context (HA : follows_script).

(** The stream of the current gop: the packets handled and those queued are the
    packets read so far. *)
Definition current (outs : list (Gop * AVPacket)) (d : RecvDriver) (g : Gop) : Prop :=
  ∃ s r0 handled r1,
    script g s ∧ (∀ ps r, reads r0 ps r → ps `prefix_of` script_packets s) ∧
    reads r0 (handled ++ queued (g_id g) (rx d)) r1 ∧
    (∀ r id, read_packets_task d = Some (r, id) → r = r1 ∧ id = g_id g) ∧
    frames (of_gop (g_id g) outs) = frames handled ∧
    (handled ≠ [] → last_codec_gen d = g_codec_gen g) ∧ (2 ≤ length handled → last_config_gen d = g_config_gen g)%nat ∧
    last_codec_gen d ≤ g_codec_gen g ∧ last_config_gen d ≤ g_config_gen g.

Definition gop_state (outs : list (Gop * AVPacket)) (d : RecvDriver) : Prop :=
  match gop d with
  | None =>
      read_packets_task d = None ∧ cancelled d = [] ∧ (∀ p id, NewPacket p id ∉ rx d) ∧ outs = [] ∧
      last_codec_gen d = 0 ∧ last_config_gen d = 0
  | Some g =>
      (∀ p id, NewPacket p id ∈ rx d → id ≤ g_id g) ∧ (∀ r id, (r, id) ∈ cancelled d → id < g_id g) ∧
      (∀ o, o ∈ outs → g_id o.1 ≤ g_id g) ∧ current outs d g
  end.

Definition streams_ok (d : RecvDriver) : Prop :=
  (∀ r, NewStream r ∈ rx d → A r) ∧ (∀ r, r ∈ ids_tasks d → A r) ∧ (∀ r g, StreamIds r g ∈ rx d → announced g r).

Record delivered (outs : list (Gop * AVPacket)) (d : RecvDriver) : Prop := {
  dl_watch : watch_all (0, 0) outs = Some (last_codec_gen d, last_config_gen d);
  dl_order : StronglySorted Z.le ((λ o, g_id o.1) <$> outs);
  dl_origin o : o ∈ outs → ∃ s, script o.1 s ∧ o.2 ∈ script_packets s;
  dl_frames i s : sc !! i = Some s → frames (of_gop (Z.of_nat i) outs) `prefix_of` (Media <$> gs_frames s);
}.

Definition tracks (outs : list (Gop * AVPacket)) (d : RecvDriver) : Prop :=
  streams_ok d ∧ gop_state outs d ∧ delivered outs d.

(** *** Steps of the tasks *)

Lemma streams_ok_push m d :
  match m with NewStream r => A r | StreamIds r g => announced g r | NewPacket _ _ => True end →
  streams_ok d → streams_ok (push m d).
Proof.
  intros Hm (H1 & H2 & H3). split_and!; cbn.
  - intros r [?|E%list_elem_of_singleton]%elem_of_app; [auto|by subst].
  - auto.
  - intros r g [?|E%list_elem_of_singleton]%elem_of_app; [auto|by subst].
Qed.

Lemma gop_state_push outs m d :
  (∀ p id, m ≠ NewPacket p id) → gop_state outs d → gop_state outs (push m d).
Proof.
  intros Hm. unfold gop_state. cbn. assert (∀ p id, NewPacket p id ∈ rx d ++ [m] → NewPacket p id ∈ rx d) as Hin.
  { intros p id [?|E%list_elem_of_singleton]%elem_of_app; [done|by destruct (Hm p id)]. }
  destruct (gop d) as [g|].
  - intros (H1 & H2 & H3 & s & r0 & handled & r1 & Hs & Hr & Hreads & Hrest). split_and!; [eauto..|].
    exists s, r0, handled, r1. cbn. rewrite queued_snoc.
    replace (packet_of (g_id g) m) with (@None AVPacket); [by rewrite app_nil_r|].
    destruct m as [?|? ?|p id]; [done|done|]. by destruct (Hm p id).
  - intros (H1 & H2 & H3 & H4 & H5 & H6). split_and!; [done|done| |done..]. intros p id Hp. by apply (H3 p id), Hin.
Qed.

Lemma gop_state_packet outs d r id p r' :
  read_packets_task d = Some (r, id) → av_read r = Ok (Some p, r') → gop_state outs d →
  gop_state outs (push (NewPacket p id) (set_task (Some (r', id)) d)).
Proof.
  intros Ht Hread. unfold gop_state. cbn. destruct (gop d) as [g|]; [|intros (? & _); congruence].
  intros (H1 & H2 & H3 & s & r0 & handled & r1 & Hs & Hr & Hreads & Htask & Hrest).
  destruct (Htask _ _ Ht) as [-> ->]. split_and!; [|done|done|].
  - intros p' id [?|[= -> ->]%list_elem_of_singleton]%elem_of_app; [eauto|lia].
  - exists s, r0, handled, r'. cbn. rewrite queued_snoc. cbn. rewrite Z.eqb_refl. split_and!; [done|done| |naive_solver|apply Hrest..].
    rewrite app_assoc. by eapply reads_snoc.
Qed.

Lemma gop_state_cancelled_packet outs d l1 r id l2 p r' :
  cancelled d = l1 ++ (r, id) :: l2 → gop_state outs d →
  gop_state outs (push (NewPacket p id) (set_cancelled (l1 ++ (r', id) :: l2) d)).
Proof.
  intros Hc. unfold gop_state. cbn. destruct (gop d) as [g|]; [|rewrite Hc; intros (_ & [_ ?]%app_eq_nil & _); done].
  intros (H1 & H2 & H3 & s & r0 & handled & r1 & Hs & Hr & Hreads & Hrest).
  assert (id < g_id g) by (apply (H2 r); rewrite Hc; set_solver). split_and!.
  - intros p' id' [?|[= -> ->]%list_elem_of_singleton]%elem_of_app; [eauto|lia].
  - intros r2 id2 [?|[[= -> ->]|?]%elem_of_cons]%elem_of_app; [|done|]; apply (H2 r2); rewrite Hc; set_solver.
  - done.
  - exists s, r0, handled, r1. cbn. rewrite queued_snoc. cbn. destruct (Z.eqb_spec id (g_id g)); [lia|].
    by rewrite app_nil_r.
Qed.

Lemma gop_state_cancelled_stop outs d l1 t l2 :
  cancelled d = l1 ++ t :: l2 → gop_state outs d → gop_state outs (set_cancelled (l1 ++ l2) d).
Proof.
  intros Hc. unfold gop_state. cbn. destruct (gop d) as [g|]; [|rewrite Hc; intros (_ & [_ ?]%app_eq_nil & _); done].
  intros (H1 & H2 & H3 & H4). split_and!; [done| |done|done]. intros r id Hin. apply (H2 r). rewrite Hc. set_solver.
Qed.

Lemma gop_state_stream_end outs d : gop_state outs d → gop_state outs (set_task None d).
Proof.
  unfold gop_state. cbn. destruct (gop d) as [g|]; [|naive_solver].
  intros (H1 & H2 & H3 & s & r0 & handled & r1 & Hs & Hr & Hreads & Htask & Hrest). split_and!; [done..|].
  exists s, r0, handled, r1. split_and!; [done..|apply Hrest|apply Hrest|apply Hrest|apply Hrest|apply Hrest].
Qed.

(** *** Steps of [recv] *)

Lemma script_in g s : script g s → s ∈ sc.
Proof. intros [Hs _]. by eapply list_elem_of_lookup_2. Qed.

Lemma script_order g s g' s' :
  script g s → script g' s' → g_id g ≤ g_id g' → g_codec_gen g ≤ g_codec_gen g' ∧ g_config_gen g ≤ g_config_gen g'.
Proof.
  intros [Hs Eg] [Hs' Eg'] Hle. pose proof (script_monotone sc Hsc _ _ _ _ Hs Hs' ltac:(lia)) as Hm.
  by rewrite Eg, Eg' in Hm.
Qed.

Lemma script_id_eq g s : script g s → Z.of_nat (Z.to_nat (g_id g)) = g_id g.
Proof. intros [Hs Eg]. pose proof (script_id sc Hsc _ _ Hs) as Hi. rewrite Eg in Hi. lia. Qed.

Lemma streams_ok_pop m q d : rx d = m :: q → streams_ok d → streams_ok (set_rx q d).
Proof.
  intros Hrx (H1 & H2 & H3). rewrite Hrx in H1, H3. split_and!; cbn; intros *; [|apply H2|]; intros Hin;
    [apply H1 | apply H3]; by right.
Qed.

Lemma gop_state_drop outs m q d :
  rx d = m :: q → (∀ p id, m = NewPacket p id → ∀ g, gop d = Some g → id ≠ g_id g) →
  gop_state outs d → gop_state outs (set_rx q d).
Proof.
  intros Hrx Hm. unfold gop_state. cbn. destruct (gop d) as [g|].
  - intros (H1 & H2 & H3 & s & r0 & handled & r1 & Hs & Hr & Hreads & Hrest). rewrite Hrx in H1.
    split_and!; [|done|done|].
    + intros p id Hin. apply (H1 p). by right.
    + exists s, r0, handled, r1. cbn. rewrite Hrx in Hreads.
      replace (queued (g_id g) (m :: q)) with (queued (g_id g) q) in Hreads; [done|].
      destruct m as [?|? ?|p id]; [done|done|]. unfold queued. cbn.
      destruct (Z.eqb_spec id (g_id g)); [by destruct (Hm p id eq_refl g)|done].
  - intros (H1 & H2 & H3 & H4 & H5 & H6). rewrite Hrx in H3. split_and!; [done|done| |done..].
    intros p id Hin. apply (H3 p id). by right.
Qed.

(** A newer stream becomes the current one: nothing of it is queued or
    delivered yet. *)
Lemma gop_state_adopt outs g r0 d :
  announced g r0 → is_newer g (gop d) = true → gop_state outs d →
  gop_state outs (switch_reader (r0, g_id g) (set_gop g d)).
Proof.
  intros (s & Hs & Hr) Hnew Hst.
  assert (∀ o, o ∈ outs → g_id o.1 < g_id g) as Hold.
  { unfold gop_state in Hst. destruct (gop d) as [g'|]; cbn in Hnew; [|destruct Hst as (_ & _ & _ & -> & _); set_solver].
    intros o Ho. destruct Hst as (_ & _ & Ho' & _). specialize (Ho' o Ho). lia. }
  assert (∀ p id, NewPacket p id ∈ rx d → id < g_id g) as Hq.
  { unfold gop_state in Hst. intros p id Hin. destruct (gop d) as [g'|]; cbn in Hnew.
    - destruct Hst as (Hq & _). specialize (Hq p id Hin). lia.
    - destruct Hst as (_ & _ & Hq & _). by destruct (Hq p id). }
  assert (last_codec_gen d ≤ g_codec_gen g ∧ last_config_gen d ≤ g_config_gen g) as [Hc Hf].
  { unfold gop_state in Hst. destruct (gop d) as [g'|]; cbn in Hnew.
    - destruct Hst as (_ & _ & _ & s' & ? & ? & ? & Hs' & _ & _ & _ & _ & _ & _ & Hc & Hf).
      destruct (script_order g' s' g s Hs' Hs) as [? ?]; lia.
    - destruct Hst as (_ & _ & _ & _ & -> & ->). pose proof (script_gens sc Hsc s (script_in g s Hs)) as Hg.
      destruct Hs as [_ Eg]. rewrite Eg in Hg. lia. }
  unfold gop_state. cbn. split_and!.
  - intros p id Hin. specialize (Hq p id Hin). lia.
  - intros r id [Hin|Hin]%elem_of_app; unfold gop_state in Hst; destruct (gop d) as [g'|]; cbn in Hnew.
    + destruct Hst as (_ & Hcan & _). specialize (Hcan r id Hin). lia.
    + destruct Hst as (_ & Hcan & _). rewrite Hcan in Hin. set_solver.
    + destruct Hst as (_ & _ & _ & ? & ? & ? & ? & _ & _ & _ & Ht & _).
      destruct (read_packets_task d) as [[r' id']|]; cbn in Hin; [|set_solver].
      apply list_elem_of_singleton in Hin as [= -> ->]. destruct (Ht _ _ eq_refl) as [_ ->]. lia.
    + destruct Hst as (Ht & _). rewrite Ht in Hin. set_solver.
  - intros o Ho. specialize (Hold o Ho). lia.
  - exists s, r0, [], r0. cbn. rewrite (queued_nil (g_id g)), (of_gop_nil (g_id g)) by done.
    split_and!; [done|done|constructor|naive_solver|done|done|lia|lia|lia].
Qed.

Lemma frames_script s : s ∈ sc → frames (script_packets s) = Media <$> gs_frames s.
Proof.
  intros Hs. unfold script_packets, frames. rewrite filter_cons_False by (by intros []).
  rewrite filter_cons_False by (cbn; rewrite (script_config sc Hsc s Hs); by intros []).
  assert (Forall (λ p, is_config (header p) = false) (gs_frames s)) as Hf
    by (apply Forall_forall; intros p; by apply (script_frames sc Hsc)).
  induction Hf as [|p l Hp _ IH]; [done|]. cbn [fmap list_fmap].
  rewrite filter_cons_True by (cbn; by rewrite Hp). by f_equal.
Qed.

Lemma frames_prefix l k : l `prefix_of` k → frames l `prefix_of` frames k.
Proof. intros [t ->]. rewrite frames_app. by apply prefix_app_r. Qed.

Lemma current_frames outs d g s :
  gop d = Some g → script g s → gop_state outs d → frames (of_gop (g_id g) outs) `prefix_of` (Media <$> gs_frames s).
Proof.
  intros Hg Hs. unfold gop_state. rewrite Hg. intros (_ & _ & _ & s' & r0 & handled & r1 & Hs' & Hr & Hreads & _ & Hf & _).
  assert (s' = s) as -> by (destruct Hs as [E _], Hs' as [E' _]; congruence).
  rewrite Hf, <- frames_script by (by eapply script_in). apply frames_prefix.
  etrans; [|by eapply Hr]. by apply prefix_app_r.
Qed.

(** One more packet delivered *)
Lemma delivered_snoc outs d d' g p s :
  delivered outs d → gop d' = Some g → gop_state (outs ++ [(g, p)]) d' → script g s → p ∈ script_packets s →
  watch (last_codec_gen d, last_config_gen d) (g, p) = Some (last_codec_gen d', last_config_gen d') →
  delivered (outs ++ [(g, p)]) d'.
Proof.
  intros [Hw Ho Hor Hfr] Hg Hst Hs Hp Hwatch. split.
  - by rewrite watch_all_snoc, Hw.
  - rewrite fmap_app. apply StronglySorted_app_2; [|done|by repeat constructor].
    intros x y Hx%list_elem_of_fmap Hy%list_elem_of_singleton. destruct Hx as (o & -> & Hin). subst y.
    unfold gop_state in Hst. rewrite Hg in Hst. apply Hst. set_solver.
  - intros o [?| ->%list_elem_of_singleton]%elem_of_app; [auto|eauto].
  - intros i s' Hs'. destruct (decide (Z.of_nat i = g_id g)) as [E|E].
    + rewrite E. apply (current_frames _ d'); [done| |done]. pose proof (proj1 Hs) as Hs1. rewrite <- E, Nat2Z.id in Hs1.
      assert (s' = s) as -> by congruence. done.
    + rewrite of_gop_app, frames_app. unfold of_gop at 2. cbn. destruct (Z.eqb_spec (g_id g) (Z.of_nat i)); [lia|].
      rewrite app_nil_r. auto.
Qed.

(** The packet at the head of the queue is the next one of the script. *)
Lemma handled_next s handled p q :
  handled ++ p :: q `prefix_of` script_packets s → script_packets s !! length handled = Some p.
Proof. intros [t ->]. rewrite <- app_assoc, lookup_app_r, Nat.sub_diag by lia. done. Qed.

(** Handling the [n]-th packet of the stream leaves one more packet handled. *)
Lemma gop_state_handled outs d g q p :
  gop d = Some g → rx d = NewPacket p (g_id g) :: q → gop_state outs d →
  ∃ s n, script g s ∧ script_packets s !! n = Some p ∧
    (n ≠ O → last_codec_gen d = g_codec_gen g) ∧ (2 ≤ n → last_config_gen d = g_config_gen g)%nat ∧
    last_codec_gen d ≤ g_codec_gen g ∧ last_config_gen d ≤ g_config_gen g ∧
    ∀ out f, out = [] ∧ frames [p] = [] ∨ out = [(g, p)] → f ≤ g_config_gen g → (n ≠ O → f = g_config_gen g) →
      gop_state (outs ++ out) (set_gens (g_codec_gen g) f (set_rx q d)).
Proof.
  intros Hg Hrx Hst. unfold gop_state in *. cbn. rewrite Hg in *.
  destruct Hst as (H1 & H2 & H3 & s & r0 & handled & r1 & Hs & Hr & Hreads & Ht & Hfr & Hc & Hcf & Hle & Hle').
  rewrite Hrx in H1, Hreads. unfold queued in Hreads. cbn in Hreads. rewrite Z.eqb_refl in Hreads.
  exists s, (length handled). split_and!; [done|by eapply handled_next, Hr| |done|done|done|].
  { intros Hn. apply Hc. by intros ->. }
  intros out f Hout Hf Hf'. split_and!.
  - intros p' id Hin. apply (H1 p'). by right.
  - done.
  - intros o [?|Ho]%elem_of_app; [auto|]. destruct Hout as [[-> _]| ->]; [set_solver|].
    apply list_elem_of_singleton in Ho as ->. cbn. lia.
  - exists s, r0, (handled ++ [p]), r1. cbn. rewrite length_app.
    split_and!; [done|done|by rewrite <- app_assoc|done| |done|cbn; intros; apply Hf'; lia|lia|lia].
    rewrite of_gop_app, !frames_app, Hfr. f_equal. destruct Hout as [[-> ->]| ->]; [done|].
    unfold of_gop. cbn. by rewrite Z.eqb_refl.
Qed.

Lemma set_gens_same d : set_gens (last_codec_gen d) (last_config_gen d) d = d.
Proof. by destruct d. Qed.

Lemma script_lookup_cases g s n p :
  script g s → script_packets s !! n = Some p →
  n = O ∧ (∃ c, p = Codec c) ∨ n = 1%nat ∧ (∃ m, p = Media m ∧ is_config (header m) = true) ∨
  (2 ≤ n)%nat ∧ (∃ m, p = Media m ∧ is_config (header m) = false).
Proof.
  intros Hs Hl. destruct n as [|[|n]]; cbn in Hl.
  - left. naive_solver.
  - right; left. split; [done|]. injection Hl as <-. eexists. split; [done|]. apply (script_config sc Hsc). by eapply script_in.
  - right; right. split; [lia|]. apply list_lookup_fmap_Some in Hl as (m & -> & Hm). exists m. split; [done|].
    apply (script_frames sc Hsc s); [by eapply script_in|by eapply list_elem_of_lookup_2].
Qed.

(** [recv] on a packet of the current stream: silent or not, the run keeps
    matching the script. *)
Lemma tracks_packet outs d g q p :
  gop d = Some g → rx d = NewPacket p (g_id g) :: q → gop_state outs d → delivered outs d →
  ∃ d' o, handle_msg (NewPacket p (g_id g)) (set_rx q d) = (d', Ok (snd <$> o)) ∧ (o = None ∨ o = Some (g, p)) ∧
    gop d' = Some g ∧ rx d' = q ∧ ids_tasks d' = ids_tasks d ∧
    gop_state (outs ++ option_list o) d' ∧ delivered (outs ++ option_list o) d'.
Proof.
  intros Hg Hrx Hst Hdl. destruct (gop_state_handled outs d g q p Hg Hrx Hst) as (s & n & Hs & Hn & Hc & Hf & Hlc & Hlf & Hk).
  assert (p ∈ script_packets s) as Hin by (by eapply list_elem_of_lookup_2).
  assert (∀ c f, (c, f) = (last_codec_gen d, last_config_gen d) → set_gens c f (set_rx q d) = set_rx q d) as Hsame
    by (intros c f [= -> ->]; by destruct d).
  assert (∀ d', gop d' = Some g → last_codec_gen d' = last_codec_gen d → last_config_gen d' = last_config_gen d → delivered outs d')
    as Hquiet by (intros d' _ E1 E2; destruct Hdl; split; [by rewrite E1, E2|done..]).
  unfold handle_msg; run_handler. cbn [gop set_rx]. rewrite Hg. cbn [expect].
  rewrite Z.eqb_refl.
  destruct (script_lookup_cases g s n p Hs Hn) as [(-> & c & ->)|[(-> & m & -> & Hm)|(Hn2 & m & -> & Hm)]]; cbn.
  - destruct (Z.eqb_spec (g_codec_gen g) (last_codec_gen d)) as [E|E].
    + exists (set_rx q d), None. cbn. rewrite app_nil_r. split_and!; [reflexivity|by left|done|done|done| |by apply Hquiet].
      specialize (Hk [] (last_config_gen d)). rewrite app_nil_r, Hsame in Hk by congruence. apply Hk; [by left|lia|congruence].
    + exists (set_gens (g_codec_gen g) (last_config_gen d) (set_rx q d)), (Some (g, Codec c)). cbn.
      assert (gop_state (outs ++ [(g, Codec c)]) (set_gens (g_codec_gen g) (last_config_gen d) (set_rx q d))) as Hst'
        by (apply Hk; [by right|lia|congruence]).
      split_and!; [reflexivity|by right|done|done|done|done|]. eapply delivered_snoc; [done..|]. cbn. destruct (Z.ltb_spec (last_codec_gen d) (g_codec_gen g)); [done|lia].
  - rewrite Hm. cbn. specialize (Hc ltac:(done)). destruct (Z.eqb_spec (g_config_gen g) (last_config_gen d)) as [E|E].
    + exists (set_rx q d), None. cbn. rewrite app_nil_r. split_and!; [reflexivity|by left|done|done|done| |by apply Hquiet].
      specialize (Hk [] (last_config_gen d)). rewrite app_nil_r, Hsame in Hk by congruence. apply Hk; [left|lia|congruence].
      split; [done|]. unfold frames. rewrite filter_cons_False; [done|]. cbn. rewrite Hm. by intros [].
    + exists (set_gens (last_codec_gen d) (g_config_gen g) (set_rx q d)), (Some (g, Media m)). cbn.
      assert (gop_state (outs ++ [(g, Media m)]) (set_gens (last_codec_gen d) (g_config_gen g) (set_rx q d))) as Hst'
        by (rewrite Hc; apply Hk; [by right|lia|done]).
      split_and!; [reflexivity|by right|done|done|done|done|]. eapply delivered_snoc; [done..|]. cbn. rewrite Hm.
      destruct (Z.ltb_spec (last_config_gen d) (g_config_gen g)); [done|lia].
  - rewrite Hm. cbn. specialize (Hc ltac:(lia)). specialize (Hf Hn2).
    exists (set_rx q d), (Some (g, Media m)). cbn.
    assert (gop_state (outs ++ [(g, Media m)]) (set_rx q d)) as Hst'.
    { rewrite <- (Hsame (g_codec_gen g) (g_config_gen g)) by congruence. apply Hk; [by right|lia|done]. }
    split_and!; [reflexivity|by right|done|done|done|done|]. eapply delivered_snoc; [done..|]. cbn. rewrite Hm, Hc, Hf, !Z.eqb_refl. done.
Qed.

Lemma delivered_quiet outs d d' :
  last_codec_gen d' = last_codec_gen d → last_config_gen d' = last_config_gen d → delivered outs d → delivered outs d'.
Proof. intros E1 E2 []. split; [by rewrite E1, E2|done..]. Qed.

(** Any message at the head of the queue is handled without error. *)
Lemma tracks_msg outs d m q :
  rx d = m :: q → tracks outs d →
  ∃ d' o, handle_msg m (set_rx q d) = (d', Ok (snd <$> o)) ∧ (∀ x, o = Some x → gop d' = Some x.1) ∧
    tracks (outs ++ option_list o) d'.
Proof.
  intros Hrx (Hok & Hst & Hdl). pose proof (streams_ok_pop _ _ _ Hrx Hok) as Hok'. destruct m as [r|r g|p id].
  - exists (set_ids_tasks (ids_tasks d ++ [r]) (set_rx q d)), None. cbn. rewrite app_nil_r. split_and!; [done..|].
    split_and!; [|by apply (gop_state_drop outs (NewStream r) q d)|by apply (delivered_quiet _ d)].
    destruct Hok' as (H1 & H2 & H3). split_and!; [done| |done]. cbn.
    intros r' [?| ->%list_elem_of_singleton]%elem_of_app; [by apply H2|]. apply (proj1 Hok). rewrite Hrx. left.
  - assert (gop_state outs (set_rx q d)) as Hst' by (by apply (gop_state_drop outs (StreamIds r g) q d)).
    cbn [handle_msg]. run_handler. cbn [gop set_rx].
    destruct (is_newer g (gop d)) eqn:Hnew.
    + exists (switch_reader (r, g_id g) (set_gop g (set_rx q d))), None. cbn [option_list]. rewrite app_nil_r.
      split_and!; [done|done|]. split_and!; [done| |by apply (delivered_quiet _ d)].
      apply gop_state_adopt; [|done|done]. apply (proj2 (proj2 Hok)). rewrite Hrx. left.
    + exists (set_rx q d), None. cbn [option_list]. rewrite app_nil_r. split_and!; [done|done|].
      split_and!; [done|done|by apply (delivered_quiet _ d)].
  - destruct (gop d) as [g|] eqn:Hg; cycle 1.
    { unfold gop_state in Hst. rewrite Hg in Hst. destruct Hst as (_ & _ & Hno & _). destruct (Hno p id). rewrite Hrx. left. }
    destruct (decide (id = g_id g)) as [->|Hne].
    + destruct (tracks_packet outs d g q p Hg Hrx Hst Hdl) as (d' & o & Hh & Ho & Hg' & Hrx' & Hids & Hst' & Hdl').
      exists d', o. split_and!; [done|by destruct Ho as [->| ->]; naive_solver|]. split_and!; [|done|done].
      unfold streams_ok in *. by rewrite Hrx', Hids.
    + exists (set_rx q d), None. cbn. run_handler. cbn. rewrite Hg. cbn.
      destruct (Z.eqb_spec id (g_id g)); [done|]. rewrite app_nil_r. split_and!; [done|done|].
      split_and!; [done| |by apply (delivered_quiet _ d)].
      apply (gop_state_drop outs (NewPacket p id) q d); [done| |done]. intros p' id' [= <- <-] g'. rewrite Hg. by intros [= <-].
Qed.

Lemma streams_ok_tasks d l1 r l2 : ids_tasks d = l1 ++ r :: l2 → streams_ok d → streams_ok (set_ids_tasks (l1 ++ l2) d) ∧ A r.
Proof.
  intros Hids (H1 & H2 & H3). rewrite Hids in H2. split; [split_and!; [done| |done]|]; cbn; intros; apply H2; set_solver.
Qed.

Lemma tracks_step outs d o d' : tracks outs d → gop_step A d o d' → tracks (outs ++ option_list o) d'.
Proof.
  intros Ht Hstep. destruct Hstep as
    [d r HAr|d l1 r l2 g r' Hids Hr|d l1 r l2 e Hids Hr|d r id p r' Htask Hr|d r id Htask Hr
    |d l1 r id l2 p r' Hc Hr|d l1 t l2 Hc|d m q d' Hrx Hm|d m q d' g p Hrx Hm Hg]; cbn [option_list]; rewrite ?app_nil_r;
    try (destruct (tracks_msg outs d m q Hrx Ht) as (d1 & o & Hh & Ho & Ht'); rewrite Hm in Hh;
         injection Hh as <- Ho'; destruct o as [[g1 p1]|]; cbn in Ho', Ht'; try discriminate Ho').
  - destruct Ht as (Hok & Hst & Hdl).
    split_and!; [by apply streams_ok_push|by apply gop_state_push|by apply (delivered_quiet _ d)].
  - destruct Ht as (Hok & Hst & Hdl). destruct (streams_ok_tasks _ _ _ _ Hids Hok) as [Hok' HAr].
    split_and!; [apply streams_ok_push; [by eapply HA|done]|by apply gop_state_push|by apply (delivered_quiet _ d)].
  - destruct Ht as (Hok & Hst & Hdl). destruct (streams_ok_tasks _ _ _ _ Hids Hok) as [Hok' _].
    split_and!; [done|done|by apply (delivered_quiet _ d)].
  - destruct Ht as (Hok & Hst & Hdl).
    split_and!; [by apply streams_ok_push|by eapply gop_state_packet|by apply (delivered_quiet _ d)].
  - destruct Ht as (Hok & Hst & Hdl).
    split_and!; [done|by apply gop_state_stream_end|by apply (delivered_quiet _ d)].
  - destruct Ht as (Hok & Hst & Hdl).
    split_and!; [by apply streams_ok_push|by eapply gop_state_cancelled_packet|by apply (delivered_quiet _ d)].
  - destruct Ht as (Hok & Hst & Hdl).
    split_and!; [done|by eapply gop_state_cancelled_stop|by apply (delivered_quiet _ d)].
  - by rewrite app_nil_r in Ht'.
  - injection Ho' as <-. specialize (Ho _ eq_refl). cbn in Ho. rewrite Hg in Ho. by injection Ho as ->.
Qed.

Lemma tracks_start : tracks [] recv_start.
Proof.
  split_and!; [split_and!; cbn; set_solver|split_and!; cbn; set_solver|].
  split; [done|constructor|set_solver|]. intros i s _. apply prefix_nil.
Qed.

Lemma tracks_run outs d : gop_runs A outs d → tracks outs d.
Proof. induction 1 as [|outs d o d' _ IH Hstep]; [apply tracks_start|by eapply tracks_step]. Qed.
End Receiver.

(** ** Schedules: executable runs of the receiver *)
Inductive Action :=
| Accept (r : Reader)   (* the peer's next stream *)
| Ids                   (* the oldest [read_stream_ids] completes *)
| Packet                (* the current reader queues a packet *)
| Recv.                 (* [recv] handles a message *)

Definition act (a : Action) (d : RecvDriver) : option (option (Gop * AVPacket) * RecvDriver) :=
  match a with
  | Accept r => Some (None, push (NewStream r) d)
  | Ids =>
      match ids_tasks d with
      | r :: l => match read_stream_ids r with Ok (g, r') => Some (None, push (StreamIds r' g) (set_ids_tasks l d)) | _ => None end
      | [] => None
      end
  | Packet =>
      match read_packets_task d with
      | Some (r, id) =>
          match av_read r with
          | Ok (Some p, r') => Some (None, push (NewPacket p id) (set_task (Some (r', id)) d))
          | _ => None
          end
      | None => None
      end
  | Recv =>
      match rx d with
      | m :: q =>
          match handle_msg m (set_rx q d) with
          | (d', Ok None) => Some (None, d')
          | (d', Ok (Some p)) => g ← gop d'; Some (Some (g, p), d')
          | _ => None
          end
      | [] => None
      end
  end.

Fixpoint schedule (acts : list Action) (outs : list (Gop * AVPacket)) (d : RecvDriver) : option (list (Gop * AVPacket) * RecvDriver) :=
  match acts with
  | [] => Some (outs, d)
  | a :: acts => '(o, d) ← act a d; schedule acts (outs ++ option_list o) d
  end.

Lemma act_step A a d o d' :
  (∀ r, a = Accept r → A r) → act a d = Some (o, d') → gop_step A d o d'.
Proof.
  intros HA Ha. destruct a as [r| | |]; cbn in Ha.
  - injection Ha as <- <-. apply step_accept. by apply HA.
  - destruct (ids_tasks d) as [|r l] eqn:E; [done|]. destruct (read_stream_ids r) as [[g r']|e|] eqn:Er; [|done..].
    injection Ha as <- <-. by apply (step_ids _ _ [] r l).
  - destruct (read_packets_task d) as [[r id]|] eqn:E; [|done]. destruct (av_read r) as [[[p|] r']|e|] eqn:Er; [|done..].
    injection Ha as <- <-. by eapply step_packet.
  - destruct (rx d) as [|m q] eqn:E; [done|]. destruct (handle_msg m (set_rx q d)) as [d1 [[p|]|e|]] eqn:Eh; [| |done..].
    + destruct (gop d1) as [g|] eqn:Eg; [|done]. injection Ha as <- <-. by eapply step_recv_output.
    + injection Ha as <- <-. by eapply step_recv_silent.
Qed.

Lemma schedule_runs A acts outs d outs' d' :
  (∀ r, Accept r ∈ acts → A r) → gop_runs A outs d → schedule acts outs d = Some (outs', d') → gop_runs A outs' d'.
Proof.
  revert outs d. induction acts as [|a acts IH]; intros outs d HA Hr; cbn; [by intros [= <- <-]|].
  intros ([o d1] & Ha & Hs)%bind_Some. apply (IH (outs ++ option_list o) d1); [|by eapply runs_step, act_step; [|set_solver|]|done].
  intros r Hin. apply HA. by right.
Qed.

(** ** An arbitrary peer *)

Section AnyPeer.
Context (A : Reader → Prop).

(** Before the first stream is adopted, nothing reads packets. *)
Definition quiet (d : RecvDriver) : Prop :=
  gop d = None → read_packets_task d = None ∧ cancelled d = [] ∧ ∀ p id, NewPacket p id ∉ rx d.

Lemma handle_msg_gop m q d d' r :
  handle_msg m (set_rx q d) = (d', r) →
  rx d' = q ∧ (gop d' = None → read_packets_task d' = read_packets_task d ∧ cancelled d' = cancelled d ∧ gop d = None).
Proof.
  destruct m as [s|s g|p id]; cbn [handle_msg]; run_handler; cbn.
  - intros [= <- _]. done.
  - destruct (is_newer g (gop d)); intros [= <- _]; done.
  - destruct (gop d) as [g|] eqn:Hg; cbn; [|intros [= <- _]; cbn; by rewrite Hg].
    destruct (id =? g_id g); [destruct p as [c|m|h]; [|destruct (is_config (header m))|]|]; cbn; repeat case_match;
      intros [= <- _]; cbn; rewrite Hg; done.
Qed.

Lemma quiet_msg m q d d' r : rx d = m :: q → quiet d → handle_msg m (set_rx q d) = (d', r) → quiet d'.
Proof.
  intros Hrx Hq [Hrx' Hg]%handle_msg_gop Hd'. destruct (Hg Hd') as (-> & -> & Hgd). destruct (Hq Hgd) as (? & ? & Hno).
  split_and!; [done|done|]. intros p id Hin. apply (Hno p id). rewrite Hrx, <- Hrx'. by right.
Qed.

Lemma quiet_step d o d' : quiet d → gop_step A d o d' → quiet d'.
Proof.
  intros Hq Hstep. destruct Hstep; try (by eapply quiet_msg; [done|done|eassumption]); intros Hg; destruct (Hq Hg) as (Ht & Hc & Hno); cbn;
    try congruence; split_and!; try done.
  - intros p id [?|?%list_elem_of_singleton]%elem_of_app; [by eapply Hno|done].
  - intros p id [?|?%list_elem_of_singleton]%elem_of_app; [by eapply Hno|done].
  - rewrite Hc in *. by destruct l1.
  - rewrite Hc in *. by destruct l1.
  - rewrite Hc in *. by destruct l1.
Qed.

Lemma quiet_run outs d : gop_runs A outs d → quiet d.
Proof. induction 1 as [|outs d o d' _ IH Hstep]; [intros _; split_and!; cbn; set_solver|by eapply quiet_step]. Qed.
End AnyPeer.

(** Whatever a peer writes on its streams, the receiver panics on a message
    exactly when it is a hole packet read from the current stream; the group of
    pictures a packet belongs to is always known when it is handled. *)
Theorem gop_receiver_panics_iff_hole A outs d m q :
  gop_runs A outs d → rx d = m :: q →
  (handle_msg m (set_rx q d)).2 = Panic ↔ ∃ h g, gop d = Some g ∧ m = NewPacket (Hole h) (g_id g).
Proof.
  intros Hq%quiet_run Hrx. destruct m as [s|s g|p id]; cbn [handle_msg];
    run_handler; cbn.
  - split; [done|naive_solver].
  - split; [by case_match|naive_solver].
  - destruct (gop d) as [g|] eqn:Hg; cbn.
    + destruct (Z.eqb_spec id (g_id g)) as [->|Hne]; [|split; [done|naive_solver]].
      destruct p as [c|p|h]; [|destruct (is_config (header p))|]; cbn; repeat case_match; naive_solver.
    + destruct (Hq Hg) as (_ & _ & Hno). destruct (Hno p id). rewrite Hrx. left.
Qed.

(** A peer that sends a hole packet on its first stream *)
Definition hole_reader : Reader := {| rd_chunks := [replicate 12 0; hole_image {| missing_audio_samples := 5 |}]; rd_fail := None |}.

Definition hole_end : RecvDriver :=
  default recv_start (snd <$> schedule [Accept hole_reader; Recv; Ids; Recv; Packet] [] recv_start).

Lemma gop_receiver_panics_iff_hole_witness :
  (handle_msg (NewPacket (Hole {| hole_header := {| missing_audio_samples := 5 |} |}) 0) (set_rx [] hole_end)).2 = Panic.
Proof.
  apply (gop_receiver_panics_iff_hole (λ _, True) [] hole_end).
  - apply (schedule_runs _ [Accept hole_reader; Recv; Ids; Recv; Packet] [] recv_start); [done|constructor|vm_compute; reflexivity].
  - vm_compute. reflexivity.
  - exists {| hole_header := {| missing_audio_samples := 5 |} |}, {| g_id := 0; g_codec_gen := 0; g_config_gen := 0 |}.
    split; [vm_compute; reflexivity|done].
Defined.
