(* ===== verification/GopTransfer.v ===== *)
(** * Group-of-pictures streams from sender to receiver

    The session a list of packets stands for, the streams [send] writes for it,
    and the end-to-end behaviour of the driver of [GopStream]. *)

From stdpp Require Import prelude list strings sorting.
From Stdlib Require Import ZArith Lia.
From S2P Require Import Prelude SortedVec Io Av Packets Channel GopStream GopOrder.
Open Scope Z_scope.

(** ** Sessions *)

Record Session := {
  ss_codec : option CodecPacket;
  ss_codec_gen : Z;
  ss_config : option MediaPacket;
  ss_config_gen : Z;
  ss_done : list GopScript;
  ss_current : option GopScript;
}.

Definition session_start : Session :=
  {| ss_codec := None; ss_codec_gen := 0; ss_config := None; ss_config_gen := 0; ss_done := []; ss_current := None |}.

Definition gops (ss : Session) : list GopScript := ss_done ss ++ option_list (ss_current ss).

Definition add_frame (p : MediaPacket) (s : GopScript) : GopScript :=
  {| gs_gop := gs_gop s; gs_codec := gs_codec s; gs_config := gs_config s; gs_frames := gs_frames s ++ [p] |}.

(** A codec or a config is kept for the next group, a keyframe starts a group
    (it needs both), any other frame joins the current group. *)
Definition session_step (ss : Session) (packet : AVPacket) : option Session :=
  match packet with
  | Codec c => Some {| ss_codec := Some c; ss_codec_gen := ss_codec_gen ss + 1; ss_config := ss_config ss;
                       ss_config_gen := ss_config_gen ss; ss_done := ss_done ss; ss_current := ss_current ss |}
  | Media p =>
      if is_config (header p) then
        Some {| ss_codec := ss_codec ss; ss_codec_gen := ss_codec_gen ss; ss_config := Some p;
                ss_config_gen := ss_config_gen ss + 1; ss_done := ss_done ss; ss_current := ss_current ss |}
      else if is_key (header p) then
        c ← ss_codec ss; f ← ss_config ss;
        Some {| ss_codec := ss_codec ss; ss_codec_gen := ss_codec_gen ss; ss_config := ss_config ss;
                ss_config_gen := ss_config_gen ss; ss_done := gops ss;
                ss_current := Some {| gs_gop := {| g_id := Z.of_nat (length (gops ss)); g_codec_gen := ss_codec_gen ss;
                                                   g_config_gen := ss_config_gen ss |};
                                      gs_codec := c; gs_config := f; gs_frames := [p] |} |}
      else Some {| ss_codec := ss_codec ss; ss_codec_gen := ss_codec_gen ss; ss_config := ss_config ss;
                   ss_config_gen := ss_config_gen ss; ss_done := ss_done ss; ss_current := add_frame p <$> ss_current ss |}
  | Hole _ => None
  end.

Fixpoint session_run (ss : Session) (ps : list AVPacket) : option Session :=
  match ps with [] => Some ss | p :: ps => ss ← session_step ss p; session_run ss ps end.

(** ** Well-formedness of sessions *)

Record wf_session (ss : Session) : Prop := {
  ws_script : wf_script (gops ss);
  ws_gens s : s ∈ gops ss →
    g_codec_gen (gs_gop s) ≤ ss_codec_gen ss ∧ g_config_gen (gs_gop s) ≤ ss_config_gen ss ∧ Forall wf_av (script_packets s);
  ws_nonneg : 0 ≤ ss_codec_gen ss ∧ 0 ≤ ss_config_gen ss;
  ws_codec c : ss_codec ss = Some c → 0 < ss_codec_gen ss ∧ wf_av (Codec c);
  ws_config f : ss_config ss = Some f → 0 < ss_config_gen ss ∧ is_config (header f) = true ∧ wf_av (Media f);
}.

(** Adding a group or a frame to a script *)
Lemma wf_script_snoc sc s :
  wf_script sc → g_id (gs_gop s) = Z.of_nat (length sc) → is_config (header (gs_config s)) = true →
  (∀ p, p ∈ gs_frames s → is_config (header p) = false) → 0 < g_codec_gen (gs_gop s) ∧ 0 < g_config_gen (gs_gop s) →
  (∀ t, t ∈ sc → g_codec_gen (gs_gop t) ≤ g_codec_gen (gs_gop s) ∧ g_config_gen (gs_gop t) ≤ g_config_gen (gs_gop s)) →
  wf_script (sc ++ [s]).
Proof.
  intros [W1 W2 W3 W4 W5] Hid Hcfg Hfr Hgen Hmax. split.
  - intros i t [[_ Hl]|[-> <-]]%lookup_snoc_Some; [|done]. by apply W1.
  - intros t [?| ->%list_elem_of_singleton]%elem_of_app; auto.
  - intros t p [?| ->%list_elem_of_singleton]%elem_of_app; eauto.
  - intros t [?| ->%list_elem_of_singleton]%elem_of_app; auto.
  - intros i j t u [[? Hi]|[-> <-]]%lookup_snoc_Some [[? Hj]|[-> <-]]%lookup_snoc_Some Hij; [by eapply W5| |lia|lia].
    apply Hmax. by eapply list_elem_of_lookup_2.
Qed.

Lemma wf_script_init sc s : wf_script (sc ++ [s]) → wf_script sc.
Proof.
  intros [W1 W2 W3 W4 W5]. split.
  - intros i t Hl. apply W1. by apply lookup_app_l_Some.
  - intros t Ht. apply W2. set_solver.
  - intros t p Ht. apply W3. set_solver.
  - intros t Ht. apply W4. set_solver.
  - intros i j t u Hi Hj. apply W5; by apply lookup_app_l_Some.
Qed.

Lemma wf_script_add_frame sc s p :
  wf_script (sc ++ [s]) → is_config (header p) = false → wf_script (sc ++ [add_frame p s]).
Proof.
  intros Hw Hp. pose proof (wf_script_init _ _ Hw) as Hinit. destruct Hw as [W1 W2 W3 W4 W5].
  assert ((sc ++ [s]) !! length sc = Some s) as Hlast by (by rewrite lookup_app_r, Nat.sub_diag by lia).
  assert (s ∈ sc ++ [s]) as Hin by set_solver.
  apply wf_script_snoc; [done|by apply (W1 _ s)|by apply (W2 s)| |by apply (W4 s)|].
  - cbn. intros p' [?| ->%list_elem_of_singleton]%elem_of_app; eauto.
  - intros t [i Hi]%list_elem_of_lookup_1. cbn. apply (W5 i (length sc)); [by apply lookup_app_l_Some|done|].
    apply lookup_lt_Some in Hi. lia.
Qed.

Lemma script_packets_add_frame p s : script_packets (add_frame p s) = script_packets s ++ [Media p].
Proof. unfold script_packets. cbn. by rewrite fmap_app. Qed.

Lemma session_step_wf ss p ss' : wf_av p → wf_session ss → session_step ss p = Some ss' → wf_session ss'.
Proof.
  intros Hp [W1 W2 W3 W4 W5] Hs. destruct p as [c|p|h]; cbn in Hs; [| |done].
  - injection Hs as <-. split; cbn -[wf_av]; [done| |lia| |done].
    + intros s Hin. destruct (W2 s Hin) as (? & ? & ?). split_and!; [lia|done|done].
    + intros c' [= <-]. split; [lia|done].
  - destruct (is_config (header p)) eqn:Hc; [|destruct (is_key (header p))].
    + injection Hs as <-. split; cbn -[wf_av]; [done| |lia|done|].
      * intros s Hin. destruct (W2 s Hin) as (? & ? & ?). split_and!; [done|lia|done].
      * intros f [= <-]. split_and!; [lia|done..].
    + apply bind_Some in Hs as (c & Ec & (f & Ef & [= <-])%bind_Some).
      destruct (W4 c Ec) as [Hgc Hwc]. destruct (W5 f Ef) as (Hgf & Hcf & Hwf).
      split; cbn -[wf_av]; [| |lia|rewrite Ec; naive_solver|rewrite Ef; naive_solver].
      * apply wf_script_snoc; cbn; [done|done|done|by intros p' ->%list_elem_of_singleton|done|].
        intros t Ht. by destruct (W2 t Ht) as (? & ? & _).
      * intros s [Hin| ->%list_elem_of_singleton]%elem_of_app; [auto|]. cbn -[wf_av]. split_and!; [done|done|].
        unfold script_packets. cbn -[wf_av]. rewrite !Forall_cons, Forall_nil. done.
    + injection Hs as <-. destruct (ss_current ss) as [s|] eqn:E; unfold gops in *; rewrite ?E in *; cbn in *.
      * split; cbn; [by apply wf_script_add_frame| |done|done|done].
        intros t [Hin| ->%list_elem_of_singleton]%elem_of_app; [apply W2; set_solver|]. cbn.
        destruct (W2 s ltac:(set_solver)) as (? & ? & Hall). split_and!; [done|done|]. rewrite script_packets_add_frame.
        apply Forall_app. rewrite Forall_singleton. done.
      * by split.
Qed.

(** ** The sender *)

Definition packets_image (ps : list AVPacket) : bytes := concat (av_image <$> ps).

Definition gop_image (g : Gop) : bytes := be_bytes 4 (g_id g) ++ be_bytes 4 (g_codec_gen g) ++ be_bytes 4 (g_config_gen g).

(** The bytes of the stream of a group *)
Definition script_bytes (s : GopScript) : bytes := gop_image (gs_gop s) ++ packets_image (script_packets s).

Definition script_writer (s : GopScript) : Writer := open_writer (script_bytes s).

(** The sender that has written a session, with [n] streams left to open *)
Definition sender_of (ss : Session) (n : nat) : SendDriver :=
  {| openings := replicate n (Some (open_writer []));
     current_stream := script_writer <$> ss_current ss;
     finished := script_writer <$> ss_done ss;
     gop_id := Z.of_nat (length (gops ss));
     codec_gen := ss_codec_gen ss; codec_packet := ss_codec ss;
     config_gen := ss_config_gen ss; config_packet := ss_config ss |}.

Definition counters (ss : Session) : Z := ss_codec_gen ss + ss_config_gen ss + Z.of_nat (length (gops ss)).

Lemma packets_image_app l k : packets_image (l ++ k) = packets_image l ++ packets_image k.
Proof. unfold packets_image. by rewrite fmap_app, concat_app. Qed.

Lemma script_bytes_add_frame p s : script_bytes (add_frame p s) = script_bytes s ++ av_image (Media p).
Proof.
  unfold script_bytes. rewrite script_packets_add_frame, packets_image_app. cbn [add_frame gs_gop].
  rewrite <- app_assoc. do 2 f_equal. unfold packets_image. cbn [fmap list_fmap concat]. by rewrite app_nil_r.
Qed.

Lemma write_frame_ok p w sd :
  wf_av (Media p) → current_stream sd = Some (open_writer w) →
  write_frame p sd = (set_current (open_writer (w ++ av_image (Media p))) sd, Ok tt).
Proof.
  intros [Hwf _] Hcur. unfold write_frame. rewrite Hcur, (media_serialize_eq _ Hwf).
  unfold mbind, writing_bind, lift_io. rewrite !write_all_open.
  cbn [av_image flush w_budget open_writer map_err]. by rewrite <- !app_assoc.
Qed.

Lemma start_gop_ok ss n c f :
  wf_av (Codec c) → wf_av (Media f) → ss_codec ss = Some c → ss_config ss = Some f → Z.of_nat (length (gops ss)) + 1 < 2 ^ 32 →
  start_gop (sender_of ss (S n)) =
    (replace_stream (open_writer (gop_image {| g_id := Z.of_nat (length (gops ss)); g_codec_gen := ss_codec_gen ss;
                                               g_config_gen := ss_config_gen ss |} ++ packets_image [Codec c; Media f]))
       (next_gop (sender_of ss n)), Ok tt).
Proof.
  intros Hc [Hf _] Ec Ef Hn. unfold start_gop.
  rewrite (handler_bind_eq open_uni _ (sender_of ss (S n)) (sender_of ss n) (open_writer [])) by done.
  unfold on_new_stream; run_handler.
  change (codec_packet (next_gop (sender_of ss n))) with (ss_codec ss).
  change (config_packet (next_gop (sender_of ss n))) with (ss_config ss). rewrite Ec, Ef. cbn [expect].
  rewrite codec_serialize_eq, (media_serialize_eq _ Hf). unfold mbind, writing_bind. rewrite write_all_open.
  cbn [flush w_budget open_writer]. unfold ids_bytes, gop_image, packets_image.
  cbn [fmap list_fmap concat av_image g_id g_codec_gen g_config_gen gop_id codec_gen config_gen sender_of app].
  by rewrite app_nil_r, <- !app_assoc.
Qed.

Lemma sender_step ss p ss' n :
  wf_av p → wf_session ss → counters ss + 1 < 2 ^ 32 → session_step ss p = Some ss' →
  ∃ n', (n ≤ n')%nat ∧ send p (sender_of ss (S n)) = (sender_of ss' n', Ok tt) ∧ counters ss' ≤ counters ss + 1.
Proof.
  intros Hp [W1 W2 W3 W4 W5] Hb Hs. unfold counters in *. destruct p as [c|p|h]; cbn in Hs; [| |done].
  - injection Hs as <-. exists (S n). cbn. unfold gops in *. cbn. split_and!; [lia| |lia].
    unfold modifyM, set_codec, sender_of, gops. cbn. rewrite wrap32_small by lia. done.
  - cbn [send]. destruct (is_config (header p)) eqn:Hc; [|destruct (is_key (header p))].
    + injection Hs as <-. exists (S n). unfold gops in *. cbn. split_and!; [lia| |lia].
      unfold modifyM, set_config, sender_of, gops. cbn. rewrite wrap32_small by lia. done.
    + apply bind_Some in Hs as (c & Ec & (f & Ef & [= <-])%bind_Some). exists n.
      destruct (W4 c Ec) as [_ Hwc]. destruct (W5 f Ef) as (_ & _ & Hwf). split; [lia|].
      rewrite (handler_bind_eq _ _ _ _ _ (start_gop_ok ss n c f Hwc Hwf Ec Ef ltac:(lia))).
      erewrite write_frame_ok; [|done|done]. split; [|unfold gops; cbn; rewrite length_app; cbn; lia].
      unfold sender_of, set_current, replace_stream, next_gop, gops. cbn. rewrite wrap32_small by (unfold gops in *; lia).
      repeat f_equal.
      * unfold script_writer, script_bytes. cbn [gs_gop]. rewrite <- app_assoc. unfold packets_image.
        change (script_packets _) with ([Codec c; Media f] ++ [Media p]). rewrite fmap_app, concat_app. cbn [fmap list_fmap concat].
        by rewrite !app_nil_r.
      * rewrite fmap_app. by destruct (ss_current ss).
      * rewrite !length_app. cbn. lia.
    + injection Hs as <-. exists (S n). run_handler. split; [lia|].
      destruct (ss_current ss) as [s|] eqn:E.
      * erewrite write_frame_ok; [|done|cbn; by rewrite E]. unfold sender_of, set_current, gops. cbn. rewrite E. cbn.
        rewrite !length_app. unfold script_writer. rewrite script_bytes_add_frame. split; [done|]. cbn. lia.
      * unfold write_frame, sender_of, gops. cbn. rewrite E. split; [done|]. cbn. lia.
Qed.

Lemma sender_run ps ss ss' n :
  Forall wf_av ps → wf_session ss → counters ss + Z.of_nat (length ps) < 2 ^ 32 → session_run ss ps = Some ss' →
  wf_session ss' ∧ counters ss' ≤ counters ss + Z.of_nat (length ps) ∧
  ∃ n', send_all ps (sender_of ss (length ps + n)) = (sender_of ss' n', Ok tt).
Proof.
  revert ss n. induction ps as [|p ps IH]; intros ss n; cbn [session_run send_all length].
  { intros _ Hw _ [= <-]. split_and!; [done|lia|]. by exists n. }
  intros [Hp Hps]%Forall_cons Hw Hb (s1 & Hs1 & Hrun)%bind_Some. rewrite Nat2Z.inj_succ in Hb |- *.
  destruct (sender_step ss p s1 (length ps + n) Hp Hw ltac:(lia) Hs1) as (n1 & Hn1 & Hsend & Hc).
  pose proof (session_step_wf _ _ _ Hp Hw Hs1) as Hw1.
  destruct (IH s1 (n1 - length ps)%nat Hps Hw1 ltac:(lia) Hrun) as (Hw' & Hc' & n' & Hall).
  split_and!; [done|lia|]. exists n'. cbn [Nat.add]. rewrite (handler_bind_eq _ _ _ _ _ Hsend).
  by replace n1 with (length ps + (n1 - length ps))%nat by lia.
Qed.

Lemma session_start_wf : wf_session session_start.
Proof. split; cbn; [|set_solver|lia|done|done]. split; set_solver. Qed.

(** ** Reading a stream of a session *)

(** The packet read depends only on the bytes it takes. *)
Lemma av_read_local r q r' :
  av_read r = Ok (Some q, r') →
  ∃ b, b ≠ [] ∧ rd_data r = b ++ rd_data r' ∧
    ∀ r2 rest, rd_data r2 = b ++ rest → ∃ r2', av_read r2 = Ok (Some q, r2') ∧ rd_data r2' = rest.
Proof.
  unfold av_read at 1. destruct (read_exact SERIALIZED_SIZE r) as [[hdr r1]|e|] eqn:Hr; [|by destruct e|done].
  apply read_exact_inv in Hr as (Hd & Hlen & _). intros (h & Hh & Hrest)%bind_Ok.
  assert (∀ b r2 rest, rd_data r2 = (hdr ++ b) ++ rest → ∃ r3, read_exact SERIALIZED_SIZE r2 = Ok (hdr, r3) ∧ rd_data r3 = b ++ rest)
    as Hhdr.
  { intros b r2 rest E. rewrite <- app_assoc in E. destruct (read_exact_app _ r2 _ _ E Hlen) as (r3 & ? & ? & _). eauto. }
  assert (∀ b, hdr ++ b ≠ []) as Hne by (intros b; destruct hdr; [discriminate Hlen|done]).
  destruct h as [h|h|h].
  - injection Hrest as <- <-. exists (hdr ++ []). split_and!; [done|by rewrite app_nil_r|].
    intros r2 rest E. destruct (Hhdr _ _ _ E) as (r3 & E3 & ?). exists r3. unfold av_read. rewrite E3, Hh. done.
  - apply bind_Ok in Hrest as ([buf r4] & Hbuf & [= <- <-]). apply read_exact_inv in Hbuf as (Hd' & Hlen' & _).
    exists (hdr ++ buf). split_and!; [done|by rewrite Hd, Hd', app_assoc|].
    intros r2 rest E. destruct (Hhdr _ _ _ E) as (r3 & E3 & E3').
    destruct (read_exact_app _ r3 _ _ E3' Hlen') as (r5 & E5 & ? & _). exists r5. unfold av_read. rewrite E3, Hh.
    cbn [mbind outcome_bind]. by rewrite E5.
  - injection Hrest as <- <-. exists (hdr ++ []). split_and!; [done|by rewrite app_nil_r|].
    intros r2 rest E. destruct (Hhdr _ _ _ E) as (r3 & E3 & ?). exists r3. unfold av_read. rewrite E3, Hh. done.
Qed.

(** A stream that holds a prefix of the packets' bytes gives a prefix of the
    packets. *)
Lemma av_read_prefix ps r q r' :
  Forall wf_av ps → rd_data r `prefix_of` packets_image ps → av_read r = Ok (Some q, r') →
  ∃ ps', ps = q :: ps' ∧ rd_data r' `prefix_of` packets_image ps'.
Proof.
  intros Hps [t Ht] Hr. destruct (av_read_local _ _ _ Hr) as (b & Hne & Hd & Hloc). rewrite Hd, <- app_assoc in Ht.
  destruct ps as [|p ps]; [by destruct b|]. apply Forall_cons in Hps as [Hp _].
  change (packets_image (p :: ps)) with (av_image p ++ packets_image ps) in Ht.
  pose (r2 := {| rd_chunks := [b ++ rd_data r' ++ t]; rd_fail := None |}).
  assert (rd_data r2 = b ++ rd_data r' ++ t) as E2 by apply app_nil_r.
  destruct (Hloc r2 _ E2) as (r3 & E3 & E3'). rewrite <- Ht in E2.
  destruct (av_read_ok p r2 _ Hp E2) as (r4 & E4 & E4' & _). rewrite E3 in E4. injection E4 as -> ->.
  exists ps. split; [done|]. exists t. by rewrite <- E4'.
Qed.

Lemma reads_prefix r qs r1 ps :
  Forall wf_av ps → rd_data r `prefix_of` packets_image ps → reads r qs r1 →
  ∃ ps', ps = qs ++ ps' ∧ rd_data r1 `prefix_of` packets_image ps'.
Proof.
  intros Hps Hd Hr. induction Hr as [r|r qs r1 p r2 _ IH Hread]; [by exists ps|].
  destruct (IH Hd) as (ps' & -> & Hd'). apply Forall_app in Hps as [_ Hps'].
  destruct (av_read_prefix _ _ _ _ Hps' Hd' Hread) as (ps'' & -> & ?). exists ps''. by rewrite <- app_assoc.
Qed.

Lemma gop_image_length g : length (gop_image g) = 12%nat.
Proof. unfold gop_image. by rewrite !length_app, !be_bytes_length. Qed.

Lemma read_gop_image g recv g' r0 bs :
  is_u32 (g_id g) → is_u32 (g_codec_gen g) → is_u32 (g_config_gen g) →
  rd_data recv `prefix_of` gop_image g ++ bs → read_stream_ids recv = Ok (g', r0) →
  g' = g ∧ rd_data r0 `prefix_of` bs.
Proof.
  intros H1 H2 H3 [t Ht] Hr. unfold read_stream_ids in Hr. apply bind_Ok in Hr as ([ids r1] & Hids & [= <- <-]).
  destruct (read_exact 12 recv) as [[ids' r1']|e|] eqn:Hex; [|done|done]. injection Hids as -> ->.
  apply read_exact_inv in Hex as (Hd & Hlen & _). rewrite Hd, <- app_assoc in Ht.
  apply app_inj_1 in Ht as [<- ->]; [|by rewrite gop_image_length]. split; [|by apply prefix_app_r].
  destruct g as [i c f]. unfold gop_image, is_u32 in *. cbn [g_id g_codec_gen g_config_gen] in *.
  change (slice 0 4 _) with (be_bytes 4 i). change (slice 4 4 _) with (be_bytes 4 c). change (slice 8 4 _) with (be_bytes 4 f).
  by rewrite !read_be_be4 by lia.
Qed.

(** Streams of the sender, delivered up to some point *)
Definition stream_of (sd : SendDriver) (r : Reader) : Prop :=
  ∃ w, w ∈ finished sd ++ option_list (current_stream sd) ∧ rd_data r `prefix_of` w_out w.

Lemma sender_streams ss n : finished (sender_of ss n) ++ option_list (current_stream (sender_of ss n)) = script_writer <$> gops ss.
Proof. unfold gops. cbn. rewrite fmap_app. by destruct (ss_current ss). Qed.

Lemma session_follows_script ss n :
  wf_session ss → counters ss < 2 ^ 32 → follows_script (stream_of (sender_of ss n)) (gops ss).
Proof.
  intros [Hsc Hg Hnn _ _] Hb r g r0 (w & Hw & Hd) Hr. rewrite sender_streams in Hw.
  apply list_elem_of_fmap in Hw as (s & -> & Hs). pose proof (list_elem_of_lookup_1 _ _ Hs) as [i Hi].
  destruct (Hg s Hs) as (Hcg & Hfg & Hav). pose proof (script_id _ Hsc i s Hi) as Hid. destruct (script_gens _ Hsc s Hs) as [? ?].
  unfold counters in Hb. pose proof (lookup_lt_Some _ _ _ Hi).
  destruct (read_gop_image (gs_gop s) r g r0 (packets_image (script_packets s))) as [-> Hd'];
    [unfold is_u32; lia..|done|done|]. exists s. split.
  - split; [|done]. by rewrite Hid, Nat2Z.id.
  - intros ps r1 Hps. destruct (reads_prefix _ _ _ _ Hav Hd' Hps) as (ps' & -> & _). by apply prefix_app_r.
Qed.

(** ** The frames of a session *)

Definition keyframe (p : AVPacket) : bool := is_frame p && match p with Media p => is_key (header p) | _ => false end.
Definition as_frame (p : AVPacket) : option MediaPacket :=
  match p with Media p => if is_config (header p) then None else Some p | _ => None end.

(** The frames from the first keyframe on *)
Fixpoint frames_from_key (ps : list AVPacket) : list MediaPacket :=
  match ps with
  | [] => []
  | p :: ps' => if keyframe p then omap as_frame ps else frames_from_key ps'
  end.

Definition session_frames (ss : Session) : list MediaPacket := concat (gs_frames <$> gops ss).

Lemma session_frames_step ss p ss' :
  session_step ss p = Some ss' →
  session_frames ss' = session_frames ss ++ (if keyframe p then option_list (as_frame p) else
                                              match ss_current ss with Some _ => option_list (as_frame p) | None => [] end) ∧
  (is_Some (ss_current ss') ↔ is_Some (ss_current ss) ∨ keyframe p = true) ∧ (ss_current ss = None → ss_done ss = [] → keyframe p = false → ss_done ss' = []).
Proof.
  intros Hs. destruct p as [c|p|h]; cbn in Hs; [| |done].
  - injection Hs as <-. unfold session_frames, gops, keyframe. cbn. rewrite <- (app_nil_r (concat _)) at 1. split_and!; [by destruct (ss_current ss)| |done].
    split; [by left|intros [?|?]; done].
  - unfold keyframe, is_frame, as_frame. destruct (is_config (header p)) eqn:Hc; [|destruct (is_key (header p)) eqn:Hk]; cbn.
    + injection Hs as <-. unfold session_frames, gops. cbn. rewrite <- (app_nil_r (concat _)) at 1. split_and!; [by destruct (ss_current ss)| |done].
    split; [by left|intros [?|?]; done].
    + apply bind_Some in Hs as (c & Ec & (f & Ef & [= <-])%bind_Some). unfold session_frames, gops. cbn.
      rewrite (fmap_app _ (_ ++ _)), concat_app. cbn. naive_solver.
    + injection Hs as <-. unfold session_frames, gops. cbn. destruct (ss_current ss) as [s|]; cbn.
      * rewrite !fmap_app, !concat_app. cbn. rewrite !app_nil_r, app_assoc. split_and!; [done|split; [eauto|done]|done].
      * split_and!; [by rewrite !app_nil_r| |done]. split; [by left|intros [?|?]; done].
Qed.

Lemma session_frames_started ps ss ss' :
  session_run ss ps = Some ss' → is_Some (ss_current ss) → session_frames ss' = session_frames ss ++ omap as_frame ps.
Proof.
  revert ss. induction ps as [|p ps IH]; intros ss; cbn [session_run]; [intros [= <-] _; by rewrite app_nil_r|].
  intros (s1 & Hs1 & Hrun)%bind_Some [s Hs]. destruct (session_frames_step _ _ _ Hs1) as (Hf & Hc & _). rewrite Hs in Hf, Hc.
  rewrite (IH s1 Hrun) by (apply Hc; left; eauto). rewrite Hf, <- app_assoc. f_equal. cbn.
  by destruct (keyframe p), (as_frame p).
Qed.

Lemma session_frames_run ps ss ss' :
  session_run ss ps = Some ss' → ss_current ss = None → ss_done ss = [] → session_frames ss' = frames_from_key ps.
Proof.
  revert ss. induction ps as [|p ps IH]; intros ss; cbn [session_run frames_from_key].
  { intros [= <-] H1 H2. unfold session_frames, gops. by rewrite H1, H2. }
  intros (s1 & Hs1 & Hrun)%bind_Some H1 H2. destruct (session_frames_step _ _ _ Hs1) as (Hf & Hc & Hd). rewrite H1 in Hf, Hc.
  assert (session_frames ss = []) as Hnil by (unfold session_frames, gops; by rewrite H1, H2). rewrite Hnil in Hf.
  destruct (keyframe p).
  - rewrite (session_frames_started _ _ _ Hrun) by (apply Hc; by right). rewrite Hf. cbn. by destruct (as_frame p).
  - apply (IH s1 Hrun); [|by apply Hd]. apply eq_None_not_Some. intros [H|H]%Hc; [by destruct H|done].
Qed.

(** ** Streams delivered in full and in order *)

Definition reader_of (s : GopScript) : Reader := {| rd_chunks := [script_bytes s]; rd_fail := None |}.

Definition gop_schedule (s : GopScript) : list Action :=
  [Accept (reader_of s); Recv; Ids; Recv] ++ concat (replicate (length (script_packets s)) [Packet; Recv]).

Lemma schedule_app a b outs d :
  schedule (a ++ b) outs d = '(outs', d') ← schedule a outs d; schedule b outs' d'.
Proof.
  revert outs d. induction a as [|x a IH]; intros outs d; [done|]. cbn.
  destruct (act x d) as [[o d1]|]; cbn; [apply IH|done].
Qed.

Definition idle (d : RecvDriver) : Prop := rx d = [] ∧ ids_tasks d = [].

Lemma frames_not l : is_frame l = false → frames [l] = [].
Proof. intros E. unfold frames. rewrite filter_cons_False; [done|]. rewrite E. by intros []. Qed.

Lemma handle_current d g p :
  gop d = Some g → (∀ h, p ≠ Hole h) →
  ∃ c f o, handle_msg (NewPacket p (g_id g)) d = (set_gens c f d, Ok o) ∧ frames (option_list o) = frames [p].
Proof.
  intros Hg Hp. unfold handle_msg; run_handler. rewrite Hg. cbn [expect].
  rewrite Z.eqb_refl. destruct p as [c|m|h]; [| |by destruct (Hp h)].
  - rewrite (frames_not (Codec c)) by done. destruct (g_codec_gen g =? last_codec_gen d).
    + exists (last_codec_gen d), (last_config_gen d), None. by rewrite set_gens_same.
    + eexists _, _, (Some (Codec c)). split; [done|]. by apply frames_not.
  - destruct (is_config (header m)) eqn:Hm.
    + rewrite (frames_not (Media m)) by (cbn; by rewrite Hm). destruct (g_config_gen g =? last_config_gen d).
      * exists (last_codec_gen d), (last_config_gen d), None. by rewrite set_gens_same.
      * eexists _, _, (Some (Media m)). split; [done|]. apply frames_not. cbn. by rewrite Hm.
    + exists (last_codec_gen d), (last_config_gen d), (Some (Media m)). by rewrite set_gens_same.
Qed.

(** One packet of the current stream read and handled *)
Lemma schedule_packet outs d g r p r' :
  idle d → gop d = Some g → read_packets_task d = Some (r, g_id g) → av_read r = Ok (Some p, r') → (∀ h, p ≠ Hole h) →
  ∃ outs' d', schedule [Packet; Recv] outs d = Some (outs', d') ∧ idle d' ∧ gop d' = Some g ∧
    read_packets_task d' = Some (r', g_id g) ∧ frames (snd <$> outs') = frames (snd <$> outs) ++ frames [p].
Proof.
  intros [Hrx Hids] Hg Ht Hr Hp. cbn [schedule act]. rewrite Ht, Hr. cbn [mbind option_bind option_list]. rewrite app_nil_r.
  cbn [act push set_rx rx set_task]. rewrite Hrx. cbn [app].
  destruct (handle_current (set_rx [] (set_task (Some (r', g_id g)) d)) g p Hg Hp) as (c & f & o & Hh & Hfr).
  change (handle_msg _ _) with (handle_msg (NewPacket p (g_id g)) (set_rx [] (set_task (Some (r', g_id g)) d))).
  rewrite Hh. destruct o as [p'|]; cbn; rewrite ?Hg; cbn; do 2 eexists; (split; [done|]); split_and!; try done.
  - by rewrite fmap_app, frames_app, <- Hfr.
  - by rewrite app_nil_r, <- Hfr, app_nil_r.
Qed.

Lemma schedule_packets ps outs d g r :
  idle d → gop d = Some g → read_packets_task d = Some (r, g_id g) → Forall wf_av ps → (∀ h, Hole h ∉ ps) →
  rd_data r = packets_image ps →
  ∃ outs' d', schedule (concat (replicate (length ps) [Packet; Recv])) outs d = Some (outs', d') ∧ idle d' ∧ gop d' = Some g ∧
    frames (snd <$> outs') = frames (snd <$> outs) ++ frames ps.
Proof.
  revert outs d r. induction ps as [|p ps IH]; intros outs d r Hi Hg Ht Hps Hh Hd.
  { exists outs, d. split; [done|]. split_and!; [done|done|]. by rewrite app_nil_r. }
  apply Forall_cons in Hps as [Hp Hps].
  destruct (av_read_ok p r _ Hp Hd) as (r' & Hr & Hd' & _).
  destruct (schedule_packet outs d g r p r' Hi Hg Ht Hr) as (outs1 & d1 & Hs & Hi1 & Hg1 & Ht1 & Hf1).
  { intros h ->. apply (Hh h). left. }
  destruct (IH outs1 d1 r' Hi1 Hg1 Ht1 Hps) as (outs2 & d2 & Hs2 & Hi2 & Hg2 & Hf2); [by intros h ?; apply (Hh h); right|done|].
  exists outs2, d2. split_and!; [|done|done|].
  - cbn [length replicate concat]. rewrite schedule_app, Hs. done.
  - rewrite Hf2, Hf1, <- app_assoc. by rewrite <- frames_app.
Qed.

Lemma read_reader_of s :
  is_u32 (g_id (gs_gop s)) → is_u32 (g_codec_gen (gs_gop s)) → is_u32 (g_config_gen (gs_gop s)) →
  ∃ r0, read_stream_ids (reader_of s) = Ok (gs_gop s, r0) ∧ rd_data r0 = packets_image (script_packets s).
Proof.
  intros H1 H2 H3. assert (rd_data (reader_of s) = gop_image (gs_gop s) ++ packets_image (script_packets s)) as Hdata by apply app_nil_r.
  destruct (read_exact_app 12 (reader_of s) _ _ Hdata (gop_image_length _)) as (r0 & Hr0 & Hd0 & _). exists r0. split; [|done].
  assert (∃ g, read_stream_ids (reader_of s) = Ok (g, r0)) as [g Hg] by (unfold read_stream_ids; rewrite Hr0; cbn; eauto).
  destruct (read_gop_image (gs_gop s) (reader_of s) g r0 (packets_image (script_packets s))) as [-> _]; [done..|by rewrite Hdata|done|done].
Qed.

(** One stream accepted, adopted and read to its end *)
Lemma schedule_gop outs d s :
  idle d → is_newer (gs_gop s) (gop d) = true → Forall wf_av (script_packets s) →
  is_u32 (g_id (gs_gop s)) → is_u32 (g_codec_gen (gs_gop s)) → is_u32 (g_config_gen (gs_gop s)) →
  ∃ outs' d', schedule (gop_schedule s) outs d = Some (outs', d') ∧ idle d' ∧ gop d' = Some (gs_gop s) ∧
    frames (snd <$> outs') = frames (snd <$> outs) ++ frames (script_packets s).
Proof.
  intros Hi Hnew Hps Hu1 Hu2 Hu3. destruct (read_reader_of s Hu1 Hu2 Hu3) as (r0 & Hread & Hd0).
  unfold gop_schedule. rewrite schedule_app.
  assert (schedule [Accept (reader_of s); Recv; Ids; Recv] outs d =
          Some (outs, switch_reader (r0, g_id (gs_gop s)) (set_gop (gs_gop s) d))) as ->.
  { destruct d as [q g c f ids t cs], Hi as [Hq Hids]. cbn in Hq, Hids, Hnew. subst q ids.
    cbn -[read_stream_ids reader_of is_newer]. unfold option_bind; run_handler.
    cbn -[read_stream_ids reader_of is_newer]. rewrite Hread. cbn -[is_newer].
    run_handler. cbn -[is_newer]. rewrite Hnew. cbn. by rewrite !app_nil_r. }
  cbn [mbind option_bind]. eapply schedule_packets; [by destruct Hi|done|done|done| |done].
  intros h Hin. unfold script_packets in Hin. set_solver.
Qed.

Lemma schedule_gops sc outs d n :
  idle d → match gop d with Some g => g_id g < Z.of_nat n | None => True end →
  (∀ i s, sc !! i = Some s → g_id (gs_gop s) = Z.of_nat (n + i)) →
  (∀ s, s ∈ sc → Forall wf_av (script_packets s) ∧ is_u32 (g_id (gs_gop s)) ∧ is_u32 (g_codec_gen (gs_gop s)) ∧ is_u32 (g_config_gen (gs_gop s))) →
  ∃ outs' d', schedule (concat (gop_schedule <$> sc)) outs d = Some (outs', d') ∧
    frames (snd <$> outs') = frames (snd <$> outs) ++ concat ((frames ∘ script_packets) <$> sc).
Proof.
  revert outs d n. induction sc as [|s sc IH]; intros outs d n Hi Hg Hid Hsc.
  { exists outs, d. split; [done|]. by rewrite app_nil_r. }
  destruct (Hsc s ltac:(left)) as (Hps & Hu1 & Hu2 & Hu3). pose proof (Hid O s eq_refl) as Hid0. rewrite Nat.add_0_r in Hid0.
  destruct (schedule_gop outs d s Hi) as (outs1 & d1 & Hs1 & Hi1 & Hg1 & Hf1); [|done..|].
  { destruct (gop d); [apply Z.ltb_lt; lia|done]. }
  destruct (IH outs1 d1 (S n) Hi1) as (outs2 & d2 & Hs2 & Hf2); [rewrite Hg1; lia| |by intros t ?; apply Hsc; right|].
  { intros i t Ht. rewrite (Hid (S i) t Ht). f_equal. lia. }
  exists outs2, d2. split.
  - cbn [fmap list_fmap concat]. rewrite schedule_app, Hs1. done.
  - rewrite Hf2, Hf1. cbn [fmap list_fmap concat compose]. by rewrite app_assoc.
Qed.

Lemma scripts_frames sc :
  (∀ s, s ∈ sc → frames (script_packets s) = Media <$> gs_frames s) →
  concat ((frames ∘ script_packets) <$> sc) = Media <$> concat (gs_frames <$> sc).
Proof.
  intros Hf. induction sc as [|s sc IH]; [done|]. cbn [fmap list_fmap concat compose].
  rewrite fmap_app, Hf by left. f_equal. apply IH. intros t ?. apply Hf. by right.
Qed.

(** ** Properties *)

(** For any packets of which every keyframe has a codec and a config before
    it, the sender writes one stream per keyframe: its number and the
    generations of the codec and of the config, these two packets, then the
    frames up to the next keyframe; the streams together carry every frame from
    the first keyframe on, in order. *)
Theorem gop_streams_written ps ss :
  Forall wf_av ps → Z.of_nat (length ps) < 2 ^ 32 → session_run session_start ps = Some ss →
  ∃ sd, send_all ps (send_start (replicate (length ps) (Some (open_writer [])))) = (sd, Ok tt) ∧
    finished sd ++ option_list (current_stream sd) = (λ s, open_writer (script_bytes s)) <$> gops ss ∧
    wf_script (gops ss) ∧ concat (gs_frames <$> gops ss) = frames_from_key ps.
Proof.
  intros Hps Hlen Hrun.
  destruct (sender_run ps session_start ss 0 Hps session_start_wf ltac:(unfold counters; cbn; lia) Hrun) as (Hw & _ & n & Hsend).
  rewrite Nat.add_0_r in Hsend. exists (sender_of ss n). split_and!.
  - exact Hsend.
  - apply sender_streams.
  - apply Hw.
  - by apply (session_frames_run ps session_start).
Qed.

(** C12: whatever the order in which the streams of a sender are accepted and
    read, wherever they are cut, and however the tasks interleave, the receiver
    goes forward through the groups, delivers of each group a prefix of its
    frames in order, delivers every codec and config at most once and always
    the ones in force before a frame, and never fails. *)
Theorem gop_stream_end_to_end ps ss sd outs d :
  Forall wf_av ps → Z.of_nat (length ps) < 2 ^ 32 → session_run session_start ps = Some ss →
  send_all ps (send_start (replicate (length ps) (Some (open_writer [])))) = (sd, Ok tt) →
  gop_runs (stream_of sd) outs d →
  watch_all (0, 0) outs = Some (last_codec_gen d, last_config_gen d) ∧
  StronglySorted Z.le ((λ o, g_id o.1) <$> outs) ∧
  (∀ o, o ∈ outs → ∃ s, script (gops ss) o.1 s ∧ o.2 ∈ script_packets s) ∧
  (∀ i s, gops ss !! i = Some s → frames (of_gop (Z.of_nat i) outs) `prefix_of` (Media <$> gs_frames s)) ∧
  (∀ m q, rx d = m :: q → ∃ d' o, handle_msg m (set_rx q d) = (d', Ok o)).
Proof.
  intros Hps Hlen Hrun Hsend Hruns.
  destruct (sender_run ps session_start ss 0 Hps session_start_wf ltac:(unfold counters; cbn; lia) Hrun) as (Hw & Hb & n & Hsend').
  rewrite Nat.add_0_r in Hsend'.
  assert (sd = sender_of ss n) as ->.
  { change (sender_of _ _) with (send_start (replicate (length ps) (Some (open_writer [])))) in Hsend' at 1. congruence. }
  assert (counters ss < 2 ^ 32) as Hb' by (unfold counters in Hb at 2; cbn in Hb; lia).
  pose proof (session_follows_script ss n Hw Hb') as Hfollow.
  pose proof (tracks_run _ _ (ws_script ss Hw) Hfollow _ _ Hruns) as Htr.
  pose proof Htr as (_ & _ & [D1 D2 D3 D4]). split_and!; [done..|].
  intros m q Hrx. destruct (tracks_msg _ _ (ws_script ss Hw) Hfollow _ _ _ _ Hrx Htr) as (d' & o & Hh & _). eauto.
Qed.

(** The sender's streams, delivered in full and one after the other, make
    the receiver deliver every frame from the first keyframe on, in order. *)
Theorem gop_in_order_delivery ps ss :
  Forall wf_av ps → Z.of_nat (length ps) < 2 ^ 32 → session_run session_start ps = Some ss →
  ∃ outs d, schedule (concat (gop_schedule <$> gops ss)) [] recv_start = Some (outs, d) ∧
    frames (snd <$> outs) = Media <$> frames_from_key ps.
Proof.
  intros Hps Hlen Hrun.
  destruct (sender_run ps session_start ss 0 Hps session_start_wf ltac:(unfold counters; cbn; lia) Hrun) as ([Hsc Hg Hnn _ _] & Hb & _).
  unfold counters in Hb at 2. cbn in Hb. unfold counters in Hb.
  destruct (schedule_gops (gops ss) [] recv_start 0) as (outs & d & Hs & Hf); [done|done|apply Hsc| |].
  { intros s Hin. destruct (Hg s Hin) as (? & ? & ?). destruct (script_gens _ Hsc s Hin) as [? ?].
    pose proof (list_elem_of_lookup_1 _ _ Hin) as [i Hi]. rewrite (script_id _ Hsc i s Hi). pose proof (lookup_lt_Some _ _ _ Hi).
    unfold is_u32. split_and!; [done|lia..]. }
  exists outs, d. split; [done|]. rewrite Hf. rewrite <- (session_frames_run ps session_start ss Hrun) by done. cbn [app].
  apply scripts_frames. intros s. apply (frames_script _ Hsc).
Qed.

(** *** Witnesses *)

Definition sample_codec : AVPacket := Codec {| codec_header := {| codec := 7; rotation := 0; frame_size := 0 |} |}.
Definition sample_media (cfg key : bool) (n : Z) : AVPacket :=
  Media {| header := {| is_config := cfg; is_key := key; pts := n; size := 1 |}; payload := [n] |}.
Definition sample_sent : list AVPacket :=
  [sample_codec; sample_media true false 1; sample_media false true 2; sample_media false false 3; sample_media false true 4].
Definition sample_session : Session := default session_start (session_run session_start sample_sent).
Definition sample_sender : SendDriver := (send_all sample_sent (send_start (replicate 5 (Some (open_writer []))))).1.

Lemma sample_wf : Forall wf_av sample_sent.
Proof. repeat constructor; cbn; unfold is_u32, is_u16, is_u8, blen; cbn; lia. Qed.

Lemma gop_streams_written_witness :
  ∃ sd, send_all sample_sent (send_start (replicate 5 (Some (open_writer [])))) = (sd, Ok tt) ∧
    finished sd ++ option_list (current_stream sd) = (λ s, open_writer (script_bytes s)) <$> gops sample_session ∧
    wf_script (gops sample_session) ∧ concat (gs_frames <$> gops sample_session) = frames_from_key sample_sent.
Proof. apply (gop_streams_written sample_sent sample_session); [apply sample_wf|done|reflexivity]. Defined.

Lemma gop_in_order_delivery_witness :
  ∃ outs d, schedule (concat (gop_schedule <$> gops sample_session)) [] recv_start = Some (outs, d) ∧
    frames (snd <$> outs) = Media <$> frames_from_key sample_sent.
Proof. apply (gop_in_order_delivery sample_sent sample_session); [apply sample_wf|done|reflexivity]. Defined.

(** The second group arrives while the first one is being read: its second
    frame is skipped, the codec and the config are not repeated. *)
Definition sample_acts : list Action :=
  (λ s, Accept (reader_of s)) <$> gops sample_session.
Definition sample_schedule : list Action :=
  sample_acts ++ [Recv; Recv; Ids; Recv; Packet; Recv; Packet; Recv; Packet; Recv; Ids; Packet; Recv; Recv; Packet; Packet; Packet;
                  Recv; Recv; Recv].
Definition sample_end : list (Gop * AVPacket) * RecvDriver :=
  default ([], recv_start) (schedule sample_schedule [] recv_start).

Lemma gop_stream_end_to_end_witness :
  snd <$> sample_end.1 = [sample_codec; sample_media true false 1; sample_media false true 2; sample_media false true 4] ∧
  watch_all (0, 0) sample_end.1 = Some (1, 1).
Proof.
  split; [vm_compute; reflexivity|].
  destruct (gop_stream_end_to_end sample_sent sample_session sample_sender sample_end.1 sample_end.2)
    as [Hw _]; [apply sample_wf|done|reflexivity|vm_compute; reflexivity| |rewrite Hw; vm_compute; reflexivity].
  apply (schedule_runs _ sample_schedule [] recv_start); [|constructor|vm_compute; reflexivity].
  intros r Hr. unfold sample_schedule, sample_acts in Hr. apply elem_of_app in Hr as [(s & [= ->] & Hs)%list_elem_of_fmap|Hr].
  - exists (script_writer s). split; [|exists []; cbn; by rewrite !app_nil_r].
    replace (finished sample_sender ++ _) with (script_writer <$> gops sample_session) by (vm_compute; reflexivity).
    by apply list_elem_of_fmap_2.
  - repeat (apply elem_of_cons in Hr as [Hr|Hr]; [discriminate Hr|]). by apply elem_of_nil in Hr.
Defined.
