(* ===== verification/ClockSync.v ===== *)
(** * Clock synchronization

    Models [kyproto/src/protocol/clock_sync.rs]: the client that sends a
    timestamped request and waits at most 200 ms for its answer, the server
    that adds its own times, and the offset and delay computed from the four
    times.  The clock and the datagrams received are inputs. *)

From stdpp Require Import prelude list strings.
From Stdlib Require Import ZArith Lia.
From S2P Require Import Prelude SortedVec Io Av Packets Channel.
Open Scope Z_scope.

(** ** [i64] *)

Definition is_i64 (x : Z) : Prop := - 2 ^ 63 ≤ x < 2 ^ 63.
Definition wrap_i64 (x : Z) : Z := (x + 2 ^ 63) mod 2 ^ 64 - 2 ^ 63.

(** [buf.put_i64(x)] and [buf.get_i64()] *)
Definition put_i64 (x : Z) : bytes := be_bytes 8 x.
Definition get_i64 (off : nat) (buf : bytes) : Z :=
  let v := read_be (slice off 8 buf) in if v <? 2 ^ 63 then v else v - 2 ^ 64.

(** ** Results *)

Record ClockSyncResult := { t1 : Z; t2 : Z; t3 : Z; t4 : Z }.

Definition offset_micros (self : ClockSyncResult) : Z :=
  Z.quot (wrap_i64 (wrap_i64 (wrap_i64 (t2 self - t1 self) + t3 self) - t4 self)) 2.

Definition delay_micros (self : ClockSyncResult) : Z :=
  wrap_i64 (wrap_i64 (t4 self - t1 self) - wrap_i64 (t3 self - t2 self)).

Record ClockSyncAverage := { avg_offset_micros : Z; avg_delay_micros : Z }.

(** ** Validation *)

Definition validate_sync_response (response : bytes) (expected_endpoint_id : Z) : outcome ProtocolError unit :=
  _ ← bail_if (negb (blen response =? 30)) ("expected 30 byte clock sync response, got " +:+ decimal (blen response));
  let endpoint_id := read_be (slice 0 2 response) in
  bail_if (negb (endpoint_id =? expected_endpoint_id))
    ("clock sync endpoint id mismatch: expected " +:+ decimal expected_endpoint_id +:+ ", got " +:+ decimal endpoint_id).

Definition validate_sync_request (datagram : bytes) : outcome ProtocolError unit :=
  bail_if (negb (blen datagram =? 14)) ("expected 14 byte clock sync request, got " +:+ decimal (blen datagram)).

(** ** Client *)

Record ClockSyncClientProtocol := { ky_channel : KyChannel; next_id : Z }.

Definition client_new (channel : KyChannel) : ClockSyncClientProtocol := {| ky_channel := channel; next_id := 0 |}.

Definition on_channel {A} (m : handler KyChannel ProtocolError A) : handler ClockSyncClientProtocol ProtocolError A := λ self,
  let '(c, r) := m (ky_channel self) in ({| ky_channel := c; next_id := next_id self |}, r).

(** One turn of the loop of [sync]: the clock at its start, the datagram
    received before the timeout, and the clock after it *)
Record Turn := {
  now : outcome ProtocolError Z;
  response : option (outcome ProtocolError bytes);
  after : outcome ProtocolError Z;
}.

(** The loop of [sync]; [None] when it still waits after the given turns *)
Fixpoint sync_loop (endpoint req_id deadline : Z) (turns : list Turn) : option (outcome ProtocolError (option ClockSyncResult)) :=
  match turns with
  | [] => None
  | t :: turns =>
      match now t with
      | Err e => Some (Err e)
      | Panic => Some Panic
      | Ok n =>
          if deadline <=? n then Some (Ok None)
          else if wrap_i64 (deadline - n) <? 0 then Some Panic  (* [try_into().unwrap()] *)
          else
            match response t with
            | None => Some (Ok None)
            | Some r =>
                match (response ← r; _ ← validate_sync_response response endpoint; t4 ← after t; Ok (response, t4)) with
                | Ok (response, t4) =>
                    if req_id =? read_be (slice 2 4 response) then
                      Some (Ok (Some {| t1 := get_i64 6 response; t2 := get_i64 14 response; t3 := get_i64 22 response; t4 := t4 |}))
                    else sync_loop endpoint req_id deadline turns
                | Err e => Some (Err e)
                | Panic => Some Panic
                end
            end
      end
  end.

Definition request (endpoint req_id t1 : Z) : bytes := be_bytes 2 endpoint ++ be_bytes 4 req_id ++ put_i64 t1.

(** [sync], given the clock when the request is built *)
Definition sync (clock : outcome ProtocolError Z) (turns : list Turn) :
    handler ClockSyncClientProtocol ProtocolError (option (outcome ProtocolError (option ClockSyncResult))) :=
  req_id ← getM next_id;
  _ ← modifyM (λ self, {| ky_channel := ky_channel self; next_id := wrap32 (next_id self + 1) |});
  endpoint ← getM (λ self, endpoint_id (ky_channel self));
  t1 ← pureM clock;
  _ ← on_channel (send_datagram connection_lost (request endpoint req_id t1));
  mret (sync_loop endpoint req_id (wrap_i64 (t1 + 200000)) turns).

(** [sync_average], given the results of the successive calls of [sync] *)
Fixpoint average_loop (times : nat) (count offset_sum delay_sum : Z) (results : list (outcome ProtocolError (option ClockSyncResult))) :
    option (outcome ProtocolError ClockSyncAverage) :=
  match times with
  | O => Some (Ok {| avg_offset_micros := Z.quot offset_sum count; avg_delay_micros := Z.quot delay_sum count |})
  | S n =>
      (fix skip (results : list (outcome ProtocolError (option ClockSyncResult))) :=
         match results with
         | [] => None
         | Err e :: _ => Some (Err e)
         | Panic :: _ => Some Panic
         | Ok None :: results => skip results
         | Ok (Some res) :: results =>
             average_loop n (count + 1) (wrap_i64 (offset_sum + offset_micros res)) (wrap_i64 (delay_sum + delay_micros res)) results
         end) results
  end.

Definition sync_average (times : Z) (results : list (outcome ProtocolError (option ClockSyncResult))) :
    option (outcome ProtocolError ClockSyncAverage) :=
  if 0 <? times then average_loop (Z.to_nat times) 0 0 0 results else Some Panic.

(** ** Server *)

(** One round of [serve]: the datagram received and the clock read twice *)
Definition serve_one (datagram : outcome ProtocolError bytes) (clock2 clock3 : outcome ProtocolError Z) :
    handler KyChannel ProtocolError unit :=
  datagram ← pureM datagram;
  _ ← pureM (validate_sync_request datagram);
  t2 ← pureM clock2;
  t3 ← pureM clock3;
  send_datagram connection_lost (datagram ++ put_i64 t2 ++ put_i64 t3).

(** [serve] returns at the first error; [None] while it waits *)
Fixpoint serve (rounds : list (outcome ProtocolError bytes * outcome ProtocolError Z * outcome ProtocolError Z)) (self : KyChannel) :
    KyChannel * option (outcome ProtocolError unit) :=
  match rounds with
  | [] => (self, None)
  | (d, c2, c3) :: rounds =>
      match serve_one d c2 c3 self with
      | (self, Ok _) => serve rounds self
      | (self, r) => (self, Some r)
      end
  end.

(** ** Lemmas *)

Lemma wrap_i64_id x : is_i64 x → wrap_i64 x = x.
Proof. unfold is_i64, wrap_i64. intros Hx. rewrite Z.mod_small; lia. Qed.

Lemma wrap_i64_bounds x : is_i64 (wrap_i64 x).
Proof. unfold is_i64, wrap_i64. pose proof (Z.mod_pos_bound (x + 2 ^ 63) (2 ^ 64)). lia. Qed.

Lemma wrap_i64_add_l x y : wrap_i64 (wrap_i64 x + y) = wrap_i64 (x + y).
Proof.
  unfold wrap_i64. replace ((x + 2 ^ 63) mod 2 ^ 64 - 2 ^ 63 + y + 2 ^ 63) with ((x + 2 ^ 63) mod 2 ^ 64 + y) by lia.
  rewrite Zplus_mod_idemp_l. do 2 f_equal. lia.
Qed.

Lemma wrap_i64_sub x y : wrap_i64 (wrap_i64 x - wrap_i64 y) = wrap_i64 (x - y).
Proof.
  rewrite <- Z.add_opp_r, wrap_i64_add_l. unfold wrap_i64.
  replace (x + - ((y + 2 ^ 63) mod 2 ^ 64 - 2 ^ 63) + 2 ^ 63) with (x + 2 ^ 64 - (y + 2 ^ 63) mod 2 ^ 64) by lia.
  rewrite Zminus_mod_idemp_r. do 1 f_equal. rewrite <- (Z.mod_add (x - y + 2 ^ 63) 0 (2 ^ 64)) by lia. f_equal. lia.
Qed.

Lemma put_get_i64 x : is_i64 x → (let v := read_be (put_i64 x) in if v <? 2 ^ 63 then v else v - 2 ^ 64) = x.
Proof.
  unfold is_i64, put_i64. intros Hx. rewrite read_be_be_bytes. change (256 ^ Z.of_nat 8) with (2 ^ 64). cbn zeta.
  destruct (decide (0 ≤ x)).
  - rewrite Z.mod_small by lia. destruct (Z.ltb_spec x (2 ^ 63)); lia.
  - replace (x mod 2 ^ 64) with (x + 2 ^ 64); [destruct (Z.ltb_spec (x + 2 ^ 64) (2 ^ 63)); lia|].
    rewrite <- (Z.mod_add x 1) by lia. rewrite Z.mod_small; lia.
Qed.

Definition answer (endpoint req_id t1 t2 t3 : Z) : bytes := request endpoint req_id t1 ++ put_i64 t2 ++ put_i64 t3.

Lemma answer_valid endpoint req_id x y z : is_u16 endpoint → validate_sync_response (answer endpoint req_id x y z) endpoint = Ok tt.
Proof.
  intros He. unfold validate_sync_response. change (blen (answer endpoint req_id x y z) =? 30) with true. cbn [negb bail_if mbind outcome_bind].
  change (slice 0 2 (answer endpoint req_id x y z)) with (be_bytes 2 endpoint). unfold is_u16 in He.
  rewrite read_be_be2 by lia. by rewrite Z.eqb_refl.
Qed.

Lemma answer_times endpoint req_id x y z :
  is_i64 x → is_i64 y → is_i64 z →
  get_i64 6 (answer endpoint req_id x y z) = x ∧ get_i64 14 (answer endpoint req_id x y z) = y ∧ get_i64 22 (answer endpoint req_id x y z) = z.
Proof.
  intros. unfold get_i64. change (slice 6 8 _) with (put_i64 x). change (slice 14 8 _) with (put_i64 y). change (slice 22 8 _) with (put_i64 z).
  by split_and!; apply put_get_i64.
Qed.

Lemma answer_id endpoint req_id x y z : is_u32 req_id → read_be (slice 2 4 (answer endpoint req_id x y z)) = req_id.
Proof. intros Hr. change (slice 2 4 _) with (be_bytes 4 req_id). unfold is_u32 in Hr. apply read_be_be4. lia. Qed.

(** A turn that receives, in time, the answer to another request *)
Definition stale_turn (endpoint req_id deadline : Z) (t : Turn) : Prop :=
  ∃ n a m x y z, now t = Ok n ∧ 0 ≤ n < deadline ∧ response t = Some (Ok (answer endpoint m x y z)) ∧ after t = Ok a ∧
    is_u32 m ∧ m ≠ req_id.

Lemma sync_loop_stale endpoint req_id deadline stale turns :
  is_u16 endpoint → is_i64 deadline → Forall (stale_turn endpoint req_id deadline) stale →
  sync_loop endpoint req_id deadline (stale ++ turns) = sync_loop endpoint req_id deadline turns.
Proof.
  intros He Hd. induction 1 as [|t stale (n & a & m & x & y & z & Hn & Hnd & Hr & Ha & Hm & Hne) _ IH]; [done|].
  cbn [app sync_loop]. rewrite Hn, Hr, Ha. unfold is_i64 in Hd. destruct (Z.leb_spec deadline n); [lia|].
  rewrite wrap_i64_id by (unfold is_i64; lia). destruct (Z.ltb_spec (deadline - n) 0); [lia|].
  cbn [mbind outcome_bind]. rewrite answer_valid by done. cbn [mbind outcome_bind].
  rewrite answer_id by done. destruct (Z.eqb_spec req_id m); [done|apply IH].
Qed.

Lemma sync_loop_answer endpoint req_id deadline n x y z a turns :
  is_u16 endpoint → is_u32 req_id → is_i64 deadline → is_i64 x → is_i64 y → is_i64 z → 0 ≤ n < deadline →
  sync_loop endpoint req_id deadline ({| now := Ok n; response := Some (Ok (answer endpoint req_id x y z)); after := Ok a |} :: turns) =
    Some (Ok (Some {| t1 := x; t2 := y; t3 := z; t4 := a |})).
Proof.
  intros He Hr Hd Hx Hy Hz Hn. cbn [sync_loop now response after]. unfold is_i64 in Hd. destruct (Z.leb_spec deadline n); [lia|].
  rewrite wrap_i64_id by (unfold is_i64; lia). destruct (Z.ltb_spec (deadline - n) 0); [lia|].
  cbn [mbind outcome_bind]. rewrite answer_valid by done. cbn [mbind outcome_bind].
  rewrite answer_id, Z.eqb_refl by done. by destruct (answer_times endpoint req_id x y z Hx Hy Hz) as (-> & -> & ->).
Qed.

(** ** Averages *)

Definition samples (results : list (outcome ProtocolError (option ClockSyncResult))) : list ClockSyncResult :=
  omap (λ r, match r with Ok o => o | _ => None end) results.

Lemma average_loop_samples times count os ds results e theta :
  (∀ r, r ∈ results → ∃ o, r = Ok o) → (times ≤ length (samples results))%nat → 0 ≤ count → 0 ≤ e →
  (∀ r, r ∈ samples results → Z.abs (offset_micros r - theta) ≤ e) →
  (Z.abs theta + e) * (count + Z.of_nat times) < 2 ^ 63 →
  (0 < count + Z.of_nat times) → Z.abs (os - count * theta) ≤ count * e →
  ∃ avg, average_loop times count os ds results = Some (Ok avg) ∧ Z.abs (avg_offset_micros avg - theta) ≤ e.
Proof.
  revert count os ds results. induction times as [|times IH]; intros count os ds results Hok Hlen Hc He Hs Hb Hpos Hsum; cbn [average_loop].
  { eexists. split; [done|]. cbn [avg_offset_micros]. pose proof (Z.quot_rem' os count). pose proof (Z.rem_bound_abs os count ltac:(lia)) as Hrem.
    pose proof (Z.rem_sign_mul os count ltac:(lia)). nia. }
  induction results as [|r results IHr]; [cbn in Hlen; lia|].
  destruct (Hok r ltac:(left)) as [[res|] ->].
  - apply IH.
    + intros r Hr. apply Hok. by right.
    + cbn in Hlen. unfold samples. lia.
    + lia.
    + lia.
    + intros r Hr. apply Hs. by right.
    + nia.
    + lia.
    + assert (Z.abs (offset_micros res - theta) ≤ e) by (apply Hs; left). rewrite wrap_i64_id; [nia|]. unfold is_i64. nia.
  - apply IHr; [intros r Hr; apply Hok; by right|done|done].
Qed.

(** ** Properties *)

(** A request and its answer: the server accepts what [sync] sends and
    adds its two times, and [sync], after any number of answers to other
    requests, returns exactly the four times of its own exchange. *)
Theorem clock_sync_exchange id max sent ssent req_id n x y z a stale :
  is_u16 id → is_u32 req_id → is_i64 x → is_i64 (x + 200000) → is_i64 y → is_i64 z → 0 ≤ n < x + 200000 →
  Forall (stale_turn id req_id (x + 200000)) stale →
  ∃ req resp,
    serve_one (Ok req) (Ok y) (Ok z) (open_channel id max ssent) = (open_channel id max (ssent ++ [resp]), Ok tt) ∧
    sync (Ok x) (stale ++ [{| now := Ok n; response := Some (Ok resp); after := Ok a |}])
         {| ky_channel := open_channel id max sent; next_id := req_id |} =
      ({| ky_channel := open_channel id max (sent ++ [req]); next_id := wrap32 (req_id + 1) |},
       Ok (Some (Ok (Some {| t1 := x; t2 := y; t3 := z; t4 := a |})))).
Proof.
  intros Hid Hr Hx Hd Hy Hz Hn Hstale. exists (request id req_id x), (answer id req_id x y z). split; [done|].
  unfold sync, on_channel; run_handler. cbn [ky_channel next_id open_channel endpoint_id].
  rewrite send_datagram_open, (wrap_i64_id (x + 200000)), sync_loop_stale by done. by rewrite sync_loop_answer.
Qed.

Lemma clock_sync_exchange_witness :
  ∃ req resp,
    serve_one (Ok req) (Ok 5000) (Ok 5010) (open_channel 3 1200 []) = (open_channel 3 1200 [resp], Ok tt) ∧
    sync (Ok 100) [{| now := Ok 120; response := Some (Ok (answer 3 6 0 1 2)); after := Ok 130 |};
                   {| now := Ok 140; response := Some (Ok resp); after := Ok 200 |}]
         {| ky_channel := open_channel 3 1200 []; next_id := 7 |} =
      ({| ky_channel := open_channel 3 1200 [req]; next_id := 8 |},
       Ok (Some (Ok (Some {| t1 := 100; t2 := 5000; t3 := 5010; t4 := 200 |})))).
Proof.
  apply (clock_sync_exchange 3 1200 [] [] 7 140 100 5000 5010 200 [{| now := Ok 120; response := Some (Ok (answer 3 6 0 1 2)); after := Ok 130 |}]);
    unfold is_u16, is_u32, is_i64; try lia.
  constructor; [|constructor]. exists 120, 130, 6, 0, 1, 2. unfold is_u32. cbn. split_and!; done || lia.
Defined.

(** C36: the estimate is as good as the network allows: when the server's clock
    is [theta] ahead and the two trips take [d1] and [d2], the delay is exactly
    [d1 + d2] and the offset is within half of it (and half a microsecond of
    rounding) of [theta], intermediate overflows included. *)
Theorem clock_offset_accuracy r theta d1 d2 :
  0 ≤ d1 → 0 ≤ d2 → t2 r = t1 r + theta + d1 → t4 r = t3 r - theta + d2 →
  is_i64 (2 * theta + d1 - d2) → is_i64 (d1 + d2) →
  delay_micros r = d1 + d2 ∧ 2 * Z.abs (offset_micros r - theta) ≤ d1 + d2 + 1.
Proof.
  intros Hd1 Hd2 H2 H4 Ho Hd. unfold delay_micros, offset_micros. rewrite H2, H4. split.
  - rewrite wrap_i64_sub. rewrite wrap_i64_id; [lia|]. unfold is_i64 in *. lia.
  - rewrite <- (Z.add_opp_r _ (t3 r - theta + d2)), (wrap_i64_add_l _ (t3 r)), wrap_i64_add_l.
    replace (t1 r + theta + d1 - t1 r + t3 r + - (t3 r - theta + d2)) with (2 * theta + d1 - d2) by lia.
    rewrite wrap_i64_id by done. pose proof (Z.quot_rem' (2 * theta + d1 - d2) 2). pose proof (Z.rem_bound_abs (2 * theta + d1 - d2) 2 ltac:(lia)).
    lia.
Qed.

Lemma clock_offset_accuracy_witness :
  delay_micros {| t1 := 100; t2 := 5130; t3 := 5140; t4 := 181 |} = 71 ∧
  2 * Z.abs (offset_micros {| t1 := 100; t2 := 5130; t3 := 5140; t4 := 181 |} - 5000) ≤ 72.
Proof. apply (clock_offset_accuracy {| t1 := 100; t2 := 5130; t3 := 5140; t4 := 181 |} 5000 30 41); cbn; unfold is_i64; lia. Defined.

(** [sync_average] returns as soon as enough exchanges have succeeded,
    whatever the timeouts between them, and its offset is no further from the
    true one than the worst of the exchanges. *)
Theorem clock_average_accuracy times results e theta :
  0 < times → (∀ r, r ∈ results → ∃ o, r = Ok o) → (Z.to_nat times ≤ length (samples results))%nat → 0 ≤ e →
  (∀ r, r ∈ samples results → Z.abs (offset_micros r - theta) ≤ e) → (Z.abs theta + e) * times < 2 ^ 63 →
  ∃ avg, sync_average times results = Some (Ok avg) ∧ Z.abs (avg_offset_micros avg - theta) ≤ e.
Proof.
  intros Ht Hok Hlen He Hs Hb. unfold sync_average. destruct (Z.ltb_spec 0 times); [|lia].
  apply average_loop_samples; [done|done|lia|done|done|nia|lia|lia].
Qed.

Definition sample_results : list (outcome ProtocolError (option ClockSyncResult)) :=
  [Ok (Some {| t1 := 100; t2 := 5130; t3 := 5140; t4 := 181 |}); Ok None; Ok (Some {| t1 := 300; t2 := 5340; t3 := 5345; t4 := 370 |})].

Lemma clock_average_accuracy_witness :
  ∃ avg, sync_average 2 sample_results = Some (Ok avg) ∧ Z.abs (avg_offset_micros avg - 5000) ≤ 10.
Proof.
  apply (clock_average_accuracy 2 sample_results 10 5000); try lia.
  - intros r Hr. unfold sample_results in Hr. repeat (apply elem_of_cons in Hr as [->|Hr]; [eauto|]). by apply elem_of_nil in Hr.
  - cbn. lia.
  - intros r Hr. cbn in Hr. repeat (apply elem_of_cons in Hr as [->|Hr]; [vm_compute; discriminate|]). by apply elem_of_nil in Hr.
Defined.
