(* ===== verification/Control.v ===== *)
(** * The control stream

    Models [kyproto/src/control.rs]: the registration of endpoints, the ready
    notifications, and the framing of the messages.  The oneshot channels by
    which a handler wakes a waiting call are an arena, so that both ends of a
    channel name the same cell.  [rmp_serde] is a parameter. *)

From stdpp Require Import prelude list gmap strings.
From Stdlib Require Import ZArith Lia.
From S2P Require Import Prelude Io Packets.
Open Scope Z_scope.

Inductive ControlMsg :=
| RegisterEndpoint (endpoint_id : Z)
| EndpointRegistered (endpoint_id : Z)
| Ready (endpoint_id : Z).

#[export] Instance ControlMsg_eq_dec : EqDecision ControlMsg.
Proof. solve_decision. Defined.

(** [ControlError], by the place that builds it *)
Inductive ControlError :=
| AlreadyPending (endpoint_id : Z)
| AlreadyRegisteredForReady (endpoint_id : Z)
| AlreadyRegistered (endpoint_id : Z)
| UnexpectedAck (endpoint_id : Z)
| MultipleReady (endpoint_id : Z)
| SenderError
| ReceiverClosed
| QueueClosed
| IoError (e : ErrorKind)
| EncodeError
| DecodeError.

(** A [oneshot] channel: its receiver waits, has a value, or was dropped. *)
Inductive Oneshot := Waiting | Sent | Dropped.

#[export] Instance Oneshot_eq_dec : EqDecision Oneshot.
Proof. solve_decision. Defined.

Inductive PendingReady := AwaitingLocal | AwaitingRemote (tx : nat).

Record ReadyNotifier := { rn_endpoint_id : Z; rn_rx : nat }.

(** [State], the queue of messages to the peer, and the oneshot channels *)
Record Control := {
  pending_register_ack : gmap Z nat;
  pending_connect : gset Z;
  pending_ready : gmap Z PendingReady;
  control_tx : list ControlMsg;
  tx_open : bool;
  oneshots : list Oneshot;
}.

Definition control_start : Control :=
  {| pending_register_ack := ∅; pending_connect := ∅; pending_ready := ∅; control_tx := []; tx_open := true; oneshots := [] |}.

Abbreviation controlling := (handler Control ControlError).

Definition set_register_ack (m : gmap Z nat) (c : Control) : Control :=
  {| pending_register_ack := m; pending_connect := pending_connect c; pending_ready := pending_ready c;
     control_tx := control_tx c; tx_open := tx_open c; oneshots := oneshots c |}.
Definition set_connect (x : gset Z) (c : Control) : Control :=
  {| pending_register_ack := pending_register_ack c; pending_connect := x; pending_ready := pending_ready c;
     control_tx := control_tx c; tx_open := tx_open c; oneshots := oneshots c |}.
Definition set_ready (m : gmap Z PendingReady) (c : Control) : Control :=
  {| pending_register_ack := pending_register_ack c; pending_connect := pending_connect c; pending_ready := m;
     control_tx := control_tx c; tx_open := tx_open c; oneshots := oneshots c |}.
Definition set_tx (q : list ControlMsg) (c : Control) : Control :=
  {| pending_register_ack := pending_register_ack c; pending_connect := pending_connect c; pending_ready := pending_ready c;
     control_tx := q; tx_open := tx_open c; oneshots := oneshots c |}.
Definition set_oneshots (l : list Oneshot) (c : Control) : Control :=
  {| pending_register_ack := pending_register_ack c; pending_connect := pending_connect c; pending_ready := pending_ready c;
     control_tx := control_tx c; tx_open := tx_open c; oneshots := l |}.

(** [oneshot::channel()] *)
Definition oneshot_channel : controlling nat := λ c, (set_oneshots (oneshots c ++ [Waiting]) c, Ok (length (oneshots c))).

(** [tx.send(())] on a oneshot channel *)
Definition oneshot_send (tx : nat) : controlling unit := λ c,
  match oneshots c !! tx with
  | Some Waiting => (set_oneshots (<[tx := Sent]> (oneshots c)) c, Ok tt)
  | _ => (c, Err SenderError)
  end.

(** [rx.await], as a poll *)
Definition oneshot_poll (rx : nat) (c : Control) : bool := bool_decide (oneshots c !! rx = Some Sent).

(** The receiver [rx] of a oneshot channel is dropped. *)
Definition drop_oneshot (rx : nat) (c : Control) : Control :=
  match oneshots c !! rx with
  | Some Waiting => set_oneshots (<[rx := Dropped]> (oneshots c)) c
  | _ => c
  end.

(** [control_tx.send(msg)]; the queue holds 8 messages in the code and a full
    queue makes the call wait *)
Definition queue_msg (m : ControlMsg) : controlling unit := λ c,
  if tx_open c then (set_tx (control_tx c ++ [m]) c, Ok tt) else (c, Err QueueClosed).

(** [register_endpoint], up to the wait for the ack on the receiver returned *)
Definition register_endpoint (endpoint_id : Z) : controlling nat :=
  pending ← getM pending_register_ack;
  match pending !! endpoint_id with
  | Some _ => pureM (Err (AlreadyPending endpoint_id))
  | None =>
      rx ← oneshot_channel;
      _ ← modifyM (λ c, set_register_ack (<[endpoint_id := rx]> (pending_register_ack c)) c);
      _ ← queue_msg (RegisterEndpoint endpoint_id);
      mret rx
  end.

Definition register_ready_notifier (endpoint_id : Z) : controlling ReadyNotifier :=
  pending ← getM pending_ready;
  match pending !! endpoint_id with
  | Some (AwaitingRemote _) => pureM (Err (AlreadyRegisteredForReady endpoint_id))
  | Some AwaitingLocal =>
      _ ← modifyM (λ c, set_ready (delete endpoint_id (pending_ready c)) c);
      ch ← oneshot_channel;
      _ ← oneshot_send ch;
      mret {| rn_endpoint_id := endpoint_id; rn_rx := ch |}
  | None =>
      ch ← oneshot_channel;
      _ ← modifyM (λ c, set_ready (<[endpoint_id := AwaitingRemote ch]> (pending_ready c)) c);
      mret {| rn_endpoint_id := endpoint_id; rn_rx := ch |}
  end.

(** [ReadyNotifier::ready], up to the wait on the notifier's receiver *)
Definition ready (self : ReadyNotifier) : controlling unit := queue_msg (Ready (rn_endpoint_id self)).

Definition handle_msg (msg : ControlMsg) : controlling unit :=
  match msg with
  | RegisterEndpoint endpoint_id =>
      pending ← getM pending_connect;
      _ ← modifyM (λ c, set_connect ({[endpoint_id]} ∪ pending_connect c) c);
      _ ← pureM (bail_if (bool_decide (endpoint_id ∈ pending)) (AlreadyRegistered endpoint_id));
      queue_msg (EndpointRegistered endpoint_id)
  | EndpointRegistered endpoint_id =>
      pending ← getM pending_register_ack;
      _ ← modifyM (λ c, set_register_ack (delete endpoint_id (pending_register_ack c)) c);
      match pending !! endpoint_id with
      | Some tx => oneshot_send tx
      | None => pureM (Err (UnexpectedAck endpoint_id))
      end
  | Ready endpoint_id =>
      pending ← getM pending_ready;
      _ ← modifyM (λ c, set_ready (delete endpoint_id (pending_ready c)) c);
      match pending !! endpoint_id with
      | Some (AwaitingRemote tx) => oneshot_send tx
      | Some AwaitingLocal => pureM (Err (MultipleReady endpoint_id))
      | None =>
          old ← getM (λ c, pending_ready c !! endpoint_id);
          _ ← modifyM (λ c, set_ready (<[endpoint_id := AwaitingLocal]> (pending_ready c)) c);
          pureM (rassert (match old with None => true | Some _ => false end))
      end
  end.

(** ** Framing *)

Class RmpSerde := {
  to_vec : ControlMsg → option bytes;
  from_slice : bytes → option ControlMsg;
}.

(** What is relied on: a message that is encoded decodes to itself, and fits a
    [u32] length. *)
Class RmpSerdeLaws `{RmpSerde} : Prop := {
  decode_encode m b : to_vec m = Some b → from_slice b = Some m;
  encode_fits m b : to_vec m = Some b → blen b < 2 ^ 32;
}.

Section Framing.
Context `{RmpSerde}.

Definition lift_write {A} (m : writing A) (w : Writer) : Writer * outcome ControlError A :=
  let '(w, r) := m w in (w, map_err IoError r).

Definition send_msg (msg : ControlMsg) (tx : Writer) : Writer * outcome ControlError unit :=
  match to_vec msg with
  | None => (tx, Err EncodeError)
  | Some buf =>
      if blen buf <? 2 ^ 32 then
        lift_write (_ ← write_all (be_bytes 4 (blen buf)); _ ← write_all buf; flush) tx
      else (tx, Panic)
  end.

Fixpoint send_msgs (msgs : list ControlMsg) (tx : Writer) : Writer * outcome ControlError unit :=
  match msgs with
  | [] => (tx, Ok tt)
  | m :: msgs => match send_msg m tx with (tx, Ok _) => send_msgs msgs tx | r => r end
  end.

Definition recv_msg (rx : Reader) : outcome ControlError (option ControlMsg * Reader) :=
  match read_exact 4 rx with
  | Err UnexpectedEof => Ok (None, exhausted rx)
  | Err e => Err (IoError e)
  | Panic => Panic
  | Ok (buf, rx) =>
      match read_exact (Z.to_nat (read_be buf)) rx with
      | Err UnexpectedEof => Ok (None, exhausted rx)
      | Err e => Err (IoError e)
      | Panic => Panic
      | Ok (buf, rx) => match from_slice buf with Some msg => Ok (Some msg, rx) | None => Err DecodeError end
      end
  end.

(** [recv_msgs]: an error of [handle_msg] is logged and the loop goes on. *)
Fixpoint recv_msgs (fuel : nat) (rx : Reader) (c : Control) : option (Control * outcome ControlError unit) :=
  match fuel with
  | O => None
  | S fuel =>
      match recv_msg rx with
      | Ok (Some msg, rx) =>
          match handle_msg msg c with
          | (c, Panic) => Some (c, Panic)
          | (c, _) => recv_msgs fuel rx c
          end
      | Ok (None, _) => Some (c, Ok tt)
      | Err e => Some (c, Err e)
      | Panic => Some (c, Panic)
      end
  end.
End Framing.

(** ** Lemmas *)

Lemma drop_oneshot_other rx rx' c : rx' ≠ rx → oneshots (drop_oneshot rx c) !! rx' = oneshots c !! rx'.
Proof. intros Hne. unfold drop_oneshot. destruct (oneshots c !! rx) as [[]|]; [|done..]. cbn. by rewrite list_lookup_insert_ne. Qed.

Lemma drop_oneshot_length rx c : length (oneshots (drop_oneshot rx c)) = length (oneshots c).
Proof. unfold drop_oneshot. destruct (oneshots c !! rx) as [[]|]; [|done..]. cbn. apply length_insert. Qed.

Lemma oneshot_send_no_panic tx c : (oneshot_send tx c).2 ≠ Panic.
Proof. unfold oneshot_send. by repeat case_match. Qed.

(** The assertion of [handle_msg] holds: the entry was just removed. *)
Lemma handle_msg_no_panic m c : (handle_msg m c).2 ≠ Panic.
Proof.
  destruct m as [e|e|e]; unfold handle_msg; run_handler.
  - unfold bail_if, queue_msg. case_bool_decide; cbn; [done|]. by destruct (tx_open c).
  - cbn. case_match; [apply oneshot_send_no_panic|done].
  - cbn. case_match; [case_match; first [done|apply oneshot_send_no_panic]|]. cbn. by rewrite lookup_delete_eq.
Qed.

Section Stream.
Context `{HS : RmpSerde} `{HL : !RmpSerdeLaws}.

Definition msg_image (m : ControlMsg) : bytes :=
  let b := default [] (to_vec m) in be_bytes 4 (blen b) ++ b.
Definition msgs_image (ms : list ControlMsg) : bytes := concat (msg_image <$> ms).

Lemma send_msg_ok m out : is_Some (to_vec m) → send_msg m (open_writer out) = (open_writer (out ++ msg_image m), Ok tt).
Proof.
  intros [b Hb]. unfold send_msg, msg_image. rewrite Hb. destruct (Z.ltb_spec (blen b) (2 ^ 32)) as [_|Hge]; [|by apply encode_fits in Hb; lia].
  unfold lift_write, mbind, writing_bind. rewrite !write_all_open. cbn [flush w_budget open_writer map_err default from_option id].
  by rewrite app_assoc.
Qed.

Lemma send_msgs_ok ms out :
  Forall (λ m, is_Some (to_vec m)) ms → send_msgs ms (open_writer out) = (open_writer (out ++ msgs_image ms), Ok tt).
Proof.
  intros Hms. revert out. induction Hms as [|m ms Hm _ IH]; intros out; cbn [send_msgs]; [by rewrite app_nil_r|].
  rewrite send_msg_ok by done. rewrite IH, <- app_assoc. done.
Qed.

Lemma recv_msg_ok m r rest :
  is_Some (to_vec m) → rd_data r = msg_image m ++ rest → ∃ r', recv_msg r = Ok (Some m, r') ∧ rd_data r' = rest ∧ rd_fail r' = rd_fail r.
Proof.
  intros [b Hb] Hd. unfold msg_image in Hd. rewrite Hb in Hd. cbn [default from_option id] in Hd. rewrite <- app_assoc in Hd.
  destruct (read_exact_app 4 r _ _ Hd (be_bytes_length _ _)) as (r1 & H1 & Hd1 & Hf1). unfold recv_msg. rewrite H1.
  pose proof (encode_fits m b Hb). unfold blen in *. rewrite read_be_be4 by lia. rewrite Nat2Z.id.
  destruct (read_exact_app (length b) r1 b rest Hd1 eq_refl) as (r2 & H2 & Hd2 & Hf2). rewrite H2, (decode_encode m b Hb).
  exists r2. split_and!; [done|done|congruence].
Qed.

Lemma recv_msgs_ok ms r c fuel :
  Forall (λ m, is_Some (to_vec m)) ms → rd_data r = msgs_image ms → rd_fail r = None → (length ms < fuel)%nat →
  recv_msgs fuel r c = Some (foldl (λ c m, (handle_msg m c).1) c ms, Ok tt).
Proof.
  intros Hms. revert r c fuel. induction Hms as [|m ms Hm _ IH]; intros r c fuel Hd Hf Hfuel;
    (destruct fuel as [|fuel]; [cbn in Hfuel; lia|]); cbn [recv_msgs foldl].
  - unfold recv_msg. by rewrite read_exact_eof by (done || lia).
  - destruct (recv_msg_ok m r _ Hm Hd) as (r' & -> & Hd' & Hf'). pose proof (handle_msg_no_panic m c) as Hnp.
    destruct (handle_msg m c) as [c' [u|e|]]; cbn in Hnp; [|apply IH; [done|congruence|cbn in Hfuel; lia]|done].
    apply IH; [done|congruence|cbn in Hfuel; lia].
Qed.
End Stream.

(** ** Properties *)

(** The control stream delivers: what [send_msgs] writes for a list of
    messages makes [recv_msgs] of the other side handle exactly these messages
    in order, however the stream is chunked, and return when it ends. *)
Theorem control_stream_roundtrip `{HS : RmpSerde} `{HL : !RmpSerdeLaws} ms r c :
  Forall (λ m, is_Some (to_vec m)) ms →
  ∃ out, send_msgs ms (open_writer []) = (open_writer out, Ok tt) ∧
    (rd_data r = out → rd_fail r = None →
     recv_msgs (S (length ms)) r c = Some (foldl (λ c m, (handle_msg m c).1) c ms, Ok tt)).
Proof.
  intros Hms. exists (msgs_image ms). split; [by rewrite send_msgs_ok|]. intros Hd Hf. apply recv_msgs_ok; [done..|lia].
Qed.

(** An encoding, for the witness *)
#[local] Instance tagged : RmpSerde := {
  to_vec m := Some (match m with RegisterEndpoint e => [0; e] | EndpointRegistered e => [1; e] | Ready e => [2; e] end);
  from_slice b := match b with [0; e] => Some (RegisterEndpoint e) | [1; e] => Some (EndpointRegistered e) | [2; e] => Some (Ready e) | _ => None end;
}.

#[local] Instance tagged_laws : RmpSerdeLaws.
Proof. split; intros [e|e|e] b [= <-]; done. Qed.

Lemma control_stream_roundtrip_witness :
  ∃ out, send_msgs [Ready 4; RegisterEndpoint 6] (open_writer []) = (open_writer out, Ok tt) ∧
    (rd_data {| rd_chunks := [[0; 0; 0; 2; 2; 4; 0; 0]; [0; 2; 0; 6]]; rd_fail := None |} = out → None = @None ErrorKind →
     recv_msgs 3 {| rd_chunks := [[0; 0; 0; 2; 2; 4; 0; 0]; [0; 2; 0; 6]]; rd_fail := None |} control_start =
       Some (foldl (λ c m, (handle_msg m c).1) control_start [Ready 4; RegisterEndpoint 6], Ok tt)).
Proof.
  apply (control_stream_roundtrip [Ready 4; RegisterEndpoint 6] {| rd_chunks := [[0; 0; 0; 2; 2; 4; 0; 0]; [0; 2; 0; 6]]; rd_fail := None |} control_start).
  by repeat constructor.
Defined.
