(* ===== verification/ControlPeers.v ===== *)
(** * Two peers on a control stream

    The two [Control] instances of a connection with the calls of their users,
    as a step relation: at any point either side may ask for a ready notifier,
    declare itself ready, register an endpoint, use an endpoint again, drop a
    receiver it holds (a notifier, the future of [ready] or of
    [register_endpoint]), or handle the next message of the other.  Both tasks
    of both sides run ([ControlLifetime] has their end).  The invariant says,
    for every endpoint that is used once and whose receivers are kept, where its
    handshake is, whatever happens to the other endpoints. *)

From stdpp Require Import prelude list gmap strings.
From Stdlib Require Import ZArith Lia.
From S2P Require Import Prelude Io Packets Control.
Open Scope Z_scope.

(** A side: its control instance, what its users hold, and the endpoints its
    users gave up or used again *)
Record Node := {
  ctl : Control;
  notifiers : gmap Z nat;      (* receivers of the first ready notifier of an endpoint *)
  readied : gset Z;            (* endpoints on which [ready] was called *)
  acks : gmap Z nat;           (* receivers of the first call of [register_endpoint] *)
  ready_misused : gset Z;      (* a waiting notifier was dropped, or a second one obtained *)
  register_misused : gset Z;   (* a waiting registration was dropped, or a second one begun *)
}.

Definition node_start : Node :=
  {| ctl := control_start; notifiers := ∅; readied := ∅; acks := ∅; ready_misused := ∅; register_misused := ∅ |}.

Definition set_ctl (c : Control) (s : Node) : Node :=
  {| ctl := c; notifiers := notifiers s; readied := readied s; acks := acks s;
     ready_misused := ready_misused s; register_misused := register_misused s |}.
Definition add_notifier (e : Z) (rx : nat) (s : Node) : Node :=
  {| ctl := ctl s; notifiers := <[e := rx]> (notifiers s); readied := readied s; acks := acks s;
     ready_misused := ready_misused s; register_misused := register_misused s |}.
Definition add_readied (e : Z) (s : Node) : Node :=
  {| ctl := ctl s; notifiers := notifiers s; readied := {[e]} ∪ readied s; acks := acks s;
     ready_misused := ready_misused s; register_misused := register_misused s |}.
Definition add_ack (e : Z) (rx : nat) (s : Node) : Node :=
  {| ctl := ctl s; notifiers := notifiers s; readied := readied s; acks := <[e := rx]> (acks s);
     ready_misused := ready_misused s; register_misused := register_misused s |}.
Definition misuse_ready (e : Z) (s : Node) : Node :=
  {| ctl := ctl s; notifiers := notifiers s; readied := readied s; acks := acks s;
     ready_misused := {[e]} ∪ ready_misused s; register_misused := register_misused s |}.
Definition misuse_register (e : Z) (s : Node) : Node :=
  {| ctl := ctl s; notifiers := notifiers s; readied := readied s; acks := acks s;
     ready_misused := ready_misused s; register_misused := {[e]} ∪ register_misused s |}.

Definition shot (s : Node) (rx : nat) : option Oneshot := oneshots (ctl s) !! rx.

(** [register_endpoint] dropped while it waits for a place in the queue *)
Definition register_cut (e : Z) (c : Control) : Control :=
  set_register_ack (<[e := length (oneshots c)]> (pending_register_ack c)) (set_oneshots (oneshots c ++ [Dropped]) c).

(** Steps of the side [s], the other side being [o].  The first four are the
    use of an endpoint; then come the requests that are refused, the second
    uses, and the receivers dropped before their answer. *)
Inductive side_step (s o : Node) : Node → Node → Prop :=
| side_notifier e c n :
    notifiers s !! e = None → register_ready_notifier e (ctl s) = (c, Ok n) →
    side_step s o (add_notifier e (rn_rx n) (set_ctl c s)) o
| side_ready e rx c :
    notifiers s !! e = Some rx → e ∉ readied s → ready {| rn_endpoint_id := e; rn_rx := rx |} (ctl s) = (c, Ok tt) →
    side_step s o (add_readied e (set_ctl c s)) o
| side_register e c rx :
    acks s !! e = None → register_endpoint e (ctl s) = (c, Ok rx) → side_step s o (add_ack e rx (set_ctl c s)) o
| side_deliver m q c r :
    control_tx (ctl o) = m :: q → handle_msg m (ctl s) = (c, r) →
    side_step s o (set_ctl c s) (set_ctl (set_tx q (ctl o)) o)
| side_notifier_refused e c err :
    register_ready_notifier e (ctl s) = (c, Err err) → side_step s o (set_ctl c s) o
| side_register_refused e c err :
    register_endpoint e (ctl s) = (c, Err err) → side_step s o (set_ctl c s) o
| side_notifier_again e c n :
    register_ready_notifier e (ctl s) = (c, Ok n) → side_step s o (misuse_ready e (set_ctl c s)) o
| side_ready_again e rx c r :
    e ∈ ready_misused s → ready {| rn_endpoint_id := e; rn_rx := rx |} (ctl s) = (c, r) → side_step s o (set_ctl c s) o
| side_register_again e c rx :
    register_endpoint e (ctl s) = (c, Ok rx) → side_step s o (misuse_register e (set_ctl c s)) o
| side_register_cut e :
    pending_register_ack (ctl s) !! e = None → side_step s o (misuse_register e (set_ctl (register_cut e (ctl s)) s)) o
| side_drop_notifier e rx :
    notifiers s !! e = Some rx → shot s rx = Some Waiting →
    side_step s o (misuse_ready e (set_ctl (drop_oneshot rx (ctl s)) s)) o
| side_drop_ack e rx :
    acks s !! e = Some rx → shot s rx = Some Waiting →
    side_step s o (misuse_register e (set_ctl (drop_oneshot rx (ctl s)) s)) o
| side_drop_other rx :
    (∀ e, notifiers s !! e ≠ Some rx ∧ acks s !! e ≠ Some rx) → side_step s o (set_ctl (drop_oneshot rx (ctl s)) s) o.

Inductive peers : Node → Node → Prop :=
| peers_start : peers node_start node_start
| peers_left s o s' o' : peers s o → side_step s o s' o' → peers s' o'
| peers_right s o s' o' : peers s o → side_step o s o' s' → peers s' o'.

(** ** The invariant *)

Definition occ (m : ControlMsg) (l : list ControlMsg) : nat := length (filter (λ m', m = m') l).

Arguments occ : simpl never.

Lemma occ_cons m m' l : occ m (m' :: l) = (Nat.b2n (bool_decide (m = m')) + occ m l)%nat.
Proof. unfold occ. rewrite filter_cons. case_decide; by case_bool_decide. Qed.

Lemma occ_snoc m l m' : occ m (l ++ [m']) = (occ m l + Nat.b2n (bool_decide (m = m')))%nat.
Proof. unfold occ. rewrite filter_app, length_app, filter_cons, filter_nil. case_decide; by case_bool_decide. Qed.

(** The [Ready] message of the side [s] for [e], and the notifier of [o] *)
Definition ready_state (s o : Node) (e : Z) : Prop :=
  let n := occ (Ready e) (control_tx (ctl s)) in
  ((e ∉ readied s) ∧ n = O ∨ e ∈ readied s ∧ n = 1%nat) ∧
    (match notifiers o !! e with
     | None => pending_ready (ctl o) !! e = None
     | Some rx => pending_ready (ctl o) !! e = Some (AwaitingRemote rx) ∧ shot o rx = Some Waiting
     end) ∨
  (e ∈ readied s ∧ n = O) ∧
    (match notifiers o !! e with
     | None => pending_ready (ctl o) !! e = Some AwaitingLocal
     | Some rx => pending_ready (ctl o) !! e = None ∧ shot o rx = Some Sent
     end).

(** The registration of [e] by the side [s] *)
Definition register_state (s o : Node) (e : Z) : Prop :=
  let asked := occ (RegisterEndpoint e) (control_tx (ctl s)) in
  let acked := occ (EndpointRegistered e) (control_tx (ctl o)) in
  match acks s !! e with
  | None => asked = O ∧ (e ∉ pending_connect (ctl o)) ∧ acked = O ∧ pending_register_ack (ctl s) !! e = None
  | Some rx =>
      (asked = 1%nat ∧ (e ∉ pending_connect (ctl o)) ∧ acked = O ∨ asked = O ∧ e ∈ pending_connect (ctl o) ∧ acked = 1%nat) ∧
        pending_register_ack (ctl s) !! e = Some rx ∧ shot s rx = Some Waiting ∨
      (asked = O ∧ e ∈ pending_connect (ctl o) ∧ acked = O) ∧ pending_register_ack (ctl s) !! e = None ∧ shot s rx = Some Sent
  end.

(** Every receiver handed out is a channel of its own, and the sending ends in
    the state belong to the endpoint they are stored under. *)
Record wf_node (s : Node) : Prop := {
  nd_open : tx_open (ctl s) = true;
  nd_notifier e rx : notifiers s !! e = Some rx → (rx < length (oneshots (ctl s)))%nat;
  nd_ack e rx : acks s !! e = Some rx → (rx < length (oneshots (ctl s)))%nat;
  nd_notifier_inj e e' rx : notifiers s !! e = Some rx → notifiers s !! e' = Some rx → e = e';
  nd_ack_inj e e' rx : acks s !! e = Some rx → acks s !! e' = Some rx → e = e';
  nd_disjoint e e' rx : notifiers s !! e = Some rx → acks s !! e' = Some rx → False;
  nd_ready e tx : pending_ready (ctl s) !! e = Some (AwaitingRemote tx) →
    (tx < length (oneshots (ctl s)))%nat ∧ (∀ e', notifiers s !! e' = Some tx → e = e') ∧ ∀ e', acks s !! e' ≠ Some tx;
  nd_register e tx : pending_register_ack (ctl s) !! e = Some tx →
    (tx < length (oneshots (ctl s)))%nat ∧ (∀ e', acks s !! e' = Some tx → e = e') ∧ ∀ e', notifiers s !! e' ≠ Some tx;
}.

Record peers_inv (s o : Node) : Prop := {
  pi_left : wf_node s;
  pi_right : wf_node o;
  pi_ready e : e ∉ ready_misused s → e ∉ ready_misused o → ready_state s o e;
  pi_ready' e : e ∉ ready_misused o → e ∉ ready_misused s → ready_state o s e;
  pi_register e : e ∉ register_misused s → register_state s o e;
  pi_register' e : e ∉ register_misused o → register_state o s e;
}.

Lemma peers_inv_sym s o : peers_inv s o → peers_inv o s.
Proof. intros []. by split. Qed.

Lemma peers_inv_start : peers_inv node_start node_start.
Proof.
  assert (wf_node node_start) as Hwf by (split; [done|..]; cbn; intros; by simplify_map_eq).
  split; [done|done| | | |]; intros e; intros _.
  1,2: intros _; left; cbn; rewrite lookup_empty; split; [left; split; [set_solver|done]|done].
  1,2: unfold register_state; cbn; rewrite lookup_empty; split_and!; [done|set_solver|done|done].
Qed.

(** ** What a step leaves alone *)

Lemma ready_state_frame s o s' o' e :
  (e ∈ readied s' ↔ e ∈ readied s) → occ (Ready e) (control_tx (ctl s')) = occ (Ready e) (control_tx (ctl s)) →
  notifiers o' !! e = notifiers o !! e → pending_ready (ctl o') !! e = pending_ready (ctl o) !! e →
  (∀ rx, notifiers o !! e = Some rx → shot o' rx = shot o rx) → ready_state s o e → ready_state s' o' e.
Proof.
  intros H1 H2 H3 H4 H5. unfold ready_state. cbn zeta. rewrite H1, H2, H3, H4. destruct (notifiers o !! e) as [rx|]; [|done].
  by rewrite (H5 rx).
Qed.

Lemma register_state_frame s o s' o' e :
  acks s' !! e = acks s !! e → pending_register_ack (ctl s') !! e = pending_register_ack (ctl s) !! e →
  (∀ rx, acks s !! e = Some rx → shot s' rx = shot s rx) → (e ∈ pending_connect (ctl o') ↔ e ∈ pending_connect (ctl o)) →
  occ (RegisterEndpoint e) (control_tx (ctl s')) = occ (RegisterEndpoint e) (control_tx (ctl s)) →
  occ (EndpointRegistered e) (control_tx (ctl o')) = occ (EndpointRegistered e) (control_tx (ctl o)) →
  register_state s o e → register_state s' o' e.
Proof.
  intros H1 H2 H3 H4 H5 H6. unfold register_state. cbn zeta. rewrite H1, H2, H5, H6. destruct (acks s !! e) as [rx|]; [rewrite (H3 rx eq_refl)|]; naive_solver.
Qed.

Lemma occ_other m m' l : m ≠ m' → occ m (l ++ [m']) = occ m l.
Proof. intros Hne. rewrite occ_snoc, bool_decide_eq_false_2 by done. cbn. lia. Qed.

Lemma occ_cons_other m m' l : m ≠ m' → occ m (m' :: l) = occ m l.
Proof. intros Hne. rewrite occ_cons, bool_decide_eq_false_2 by done. done. Qed.

Lemma occ_cons_same m l : occ m (m :: l) = S (occ m l).
Proof. by rewrite occ_cons, bool_decide_eq_true_2. Qed.

Lemma occ_snoc_same m l : occ m (l ++ [m]) = S (occ m l).
Proof. rewrite occ_snoc, bool_decide_eq_true_2 by done. cbn. lia. Qed.

(** A step of [s] that changes, of the endpoints in regular use, nothing *)
Lemma inv_quiet s o s' :
  peers_inv s o → wf_node s' → notifiers s' = notifiers s → readied s' = readied s → acks s' = acks s →
  ready_misused s ⊆ ready_misused s' → register_misused s ⊆ register_misused s' →
  pending_connect (ctl s') = pending_connect (ctl s) →
  (∀ e, occ (EndpointRegistered e) (control_tx (ctl s')) = occ (EndpointRegistered e) (control_tx (ctl s))) →
  (∀ e, e ∉ ready_misused s' → pending_ready (ctl s') !! e = pending_ready (ctl s) !! e ∧
     occ (Ready e) (control_tx (ctl s')) = occ (Ready e) (control_tx (ctl s)) ∧
     ∀ rx, notifiers s !! e = Some rx → shot s' rx = shot s rx) →
  (∀ e, e ∉ register_misused s' → pending_register_ack (ctl s') !! e = pending_register_ack (ctl s) !! e ∧
     occ (RegisterEndpoint e) (control_tx (ctl s')) = occ (RegisterEndpoint e) (control_tx (ctl s)) ∧
     ∀ rx, acks s !! e = Some rx → shot s' rx = shot s rx) →
  peers_inv s' o.
Proof.
  intros [Hs Ho I1 I2 I3 I4] Hwf Hn Hr Ha Hm Hm' Hc Ht Hrd Hrg. split; [done|done|..].
  - intros e H1 H2. destruct (Hrd e H1) as (F1 & F2 & F3). apply (ready_state_frame s o); [by rewrite Hr|done..|apply I1; set_solver].
  - intros e H1 H2. destruct (Hrd e H2) as (F1 & F2 & F3). apply (ready_state_frame o s); [done|done|by rewrite Hn|done|done|apply I2; set_solver].
  - intros e H1. destruct (Hrg e H1) as (F1 & F2 & F3). apply (register_state_frame s o); [by rewrite Ha|done..|apply I3; set_solver].
  - intros e H1. apply (register_state_frame o s); [done|done|done|by rewrite Hc|done|done|by apply I4].
Qed.

(** Entries only go away, no channel is new. *)
Lemma wf_node_same s c :
  length (oneshots c) = length (oneshots (ctl s)) → tx_open c = tx_open (ctl s) →
  (∀ e tx, pending_ready c !! e = Some (AwaitingRemote tx) → pending_ready (ctl s) !! e = Some (AwaitingRemote tx)) →
  (∀ e tx, pending_register_ack c !! e = Some tx → pending_register_ack (ctl s) !! e = Some tx) →
  wf_node s → wf_node (set_ctl c s).
Proof. intros Hl Ho Hr Ha []. split; cbn; rewrite ?Hl, ?Ho; eauto. Qed.

(** A new channel, whose sending end may be stored. *)
Lemma wf_node_grow s c x :
  wf_node s → tx_open c = true → oneshots c = oneshots (ctl s) ++ [x] →
  (∀ e tx, pending_ready c !! e = Some (AwaitingRemote tx) →
     pending_ready (ctl s) !! e = Some (AwaitingRemote tx) ∨ tx = length (oneshots (ctl s))) →
  (∀ e tx, pending_register_ack c !! e = Some tx → pending_register_ack (ctl s) !! e = Some tx ∨ tx = length (oneshots (ctl s))) →
  wf_node (set_ctl c s).
Proof.
  intros [W1 W2 W3 W4 W5 W6 W7 W8] Ho Hc Hr Ha. split; cbn; rewrite ?Hc, ?length_app; cbn; [done| | |done|done|done| |].
  - intros e rx H%W2. lia.
  - intros e rx H%W3. lia.
  - intros e tx [H| ->]%Hr; [destruct (W7 e tx H) as (? & ? & ?); split_and!; [lia|done..]|].
    split_and!; [lia|intros e' H%W2; lia|intros e' H%W3; lia].
  - intros e tx [H| ->]%Ha; [destruct (W8 e tx H) as (? & ? & ?); split_and!; [lia|done..]|].
    split_and!; [lia|intros e' H%W3; lia|intros e' H%W2; lia].
Qed.

(** Recording the receiver of a channel that nobody holds *)
Definition unowned (rx : nat) (s : Node) : Prop :=
  (rx < length (oneshots (ctl s)))%nat ∧ (∀ e, notifiers s !! e ≠ Some rx) ∧ (∀ e, acks s !! e ≠ Some rx).

Lemma unowned_new s c x : wf_node s → oneshots c = oneshots (ctl s) ++ [x] → unowned (length (oneshots (ctl s))) (set_ctl c s).
Proof.
  intros Hs Hc. split_and!; cbn; [rewrite Hc, length_app; cbn; lia| |]; intros e H; [apply (nd_notifier s Hs) in H|apply (nd_ack s Hs) in H]; lia.
Qed.

Lemma wf_node_notifier s e rx :
  wf_node s → unowned rx s → (∀ e', pending_ready (ctl s) !! e' = Some (AwaitingRemote rx) → e' = e) →
  (∀ e', pending_register_ack (ctl s) !! e' ≠ Some rx) → wf_node (add_notifier e rx s).
Proof.
  intros [W1 W2 W3 W4 W5 W6 W7 W8] (U1 & U2 & U3) Hr Ha. split; cbn; [done| |done| |done| | |].
  - intros e' rx' [[<- <-]|[_ H]]%lookup_insert_Some; [done|by eapply W2].
  - intros e1 e2 rx' [[<- <-]|[_ H]]%lookup_insert_Some [[<- E]|[_ H']]%lookup_insert_Some; [done|by apply U2 in H'| |by eapply W4].
    subst rx'. by apply U2 in H.
  - intros e1 e2 rx' [[<- <-]|[_ H]]%lookup_insert_Some H'; [by apply U3 in H'|by eapply W6].
  - intros e' tx H. destruct (W7 e' tx H) as (H1 & H2 & H3). split_and!; [done| |done].
    intros e'' [[<- <-]|[_ H']]%lookup_insert_Some; [by apply Hr|by apply H2].
  - intros e' tx H. destruct (W8 e' tx H) as (H1 & H2 & H3). split_and!; [done|done|].
    intros e'' [[<- <-]|[_ H']]%lookup_insert_Some; [by apply Ha in H|by apply H3 in H'].
Qed.

Lemma wf_node_ack s e rx :
  wf_node s → unowned rx s → (∀ e', pending_register_ack (ctl s) !! e' = Some rx → e' = e) →
  (∀ e', pending_ready (ctl s) !! e' ≠ Some (AwaitingRemote rx)) → wf_node (add_ack e rx s).
Proof.
  intros [W1 W2 W3 W4 W5 W6 W7 W8] (U1 & U2 & U3) Ha Hr. split; cbn; [done|done| |done| | | |].
  - intros e' rx' [[<- <-]|[_ H]]%lookup_insert_Some; [done|by eapply W3].
  - intros e1 e2 rx' [[<- <-]|[_ H]]%lookup_insert_Some [[<- E]|[_ H']]%lookup_insert_Some; [done|by apply U3 in H'| |by eapply W5].
    subst rx'. by apply U3 in H.
  - intros e1 e2 rx' H [[<- <-]|[_ H']]%lookup_insert_Some; [by apply U2 in H|by eapply W6].
  - intros e' tx H. destruct (W7 e' tx H) as (H1 & H2 & H3). split_and!; [done|done|].
    intros e'' [[<- <-]|[_ H']]%lookup_insert_Some; [by apply Hr in H|by apply H3 in H'].
  - intros e' tx H. destruct (W8 e' tx H) as (H1 & H2 & H3). split_and!; [done| |done].
    intros e'' [[<- <-]|[_ H']]%lookup_insert_Some; [by apply Ha|by apply H2].
Qed.

Lemma wf_node_misuse_ready e s : wf_node s → wf_node (misuse_ready e s).
Proof. intros []. by split. Qed.

Lemma wf_node_misuse_register e s : wf_node s → wf_node (misuse_register e s).
Proof. intros []. by split. Qed.

(** ** The calls of the users *)

Definition notified (e : Z) (c : Control) : Control :=
  match pending_ready c !! e with
  | Some AwaitingLocal => set_ready (delete e (pending_ready c)) (set_oneshots (oneshots c ++ [Sent]) c)
  | _ => set_ready (<[e := AwaitingRemote (length (oneshots c))]> (pending_ready c)) (set_oneshots (oneshots c ++ [Waiting]) c)
  end.

Lemma register_ready_notifier_ok e c :
  (∀ tx, pending_ready c !! e ≠ Some (AwaitingRemote tx)) →
  register_ready_notifier e c = (notified e c, Ok {| rn_endpoint_id := e; rn_rx := length (oneshots c) |}).
Proof.
  intros Hno. unfold register_ready_notifier, notified, oneshot_channel, oneshot_send; run_handler.
  destruct (pending_ready c !! e) as [[|tx]|] eqn:E; cbn; [|by destruct (Hno tx)|done].
  rewrite lookup_app_r, Nat.sub_diag by lia. cbn. by rewrite insert_app_r_alt, Nat.sub_diag by lia.
Qed.

(** A notifier is refused while one waits, and the state does not change. *)
Lemma register_ready_notifier_refused e c tx :
  pending_ready c !! e = Some (AwaitingRemote tx) → register_ready_notifier e c = (c, Err (AlreadyRegisteredForReady e)).
Proof. intros H. unfold register_ready_notifier; run_handler. by rewrite H. Qed.

Lemma register_ready_notifier_cases e c :
  register_ready_notifier e c = (c, Err (AlreadyRegisteredForReady e)) ∨
  register_ready_notifier e c = (notified e c, Ok {| rn_endpoint_id := e; rn_rx := length (oneshots c) |}).
Proof.
  destruct (pending_ready c !! e) as [[|tx]|] eqn:H; [right|left; by eapply register_ready_notifier_refused|right];
    apply register_ready_notifier_ok; intros tx; by rewrite H.
Qed.

Lemma notifier_free s o e :
  peers_inv s o → e ∉ ready_misused s → e ∉ ready_misused o → notifiers s !! e = None →
  ∀ tx, pending_ready (ctl s) !! e ≠ Some (AwaitingRemote tx).
Proof. intros Hinv H1 H2 Hn tx. destruct (pi_ready' s o Hinv e H2 H1) as [[_ H]|[_ H]]; rewrite Hn in H; by rewrite H. Qed.

Lemma notified_fields e c :
  control_tx (notified e c) = control_tx c ∧ tx_open (notified e c) = tx_open c ∧ pending_connect (notified e c) = pending_connect c ∧
  pending_register_ack (notified e c) = pending_register_ack c ∧
  (∀ e', e ≠ e' → pending_ready (notified e c) !! e' = pending_ready c !! e') ∧
  ∃ x, oneshots (notified e c) = oneshots c ++ [x] ∧
    match pending_ready c !! e with
    | Some AwaitingLocal => x = Sent ∧ pending_ready (notified e c) !! e = None
    | _ => x = Waiting ∧ pending_ready (notified e c) !! e = Some (AwaitingRemote (length (oneshots c)))
    end.
Proof.
  unfold notified. destruct (pending_ready c !! e) as [[|tx]|]; cbn; split_and!; try done.
  - intros e' Hne. by rewrite lookup_delete_ne.
  - eexists. split; [done|]. by rewrite lookup_delete_eq.
  - intros e' Hne. by rewrite lookup_insert_ne.
  - eexists. split; [done|]. by rewrite lookup_insert_eq.
  - intros e' Hne. by rewrite lookup_insert_ne.
  - eexists. split; [done|]. by rewrite lookup_insert_eq.
Qed.

Lemma notified_wf s e : wf_node s → wf_node (set_ctl (notified e (ctl s)) s).
Proof.
  intros Hs. destruct (notified_fields e (ctl s)) as (F1 & F2 & F3 & F4 & F5 & x & F6 & F7).
  eapply wf_node_grow; [done|by rewrite F2; apply Hs|done| |intros e' tx; rewrite F4; by left].
  intros e' tx H. destruct (decide (e = e')) as [<-|Hne]; [|left; by rewrite <- (F5 e' Hne)].
  destruct (pending_ready (ctl s) !! e) as [[]|]; destruct F7 as [_ F7]; rewrite F7 in H; [done|right; by injection H as <-..].
Qed.

(** The new channel is stored for [e] only. *)
Lemma notified_stored s e :
  wf_node s → (∀ e', pending_ready (notified e (ctl s)) !! e' = Some (AwaitingRemote (length (oneshots (ctl s)))) → e' = e) ∧
  ∀ e', pending_register_ack (notified e (ctl s)) !! e' ≠ Some (length (oneshots (ctl s))).
Proof.
  intros Hs. destruct (notified_fields e (ctl s)) as (F1 & F2 & F3 & F4 & F5 & x & F6 & F7). split; intros e' H.
  - destruct (decide (e = e')) as [<-|Hne]; [done|]. rewrite F5 in H by done. apply (nd_ready s Hs) in H as [H _]. lia.
  - rewrite F4 in H. apply (nd_register s Hs) in H as [H _]. lia.
Qed.

Lemma shot_notified s s' e rx :
  ctl s' = notified e (ctl s) → (rx < length (oneshots (ctl s)))%nat → shot s' rx = shot s rx.
Proof.
  intros Hs' Hrx. destruct (notified_fields e (ctl s)) as (_ & _ & _ & _ & _ & x & F6 & _). unfold shot. rewrite Hs', F6. by apply lookup_app_l.
Qed.

Lemma inv_notifier s o e :
  peers_inv s o → notifiers s !! e = None →
  peers_inv (add_notifier e (length (oneshots (ctl s))) (set_ctl (notified e (ctl s)) s)) o.
Proof.
  intros [Hs Ho I1 I2 I3 I4] Hn. destruct (notified_fields e (ctl s)) as (F1 & F2 & F3 & F4 & F5 & x & F6 & F7).
  destruct (notified_stored s e Hs) as [St1 St2].
  split; [|done|intros e'; cbn [ready_misused register_misused add_notifier set_ctl]..].
  - apply wf_node_notifier; [by apply notified_wf|by eapply unowned_new|done|done].
  - intros H1 H2. apply (ready_state_frame s o); cbn; [done|by rewrite F1|done..|by apply I1].
  - intros H1 H2. specialize (I2 e' H1 H2). destruct (decide (e = e')) as [<-|Hne].
    + unfold ready_state in *. cbn zeta in *. rewrite Hn in I2. cbn [notifiers add_notifier set_ctl]. rewrite lookup_insert_eq.
      assert (shot (add_notifier e (length (oneshots (ctl s))) (set_ctl (notified e (ctl s)) s)) (length (oneshots (ctl s))) = Some x) as ->
        by (unfold shot; cbn; rewrite F6, lookup_app_r, Nat.sub_diag by lia; done).
      cbn [ctl add_notifier set_ctl]. destruct I2 as [[H3 H4]|[H3 H4]]; rewrite H4 in F7; destruct F7 as [-> ->]; [by left|by right].
    + apply (ready_state_frame o s); cbn; [done|done|by rewrite lookup_insert_ne|by apply F5| |done].
      intros rx Hrx. eapply shot_notified; [done|by eapply (nd_notifier s Hs)].
  - intros H1. apply (register_state_frame s o); cbn; [done|by rewrite F4| |done|by rewrite F1|done|by apply I3].
    intros rx Hrx. eapply shot_notified; [done|by eapply (nd_ack s Hs)].
  - intros H1. apply (register_state_frame o s); cbn; [done|done|done|by rewrite F3|done|by rewrite F1|by apply I4].
Qed.

Lemma inv_notifier_again s o e : peers_inv s o → peers_inv (misuse_ready e (set_ctl (notified e (ctl s)) s)) o.
Proof.
  intros Hinv. pose proof (pi_left s o Hinv) as Hs. destruct (notified_fields e (ctl s)) as (F1 & F2 & F3 & F4 & F5 & x & F6 & F7).
  apply (inv_quiet s); [done|by apply wf_node_misuse_ready, notified_wf|done|done|done|set_solver|set_solver|done|cbn; by rewrite F1| |]; cbn; intros e' He'.
  - rewrite F1. split_and!; [apply F5; set_solver|done|]. intros rx Hrx. eapply shot_notified; [done|by eapply (nd_notifier s Hs)].
  - rewrite F1, F4. split_and!; [done|done|]. intros rx Hrx. eapply shot_notified; [done|by eapply (nd_ack s Hs)].
Qed.

(** [Ready e] is queued. *)
Lemma inv_ready s o e rx :
  peers_inv s o → notifiers s !! e = Some rx → e ∉ readied s →
  peers_inv (add_readied e (set_ctl (set_tx (control_tx (ctl s) ++ [Ready e]) (ctl s)) s)) o.
Proof.
  intros [Hs Ho I1 I2 I3 I4] Hn Hr. split; [|done|intros e' H1..].
  - destruct Hs. by split.
  - intros H2. specialize (I1 e' H1 H2). destruct (decide (e = e')) as [<-|Hne].
    + unfold ready_state in *. cbn zeta in *. cbn [ctl add_readied set_ctl readied set_tx control_tx].
      rewrite occ_snoc_same. left. destruct I1 as [[[[_ ->]|[? _]] H]|[[? _] _]]; [|done|done]. split; [right; set_solver|done].
    + apply (ready_state_frame s o); cbn; [set_solver|by rewrite occ_other by congruence|done..].
  - intros H2. apply (ready_state_frame o s); [done..|by apply I2].
  - apply (register_state_frame s o); cbn; [done|done|done|done|by rewrite occ_other|done|by apply I3].
  - apply (register_state_frame o s); cbn; [done|done|done|done|done|by rewrite occ_other|by apply I4].
Qed.

Lemma inv_ready_again s o e :
  peers_inv s o → e ∈ ready_misused s → peers_inv (set_ctl (set_tx (control_tx (ctl s) ++ [Ready e]) (ctl s)) s) o.
Proof.
  intros Hinv He. apply (inv_quiet s); [done| |done|done|done|done|done|done| | |]; cbn.
  - apply wf_node_same; [done..|apply Hinv].
  - intros e'. by rewrite occ_other.
  - intros e' He'. by rewrite occ_other by (intros [= ->]; done).
  - intros e' He'. by rewrite occ_other.
Qed.

Definition registering (e : Z) (c : Control) : Control :=
  set_tx (control_tx c ++ [RegisterEndpoint e])
    (set_register_ack (<[e := length (oneshots c)]> (pending_register_ack c)) (set_oneshots (oneshots c ++ [Waiting]) c)).

Lemma register_endpoint_ok e c :
  tx_open c = true → pending_register_ack c !! e = None →
  register_endpoint e c = (registering e c, Ok (length (oneshots c))).
Proof.
  intros Ho Hp. unfold register_endpoint, oneshot_channel, queue_msg; run_handler.
  rewrite Hp. cbn. by rewrite Ho.
Qed.

Lemma register_endpoint_cases e c :
  tx_open c = true →
  register_endpoint e c = (c, Err (AlreadyPending e)) ∨ register_endpoint e c = (registering e c, Ok (length (oneshots c))).
Proof.
  intros Ho. destruct (pending_register_ack c !! e) as [tx|] eqn:H; [left|right; by apply register_endpoint_ok].
  unfold register_endpoint; run_handler. by rewrite H.
Qed.

Lemma register_free s o e : peers_inv s o → e ∉ register_misused s → acks s !! e = None → pending_register_ack (ctl s) !! e = None.
Proof. intros Hinv Hm Hn. pose proof (pi_register s o Hinv e Hm) as H. unfold register_state in H. rewrite Hn in H. by destruct H as (_ & _ & _ & ?). Qed.

(** A registration stores a new channel for [e] only. *)
Lemma registered_wf s e x c :
  wf_node s → oneshots c = oneshots (ctl s) ++ [x] → tx_open c = tx_open (ctl s) → pending_ready c = pending_ready (ctl s) →
  pending_register_ack c = <[e := length (oneshots (ctl s))]> (pending_register_ack (ctl s)) →
  wf_node (set_ctl c s) ∧ wf_node (add_ack e (length (oneshots (ctl s))) (set_ctl c s)).
Proof.
  intros Hs Hc Ho Hr Ha. assert (wf_node (set_ctl c s)) as Hwf.
  { eapply wf_node_grow; [done|rewrite Ho; apply Hs|done|rewrite Hr; by left|].
    intros e' tx. rewrite Ha. intros [[_ <-]|[_ H]]%lookup_insert_Some; [by right|by left]. }
  split; [done|]. apply wf_node_ack; [done|by eapply unowned_new| |]; cbn.
  - intros e'. rewrite Ha. intros [[<- _]|[_ H]]%lookup_insert_Some; [done|]. apply (nd_register s Hs) in H as [H _]. lia.
  - intros e' H. rewrite Hr in H. apply (nd_ready s Hs) in H as [H _]. lia.
Qed.

Lemma shot_grown s s' x rx : oneshots (ctl s') = oneshots (ctl s) ++ [x] → (rx < length (oneshots (ctl s)))%nat → shot s' rx = shot s rx.
Proof. intros Hs' Hrx. unfold shot. rewrite Hs'. by apply lookup_app_l. Qed.

Lemma inv_register s o e :
  peers_inv s o → acks s !! e = None → peers_inv (add_ack e (length (oneshots (ctl s))) (set_ctl (registering e (ctl s)) s)) o.
Proof.
  intros [Hs Ho I1 I2 I3 I4] Hn. split; [|done|intros e' H1..].
  - by apply (registered_wf s e Waiting).
  - intros H2. apply (ready_state_frame s o); cbn; [done|by rewrite occ_other|done..|by apply I1].
  - intros H2. apply (ready_state_frame o s); cbn; [done|done|done|done| |by apply I2]. intros rx Hrx. eapply shot_grown; [done|by eapply (nd_notifier s Hs)].
  - specialize (I3 e' H1). destruct (decide (e = e')) as [<-|Hne].
    + unfold register_state in *. cbn zeta in *. rewrite Hn in I3. destruct I3 as (H2 & H3 & H4 & H5).
      cbn [acks add_ack set_ctl ctl registering set_tx control_tx pending_register_ack set_register_ack]. rewrite !lookup_insert_eq, occ_snoc_same, H2.
      left. split; [by left|]. split; [done|]. unfold shot. cbn. by rewrite lookup_app_r, Nat.sub_diag by lia.
    + apply (register_state_frame s o); cbn; [by rewrite lookup_insert_ne|by rewrite lookup_insert_ne| |done|by rewrite occ_other by congruence|done|done].
      intros rx Hrx. eapply shot_grown; [done|by eapply (nd_ack s Hs)].
  - apply (register_state_frame o s); cbn; [done|done|done|done|done|by rewrite occ_other|by apply I4].
Qed.

(** A second registration, whether its message is queued or not *)
Lemma inv_register_again s o e x c :
  peers_inv s o → oneshots c = oneshots (ctl s) ++ [x] → tx_open c = tx_open (ctl s) → pending_ready c = pending_ready (ctl s) →
  pending_connect c = pending_connect (ctl s) →
  pending_register_ack c = <[e := length (oneshots (ctl s))]> (pending_register_ack (ctl s)) →
  control_tx c = control_tx (ctl s) ∨ control_tx c = control_tx (ctl s) ++ [RegisterEndpoint e] →
  peers_inv (misuse_register e (set_ctl c s)) o.
Proof.
  intros Hinv Hc Ho Hr Hpc Ha Ht. pose proof (pi_left s o Hinv) as Hs.
  assert (∀ m, m ≠ RegisterEndpoint e → occ m (control_tx c) = occ m (control_tx (ctl s))) as Hocc
    by (intros m Hm; destruct Ht as [->| ->]; [done|by rewrite occ_other]).
  apply (inv_quiet s); [done| |done|done|done|set_solver|set_solver|done|intros e'; by apply Hocc| |]; cbn.
  - apply wf_node_misuse_register. by apply (registered_wf s e x).
  - intros e' He'. split_and!; [by rewrite Hr|by apply Hocc|]. intros rx Hrx. eapply shot_grown; [done|by eapply (nd_notifier s Hs)].
  - intros e' He'. rewrite Ha. split_and!; [apply lookup_insert_ne; set_solver|apply Hocc; set_solver|].
    intros rx Hrx. eapply shot_grown; [done|by eapply (nd_ack s Hs)].
Qed.

(** ** Receivers dropped *)

Lemma drop_oneshot_fields rx c :
  pending_ready (drop_oneshot rx c) = pending_ready c ∧ pending_register_ack (drop_oneshot rx c) = pending_register_ack c ∧
  pending_connect (drop_oneshot rx c) = pending_connect c ∧ control_tx (drop_oneshot rx c) = control_tx c ∧ tx_open (drop_oneshot rx c) = tx_open c.
Proof. unfold drop_oneshot. by destruct (oneshots c !! rx) as [[]|]. Qed.

(** Dropping [rx] only concerns the endpoint that holds it. *)
Lemma inv_dropped s o s' rx :
  peers_inv s o → ctl s' = drop_oneshot rx (ctl s) → notifiers s' = notifiers s → readied s' = readied s → acks s' = acks s →
  ready_misused s ⊆ ready_misused s' → register_misused s ⊆ register_misused s' →
  (∀ e, notifiers s !! e = Some rx → e ∈ ready_misused s') → (∀ e, acks s !! e = Some rx → e ∈ register_misused s') →
  peers_inv s' o.
Proof.
  intros Hinv Hc Hn Hr Ha Hm Hm' Hno Hao. destruct (drop_oneshot_fields rx (ctl s)) as (F1 & F2 & F3 & F4 & F5).
  assert (∀ rx', rx' ≠ rx → shot s' rx' = shot s rx') as Hshot by (intros rx' Hne; unfold shot; rewrite Hc; by apply drop_oneshot_other).
  apply (inv_quiet s); [done| |done|done|done|done|done|by rewrite Hc|by rewrite Hc, F4| |]; rewrite ?Hc, ?F1, ?F2, ?F4.
  - destruct (pi_left s o Hinv). split; rewrite ?Hc, ?Hn, ?Ha, ?F1, ?F2, ?F5, ?drop_oneshot_length; done.
  - intros e He. split_and!; [done|done|]. intros rx' Hrx. apply Hshot. intros ->. by apply He, Hno.
  - intros e He. split_and!; [done|done|]. intros rx' Hrx. apply Hshot. intros ->. by apply He, Hao.
Qed.

Lemma inv_drop_notifier s o e rx :
  peers_inv s o → notifiers s !! e = Some rx → peers_inv (misuse_ready e (set_ctl (drop_oneshot rx (ctl s)) s)) o.
Proof.
  intros Hinv Hn. pose proof (pi_left s o Hinv) as Hs. apply (inv_dropped s o _ rx); [done..|set_solver|set_solver| |]; cbn.
  - intros e' He'. rewrite (nd_notifier_inj s Hs e' e rx He' Hn). set_solver.
  - intros e' He'. by destruct (nd_disjoint s Hs e e' rx).
Qed.

Lemma inv_drop_ack s o e rx :
  peers_inv s o → acks s !! e = Some rx → peers_inv (misuse_register e (set_ctl (drop_oneshot rx (ctl s)) s)) o.
Proof.
  intros Hinv Ha. pose proof (pi_left s o Hinv) as Hs. apply (inv_dropped s o _ rx); [done..|set_solver|set_solver| |]; cbn.
  - intros e' He'. by destruct (nd_disjoint s Hs e' e rx).
  - intros e' He'. rewrite (nd_ack_inj s Hs e' e rx He' Ha). set_solver.
Qed.

Lemma inv_drop_other s o rx :
  peers_inv s o → (∀ e, notifiers s !! e ≠ Some rx ∧ acks s !! e ≠ Some rx) → peers_inv (set_ctl (drop_oneshot rx (ctl s)) s) o.
Proof.
  intros Hinv Hno. apply (inv_dropped s o _ rx); [done..| |]; intros e He; by destruct (Hno e).
Qed.

(** ** Delivery of a message *)

Definition popped (o : Node) (q : list ControlMsg) : Node := set_ctl (set_tx q (ctl o)) o.

Lemma wf_node_tx o q : wf_node o → wf_node (popped o q).
Proof. by apply wf_node_same. Qed.

(** Waking the channel [tx] leaves the other ones alone. *)
Definition woken (tx : nat) (c : Control) : Control := set_oneshots (<[tx := Sent]> (oneshots c)) c.

Lemma shot_woken_ne s c tx rx : oneshots c = oneshots (ctl s) → tx ≠ rx → shot (set_ctl (woken tx c) s) rx = shot s rx.
Proof. intros Hc Hne. unfold shot. cbn. rewrite Hc. by apply list_lookup_insert_ne. Qed.

Lemma shot_woken_eq s c tx : oneshots c = oneshots (ctl s) → (tx < length (oneshots (ctl s)))%nat → shot (set_ctl (woken tx c) s) tx = Some Sent.
Proof. intros Hc Hlt. unfold shot. cbn. rewrite Hc. by rewrite list_lookup_insert_eq. Qed.

(** A sent oneshot changes the channel only. *)
Lemma oneshot_send_cases s c tx :
  oneshots c = oneshots (ctl s) →
  ∃ c' r, oneshot_send tx c = (c', r) ∧ (c' = c ∨ c' = woken tx c) ∧
    (shot s tx = Some Waiting → r = Ok tt ∧ c' = woken tx c) ∧ ∀ rx, tx ≠ rx → shot (set_ctl c' s) rx = shot s rx.
Proof.
  intros Hc. unfold oneshot_send, shot. rewrite Hc. destruct (oneshots (ctl s) !! tx) as [[]|] eqn:E.
  - exists (woken tx c), (Ok tt). unfold woken. rewrite Hc. split_and!; [done|by right|done|]. intros rx Hne. by apply list_lookup_insert_ne.
  - exists c, (Err SenderError). split_and!; [done|by left|done|]. intros rx Hne. cbn. by rewrite Hc.
  - exists c, (Err SenderError). split_and!; [done|by left|done|]. intros rx Hne. cbn. by rewrite Hc.
  - exists c, (Err SenderError). split_and!; [done|by left|done|]. intros rx Hne. cbn. by rewrite Hc.
Qed.

Lemma deliver_register s o e q :
  peers_inv s o → control_tx (ctl o) = RegisterEndpoint e :: q →
  ∃ c r, handle_msg (RegisterEndpoint e) (ctl s) = (c, r) ∧ (e ∉ register_misused o → r = Ok tt) ∧ peers_inv (set_ctl c s) (popped o q).
Proof.
  intros [Hs Ho I1 I2 I3 I4] Hq.
  assert (∃ c r, handle_msg (RegisterEndpoint e) (ctl s) = (c, r) ∧ oneshots c = oneshots (ctl s) ∧ tx_open c = tx_open (ctl s) ∧
    pending_ready c = pending_ready (ctl s) ∧ pending_register_ack c = pending_register_ack (ctl s) ∧
    pending_connect c = {[e]} ∪ pending_connect (ctl s) ∧
    (∀ m, m ≠ EndpointRegistered e → occ m (control_tx c) = occ m (control_tx (ctl s))) ∧
    (e ∉ pending_connect (ctl s) → r = Ok tt ∧ control_tx c = control_tx (ctl s) ++ [EndpointRegistered e]))
    as (c & r & Hc & F1 & F2 & F3 & F4 & F5 & F6 & F7).
  { unfold handle_msg, queue_msg; run_handler. case_bool_decide; cbn; [do 2 eexists; by split_and!|].
    rewrite (nd_open s Hs). do 2 eexists. split_and!; cbn; try done; [by apply Hs|]. intros m Hm. cbn. by rewrite occ_other. }
  assert (e ∉ register_misused o → ∃ rx, acks o !! e = Some rx ∧ occ (RegisterEndpoint e) q = O ∧ (e ∉ pending_connect (ctl s)) ∧
    occ (EndpointRegistered e) (control_tx (ctl s)) = O ∧ pending_register_ack (ctl o) !! e = Some rx ∧ shot o rx = Some Waiting) as Hreg.
  { intros Hm. pose proof (I4 e Hm) as Ie. unfold register_state in Ie. cbn zeta in Ie. rewrite Hq, occ_cons_same in Ie.
    destruct (acks o !! e) as [rx|] eqn:Ha; [|naive_solver]. exists rx. naive_solver. }
  exists c, r. split; [done|]. split; [intros Hm; destruct (Hreg Hm) as (rx & _ & _ & H & _); by apply F7|].
  split; [by apply wf_node_same; rewrite ?F1, ?F3, ?F4|by apply wf_node_tx|intros e' H1..].
  - intros H2. apply (ready_state_frame s o); cbn; [done|by apply F6|done..|by apply I1].
  - intros H2. apply (ready_state_frame o s); cbn; [done|by rewrite Hq, occ_cons_other|done|by rewrite F3| |by apply I2].
    intros rx _. unfold shot. cbn. by rewrite F1.
  - apply (register_state_frame s o); cbn; [done|by rewrite F4| |done|by apply F6|by rewrite Hq, occ_cons_other|by apply I3].
    intros rx _. unfold shot. cbn. by rewrite F1.
  - destruct (decide (e = e')) as [<-|Hne].
    + destruct (Hreg H1) as (rx & R1 & R2 & R3 & R4 & R5 & R6). destruct (F7 R3) as [_ F8].
      unfold register_state. cbn zeta. cbn. rewrite R1, R2, F5, F8, occ_snoc_same, R4. left. split; [right; set_solver|done].
    + apply (register_state_frame o s); cbn; [done|done|done|rewrite F5; set_solver|by rewrite Hq, occ_cons_other by congruence
        |apply F6; congruence|by apply I4].
Qed.

Lemma deliver_ack s o e q :
  peers_inv s o → control_tx (ctl o) = EndpointRegistered e :: q →
  ∃ c r, handle_msg (EndpointRegistered e) (ctl s) = (c, r) ∧ (e ∉ register_misused s → r = Ok tt) ∧ peers_inv (set_ctl c s) (popped o q).
Proof.
  intros [Hs Ho I1 I2 I3 I4] Hq.
  set (c0 := set_register_ack (delete e (pending_register_ack (ctl s))) (ctl s)).
  assert (∃ c r, handle_msg (EndpointRegistered e) (ctl s) = (c, r) ∧
    (c = c0 ∨ ∃ tx, c = woken tx c0) ∧
    (∀ tx, pending_register_ack (ctl s) !! e = Some tx → shot s tx = Some Waiting → r = Ok tt ∧ c = woken tx c0) ∧
    ∀ rx, pending_register_ack (ctl s) !! e ≠ Some rx → shot (set_ctl c s) rx = shot s rx) as (c & r & Hc & F1 & F2 & F3).
  { unfold handle_msg; run_handler. cbn. destruct (pending_register_ack (ctl s) !! e) as [tx|] eqn:Hp.
    - destruct (oneshot_send_cases s c0 tx eq_refl) as (c & r & Hsend & H1 & H2 & H3). exists c, r. split_and!; [exact Hsend|naive_solver|naive_solver|].
      intros rx Hne. apply H3. congruence.
    - exists c0, (Err (UnexpectedAck e)). split_and!; [done|by left|done|done]. }
  assert (e ∉ register_misused s → ∃ rx, acks s !! e = Some rx ∧ occ (RegisterEndpoint e) (control_tx (ctl s)) = O ∧ e ∈ pending_connect (ctl o) ∧
    occ (EndpointRegistered e) q = O ∧ pending_register_ack (ctl s) !! e = Some rx ∧ shot s rx = Some Waiting) as Hreg.
  { intros Hm. pose proof (I3 e Hm) as Ie. unfold register_state in Ie. cbn zeta in Ie. rewrite Hq, occ_cons_same in Ie.
    destruct (acks s !! e) as [rx|] eqn:Ha; [|naive_solver]. exists rx. naive_solver. }
  assert (length (oneshots c) = length (oneshots (ctl s)) ∧ tx_open c = tx_open (ctl s) ∧ pending_ready c = pending_ready (ctl s) ∧
    pending_connect c = pending_connect (ctl s) ∧ control_tx c = control_tx (ctl s) ∧
    pending_register_ack c = delete e (pending_register_ack (ctl s))) as (G1 & G2 & G3 & G4 & G5 & G6)
    by (destruct F1 as [->|[tx ->]]; cbn; by rewrite ?length_insert).
  exists c, r. split; [done|]. split; [intros Hm; destruct (Hreg Hm) as (rx & _ & _ & _ & _ & H1 & H2); by apply (F2 rx)|].
  split; [apply wf_node_same; rewrite ?G3, ?G6; try done; by intros e' tx [_ ?]%lookup_delete_Some|by apply wf_node_tx|intros e' H1..].
  - intros H2. apply (ready_state_frame s o); cbn; [done|by rewrite G5|done..|by apply I1].
  - intros H2. apply (ready_state_frame o s); [done|cbn; by rewrite Hq, occ_cons_other|done|cbn; by rewrite G3| |by apply I2].
    intros rx Hrx. apply F3. intros H%(nd_register s Hs). by apply H in Hrx.
  - destruct (decide (e = e')) as [<-|Hne].
    + destruct (Hreg H1) as (rx & R1 & R2 & R3 & R4 & R5 & R6). destruct (F2 rx R5 R6) as [_ ->].
      unfold register_state. cbn zeta. cbn [acks set_ctl]. rewrite R1, shot_woken_eq by (done || by eapply (nd_ack s Hs)).
      cbn. rewrite R2, R4. right. by rewrite lookup_delete_eq.
    + apply (register_state_frame s o); [done|cbn; by rewrite G6, lookup_delete_ne| |done|cbn; by rewrite G5
        |cbn; by rewrite Hq, occ_cons_other by congruence|by apply I3].
      intros rx Hrx. apply F3. intros H%(nd_register s Hs). by apply H in Hrx.
  - apply (register_state_frame o s); [done|done|done|cbn; by rewrite G4|cbn; by rewrite Hq, occ_cons_other|cbn; by rewrite G5|by apply I4].
Qed.

(** What handling [Ready e] does, in any state *)
Lemma handle_ready_cases s e :
  ∃ c r, handle_msg (Ready e) (ctl s) = (c, r) ∧ length (oneshots c) = length (oneshots (ctl s)) ∧ tx_open c = tx_open (ctl s) ∧
    control_tx c = control_tx (ctl s) ∧ pending_register_ack c = pending_register_ack (ctl s) ∧ pending_connect c = pending_connect (ctl s) ∧
    (∀ e', e ≠ e' → pending_ready c !! e' = pending_ready (ctl s) !! e') ∧ (∀ tx, pending_ready c !! e ≠ Some (AwaitingRemote tx)) ∧
    (∀ rx, pending_ready (ctl s) !! e ≠ Some (AwaitingRemote rx) → shot (set_ctl c s) rx = shot s rx) ∧
    (pending_ready (ctl s) !! e = None → r = Ok tt ∧ pending_ready c !! e = Some AwaitingLocal) ∧
    (∀ tx, pending_ready (ctl s) !! e = Some (AwaitingRemote tx) → shot s tx = Some Waiting →
       r = Ok tt ∧ pending_ready c !! e = None ∧ shot (set_ctl c s) tx = Some Sent).
Proof.
  set (c0 := set_ready (delete e (pending_ready (ctl s))) (ctl s)).
  unfold handle_msg; run_handler. cbn. destruct (pending_ready (ctl s) !! e) as [[|tx]|] eqn:Hp.
  - exists c0, (Err (MultipleReady e)). split_and!; cbn; try done; [intros e' Hne; by rewrite lookup_delete_ne|by rewrite lookup_delete_eq].
  - destruct (oneshot_send_cases s c0 tx eq_refl) as (c & r & Hsend & H1 & H2 & H3). exists c, r.
    assert (pending_ready c = pending_ready c0) as Hpr by (destruct H1 as [->| ->]; done).
    split_and!; [exact Hsend|destruct H1 as [->| ->]; cbn; by rewrite ?length_insert|by destruct H1 as [->| ->]..| | | |done|].
    + intros e' Hne. rewrite Hpr. cbn. by rewrite lookup_delete_ne.
    + intros tx'. rewrite Hpr. cbn. by rewrite lookup_delete_eq.
    + intros rx Hne. apply H3. congruence.
    + intros tx' [= <-] Hw. destruct (H2 Hw) as [-> ->]. split_and!; [done|cbn; by rewrite lookup_delete_eq|].
      apply shot_woken_eq; [done|]. by eapply lookup_lt_Some.
  - cbn. rewrite lookup_delete_eq. cbn. do 2 eexists. split_and!; cbn; try done.
    + intros e' Hne. cbn. by rewrite lookup_insert_ne, lookup_delete_ne by done.
    + intros tx. cbn. by rewrite lookup_insert_eq.
    + cbn. by rewrite lookup_insert_eq.
Qed.

Lemma deliver_ready s o e q :
  peers_inv s o → control_tx (ctl o) = Ready e :: q →
  ∃ c r, handle_msg (Ready e) (ctl s) = (c, r) ∧ (e ∉ ready_misused s → e ∉ ready_misused o → r = Ok tt) ∧
    peers_inv (set_ctl c s) (popped o q).
Proof.
  intros [Hs Ho I1 I2 I3 I4] Hq. destruct (handle_ready_cases s e) as (c & r & Hc & F1 & F2 & F3 & F4 & F5 & F6 & F7 & F8 & F9 & F10).
  assert (e ∉ ready_misused s → e ∉ ready_misused o → (r = Ok tt) ∧ e ∈ readied o ∧ occ (Ready e) q = O ∧
    match notifiers s !! e with
    | None => pending_ready c !! e = Some AwaitingLocal
    | Some rx => pending_ready c !! e = None ∧ shot (set_ctl c s) rx = Some Sent
    end) as Hreg.
  { intros H1 H2. pose proof (I2 e H2 H1) as Ie. unfold ready_state in Ie. cbn zeta in Ie. rewrite Hq, occ_cons_same in Ie.
    destruct Ie as [[[[_ Hn]|[Hr Hn]] Hp]|[[_ Hn] _]]; [done| |done]. injection Hn as Hn.
    destruct (notifiers s !! e) as [rx|]; [destruct Hp as [Hp Hw]; by destruct (F10 rx Hp Hw) as (? & ? & ?)|by destruct (F9 Hp)]. }
  exists c, r. split; [done|]. split; [intros H1 H2; by apply Hreg|].
  split; [apply wf_node_same; [done|done| |by rewrite F4|done]|by apply wf_node_tx|intros e' H1..].
  - intros e' tx H. destruct (decide (e = e')) as [<-|Hne]; [by apply F7 in H|by rewrite <- F6].
  - intros H2. apply (ready_state_frame s o); cbn; [done|by rewrite F3|done..|by apply I1].
  - intros H2. destruct (decide (e = e')) as [<-|Hne].
    + destruct (Hreg H2 H1) as (_ & R1 & R2 & R3). right. cbn. by rewrite R2.
    + apply (ready_state_frame o s); [done|cbn; by rewrite Hq, occ_cons_other by congruence|done|by apply F6| |by apply I2].
      intros rx Hrx. apply F8. intros H%(nd_ready s Hs). by apply H in Hrx.
  - apply (register_state_frame s o); cbn; [done|by rewrite F4| |done|by rewrite F3|by rewrite Hq, occ_cons_other|by apply I3].
    intros rx Hrx. apply F8. intros H%(nd_ready s Hs). by apply H in Hrx.
  - apply (register_state_frame o s); cbn; [done|done|done|by rewrite F5|by rewrite Hq, occ_cons_other|by rewrite F3|by apply I4].
Qed.

(** The endpoint of a message from [o] is in regular use. *)
Definition in_use (s o : Node) (m : ControlMsg) : Prop :=
  match m with
  | RegisterEndpoint e => e ∉ register_misused o
  | EndpointRegistered e => e ∉ register_misused s
  | Ready e => e ∉ ready_misused s ∪ ready_misused o
  end.

Lemma deliver_msg s o m q :
  peers_inv s o → control_tx (ctl o) = m :: q →
  ∃ c r, handle_msg m (ctl s) = (c, r) ∧ (in_use s o m → r = Ok tt) ∧ peers_inv (set_ctl c s) (popped o q).
Proof.
  intros Hinv Hq. destruct m as [e|e|e]; [by apply deliver_register|by apply deliver_ack|].
  destruct (deliver_ready s o e q Hinv Hq) as (c & r & Hc & Hr & Hinv'). exists c, r. split_and!; [done| |done].
  cbn. intros H. apply Hr; set_solver.
Qed.

Lemma inv_step s o s' o' : peers_inv s o → side_step s o s' o' → peers_inv s' o'.
Proof.
  intros Hinv Hstep. pose proof (nd_open s (pi_left s o Hinv)) as Hopen.
  destruct Hstep as [e c n Hn Hc|e rx c Hn Hr Hc|e c rx Ha Hc|m q c r Hq Hc|e c err Hc|e c err Hc|e c n Hc|e rx c r He Hc|e c rx Hc
    |e Hp|e rx Hn _|e rx Ha _|rx Hno].
  - destruct (register_ready_notifier_cases e (ctl s)) as [H|H]; rewrite H in Hc; [done|]. injection Hc as <- <-. by apply inv_notifier.
  - unfold ready, queue_msg in Hc. rewrite Hopen in Hc. injection Hc as <-. by eapply inv_ready.
  - destruct (register_endpoint_cases e (ctl s) Hopen) as [H|H]; rewrite H in Hc; [done|]. injection Hc as <- <-. by apply inv_register.
  - destruct (deliver_msg s o m q Hinv Hq) as (c' & r' & Hc' & _ & Hinv'). rewrite Hc' in Hc. by injection Hc as <- <-.
  - destruct (register_ready_notifier_cases e (ctl s)) as [H|H]; rewrite H in Hc; [|done]. injection Hc as <- <-. by destruct s.
  - destruct (register_endpoint_cases e (ctl s) Hopen) as [H|H]; rewrite H in Hc; [|done]. injection Hc as <- <-. by destruct s.
  - destruct (register_ready_notifier_cases e (ctl s)) as [H|H]; rewrite H in Hc; [done|]. injection Hc as <- <-. by apply inv_notifier_again.
  - unfold ready, queue_msg in Hc. rewrite Hopen in Hc. injection Hc as <- <-. by apply inv_ready_again.
  - destruct (register_endpoint_cases e (ctl s) Hopen) as [H|H]; rewrite H in Hc; [done|]. injection Hc as <- <-.
    apply (inv_register_again s o e Waiting); [done..|by right].
  - apply (inv_register_again s o e Dropped); [done..|by left].
  - by eapply inv_drop_notifier.
  - by eapply inv_drop_ack.
  - by apply inv_drop_other.
Qed.

Lemma inv_reachable s o : peers s o → peers_inv s o.
Proof.
  induction 1 as [|s o s' o' _ IH Hstep|s o s' o' _ IH Hstep]; [apply peers_inv_start|by eapply inv_step|].
  apply peers_inv_sym. eapply inv_step; [by apply peers_inv_sym|done].
Qed.

Lemma occ_zero m l : occ m l = O ↔ m ∉ l.
Proof.
  induction l as [|m' l IH]; [split; [set_solver|done]|]. rewrite occ_cons. case_bool_decide; cbn; [set_solver|].
  rewrite IH. set_solver.
Qed.

(** A call of [ready] returns when the other side has called [ready] and its
    message has been handled. *)
Lemma ready_returns_iff s o e rx :
  peers_inv s o → e ∉ ready_misused s ∪ ready_misused o → notifiers s !! e = Some rx →
  oneshot_poll rx (ctl s) = true ↔ e ∈ readied o ∧ Ready e ∉ control_tx (ctl o).
Proof.
  intros Hinv Hm Hn. unfold oneshot_poll. rewrite bool_decide_eq_true, <- occ_zero. fold (shot s rx).
  destruct (pi_ready' s o Hinv e ltac:(set_solver) ltac:(set_solver)) as [[[[? ?]|[? ?]] H]|[[? ?] H]]; rewrite Hn in H; destruct H as [_ ->]; naive_solver lia.
Qed.

(** While it waits, the state holds its sending end. *)
Lemma waiting_notifier s o e rx :
  peers_inv s o → e ∉ ready_misused s ∪ ready_misused o → notifiers s !! e = Some rx → oneshot_poll rx (ctl s) = false →
  pending_ready (ctl s) !! e = Some (AwaitingRemote rx) ∧ shot s rx = Some Waiting.
Proof.
  intros Hinv Hm Hn Hp. unfold oneshot_poll in Hp. rewrite bool_decide_eq_false in Hp. fold (shot s rx) in Hp.
  destruct (pi_ready' s o Hinv e ltac:(set_solver) ltac:(set_solver)) as [[_ H]|[_ H]]; rewrite Hn in H; naive_solver.
Qed.

(** A [Ready] message for a dropped notifier *)
Lemma handle_ready_dropped s e rx :
  pending_ready (ctl s) !! e = Some (AwaitingRemote rx) → shot s rx = Some Waiting →
  (handle_msg (Ready e) (drop_oneshot rx (ctl s))).2 = Err SenderError.
Proof.
  intros Hp Hw. unfold drop_oneshot. unfold shot in Hw. rewrite Hw. unfold handle_msg, oneshot_send; run_handler. cbn. rewrite Hp. cbn.
  rewrite list_lookup_insert_eq; [done|]. by eapply lookup_lt_Some.
Qed.

(** ** Properties *)

(** C15: the ready handshake, in every reachable state of two sides whose
    control tasks run, whatever the order of the calls, of the messages and of
    the drops.  Handling a message never panics, and succeeds when the endpoint
    is in regular use: taken once on a side, and no waiting receiver of it
    dropped; what happens to other endpoints does not matter.  For an endpoint
    used like this by both sides, the first request of a notifier succeeds, a
    call of [ready] returns exactly when the other side has called [ready] on it
    and the message has been handled, and as long as it has not returned a second
    request is refused without effect.  If the waiting notifier is dropped, the
    [Ready] message of the other side fails with the sender error. *)
Theorem control_ready_rendezvous s o :
  peers s o →
  (∀ m q, control_tx (ctl o) = m :: q → (handle_msg m (ctl s)).2 ≠ Panic ∧ (in_use s o m → (handle_msg m (ctl s)).2 = Ok tt)) ∧
  (∀ e, e ∉ ready_misused s ∪ ready_misused o → notifiers s !! e = None → ∃ c n, register_ready_notifier e (ctl s) = (c, Ok n)) ∧
  (∀ e rx, e ∉ ready_misused s ∪ ready_misused o → notifiers s !! e = Some rx →
     (oneshot_poll rx (ctl s) = true ↔ e ∈ readied o ∧ Ready e ∉ control_tx (ctl o)) ∧
     (oneshot_poll rx (ctl s) = false →
        register_ready_notifier e (ctl s) = (ctl s, Err (AlreadyRegisteredForReady e)) ∧
        (handle_msg (Ready e) (drop_oneshot rx (ctl s))).2 = Err SenderError)).
Proof.
  intros Hinv%inv_reachable. split_and!.
  - intros m q Hq. split; [apply handle_msg_no_panic|]. intros Hu.
    destruct (deliver_msg s o m q Hinv Hq) as (c & r & -> & Hr & _). by rewrite (Hr Hu).
  - intros e Hm Hn. rewrite (register_ready_notifier_ok e); [eauto|]. apply (notifier_free s o e Hinv); [set_solver..|done].
  - intros e rx Hm Hn. split; [by apply ready_returns_iff|]. intros Hp. destruct (waiting_notifier s o e rx Hinv Hm Hn Hp) as [H1 H2].
    split; [by eapply register_ready_notifier_refused|by apply handle_ready_dropped].
Qed.

(** Registrations: in every reachable state a new registration is accepted,
    and a pending call of [register_endpoint] that is kept returns exactly when
    the other side has recorded the endpoint and its acknowledgement has been
    handled. *)
Theorem control_registration_acknowledged s o :
  peers s o →
  (∀ e, e ∉ register_misused s → acks s !! e = None → ∃ c rx, register_endpoint e (ctl s) = (c, Ok rx)) ∧
  (∀ e rx, e ∉ register_misused s → acks s !! e = Some rx →
     oneshot_poll rx (ctl s) = true ↔ e ∈ pending_connect (ctl o) ∧ EndpointRegistered e ∉ control_tx (ctl o)).
Proof.
  intros Hinv%inv_reachable. split.
  - intros e Hm Ha. rewrite (register_endpoint_ok e _ (nd_open s (pi_left s o Hinv)) (register_free s o e Hinv Hm Ha)). eauto.
  - intros e rx Hm Ha. unfold oneshot_poll. rewrite bool_decide_eq_true, <- occ_zero. fold (shot s rx).
    pose proof (pi_register s o Hinv e Hm) as H. unfold register_state in H. cbn zeta in H. rewrite Ha in H.
    destruct H as [[[(? & ? & ?)|(? & ? & ?)] [_ ->]]|[(? & ? & ?) [_ ->]]]; naive_solver lia.
Qed.

(** A duplicate [Ready] is reported as an error but also erases the first
    one: a notifier asked for afterwards waits, although the peer is ready. *)
Theorem control_duplicate_ready_forgotten c e :
  pending_ready c !! e = None →
  ∃ c1 c2 c3 n,
    handle_msg (Ready e) c = (c1, Ok tt) ∧ handle_msg (Ready e) c1 = (c2, Err (MultipleReady e)) ∧
    register_ready_notifier e c2 = (c3, Ok n) ∧ oneshot_poll (rn_rx n) c3 = false.
Proof.
  intros Hp. unfold handle_msg, rassert; run_handler. rewrite Hp. cbn. rewrite lookup_delete_eq. cbn.
  do 4 eexists. split; [done|]. cbn. rewrite lookup_insert_eq. split; [done|].
  rewrite register_ready_notifier_ok by (intros tx; cbn; by rewrite lookup_delete_eq). split; [done|].
  unfold notified, oneshot_poll. cbn. rewrite lookup_delete_eq. cbn. by rewrite lookup_app_r, Nat.sub_diag by lia.
Qed.

Lemma control_duplicate_ready_forgotten_witness :
  ∃ c1 c2 c3 n,
    handle_msg (Ready 5) control_start = (c1, Ok tt) ∧ handle_msg (Ready 5) c1 = (c2, Err (MultipleReady 5)) ∧
    register_ready_notifier 5 c2 = (c3, Ok n) ∧ oneshot_poll (rn_rx n) c3 = false.
Proof. apply (control_duplicate_ready_forgotten control_start 5). reflexivity. Defined.

(** *** A run: the left side registers endpoint 2, both sides become ready; then
    it drops the notifier of endpoint 7 and takes one for endpoint 9 *)

Definition l1 : Node := add_ack 2 0 (set_ctl (register_endpoint 2 (ctl node_start)).1 node_start).
Definition r1 : Node := set_ctl (handle_msg (RegisterEndpoint 2) (ctl node_start)).1 node_start.
Definition l2 : Node := set_ctl (handle_msg (EndpointRegistered 2) (ctl (popped l1 []))).1 (popped l1 []).
Definition l3 : Node := add_notifier 2 1 (set_ctl (register_ready_notifier 2 (ctl l2)).1 l2).
Definition l4 : Node := add_readied 2 (set_ctl (ready {| rn_endpoint_id := 2; rn_rx := 1 |} (ctl l3)).1 l3).
Definition r2 : Node := set_ctl (handle_msg (Ready 2) (ctl (popped r1 []))).1 (popped r1 []).
Definition r3 : Node := add_notifier 2 0 (set_ctl (register_ready_notifier 2 (ctl r2)).1 r2).
Definition r4 : Node := add_readied 2 (set_ctl (ready {| rn_endpoint_id := 2; rn_rx := 0 |} (ctl r3)).1 r3).
Definition l5 : Node := set_ctl (handle_msg (Ready 2) (ctl (popped l4 []))).1 (popped l4 []).

Definition l6 : Node := add_notifier 7 2 (set_ctl (register_ready_notifier 7 (ctl l5)).1 l5).
Definition l7 : Node := misuse_ready 7 (set_ctl (drop_oneshot 2 (ctl l6)) l6).
Definition l8 : Node := add_notifier 9 3 (set_ctl (register_ready_notifier 9 (ctl l7)).1 l7).

Lemma sample_peers : peers l5 (popped r4 []).
Proof.
  eapply peers_left; [|by eapply (side_deliver (popped l4 []) r4 (Ready 2) [])].
  eapply peers_right; [|by eapply (side_ready r3 (popped l4 []) 2 0)].
  eapply peers_right; [|by eapply (side_notifier r2 (popped l4 []) 2 _ {| rn_endpoint_id := 2; rn_rx := 0 |})].
  eapply peers_right; [|by eapply (side_deliver (popped r1 []) l4 (Ready 2) [])].
  eapply peers_left; [|by eapply (side_ready l3 (popped r1 []) 2 1)].
  eapply peers_left; [|by eapply (side_notifier l2 (popped r1 []) 2 _ {| rn_endpoint_id := 2; rn_rx := 1 |})].
  eapply peers_left; [|by eapply (side_deliver (popped l1 []) r1 (EndpointRegistered 2) [])].
  eapply peers_right; [|by eapply (side_deliver node_start l1 (RegisterEndpoint 2) [])].
  eapply peers_left; [constructor|by eapply (side_register node_start node_start 2)].
Qed.

Lemma sample_peers_drop : peers l8 (popped r4 []).
Proof.
  eapply peers_left; [|eapply (side_notifier l7 (popped r4 []) 9 (register_ready_notifier 9 (ctl l7)).1 {| rn_endpoint_id := 9; rn_rx := 3 |});
    vm_compute; reflexivity].
  eapply peers_left; [|eapply (side_drop_notifier l6 (popped r4 []) 7 2); vm_compute; reflexivity].
  eapply peers_left; [|eapply (side_notifier l5 (popped r4 []) 7 (register_ready_notifier 7 (ctl l5)).1 {| rn_endpoint_id := 7; rn_rx := 2 |});
    vm_compute; reflexivity].
  apply sample_peers.
Qed.

Lemma control_ready_rendezvous_witness :
  (2 ∈ readied (popped r4 []) ∧ Ready 2 ∉ control_tx (ctl (popped r4 []))) ∧
  (handle_msg (Ready 9) (drop_oneshot 3 (ctl l8))).2 = Err SenderError.
Proof.
  destruct (control_ready_rendezvous l8 (popped r4 []) sample_peers_drop) as (_ & _ & Hr). split.
  - apply (Hr 2 1%nat); [apply (bool_decide_unpack _); vm_compute; exact I|vm_compute; reflexivity..].
  - apply (Hr 9 3%nat); [apply (bool_decide_unpack _); vm_compute; exact I|vm_compute; reflexivity..].
Defined.

Lemma control_registration_acknowledged_witness :
  2 ∈ pending_connect (ctl (popped r4 [])) ∧ EndpointRegistered 2 ∉ control_tx (ctl (popped r4 [])).
Proof.
  destruct (control_registration_acknowledged l5 (popped r4 []) sample_peers) as (_ & Hr).
  apply (Hr 2 0%nat); [apply (bool_decide_unpack _); vm_compute; exact I|vm_compute; reflexivity..].
Defined.
