(* ===== verification/Router.v ===== *)
(** * The router

    Models [kyproto/src/router.rs]: the table of registered endpoints, the three
    loops that hand incoming streams and datagrams to the endpoint they name,
    and the channel of an endpoint with its bounded queues.  A loop that waits
    for room in a queue is a state of its own, so that everything else may
    happen meanwhile. *)

From stdpp Require Import prelude list gmap strings.
From Stdlib Require Import ZArith Lia.
From S2P Require Import Prelude Io Av Packets Channel.
Open Scope Z_scope.

(** A bounded [mpsc] queue *)
Record Mpsc (A : Type) := { mq : list A; capacity : nat; rx_open : bool }.
Arguments mq {A}.
Arguments capacity {A}.
Arguments rx_open {A}.

Definition mpsc_channel {A} (capacity : nat) : Mpsc A := {| mq := []; capacity := capacity; rx_open := true |}.
Definition mpsc_push {A} (x : A) (c : Mpsc A) : Mpsc A := {| mq := mq c ++ [x]; capacity := capacity c; rx_open := rx_open c |}.
Definition mpsc_pop {A} (c : Mpsc A) : Mpsc A := {| mq := tail (mq c); capacity := capacity c; rx_open := rx_open c |}.
Definition mpsc_close {A} (c : Mpsc A) : Mpsc A := {| mq := []; capacity := capacity c; rx_open := false |}.

Inductive EndpointAlreadyRegistered := endpoint_already_registered (endpoint_id : Z).

(** The queues shared by a [RouterClient] and its [KyChannel] *)
Record RouterClient := {
  client_id : Z;
  unistreams : Mpsc Reader;
  bistreams : Mpsc (Writer * Reader);
  datagrams : Mpsc bytes;
}.

(** A routing loop: waiting for the connection, waiting for room in the queue of
    a client, or ended by an error *)
Inductive Loop (A : Type) :=
| Accepting
| Sending (client : nat) (item : A)
| Stopped (error : string).
Arguments Accepting {A}.
Arguments Sending {A}.
Arguments Stopped {A}.

(** The table maps an endpoint id to its queues, kept in an arena because a loop
    and a channel may still hold them after the entry is gone. *)
Record Router := {
  clients : gmap Z nat;
  queues : list RouterClient;
  accept_uni_task : Loop Reader;
  accept_bi_task : Loop (Writer * Reader);
  recv_datagrams_task : Loop bytes;
}.

Definition router_start : Router :=
  {| clients := ∅; queues := []; accept_uni_task := Accepting; accept_bi_task := Accepting; recv_datagrams_task := Accepting |}.

Definition set_clients (m : gmap Z nat) (r : Router) : Router :=
  {| clients := m; queues := queues r; accept_uni_task := accept_uni_task r; accept_bi_task := accept_bi_task r;
     recv_datagrams_task := recv_datagrams_task r |}.
Definition set_queues (l : list RouterClient) (r : Router) : Router :=
  {| clients := clients r; queues := l; accept_uni_task := accept_uni_task r; accept_bi_task := accept_bi_task r;
     recv_datagrams_task := recv_datagrams_task r |}.
Definition set_uni (t : Loop Reader) (r : Router) : Router :=
  {| clients := clients r; queues := queues r; accept_uni_task := t; accept_bi_task := accept_bi_task r;
     recv_datagrams_task := recv_datagrams_task r |}.
Definition set_bi (t : Loop (Writer * Reader)) (r : Router) : Router :=
  {| clients := clients r; queues := queues r; accept_uni_task := accept_uni_task r; accept_bi_task := t;
     recv_datagrams_task := recv_datagrams_task r |}.
Definition set_datagrams (t : Loop bytes) (r : Router) : Router :=
  {| clients := clients r; queues := queues r; accept_uni_task := accept_uni_task r; accept_bi_task := accept_bi_task r;
     recv_datagrams_task := t |}.

Definition on_uni (f : Mpsc Reader → Mpsc Reader) (c : RouterClient) : RouterClient :=
  {| client_id := client_id c; unistreams := f (unistreams c); bistreams := bistreams c; datagrams := datagrams c |}.
Definition on_bi (f : Mpsc (Writer * Reader) → Mpsc (Writer * Reader)) (c : RouterClient) : RouterClient :=
  {| client_id := client_id c; unistreams := unistreams c; bistreams := f (bistreams c); datagrams := datagrams c |}.
Definition on_datagrams (f : Mpsc bytes → Mpsc bytes) (c : RouterClient) : RouterClient :=
  {| client_id := client_id c; unistreams := unistreams c; bistreams := bistreams c; datagrams := f (datagrams c) |}.

(** [Router::register]; the channel is the index of its queues *)
Definition register (endpoint_id : Z) : handler Router EndpointAlreadyRegistered nat := λ r,
  match clients r !! endpoint_id with
  | Some _ => (r, Err (endpoint_already_registered endpoint_id))
  | None =>
      let c := {| client_id := endpoint_id; unistreams := mpsc_channel 8; bistreams := mpsc_channel 8; datagrams := mpsc_channel 16 |} in
      (set_clients (<[endpoint_id := length (queues r)]> (clients r)) (set_queues (queues r ++ [c]) r), Ok (length (queues r)))
  end.

Definition read_endpoint_id (recv : Reader) : io (Z * Reader) :=
  '(raw, recv) ← read_exact 2 recv;
  Ok (read_be raw, recv).

Definition write_endpoint_id (endpoint_id : Z) : writing unit :=
  _ ← write_all (be_bytes 2 endpoint_id); flush.

(** [accept_channels_uni], a stream accepted *)
Definition accept_uni (recv : Reader) (r : Router) : Router :=
  match read_endpoint_id recv with
  | Ok (endpoint_id, recv) =>
      match clients r !! endpoint_id with
      | Some c => set_uni (Sending c recv) r
      | None => set_uni (Stopped ("accept_uni: unknown channel id: " +:+ decimal endpoint_id)) r
      end
  | _ => r
  end.

(** [accept_channels_bi], a stream accepted *)
Definition accept_bi (send : Writer) (recv : Reader) (r : Router) : Router :=
  match read_endpoint_id recv with
  | Ok (endpoint_id, recv) =>
      match clients r !! endpoint_id with
      | Some c => set_bi (Sending c (send, recv)) r
      | None => set_bi (Stopped ("accept_bi: unknown channel id: " +:+ decimal endpoint_id)) r
      end
  | _ => r
  end.

(** [recv_channels_datagrams], a datagram received *)
Definition recv_datagram (datagram : bytes) (r : Router) : Router :=
  if (2 <=? length datagram)%nat then
    match clients r !! read_be (take 2 datagram) with
    | Some c => set_datagrams (Sending c datagram) r
    | None => r
    end
  else r.

(** [tx.send(item).await] at the end of an iteration: [None] while the queue is
    full *)
Definition complete {A} (get : RouterClient → Mpsc A) (set : (Mpsc A → Mpsc A) → RouterClient → RouterClient) (error : string)
    (t : Loop A) (qs : list RouterClient) : option (Loop A * list RouterClient) :=
  match t with
  | Sending c item =>
      match qs !! c with
      | Some client =>
          if rx_open (get client) then
            if (length (mq (get client)) <? capacity (get client))%nat then Some (Accepting, <[c := set (mpsc_push item) client]> qs)
            else None
          else Some (Stopped error, qs)
      | None => None
      end
  | _ => None
  end.

Definition complete_uni (r : Router) : option Router :=
  '(t, qs) ← complete unistreams on_uni "accept_uni: channel closed" (accept_uni_task r) (queues r); Some (set_uni t (set_queues qs r)).
Definition complete_bi (r : Router) : option Router :=
  '(t, qs) ← complete bistreams on_bi "accept_bi: channel closed" (accept_bi_task r) (queues r); Some (set_bi t (set_queues qs r)).
Definition complete_datagram (r : Router) : option Router :=
  '(t, qs) ← complete datagrams on_datagrams "recv_datagram: channel closed" (recv_datagrams_task r) (queues r);
  Some (set_datagrams t (set_queues qs r)).

(** ** Channels *)

(** [KyChannelRecv::recv_] on a queue that has an item *)
Definition recv_ {A} (get : RouterClient → Mpsc A) (set : (Mpsc A → Mpsc A) → RouterClient → RouterClient) (channel : nat) (r : Router) :
    option (A * Router) :=
  client ← queues r !! channel;
  item ← head (mq (get client));
  Some (item, set_queues (<[channel := set mpsc_pop client]> (queues r)) r).

(** Dropping the receivers of a channel, before its [KyChannelDropper] *)
Definition drop_receivers (channel : nat) (r : Router) : Router :=
  match queues r !! channel with
  | Some c => set_queues (<[channel := on_uni mpsc_close (on_bi mpsc_close (on_datagrams mpsc_close c))]> (queues r)) r
  | None => r
  end.

(** [impl Drop for KyChannelDropper] *)
Definition drop_channel (endpoint_id : Z) : handler Router Empty_set unit := λ r,
  (set_clients (delete endpoint_id (clients r)) r, rassert (bool_decide (is_Some (clients r !! endpoint_id)))).

(** [KyChannelSend::open_uni_], on the stream that [kynet] opens *)
Definition open_uni_ (endpoint_id : Z) (send : Writer) : Writer * io unit := write_endpoint_id endpoint_id send.

(** [KyChannelSend::open_bi_], on the pair of streams that [kynet] opens *)
Definition open_bi_ (endpoint_id : Z) (send : Writer) (recv : Reader) : Writer * io Reader :=
  let '(send, r) := write_endpoint_id endpoint_id send in
  (send, _ ← r; Ok recv).
