(* ===== verification/RouterDemux.v ===== *)
(** * What reaches an endpoint

    The router, its connection and the users of its channels as a step relation.
    While an endpoint is registered, the datagrams its user receives, those in
    its queue and the one the loop holds are together the datagrams that named
    it, in order. *)

From stdpp Require Import prelude list gmap strings relations functions.
From Stdlib Require Import ZArith Lia.
From S2P Require Import Prelude Io Av Packets Channel Router.
Open Scope Z_scope.

Record World := {
  router : Router;
  held : gmap nat Z;             (* channels not dropped yet, with their endpoint *)
  arrivals : list bytes;         (* datagrams the loop took from the connection *)
  since : nat → nat;             (* datagrams taken before the channel existed *)
  received : nat → list bytes;   (* datagrams its user received *)
  accepted : list Reader;        (* streams the loop took from the connection *)
  streams : nat → list Reader;   (* streams its user accepted *)
}.

Definition world_start : World :=
  {| router := router_start; held := ∅; arrivals := []; since := λ _, O; received := λ _, [];
     accepted := []; streams := λ _, [] |}.

Definition with_router (r : Router) (w : World) : World :=
  {| router := r; held := held w; arrivals := arrivals w; since := since w; received := received w;
     accepted := accepted w; streams := streams w |}.

Definition with_streams (a : list Reader) (st : nat → list Reader) (w : World) : World :=
  {| router := router w; held := held w; arrivals := arrivals w; since := since w; received := received w; accepted := a; streams := st |}.

Inductive world_step (w : World) : World → Prop :=
| w_register e r c :
    register e (router w) = (r, Ok c) →
    world_step w {| router := r; held := <[c := e]> (held w); arrivals := arrivals w;
                    since := <[c := length (arrivals w)]> (since w); received := <[c := []]> (received w);
                    accepted := accepted w; streams := <[c := []]> (streams w) |}
| w_datagram d :
    recv_datagrams_task (router w) = Accepting →
    world_step w {| router := recv_datagram d (router w); held := held w; arrivals := arrivals w ++ [d];
                    since := since w; received := received w; accepted := accepted w; streams := streams w |}
| w_uni s :
    accept_uni_task (router w) = Accepting →
    world_step w (with_streams (accepted w ++ [s]) (streams w) (with_router (accept_uni s (router w)) w))
| w_bi s1 s2 : accept_bi_task (router w) = Accepting → world_step w (with_router (accept_bi s1 s2 (router w)) w)
| w_complete_datagram r : complete_datagram (router w) = Some r → world_step w (with_router r w)
| w_complete_uni r : complete_uni (router w) = Some r → world_step w (with_router r w)
| w_complete_bi r : complete_bi (router w) = Some r → world_step w (with_router r w)
| w_recv c e d r :
    held w !! c = Some e → recv_ datagrams on_datagrams c (router w) = Some (d, r) →
    world_step w {| router := r; held := held w; arrivals := arrivals w; since := since w;
                    received := <[c := received w c ++ [d]]> (received w);
                    accepted := accepted w; streams := streams w |}
| w_recv_uni c e s r :
    held w !! c = Some e → recv_ unistreams on_uni c (router w) = Some (s, r) →
    world_step w (with_streams (accepted w) (<[c := streams w c ++ [s]]> (streams w)) (with_router r w))
| w_recv_bi c e s r :
    held w !! c = Some e → recv_ bistreams on_bi c (router w) = Some (s, r) → world_step w (with_router r w)
| w_drop_receivers c e : held w !! c = Some e → world_step w (with_router (drop_receivers c (router w)) w)
| w_drop c e r o :
    held w !! c = Some e → drop_channel e (router w) = (r, o) →
    world_step w {| router := r; held := delete c (held w); arrivals := arrivals w; since := since w; received := received w; accepted := accepted w; streams := streams w |}.

Definition addressed (e : Z) (d : bytes) : Prop := (2 ≤ length d)%nat ∧ read_be (take 2 d) = e.

#[export] Instance addressed_dec e d : Decision (addressed e d).
Proof. unfold addressed. apply _. Defined.

Definition in_flight (c : nat) (t : Loop bytes) : list bytes :=
  match t with Sending c' d => if decide (c = c') then [d] else [] | _ => [] end.

(** ** The invariant *)

Definition demuxed (w : World) (e : Z) (c : nat) (q : Mpsc bytes) : Prop :=
  received w c ++ mq q ++ in_flight c (recv_datagrams_task (router w)) = filter (addressed e) (drop (since w c) (arrivals w)).

Record world_inv (w : World) : Prop := {
  wi_held e c : clients (router w) !! e = Some c ↔ held w !! c = Some e;
  wi_range c e : held w !! c = Some e → (c < length (queues (router w)) ∧ since w c ≤ length (arrivals w))%nat;
  wi_sending c d : recv_datagrams_task (router w) = Sending c d → (c < length (queues (router w)))%nat;
  wi_demux e c cl :
    clients (router w) !! e = Some c → queues (router w) !! c = Some cl → rx_open (datagrams cl) = true →
    demuxed w e c (datagrams cl);
}.

Lemma world_inv_start : world_inv world_start.
Proof. split; cbn; [intros; by rewrite !lookup_empty|intros *; by rewrite lookup_empty|done|intros *; by rewrite lookup_empty]. Qed.

(** Steps that touch neither the table nor the datagrams *)
Lemma world_inv_frame w r :
  clients r = clients (router w) → recv_datagrams_task r = recv_datagrams_task (router w) →
  length (queues r) = length (queues (router w)) →
  (∀ c cl, queues r !! c = Some cl → rx_open (datagrams cl) = true → ∃ cl', queues (router w) !! c = Some cl' ∧ datagrams cl' = datagrams cl) →
  world_inv w → world_inv (with_router r w).
Proof.
  intros Hc Ht Hl Hq [I1 I2 I3 I4]. split; cbn; rewrite ?Hc, ?Ht, ?Hl; [done..|].
  intros e c cl He Hcl Ho. destruct (Hq c cl Hcl Ho) as (cl' & Hcl' & Hd). unfold demuxed. cbn. rewrite Ht, <- Hd.
  apply (I4 e c cl'); [done|done|by rewrite Hd].
Qed.

Lemma inv_with_streams w a st : world_inv w → world_inv (with_streams a st w).
Proof. by intros [I1 I2 I3 I4]. Qed.

Lemma insert_client_datagrams (qs : list RouterClient) (c : nat) cl cl1 :
  qs !! c = Some cl → datagrams cl1 = datagrams cl ∨ rx_open (datagrams cl1) = false →
  ∀ c' cl', <[c := cl1]> qs !! c' = Some cl' → rx_open (datagrams cl') = true →
  ∃ cl'', qs !! c' = Some cl'' ∧ datagrams cl'' = datagrams cl'.
Proof.
  intros Hc Hd c' cl' Hl Ho. destruct (decide (c = c')) as [<-|Hne].
  - rewrite list_lookup_insert_eq in Hl by (by eapply lookup_lt_Some). injection Hl as <-. exists cl. split; [done|].
    destruct Hd as [->|Hd]; [done|congruence].
  - rewrite list_lookup_insert_ne in Hl by done. eauto.
Qed.

Lemma complete_inv {A} (get : RouterClient → Mpsc A) set err t qs t' qs' :
  complete get set err t qs = Some (t', qs') →
  ∃ c x cl, t = Sending c x ∧ qs !! c = Some cl ∧
    (rx_open (get cl) = true ∧ t' = Accepting ∧ qs' = <[c := set (mpsc_push x) cl]> qs ∨
     rx_open (get cl) = false ∧ t' = Stopped err ∧ qs' = qs).
Proof.
  unfold complete. destruct t as [|c x|]; [done| |done]. destruct (qs !! c) as [cl|] eqn:Hc; [|done].
  destruct (rx_open (get cl)) eqn:Ho.
  - destruct (_ <? _)%nat; [|done]. intros [= <- <-]. exists c, x, cl. eauto 10.
  - intros [= <- <-]. exists c, x, cl. eauto 10.
Qed.

Lemma recv_inv {A} (get : RouterClient → Mpsc A) set c r x r' :
  recv_ get set c r = Some (x, r') →
  ∃ cl q, queues r !! c = Some cl ∧ mq (get cl) = x :: q ∧ r' = set_queues (<[c := set mpsc_pop cl]> (queues r)) r.
Proof.
  unfold recv_. intros (cl & Hcl & (y & Hy & [= -> <-])%bind_Some)%bind_Some. exists cl.
  destruct (mq (get cl)) as [|z q]; [done|]. injection Hy as ->. eauto.
Qed.

Lemma inv_accept_uni w s : world_inv w → world_inv (with_router (accept_uni s (router w)) w).
Proof.
  intros Hw. unfold accept_uni. destruct (read_endpoint_id s) as [[e s']|e|]; [destruct (clients (router w) !! e)| |];
    (apply world_inv_frame; [done..|eauto|done]).
Qed.

Lemma inv_accept_bi w s1 s2 : world_inv w → world_inv (with_router (accept_bi s1 s2 (router w)) w).
Proof.
  intros Hw. unfold accept_bi. destruct (read_endpoint_id s2) as [[e s']|e|]; [destruct (clients (router w) !! e)| |];
    (apply world_inv_frame; [done..|eauto|done]).
Qed.

Lemma inv_complete_uni w r : world_inv w → complete_uni (router w) = Some r → world_inv (with_router r w).
Proof.
  intros Hw ([t qs] & (c & x & cl & _ & Hc & [(_ & -> & ->)|(_ & -> & ->)])%complete_inv & [= <-])%bind_Some;
    (apply world_inv_frame; [done|done|cbn; by rewrite ?length_insert|cbn|done]); [|eauto].
  eapply insert_client_datagrams; [done|by left].
Qed.

Lemma inv_complete_bi w r : world_inv w → complete_bi (router w) = Some r → world_inv (with_router r w).
Proof.
  intros Hw ([t qs] & (c & x & cl & _ & Hc & [(_ & -> & ->)|(_ & -> & ->)])%complete_inv & [= <-])%bind_Some;
    (apply world_inv_frame; [done|done|cbn; by rewrite ?length_insert|cbn|done]); [|eauto].
  eapply insert_client_datagrams; [done|by left].
Qed.

Lemma inv_recv_uni w c x r : world_inv w → recv_ unistreams on_uni c (router w) = Some (x, r) → world_inv (with_router r w).
Proof.
  intros Hw (cl & q & Hc & _ & ->)%recv_inv. apply world_inv_frame; [done|done|cbn; by rewrite length_insert| |done].
  eapply insert_client_datagrams; [done|by left].
Qed.

Lemma inv_recv_bi w c x r : world_inv w → recv_ bistreams on_bi c (router w) = Some (x, r) → world_inv (with_router r w).
Proof.
  intros Hw (cl & q & Hc & _ & ->)%recv_inv. apply world_inv_frame; [done|done|cbn; by rewrite length_insert| |done].
  eapply insert_client_datagrams; [done|by left].
Qed.

Lemma inv_drop_receivers w c : world_inv w → world_inv (with_router (drop_receivers c (router w)) w).
Proof.
  intros Hw. unfold drop_receivers. destruct (queues (router w) !! c) as [cl|] eqn:Hc; apply world_inv_frame; try done; cbn.
  - by rewrite length_insert.
  - eapply insert_client_datagrams; [done|by right].
  - eauto.
Qed.

Lemma world_inv_register w e r c :
  world_inv w → register e (router w) = (r, Ok c) →
  world_inv {| router := r; held := <[c := e]> (held w); arrivals := arrivals w;
               since := <[c := length (arrivals w)]> (since w); received := <[c := []]> (received w);
                    accepted := accepted w; streams := <[c := []]> (streams w) |}.
Proof.
  intros [I1 I2 I3 I4] Hr. unfold register in Hr. destruct (clients (router w) !! e) eqn:He; [done|]. injection Hr as <- <-.
  assert (∀ c' e', held w !! c' = Some e' → length (queues (router w)) ≠ c' ∧ e ≠ e') as Hfresh.
  { intros c' e' Hh. split; [apply I2 in Hh; lia|]. intros <-. apply I1 in Hh. congruence. }
  split; cbn; rewrite ?length_app; cbn.
  - intros e' c'. rewrite !lookup_insert_Some. split.
    + intros [[-> <-]|[Hne Hl]]; [by left|]. apply I1 in Hl. right. split; [by apply Hfresh in Hl as [? _]|done].
    + intros [[<- ->]|[Hne Hl]]; [by left|]. pose proof (Hfresh _ _ Hl) as [_ ?]. right. split; [done|by apply I1].
  - intros c' e' [[<- <-]|[Hne Hl]]%lookup_insert_Some; [rewrite fn_lookup_insert; lia|].
    rewrite fn_lookup_insert_ne by done. apply I2 in Hl. lia.
  - intros c' d Ht. apply I3 in Ht. lia.
  - intros e' c' cl [[<- <-]|[Hne Hl]]%lookup_insert_Some Hq Ho; unfold demuxed; cbn.
    + rewrite lookup_app_r, Nat.sub_diag in Hq by lia. injection Hq as <-. rewrite !fn_lookup_insert, drop_all. cbn.
      unfold in_flight. destruct (recv_datagrams_task (router w)) as [|c' d|] eqn:Ht; [done| |done].
      specialize (I3 _ _ eq_refl). case_decide; [lia|done].
    + pose proof (Hfresh _ _ (proj1 (I1 _ _) Hl)) as [? _]. rewrite !fn_lookup_insert_ne by done.
      apply I1 in Hl as Hh. apply I2 in Hh. rewrite lookup_app_l in Hq by lia. by apply (I4 e').
Qed.

Lemma inv_drop w c e r o :
  world_inv w → held w !! c = Some e → drop_channel e (router w) = (r, o) →
  world_inv {| router := r; held := delete c (held w); arrivals := arrivals w; since := since w; received := received w; accepted := accepted w; streams := streams w |}.
Proof.
  intros [I1 I2 I3 I4] Hh [= <- <-]. split; cbn.
  - intros e' c'. rewrite !lookup_delete_Some, I1. apply I1 in Hh as He. split; intros [Hne Hl]; (split; [|done]).
    + intros <-. congruence.
    + intros <-. apply I1 in Hl. congruence.
  - intros c' e' [_ Hl]%lookup_delete_Some. by eapply I2.
  - done.
  - intros e' c' cl [_ Hl]%lookup_delete_Some. by apply I4.
Qed.

Lemma inv_datagram w d :
  world_inv w → recv_datagrams_task (router w) = Accepting →
  world_inv {| router := recv_datagram d (router w); held := held w; arrivals := arrivals w ++ [d]; since := since w; received := received w; accepted := accepted w; streams := streams w |}.
Proof.
  intros [I1 I2 I3 I4] Ht. unfold recv_datagram.
  assert (∀ e c cl t, clients (router w) !! e = Some c → queues (router w) !! c = Some cl → rx_open (datagrams cl) = true →
    (since w c ≤ length (arrivals w))%nat → in_flight c t = filter (addressed e) [d] →
    received w c ++ mq (datagrams cl) ++ in_flight c t = filter (addressed e) (drop (since w c) (arrivals w ++ [d]))) as Hstep.
  { intros e c cl t He Hc Ho Hs Hf. pose proof (I4 e c cl He Hc Ho) as Hd. unfold demuxed in Hd. rewrite Ht, app_nil_r in Hd.
    rewrite drop_app_le, list.filter_app, <- Hd, <- app_assoc by done. by rewrite Hf. }
  assert (∀ t, (∀ c d', t = Sending c d' → (c < length (queues (router w)))%nat) →
    (∀ e c, clients (router w) !! e = Some c → in_flight c t = filter (addressed e) [d]) →
    world_inv {| router := set_datagrams t (router w); held := held w; arrivals := arrivals w ++ [d]; since := since w; received := received w; accepted := accepted w; streams := streams w |})
    as Hgoal.
  { intros t Hlt Hf. split; cbn; [done| |done|].
    - intros c e Hh. rewrite length_app. apply I2 in Hh. cbn. lia.
    - intros e c cl He Hc Ho. apply (Hstep e c cl t He Hc Ho); [apply I1, I2 in He; lia|by apply Hf]. }
  assert (set_datagrams Accepting (router w) = router w) as Hsame by (rewrite <- Ht; by destruct (router w)).
  unfold addressed in Hgoal. destruct (Nat.leb_spec 2 (length d)) as [Hlen|Hlen].
  - destruct (clients (router w) !! read_be (take 2 d)) as [c|] eqn:Hc.
    + apply Hgoal.
      * intros c' d' [= <- <-]. apply I1, I2 in Hc. lia.
      * intros e c' He. unfold in_flight. rewrite filter_cons, filter_nil. case_decide as H1; case_decide as H2; try done.
        -- destruct H2. split; [done|]. apply I1 in Hc, He. subst. congruence.
        -- destruct H1. destruct H2 as [_ <-]. congruence.
    + rewrite <- Hsame. apply Hgoal; [done|]. intros e c' He. rewrite filter_cons, filter_nil. case_decide as H1; [|done].
      destruct H1 as [_ <-]. congruence.
  - rewrite <- Hsame. apply Hgoal; [done|]. intros e c' He. rewrite filter_cons, filter_nil. case_decide as H1; [|done].
    destruct H1 as [? _]. lia.
Qed.

Lemma inv_complete_datagram w r : world_inv w → complete_datagram (router w) = Some r → world_inv (with_router r w).
Proof.
  intros [I1 I2 I3 I4] ([t qs] & (c & x & cl & Ht & Hc & Hcase)%complete_inv & [= <-])%bind_Some.
  destruct Hcase as [(Ho & -> & ->)|(Ho & -> & ->)]; split; cbn; rewrite ?length_insert; try done.
  - intros e c' cl' He Hc' Ho'. unfold demuxed. cbn. destruct (decide (c = c')) as [<-|Hne].
    + rewrite list_lookup_insert_eq in Hc' by (by eapply lookup_lt_Some). injection Hc' as <-. cbn.
      pose proof (I4 e c cl He Hc Ho) as Hd. unfold demuxed, in_flight in Hd. rewrite Ht, decide_True in Hd by done. by rewrite app_nil_r.
    + rewrite list_lookup_insert_ne in Hc' by done. pose proof (I4 e c' cl' He Hc' Ho') as Hd. unfold demuxed, in_flight in Hd.
      rewrite Ht, decide_False in Hd by done. done.
  - intros e c' cl' He Hc' Ho'. unfold demuxed. cbn. assert (c ≠ c') by congruence.
    pose proof (I4 e c' cl' He Hc' Ho') as Hd. unfold demuxed, in_flight in Hd. by rewrite Ht, decide_False in Hd by done.
Qed.

Lemma inv_recv w c d r :
  world_inv w → recv_ datagrams on_datagrams c (router w) = Some (d, r) →
  world_inv {| router := r; held := held w; arrivals := arrivals w; since := since w; received := <[c := received w c ++ [d]]> (received w);
                    accepted := accepted w; streams := streams w |}.
Proof.
  intros [I1 I2 I3 I4] (cl & q & Hc & Hq & ->)%recv_inv. split; cbn; rewrite ?length_insert; try done.
  intros e c' cl' He Hc' Ho'. unfold demuxed. cbn. destruct (decide (c = c')) as [<-|Hne].
  - rewrite list_lookup_insert_eq in Hc' by (by eapply lookup_lt_Some). injection Hc' as <-. cbn in Ho' |- *.
    pose proof (I4 e c cl He Hc Ho') as Hd. unfold demuxed in Hd. rewrite Hq in Hd. rewrite fn_lookup_insert, Hq, <- app_assoc. done.
  - rewrite list_lookup_insert_ne in Hc' by done. rewrite fn_lookup_insert_ne by done. by apply (I4 e).
Qed.

Lemma inv_world_step w w' : world_inv w → world_step w w' → world_inv w'.
Proof.
  intros Hw Hstep. destruct Hstep; [by eapply world_inv_register|by apply inv_datagram|by apply inv_with_streams, inv_accept_uni|by apply inv_accept_bi
    |by apply inv_complete_datagram|by apply inv_complete_uni|by apply inv_complete_bi|by eapply inv_recv|by eapply inv_with_streams, inv_recv_uni
    |by eapply inv_recv_bi|by apply inv_drop_receivers|by eapply inv_drop].
Qed.

Lemma world_inv_reachable w : rtc world_step world_start w → world_inv w.
Proof.
  intros Hr. assert (∀ w0, world_inv w0 → rtc world_step w0 w → world_inv w) as Hall.
  { intros w0 H0 Hr0. induction Hr0 as [|x y z Hs _ IH]; [done|]. apply IH; [|by apply inv_world_step with x]. eauto using rtc. }
  by apply (Hall world_start); [apply world_inv_start|].
Qed.

(** ** A loop that has stopped *)

Definition uni_queue (w : World) (c : nat) : list Reader := default [] (mq ∘ unistreams <$> queues (router w) !! c).

Lemma insert_uni_queue (qs : list RouterClient) (c : nat) cl cl1 c' :
  qs !! c = Some cl → mq (unistreams cl1) `suffix_of` mq (unistreams cl) →
  default [] (mq ∘ unistreams <$> <[c := cl1]> qs !! c') `suffix_of` default [] (mq ∘ unistreams <$> qs !! c').
Proof.
  intros Hc Hs. destruct (decide (c = c')) as [<-|Hne].
  - rewrite list_lookup_insert_eq by (by eapply lookup_lt_Some). by rewrite Hc.
  - by rewrite list_lookup_insert_ne.
Qed.

Lemma stopped_step w w' err :
  accept_uni_task (router w) = Stopped err → world_step w w' →
  accept_uni_task (router w') = Stopped err ∧ ∀ c, uni_queue w' c `suffix_of` uni_queue w c.
Proof.
  intros Hs Hstep. unfold uni_queue.
  destruct Hstep as [e r c Hr|d Ht|s Ht|s1 s2 Ht|r Hc|r Hc|r Hc|c e d r _ Hr|c e s r _ Hr|c e s r _ Hr|c e _|c e r o _ Hr];
    cbn [router with_router with_streams]; try congruence.
  - unfold register in Hr. destruct (clients (router w) !! e); [done|]. injection Hr as <- <-. split; [done|]. intros c. cbn.
    destruct (decide (c < length (queues (router w)))%nat).
    + by rewrite lookup_app_l.
    + rewrite lookup_app_r by lia. destruct (c - length (queues (router w)))%nat as [|[|]]; cbn; apply suffix_nil.
  - unfold recv_datagram. repeat case_match; done.
  - unfold accept_bi. repeat case_match; done.
  - apply bind_Some in Hc as ([t qs] & (c & x & cl & _ & Hc & [(_ & -> & ->)|(_ & -> & ->)])%complete_inv & [= <-]);
      (split; [done|]); [|done]. intros c'. by eapply insert_uni_queue.
  - apply bind_Some in Hc as ([t qs] & (c & x & cl & Ht & _)%complete_inv & _). congruence.
  - apply bind_Some in Hc as ([t qs] & (c & x & cl & _ & Hc & [(_ & -> & ->)|(_ & -> & ->)])%complete_inv & [= <-]);
      (split; [done|]); [|done]. intros c'. by eapply insert_uni_queue.
  - apply recv_inv in Hr as (cl & q & Hc & _ & ->). split; [done|]. intros c'. by eapply insert_uni_queue.
  - apply recv_inv in Hr as (cl & q & Hc & Hq & ->). split; [done|]. intros c'. eapply insert_uni_queue; [done|]. cbn. rewrite Hq. by exists [s].
  - apply recv_inv in Hr as (cl & q & Hc & _ & ->). split; [done|]. intros c'. by eapply insert_uni_queue.
  - unfold drop_receivers. destruct (queues (router w) !! c) as [cl|] eqn:Hc; [|done]. split; [done|]. intros c'.
    eapply insert_uni_queue; [done|]. apply suffix_nil.
  - by injection Hr as <- <-.
Qed.

Lemma stopped_forever w w' err :
  accept_uni_task (router w) = Stopped err → rtc world_step w w' →
  accept_uni_task (router w') = Stopped err ∧ ∀ c, uni_queue w' c `suffix_of` uni_queue w c.
Proof.
  intros Hs Hr. induction Hr as [|x y z Hxy _ IH]; [done|]. destruct (stopped_step _ _ _ Hs Hxy) as [Hy Hq].
  destruct (IH Hy) as [Hz Hq']. split; [done|]. intros c. etrans; [apply Hq'|apply Hq].
Qed.

(** The same for the datagrams *)
Definition datagram_queue (w : World) (c : nat) : list bytes := default [] (mq ∘ datagrams <$> queues (router w) !! c).

Lemma insert_datagram_queue (qs : list RouterClient) (c : nat) cl cl1 c' :
  qs !! c = Some cl → mq (datagrams cl1) `suffix_of` mq (datagrams cl) →
  default [] (mq ∘ datagrams <$> <[c := cl1]> qs !! c') `suffix_of` default [] (mq ∘ datagrams <$> qs !! c').
Proof.
  intros Hc Hs. destruct (decide (c = c')) as [<-|Hne].
  - rewrite list_lookup_insert_eq by (by eapply lookup_lt_Some). by rewrite Hc.
  - by rewrite list_lookup_insert_ne.
Qed.

Lemma datagrams_stopped_step w w' err :
  recv_datagrams_task (router w) = Stopped err → world_step w w' →
  recv_datagrams_task (router w') = Stopped err ∧ ∀ c, datagram_queue w' c `suffix_of` datagram_queue w c.
Proof.
  intros Hs Hstep. unfold datagram_queue.
  destruct Hstep as [e r c Hr|d Ht|s Ht|s1 s2 Ht|r Hc|r Hc|r Hc|c e d r _ Hr|c e s r _ Hr|c e s r _ Hr|c e _|c e r o _ Hr];
    cbn [router with_router with_streams]; try congruence.
  - unfold register in Hr. destruct (clients (router w) !! e); [done|]. injection Hr as <- <-. split; [done|]. intros c. cbn.
    destruct (decide (c < length (queues (router w)))%nat).
    + by rewrite lookup_app_l.
    + rewrite lookup_app_r by lia. destruct (c - length (queues (router w)))%nat as [|[|]]; cbn; apply suffix_nil.
  - unfold accept_uni. repeat case_match; done.
  - unfold accept_bi. repeat case_match; done.
  - apply bind_Some in Hc as ([t qs] & (c & x & cl & Ht & _)%complete_inv & _). congruence.
  - apply bind_Some in Hc as ([t qs] & (c & x & cl & _ & Hc & [(_ & -> & ->)|(_ & -> & ->)])%complete_inv & [= <-]);
      (split; [done|]); [|done]. intros c'. by eapply insert_datagram_queue.
  - apply bind_Some in Hc as ([t qs] & (c & x & cl & _ & Hc & [(_ & -> & ->)|(_ & -> & ->)])%complete_inv & [= <-]);
      (split; [done|]); [|done]. intros c'. by eapply insert_datagram_queue.
  - apply recv_inv in Hr as (cl & q & Hc & Hq & ->). split; [done|]. intros c'. eapply insert_datagram_queue; [done|]. cbn. rewrite Hq. by exists [d].
  - apply recv_inv in Hr as (cl & q & Hc & _ & ->). split; [done|]. intros c'. by eapply insert_datagram_queue.
  - apply recv_inv in Hr as (cl & q & Hc & _ & ->). split; [done|]. intros c'. by eapply insert_datagram_queue.
  - unfold drop_receivers. destruct (queues (router w) !! c) as [cl|] eqn:Hc; [|done]. split; [done|]. intros c'.
    eapply insert_datagram_queue; [done|]. apply suffix_nil.
  - by injection Hr as <- <-.
Qed.

Lemma datagrams_stopped_forever w w' err :
  recv_datagrams_task (router w) = Stopped err → rtc world_step w w' →
  recv_datagrams_task (router w') = Stopped err ∧ ∀ c, datagram_queue w' c `suffix_of` datagram_queue w c.
Proof.
  intros Hs Hr. induction Hr as [|x y z Hxy _ IH]; [done|]. destruct (datagrams_stopped_step _ _ _ Hs Hxy) as [Hy Hq].
  destruct (IH Hy) as [Hz Hq']. split; [done|]. intros c. etrans; [apply Hq'|apply Hq].
Qed.

(** ** Properties *)

(** C16: as long as an endpoint is registered and its receiver open, the
    datagrams its user received, the ones in its queue and the one the router
    is about to queue are exactly the datagrams that named this endpoint since
    its registration, in order: none is lost, repeated or given to another. *)
Theorem router_demux_exact w e c cl :
  rtc world_step world_start w →
  clients (router w) !! e = Some c → queues (router w) !! c = Some cl → rx_open (datagrams cl) = true →
  received w c ++ mq (datagrams cl) ++ in_flight c (recv_datagrams_task (router w)) =
    filter (addressed e) (drop (since w c) (arrivals w)).
Proof. intros Hw%world_inv_reachable. apply (wi_demux w Hw). Qed.

(** In every reachable state dropping a channel finds its entry in the
    table, so the assertion of the destructor holds, and the endpoint can be
    registered again afterwards. *)
Theorem router_drop_finds_entry w c e :
  rtc world_step world_start w → held w !! c = Some e →
  ∃ r, drop_channel e (router w) = (r, Ok tt) ∧ (register e r).2 = Ok (length (queues r)).
Proof.
  intros Hw%world_inv_reachable Hh. apply (wi_held w Hw) in Hh. unfold drop_channel. rewrite Hh. cbn. eexists. split; [done|].
  unfold register. cbn. by rewrite lookup_delete_eq.
Qed.

(** A stream that names an endpoint that is not registered ends the routing
    of unidirectional streams for all endpoints: from then on no queue of
    streams ever grows. *)
Theorem router_unknown_stream_stops_all w recv e rest w' :
  accept_uni_task (router w) = Accepting → read_endpoint_id recv = Ok (e, rest) → clients (router w) !! e = None →
  rtc world_step (with_router (accept_uni recv (router w)) w) w' →
  (∃ err, accept_uni_task (router w') = Stopped err) ∧ ∀ c, uni_queue w' c `suffix_of` uni_queue w c.
Proof.
  intros _ Hr He Hrtc.
  assert (accept_uni recv (router w) = set_uni (Stopped ("accept_uni: unknown channel id: " +:+ decimal e)) (router w)) as Ha
    by (unfold accept_uni; by rewrite Hr, He).
  rewrite Ha in Hrtc. destruct (stopped_forever (with_router (set_uni _ (router w)) w) _ _ eq_refl Hrtc) as [H1 H2]. eauto.
Qed.

(** When a channel is dropped while the router is handing it a datagram, for
    instance because its queue is full, the routing of datagrams ends for every
    endpoint: from then on no queue of datagrams ever grows. *)
Theorem router_dropped_channel_stops_datagrams w c cl d :
  recv_datagrams_task (router w) = Sending c d → queues (router w) !! c = Some cl →
  let w1 := with_router (drop_receivers c (router w)) w in
  ∃ r, complete_datagram (router w1) = Some r ∧
    ∀ w', rtc world_step (with_router r w1) w' →
      (∃ err, recv_datagrams_task (router w') = Stopped err) ∧ ∀ c', datagram_queue w' c' `suffix_of` datagram_queue w1 c'.
Proof.
  intros Ht Hc w1. assert (Hq : queues (router w1) !! c = Some (on_uni mpsc_close (on_bi mpsc_close (on_datagrams mpsc_close cl)))).
  { unfold w1, drop_receivers. cbn. rewrite Hc. cbn. apply list_lookup_insert_eq. by eapply lookup_lt_Some. }
  assert (Ht1 : recv_datagrams_task (router w1) = Sending c d) by (unfold w1, drop_receivers; cbn; by rewrite Hc).
  unfold complete_datagram, complete. rewrite Ht1, Hq. cbn [on_uni on_bi on_datagrams mpsc_close datagrams rx_open mbind option_bind].
  eexists. split; [done|]. clearbody w1. intros w' Hr. apply (datagrams_stopped_forever _ _ "recv_datagram: channel closed") in Hr as [H1 H2]; [|done].
  split; [by eexists|done].
Qed.

(** *** A run: endpoint 3 registers, a datagram for it and one for endpoint 4
    arrive, and the first is received *)

Definition sample_r1 : Router := (register 3 router_start).1.
Definition sample_w1 : World :=
  {| router := sample_r1; held := <[0%nat := 3]> ∅; arrivals := []; since := <[0%nat := 0%nat]> (λ _, 0%nat); received := <[0%nat := []]> (λ _, []);
     accepted := []; streams := <[0%nat := []]> (λ _, []) |}.
Definition sample_step (d : bytes) (w : World) : World :=
  {| router := recv_datagram d (router w); held := held w; arrivals := arrivals w ++ [d]; since := since w; received := received w; accepted := accepted w; streams := streams w |}.
Definition sample_w2 : World := sample_step [0; 3; 7] sample_w1.
Definition sample_w3 : World := with_router (default router_start (complete_datagram (router sample_w2))) sample_w2.
Definition sample_w4 : World := sample_step [0; 4; 9] sample_w3.
Definition sample_w5 : World :=
  {| router := (default ([], router_start) (recv_ datagrams on_datagrams 0 (router sample_w4))).2; held := held sample_w4;
     arrivals := arrivals sample_w4; since := since sample_w4; received := <[0%nat := [[0; 3; 7]]]> (received sample_w4);
     accepted := accepted sample_w4; streams := streams sample_w4 |}.

Lemma sample_run : rtc world_step world_start sample_w5.
Proof.
  eapply rtc_l; [by apply (w_register world_start 3 sample_r1 0)|].
  eapply rtc_l; [by apply (w_datagram sample_w1 [0; 3; 7])|].
  eapply rtc_l; [by apply (w_complete_datagram sample_w2)|].
  eapply rtc_l; [by apply (w_datagram sample_w3 [0; 4; 9])|].
  eapply rtc_l; [by eapply (w_recv sample_w4 0 3 [0; 3; 7])|]. constructor.
Qed.

Lemma router_demux_exact_witness :
  received sample_w5 0%nat ++ [] ++ [] = filter (addressed 3) (drop 0 [[0; 3; 7]; [0; 4; 9]]).
Proof.
  apply (router_demux_exact sample_w5 3 0 {| client_id := 3; unistreams := mpsc_channel 8; bistreams := mpsc_channel 8; datagrams := mpsc_channel 16 |});
    [apply sample_run|vm_compute; reflexivity..].
Defined.

Lemma router_drop_finds_entry_witness :
  ∃ r, drop_channel 3 (router sample_w5) = (r, Ok tt) ∧ (register 3 r).2 = Ok (length (queues r)).
Proof. apply (router_drop_finds_entry sample_w5 0 3); [apply sample_run|vm_compute; reflexivity]. Defined.

Lemma router_unknown_stream_stops_all_witness :
  ∃ err, accept_uni_task (accept_uni {| rd_chunks := [[0; 9]]; rd_fail := None |} (router sample_w5)) = Stopped err.
Proof.
  destruct (router_unknown_stream_stops_all sample_w5 {| rd_chunks := [[0; 9]]; rd_fail := None |} 9 {| rd_chunks := []; rd_fail := None |}
    (with_router (accept_uni {| rd_chunks := [[0; 9]]; rd_fail := None |} (router sample_w5)) sample_w5)) as [Hs _];
    [vm_compute; reflexivity..|constructor|exact Hs].
Defined.

Lemma router_dropped_channel_stops_datagrams_witness :
  let w1 := with_router (drop_receivers 0 (router sample_w2)) sample_w2 in
  ∃ r, complete_datagram (router w1) = Some r ∧
    ∀ w', rtc world_step (with_router r w1) w' →
      (∃ err, recv_datagrams_task (router w') = Stopped err) ∧ ∀ c', datagram_queue w' c' `suffix_of` datagram_queue w1 c'.
Proof.
  apply (router_dropped_channel_stops_datagrams sample_w2 0 {| client_id := 3; unistreams := mpsc_channel 8; bistreams := mpsc_channel 8; datagrams := mpsc_channel 16 |} [0; 3; 7]);
    vm_compute; reflexivity.
Defined.
