(* ===== verification/Lifetime.v ===== *)
(** * Who keeps a channel alive

    The ownership of the channels of [kyproto/src/router.rs]: a [KyChannel] is
    dropped as a whole or split into halves that share its [KyChannelDropper]
    ([into_split]); the last owner to go removes the endpoint from the table
    ([impl Drop for KyChannelDropper]).  The table itself, with the sending ends
    of every queue, is shared by the router, its three tasks and every dropper;
    dropping the router ([impl Drop for Router]) cancels the tasks. *)

From stdpp Require Import prelude list gmap strings relations functions.
From Stdlib Require Import ZArith Lia.
From S2P Require Import Prelude Io Av Packets Channel Router RouterDemux.
Open Scope Z_scope.

(** ** Owners *)

(** What is left of a channel: the whole [KyChannel], or its halves.  A part with
    receivers is dropped in two steps, its receivers first and its dropper after
    them; [false] is the time between. *)
Inductive Owner :=
| Whole (receivers : bool)
| Halves (recv : option bool) (send : bool)
| Gone.

Inductive Part := PWhole | PRecv | PSend.

Definition holds_receivers (o : Owner) : bool :=
  match o with Whole b => b | Halves (Some b) _ => b | _ => false end.

(** The references to the dropper *)
Definition refs (o : Owner) : nat :=
  match o with
  | Whole _ => 1
  | Halves recv send => match recv with Some _ => 1 | None => 0 end + (if send then 1 else 0)
  | Gone => 0
  end.

Inductive TaskName := AcceptUni | AcceptBi | RecvDatagrams.

#[export] Instance TaskName_eq_dec : EqDecision TaskName.
Proof. solve_decision. Defined.

Record Lifetime := {
  life_router : Router;
  owners : list (Z * Owner);     (* of the channels, in the order of their registration *)
  router_alive : bool;           (* the [Router] has not been dropped *)
  running : TaskName → bool;     (* the task has not been interrupted *)
}.

Definition life_start : Lifetime := {| life_router := router_start; owners := []; router_alive := true; running := λ _, true |}.

Definition with_life_router (r : Router) (s : Lifetime) : Lifetime :=
  {| life_router := r; owners := owners s; router_alive := router_alive s; running := running s |}.
Definition with_owner (c : nat) (e : Z) (o : Owner) (s : Lifetime) : Lifetime :=
  {| life_router := life_router s; owners := <[c := (e, o)]> (owners s); router_alive := router_alive s; running := running s |}.

(** A task has ended, by itself or interrupted *)
Definition loop_stopped {A} (t : Loop A) : bool := match t with Stopped _ => true | _ => false end.

Definition task_over (t : TaskName) (s : Lifetime) : bool :=
  negb (running s t) ||
  match t with
  | AcceptUni => loop_stopped (accept_uni_task (life_router s))
  | AcceptBi => loop_stopped (accept_bi_task (life_router s))
  | RecvDatagrams => loop_stopped (recv_datagrams_task (life_router s))
  end.

(** ** Operations *)

(** [Router::register] *)
Definition life_register (endpoint_id : Z) : handler Lifetime EndpointAlreadyRegistered nat := λ s,
  match register endpoint_id (life_router s) with
  | (r, Ok c) => ({| life_router := r; owners := owners s ++ [(endpoint_id, Whole true)]; router_alive := router_alive s; running := running s |}, Ok c)
  | (r, o) => (with_life_router r s, o)
  end.

(** [KyChannel::into_split] *)
Definition into_split (c : nat) (s : Lifetime) : option Lifetime :=
  match owners s !! c with
  | Some (e, Whole true) => Some (with_owner c e (Halves (Some true) true) s)
  | _ => None
  end.

(** The receivers of a [KyChannel] or of a [KyChannelRecv] that is dropped *)
Definition close_receivers (c : nat) (s : Lifetime) : option Lifetime :=
  match owners s !! c with
  | Some (e, Whole true) => Some (with_owner c e (Whole false) (with_life_router (drop_receivers c (life_router s)) s))
  | Some (e, Halves (Some true) send) =>
      Some (with_owner c e (Halves (Some false) send) (with_life_router (drop_receivers c (life_router s)) s))
  | _ => None
  end.

Definition without (p : Part) (o : Owner) : option Owner :=
  match p, o with
  | PWhole, Whole false => Some Gone
  | PRecv, Halves (Some false) send => Some (Halves None send)
  | PSend, Halves recv true => Some (Halves recv false)
  | _, _ => None
  end.

(** The dropper of a part: the last reference runs its [Drop] *)
Definition release (p : Part) (c : nat) (s : Lifetime) : option (Lifetime * outcome Empty_set unit) :=
  '(e, o) ← owners s !! c;
  o' ← without p o;
  let s := with_owner c e o' s in
  if (refs o' =? 0)%nat then
    let '(r, res) := drop_channel e (life_router s) in Some (with_life_router r s, res)
  else Some (s, Ok tt).

(** [impl Drop for Router]; the names of the tasks it finds already stopped *)
Definition drop_router (s : Lifetime) : Lifetime * list TaskName :=
  ({| life_router := life_router s; owners := owners s; router_alive := false; running := running s |},
   filter (λ t, task_over t s = true) [AcceptUni; AcceptBi; RecvDatagrams]).

(** A cancelled task, at the end of its [select!] *)
Definition interrupt (t : TaskName) (s : Lifetime) : Lifetime :=
  {| life_router := life_router s; owners := owners s; router_alive := router_alive s; running := <[t := false]> (running s) |}.

(** The table lives as long as somebody shares it *)
Definition table_alive (s : Lifetime) : bool :=
  router_alive s || negb (forallb (λ t, task_over t s) [AcceptUni; AcceptBi; RecvDatagrams])
  || existsb (λ '(_, o), (0 <? refs o)%nat) (owners s).

(** A sending end of the queues of a channel is in its entry of the table, and
    in the hands of a loop that waits for room *)
Definition lends {A} (c : nat) (over : bool) (t : Loop A) : bool :=
  match t with Sending c' _ => negb over && (c' =? c)%nat | _ => false end.

Definition has_sender (c : nat) (t : TaskName) (s : Lifetime) : bool :=
  let r := life_router s in
  (table_alive s && match queues r !! c with Some cl => bool_decide (clients r !! client_id cl = Some c) | None => false end)
  || match t with
     | AcceptUni => lends c (task_over t s) (accept_uni_task r)
     | AcceptBi => lends c (task_over t s) (accept_bi_task r)
     | RecvDatagrams => lends c (task_over t s) (recv_datagrams_task r)
     end.

(** [KyChannelRecv::recv_] on the queue that the task [t] fills: [None] while it waits *)
Definition RouterError := string.

Definition recv_poll {A} (get : RouterClient → Mpsc A) (set : (Mpsc A → Mpsc A) → RouterClient → RouterClient) (t : TaskName) (c : nat) (s : Lifetime) :
    option (outcome RouterError A) :=
  match recv_ get set c (life_router s) with
  | Some (x, _) => Some (Ok x)
  | None => if has_sender c t s then None else Some (Err "Ky channel closed"%string)
  end.

(** ** Everything that can happen *)

(** The loops, which may also be told by the connection that it has failed *)
Inductive routed (s : Lifetime) : Router → Prop :=
| r_uni st : task_over AcceptUni s = false → accept_uni_task (life_router s) = Accepting → routed s (accept_uni st (life_router s))
| r_bi w st : task_over AcceptBi s = false → accept_bi_task (life_router s) = Accepting → routed s (accept_bi w st (life_router s))
| r_datagram d : task_over RecvDatagrams s = false → recv_datagrams_task (life_router s) = Accepting → routed s (recv_datagram d (life_router s))
| r_complete_uni r : task_over AcceptUni s = false → complete_uni (life_router s) = Some r → routed s r
| r_complete_bi r : task_over AcceptBi s = false → complete_bi (life_router s) = Some r → routed s r
| r_complete_datagram r : task_over RecvDatagrams s = false → complete_datagram (life_router s) = Some r → routed s r
| r_uni_failed e : task_over AcceptUni s = false → accept_uni_task (life_router s) = Accepting →
    routed s (set_uni (Stopped ("accept_uni() failed: " +:+ e)) (life_router s))
| r_bi_failed e : task_over AcceptBi s = false → accept_bi_task (life_router s) = Accepting →
    routed s (set_bi (Stopped ("accept_bi() failed: " +:+ e)) (life_router s))
| r_datagram_failed e : task_over RecvDatagrams s = false → recv_datagrams_task (life_router s) = Accepting →
    routed s (set_datagrams (Stopped ("read_datagram() failed: " +:+ e)) (life_router s)).

(** The owners of receivers *)
Inductive received_from (s : Lifetime) (c : nat) : Router → Prop :=
| f_uni x r : recv_ unistreams on_uni c (life_router s) = Some (x, r) → received_from s c r
| f_bi x r : recv_ bistreams on_bi c (life_router s) = Some (x, r) → received_from s c r
| f_datagram x r : recv_ datagrams on_datagrams c (life_router s) = Some (x, r) → received_from s c r.

Inductive life_step (s : Lifetime) : Lifetime → Prop :=
| l_register e s' o : router_alive s = true → life_register e s = (s', o) → life_step s s'
| l_routed r : routed s r → life_step s (with_life_router r s)
| l_received c e o r : owners s !! c = Some (e, o) → holds_receivers o = true → received_from s c r → life_step s (with_life_router r s)
| l_split c s' : into_split c s = Some s' → life_step s s'
| l_close c s' : close_receivers c s = Some s' → life_step s s'
| l_release p c s' o : release p c s = Some (s', o) → life_step s s'
| l_drop_router : life_step s (drop_router s).1
| l_interrupt t : router_alive s = false → life_step s (interrupt t s).

(** ** The invariant *)

(** The receivers of a queue are open exactly as long as their owner holds them *)
Definition shape (cl : RouterClient) : Z * bool * bool * bool :=
  (client_id cl, rx_open (unistreams cl), rx_open (bistreams cl), rx_open (datagrams cl)).
Definition owner_shape (x : Z * Owner) : Z * bool * bool * bool :=
  (x.1, holds_receivers x.2, holds_receivers x.2, holds_receivers x.2).

Definition table_exact (m : gmap Z nat) (os : list (Z * Owner)) : Prop :=
  ∀ e c, m !! e = Some c ↔ ∃ o, os !! c = Some (e, o) ∧ (0 < refs o)%nat.

Record life_inv (s : Lifetime) : Prop := {
  li_shapes : shape <$> queues (life_router s) = owner_shape <$> owners s;
  li_table : table_exact (clients (life_router s)) (owners s);
}.

Definition same_shape (r r' : Router) : Prop := clients r' = clients r ∧ shape <$> queues r' = shape <$> queues r.

Lemma insert_same_shape (qs : list RouterClient) c cl cl' : qs !! c = Some cl → shape cl' = shape cl → shape <$> <[c := cl']> qs = shape <$> qs.
Proof. intros Hc Hs. rewrite list_fmap_insert, Hs. apply list_insert_id. by rewrite list_lookup_fmap, Hc. Qed.

Lemma complete_same_shape {A} (get : RouterClient → Mpsc A) set err t qs t' qs' :
  (∀ f cl, (∀ q, rx_open (f q) = rx_open q) → shape (set f cl) = shape cl) →
  complete get set err t qs = Some (t', qs') → shape <$> qs' = shape <$> qs.
Proof.
  intros Hset (c & x & cl & _ & Hc & [(_ & _ & ->)|(_ & _ & ->)])%complete_inv; [|done]. apply (insert_same_shape _ _ cl); [done|]. by apply Hset.
Qed.

Lemma on_uni_shape f cl : (∀ q, rx_open (f q) = rx_open q) → shape (on_uni f cl) = shape cl.
Proof. intros Hf. unfold shape. cbn. by rewrite Hf. Qed.
Lemma on_bi_shape f cl : (∀ q, rx_open (f q) = rx_open q) → shape (on_bi f cl) = shape cl.
Proof. intros Hf. unfold shape. cbn. by rewrite Hf. Qed.
Lemma on_datagrams_shape f cl : (∀ q, rx_open (f q) = rx_open q) → shape (on_datagrams f cl) = shape cl.
Proof. intros Hf. unfold shape. cbn. by rewrite Hf. Qed.

Lemma routed_same_shape s r : routed s r → same_shape (life_router s) r.
Proof.
  intros Hr. destruct Hr as [st _ _|w st _ _|d _ _|r _ Hc|r _ Hc|r _ Hc|e _ _|e _ _|e _ _]; try done.
  - unfold accept_uni. by repeat case_match.
  - unfold accept_bi. by repeat case_match.
  - unfold recv_datagram. by repeat case_match.
  - apply bind_Some in Hc as ([t qs] & Hc & [= <-]). split; [done|]. eapply complete_same_shape; [apply on_uni_shape|exact Hc].
  - apply bind_Some in Hc as ([t qs] & Hc & [= <-]). split; [done|]. eapply complete_same_shape; [apply on_bi_shape|exact Hc].
  - apply bind_Some in Hc as ([t qs] & Hc & [= <-]). split; [done|]. eapply complete_same_shape; [apply on_datagrams_shape|exact Hc].
Qed.

Lemma received_same_shape s c r : received_from s c r → same_shape (life_router s) r.
Proof.
  intros Hr. destruct Hr as [x r (cl & q & Hc & _ & ->)%recv_inv|x r (cl & q & Hc & _ & ->)%recv_inv|x r (cl & q & Hc & _ & ->)%recv_inv];
    (split; [done|]); cbn; apply (insert_same_shape _ _ cl); auto using on_uni_shape, on_bi_shape, on_datagrams_shape.
Qed.

Lemma inv_same_shape s r : life_inv s → same_shape (life_router s) r → life_inv (with_life_router r s).
Proof. intros [I1 I2] [Hc Hs]. split; cbn; [congruence|by rewrite Hc]. Qed.

Lemma owner_shape_insert (os : list (Z * Owner)) c e o o' :
  os !! c = Some (e, o) → holds_receivers o' = holds_receivers o → owner_shape <$> <[c := (e, o')]> os = owner_shape <$> os.
Proof.
  intros Hc Hh. rewrite list_fmap_insert. apply list_insert_id. rewrite list_lookup_fmap, Hc. unfold owner_shape. cbn. by rewrite Hh.
Qed.

(** Another owner of the same channel *)
Lemma life_table_insert m os c e o o' :
  table_exact m os → os !! c = Some (e, o) → (0 < refs o)%nat →
  table_exact (if (refs o' =? 0)%nat then delete e m else m) (<[c := (e, o')]> os).
Proof.
  intros Ht Hc Ho e' c'. pose proof (lookup_lt_Some _ _ _ Hc) as Hlt.
  assert (m !! e = Some c) as Hm by (apply Ht; eauto).
  destruct (decide (c' = c)) as [->|Hne].
  - rewrite list_lookup_insert_eq by done. destruct (Nat.eqb_spec (refs o') 0) as [Hz|Hz].
    + rewrite lookup_delete_Some. split; [intros [Hne Hl]|intros (o2 & [= <- <-] & ?); lia].
      apply Ht in Hl as (o2 & Ho2 & _). congruence.
    + rewrite (Ht e' c), Hc. split; intros (o2 & [= <- <-] & ?); [exists o'; split; [done|lia]|by exists o].
  - rewrite list_lookup_insert_ne, <- (Ht e' c') by done. destruct (refs o' =? 0)%nat; [|done]. rewrite lookup_delete_Some.
    split; [by intros [_ ?]|]. intros Hl. split; [|done]. intros <-. congruence.
Qed.

Lemma life_inv_register s e s' o : life_inv s → life_register e s = (s', o) → life_inv s'.
Proof.
  intros [I1 I2] Hr. unfold life_register, register in Hr. destruct (clients (life_router s) !! e) eqn:He; injection Hr as <- _; [by split|].
  pose proof (f_equal length I1) as Hlen. rewrite !length_fmap in Hlen.
  split; cbn; [by rewrite !fmap_app, I1|]. intros e' c'. rewrite lookup_insert_Some, Hlen. split.
  - intros [[<- <-]|[Hne (o' & Ho & Hr)%I2]].
    + rewrite lookup_app_r, Nat.sub_diag by lia. exists (Whole true). split; [done|cbn; lia].
    + exists o'. split; [|done]. by rewrite lookup_app_l by (by eapply lookup_lt_Some).
  - intros (o' & [Ho|[Hge Ho]]%lookup_app_Some & Hr).
    + right. split; [|apply I2; eauto]. intros <-. assert (clients (life_router s) !! e = Some c') by (apply I2; eauto). congruence.
    + apply list_lookup_singleton_Some in Ho as [Hz [= <- <-]]. left. split; [done|lia].
Qed.

Lemma inv_split s c s' : life_inv s → into_split c s = Some s' → life_inv s'.
Proof.
  intros [I1 I2] Hs. unfold into_split in Hs. destruct (owners s !! c) as [[e o]|] eqn:Hc; [|done].
  destruct o as [[]| |]; [|done..]. injection Hs as <-. split; cbn.
  - by rewrite (owner_shape_insert _ _ _ _ _ Hc).
  - by apply (life_table_insert _ _ _ _ _ (Halves (Some true) true) I2 Hc ltac:(cbn; lia)).
Qed.

Lemma inv_close_receivers s c s' : life_inv s → close_receivers c s = Some s' → life_inv s'.
Proof.
  intros [I1 I2] Hs. unfold close_receivers in Hs. destruct (owners s !! c) as [[e o]|] eqn:Hc; [|done].
  assert (∃ cl, queues (life_router s) !! c = Some cl ∧ client_id cl = e) as (cl & Hcl & Hid).
  { assert ((owner_shape <$> owners s) !! c = Some (owner_shape (e, o))) as Hsh by (by rewrite list_lookup_fmap, Hc).
    rewrite <- I1, list_lookup_fmap in Hsh. destruct (queues (life_router s) !! c) as [cl|]; [|done]. injection Hsh as H _ _ _. eauto. }
  destruct o as [[]|[[]|] send|]; try done; injection Hs as <-; (split; cbn; unfold drop_receivers; rewrite Hcl; cbn).
  - rewrite !list_fmap_insert, I1. unfold shape, owner_shape. cbn. by rewrite Hid.
  - by apply (life_table_insert _ _ _ _ _ (Whole false) I2 Hc ltac:(cbn; lia)).
  - rewrite !list_fmap_insert, I1. unfold shape, owner_shape. cbn. by rewrite Hid.
  - by apply (life_table_insert _ _ _ _ _ (Halves (Some false) send) I2 Hc ltac:(cbn; lia)).
Qed.

Lemma without_spec p o o' : without p o = Some o' → holds_receivers o' = holds_receivers o ∧ refs o = S (refs o').
Proof. destruct p, o as [[]|[[]|] []|]; intros [= <-]; done. Qed.

Lemma inv_release s p c s' res : life_inv s → release p c s = Some (s', res) → life_inv s' ∧ res = Ok tt.
Proof.
  intros [I1 I2] ([e o] & Hc & (o' & [Hh Hr]%without_spec & Hs)%bind_Some)%bind_Some.
  pose proof (life_table_insert _ _ _ _ _ o' I2 Hc ltac:(lia)) as Ht. destruct (Nat.eqb_spec (refs o') 0) as [Hz|Hz].
  - injection Hs as <- <-. split; [|by rewrite bool_decide_eq_true_2; [|exists c; apply I2; eexists; split; [done|lia]]].
    split; cbn; [by rewrite (owner_shape_insert _ _ _ _ _ Hc)|done].
  - injection Hs as <- <-. split; [|done]. split; cbn; [by rewrite (owner_shape_insert _ _ _ _ _ Hc)|done].
Qed.

Lemma inv_life_step s s' : life_inv s → life_step s s' → life_inv s'.
Proof.
  intros Hi Hstep. destruct Hstep as [e s' o _ Hr|r Hr|c e o r _ _ Hr|c s' Hs|c s' Hs|p c s' o Hs| |t _].
  - by eapply life_inv_register.
  - by apply inv_same_shape; [|apply routed_same_shape].
  - by eapply inv_same_shape; [|eapply received_same_shape].
  - by eapply inv_split.
  - by eapply inv_close_receivers.
  - by eapply inv_release.
  - by destruct Hi.
  - by destruct Hi.
Qed.

Lemma life_inv_reachable s : rtc life_step life_start s → life_inv s.
Proof.
  intros Hr. assert (life_inv life_start) as H0.
  { split; [done|]. intros e c. cbn. rewrite lookup_empty. split; [done|]. by intros (o & ? & _). }
  revert H0. generalize life_start, Hr. clear Hr. intros s0 Hr. induction Hr as [|x y z Hs _ IH]; eauto using inv_life_step.
Qed.

(** ** After the router *)

(** The router has been dropped and its tasks have ended *)
Definition quiet (s : Lifetime) : Prop := router_alive s = false ∧ ∀ t, task_over t s = true.

Definition empty_queues (c : nat) (s : Lifetime) : Prop :=
  ∀ cl, queues (life_router s) !! c = Some cl → mq (unistreams cl) = [] ∧ mq (bistreams cl) = [] ∧ mq (datagrams cl) = [].

Lemma routed_not_quiet s r : quiet s → ¬ routed s r.
Proof. intros [_ Ht] Hr. destruct Hr as [? H|? ? H|? H|? H|? H|? H|? H|? H|? H]; by rewrite Ht in H. Qed.

Lemma insert_queues_empty (qs : list RouterClient) c cl cl' c' :
  qs !! c = Some cl → (mq (unistreams cl) = [] → mq (unistreams cl') = []) →
  (mq (bistreams cl) = [] → mq (bistreams cl') = []) → (mq (datagrams cl) = [] → mq (datagrams cl') = []) →
  (∀ x, qs !! c' = Some x → mq (unistreams x) = [] ∧ mq (bistreams x) = [] ∧ mq (datagrams x) = []) →
  ∀ x, <[c := cl']> qs !! c' = Some x → mq (unistreams x) = [] ∧ mq (bistreams x) = [] ∧ mq (datagrams x) = [].
Proof.
  intros Hc H1 H2 H3 He x. destruct (decide (c = c')) as [<-|Hne]; [|by rewrite list_lookup_insert_ne; eauto].
  rewrite list_lookup_insert_eq by (by eapply lookup_lt_Some). intros [= <-]. destruct (He _ Hc) as (E1 & E2 & E3). auto.
Qed.

Lemma tail_empty {A} (q : Mpsc A) : mq q = [] → mq (mpsc_pop q) = [].
Proof. intros E. cbn. by rewrite E. Qed.

Lemma received_quiet s c r : received_from s c r →
  (∀ t, task_over t (with_life_router r s) = task_over t s) ∧ ∀ c', empty_queues c' s → empty_queues c' (with_life_router r s).
Proof.
  intros Hr. destruct Hr as [x r (cl & q & Hc & _ & ->)%recv_inv|x r (cl & q & Hc & _ & ->)%recv_inv|x r (cl & q & Hc & _ & ->)%recv_inv];
    (split; [by intros []|]); intros c' He; refine (insert_queues_empty _ _ _ _ _ Hc _ _ _ He);
    cbn [unistreams bistreams datagrams on_uni on_bi on_datagrams]; auto using tail_empty.
Qed.

Lemma close_receivers_quiet s c s' : close_receivers c s = Some s' →
  router_alive s' = router_alive s ∧ (∀ t, task_over t s' = task_over t s) ∧ ∀ c', empty_queues c' s → empty_queues c' s'.
Proof.
  unfold close_receivers. intros Hs. assert (∃ e o, s' = with_owner c e o (with_life_router (drop_receivers c (life_router s)) s)) as (e & o & ->).
  { repeat case_match; simplify_eq; eauto. }
  unfold empty_queues. cbn. unfold drop_receivers. destruct (queues (life_router s) !! c) as [cl|] eqn:Hc; [|by split_and!].
  split; [done|]. split; [by intros []|]. intros c' He. by refine (insert_queues_empty _ _ _ _ _ Hc _ _ _ He).
Qed.

Lemma release_quiet s p c s' o : release p c s = Some (s', o) →
  router_alive s' = router_alive s ∧ (∀ t, task_over t s' = task_over t s) ∧ queues (life_router s') = queues (life_router s).
Proof.
  intros ([e o1] & _ & (o' & _ & Hs)%bind_Some)%bind_Some. destruct (refs o' =? 0)%nat; injection Hs as <- _; (split_and!; [done|by intros []|done]).
Qed.

Lemma life_quiet_step s s' : quiet s → life_step s s' → quiet s' ∧ ∀ c, empty_queues c s → empty_queues c s'.
Proof.
  intros Hq Hstep. pose proof Hq as [Ha Ht]. destruct Hstep as [e s' o Hal _|r Hr|c e o r _ _ Hr|c s' Hs|c s' Hs|p c s' o Hs| |t _].
  - congruence.
  - by apply routed_not_quiet in Hr.
  - apply received_quiet in Hr as [Hto He]. split; [|done]. split; [done|]. intros t. by rewrite Hto.
  - unfold into_split in Hs. destruct (owners s !! c) as [[e o]|]; [|done]. destruct o as [[]| |]; [|done..]. by injection Hs as <-.
  - apply close_receivers_quiet in Hs as (Ha' & Hto & He). split; [|done]. split; [congruence|]. intros t. by rewrite Hto.
  - apply release_quiet in Hs as (Ha' & Hto & He). split; [|by unfold empty_queues; rewrite He]. split; [congruence|]. intros t. by rewrite Hto.
  - done.
  - split; [|done]. split; [done|]. intros t'. specialize (Ht t'). unfold task_over in *. cbn.
    destruct (decide (t = t')) as [<-|Hne]; [by rewrite fn_lookup_insert|by rewrite fn_lookup_insert_ne].
Qed.

Lemma quiet_forever s s' c : quiet s → empty_queues c s → rtc life_step s s' → empty_queues c s'.
Proof. intros Hq He Hr. revert Hq He. induction Hr as [|x y z Hs _ IH]; [done|]. intros Hq He. destruct (life_quiet_step _ _ Hq Hs) as [Hq' He']. auto. Qed.

(** The owner of the receivers owns the table, and with it their senders *)
Lemma holder_has_sender s c e o t :
  life_inv s → owners s !! c = Some (e, o) → holds_receivers o = true → has_sender c t s = true.
Proof.
  intros [I1 I2] Hc Hh. assert (0 < refs o)%nat as Hr by (destruct o as [[]|[[]|] []|]; cbn in *; done || lia).
  assert (table_alive s = true) as Ha.
  { unfold table_alive. rewrite orb_true_iff, existsb_exists. right. exists (e, o). split; [by apply list_elem_of_In; eapply list_elem_of_lookup_2|].
    by apply Nat.ltb_lt. }
  unfold has_sender. rewrite Ha. apply orb_true_iff. left.
  assert ((owner_shape <$> owners s) !! c = Some (owner_shape (e, o))) as Hsh by (by rewrite list_lookup_fmap, Hc).
  rewrite <- I1, list_lookup_fmap in Hsh. destruct (queues (life_router s) !! c) as [cl|]; [|done]. injection Hsh as -> _ _ _.
  apply bool_decide_eq_true_2, I2. eauto.
Qed.

Lemma recv_poll_open {A} (get : RouterClient → Mpsc A) set t c s e :
  has_sender c t s = true → recv_poll get set t c s ≠ Some (Err e).
Proof. intros Hs. unfold recv_poll. rewrite Hs. by destruct (recv_ get set c (life_router s)) as [[]|]. Qed.

Lemma recv_poll_empty {A} (get : RouterClient → Mpsc A) set t c s :
  has_sender c t s = true → (∀ cl, queues (life_router s) !! c = Some cl → mq (get cl) = []) → recv_poll get set t c s = None.
Proof.
  intros Hs He. unfold recv_poll. destruct (recv_ get set c (life_router s)) as [[x r]|] eqn:Hr; [|by rewrite Hs].
  apply recv_inv in Hr as (cl & q & Hc & Hq & _). rewrite (He _ Hc) in Hq. done.
Qed.

(** ** Properties *)

(** C27: the table of endpoints is exact, whatever is registered, split and
    dropped, in any order and while anything is routed: an endpoint is in it
    exactly while the channel, or a half of it, is owned.  So the assertion of
    the last owner never fails, an id can be registered exactly when no owner of
    a channel with this id is left, and the queues of a channel accept items
    exactly while somebody holds its receivers. *)
Theorem channel_table_exact s :
  rtc life_step life_start s →
  (∀ e c, clients (life_router s) !! e = Some c ↔ ∃ o, owners s !! c = Some (e, o) ∧ (0 < refs o)%nat) ∧
  (∀ p c s' res, release p c s = Some (s', res) → res = Ok tt) ∧
  (∀ e, (∃ c, (life_register e s).2 = Ok c) ↔ ∀ c o, owners s !! c = Some (e, o) → refs o = O) ∧
  (∀ c cl, queues (life_router s) !! c = Some cl →
     ∃ e o, owners s !! c = Some (e, o) ∧ rx_open (unistreams cl) = holds_receivers o ∧
       rx_open (bistreams cl) = holds_receivers o ∧ rx_open (datagrams cl) = holds_receivers o).
Proof.
  intros Hi%life_inv_reachable. pose proof Hi as [I1 I2]. split; [exact I2|]. split; [|split].
  - intros p c s' res Hr. by destruct (inv_release _ _ _ _ _ Hi Hr).
  - intros e. unfold life_register, register. destruct (clients (life_router s) !! e) as [c|] eqn:He; cbn; split.
    + by intros [].
    + intros Hall. apply I2 in He as (o & Ho & Hr). specialize (Hall _ _ Ho). lia.
    + intros _ c o Ho. destruct (refs o) eqn:Hr; [done|]. assert (clients (life_router s) !! e = Some c) by (apply I2; exists o; split; [done|lia]). congruence.
    + eauto.
  - intros c cl Hc. assert ((shape <$> queues (life_router s)) !! c = Some (shape cl)) as Hs by (by rewrite list_lookup_fmap, Hc).
    rewrite I1, list_lookup_fmap in Hs. destruct (owners s !! c) as [[e o]|]; [|done]. injection Hs as _ H1 H2 H3. eauto 10.
Qed.

(** C28: a receiver is never told that its channel is closed: the channel itself
    owns the table that holds the senders of its queues.  When the router has
    been dropped and its tasks have ended, as at the end of the connection, who
    holds the receivers of a channel with nothing queued waits for ever for a
    stream or a datagram. *)
Theorem receiver_never_told s s' c e o :
  rtc life_step life_start s → rtc life_step s s' → owners s' !! c = Some (e, o) → holds_receivers o = true →
  (∀ err, recv_poll unistreams on_uni AcceptUni c s' ≠ Some (Err err) ∧ recv_poll bistreams on_bi AcceptBi c s' ≠ Some (Err err) ∧
     recv_poll datagrams on_datagrams RecvDatagrams c s' ≠ Some (Err err)) ∧
  (quiet s → empty_queues c s →
     recv_poll unistreams on_uni AcceptUni c s' = None ∧ recv_poll bistreams on_bi AcceptBi c s' = None ∧
     recv_poll datagrams on_datagrams RecvDatagrams c s' = None).
Proof.
  intros Hs Hs' Hc Hh. assert (Hi : life_inv s') by (apply life_inv_reachable; by transitivity s).
  pose proof (λ t, holder_has_sender s' c e o t Hi Hc Hh) as Hsend. split; [by intros err; auto using @recv_poll_open|].
  intros Hq He. pose proof (quiet_forever _ _ _ Hq He Hs') as He'.
  split_and!; (apply recv_poll_empty; [apply Hsend|]); intros cl Hcl; by destruct (He' cl Hcl) as (? & ? & ?).
Qed.

(** C29: one receiving half that is dropped while the sending half is kept stops
    the datagrams of every endpoint: the endpoint stays in the table, so the next
    datagram that names it is given to a queue that nobody reads, and the loop
    ends. *)
Theorem dropped_receiver_stops_datagrams s c e recv d :
  rtc life_step life_start s → owners s !! c = Some (e, Halves recv true) → recv ≠ Some true →
  recv_datagrams_task (life_router s) = Accepting → addressed e d →
  ∃ r, complete_datagram (recv_datagram d (life_router s)) = Some r ∧ recv_datagrams_task r = Stopped "recv_datagram: channel closed".
Proof.
  intros [I1 I2]%life_inv_reachable Hc Hr Ht [Hlen Hid]. assert (clients (life_router s) !! e = Some c) as He.
  { apply I2. eexists. split; [exact Hc|]. cbn. lia. }
  assert ((owner_shape <$> owners s) !! c = Some (owner_shape (e, Halves recv true))) as Hsh by (by rewrite list_lookup_fmap, Hc).
  rewrite <- I1, list_lookup_fmap in Hsh. destruct (queues (life_router s) !! c) as [cl|] eqn:Hcl; [|done]. injection Hsh as _ _ _ Hopen.
  unfold recv_datagram. rewrite (proj2 (Nat.leb_le _ _) Hlen), Hid, He. unfold complete_datagram. cbn. rewrite Hcl, Hopen.
  destruct recv as [[]|]; [done| |]; cbn; eauto.
Qed.

(** *** The properties at sample lifetimes *)

Definition sample_registered : Lifetime := (life_register 5 life_start).1.
Definition sample_orphan : Lifetime := interrupt RecvDatagrams (interrupt AcceptBi (interrupt AcceptUni (drop_router sample_registered).1)).
Definition sample_half : Lifetime :=
  default life_start (s ← into_split 0 sample_registered; s ← close_receivers 0 s; '(s, _) ← release PRecv 0 s; Some s).

Lemma sample_registered_reachable : rtc life_step life_start sample_registered.
Proof. apply rtc_once. by eapply (l_register _ 5). Qed.

Lemma sample_orphan_reachable : rtc life_step life_start sample_orphan.
Proof.
  transitivity sample_registered; [apply sample_registered_reachable|]. eapply rtc_l; [apply l_drop_router|].
  do 3 (eapply rtc_l; [by apply l_interrupt|]). apply rtc_refl.
Qed.

Lemma sample_half_reachable : rtc life_step life_start sample_half.
Proof.
  transitivity sample_registered; [apply sample_registered_reachable|]. eapply rtc_l; [by eapply (l_split _ 0)|].
  eapply rtc_l; [by eapply (l_close _ 0)|]. eapply rtc_l; [by eapply (l_release _ PRecv 0)|]. apply rtc_refl.
Qed.

Lemma channel_table_exact_witness :
  clients (life_router sample_half) !! 5 = Some 0%nat ∧ ∀ p c s' res, release p c sample_half = Some (s', res) → res = Ok tt.
Proof.
  destruct (channel_table_exact sample_half sample_half_reachable) as (Htable & Hlast & _). split; [|exact Hlast].
  apply Htable. exists (Halves None true). split; [reflexivity|cbn; lia].
Defined.

Lemma receiver_never_told_witness :
  quiet sample_orphan ∧ recv_poll datagrams on_datagrams RecvDatagrams 0 sample_orphan = None.
Proof.
  assert (Hq : quiet sample_orphan) by (split; [reflexivity|intros []; reflexivity]). split; [exact Hq|].
  destruct (receiver_never_told sample_orphan sample_orphan 0 5 (Whole true) sample_orphan_reachable (rtc_refl _ _) eq_refl eq_refl) as [_ H].
  destruct (H Hq) as (_ & _ & Hd); [|exact Hd]. intros cl [= <-]. by split_and!.
Defined.

Lemma dropped_receiver_stops_datagrams_witness :
  ∃ r, complete_datagram (recv_datagram [0; 5; 1] (life_router sample_half)) = Some r ∧
    recv_datagrams_task r = Stopped "recv_datagram: channel closed".
Proof.
  apply (dropped_receiver_stops_datagrams sample_half 0 5 None [0; 5; 1] sample_half_reachable eq_refl); [done|reflexivity|].
  split; [cbn; lia|reflexivity].
Defined.
