(* ===== verification/Connection.v ===== *)
(** * Connections: authentication and endpoint ids

    Models the parts of [kyproto/src/lib.rs] and [kyproto/src/auth.rs] that
    start a connection (the first bytes of the control stream, with and without
    authentication) and that allocate and set up endpoints on top of the control
    stream and of the router.  [rmp_serde] is a parameter. *)

From stdpp Require Import prelude list gmap strings.
From Stdlib Require Import ZArith Lia.
From S2P Require Import Prelude Io Av Packets Channel Control Router.
Open Scope Z_scope.

(** ** Authentication *)

Definition TOKEN_MAX_LEN : Z := 1024.

(** The token as the UTF-8 bytes of the string *)
Record ClientAuth := { token : bytes }.

Inductive TokenSizeInvalid := token_size_invalid.

(** [ClientAuth::new] *)
Definition client_auth_new (t : bytes) : outcome TokenSizeInvalid ClientAuth :=
  if TOKEN_MAX_LEN <? blen t then Err token_size_invalid else Ok {| token := t |}.

Class AuthSerde := {
  auth_to_vec : ClientAuth → bytes;
  auth_from_slice : bytes → option ClientAuth;
}.

(** What is relied on: an encoded value decodes to itself; the encoding of a
    string is longer than the string (MessagePack puts a header before it) and
    adds at most 8 bytes. *)
Class AuthSerdeLaws `{AuthSerde} : Prop := {
  auth_decode_encode a : auth_from_slice (auth_to_vec a) = Some a;
  auth_encode_longer a : blen (token a) < blen (auth_to_vec a) ≤ blen (token a) + 8;
}.

Definition write_or {A} (e : string) (m : writing A) : handler Writer ProtocolError A := λ w,
  let '(w, r) := m w in (w, map_err (λ _, e) r).

(** The connection of [kynet]: how it was closed by this side, if it was *)
Record NetConnection := { close_reason : option (Z * string) }.

Definition net_open : NetConnection := {| close_reason := None |}.

(** [reject_authentication], also of an [UnauthenticatedConnection] *)
Definition reject_authentication : handler NetConnection ProtocolError unit :=
  modifyM (λ _, {| close_reason := Some (0xc, "Application token mismatch"%string) |}).

Section Auth.
Context `{AuthSerde}.

(** [connect_with_auth], what the client writes *)
Definition send_auth (auth : ClientAuth) : handler Writer ProtocolError unit :=
  _ ← pureM (rassert (blen (token auth) <=? TOKEN_MAX_LEN));
  let buf := auth_to_vec auth in
  _ ← pureM (rassert (blen buf <? 2 ^ 16));
  _ ← write_or "Could not write auth ClientAuth size" (write_all (be_bytes 2 (blen buf)));
  _ ← write_or "Could not write ClientAuth" (write_all buf);
  write_or "Could not flush ClientAuth" flush.

(** [connect_with_auth], the byte that confirms: any result of [read] but an
    error *)
Definition recv_confirmation (rx : Reader) : outcome ProtocolError Reader :=
  '(_, rx) ← map_err (λ _, "Authentication confirmation failed"%string) (read 1 rx);
  Ok rx.

(** [accept_with_auth], on the stream accepted *)
Definition recv_auth (rx : Reader) : handler NetConnection ProtocolError (ClientAuth * Reader) :=
  '(buf, rx) ← pureM (map_err (λ _, "Failed to read ClientAuth size"%string) (read_exact 2 rx));
  let len := read_be buf in
  if TOKEN_MAX_LEN <? len then
    _ ← reject_authentication;
    pureM (Err "ClientAuth size too big. Reject it"%string)
  else
    '(buf, rx) ← pureM (map_err (λ _, "Failed to read ClientAuth"%string) (read_exact (Z.to_nat len) rx));
    auth ← pureM (ok_or (auth_from_slice buf) "Failed to deserialize ClientAuth"%string);
    mret (auth, rx).
End Auth.

(** [Connection::connect] and [UnauthenticatedConnection::accept_authentication]
    write one byte, [Connection::accept] reads it.  The code calls [write] and
    does not look at the count: a stream of the transport accepts at least one
    byte of a buffer that is not empty, or fails, so that one byte is written
    whole. *)
Definition send_dummy : handler Writer ProtocolError unit :=
  _ ← write_or "Dummy byte write failed" (write_all [0]);
  write_or "Dummy byte flush failed" flush.

Definition recv_dummy (rx : Reader) : outcome ProtocolError Reader :=
  '(_, rx) ← map_err (λ _, "Dummy byte read failed"%string) (read 1 rx);
  Ok rx.

(** ** Endpoints *)

Definition INITIATOR_SERVER : Z := 0.
Definition INITIATOR_CLIENT : Z := 1.

Record Connection := { conn_control : Control; conn_router : Router; next_endpoint_index : Z }.

(** [Connection::new] *)
Definition connection_new (initiator : Z) : Connection :=
  {| conn_control := control_start; conn_router := router_start; next_endpoint_index := initiator |}.

Inductive SetupError :=
| ControlFailed (e : ControlError)
| RouterFailed (e : EndpointAlreadyRegistered).

Abbreviation setting_up := (handler Connection SetupError).

Definition get_endpoint_id : setting_up Z := λ c,
  ({| conn_control := conn_control c; conn_router := conn_router c; next_endpoint_index := wrap16 (next_endpoint_index c + 2) |},
   Ok (next_endpoint_index c)).

Definition on_control {A} (m : handler Control ControlError A) : setting_up A := λ c,
  let '(k, r) := m (conn_control c) in
  ({| conn_control := k; conn_router := conn_router c; next_endpoint_index := next_endpoint_index c |}, map_err ControlFailed r).

Definition on_router {A} (m : handler Router EndpointAlreadyRegistered A) : setting_up A := λ c,
  let '(k, r) := m (conn_router c) in
  ({| conn_control := conn_control c; conn_router := k; next_endpoint_index := next_endpoint_index c |}, map_err RouterFailed r).

(** ** Lemmas *)

(** The ids a side hands out *)
Fixpoint endpoint_ids (n : nat) (c : Connection) : list Z :=
  match n with
  | O => []
  | S n => match get_endpoint_id c with (c, Ok id) => id :: endpoint_ids n c | _ => [] end
  end.

Lemma endpoint_ids_lookup n c i id :
  0 ≤ next_endpoint_index c < 2 ^ 16 → endpoint_ids n c !! i = Some id → id = (next_endpoint_index c + 2 * Z.of_nat i) mod 2 ^ 16.
Proof.
  revert c i. induction n as [|n IH]; intros c i Hc; [done|]. cbn [endpoint_ids get_endpoint_id]. destruct i as [|i]; cbn.
  - intros [= <-]. rewrite Z.mul_0_r, Z.add_0_r. by rewrite Z.mod_small.
  - intros Hi. apply IH in Hi; cbn in *; [|unfold wrap16; apply Z.mod_pos_bound; lia]. rewrite Hi. unfold wrap16.
    rewrite Zplus_mod_idemp_l. f_equal. lia.
Qed.

Section AuthLemmas.
Context `{HS : AuthSerde} `{HL : !AuthSerdeLaws}.

(** The outcome of a rejection: the connection is closed. *)
Definition rejected : NetConnection * outcome ProtocolError (ClientAuth * Reader) :=
  ({| close_reason := Some (0xc, "Application token mismatch"%string) |}, Err "ClientAuth size too big. Reject it"%string).

Definition auth_image (a : ClientAuth) : bytes := be_bytes 2 (blen (auth_to_vec a)) ++ auth_to_vec a.

Lemma send_auth_ok a out :
  blen (token a) ≤ TOKEN_MAX_LEN → send_auth a (open_writer out) = (open_writer (out ++ auth_image a), Ok tt).
Proof.
  intros Ht. pose proof (auth_encode_longer a). unfold TOKEN_MAX_LEN in *.
  unfold send_auth, write_or, TOKEN_MAX_LEN; run_handler.
  destruct (Z.leb_spec (blen (token a)) 1024); [|lia]. destruct (Z.ltb_spec (blen (auth_to_vec a)) (2 ^ 16)); [|lia].
  cbn [rassert]. rewrite write_all_open. cbn [map_err]. rewrite write_all_open.
  cbn [map_err flush w_budget open_writer]. unfold auth_image. by rewrite app_assoc.
Qed.

Lemma recv_auth_image a r rest :
  blen (token a) ≤ TOKEN_MAX_LEN → rd_data r = auth_image a ++ rest →
  if TOKEN_MAX_LEN <? blen (auth_to_vec a) then recv_auth r net_open = rejected
  else ∃ r', recv_auth r net_open = (net_open, Ok (a, r')) ∧ rd_data r' = rest ∧ rd_fail r' = rd_fail r.
Proof.
  intros Ht Hd. pose proof (auth_encode_longer a) as Hlen. unfold auth_image in Hd. rewrite <- app_assoc in Hd.
  destruct (read_exact_app 2 r _ _ Hd (be_bytes_length _ _)) as (r1 & H1 & Hd1 & Hf1). unfold recv_auth. rewrite H1. run_handler. cbn [map_err].
  assert (0 ≤ blen (auth_to_vec a) < 2 ^ 16) as Hb by (unfold TOKEN_MAX_LEN, blen in *; lia). rewrite read_be_be2 by done.
  destruct (TOKEN_MAX_LEN <? blen (auth_to_vec a)); [done|].
  destruct (read_exact_app (Z.to_nat (blen (auth_to_vec a))) r1 _ _ Hd1) as (r2 & H2 & Hd2 & Hf2); [unfold blen; lia|].
  rewrite H2. cbn [map_err]. rewrite auth_decode_encode. cbn. exists r2. split_and!; congruence.
Qed.
End AuthLemmas.

(** ** Properties *)

(** Endpoint ids do not collide: an id of the client is never an id of the
    server, however many are allocated, and the first 32768 ids of a side are
    distinct. *)
Theorem endpoint_ids_distinct x y n m i j id id' :
  x ∈ [INITIATOR_SERVER; INITIATOR_CLIENT] → y ∈ [INITIATOR_SERVER; INITIATOR_CLIENT] →
  endpoint_ids n (connection_new x) !! i = Some id → endpoint_ids m (connection_new y) !! j = Some id' →
  x ≠ y ∨ i ≠ j ∧ Z.of_nat i < 2 ^ 15 ∧ Z.of_nat j < 2 ^ 15 → id ≠ id'.
Proof.
  intros Hx Hy. assert ((x = 0 ∨ x = 1) ∧ (y = 0 ∨ y = 1)) as [Hx' Hy'] by (unfold INITIATOR_SERVER, INITIATOR_CLIENT in *; set_solver).
  intros Hc%endpoint_ids_lookup Hs%endpoint_ids_lookup; [|cbn; lia..]. cbn in Hc, Hs. intros Hne E. rewrite Hc, Hs in E.
  destruct (decide (x = y)) as [<-|Hxy].
  - destruct Hne as [|(Hij & Hi & Hj)]; [done|]. rewrite !Z.mod_small in E; lia.
  - pose proof (Z.div_mod (x + 2 * Z.of_nat i) (2 ^ 16)). pose proof (Z.div_mod (y + 2 * Z.of_nat j) (2 ^ 16)). lia.
Qed.

Lemma endpoint_ids_distinct_witness : 5 ≠ 4.
Proof.
  apply (endpoint_ids_distinct INITIATOR_CLIENT INITIATOR_SERVER 4 3 2 2); [right; left|left|reflexivity|reflexivity|by left].
Defined.

(** C40: authentication: the server reads back the client's credentials, and
    leaves the rest of the control stream, exactly when their encoding fits in
    [TOKEN_MAX_LEN] bytes; otherwise it closes the connection. *)
Theorem auth_accepted_iff_encoding_fits `{HS : AuthSerde} `{HL : !AuthSerdeLaws} t a :
  client_auth_new t = Ok a →
  ∃ out, send_auth a (open_writer []) = (open_writer out, Ok tt) ∧
    ∀ r rest, rd_data r = out ++ rest →
      (blen (auth_to_vec a) ≤ TOKEN_MAX_LEN → ∃ r', recv_auth r net_open = (net_open, Ok (a, r')) ∧ rd_data r' = rest ∧ rd_fail r' = rd_fail r) ∧
      (TOKEN_MAX_LEN < blen (auth_to_vec a) → recv_auth r net_open = rejected).
Proof.
  unfold client_auth_new. destruct (Z.ltb_spec TOKEN_MAX_LEN (blen t)) as [|Ht]; [done|]. intros [= <-].
  exists (auth_image {| token := t |}). split; [by rewrite send_auth_ok|]. intros r rest Hd.
  pose proof (recv_auth_image {| token := t |} r rest Ht Hd) as Hr.
  destruct (Z.ltb_spec TOKEN_MAX_LEN (blen (auth_to_vec {| token := t |}))); (split; intros; [lia || done|done || lia]).
Qed.

(** The longest tokens that [ClientAuth::new] accepts are rejected by every
    server, because the server bounds the encoding and not the token. *)
Lemma auth_longest_token_rejected `{HS : AuthSerde} `{HL : !AuthSerdeLaws} t a r rest :
  blen t = TOKEN_MAX_LEN → client_auth_new t = Ok a → rd_data r = auth_image a ++ rest →
  recv_auth r net_open = rejected.
Proof.
  intros Ht Ha Hd. unfold client_auth_new in Ha. destruct (Z.ltb_spec TOKEN_MAX_LEN (blen t)); [done|]. injection Ha as <-.
  pose proof (recv_auth_image {| token := t |} r rest ltac:(cbn; lia) Hd) as Hr. pose proof (auth_encode_longer {| token := t |}) as Hl.
  cbn in Hl. destruct (Z.ltb_spec TOKEN_MAX_LEN (blen (auth_to_vec {| token := t |}))); [done|lia].
Qed.

(** The client takes the end of the stream for the server's confirmation: a
    server that closes the stream without writing the byte is believed. *)
Lemma auth_end_of_stream_accepted rx :
  rd_data rx = [] → rd_fail rx = None → recv_confirmation rx = Ok rx.
Proof. intros Hd Hf. unfold recv_confirmation. by rewrite read_at_end by (done || lia). Qed.

Lemma auth_end_of_stream_accepted_witness :
  recv_confirmation {| rd_chunks := []; rd_fail := None |} = Ok {| rd_chunks := []; rd_fail := None |}.
Proof. apply auth_end_of_stream_accepted; reflexivity. Defined.

(** *** A MessagePack encoding of a one-field structure, for the witnesses *)

#[local] Instance str16 : AuthSerde := {
  auth_to_vec a := [0x91; 0xda] ++ be_bytes 2 (blen (token a)) ++ token a;
  auth_from_slice b := Some {| token := drop 4 b |};
}.

#[local] Instance str16_laws : AuthSerdeLaws.
Proof. split; [by intros []|]. intros a. unfold blen. cbn [auth_to_vec str16]. rewrite !length_app, be_bytes_length. cbn [length]. lia. Qed.

Definition sample_reader (a : ClientAuth) : Reader := {| rd_chunks := [auth_image a]; rd_fail := None |}.

Lemma auth_accepted_iff_encoding_fits_witness :
  ∃ out, send_auth {| token := [97; 98] |} (open_writer []) = (open_writer out, Ok tt) ∧
    ∀ r rest, rd_data r = out ++ rest →
      (blen (auth_to_vec {| token := [97; 98] |}) ≤ TOKEN_MAX_LEN → ∃ r', recv_auth r net_open = (net_open, Ok ({| token := [97; 98] |}, r')) ∧ rd_data r' = rest ∧ rd_fail r' = rd_fail r) ∧
      (TOKEN_MAX_LEN < blen (auth_to_vec {| token := [97; 98] |}) → recv_auth r net_open = rejected).
Proof. apply (auth_accepted_iff_encoding_fits [97; 98]). reflexivity. Defined.

Lemma auth_longest_token_rejected_witness :
  recv_auth (sample_reader {| token := replicate 1024 97 |}) net_open = rejected.
Proof. apply (auth_longest_token_rejected (replicate 1024 97) {| token := replicate 1024 97 |} _ []); vm_compute; reflexivity. Defined.
