(* ===== verification/Handshake.v ===== *)
(** * Establishing a connection

    The four ways to make a [kyproto] connection out of one of [kynet]
    ([Connection::connect], [accept], [connect_with_auth], [accept_with_auth] of
    [kyproto/src/lib.rs], and [UnauthenticatedConnection] of
    [kyproto/src/auth.rs]) on the bidirectional stream that becomes the control
    stream, and what they leave on it. *)

From stdpp Require Import prelude list gmap strings.
From Stdlib Require Import ZArith Lia.
From S2P Require Import Prelude Io Av Packets Channel Control Router Connection.
Open Scope Z_scope.

(** The client of [Connection::connect], on the stream it opened *)
Definition connect (rx : Reader) : handler Writer ProtocolError (Connection * Reader) :=
  _ ← send_dummy;
  mret (connection_new INITIATOR_CLIENT, rx).

(** [Connection::accept], on the stream accepted *)
Definition accept (rx : Reader) : outcome ProtocolError (Connection * Reader) :=
  rx ← recv_dummy rx;
  Ok (connection_new INITIATOR_SERVER, rx).

(** [UnauthenticatedConnection]; its connection and its writer are those of the server *)
Record UnauthenticatedConnection := { get_auth : ClientAuth; u_rx : Reader }.

Section Auth.
Context `{AuthSerde}.

(** [Connection::connect_with_auth] *)
Definition connect_with_auth (auth : ClientAuth) (rx : Reader) : handler Writer ProtocolError (Connection * Reader) :=
  _ ← send_auth auth;
  rx ← pureM (recv_confirmation rx);
  mret (connection_new INITIATOR_CLIENT, rx).

(** [Connection::accept_with_auth] *)
Definition accept_with_auth (rx : Reader) : handler NetConnection ProtocolError UnauthenticatedConnection :=
  '(auth, rx) ← recv_auth rx;
  mret {| get_auth := auth; u_rx := rx |}.
End Auth.

(** [UnauthenticatedConnection::accept_authentication] *)
Definition accept_authentication (self : UnauthenticatedConnection) : handler Writer ProtocolError (Connection * Reader) :=
  _ ← send_dummy;
  mret (connection_new INITIATOR_SERVER, u_rx self).

(** ** The first byte of either side *)

Lemma send_dummy_open out : send_dummy (open_writer out) = (open_writer (out ++ [0]), Ok tt).
Proof. unfold send_dummy, write_or; run_handler. by rewrite write_all_open. Qed.

Lemma take_chunk_1 cs b rest : concat cs = b :: rest → ∃ cs', take_chunk 1 cs = Some ([b], cs') ∧ concat cs' = rest.
Proof.
  induction cs as [|[|x c] cs IH]; cbn; [done|exact IH|]. intros [= -> <-]. destruct c as [|y c]; cbn; eexists; (split; [reflexivity|done]).
Qed.

Lemma read_1 r b rest : rd_data r = b :: rest → ∃ r', read 1 r = Ok ([b], r') ∧ rd_data r' = rest ∧ rd_fail r' = rd_fail r.
Proof. intros (cs & Hc & Hd)%take_chunk_1. unfold read. rewrite Hc. by eexists. Qed.

(** ** The two sides *)

Section Peers.
Context `{HR : RmpSerde} `{HRL : !RmpSerdeLaws} `{HA : AuthSerde} `{HAL : !AuthSerdeLaws}.

(** The control task of one side, once the connection is made: it writes [ms] on
    what the handshake left of the writer [w], until the stream has carried [out],
    and handles the messages [ms'] of the other side, read from the rest of the
    stream. *)
Definition control_runs (ms ms' : list ControlMsg) (w : Writer) (out : bytes) (rx : Reader) : Prop :=
  send_msgs ms w = (open_writer out, Ok tt) ∧
  ∀ c, recv_msgs (S (length ms')) rx c = Some (foldl (λ c m, (handle_msg m c).1) c ms', Ok tt).

Lemma control_runs_intro ms ms' w pre out rx :
  Forall (λ m, is_Some (to_vec m)) ms → Forall (λ m, is_Some (to_vec m)) ms' →
  w = open_writer pre → out = pre ++ msgs_image ms → rd_data rx = msgs_image ms' → rd_fail rx = None →
  control_runs ms ms' w out rx.
Proof. intros Hms Hms' -> -> Hd Hf. split; [by apply send_msgs_ok|]. intros c. apply recv_msgs_ok; [done..|lia]. Qed.

Lemma connect_with_auth_confirmed a rx rest :
  blen (token a) ≤ TOKEN_MAX_LEN → rd_data rx = 0 :: rest →
  ∃ rx', connect_with_auth a rx (open_writer []) = (open_writer (auth_image a), Ok (connection_new INITIATOR_CLIENT, rx')) ∧
    rd_data rx' = rest ∧ rd_fail rx' = rd_fail rx.
Proof.
  intros Ht (rx' & Hr & Hd & Hf)%read_1. exists rx'. split; [|done]. unfold connect_with_auth; run_handler.
  rewrite send_auth_ok by done. unfold recv_confirmation. by rewrite Hr.
Qed.

Lemma accept_with_auth_image a rx rest :
  blen (auth_to_vec a) ≤ TOKEN_MAX_LEN → rd_data rx = auth_image a ++ rest →
  ∃ rx', accept_with_auth rx net_open = (net_open, Ok {| get_auth := a; u_rx := rx' |}) ∧ rd_data rx' = rest ∧ rd_fail rx' = rd_fail rx.
Proof.
  intros Ht Hd. pose proof (auth_encode_longer a) as Hl. pose proof (recv_auth_image a rx rest ltac:(lia) Hd) as Hr.
  destruct (Z.ltb_spec TOKEN_MAX_LEN (blen (auth_to_vec a))); [lia|]. destruct Hr as (rx' & Hr & Hd' & Hf). exists rx'. split; [|done].
  unfold accept_with_auth; run_handler. by rewrite Hr.
Qed.

Lemma accept_authentication_open u :
  accept_authentication u (open_writer []) = (open_writer [0], Ok (connection_new INITIATOR_SERVER, u_rx u)).
Proof. unfold accept_authentication; run_handler. by rewrite send_dummy_open. Qed.
End Peers.

(** ** Properties *)

(** C37: an authenticated connection talks: a client whose credentials fit and a
    server that accepts them both get a connection, numbered for their side; the
    server sees the client's credentials; and on the same stream, after the
    handshake and however the bytes are chunked, either side's control task
    delivers all its messages and handles exactly those of the other side, in
    order, until the stream ends. *)
Theorem authenticated_peers_talk `{HR : RmpSerde} `{HRL : !RmpSerdeLaws} `{HA : AuthSerde} `{HAL : !AuthSerdeLaws} a ms_c ms_s :
  blen (auth_to_vec a) ≤ TOKEN_MAX_LEN →
  Forall (λ m, is_Some (to_vec m)) ms_c → Forall (λ m, is_Some (to_vec m)) ms_s →
  ∃ out_c out_s, ∀ rx_c rx_s,
    rd_data rx_c = out_s → rd_data rx_s = out_c → rd_fail rx_c = None → rd_fail rx_s = None →
    ∃ w_c w_s rx_c' rx_s' u,
      connect_with_auth a rx_c (open_writer []) = (w_c, Ok (connection_new INITIATOR_CLIENT, rx_c')) ∧
      accept_with_auth rx_s net_open = (net_open, Ok u) ∧ get_auth u = a ∧
      accept_authentication u (open_writer []) = (w_s, Ok (connection_new INITIATOR_SERVER, rx_s')) ∧
      control_runs ms_c ms_s w_c out_c rx_c' ∧ control_runs ms_s ms_c w_s out_s rx_s'.
Proof.
  intros Ha Hc Hs. exists (auth_image a ++ msgs_image ms_c), ([0] ++ msgs_image ms_s). intros rx_c rx_s Hdc Hds Hfc Hfs.
  pose proof (auth_encode_longer a) as Hl.
  destruct (connect_with_auth_confirmed a rx_c _ ltac:(lia) Hdc) as (rx_c' & Hconn & Hdc' & Hfc').
  destruct (accept_with_auth_image a rx_s _ Ha Hds) as (rx_s' & Hacc & Hds' & Hfs').
  exists (open_writer (auth_image a)), (open_writer [0]), rx_c', rx_s', {| get_auth := a; u_rx := rx_s' |}.
  split_and!; [done|done|done|apply accept_authentication_open|eapply control_runs_intro; eauto; congruence..].
Qed.

(** The same without authentication: the server makes nothing but its connection
    out of the client's first byte, and neither control stream loses a message. *)
Theorem peers_talk `{HR : RmpSerde} `{HRL : !RmpSerdeLaws} ms_c ms_s :
  Forall (λ m, is_Some (to_vec m)) ms_c → Forall (λ m, is_Some (to_vec m)) ms_s →
  ∃ out_c out_s, ∀ rx_c rx_s,
    rd_data rx_c = out_s → rd_data rx_s = out_c → rd_fail rx_c = None → rd_fail rx_s = None →
    ∃ w_c rx_s',
      connect rx_c (open_writer []) = (w_c, Ok (connection_new INITIATOR_CLIENT, rx_c)) ∧
      accept rx_s = Ok (connection_new INITIATOR_SERVER, rx_s') ∧
      control_runs ms_c ms_s w_c out_c rx_c ∧ control_runs ms_s ms_c (open_writer []) out_s rx_s'.
Proof.
  intros Hc Hs. exists ([0] ++ msgs_image ms_c), (msgs_image ms_s). intros rx_c rx_s Hdc (rx_s' & Hr & Hds & Hfs)%read_1 Hfc Hfs'.
  exists (open_writer [0]), rx_s'. split_and!; [| |eapply control_runs_intro; eauto; congruence..].
  - unfold connect; run_handler. by rewrite send_dummy_open.
  - unfold accept, recv_dummy. by rewrite Hr.
Qed.

(** *** The properties at a sample handshake, with the sample encodings *)

#[local] Existing Instance tagged.
#[local] Existing Instance tagged_laws.
#[local] Existing Instance str16.
#[local] Existing Instance str16_laws.

Definition sample_auth : ClientAuth := {| token := [97; 98] |}.

Lemma authenticated_peers_talk_witness :
  ∃ out_c out_s, ∀ rx_c rx_s,
    rd_data rx_c = out_s → rd_data rx_s = out_c → rd_fail rx_c = None → rd_fail rx_s = None →
    ∃ w_c w_s rx_c' rx_s' u,
      connect_with_auth sample_auth rx_c (open_writer []) = (w_c, Ok (connection_new INITIATOR_CLIENT, rx_c')) ∧
      accept_with_auth rx_s net_open = (net_open, Ok u) ∧ get_auth u = sample_auth ∧
      accept_authentication u (open_writer []) = (w_s, Ok (connection_new INITIATOR_SERVER, rx_s')) ∧
      control_runs [Ready 4] [RegisterEndpoint 6; Ready 5] w_c out_c rx_c' ∧
      control_runs [RegisterEndpoint 6; Ready 5] [Ready 4] w_s out_s rx_s'.
Proof.
  apply (authenticated_peers_talk sample_auth [Ready 4] [RegisterEndpoint 6; Ready 5]); [by vm_compute|by repeat constructor..].
Defined.

Lemma peers_talk_witness :
  ∃ out_c out_s, ∀ rx_c rx_s,
    rd_data rx_c = out_s → rd_data rx_s = out_c → rd_fail rx_c = None → rd_fail rx_s = None →
    ∃ w_c rx_s',
      connect rx_c (open_writer []) = (w_c, Ok (connection_new INITIATOR_CLIENT, rx_c)) ∧
      accept rx_s = Ok (connection_new INITIATOR_SERVER, rx_s') ∧
      control_runs [Ready 4] [Ready 5] w_c out_c rx_c ∧ control_runs [Ready 5] [Ready 4] (open_writer []) out_s rx_s'.
Proof. apply (peers_talk [Ready 4] [Ready 5]); by repeat constructor. Defined.
