(* ===== verification/SourceFirst.v ===== *)
(** * Systematic source symbols

    Models [kyproto/src/protocol/driver/av/source_first.rs] and the sending path
    of [video_unreliable_fec.rs] that uses it: the source symbols of an object
    are cut out of it directly, sub-block by sub-block, and leave before the
    repair symbols are computed.  The reference is the layout of RFC 6330,
    section 4.4.1.2; the library's block encoders are the class
    [BlockEncoders]. *)

From stdpp Require Import prelude list gmap strings.
From Stdlib Require Import ZArith Lia.
From S2P Require Import Prelude Io Av Packets Channel Fec SystematicCode FecSafety VideoUnreliableFec FecTransfer.
Open Scope Z_scope.

(** ** The library's encoder, block by block *)

Class BlockEncoders `{RaptorQ} := {
  PayloadId_new : Z → Z → PayloadId;
  calculate_block_offsets : bytes → Oti → list (Z * Z);
  oti_with_defaults : Z → Z → Oti;
  (* [Encoder::new(data, config).get_block_encoders()[b]] and its packets *)
  block_count : bytes → Oti → nat;
  block_source_packets : bytes → Oti → nat → list (PayloadId * bytes);
  repair_packets : bytes → Oti → nat → Z → Z → list (PayloadId * bytes);
}.

(** [&buf[a..b]] *)
Definition get_range (a b : nat) (buf : bytes) : outcome ProtocolError bytes :=
  if decide (a ≤ b ∧ b ≤ length buf)%nat then Ok (slice a (b - a) buf) else Panic.

Section SourceFirst.
Context `{RQ : RaptorQ} `{BE : !BlockEncoders}.

(** ** [source_packets] *)

(** [for symbol in &mut symbols { symbol.extend_from_slice(..); offset += width; }] *)
Fixpoint extend_symbols (padded : bytes) (width offset : nat) (symbols : list bytes) : outcome ProtocolError (list bytes * nat) :=
  match symbols with
  | [] => Ok ([], offset)
  | symbol :: symbols =>
      part ← get_range offset (offset + width) padded;
      '(symbols, offset) ← extend_symbols padded width (offset + width) symbols;
      Ok ((symbol ++ part) :: symbols, offset)
  end.

(** [for sub_block in 0..large_count + small_count] *)
Fixpoint sub_block_loop (padded : bytes) (large small large_count align : Z) (sub_blocks : list nat)
    (offset : nat) (symbols : list bytes) : outcome ProtocolError (list bytes * nat) :=
  match sub_blocks with
  | [] => Ok (symbols, offset)
  | sub_block :: sub_blocks =>
      let width := Z.to_nat ((if Z.of_nat sub_block <? large_count then large else small) * align) in
      '(symbols, offset) ← extend_symbols padded width offset symbols;
      sub_block_loop padded large small large_count align sub_blocks offset symbols
  end.

(** The body of the loop over the source blocks *)
Definition block_packets (data : bytes) (oti : Oti) (block_id : nat) (start stop : Z) : outcome ProtocolError (list (PayloadId * bytes)) :=
  part ← get_range (Z.to_nat start) (Nat.min (Z.to_nat stop) (length data)) data;
  let padded := resize (Z.to_nat (stop - start)) 0 part in
  let symbol_count := (length padded / Z.to_nat (symbol_size oti))%nat in
  _ ← rassert (negb (symbol_alignment oti =? 0));
  let '(large, small, large_count, small_count) := partition (symbol_size oti / symbol_alignment oti) (sub_blocks oti) in
  '(symbols, offset) ← sub_block_loop padded large small large_count (symbol_alignment oti)
                         (seq 0 (Z.to_nat (large_count + small_count))) 0 (replicate symbol_count []);
  _ ← rassert (bool_decide (offset = length padded));
  Ok (imap (λ index symbol, (PayloadId_new (Z.of_nat block_id mod 2 ^ 8) (Z.of_nat index), symbol)) symbols).

Fixpoint blocks_loop (data : bytes) (oti : Oti) (block_id : nat) (offsets : list (Z * Z)) : outcome ProtocolError (list (PayloadId * bytes)) :=
  match offsets with
  | [] => Ok []
  | (start, stop) :: offsets =>
      packets ← block_packets data oti block_id start stop;
      rest ← blocks_loop data oti (S block_id) offsets;
      Ok (packets ++ rest)
  end.

Definition source_packets (data : bytes) (oti : Oti) : outcome ProtocolError (list (PayloadId * bytes)) :=
  _ ← rassert (blen data =? transfer_length oti);
  _ ← rassert (negb (symbol_size oti =? 0));
  blocks_loop data oti 0 (calculate_block_offsets data oti).

(** ** [send_source_first] *)

Abbreviation sending := (handler SendDriver ProtocolError).

(** [send_fec_packet] *)
Definition send_fec_packet (oti : bytes) (packet : PayloadId * bytes) : sending unit :=
  let '(id, data) := packet in
  buf ← getM (λ self, datagram_bytes self oti id data);
  on_channel (send_datagram connection_lost buf).

Fixpoint send_fec_packets (oti : bytes) (packets : list (PayloadId * bytes)) : sending unit :=
  match packets with
  | [] => mret tt
  | packet :: packets => _ ← send_fec_packet oti packet; send_fec_packets oti packets
  end.

(** [for block in encoder.get_block_encoders()] *)
Fixpoint send_repairs (data : bytes) (config : Oti) (repairs : Z) (blocks : list nat) : sending unit :=
  match blocks with
  | [] => mret tt
  | block :: blocks =>
      _ ← send_fec_packets (oti_serialize config) (repair_packets data config block 0 repairs);
      send_repairs data config repairs blocks
  end.

Definition send_source_first (data : bytes) (max_payload_size : Z) : sending unit :=
  let config := oti_with_defaults (blen data) max_payload_size in
  sources ← pureM (source_packets data config);
  let repairs := repair_symbols (Z.of_nat (length sources)) in
  _ ← send_fec_packets (oti_serialize config) sources;
  send_repairs data config repairs (seq 0 (block_count data config)).

(** [send_datagrams] on a platform where the [source-first-fec] branch is taken *)
Definition send_datagrams_source_first (packet : MediaPacket) : sending unit :=
  max ← getM (λ self, max_datagram_size (ky_channel self));
  max ← pureM (ok_or max "Datagram not supported"%string);
  _ ← pureM (rassert (Z.of_nat DATAGRAM_HEADER_SIZE <? max));
  _ ← pureM (rassert (max <? 0x10000));
  hdr ← pureM (media_serialize (header packet));
  send_source_first (hdr ++ payload packet) (max - Z.of_nat DATAGRAM_HEADER_SIZE).

(** ** The layout of RFC 6330 *)

(** The size of part [k] when [i] units are split into [j] parts *)
Definition part_size (i j : Z) (k : nat) : nat :=
  Z.to_nat (if Z.of_nat k <? i mod j then i / j + 1 else i / j).

Definition parts_before (size : nat → nat) (k : nat) : nat := sum_list (size <$> seq 0 k).

(** The bytes of a sub-symbol of sub-block [j] *)
Definition sub_size (oti : Oti) (j : nat) : nat :=
  (part_size (symbol_size oti / symbol_alignment oti) (sub_blocks oti) j * Z.to_nat (symbol_alignment oti))%nat.

(** The number of source symbols of block [b] *)
Definition block_symbols (oti : Oti) (b : nat) : nat := part_size (symbols_of oti) (source_blocks oti) b.

(** Block [b] of the object, padded with zeros *)
Definition rfc_block (data : bytes) (oti : Oti) (b : nat) : bytes :=
  let size := Z.to_nat (symbol_size oti) in
  resize (block_symbols oti b * size) 0 (drop (parts_before (block_symbols oti) b * size) data).

(** Symbol [i] of a block of [k] symbols: its sub-symbol of each sub-block *)
Definition rfc_symbol (oti : Oti) (k : nat) (block : bytes) (i : nat) : bytes :=
  concat ((λ j, slice (k * parts_before (sub_size oti) j + i * sub_size oti j) (sub_size oti j) block)
            <$> seq 0 (Z.to_nat (sub_blocks oti))).

Definition rfc_block_packets (data : bytes) (oti : Oti) (b : nat) : list (PayloadId * bytes) :=
  let k := block_symbols oti b in
  (λ i, (PayloadId_new (Z.of_nat b) (Z.of_nat i), rfc_symbol oti k (rfc_block data oti b) i)) <$> seq 0 k.

Definition rfc_source_packets (data : bytes) (oti : Oti) : list (PayloadId * bytes) :=
  seq 0 (Z.to_nat (source_blocks oti)) ≫= rfc_block_packets data oti.

(** The block rebuilt from its symbols, sub-block after sub-block *)
Definition rfc_join (oti : Oti) (symbols : list bytes) : bytes :=
  seq 0 (Z.to_nat (sub_blocks oti)) ≫= λ j,
    symbols ≫= λ symbol, slice (parts_before (sub_size oti) j) (sub_size oti j) symbol.

(** The object rebuilt from the symbols of all blocks *)
Fixpoint rfc_object (oti : Oti) (blocks : list nat) (symbols : list bytes) : bytes :=
  match blocks with
  | [] => []
  | b :: blocks =>
      rfc_join oti (take (block_symbols oti b) symbols) ++ rfc_object oti blocks (drop (block_symbols oti b) symbols)
  end.
End SourceFirst.

(** What the code relies on: the documented partition of an object into blocks
    and the order of the encoder's packets *)
Class BlockEncodersLaws `{BlockEncoders} := {
  payload_id_parts b e : is_u8 b → 0 ≤ e < 2 ^ 24 →
    source_block_number (PayloadId_new b e) = b ∧ encoding_symbol_id (PayloadId_new b e) = e;
  block_offsets_spec data oti :
    transfer_length oti = blen data → rfc_valid oti →
    calculate_block_offsets data oti =
      (λ b, (Z.of_nat (parts_before (block_symbols oti) b) * symbol_size oti,
             Z.of_nat (parts_before (block_symbols oti) (S b)) * symbol_size oti)) <$> seq 0 (Z.to_nat (source_blocks oti));
  config_is_default data max : encoder_config data max = oti_with_defaults (blen data) max;
  block_count_spec data oti : transfer_length oti = blen data → rfc_valid oti → block_count data oti = Z.to_nat (source_blocks oti);
  block_sources_rfc data oti b :
    transfer_length oti = blen data → rfc_valid oti → (b < Z.to_nat (source_blocks oti))%nat →
    block_source_packets data oti b = rfc_block_packets data oti b;
  encoded_packets_order data oti n :
    transfer_length oti = blen data → rfc_valid oti →
    get_encoded_packets data oti n =
      seq 0 (Z.to_nat (source_blocks oti)) ≫= λ b, block_source_packets data oti b ++ repair_packets data oti b 0 n;
}.

(** ** Partitions *)

Lemma parts_before_S size k : parts_before size (S k) = (parts_before size k + size k)%nat.
Proof. unfold parts_before. rewrite seq_S, fmap_app, sum_list_with_app. cbn. lia. Qed.

Lemma parts_before_mono size a b : (a ≤ b)%nat → (parts_before size a ≤ parts_before size b)%nat.
Proof. induction 1 as [|b _ IH]; [done|]. rewrite parts_before_S. lia. Qed.

Lemma parts_before_le_S size a b : (a < b)%nat → (parts_before size a + size a ≤ parts_before size b)%nat.
Proof. intros H. rewrite <- parts_before_S. by apply parts_before_mono. Qed.

Lemma part_size_before i j k :
  0 ≤ i → 0 < j → (Z.of_nat k ≤ j) →
  Z.of_nat (parts_before (part_size i j) k) = Z.of_nat k * (i / j) + Z.min (Z.of_nat k) (i mod j).
Proof.
  intros Hi Hj. pose proof (Z.mod_pos_bound i j Hj). assert (0 ≤ i / j) by (apply Z.div_pos; lia).
  induction k as [|k IH]; intros Hk; [cbn; lia|]. rewrite parts_before_S, Nat2Z.inj_add, IH by lia.
  unfold part_size. case_match; lia.
Qed.

(** The parts add up. *)
Lemma part_size_total i j : 0 ≤ i → 0 < j → Z.of_nat (parts_before (part_size i j) (Z.to_nat j)) = i.
Proof.
  intros Hi Hj. rewrite part_size_before by lia. pose proof (Z.mod_pos_bound i j Hj).
  pose proof (Z.div_mod i j ltac:(lia)). lia.
Qed.

Lemma part_size_partition i j k :
  0 ≤ i → 0 < j → Z.to_nat (if Z.of_nat k <? i mod j then div_ceil i j else i / j) = part_size i j k.
Proof.
  intros Hi Hj. unfold part_size, div_ceil. pose proof (Z.mod_pos_bound i j Hj).
  destruct (Z.ltb_spec (Z.of_nat k) (i mod j)); [|done]. destruct (Z.eqb_spec (i mod j) 0); [lia|done].
Qed.

Lemma parts_before_scale size c k : parts_before (λ j, (size j * c)%nat) k = (parts_before size k * c)%nat.
Proof. induction k as [|k IH]; [done|]. rewrite !parts_before_S, IH. lia. Qed.

Lemma to_nat_scale a s : 0 ≤ s → Z.to_nat (Z.of_nat a * s) = (a * Z.to_nat s)%nat.
Proof. intros. rewrite Z2Nat.inj_mul, Nat2Z.id by lia. done. Qed.

(** ** Slices *)

Lemma slice_length off n (l : bytes) : (off + n ≤ length l)%nat → length (slice off n l) = n.
Proof. intros. unfold slice. rewrite length_take, length_drop. lia. Qed.

(** Adjacent slices of equal width *)
Lemma slices_concat off w k (l : bytes) :
  (seq 0 k ≫= λ i, slice (off + i * w) w l) = slice off (k * w) l.
Proof.
  induction k as [|k IH]; [by unfold slice; rewrite take_0|].
  rewrite seq_S, bind_app, IH. cbn [mbind list_bind]. rewrite app_nil_r. unfold slice.
  rewrite Nat.add_0_l, <- drop_drop, take_take_drop. f_equal. lia.
Qed.

(** Adjacent slices of varying width *)
Lemma parts_concat size c n (l : bytes) :
  (seq 0 n ≫= λ j, slice (c * parts_before size j) (c * size j) l) = take (c * parts_before size n) l.
Proof.
  induction n as [|n IH]; [cbn; by rewrite Nat.mul_0_r|].
  rewrite seq_S, bind_app, IH. cbn [mbind list_bind]. rewrite app_nil_r, Nat.add_0_l. unfold slice.
  rewrite take_take_drop, parts_before_S. f_equal. lia.
Qed.

Lemma bind_seq_ext {A} k (f g : nat → list A) : (∀ i, (i < k)%nat → f i = g i) → (seq 0 k ≫= f) = seq 0 k ≫= g.
Proof.
  intros Hfg. induction k as [|k IH]; [done|]. rewrite !seq_S, !bind_app, IH by (intros; apply Hfg; lia).
  cbn. by rewrite Hfg by lia.
Qed.

Lemma fmap_bind_seq {A B C} (f : A → B) (g : B → list C) l : ((f <$> l) ≫= g) = l ≫= λ x, g (f x).
Proof. induction l as [|x l IH]; [done|]. cbn. by rewrite <- IH. Qed.

Lemma parts_length size n (f : nat → bytes) :
  (∀ i, (i < n)%nat → length (f i) = size i) → length (concat (f <$> seq 0 n)) = parts_before size n.
Proof.
  induction n as [|n IH]; intros Hf; [done|]. rewrite seq_S, fmap_app, concat_app, length_app, IH, parts_before_S by (intros; apply Hf; lia).
  cbn. rewrite app_nil_r, Hf by lia. lia.
Qed.

(** Part [j] of a concatenation of parts *)
Lemma slice_of_parts size n j (f : nat → bytes) :
  (∀ i, (i < n)%nat → length (f i) = size i) → (j < n)%nat →
  slice (parts_before size j) (size j) (concat (f <$> seq 0 n)) = f j.
Proof.
  intros Hf Hj. replace n with (j + S (n - S j))%nat by lia. rewrite seq_app, fmap_app, concat_app. cbn [seq fmap list_fmap concat].
  unfold slice. rewrite drop_app_length' by (by rewrite (parts_length size) by (intros; apply Hf; lia)). apply take_app_length'. by rewrite Hf by lia.
Qed.

Lemma resize_slice a n (l : bytes) : (a ≤ length l)%nat → resize n 0 (drop a l) = resize n 0 (slice a (Nat.min (a + n) (length l) - a) l).
Proof.
  intros Ha. unfold slice. destruct (Nat.le_gt_cases (a + n) (length l)).
  - rewrite Nat.min_l by lia. rewrite !resize_le by (rewrite ?length_take, ?length_drop; lia). rewrite take_take. f_equal. lia.
  - rewrite Nat.min_r by lia. rewrite (take_ge (drop a l)); [done|]. rewrite length_drop. lia.
Qed.

Lemma get_range_ok a b (l : bytes) : (a ≤ b ≤ length l)%nat → get_range a b l = Ok (slice a (b - a) l).
Proof. intros. unfold get_range. by rewrite decide_True by lia. Qed.

(** ** The interleaving loop *)

Lemma extend_symbols_spec padded w offset symbols :
  (offset + length symbols * w ≤ length padded)%nat →
  extend_symbols padded w offset symbols =
    Ok (imap (λ i s, s ++ slice (offset + i * w) w padded) symbols, (offset + length symbols * w)%nat).
Proof.
  revert offset. induction symbols as [|s ss IH]; intros offset Hl; cbn [extend_symbols length] in *; [by rewrite Nat.add_0_r|].
  rewrite get_range_ok by lia. cbn [mbind outcome_bind]. rewrite IH by lia. cbn [mbind outcome_bind imap].
  replace (offset + w - offset)%nat with w by lia. rewrite Nat.mul_0_l, Nat.add_0_r. apply (f_equal Ok), pair_equal_spec. split; [|lia].
  f_equal. apply imap_ext. intros i x _. cbn. do 2 f_equal. lia.
Qed.

Lemma imap_seq {A} (f : nat → nat → A) k : imap f (seq 0 k) = (λ i, f i i) <$> seq 0 k.
Proof.
  apply list_eq. intros i. rewrite list_lookup_imap, list_lookup_fmap. destruct (seq 0 k !! i) as [x|] eqn:Hx; [|done].
  by apply lookup_seq in Hx as [-> _].
Qed.

Section Layout.
Context `{RL : RaptorQLaws} `{BE : !BlockEncoders} `{BL : !BlockEncodersLaws}.

Lemma sub_blocks_total oti : rfc_valid oti → parts_before (sub_size oti) (Z.to_nat (sub_blocks oti)) = Z.to_nat (symbol_size oti).
Proof.
  intros (H1 & H2 & H3 & H4 & H5 & H6 & H7 & _). unfold sub_size. rewrite parts_before_scale.
  set (u := symbol_size oti / symbol_alignment oti) in *.
  pose proof (part_size_total u (sub_blocks oti) ltac:(lia) H5).
  pose proof (Z.div_mod (symbol_size oti) (symbol_alignment oti) ltac:(lia)) as Hd. fold u in Hd.
  apply Nat2Z.inj. rewrite Nat2Z.inj_mul, !Z2Nat.id by lia. lia.
Qed.

Lemma blocks_total oti : rfc_valid oti → Z.of_nat (parts_before (block_symbols oti) (Z.to_nat (source_blocks oti))) = symbols_of oti.
Proof.
  intros (H1 & H2 & H3 & _). apply part_size_total; [|done]. unfold symbols_of. apply div_ceil_nonneg; lia.
Qed.

(** After [n] sub-blocks every symbol holds its first [n] sub-symbols. *)
Lemma sub_block_loop_spec oti padded k n :
  rfc_valid oti → length padded = (k * Z.to_nat (symbol_size oti))%nat → (n ≤ Z.to_nat (sub_blocks oti))%nat →
  let units := symbol_size oti / symbol_alignment oti in
  let prefix m i := concat ((λ j, slice (k * parts_before (sub_size oti) j + i * sub_size oti j) (sub_size oti j) padded) <$> seq 0 m) in
  ∀ m, (m + n = Z.to_nat (sub_blocks oti))%nat →
  sub_block_loop padded (div_ceil units (sub_blocks oti)) (units / sub_blocks oti) (units mod sub_blocks oti) (symbol_alignment oti)
    (seq m n) (k * parts_before (sub_size oti) m) (prefix m <$> seq 0 k) =
  Ok (prefix (m + n)%nat <$> seq 0 k, (k * parts_before (sub_size oti) (m + n))%nat).
Proof.
  intros Hv Hp Hn units prefix. pose proof Hv as (H1 & H2 & H3 & H4 & H5 & H6 & H7 & _).
  pose proof (sub_blocks_total oti Hv) as Htot. clear Hn. induction n as [|n IH]; intros m Hm; cbn [seq sub_block_loop]; [by rewrite Nat.add_0_r|].
  assert (Hw : Z.to_nat ((if Z.of_nat m <? units mod sub_blocks oti then div_ceil units (sub_blocks oti) else units / sub_blocks oti) * symbol_alignment oti) = sub_size oti m).
  { unfold sub_size. fold units. rewrite <- part_size_partition by lia. rewrite Z2Nat.inj_mul; [done| |lia].
    assert (0 ≤ units / sub_blocks oti) by (apply Z.div_pos; lia). assert (0 ≤ div_ceil units (sub_blocks oti)) by (apply div_ceil_nonneg; lia).
    case_match; lia. }
  rewrite Hw. pose proof (parts_before_le_S (sub_size oti) m (Z.to_nat (sub_blocks oti)) ltac:(lia)) as Hle. rewrite Htot in Hle.
  rewrite extend_symbols_spec by (rewrite length_fmap, length_seq, Hp, <- Nat.mul_add_distr_l; by apply Nat.mul_le_mono_l). cbn [mbind outcome_bind].
  rewrite length_fmap, length_seq, <- Nat.mul_add_distr_l, <- parts_before_S.
  rewrite imap_fmap, imap_seq. match goal with |- context [sub_block_loop _ _ _ _ _ _ _ ?x] => replace x with (prefix (S m) <$> seq 0 k) end.
  2: { apply list_fmap_ext. intros i x _. unfold prefix. rewrite seq_S, fmap_app, concat_app. cbn. by rewrite app_nil_r. }
  rewrite IH by lia. by replace (S m + n)%nat with (m + S n)%nat by lia.
Qed.

(** ** One block, all blocks *)

Lemma fmap_const_seq {A} (x : A) k : (λ _, x) <$> seq 0 k = replicate k x.
Proof. generalize 0%nat. induction k as [|k IH]; intros a; [done|]. cbn. by rewrite IH. Qed.

(** Every block starts inside the object. *)
Lemma block_start_within data oti b :
  transfer_length oti = blen data → rfc_valid oti → (b < Z.to_nat (source_blocks oti))%nat →
  (parts_before (block_symbols oti) b * Z.to_nat (symbol_size oti) < length data)%nat.
Proof.
  intros Hl Hv Hb. pose proof (blocks_total oti Hv) as Htot. pose proof Hv as (H1 & H2 & H3 & _ & _ & _ & _ & H8 & _).
  pose proof (parts_before_le_S (block_symbols oti) b _ Hb) as Hle.
  assert (Hpos : (0 < block_symbols oti b)%nat).
  { unfold block_symbols, part_size. assert (1 ≤ symbols_of oti / source_blocks oti) by (apply Z.div_le_lower_bound; lia). case_match; lia. }
  unfold blen in Hl. unfold symbols_of in Htot. destruct (div_ceil_spec (transfer_length oti) (symbol_size oti)) as [Hd|Hd]; [lia|lia|nia|lia].
Qed.

Lemma block_packets_rfc data oti b :
  transfer_length oti = blen data → rfc_valid oti → (b < Z.to_nat (source_blocks oti))%nat →
  block_packets data oti b (Z.of_nat (parts_before (block_symbols oti) b) * symbol_size oti)
    (Z.of_nat (parts_before (block_symbols oti) (S b)) * symbol_size oti) = Ok (rfc_block_packets data oti b).
Proof.
  intros Hl Hv Hb. pose proof Hv as (H1 & H2 & H3 & H4 & H5 & H6 & H7 & H8 & _). destruct (oti_widths oti) as (_ & _ & [_ Hu8] & _).
  pose proof (block_start_within data oti b Hl Hv Hb) as Hstart. set (T := Z.to_nat (symbol_size oti)).
  assert (HT : (0 < T)%nat) by lia.
  assert (Ha : Z.to_nat (Z.of_nat (parts_before (block_symbols oti) b) * symbol_size oti) = (parts_before (block_symbols oti) b * T)%nat) by (by apply to_nat_scale; lia).
  assert (Hb' : Z.to_nat (Z.of_nat (parts_before (block_symbols oti) (S b)) * symbol_size oti) =
    (parts_before (block_symbols oti) b * T + block_symbols oti b * T)%nat) by (rewrite to_nat_scale, parts_before_S by lia; fold T; lia).
  unfold block_packets. rewrite Ha, Hb', get_range_ok by (fold T in Hstart; lia). cbn [mbind outcome_bind].
  replace (Z.to_nat (Z.of_nat (parts_before (block_symbols oti) (S b)) * symbol_size oti -
                     Z.of_nat (parts_before (block_symbols oti) b) * symbol_size oti)) with (block_symbols oti b * T)%nat
    by (rewrite <- Z.mul_sub_distr_r, parts_before_S, Nat2Z.inj_add, Z.add_simpl_l, to_nat_scale by lia; done).
  match goal with |- context [resize ?n 0 ?l] => replace (resize n 0 l) with (rfc_block data oti b) end.
  2: { unfold rfc_block, slice. fold T. apply resize_slice. lia. }
  assert (Hlen : length (rfc_block data oti b) = (block_symbols oti b * T)%nat) by (unfold rfc_block; by rewrite length_resize).
  rewrite Hlen. fold T. rewrite Nat.div_mul by lia. rewrite (proj2 (Z.eqb_neq _ _)) by lia. cbn [negb rassert mbind outcome_bind].
  rewrite partition_spec by lia. replace (_ mod _ + _) with (sub_blocks oti) by lia.
  pose proof (sub_block_loop_spec oti (rfc_block data oti b) (block_symbols oti b) (Z.to_nat (sub_blocks oti)) Hv Hlen ltac:(lia) 0 ltac:(lia)) as Hloop.
  cbv zeta in Hloop. rewrite Nat.mul_0_r in Hloop. change (concat _) with (@nil Z) in Hloop at 1.
  rewrite <- (fmap_const_seq []). cbn [seq fmap list_fmap concat] in Hloop. rewrite Hloop. cbn [mbind outcome_bind]. rewrite Nat.add_0_l, sub_blocks_total by done. fold T.
  rewrite bool_decide_true by done. cbn [rassert mbind outcome_bind]. f_equal. unfold rfc_block_packets.
  rewrite imap_fmap, imap_seq. apply list_fmap_ext. intros i x _. cbn. by rewrite Z.mod_small by lia.
Qed.

Lemma blocks_loop_rfc data oti m n :
  transfer_length oti = blen data → rfc_valid oti → (m + n ≤ Z.to_nat (source_blocks oti))%nat →
  blocks_loop data oti m
    ((λ b, (Z.of_nat (parts_before (block_symbols oti) b) * symbol_size oti,
            Z.of_nat (parts_before (block_symbols oti) (S b)) * symbol_size oti)) <$> seq m n) =
  Ok (seq m n ≫= rfc_block_packets data oti).
Proof.
  intros Hl Hv. revert m. induction n as [|n IH]; intros m Hm; cbn [seq fmap list_fmap blocks_loop]; [done|].
  rewrite block_packets_rfc by (done || lia). cbn [mbind outcome_bind]. rewrite IH by lia. done.
Qed.

Lemma source_packets_rfc data oti :
  transfer_length oti = blen data → rfc_valid oti → source_packets data oti = Ok (rfc_source_packets data oti).
Proof.
  intros Hl Hv. unfold source_packets. rewrite Hl, Z.eqb_refl. cbn [rassert mbind outcome_bind].
  rewrite (proj2 (Z.eqb_neq _ _)) by (destruct Hv as (_ & ? & _); lia). cbn [negb rassert mbind outcome_bind].
  rewrite block_offsets_spec by done. by apply blocks_loop_rfc.
Qed.

(** ** Rebuilding *)

Lemma rfc_block_length data oti b : length (rfc_block data oti b) = (block_symbols oti b * Z.to_nat (symbol_size oti))%nat.
Proof. unfold rfc_block. by rewrite length_resize. Qed.

Lemma rfc_symbol_part oti k block i j :
  rfc_valid oti → length block = (k * Z.to_nat (symbol_size oti))%nat → (i < k)%nat → (j < Z.to_nat (sub_blocks oti))%nat →
  length (slice (k * parts_before (sub_size oti) j + i * sub_size oti j) (sub_size oti j) block) = sub_size oti j.
Proof.
  intros Hv Hl Hi Hj. apply slice_length. rewrite Hl, <- (sub_blocks_total oti Hv).
  pose proof (parts_before_le_S (sub_size oti) j _ Hj). nia.
Qed.

Lemma rfc_symbol_length oti k block i :
  rfc_valid oti → length block = (k * Z.to_nat (symbol_size oti))%nat → (i < k)%nat →
  length (rfc_symbol oti k block i) = Z.to_nat (symbol_size oti).
Proof.
  intros Hv Hl Hi. unfold rfc_symbol. rewrite (parts_length (sub_size oti)); [by apply sub_blocks_total|].
  intros j Hj. by apply rfc_symbol_part.
Qed.

Lemma rfc_join_symbols oti k block :
  rfc_valid oti → length block = (k * Z.to_nat (symbol_size oti))%nat →
  rfc_join oti (rfc_symbol oti k block <$> seq 0 k) = block.
Proof.
  intros Hv Hl. unfold rfc_join.
  rewrite (bind_seq_ext _ _ (λ j, slice (k * parts_before (sub_size oti) j) (k * sub_size oti j) block)).
  - rewrite parts_concat, sub_blocks_total, <- Hl by done. apply firstn_all.
  - intros j Hj. rewrite fmap_bind_seq, <- slices_concat. apply bind_seq_ext. intros i Hi. unfold rfc_symbol.
    rewrite slice_of_parts; [done| |done]. intros j' Hj'. by apply rfc_symbol_part.
Qed.

Lemma rfc_object_packets data oti m n :
  rfc_valid oti → rfc_object oti (seq m n) (snd <$> (seq m n ≫= rfc_block_packets data oti)) = seq m n ≫= rfc_block data oti.
Proof.
  intros Hv. revert m. induction n as [|n IH]; intros m; [done|]. cbn [seq rfc_object mbind list_bind]. rewrite fmap_app.
  assert (Hk : snd <$> rfc_block_packets data oti m = rfc_symbol oti (block_symbols oti m) (rfc_block data oti m) <$> seq 0 (block_symbols oti m)).
  { unfold rfc_block_packets. by rewrite <- list_fmap_compose. }
  rewrite Hk, take_app_length', drop_app_length' by (by rewrite length_fmap, length_seq).
  rewrite rfc_join_symbols by (done || apply rfc_block_length). f_equal. apply IH.
Qed.

Lemma rfc_blocks_concat data oti n :
  (seq 0 n ≫= rfc_block data oti) = resize (parts_before (block_symbols oti) n * Z.to_nat (symbol_size oti)) 0 data.
Proof.
  induction n as [|n IH]; [by destruct data|]. rewrite seq_S, bind_app, IH. cbn [mbind list_bind]. rewrite app_nil_r, Nat.add_0_l.
  rewrite parts_before_S, Nat.mul_add_distr_r. by rewrite resize_add.
Qed.

Lemma rfc_object_data data oti :
  transfer_length oti = blen data → rfc_valid oti →
  take (length data) (rfc_object oti (seq 0 (Z.to_nat (source_blocks oti))) (snd <$> rfc_source_packets data oti)) = data.
Proof.
  intros Hl Hv. unfold rfc_source_packets. rewrite rfc_object_packets, rfc_blocks_concat by done.
  pose proof (blocks_total oti Hv) as Htot. destruct Hv as (H1 & H2 & _).
  rewrite resize_ge; [by apply take_app_length|].
  unfold blen, symbols_of in *. destruct (div_ceil_spec (transfer_length oti) (symbol_size oti)) as [Hd|Hd]; [lia|lia|nia|lia].
Qed.

Lemma rfc_source_count data oti : rfc_valid oti → Z.of_nat (length (rfc_source_packets data oti)) = symbols_of oti.
Proof.
  intros Hv. rewrite <- (blocks_total oti Hv). f_equal. unfold rfc_source_packets.
  generalize (Z.to_nat (source_blocks oti)). induction n as [|n IH]; [done|].
  rewrite seq_S, bind_app, length_app, IH, parts_before_S. cbn [mbind list_bind]. rewrite app_nil_r, Nat.add_0_l.
  unfold rfc_block_packets. by rewrite length_fmap, length_seq.
Qed.

Lemma rfc_source_symbol_size data oti id sym :
  rfc_valid oti → (id, sym) ∈ rfc_source_packets data oti → blen sym = symbol_size oti.
Proof.
  intros Hv. unfold rfc_source_packets. intros (b & Hp & Hb%elem_of_seq)%list_elem_of_bind.
  apply list_elem_of_fmap in Hp as (i & [= -> ->] & Hi%elem_of_seq). unfold blen.
  rewrite rfc_symbol_length by (done || lia || apply rfc_block_length). destruct Hv as (_ & ? & _). lia.
Qed.

(** ** The sender *)

Lemma send_encoded_app oti a b self :
  send_encoded oti (a ++ b) self = (_ ← send_encoded oti a; send_encoded oti b) self.
Proof.
  revert self. induction a as [|[id data] a IH]; intros self; [done|]. cbn [app send_encoded]. run_handler.
  destruct (on_channel _ self) as [s1 [[]|e|]]; [|done|done]. rewrite IH. by run_handler.
Qed.

Lemma send_fec_packets_encoded oti ps self : send_fec_packets oti ps self = send_encoded oti ps self.
Proof.
  revert self. induction ps as [|[id data] ps IH]; intros self; [done|]. cbn [send_fec_packets send_encoded]. unfold send_fec_packet. run_handler.
  destruct (on_channel _ self) as [s1 [[]|e|]]; [|done|done]. apply IH.
Qed.

Lemma send_repairs_encoded data oti n bs self :
  send_repairs data oti n bs self = send_encoded (oti_serialize oti) (bs ≫= λ b, repair_packets data oti b 0 n) self.
Proof.
  revert self. induction bs as [|b bs IH]; intros self; [done|]. cbn [send_repairs mbind list_bind]. rewrite send_encoded_app.
  run_handler. rewrite send_fec_packets_encoded. destruct (send_encoded _ _ self) as [s1 [[]|e|]]; [|done|done]. apply IH.
Qed.

(** All datagrams of a list of packets *)
Lemma send_encoded_open oti ps self id max sent :
  ky_channel self = open_channel id max sent →
  let self' := {| ky_channel := open_channel id max (sent ++ ((λ p, datagram_bytes self oti p.1 p.2) <$> ps));
                  stream := stream self; kypacket_seq := kypacket_seq self; group_seq := group_seq self |} in
  send_encoded oti ps self = (self', Ok tt).
Proof.
  revert self sent. induction ps as [|[i d] ps IH]; intros [ch st k g] sent Hch self'; cbn in Hch; subst ch.
  { unfold self'. cbn. by rewrite app_nil_r. }
  cbn [send_encoded]. run_handler. unfold on_channel. cbn [ky_channel]. rewrite send_datagram_open. cbn [stream kypacket_seq group_seq].
  etrans; [eapply IH; done|]. unfold self'. cbn. by rewrite <- app_assoc.
Qed.

(** Whatever the connection does, the source-first path is the loop of the
    ordinary path on the source symbols followed by the repair symbols. *)
Lemma send_source_first_encoded data max self :
  let oti := encoder_config data max in
  transfer_length oti = blen data → rfc_valid oti →
  send_source_first data max self =
  send_encoded (oti_serialize oti)
    (rfc_source_packets data oti ++
     (seq 0 (Z.to_nat (source_blocks oti)) ≫= λ b, repair_packets data oti b 0 (repair_symbols (symbols_of oti)))) self.
Proof.
  intros oti Hl Hv. unfold send_source_first. rewrite <- config_is_default. fold oti. rewrite source_packets_rfc by done.
  rewrite send_encoded_app. run_handler. rewrite send_fec_packets_encoded, rfc_source_count by done.
  destruct (send_encoded _ _ self) as [s1 [[]|e|]]; [|done|done]. rewrite send_repairs_encoded, block_count_spec by done. done.
Qed.

Lemma encoded_packets_perm data oti n :
  transfer_length oti = blen data → rfc_valid oti →
  get_encoded_packets data oti n ≡ₚ
  rfc_source_packets data oti ++ (seq 0 (Z.to_nat (source_blocks oti)) ≫= λ b, repair_packets data oti b 0 n).
Proof.
  intros Hl Hv. rewrite encoded_packets_order by done. unfold rfc_source_packets.
  rewrite (bind_seq_ext _ _ (λ b, rfc_block_packets data oti b ++ repair_packets data oti b 0 n))
    by (intros; by rewrite block_sources_rfc).
  generalize (seq 0 (Z.to_nat (source_blocks oti))). induction l as [|b l IH]; [done|]. cbn. rewrite IH. solve_Permutation.
Qed.

(** ** Theorems *)

(** C14: the source symbols cut out of an object by [source_packets] are those
    of RFC 6330: no assertion or slice of the loop fails, the packets are the
    library's own source packets in the order of the blocks, and symbol [i] of a
    block joins its [i]-th sub-symbol of every sub-block, padding included. *)
Theorem source_packets_match_library data oti :
  transfer_length oti = blen data → rfc_valid oti →
  source_packets data oti = Ok (rfc_source_packets data oti) ∧
  source_packets data oti = Ok (seq 0 (block_count data oti) ≫= block_source_packets data oti).
Proof.
  intros Hl Hv. rewrite source_packets_rfc, block_count_spec by done. split; [done|]. f_equal.
  apply bind_seq_ext. intros b Hb. by rewrite block_sources_rfc.
Qed.

(** The source symbols alone carry the object: there are exactly
    [symbols_of] of them, all of the symbol size, and joining them sub-block by
    sub-block and block by block gives the object back. *)
Theorem source_symbols_rebuild_object data oti :
  transfer_length oti = blen data → rfc_valid oti →
  ∃ packets, source_packets data oti = Ok packets ∧
    Z.of_nat (length packets) = symbols_of oti ∧
    Forall (λ p : PayloadId * bytes, blen p.2 = symbol_size oti) packets ∧
    take (length data) (rfc_object oti (seq 0 (Z.to_nat (source_blocks oti))) (snd <$> packets)) = data.
Proof.
  intros Hl Hv. exists (rfc_source_packets data oti). split_and!; [by apply source_packets_rfc|by apply rfc_source_count| |by apply rfc_object_data].
  apply Forall_forall. intros [id sym] Hp. by eapply rfc_source_symbol_size.
Qed.

(** C25: sending the source symbols first changes only the order: on the same
    channel both paths succeed, leave the same sequence numbers, and the
    datagrams of the source-first path are a permutation of those of the
    ordinary path that starts with all source symbols. *)
Theorem source_first_same_datagrams packet self id max sent :
  wf_media (header packet) → is_config (header packet) = false → size (header packet) = blen (payload packet) →
  Z.of_nat DATAGRAM_HEADER_SIZE < max < 0x10000 →
  ky_channel self = open_channel id max sent →
  let oti := encoder_config (media_image packet) (max - Z.of_nat DATAGRAM_HEADER_SIZE) in
  rfc_valid oti →
  ∃ self1 self2 ds1 ds2,
    send_datagrams packet self = (self1, Ok tt) ∧ ky_channel self1 = open_channel id max (sent ++ ds1) ∧
    send_datagrams_source_first packet self = (self2, Ok tt) ∧ ky_channel self2 = open_channel id max (sent ++ ds2) ∧
    ds2 ≡ₚ ds1 ∧
    (∃ repairs, ds2 = ((λ p, datagram_bytes self (oti_serialize oti) p.1 p.2) <$> rfc_source_packets (media_image packet) oti) ++ repairs) ∧
    kypacket_seq self1 = kypacket_seq self2 ∧ group_seq self1 = group_seq self2 ∧ stream self1 = stream self2.
Proof.
  intros Hwf _ Hs Hmax Hch oti Hv. set (data := media_image packet) in *.
  assert (Hlen : 0 < blen data < 2 ^ 40).
  { unfold data, media_image, blen. rewrite !length_app, !be_bytes_length. unfold blen in Hs. destruct Hwf as [_ Hz]. unfold is_u32 in Hz. lia. }
  assert (Hl : transfer_length oti = blen data) by (apply encoder_config_spec; lia).
  pose proof (send_source_first_encoded data (max - Z.of_nat DATAGRAM_HEADER_SIZE) self Hl Hv) as Hsf. fold oti in Hsf.
  pose proof (encoded_packets_perm data oti (repair_symbols (symbols_of oti)) Hl Hv) as Hperm.
  unfold send_datagrams, send_datagrams_source_first. run_handler. rewrite Hch. cbn [max_datagram_size open_channel ok_or].
  rewrite (proj2 (Z.ltb_lt _ _) (proj1 Hmax)), (proj2 (Z.ltb_lt _ _) (proj2 Hmax)). cbn [rassert].
  rewrite media_serialize_eq by done. cbv beta iota zeta. rewrite <- app_assoc. fold (media_image packet). fold data. fold oti.
  rewrite (proj2 (Z.eqb_neq _ _)) by (destruct Hv as (_ & ? & _); lia). cbn [negb rassert].
  rewrite Hsf, <- Hl. fold (symbols_of oti). rewrite !(send_encoded_open _ _ self id max sent Hch).
  eexists _, _, _, _. split_and!; try done; cbn.
  - apply fmap_Permutation. symmetry. exact Hperm.
  - rewrite fmap_app. by eexists.
Qed.
End Layout.

(** ** A concrete code

    One decoder aside (it never completes), the layout of RFC 6330 itself:
    every law of the two interfaces holds of it. *)

#[local] Instance rfc_blocks : BlockEncoders (H:=systematic) := {
  PayloadId_new := mk_id;
  calculate_block_offsets data o :=
    (λ b, (Z.of_nat (parts_before (block_symbols o) b) * symbol_size o,
           Z.of_nat (parts_before (block_symbols o) (S b)) * symbol_size o)) <$> seq 0 (Z.to_nat (source_blocks o));
  oti_with_defaults len max := mk_oti {| r_length := len; r_symbol := Z.min max 65535; r_blocks := 1; r_sub := 1; r_align := 1 |};
  block_count _ o := Z.to_nat (source_blocks o);
  block_source_packets _ _ _ := [];
  repair_packets _ _ _ _ _ := [];
}.

Definition interleaved : RaptorQ := {|
  Oti := sys_oti; Oti_eq_dec := _;
  transfer_length := transfer_length (RaptorQ:=systematic);
  symbol_size := symbol_size (RaptorQ:=systematic);
  source_blocks := source_blocks (RaptorQ:=systematic);
  sub_blocks := sub_blocks (RaptorQ:=systematic);
  symbol_alignment := symbol_alignment (RaptorQ:=systematic);
  oti_serialize := sys_oti_serialize;
  oti_deserialize := sys_oti_deserialize;
  PayloadId := sys_id;
  source_block_number := source_block_number (RaptorQ:=systematic);
  encoding_symbol_id := encoding_symbol_id (RaptorQ:=systematic);
  id_serialize := sys_id_serialize;
  id_deserialize := sys_id_deserialize;
  partition := partition (RaptorQ:=systematic);
  Decoder := unit;
  Decoder_new _ := Ok tt;
  Decoder_decode _ _ d := Ok (d, None);
  encoder_config := sys_config;
  get_encoded_packets data o _ := rfc_source_packets data o;
|}.

#[local] Existing Instance interleaved | 0.

#[local] Instance interleaved_blocks : BlockEncoders (H:=interleaved) := {
  PayloadId_new := mk_id;
  calculate_block_offsets := calculate_block_offsets (BlockEncoders:=rfc_blocks);
  oti_with_defaults := oti_with_defaults (BlockEncoders:=rfc_blocks);
  block_count _ o := Z.to_nat (source_blocks o);
  block_source_packets := rfc_block_packets (RQ:=systematic) (BE:=rfc_blocks);
  repair_packets _ _ _ _ _ := [];
}.

#[local] Instance interleaved_block_laws : BlockEncodersLaws (H:=interleaved).
Proof.
  split.
  - intros b e Hb He. unfold is_u8 in Hb. cbn. by rewrite !Z.mod_small by lia.
  - done.
  - done.
  - done.
  - done.
  - intros data oti n _ _. cbn. unfold rfc_source_packets. apply bind_seq_ext. intros b _. by rewrite app_nil_r.
Qed.

Lemma interleaved_shape data (oti : sys_oti) id sym :
  rfc_valid oti → (id, sym) ∈ rfc_source_packets (RQ:=interleaved) data oti → source_block_number id < source_blocks oti.
Proof.
  intros Hv. unfold rfc_source_packets. intros (b & Hp & Hb%elem_of_seq)%list_elem_of_bind.
  apply list_elem_of_fmap in Hp as (i & [= -> ->] & _). pose proof (proj2_sig oti) as Ho. apply bool_decide_unpack in Ho.
  destruct Ho as (_ & _ & [Hb0 Hb1] & _). change (0 ≤ b < 0 + Z.to_nat (r_blocks (`oti)))%nat in Hb.
  change (Z.of_nat b mod 2 ^ 8 < r_blocks (`oti)). rewrite Z.mod_small; lia.
Qed.

Lemma rfc_source_size_interleaved data (oti : sys_oti) (id : sys_id) sym :
  rfc_valid oti → (id, sym) ∈ rfc_source_packets (RQ:=systematic) (BE:=rfc_blocks) data oti → blen sym = symbol_size (RaptorQ:=systematic) oti.
Proof. apply (rfc_source_symbol_size (H:=systematic) (BE:=rfc_blocks)). Qed.

#[local] Instance interleaved_laws : RaptorQLaws (H:=interleaved).
Proof.
  refine {| decoder_for := λ _ _, True |}.
  - exact (oti_widths (RaptorQLaws:=systematic_laws)).
  - exact (id_widths (RaptorQLaws:=systematic_laws)).
  - apply sys_oti_image.
  - apply sys_id_image.
  - done.
  - intros o _. by exists tt.
  - intros o i s d _ _ _. by eexists _, _.
  - exact (encoder_config_spec (RaptorQLaws:=systematic_laws)).
  - intros data o n i s _ Hv Hin. split; [by eapply (interleaved_shape data)|by eapply (rfc_source_size_interleaved data)].
  - intros data o n ps d outs _ _ _ _ _ Hf out Hout. exfalso. revert d outs Hf Hout.
    induction ps as [|[i s] ps IH]; intros d outs; cbn [feed_decoder].
    + intros [= <-] Hout. by apply not_elem_of_nil in Hout.
    + cbn [Decoder_decode interleaved mbind outcome_bind]. intros (outs' & Hf & [= <-])%bind_Ok Hout.
      apply elem_of_cons in Hout as [|]; [done|]. by eapply IH.
Qed.

(** ** Samples *)

(** Two blocks of three and two symbols of five bytes, each split into a
    sub-block of three and one of two bytes per symbol *)
Definition sample_layout : Oti (RaptorQ:=interleaved) := mk_oti {| r_length := 23; r_symbol := 5; r_blocks := 2; r_sub := 2; r_align := 1 |}.
Definition sample_data : bytes := Z.of_nat <$> seq 1 23.

(** The interleaving is visible: the second symbol of the first block joins
    bytes 4, 5, 6 and 12, 13. *)
Example sample_symbols :
  (snd <$> rfc_source_packets sample_data sample_layout) =
  [[1; 2; 3; 10; 11]; [4; 5; 6; 12; 13]; [7; 8; 9; 14; 15]; [16; 17; 18; 22; 23]; [19; 20; 21; 0; 0]].
Proof. by vm_compute. Qed.

Lemma sample_layout_valid : rfc_valid sample_layout.
Proof. unfold rfc_valid, symbols_of. split_and!; by vm_compute. Qed.

Lemma source_packets_match_library_witness :
  source_packets sample_data sample_layout = Ok (rfc_source_packets sample_data sample_layout) ∧
  source_packets sample_data sample_layout = Ok (seq 0 (block_count sample_data sample_layout) ≫= block_source_packets sample_data sample_layout).
Proof. apply (source_packets_match_library sample_data sample_layout); [done|apply sample_layout_valid]. Defined.

Lemma source_symbols_rebuild_object_witness :
  ∃ packets, source_packets sample_data sample_layout = Ok packets ∧ Z.of_nat (length packets) = 5 ∧
    Forall (λ p : sys_id * bytes, blen p.2 = 5) packets ∧
    take 23 (rfc_object sample_layout (seq 0 2) (snd <$> packets)) = sample_data.
Proof. apply (source_symbols_rebuild_object sample_data sample_layout); [done|apply sample_layout_valid]. Defined.

Lemma source_first_same_datagrams_witness :
  ∃ self1 self2 ds1 ds2,
    send_datagrams sample_packet sample_sender = (self1, Ok tt) ∧ ky_channel self1 = open_channel 3 34 ([] ++ ds1) ∧
    send_datagrams_source_first sample_packet sample_sender = (self2, Ok tt) ∧ ky_channel self2 = open_channel 3 34 ([] ++ ds2) ∧
    ds2 ≡ₚ ds1 ∧
    (∃ repairs, ds2 = ((λ p, datagram_bytes sample_sender (oti_serialize (encoder_config (media_image sample_packet) 8)) p.1 p.2) <$>
       rfc_source_packets (media_image sample_packet) (encoder_config (media_image sample_packet) 8)) ++ repairs) ∧
    kypacket_seq self1 = kypacket_seq self2 ∧ group_seq self1 = group_seq self2 ∧ stream self1 = stream self2.
Proof.
  apply (source_first_same_datagrams sample_packet sample_sender 3 34 []); done.
Defined.
