(* ===== verification/CancelSafe.v ===== *)
(** * Protocol drivers, cancel-safe wrappers and bidirectional forwarding

    Models [kymux-types/src/lib.rs]: the driver traits, the two
    [make_cancel_safe] wrappers, which move a driver into a task of its own and
    talk to it over queues of one element, and [forward_bi].  A call of [send]
    or [recv] that is cancelled leaves the wrapper unchanged; the tasks are
    steps, so the theorems hold for every interleaving and every placement of
    the cancellations. *)

From stdpp Require Import prelude list strings.
From Stdlib Require Import ZArith Lia.
From S2P Require Import Prelude.
Open Scope Z_scope.

(** ** The driver traits *)

Class ProtocolSendDriver (S P : Type) := drv_send : P → handler S ProtocolError unit.
Class ProtocolRecvDriver (S P : Type) := drv_recv : handler S ProtocolError (option P).

Section Receiver.
Context {S P : Type} `{ProtocolRecvDriver S P}.

(** ** [ProtocolRecv::make_cancel_safe] *)

(** [Result<T, ProtocolError>], the elements of the queue *)
Inductive Item := Packet (p : P) | Failure (e : ProtocolError).

(** Where the task is: in [self.recv()], in [tx.send(packet)], or gone *)
Inductive RecvTask := Receiving | Forwarding (x : Item) | RecvDone.

Record Receiver := { rc_inner : S; rc_task : RecvTask; rc_queue : list Item; rc_open : bool }.

Definition receiver_cancel_safe (inner : S) : Receiver :=
  {| rc_inner := inner; rc_task := Receiving; rc_queue := []; rc_open := true |}.

(** [Option<Result<T, _>>::transpose] *)
Definition transpose (x : Item) : outcome ProtocolError (option P) :=
  match x with Packet p => Ok (Some p) | Failure e => Err e end.

Definition set_recv_task (t : RecvTask) (self : Receiver) : Receiver :=
  {| rc_inner := rc_inner self; rc_task := t; rc_queue := rc_queue self; rc_open := rc_open self |}.

(** One step of the spawned task; [None] while it waits *)
Definition recv_task (self : Receiver) : option Receiver :=
  match rc_task self with
  | Receiving =>
      let '(inner, r) := drv_recv (rc_inner self) in
      let self := {| rc_inner := inner; rc_task := rc_task self; rc_queue := rc_queue self; rc_open := rc_open self |} in
      Some (match r with
            | Ok (Some p) => set_recv_task (Forwarding (Packet p)) self
            | Err e => set_recv_task (Forwarding (Failure e)) self
            | Ok None | Panic => set_recv_task RecvDone self
            end)
  | Forwarding x =>
      if negb (rc_open self) then Some (set_recv_task RecvDone self)
      else
        match rc_queue self with
        | [] => Some {| rc_inner := rc_inner self; rc_task := Receiving; rc_queue := [x]; rc_open := true |}
        | _ => None
        end
  | RecvDone => None
  end.

(** [Receiver::recv], when it completes *)
Definition recv_safe (self : Receiver) : option (Receiver * outcome ProtocolError (option P)) :=
  match rc_queue self with
  | x :: q => Some ({| rc_inner := rc_inner self; rc_task := rc_task self; rc_queue := q; rc_open := rc_open self |}, transpose x)
  | [] => match rc_task self with RecvDone => Some (self, Ok None) | _ => None end
  end.

Definition drop_receiver (self : Receiver) : Receiver :=
  {| rc_inner := rc_inner self; rc_task := rc_task self; rc_queue := []; rc_open := false |}.

Inductive RecvEvent := RTask | RReturned (r : outcome ProtocolError (option P)) | RCancelled | RDropped.

Inductive receiver_step : Receiver → RecvEvent → Receiver → Prop :=
| receiver_task s s' : recv_task s = Some s' → receiver_step s RTask s'
| receiver_recv s s' r : rc_open s = true → recv_safe s = Some (s', r) → receiver_step s (RReturned r) s'
| receiver_cancel s : rc_open s = true → receiver_step s RCancelled s
| receiver_drop s : rc_open s = true → receiver_step s RDropped (drop_receiver s).

(** The results the caller got *)
Definition returned (es : list RecvEvent) : list (outcome ProtocolError (option P)) :=
  omap (λ e, match e with RReturned r => Some r | _ => None end) es.

(** ** Specification: calling the driver directly

    The result of call number [i]; after the end of the stream every call
    returns it again.  A call that panics counts as the end of the stream: the
    panic ends the spawned task, which closes the queue, and the user of the
    wrapper sees the end. *)
Fixpoint direct_recv (i : nat) (s : S) : outcome ProtocolError (option P) :=
  let '(s, r) := drv_recv s in
  match r with
  | Ok None | Panic => Ok None
  | _ => match i with O => r | Datatypes.S i => direct_recv i s end
  end.
End Receiver.
Arguments Item P : clear implicits.
Arguments RecvTask P : clear implicits.
Arguments Receiver S P : clear implicits.
Arguments RecvEvent P : clear implicits.

Section Sender.
Context {S P : Type} `{ProtocolSendDriver S P}.

(** ** [ProtocolSend::make_cancel_safe] *)

(** Where the task is: in [rx.recv()], in [self.send(packet)], in
    [errors_tx.send(err)], or gone *)
Inductive SendTask := Idle | Busy (p : P) | Reporting (e : ProtocolError) | SendDone.

Record Sender := { sn_inner : S; sn_task : SendTask; sn_queue : list P; sn_errors : list ProtocolError; sn_open : bool }.

Definition sender_cancel_safe (inner : S) : Sender :=
  {| sn_inner := inner; sn_task := Idle; sn_queue := []; sn_errors := []; sn_open := true |}.

Definition set_send_task (t : SendTask) (self : Sender) : Sender :=
  {| sn_inner := sn_inner self; sn_task := t; sn_queue := sn_queue self; sn_errors := sn_errors self; sn_open := sn_open self |}.

Definition send_task (self : Sender) : option Sender :=
  match sn_task self with
  | Idle =>
      match sn_queue self with
      | p :: q => Some {| sn_inner := sn_inner self; sn_task := Busy p; sn_queue := q; sn_errors := sn_errors self; sn_open := sn_open self |}
      | [] => if sn_open self then None else Some (set_send_task SendDone self)
      end
  | Busy p =>
      let '(inner, r) := drv_send p (sn_inner self) in
      let t := match r with Ok _ => Idle | Err e => Reporting e | Panic => SendDone end in
      Some {| sn_inner := inner; sn_task := t; sn_queue := sn_queue self; sn_errors := sn_errors self; sn_open := sn_open self |}
  | Reporting e =>
      if negb (sn_open self) then Some (set_send_task SendDone self)
      else
        match sn_errors self with
        | [] => Some {| sn_inner := sn_inner self; sn_task := Idle; sn_queue := sn_queue self; sn_errors := [e]; sn_open := true |}
        | _ => None
        end
  | SendDone => None
  end.

Definition disconnected : ProtocolError := "send task disconnected".

(** [Sender::send], when it completes: a pending error is looked at first *)
Definition send_safe (p : P) (self : Sender) : option (Sender * outcome ProtocolError unit) :=
  match sn_errors self with
  | e :: es =>
      Some ({| sn_inner := sn_inner self; sn_task := sn_task self; sn_queue := sn_queue self; sn_errors := es; sn_open := sn_open self |}, Err e)
  | [] =>
      match sn_task self with
      | SendDone => Some (self, Err disconnected)
      | _ =>
          match sn_queue self with
          | [] => Some ({| sn_inner := sn_inner self; sn_task := sn_task self; sn_queue := [p]; sn_errors := []; sn_open := sn_open self |}, Ok tt)
          | _ => None
          end
      end
  end.

Definition drop_sender (self : Sender) : Sender :=
  {| sn_inner := sn_inner self; sn_task := sn_task self; sn_queue := sn_queue self; sn_errors := []; sn_open := false |}.

Inductive SendEvent := STask | SReturned (p : P) (r : outcome ProtocolError unit) | SCancelled (p : P) | SDropped.

Inductive sender_step : Sender → SendEvent → Sender → Prop :=
| sender_task s s' : send_task s = Some s' → sender_step s STask s'
| sender_send s p s' r : sn_open s = true → send_safe p s = Some (s', r) → sender_step s (SReturned p r) s'
| sender_cancel s p : sn_open s = true → sender_step s (SCancelled p) s
| sender_drop s : sn_open s = true → sender_step s SDropped (drop_sender s).

(** The packets whose [send] returned [Ok], and the errors returned *)
Definition accepted (es : list SendEvent) : list P :=
  omap (λ e, match e with SReturned p (Ok _) => Some p | _ => None end) es.
Definition reported (es : list SendEvent) : list ProtocolError :=
  omap (λ e, match e with SReturned _ (Err e) => Some e | _ => None end) es.

(** What the task still has to send, and the errors not returned yet *)
Definition in_flight (self : Sender) : list P := match sn_task self with Busy p => p :: sn_queue self | _ => sn_queue self end.
Definition unreported (self : Sender) : list ProtocolError :=
  sn_errors self ++ match sn_task self with Reporting e => [e] | _ => [] end.

(** ** Specification: calling the driver directly with each packet

    The driver afterwards and the errors of the calls; [None] if one panics *)
Fixpoint direct_sends (ps : list P) (s : S) : option (S * list ProtocolError) :=
  match ps with
  | [] => Some (s, [])
  | p :: ps =>
      match drv_send p s with
      | (s, Ok _) => direct_sends ps s
      | (s, Err e) => '(s, es) ← direct_sends ps s; Some (s, e :: es)
      | (_, Panic) => None
      end
  end.
End Sender.
Arguments SendTask P : clear implicits.
Arguments Sender S P : clear implicits.
Arguments SendEvent P : clear implicits.

(** ** The wrapped receiver *)

Section ReceiverProof.
Context {S P : Type} `{ProtocolRecvDriver S P}.

(** What the next calls of the wrapped receiver will return, by number *)
Definition pending_items (s : Receiver S P) : list (Item P) :=
  rc_queue s ++ match rc_task s with Forwarding x => [x] | _ => [] end.

Definition future (s : Receiver S P) (i : nat) : outcome ProtocolError (option P) :=
  match pending_items s !! i with
  | Some x => transpose x
  | None => match rc_task s with RecvDone => Ok None | _ => direct_recv (i - length (pending_items s)) (rc_inner s) end
  end.

(** Moves of the task are invisible. *)
Lemma recv_task_future s s' : rc_open s = true → recv_task s = Some s' → rc_open s' = true ∧ ∀ i, future s' i = future s i.
Proof.
  destruct s as [inner [|x|] q op]; unfold recv_task; cbn; intros ->; [| |done].
  - destruct (drv_recv inner) as [inner' r] eqn:Hr. intros [= <-]. split; [by repeat case_match|]. intros i.
    unfold future, pending_items. cbn. rewrite app_nil_r. assert (Hd : ∀ n, direct_recv n inner =
      match r with Ok None | Panic => Ok None | _ => match n with O => r | Datatypes.S n => direct_recv n inner' end end)
      by (intros []; cbn; by rewrite Hr).
    rewrite Hd. destruct r as [[p|]|e|]; cbn; rewrite ?app_nil_r; try done.
    all: destruct (decide (i < length q)%nat);
      [rewrite lookup_app_l by done; destruct (lookup_lt_is_Some_2 q i) as [y ->]; done|].
    all: rewrite lookup_app_r, (lookup_ge_None_2 q) by lia; rewrite length_app; cbn;
      destruct (i - length q)%nat as [|k] eqn:Hi; cbn; [done|]; f_equal; lia.
  - destruct q as [|y q]; [|done]. intros [= <-]. split; [done|]. intros i. unfold future, pending_items. by cbn.
Qed.

(** A completed call returns the head of the future. *)
Lemma recv_safe_future s s' r :
  recv_safe s = Some (s', r) → rc_open s' = rc_open s ∧ r = future s 0 ∧ ∀ i, future s' i = future s (Datatypes.S i).
Proof.
  destruct s as [inner t q op]. unfold recv_safe, future, pending_items. cbn. destruct q as [|x q]; cbn.
  - destruct t; [done|done|]. by intros [= <- <-].
  - intros [= <- <-]. done.
Qed.

Lemma receiver_runs_future inner es s :
  runs receiver_step (receiver_cancel_safe inner) es s →
  (∀ i r, returned es !! i = Some r → r = direct_recv i inner) ∧
  (rc_open s = true → ∀ i, future s i = direct_recv (length (returned es) + i) inner).
Proof.
  apply (runs_invariant receiver_step (λ es s, (∀ i r, returned es !! i = Some r → r = direct_recv i inner) ∧
    (rc_open s = true → ∀ i, future s i = direct_recv (length (returned es) + i) inner))).
  { split; [done|]. intros _ i. unfold future, receiver_cancel_safe, pending_items. cbn. by rewrite Nat.sub_0_r. }
  clear. intros es l s s' [Hret Hfut] Hstep. unfold returned. rewrite omap_app. fold (returned es).
  destruct Hstep as [s s' Ht|s s' r Ho Hr|s Ho|s Ho]; cbn; rewrite ?app_nil_r.
  - split; [done|]. intros Ho'. assert (Ho : rc_open s = true).
    { destruct s as [i t q []]; [done|]. unfold recv_task in Ht. cbn in Ht. destruct t; [|by injection Ht as <-|done].
      destruct (drv_recv i) as [? [[]| |]]; by injection Ht as <-. }
    destruct (recv_task_future s s' Ho Ht) as [_ Hf]. intros i. rewrite Hf. by apply Hfut.
  - apply recv_safe_future in Hr as (Ho' & -> & Hf). specialize (Hfut Ho). split.
    + intros i r Hi. destruct (decide (i < length (returned es))%nat) as [Hl|Hl].
      * rewrite lookup_app_l in Hi by done. by apply Hret.
      * rewrite lookup_app_r in Hi by lia. apply list_lookup_singleton_Some in Hi as [Hz <-].
        rewrite Hfut. f_equal. lia.
    + intros _ i. rewrite Hf, Hfut, length_app. cbn. f_equal. lia.
  - done.
  - done.
Qed.

(** C13: wrapping a receiving driver with [make_cancel_safe] does not change what
    is received: whatever calls are cancelled and however the task is scheduled,
    the [i]-th call that completes returns what the [i]-th call of the driver
    itself would return, errors included; nothing is lost, repeated or
    reordered.  A panic of the driver is seen as the end of the stream, and after
    the end the driver is not called again. *)
Theorem cancel_safe_recv_equivalent inner es s i r :
  runs receiver_step (receiver_cancel_safe inner) es s →
  returned es !! i = Some r → r = direct_recv i inner.
Proof. intros Hr. apply (proj1 (receiver_runs_future inner es s Hr)). Qed.

Lemma recv_enabled_soon (s : Receiver S P) :
  rc_open s = true →
  ∃ ts s' s'' r, Forall (eq RTask) ts ∧ (length ts ≤ 2)%nat ∧ runs receiver_step s ts s' ∧ recv_safe s' = Some (s'', r).
Proof.
  intros Ho. destruct (recv_safe s) as [[s'' r]|] eqn:Hr.
  { exists [], s, s'', r. split_and!; [done|cbn; lia|constructor|done]. }
  destruct s as [inner t q op]. cbn in Ho. subst op. unfold recv_safe in Hr. cbn in Hr. destruct q as [|x q]; [|done].
  destruct t as [|x|]; [| |done].
  - destruct (drv_recv inner) as [inner' r] eqn:Hd.
    set (s1 := {| rc_inner := inner'; rc_task := match r with Ok (Some p) => Forwarding (Packet p) | Err e => Forwarding (Failure e) | _ => RecvDone end;
                  rc_queue := []; rc_open := true |} : Receiver S P).
    assert (H1 : receiver_step {| rc_inner := inner; rc_task := Receiving; rc_queue := []; rc_open := true |} RTask s1)
      by (constructor; unfold recv_task; cbn; rewrite Hd; by destruct r as [[]| |]).
    destruct r as [[p|]|e|].
    2,4: exists [RTask], s1, s1, (Ok None); split_and!; [by repeat constructor|cbn; lia|by apply runs_one|done].
    all: eexists [RTask; RTask], _, _, _; split_and!; [by repeat constructor|cbn; lia| |].
    all: try (apply (runs_snoc _ _ [RTask] RTask s1); [by apply runs_one|by constructor]).
    all: done.
  - eexists [RTask], _, _, _. split_and!; [by repeat constructor|cbn; lia| |].
    + apply runs_one. by constructor.
    + done.
Qed.

(** A call of the wrapped receiver completes after at most two moves of the
    task, and the task reads at most two packets ahead of the caller. *)
Theorem cancel_safe_recv_progress inner es s :
  runs receiver_step (receiver_cancel_safe inner) es s → rc_open s = true →
  (length (pending_items s) ≤ 2)%nat ∧
  ∃ ts s' s'' r, Forall (eq RTask) ts ∧ (length ts ≤ 2)%nat ∧ runs receiver_step s ts s' ∧ recv_safe s' = Some (s'', r).
Proof.
  intros Hr Ho. split.
  - assert (Hq : (length (rc_queue s) ≤ 1)%nat).
    { revert Hr. apply (runs_invariant receiver_step (λ _ s, length (rc_queue s) ≤ 1)%nat); [cbn; lia|]. clear.
      intros _ l s s' Hq Hstep. destruct Hstep as [s s' Ht|s s' r Ho Hr|s Ho|s Ho]; [| |done|cbn; lia].
      - unfold recv_task in Ht. destruct s as [i t q o]; cbn in *. destruct t; [| |done].
        + destruct (drv_recv i) as [? [[]| |]]; by injection Ht as <-.
        + destruct o; cbn in Ht; [|by injection Ht as <-]. destruct q; [|done]. injection Ht as <-. cbn. lia.
      - destruct s as [i t [|x q] o]; unfold recv_safe in Hr; cbn in *; [destruct t; [done|done|]; by injection Hr as <- <-|].
        injection Hr as <- <-. cbn. lia. }
    unfold pending_items. rewrite length_app. destruct (rc_task s); cbn; lia.
  - by apply recv_enabled_soon.
Qed.
End ReceiverProof.

(** ** The wrapped sender *)

Section SenderProof.
Context {S P : Type} `{ProtocolSendDriver S P}.

Lemma direct_sends_app (a b : list P) (s : S) :
  direct_sends (a ++ b) s = '(s, e1) ← direct_sends a s; '(s, e2) ← direct_sends b s; Some (s, e1 ++ e2).
Proof.
  revert s. induction a as [|p a IH]; intros s; cbn.
  { destruct (direct_sends b s) as [[s' es]|]; done. }
  destruct (drv_send p s) as [s1 [[]|e|]]; [apply IH| |done]. rewrite IH. destruct (direct_sends a s1) as [[s2 e1]|]; [|done].
  cbn. by destruct (direct_sends b s2) as [[s3 e2]|].
Qed.

(** The driver has been called with the accepted packets in order, up to those
    in flight. *)
Definition sends_in_order (inner : S) (es : list (SendEvent P)) (s : Sender S P) : Prop :=
  sn_task s ≠ SendDone →
  ∃ done errs, accepted es = done ++ in_flight s ∧ direct_sends done inner = Some (sn_inner s, errs) ∧
    (sn_open s = true → errs = reported es ++ unreported s).

Lemma sends_in_order_task inner es s s' :
  sends_in_order inner es s → send_task s = Some s' → sends_in_order inner (es ++ [STask]) s'.
Proof.
  unfold sends_in_order, accepted, reported, in_flight, unreported, send_task. rewrite !omap_app. cbn. rewrite !app_nil_r.
  destruct s as [i t q er o]. cbn. intros Hinv Ht Hnd. destruct t as [|p|e|]; [| | |done].
  - destruct q as [|p q]; [destruct o; [done|]; injection Ht as <-; done|]. injection Ht as <-. cbn.
    destruct Hinv as (dn & errs & Ha & Hd & He); [done|]. exists dn, errs. split_and!; done.
  - destruct Hinv as (dn & errs & Ha & Hd & He); [done|].
    destruct (drv_send p i) as [i' [[]|e|]] eqn:Hs; injection Ht as <-; cbn in *; [| |done].
    + exists (dn ++ [p]), errs. split_and!; [by rewrite <- app_assoc| |done].
      rewrite direct_sends_app, Hd. cbn. rewrite Hs. cbn. by rewrite app_nil_r.
    + exists (dn ++ [p]), (errs ++ [e]). split_and!; [by rewrite <- app_assoc| |].
      * rewrite direct_sends_app, Hd. cbn. by rewrite Hs.
      * intros Ho. specialize (He Ho). rewrite app_nil_r in He. rewrite He. by rewrite <- app_assoc.
  - destruct o; [|cbn in Ht; injection Ht as <-; done]. cbn in Ht. destruct er; [|done]. injection Ht as <-. cbn.
    destruct Hinv as (dn & errs & Ha & Hd & He); [done|]. exists dn, errs. split_and!; done.
Qed.

Lemma sends_in_order_send inner es s p s' r :
  sn_open s = true → sends_in_order inner es s → send_safe p s = Some (s', r) → sends_in_order inner (es ++ [SReturned p r]) s'.
Proof.
  unfold sends_in_order, accepted, reported, in_flight, unreported, send_safe. rewrite !omap_app.
  destruct s as [i t q er o]. cbn. intros -> Hinv Hs Hnd. destruct er as [|e er].
  - assert (Hq : t ≠ SendDone ∧ q = [] ∧ s' = {| sn_inner := i; sn_task := t; sn_queue := [p]; sn_errors := []; sn_open := true |} ∧ r = Ok tt).
    { destruct t; [destruct q; [|done]; by injection Hs as <- <- ..|]. injection Hs as <- <-. done. }
    destruct Hq as (Ht & -> & -> & ->). destruct (Hinv Ht) as (dn & errs & Ha & Hd & He). exists dn, errs. rewrite Ha, app_nil_r.
    split_and!; [|done|by intros _; apply He]. destruct t; by rewrite <- app_assoc.
  - injection Hs as <- <-. cbn in *. destruct (Hinv Hnd) as (dn & errs & Ha & Hd & He). exists dn, errs. rewrite app_nil_r.
    split_and!; [done|done|]. intros _. rewrite (He eq_refl). by rewrite <- app_assoc.
Qed.

Lemma sender_runs_in_order inner es s :
  runs sender_step (sender_cancel_safe inner) es s → sends_in_order inner es s.
Proof.
  apply (runs_invariant sender_step (sends_in_order inner)).
  { intros _. by exists [], []. }
  intros es' l s1 s2 Hinv Hstep. destruct Hstep as [s1 s2 Ht|s1 p s2 r Ho Hr|s1 p Ho|s1 Ho].
  - by eapply sends_in_order_task.
  - by eapply sends_in_order_send.
  - intros Hnd. destruct (Hinv Hnd) as (dn & errs & ?). exists dn, errs. unfold accepted, reported in *. rewrite !omap_app. cbn. by rewrite !app_nil_r.
  - intros Hnd. destruct (Hinv Hnd) as (dn & errs & Ha & Hd & _). exists dn, errs. unfold accepted, in_flight in *. rewrite omap_app. cbn in *.
    by rewrite app_nil_r.
Qed.

Lemma sender_queue_bound inner es (s : Sender S P) :
  runs sender_step (sender_cancel_safe inner) es s → (length (sn_queue s) ≤ 1)%nat.
Proof.
  apply (runs_invariant sender_step (λ _ s, length (sn_queue s) ≤ 1)%nat); [cbn; lia|].
  intros _ l [i t q er o] s2 Hq Hstep. inversion Hstep as [? ? Ht|? ? ? ? Ho Hr|? ? Ho|? Ho]; subst; cbn in *; [| |done|done].
  - unfold send_task in Ht. cbn in Ht. destruct t; [| | |done].
    + destruct q; [destruct o|]; simplify_eq/=; lia.
    + destruct (drv_send p i). by simplify_eq/=.
    + destruct o; [destruct er|]; by simplify_eq/=.
  - unfold send_safe in Hr. cbn in Hr. destruct er; [|by simplify_eq/=]. destruct t; [destruct q; simplify_eq/=; lia ..|by simplify_eq/=].
Qed.

(** A run of the task alone that ends it with the driver in state [inner'] *)
Definition task_ends (s : Sender S P) (inner' : S) : Prop :=
  ∃ ts s', Forall (eq STask) ts ∧ runs sender_step s ts s' ∧ sn_task s' = SendDone ∧ sn_inner s' = inner'.

Lemma task_ends_step s s1 inner' : send_task s = Some s1 → task_ends s1 inner' → task_ends s inner'.
Proof.
  intros Hs (ts & s' & Hts & Hr & Hd). exists (STask :: ts), s'. split_and!; [by constructor| |apply Hd|apply Hd].
  eapply runs_cons; [by constructor|done].
Qed.

(** Once the handle is dropped the task sends what is left and stops. *)
Lemma dropped_sender_flushes (s : Sender S P) inner' :
  sn_open s = false → (sn_task s = Idle ∨ ∃ p, sn_task s = Busy p) → direct_sends (in_flight s) (sn_inner s) = Some (inner', []) →
  task_ends s inner'.
Proof.
  destruct s as [i t q er o]. cbn. intros ->. unfold in_flight. cbn. revert i t.
  set (at_ t i q := {| sn_inner := i; sn_task := t; sn_queue := q; sn_errors := er; sn_open := false |} : Sender S P).
  assert (Hbusy : ∀ i p q, (∀ i, direct_sends q i = Some (inner', []) → task_ends (at_ Idle i q) inner') →
    direct_sends (p :: q) i = Some (inner', []) → task_ends (at_ (Busy p) i q) inner').
  { intros i p q' Hidle Hd. cbn in Hd. destruct (drv_send p i) as [i' [[]|e|]] eqn:Hs; [| |done].
    - eapply task_ends_step; [|by apply (Hidle i')]. unfold send_task. cbn. by rewrite Hs.
    - destruct (direct_sends q' i') as [[]|]; done. }
  assert (Hidle : ∀ q i, direct_sends q i = Some (inner', []) → task_ends (at_ Idle i q) inner').
  { induction q0 as [|p q0 IH]; intros i Hd.
    - injection Hd as ->. eapply task_ends_step; [done|]. eexists [], _. split_and!; [constructor|constructor|done|done].
    - eapply task_ends_step; [done|]. by apply Hbusy. }
  intros i t [->|[p ->]] Hd; [by apply Hidle|]. apply Hbusy; [|done]. intros i' Hi'. by apply Hidle.
Qed.

(** C24: wrapping a sending driver with [make_cancel_safe]: whatever calls are
    cancelled and however the task is scheduled, the packets whose [send]
    returned [Ok] reach the driver once, in order, up to those still in flight
    (at most two), and no other packet does; every error of the driver is
    returned by a later call, once and in order. *)
Theorem cancel_safe_send_refines inner es s :
  runs sender_step (sender_cancel_safe inner) es s → sn_task s ≠ SendDone →
  ∃ done errs, accepted es = done ++ in_flight s ∧ (length (in_flight s) ≤ 2)%nat ∧
    direct_sends done inner = Some (sn_inner s, errs) ∧
    (sn_open s = true → errs = reported es ++ unreported s).
Proof.
  intros Hr Hnd. destruct (sender_runs_in_order inner es s Hr Hnd) as (dn & errs & Ha & Hd & He).
  exists dn, errs. split_and!; [done| |done|done]. apply sender_queue_bound in Hr. unfold in_flight. destruct (sn_task s); cbn; lia.
Qed.

(** Dropping the handle loses nothing that was accepted: if the sends that
    remain succeed, the task completes them and stops, and the driver has been
    called with exactly the accepted packets. *)
Theorem cancel_safe_send_drop_flushes inner es s inner' :
  runs sender_step (sender_cancel_safe inner) es s → sn_open s = true →
  (sn_task s = Idle ∨ ∃ p, sn_task s = Busy p) → direct_sends (in_flight s) (sn_inner s) = Some (inner', []) →
  task_ends (drop_sender s) inner' ∧ ∃ errs, direct_sends (accepted es) inner = Some (inner', errs).
Proof.
  intros Hr Ho Ht Hd. split.
  - by apply dropped_sender_flushes.
  - destruct (sender_runs_in_order inner es s Hr) as (dn & errs & Ha & Hdn & _); [by destruct Ht as [->|[? ->]]|].
    exists (errs ++ []). rewrite Ha, direct_sends_app, Hdn. cbn. by rewrite Hd.
Qed.
End SenderProof.

(** ** [forward_bi]

    Each direction is the loop of [forward] over two drivers; the [select!]
    ends with the direction that ends first and drops the other. *)

Section Forwarding.
Context {R S P : Type} `{EqDecision P} `{ProtocolRecvDriver R P} `{ProtocolSendDriver S P}.

(** Where the loop is: in [recv.recv()], in [send.send(packet)], or returned *)
Inductive ForwardState := AwaitRecv | AwaitSend (p : P) | Returned (r : outcome ProtocolError unit).

Record Forward := { fw_recv : R; fw_send : S; fw_state : ForwardState }.

Definition forward_start (recv : R) (send : S) : Forward := {| fw_recv := recv; fw_send := send; fw_state := AwaitRecv |}.

(** One completed [await] of the loop; the packet received, if any *)
Definition forward_await (f : Forward) : option Forward :=
  match fw_state f with
  | AwaitRecv =>
      let '(recv, r) := drv_recv (fw_recv f) in
      Some {| fw_recv := recv; fw_send := fw_send f;
              fw_state := match r with
                          | Ok (Some p) => AwaitSend p
                          | Ok None => Returned (Ok tt)
                          | Err e => Returned (Err e)
                          | Panic => Returned Panic
                          end |}
  | AwaitSend p =>
      let '(send, r) := drv_send p (fw_send f) in
      Some {| fw_recv := fw_recv f; fw_send := send;
              fw_state := match r with Ok _ => AwaitRecv | Err e => Returned (Err e) | Panic => Returned Panic end |}
  | Returned _ => None
  end.

Definition forward_result (f : Forward) : option (outcome ProtocolError unit) :=
  match fw_state f with Returned r => Some r | _ => None end.

(** Specification of one direction: [pulls ps r] is the receiving driver after
    calls that returned exactly the packets [ps]. *)
Fixpoint pulls (ps : list P) (r : R) : option R :=
  match ps with
  | [] => Some r
  | p :: ps => match drv_recv r with (r, Ok (Some q)) => if decide (q = p) then pulls ps r else None | _ => None end
  end.
End Forwarding.
Arguments ForwardState P : clear implicits.
Arguments Forward R S P : clear implicits.

Section ForwardBi.
Context {RA SA RB SB T U : Type} `{EqDecision T} `{EqDecision U}.
Context `{ProtocolRecvDriver RA T} `{ProtocolSendDriver SA U} `{ProtocolRecvDriver RB U} `{ProtocolSendDriver SB T}.

(** The two futures of the [select!] *)
Record ForwardBi := { to_a : Forward RB SA U; to_b : Forward RA SB T }.

Definition forward_bi (a_send : SA) (a_recv : RA) (b_send : SB) (b_recv : RB) : ForwardBi :=
  {| to_a := forward_start b_recv a_send; to_b := forward_start a_recv b_send |}.

Definition forward_bi_result (s : ForwardBi) : option (outcome ProtocolError unit) :=
  match forward_result (to_a s) with Some r => Some r | None => forward_result (to_b s) end.

Inductive forward_bi_step : ForwardBi → bool → ForwardBi → Prop :=
| step_to_a s f : forward_bi_result s = None → forward_await (to_a s) = Some f → forward_bi_step s true {| to_a := f; to_b := to_b s |}
| step_to_b s f : forward_bi_result s = None → forward_await (to_b s) = Some f → forward_bi_step s false {| to_a := to_a s; to_b := f |}.
End ForwardBi.
Arguments ForwardBi RA SA RB SB T U : clear implicits.

(** ** Both directions relay exactly *)

Section Relayed.
Context {R S P : Type} `{EqDecision P} `{ProtocolRecvDriver R P} `{ProtocolSendDriver S P}.

(** The packets sent are those received, in order, without the one being sent
    and without what stopped the loop. *)
Definition relayed (r0 : R) (s0 : S) (f : Forward R S P) : Prop :=
  ∃ sent s1, direct_sends sent s0 = Some (s1, []) ∧
    match fw_state f with
    | AwaitRecv => pulls sent r0 = Some (fw_recv f) ∧ s1 = fw_send f
    | AwaitSend p => pulls (sent ++ [p]) r0 = Some (fw_recv f) ∧ s1 = fw_send f
    | Returned (Ok _) => ∃ r1, pulls sent r0 = Some r1 ∧ drv_recv r1 = (fw_recv f, Ok None) ∧ s1 = fw_send f
    | Returned (Err e) =>
        (∃ r1, pulls sent r0 = Some r1 ∧ drv_recv r1 = (fw_recv f, Err e) ∧ s1 = fw_send f) ∨
        (∃ p, pulls (sent ++ [p]) r0 = Some (fw_recv f) ∧ drv_send p s1 = (fw_send f, Err e))
    | Returned Panic => True
    end.

Lemma pulls_snoc (ps : list P) (p : P) (r r1 r2 : R) : pulls ps r = Some r1 → drv_recv r1 = (r2, Ok (Some p)) → pulls (ps ++ [p]) r = Some r2.
Proof.
  revert r. induction ps as [|q ps IH]; intros r; cbn.
  - intros [= ->] ->. by rewrite decide_True by done.
  - destruct (drv_recv r) as [r' [[q'|]| |]]; [|done|done|done]. case_decide; [|done]. by apply IH.
Qed.

Lemma relayed_start r0 s0 : relayed r0 s0 (forward_start r0 s0).
Proof. by exists [], s0. Qed.

Lemma relayed_await r0 s0 f f' : relayed r0 s0 f → forward_await f = Some f' → relayed r0 s0 f'.
Proof.
  destruct f as [r s st]. intros (sent & s1 & Hs & Hst). unfold forward_await. cbn in *. destruct st as [|p|res]; [| |done].
  - destruct Hst as [Hp ->]. destruct (drv_recv r) as [r' [[p|]|e|]] eqn:Hr; intros [= <-]; exists sent, s; cbn; split; try done.
    + split; [|done]. by eapply pulls_snoc.
    + by exists r.
    + left. by exists r.
  - destruct Hst as [Hp ->]. destruct (drv_send p s) as [s' [[]|e|]] eqn:Hd; intros [= <-].
    + exists (sent ++ [p]), s'. rewrite direct_sends_app, Hs. cbn. rewrite Hd. done.
    + exists sent, s. split; [done|]. right. by exists p.
    + by exists sent, s.
Qed.
End Relayed.

(** C33: [forward_bi] relays both directions exactly, whatever the interleaving:
    in each direction the packets sent are those received, in order, without
    the one being sent; the call returns the result of the direction that ends
    first, the other one has not ended, and nothing moves afterwards. *)
Theorem forward_bi_relays {RA SA RB SB T U} `{EqDecision T} `{EqDecision U} `{ProtocolRecvDriver RA T}
    `{ProtocolSendDriver SA U} `{ProtocolRecvDriver RB U} `{ProtocolSendDriver SB T}
    (a_send : SA) (a_recv : RA) (b_send : SB) (b_recv : RB) es (s : ForwardBi RA SA RB SB T U) :
  runs forward_bi_step (forward_bi a_send a_recv b_send b_recv) es s →
  relayed b_recv a_send (to_a s) ∧ relayed a_recv b_send (to_b s) ∧
  (forward_result (to_a s) = None ∨ forward_result (to_b s) = None) ∧
  (is_Some (forward_bi_result s) → ∀ l s', ¬ forward_bi_step s l s').
Proof.
  intros Hr. assert (Hinv : relayed b_recv a_send (to_a s) ∧ relayed a_recv b_send (to_b s) ∧
    (forward_result (to_a s) = None ∨ forward_result (to_b s) = None)).
  { revert Hr. apply (runs_invariant forward_bi_step (λ _ s, relayed b_recv a_send (to_a s) ∧ relayed a_recv b_send (to_b s) ∧
      (forward_result (to_a s) = None ∨ forward_result (to_b s) = None))).
    - split_and!; [apply relayed_start|apply relayed_start|by left].
    - clear. intros _ l s s' (Ha & Hb & _) Hstep. destruct Hstep as [s f Hn Hf|s f Hn Hf]; cbn; unfold forward_bi_result in Hn.
      + split_and!; [by eapply relayed_await|done|]. right. by destruct (forward_result (to_a s)).
      + split_and!; [done|by eapply relayed_await|]. left. by destruct (forward_result (to_a s)). }
  destruct Hinv as (Ha & Hb & Hn). split_and!; [done|done|done|]. intros [r Hres] l s' Hstep. inversion Hstep; congruence.
Qed.

(** ** Samples *)

(** A driver that replays results, and one that refuses negative packets *)
#[local] Instance replay : ProtocolRecvDriver (list (outcome ProtocolError (option Z))) Z := λ l,
  match l with [] => ([], Ok None) | r :: l => (l, r) end.
#[local] Instance positive : ProtocolSendDriver (list Z) Z := λ p l,
  if p <? 0 then (l, Err "negative"%string) else (l ++ [p], Ok tt).

Definition sample_results : list (outcome ProtocolError (option Z)) := [Ok (Some 4); Err "bad"%string; Ok (Some 6)].

Lemma sample_recv_run :
  ∃ s, runs receiver_step (receiver_cancel_safe sample_results)
    [RTask; RCancelled; RTask; RTask; RReturned (Ok (Some 4)); RCancelled; RTask; RReturned (Err "bad"%string)] s ∧ rc_open s = true.
Proof.
  eexists. split; [do 8 (eapply runs_cons; [constructor; reflexivity|]); constructor|done].
Defined.

Lemma cancel_safe_recv_equivalent_witness :
  (Err "bad"%string : outcome ProtocolError (option Z)) = direct_recv 1 sample_results.
Proof.
  destruct sample_recv_run as (s & Hr & _). by apply (cancel_safe_recv_equivalent sample_results _ s 1 (Err "bad"%string) Hr).
Defined.

Lemma cancel_safe_recv_progress_witness :
  ∃ s : Receiver (list (outcome ProtocolError (option Z))) Z, (length (pending_items s) ≤ 2)%nat ∧
    ∃ ts s' s'' r, Forall (eq RTask) ts ∧ (length ts ≤ 2)%nat ∧ runs receiver_step s ts s' ∧ recv_safe s' = Some (s'', r).
Proof.
  destruct sample_recv_run as (s & Hr & Ho). exists s. by apply (cancel_safe_recv_progress sample_results _ s Hr Ho).
Defined.

(** Packet 8 is refused with the error of packet -7; packet 9 is accepted. *)
Definition sample_send_events : list (SendEvent Z) :=
  [SReturned 3 (Ok tt); STask; SReturned (-7) (Ok tt); STask; STask; SCancelled 8; STask; STask;
   SReturned 8 (Err "negative"%string); SReturned 9 (Ok tt); STask].
Definition sample_send_state : Sender (list Z) Z :=
  {| sn_inner := [3]; sn_task := Busy 9; sn_queue := []; sn_errors := []; sn_open := true |}.

Lemma sample_send_run : runs sender_step (sender_cancel_safe []) sample_send_events sample_send_state.
Proof. do 11 (eapply runs_cons; [constructor; reflexivity|]). constructor. Defined.

Lemma cancel_safe_send_refines_witness :
  ∃ done errs, accepted sample_send_events = done ++ [9] ∧ direct_sends done [] = Some ([3], errs) ∧
    errs = reported sample_send_events ++ [].
Proof.
  destruct (cancel_safe_send_refines [] _ _ sample_send_run) as (dn & errs & H1 & _ & H2 & H3); [done|].
  exists dn, errs. split_and!; [done|done|by apply H3].
Defined.

Lemma cancel_safe_send_drop_flushes_witness :
  task_ends (drop_sender sample_send_state) [3; 9] ∧
  ∃ errs, direct_sends (accepted sample_send_events) [] = Some ([3; 9], errs).
Proof.
  apply (cancel_safe_send_drop_flushes [] _ _ [3; 9] sample_send_run); [done|right; by exists 9|done].
Defined.

Lemma forward_bi_relays_witness :
  ∃ s : ForwardBi (list (outcome ProtocolError (option Z))) (list Z) (list (outcome ProtocolError (option Z))) (list Z) Z Z,
    forward_bi_result s = Some (Err "bad"%string) ∧ relayed [Ok (Some 1)] [] (to_a s) ∧ relayed sample_results [] (to_b s).
Proof.
  eexists. split; [|split]; [|eapply (forward_bi_relays [] sample_results [] [Ok (Some 1)] [true; false; true; false; false])..].
  2,3: eapply runs_cons; [by constructor 1|]; eapply runs_cons; [by constructor 2|]; eapply runs_cons; [by constructor 1|];
    eapply runs_cons; [by constructor 2|]; eapply runs_cons; [by constructor 2|]; constructor.
  done.
Defined.
