(* ===== verification/Hex.v ===== *)
(** * Hexadecimal text

    Models [hex_to_bytes] of [kymux-util/src/lib.rs] and what it and [KyComAddr]
    use of the standard library: [from_str_radix(_, 16)] on unsigned integers
    and the [{:X}] format.  A [&str] is the list of its UTF-8 bytes. *)

From stdpp Require Import prelude list.
From Stdlib Require Import ZArith Lia.
From S2P Require Import Prelude Av.
Open Scope Z_scope.

(** ** [uN::from_str_radix(src, 16)] *)

Inductive ParseIntError := Empty | InvalidDigit | PosOverflow.

#[export] Instance ParseIntError_eq_dec : EqDecision ParseIntError.
Proof. solve_decision. Defined.

(** [char::to_digit(16)] of an ASCII character *)
Definition to_digit (c : Z) : option Z :=
  if (48 <=? c) && (c <=? 57) then Some (c - 48)
  else if (97 <=? c) && (c <=? 102) then Some (c - 87)
  else if (65 <=? c) && (c <=? 70) then Some (c - 55)
  else None.

(** The digits, most significant first, with checked arithmetic below [2 ^ bits] *)
Fixpoint parse_digits (bits : Z) (acc : Z) (src : bytes) : outcome ParseIntError Z :=
  match src with
  | [] => Ok acc
  | c :: src =>
      d ← ok_or (to_digit c) InvalidDigit;
      _ ← bail_if (2 ^ bits <=? acc * 16) PosOverflow;
      _ ← bail_if (2 ^ bits <=? acc * 16 + d) PosOverflow;
      parse_digits bits (acc * 16 + d) src
  end.

Definition plus : Z := 43.
Definition minus : Z := 45.

Definition from_str_radix16 (bits : Z) (src : bytes) : outcome ParseIntError Z :=
  match src with
  | [] => Err Empty
  | [c] => if (c =? plus) || (c =? minus) then Err InvalidDigit else parse_digits bits 0 [c]
  | c :: rest => if c =? plus then parse_digits bits 0 rest else parse_digits bits 0 src
  end.

(** ** Formatting *)

(** The digit of [{:X}] *)
Definition upper_digit (d : Z) : Z := if d <? 10 then d + 48 else d + 55.
Definition lower_digit (d : Z) : Z := if d <? 10 then d + 48 else d + 87.

(** The digits of a number of at most [n] hexadecimal digits, without leading
    zeros *)
Fixpoint hex_digits (n : nat) (x : Z) : bytes :=
  match n with
  | O => []
  | S n => if x <? 16 then [upper_digit x] else hex_digits n (x / 16) ++ [upper_digit (x mod 16)]
  end.

(** [format!("{:X}", x)] for a [u16] *)
Definition format_X16 (x : Z) : bytes := hex_digits 4 x.

(** ** [hex_to_bytes] *)

Inductive DecodeHexError := OddLength | ParseInt (e : ParseIntError).

(** [str::is_char_boundary] *)
Definition is_char_boundary (s : bytes) (i : nat) : bool :=
  match i with
  | O => true
  | _ => match s !! i with
         | Some b => negb ((128 <=? b) && (b <? 192))
         | None => bool_decide (i = length s)
         end
  end.

(** [&s[i..i + 2]] *)
Definition str_slice2 (s : bytes) (i : nat) : outcome DecodeHexError bytes :=
  if is_char_boundary s i && is_char_boundary s (i + 2) then Ok (slice i 2 s) else Panic.

(** The iterator over [(0..s.len()).step_by(2)], collected: it stops at the
    first error *)
Fixpoint hex_pairs (s : bytes) (indexes : list nat) : outcome DecodeHexError bytes :=
  match indexes with
  | [] => Ok []
  | i :: indexes =>
      part ← str_slice2 s i;
      b ← map_err ParseInt (from_str_radix16 8 part);
      rest ← hex_pairs s indexes;
      Ok (b :: rest)
  end.

Definition hex_to_bytes (s : bytes) : outcome DecodeHexError bytes :=
  if (length s mod 2 =? 0)%nat then hex_pairs s ((λ k, 2 * k)%nat <$> seq 0 (length s / 2)) else Err OddLength.

(** ** Parsing what was printed *)

Lemma to_digit_upper d : 0 ≤ d < 16 → to_digit (upper_digit d) = Some d.
Proof.
  intros Hd. unfold upper_digit, to_digit. destruct (Z.ltb_spec d 10); repeat case_match; try (f_equal; lia); exfalso; lia.
Qed.

Lemma to_digit_lower d : 0 ≤ d < 16 → to_digit (lower_digit d) = Some d.
Proof.
  intros Hd. unfold lower_digit, to_digit. destruct (Z.ltb_spec d 10); repeat case_match; try (f_equal; lia); exfalso; lia.
Qed.

Lemma to_digit_bound c d : to_digit c = Some d → 0 ≤ d < 16 ∧ c ≠ plus ∧ c ≠ minus ∧ 0 ≤ c < 128.
Proof. unfold to_digit, plus, minus. intros H. repeat case_match; simplify_eq; lia. Qed.

Lemma parse_digits_app bits acc a b : parse_digits bits acc (a ++ b) = x ← parse_digits bits acc a; parse_digits bits x b.
Proof.
  revert acc. induction a as [|c a IH]; intros acc; [done|]. cbn [app parse_digits]. unfold bail_if.
  destruct (to_digit c) as [d|]; cbn [ok_or mbind outcome_bind]; [|done].
  destruct (2 ^ bits <=? acc * 16); cbn [mbind outcome_bind]; [done|].
  destruct (2 ^ bits <=? acc * 16 + d); cbn [mbind outcome_bind]; [done|]. apply IH.
Qed.

Lemma parse_digits_one bits acc c d :
  0 ≤ acc → to_digit c = Some d → acc * 16 + d < 2 ^ bits → parse_digits bits acc [c] = Ok (acc * 16 + d).
Proof.
  intros Ha Hc Hb. pose proof (to_digit_bound c d Hc). cbn [parse_digits]. rewrite Hc. unfold bail_if. cbn [ok_or mbind outcome_bind].
  destruct (Z.leb_spec (2 ^ bits) (acc * 16)); [lia|]. cbn [mbind outcome_bind].
  destruct (Z.leb_spec (2 ^ bits) (acc * 16 + d)); [lia|]. done.
Qed.

Lemma hex_digits_parse bits n x :
  (0 < n)%nat → 0 ≤ x < 2 ^ bits → x < 16 ^ Z.of_nat n →
  hex_digits n x ≠ [] ∧ Forall (λ c, is_Some (to_digit c)) (hex_digits n x) ∧ parse_digits bits 0 (hex_digits n x) = Ok x.
Proof.
  intros Hn. revert x. induction n as [|n IH]; [lia|]. intros x Hx Hb. cbn [hex_digits]. destruct (Z.ltb_spec x 16) as [Hl|Hl].
  { split_and!; [done|constructor; [rewrite to_digit_upper by lia; eauto|constructor]|].
    rewrite (parse_digits_one bits 0 _ x); [f_equal; lia|lia|apply to_digit_upper; lia|lia]. }
  pose proof (Z.div_mod x 16 ltac:(lia)). pose proof (Z.mod_pos_bound x 16 ltac:(lia)).
  destruct n as [|n]; [cbn in Hb; lia|]. rewrite Nat2Z.inj_succ, Z.pow_succ_r in Hb by lia.
  destruct (IH ltac:(lia) (x / 16)) as (H1 & H2 & H3); [lia|lia|]. split_and!.
  - intros Happ. by apply app_eq_nil in Happ as [_ ?].
  - apply Forall_app. split; [done|]. constructor; [rewrite to_digit_upper by lia; eauto|constructor].
  - rewrite parse_digits_app, H3. cbn [mbind outcome_bind].
    rewrite (parse_digits_one bits (x / 16) _ (x mod 16)); [f_equal; lia|lia|apply to_digit_upper; lia|lia].
Qed.

(** Text without a sign is parsed by its digits. *)
Lemma from_str_radix16_digits bits s :
  s ≠ [] → Forall (λ c, is_Some (to_digit c)) s → from_str_radix16 bits s = parse_digits bits 0 s.
Proof.
  intros Hs Hd. unfold from_str_radix16. destruct s as [|c s]; [done|]. apply Forall_cons in Hd as [[d Hd] _].
  apply to_digit_bound in Hd as (_ & Hp & Hm & _). rewrite (proj2 (Z.eqb_neq _ _) Hp), (proj2 (Z.eqb_neq _ _) Hm). by destruct s.
Qed.

Lemma format_X16_roundtrip x : is_u16 x → from_str_radix16 16 (format_X16 x) = Ok x.
Proof.
  intros Hx. unfold is_u16 in Hx. destruct (hex_digits_parse 16 4 x) as (H1 & H2 & H3); [lia|done|apply Hx|].
  unfold format_X16. by rewrite from_str_radix16_digits.
Qed.

Lemma format_X16_digits x : is_u16 x → format_X16 x ≠ [] ∧ Forall (λ c, is_Some (to_digit c)) (format_X16 x).
Proof. intros Hx. destruct (hex_digits_parse 16 4 x) as (H1 & H2 & _); [lia|done|apply Hx|done]. Qed.

(** ** Decoding *)

(** The text of a byte string, for a choice of digits *)
Definition hex_encode (digit : Z → Z) (bs : bytes) : bytes := bs ≫= λ b, [digit (b / 16); digit (b mod 16)].

Lemma hex_encode_length digit bs : length (hex_encode digit bs) = (2 * length bs)%nat.
Proof. induction bs as [|b bs IH]; [done|]. cbn [hex_encode mbind list_bind app length] in *. unfold hex_encode in IH. lia. Qed.

Lemma hex_encode_slice digit bs i b :
  bs !! i = Some b → slice (2 * i) 2 (hex_encode digit bs) = [digit (b / 16); digit (b mod 16)].
Proof.
  revert i. induction bs as [|b' bs IH]; intros [|i] Hi; [done|done| |].
  - injection Hi as ->. done.
  - replace (2 * S i)%nat with (S (S (2 * i))) by lia. apply (IH i Hi).
Qed.

Definition is_ascii (s : bytes) : Prop := Forall (λ c, 0 ≤ c < 128) s.

Lemma ascii_boundary s i : is_ascii s → (i ≤ length s)%nat → is_char_boundary s i = true.
Proof.
  intros Hs Hi. unfold is_char_boundary. destruct i as [|i]; [done|]. destruct (s !! S i) as [b|] eqn:Hb.
  - pose proof (proj1 (Forall_lookup _ _) Hs _ _ Hb) as Hr. cbn in Hr. destruct (Z.leb_spec 128 b); [lia|done].
  - apply lookup_ge_None in Hb. apply bool_decide_true. lia.
Qed.

(** Pairs that parse one by one *)
Lemma hex_pairs_ok s (f : nat → Z) k n :
  is_ascii s → (2 * (k + n) ≤ length s)%nat →
  (∀ i, (k ≤ i < k + n)%nat → from_str_radix16 8 (slice (2 * i) 2 s) = Ok (f i)) →
  hex_pairs s ((λ k, 2 * k)%nat <$> seq k n) = Ok (f <$> seq k n).
Proof.
  intros Hs. revert k. induction n as [|n IH]; intros k Hl Hf; [done|]. cbn [seq fmap list_fmap hex_pairs]. unfold str_slice2.
  rewrite !ascii_boundary by (done || lia). cbn [andb mbind outcome_bind]. rewrite Hf by lia. cbn [map_err mbind outcome_bind].
  rewrite IH; [done|lia|]. intros i Hi. apply Hf. lia.
Qed.

Lemma nibbles b : is_u8 b → 0 ≤ b / 16 < 16 ∧ 0 ≤ b mod 16 < 16 ∧ b = 16 * (b / 16) + b mod 16.
Proof.
  unfold is_u8. intros Hb. pose proof (Z.mod_pos_bound b 16 ltac:(lia)). pose proof (Z.div_mod b 16 ltac:(lia)). lia.
Qed.

Lemma hex_digits_pair digit b :
  (∀ d, 0 ≤ d < 16 → to_digit (digit d) = Some d) → is_u8 b → from_str_radix16 8 [digit (b / 16); digit (b mod 16)] = Ok b.
Proof.
  intros Hd Hb. destruct (nibbles b Hb) as (H1 & H2 & H3). unfold is_u8 in Hb. rewrite from_str_radix16_digits; [|done|repeat constructor; rewrite Hd by lia; eauto].
  change [digit (b / 16); digit (b mod 16)] with ([digit (b / 16)] ++ [digit (b mod 16)]). rewrite parse_digits_app.
  rewrite (parse_digits_one 8 0 _ (b / 16)); [|lia|by apply Hd|lia]. cbn [mbind outcome_bind].
  rewrite (parse_digits_one 8 _ _ (b mod 16)); [f_equal; lia|lia|apply Hd; lia|lia].
Qed.

Lemma seq_lookup_total (bs : bytes) : (λ i, bs !!! i) <$> seq 0 (length bs) = bs.
Proof.
  apply list_eq. intros i. rewrite list_lookup_fmap. destruct (decide (i < length bs)%nat) as [Hi|Hi].
  - rewrite lookup_seq_lt by done. cbn. symmetry. by apply list_lookup_lookup_total_lt.
  - rewrite (lookup_ge_None_2 bs), lookup_seq_ge by lia. done.
Qed.

(** Decoding the text of a byte string, in lower or upper case, gives the
    bytes back. *)
Theorem hex_to_bytes_roundtrip bs :
  is_bytes bs → hex_to_bytes (hex_encode lower_digit bs) = Ok bs ∧ hex_to_bytes (hex_encode upper_digit bs) = Ok bs.
Proof.
  intros Hbs. assert (Hall : ∀ digit, (∀ d, 0 ≤ d < 16 → to_digit (digit d) = Some d) → hex_to_bytes (hex_encode digit bs) = Ok bs).
  { intros digit Hd. unfold hex_to_bytes. rewrite hex_encode_length, (Nat.mul_comm 2), Nat.Div0.mod_mul, Nat.div_mul by lia. cbn [Nat.eqb].
    rewrite <- (seq_lookup_total bs) at 3. apply hex_pairs_ok; [|by rewrite hex_encode_length; lia|].
    - apply Forall_forall. intros c (b & Hc & Hb)%list_elem_of_bind. pose proof (proj1 (Forall_forall _ _) Hbs b Hb) as Hu.
      destruct (nibbles b Hu) as (H1 & H2 & _).
      apply elem_of_cons in Hc as [->|Hc]; [|apply list_elem_of_singleton in Hc as ->]; eapply to_digit_bound, Hd; lia.
    - intros i Hi. destruct (lookup_lt_is_Some_2 bs i) as [b Hb]; [lia|]. rewrite (hex_encode_slice _ _ _ b Hb), (list_lookup_total_correct _ _ _ Hb).
      apply hex_digits_pair; [done|]. by eapply (proj1 (Forall_lookup _ _) Hbs). }
  split; apply Hall; intros d Hd; [by apply to_digit_lower|by apply to_digit_upper].
Qed.

Lemma hex_to_bytes_roundtrip_witness : hex_to_bytes (hex_encode lower_digit [0; 171; 255]) = Ok [0; 171; 255].
Proof. apply (hex_to_bytes_roundtrip [0; 171; 255]). repeat constructor; vm_compute; congruence. Defined.

(** "00abff" *)
Example hex_sample : hex_encode lower_digit [0; 171; 255] = [48; 48; 97; 98; 102; 102].
Proof. done. Qed.

Lemma parse_digits_range bits acc s x : 0 ≤ acc < 2 ^ bits → parse_digits bits acc s = Ok x → 0 ≤ x < 2 ^ bits.
Proof.
  revert acc. induction s as [|c s IH]; intros acc Ha; cbn [parse_digits]; [by intros [= <-]|].
  destruct (to_digit c) as [d|] eqn:Hc; cbn [ok_or mbind outcome_bind]; [|done]. unfold bail_if. apply to_digit_bound in Hc.
  destruct (Z.leb_spec (2 ^ bits) (acc * 16)); [done|]. cbn [mbind outcome_bind].
  destruct (Z.leb_spec (2 ^ bits) (acc * 16 + d)); [done|]. cbn [mbind outcome_bind]. apply IH. lia.
Qed.

Lemma from_str_radix16_range bits s x : 0 ≤ bits → from_str_radix16 bits s = Ok x → 0 ≤ x < 2 ^ bits.
Proof.
  intros Hb. assert (0 ≤ 0 < 2 ^ bits) by (split; [lia|by apply Z.pow_pos_nonneg]).
  unfold from_str_radix16. repeat case_match; try done; by apply parse_digits_range.
Qed.

Lemma parse_digits_no_panic bits acc s : parse_digits bits acc s ≠ Panic.
Proof.
  revert acc. induction s as [|c s IH]; intros acc; cbn [parse_digits]; [done|]. unfold bail_if.
  destruct (to_digit c) as [d|]; cbn [ok_or mbind outcome_bind]; [|done].
  destruct (2 ^ bits <=? acc * 16); [done|]. cbn [mbind outcome_bind]. destruct (2 ^ bits <=? acc * 16 + d); [done|]. apply IH.
Qed.

Lemma from_str_radix16_no_panic bits s : from_str_radix16 bits s ≠ Panic.
Proof. unfold from_str_radix16. repeat case_match; done || apply parse_digits_no_panic. Qed.

Lemma hex_pairs_ascii s k n :
  is_ascii s → (2 * (k + n) ≤ length s)%nat →
  match hex_pairs s ((λ k, 2 * k)%nat <$> seq k n) with Ok bs => length bs = n ∧ is_bytes bs | Err _ => True | Panic => False end.
Proof.
  intros Hs. revert k. induction n as [|n IH]; intros k Hl; cbn [seq fmap list_fmap hex_pairs]; [by repeat constructor|].
  unfold str_slice2. rewrite !ascii_boundary by (done || lia). cbn [andb mbind outcome_bind].
  pose proof (from_str_radix16_no_panic 8 (slice (2 * k) 2 s)) as Hnp.
  destruct (from_str_radix16 8 (slice (2 * k) 2 s)) as [b|e|] eqn:Hb; cbn [map_err mbind outcome_bind]; [|done|done].
  specialize (IH (S k) ltac:(lia)). destruct (hex_pairs s _) as [bs|e|]; cbn [mbind outcome_bind]; [|done|done].
  destruct IH as [Hn Hby]. split; [cbn; lia|]. constructor; [|done]. apply (from_str_radix16_range 8) in Hb; [done|lia].
Qed.

Lemma hex_pairs_no_odd s l : hex_pairs s l ≠ Err OddLength.
Proof.
  induction l as [|i l IH]; [done|]. cbn [hex_pairs]. unfold str_slice2. case_match; [|done]. cbn [mbind outcome_bind].
  destruct (from_str_radix16 8 _); cbn [map_err mbind outcome_bind]; [|done|done]. by destruct (hex_pairs s l) as [|[]|].
Qed.

(** On ASCII text [hex_to_bytes] always returns: an odd length is an error,
    and a result has one byte per two characters. *)
Theorem hex_to_bytes_ascii s :
  is_ascii s →
  match hex_to_bytes s with
  | Ok bs => length s = (2 * length bs)%nat ∧ is_bytes bs
  | Err OddLength => Nat.odd (length s) = true
  | Err (ParseInt _) => Nat.even (length s) = true
  | Panic => False
  end.
Proof.
  intros Hs. unfold hex_to_bytes. destruct (Nat.eqb_spec (length s mod 2) 0) as [He|He].
  - pose proof (Nat.div_mod (length s) 2 ltac:(lia)) as Hd. pose proof (hex_pairs_ascii s 0 (length s / 2) Hs ltac:(lia)) as Hp.
    destruct (hex_pairs s _) as [bs|[|e]|] eqn:Hh; [split; [lia|apply Hp]| | |done].
    + exfalso. by eapply hex_pairs_no_odd.
    + apply Nat.even_spec. exists (length s / 2)%nat. lia.
  - apply Nat.odd_spec. pose proof (Nat.mod_upper_bound (length s) 2 ltac:(lia)). exists (length s / 2)%nat.
    pose proof (Nat.div_mod (length s) 2 ltac:(lia)). lia.
Qed.

Lemma hex_to_bytes_ascii_witness :
  match hex_to_bytes [50; 71] with Err (ParseInt InvalidDigit) => Nat.even 2 = true | _ => False end.
Proof.
  pose proof (hex_to_bytes_ascii [50; 71]) as H. vm_compute in H |- *. apply H. repeat constructor; discriminate.
Defined.

(** Text of even length whose second character starts inside a byte pair,
    such as two euro signs, makes [hex_to_bytes] panic instead of returning a
    [DecodeHexError]. *)
Theorem hex_to_bytes_panics_inside_character s :
  Nat.even (length s) = true → (2 < length s)%nat → is_char_boundary s 2 = false → hex_to_bytes s = Panic.
Proof.
  intros [k Hk]%Nat.even_spec Hl Hb. unfold hex_to_bytes. rewrite Hk, (Nat.mul_comm 2), Nat.Div0.mod_mul, Nat.div_mul by lia. cbn [Nat.eqb].
  destruct k as [|k]; [lia|]. cbn [seq fmap list_fmap hex_pairs]. unfold str_slice2. cbn [Nat.mul Nat.add]. rewrite Hb, andb_false_r. done.
Qed.

Lemma hex_to_bytes_panics_inside_character_witness : hex_to_bytes [226; 130; 172; 226; 130; 172] = Panic.
Proof. apply (hex_to_bytes_panics_inside_character [226; 130; 172; 226; 130; 172]); [done|cbn; lia|done]. Defined.

(** A sign is taken for a digit: "+5" decodes to one byte. *)
Example hex_accepts_sign : hex_to_bytes [43; 53] = Ok [5].
Proof. done. Qed.
