(* ===== verification/WebStreams.v ===== *)
(** * WebTransport streams in the browser

    Models [kynet/src/driver/webtransport_js.rs]: the [AsyncRead] and
    [AsyncWrite] state machines over the promises of the browser's streams, and
    the connection driver that takes the browser's readers and writers once.
    The browser is the environment: it resolves the promise that is
    outstanding, whenever and with whatever it likes. *)

From stdpp Require Import prelude list strings.
From Stdlib Require Import ZArith Lia.
From S2P Require Import Prelude Av Hex.
Open Scope Z_scope.

(** [std::task::Poll] *)
Inductive poll (A : Type) := Ready (a : A) | Pending.
Arguments Ready {A}.
Arguments Pending {A}.

(** An error value of the browser, as its debug text *)
Abbreviation JsError := string.

(** What the promise of a read resolves to: the end of the stream, a chunk,
    something else than a byte array, or a rejection *)
Inductive JsRead := JsDone | JsValue (v : bytes) | JsUnexpected | JsRejected (e : JsError).

(** ** [ReadFuture] *)

Definition READ_SIZE : nat := Z.to_nat 8192.

(** [ReaderData::buf] and the promise: not created, outstanding, or resolved *)
Record ReadFuture := { rf_buf : bytes; rf_fut : option (option JsRead) }.

Definition ReadFuture_new (buf : bytes) : ReadFuture := {| rf_buf := buf; rf_fut := None |}.

(** [poll_internal]; a promise is never resolved before the code that created it
    has returned *)
Definition poll_internal (self : ReadFuture) : ReadFuture * poll (outcome JsError nat) :=
  let self := match rf_fut self with
              | None => {| rf_buf := resize READ_SIZE 0 (rf_buf self); rf_fut := Some None |}
              | Some _ => self
              end in
  match rf_fut self with
  | Some (Some r) =>
      match r with
      | JsRejected e => (self, Ready (Err e))
      | _ =>
          let self := {| rf_buf := rf_buf self; rf_fut := None |} in
          match r with
          | JsDone => (self, Ready (Ok O))
          | JsValue v =>
              if decide (length v ≤ length (rf_buf self))%nat then
                ({| rf_buf := v ++ drop (length v) (rf_buf self); rf_fut := None |}, Ready (Ok (length v)))
              else (self, Ready Panic)
          | _ => (self, Ready Panic)
          end
      end
  | _ => (self, Pending)
  end.

(** [ReadFuture::poll] *)
Definition read_future_poll (self : ReadFuture) : ReadFuture * poll (outcome JsError nat) :=
  match poll_internal self with
  | (self, Pending) => (self, Pending)
  | (self, Ready r) =>
      let buf := match r with Ok n => take n (rf_buf self) | Err _ => [] | Panic => rf_buf self end in
      ({| rf_buf := buf; rf_fut := rf_fut self |}, Ready r)
  end.

(** ** [AsyncRead] *)

Inductive ReaderState := RIdle (buf : bytes) | RRunning (fut : ReadFuture) | RInvalid.

(** [WebTransportJSRecvStreamDriver::new] *)
Definition recv_stream_new : ReaderState := RIdle [].

(** [poll_read] with room for [remaining] bytes; [None] when the loop needs more
    turns than [fuel] *)
Fixpoint poll_read (fuel : nat) (remaining : nat) (self : ReaderState) : ReaderState * option (poll (outcome JsError bytes)) :=
  match fuel with
  | O => (self, None)
  | S fuel =>
      match self with
      | RIdle buf =>
          if decide (buf ≠ []) then
            let n := Nat.min (length buf) remaining in
            (RIdle (drop n buf), Some (Ready (Ok (take n buf))))
          else poll_read fuel remaining (RRunning (ReadFuture_new buf))
      | RRunning fut =>
          match read_future_poll fut with
          | (fut, Ready (Ok _)) => poll_read fuel remaining (RIdle (rf_buf fut))
          | (fut, Ready (Err e)) => (RIdle (rf_buf fut), Some (Ready (Err e)))
          | (fut, Ready Panic) => (RInvalid, Some (Ready Panic))
          | (fut, Pending) => (RRunning fut, Some Pending)
          end
      | RInvalid => (RInvalid, Some (Ready Panic))
      end
  end.

(** The loop ends after three turns ([poll_read_returns]). *)
Definition LOOP_FUEL : nat := 3.

Inductive ReadEvent := Polled (remaining : nat) (r : poll (outcome JsError bytes)) | Resolved (r : JsRead).

Inductive read_step : ReaderState → ReadEvent → ReaderState → Prop :=
| read_polled s n s' r : poll_read LOOP_FUEL n s = (s', Some r) → read_step s (Polled n r) s'
| read_resolved buf r :
    read_step (RRunning {| rf_buf := buf; rf_fut := Some None |}) (Resolved r)
              (RRunning {| rf_buf := buf; rf_fut := Some (Some r) |}).

(** ** [AsyncWrite] *)

(** [WriteFuture], by the result of its promise, if any *)
Abbreviation WriteFuture := (option (outcome JsError unit)).

Inductive WriterState := WIdle | WRunning (fut : WriteFuture) | WInvalid.

(** The driver and the chunks it has handed to the browser *)
Record SendStream := { ws_state : WriterState; ws_chunks : list bytes }.

Definition send_stream_new : SendStream := {| ws_state := WIdle; ws_chunks := [] |}.

(** [WriteFuture::start] *)
Definition start_write (buf : bytes) (self : SendStream) : SendStream :=
  {| ws_state := WRunning None; ws_chunks := ws_chunks self ++ [buf] |}.

Definition set_writer (s : WriterState) (self : SendStream) : SendStream := {| ws_state := s; ws_chunks := ws_chunks self |}.

Fixpoint poll_write (fuel : nat) (buf : bytes) (self : SendStream) : SendStream * option (poll (outcome JsError nat)) :=
  match fuel with
  | O => (self, None)
  | S fuel =>
      match ws_state self with
      | WIdle => (start_write buf self, Some (Ready (Ok (length buf))))
      | WRunning (Some res) =>
          let self := set_writer WIdle self in
          match res with
          | Ok _ => poll_write fuel buf self
          | Err e => (self, Some (Ready (Err e)))
          | Panic => (self, Some (Ready Panic))
          end
      | WRunning None => (self, Some Pending)
      | WInvalid => (self, Some (Ready Panic))
      end
  end.

Definition poll_flush (self : SendStream) : SendStream * poll (outcome JsError unit) :=
  match ws_state self with
  | WIdle => (self, Ready (Ok tt))
  | WRunning (Some res) => (set_writer WIdle self, Ready res)
  | WRunning None => (self, Pending)
  | WInvalid => (self, Ready Panic)
  end.

Definition poll_shutdown (self : SendStream) : SendStream * poll (outcome JsError unit) := poll_flush self.

Inductive WriteEvent :=
| Wrote (buf : bytes) (r : poll (outcome JsError nat))
| Flushed (r : poll (outcome JsError unit))
| Shut (r : poll (outcome JsError unit))
| WriteSettled (e : option JsError).

Inductive write_step : SendStream → WriteEvent → SendStream → Prop :=
| write_polled s buf s' r : poll_write LOOP_FUEL buf s = (s', Some r) → write_step s (Wrote buf r) s'
| write_flushed s s' r : poll_flush s = (s', r) → write_step s (Flushed r) s'
| write_shut s s' r : poll_shutdown s = (s', r) → write_step s (Shut r) s'
| write_settled s e :
    ws_state s = WRunning None →
    write_step s (WriteSettled e) (set_writer (WRunning (Some (match e with Some e => Err e | None => Ok tt end))) s).

(** ** Reading *)

(** What the caller got, and what the browser delivered *)
Definition delivered (es : list ReadEvent) : bytes :=
  es ≫= λ e, match e with Polled _ (Ready (Ok b)) => b | _ => [] end.
Definition arrived (es : list ReadEvent) : bytes :=
  es ≫= λ e, match e with Resolved (JsValue v) => v | _ => [] end.

(** Received and not yet handed to the caller *)
Definition buffered (s : ReaderState) : bytes :=
  match s with
  | RIdle buf => buf
  | RRunning {| rf_fut := Some (Some (JsValue v)) |} => v
  | _ => []
  end.

(** Between calls a running read owns a full-size buffer, and the browser fills
    at most the view it was given. *)
Definition reader_ok (s : ReaderState) : Prop :=
  match s with
  | RIdle _ => True
  | RRunning f =>
      length (rf_buf f) = READ_SIZE ∧
      match rf_fut f with Some (Some (JsValue v)) => (length v ≤ READ_SIZE)%nat | Some (Some JsUnexpected) | None => False | _ => True end
  | RInvalid => False
  end.

Definition browser_ok (e : ReadEvent) : Prop :=
  match e with Resolved (JsValue v) => (length v ≤ READ_SIZE)%nat | Resolved JsUnexpected => False | _ => True end.

Definition reading : ReaderState := RRunning {| rf_buf := resize READ_SIZE 0 []; rf_fut := Some None |}.

(** With nothing buffered the loop starts a read and waits. *)
Lemma poll_read_fresh fuel n : poll_read (S (S fuel)) n (RIdle []) = (reading, Some Pending).
Proof. done. Qed.

(** What a resolved read leaves *)
Lemma poll_read_value fuel n buf v :
  (length v ≤ length buf)%nat →
  poll_read (S fuel) n (RRunning {| rf_buf := buf; rf_fut := Some (Some (JsValue v)) |}) = poll_read fuel n (RIdle v).
Proof.
  intros Hv. cbn [poll_read]. unfold read_future_poll, poll_internal. cbn [rf_fut rf_buf]. rewrite decide_True by done.
  cbn [rf_fut rf_buf]. by rewrite take_app_length.
Qed.

(** One poll: it always returns, hands out the front of what is buffered, and
    waits only when nothing is. *)
Lemma poll_read_spec n s :
  reader_ok s →
  ∃ s' r, poll_read LOOP_FUEL n s = (s', Some r) ∧ reader_ok s' ∧
    match r with
    | Ready (Ok b) => b ++ buffered s' = buffered s ∧ (length b ≤ n)%nat ∧ (0 < n → b ≠ [])%nat
    | Ready (Err e) => s' = RIdle [] ∧ ∃ buf, s = RRunning {| rf_buf := buf; rf_fut := Some (Some (JsRejected e)) |}
    | Ready Panic => False
    | Pending => buffered s = [] ∧ buffered s' = [] ∧ ∃ buf, s' = RRunning {| rf_buf := buf; rf_fut := Some None |}
    end.
Proof.
  assert (Hidle : ∀ fuel b, ∃ s' r, poll_read (S (S fuel)) n (RIdle b) = (s', Some r) ∧ reader_ok s' ∧
    match r with
    | Ready (Ok b') => b' ++ buffered s' = b ∧ (length b' ≤ n)%nat ∧ (0 < n → b' ≠ [])%nat
    | Pending => b = [] ∧ buffered s' = [] ∧ ∃ buf, s' = RRunning {| rf_buf := buf; rf_fut := Some None |}
    | _ => False
    end).
  { intros fuel [|x b].
    - rewrite poll_read_fresh. eexists _, _. split; [done|]. split; [split; [apply length_resize|done]|]. split_and!; [done|done|by eexists].
    - eexists _, _. cbn [poll_read]. rewrite decide_True by done. split; [done|]. split; [done|]. cbn [buffered]. rewrite take_drop, length_take.
      split_and!; [done|lia|]. intros Hn. destruct n; [lia|done]. }
  intros Hok. destruct s as [b|f|]; [|destruct f as [buf fut]|done].
  - destruct (Hidle 1%nat b) as (s' & r & H1 & H2 & H3). exists s', r. split_and!; [done|done|]. by destruct r as [[]|].
  - destruct Hok as [Hlen Hfut]. cbn [rf_buf rf_fut] in *. destruct fut as [[r|]|]; [|eexists _, _; split; [reflexivity|split; [done|split_and!; [done|done|by eexists]]]|done].
    destruct r as [|v| |e]; [| |done|].
    + destruct (Hidle 0%nat []) as (s' & r & H1 & H2 & H3). exists s', r. split_and!; [done|done|]. by destruct r as [[]|].
    + unfold LOOP_FUEL. rewrite poll_read_value by lia. destruct (Hidle 0%nat v) as (s' & r & H1 & H2 & H3). exists s', r.
      split_and!; [done|done|]. by destruct r as [[]|].
    + eexists _, _. split; [reflexivity|split; [done|split; [done|by eexists]]].
Qed.

Lemma web_read_invariant es s :
  runs read_step recv_stream_new es s → Forall browser_ok es → reader_ok s ∧ delivered es ++ buffered s = arrived es.
Proof.
  intros Hr. induction Hr as [|es l s s' _ IH Hstep]; [done|]. intros [Hes Hl]%Forall_app. apply Forall_cons_1 in Hl as [Hl _].
  destruct (IH Hes) as [Hok Heq]. unfold delivered, arrived. rewrite !bind_app. fold (delivered es) (arrived es).
  destruct Hstep as [s n s' r Hp|buf r]; cbn [mbind list_bind]; rewrite ?app_nil_r.
  - destruct (poll_read_spec n s Hok) as (s1 & r1 & Hp1 & Hok1 & Hcase). rewrite Hp in Hp1. injection Hp1 as <- <-. split; [done|].
    destruct r as [[b|e|]|]; [| |done|].
    + destruct Hcase as [Hb _]. by rewrite <- app_assoc, Hb.
    + destruct Hcase as [-> [buf ->]]. cbn in Heq |- *. rewrite app_nil_r in Heq. by rewrite !app_nil_r.
    + destruct Hcase as (Hb & -> & _). rewrite Hb in Heq. by rewrite !app_nil_r in *.
  - cbn in Hok, Heq. rewrite app_nil_r in Heq. split.
    + destruct Hok as [Hlen _]. split; [done|]. cbn in Hl |- *. by destruct r.
    + destruct r; cbn; rewrite ?app_nil_r; by rewrite Heq.
Qed.

(** C31: the browser's [AsyncRead]: every call of [poll_read] returns after at
    most three turns of its loop without panicking; the bytes handed to the
    caller, followed by those buffered, are exactly the bytes the browser
    delivered, in order, whatever the sizes of the caller's buffers. *)
Theorem web_read_exact es s n :
  runs read_step recv_stream_new es s → Forall browser_ok es →
  delivered es ++ buffered s = arrived es ∧
  (∃ s' r, poll_read LOOP_FUEL n s = (s', Some r) ∧ r ≠ Ready Panic).
Proof.
  intros Hr Hes. destruct (web_read_invariant es s Hr Hes) as [Hok Heq]. split; [done|].
  destruct (poll_read_spec n s Hok) as (s' & r & Hp & _ & Hcase). exists s', r. split; [done|]. by intros ->.
Qed.

Definition sample_reads : list ReadEvent := [Polled 2 Pending; Resolved (JsValue [7; 8; 9]); Polled 2 (Ready (Ok [7; 8]))].

Lemma chunk_fits (v : bytes) : (length v ≤ 100)%nat → (length v ≤ READ_SIZE)%nat.
Proof. unfold READ_SIZE. lia. Qed.

Lemma sample_read_run : runs read_step recv_stream_new sample_reads (RIdle [9]).
Proof.
  apply (runs_cons _ _ _ reading); [constructor; apply (poll_read_fresh 1 2)|]. eapply runs_cons; [apply read_resolved|].
  apply runs_one. constructor. unfold LOOP_FUEL. rewrite poll_read_value; [done|]. rewrite length_resize. apply chunk_fits. cbn. lia.
Qed.

Lemma web_read_exact_witness :
  delivered sample_reads ++ buffered (RIdle [9]) = arrived sample_reads ∧
  (∃ s' r, poll_read LOOP_FUEL 2 (RIdle [9]) = (s', Some r) ∧ r ≠ Ready Panic).
Proof.
  apply (web_read_exact sample_reads (RIdle [9]) 2 sample_read_run). apply Forall_cons. split; [done|]. apply Forall_cons. split; [|by apply Forall_singleton].
  apply chunk_fits. cbn. lia.
Defined.

(** ** The end of the stream *)

Definition at_end (s : ReaderState) : Prop :=
  s = RIdle [] ∨ ∃ buf r, s = RRunning {| rf_buf := buf; rf_fut := Some r |} ∧ (r = None ∨ r = Some JsDone).

Lemma poll_read_at_end n s : at_end s → ∃ s', poll_read LOOP_FUEL n s = (s', Some Pending) ∧ at_end s'.
Proof.
  intros [->|(buf & r & -> & [->| ->])]; eexists; (split; [reflexivity|]); right; eexists _, _; split; try done; by left.
Qed.

(** The end of a stream is never reported: once the browser has signalled
    it, [poll_read] discards the signal and starts another read, so that it
    answers [Pending] for ever, where [AsyncRead] asks for a read of zero
    bytes. *)
Theorem web_read_end_never_reported buf es s e :
  runs read_step (RRunning {| rf_buf := buf; rf_fut := Some (Some JsDone) |}) es s →
  (∀ r, Resolved r ∈ es → r = JsDone) → e ∈ es → ∀ n r, e = Polled n r → r = Pending.
Proof.
  intros Hr Hdone. assert (Hinv : at_end s ∧ ∀ n r, Polled n r ∈ es → r = Pending).
  { induction Hr as [|es l s s' _ IH Hstep].
    - split; [right; eexists _, _; split; [done|by right]|]. intros n r Hin. by apply not_elem_of_nil in Hin.
    - destruct IH as [Hs Hp]; [intros r Hin; apply Hdone, elem_of_app; by left|].
      assert (Hl : at_end s' ∧ ∀ n r, l = Polled n r → r = Pending).
      { destruct Hstep as [s n s' r Hpoll|buf' r].
        - destruct (poll_read_at_end n s Hs) as (s1 & Hp1 & Hs1). rewrite Hpoll in Hp1. injection Hp1 as <- <-. split; [done|]. by intros ? ? [= _ <-].
        - rewrite (Hdone r) by (apply elem_of_app; right; by apply list_elem_of_singleton). split; [|done]. right. eexists _, _. split; [done|by right]. }
      split; [apply Hl|]. intros n r [Hin|Hin%list_elem_of_singleton]%elem_of_app; [by apply (Hp n)|by eapply Hl]. }
  intros He n r ->. by apply (proj2 Hinv n).
Qed.

Lemma web_read_end_never_reported_witness :
  ∃ s, runs read_step (RRunning {| rf_buf := []; rf_fut := Some (Some JsDone) |}) [Polled 10 Pending; Resolved JsDone; Polled 10 Pending] s ∧
    (∀ n r, Polled 10 Pending = Polled n r → r = Pending).
Proof.
  eexists. split.
  - eapply runs_cons; [by constructor|]. eapply runs_cons; [apply read_resolved|]. eapply runs_cons; [by constructor|]. constructor.
  - eapply (web_read_end_never_reported [] [Polled 10 Pending; Resolved JsDone; Polled 10 Pending]).
    + eapply runs_cons; [by constructor|]. eapply runs_cons; [apply read_resolved|]. eapply runs_cons; [by constructor|]. constructor.
    + intros r Hr. rewrite !elem_of_cons, elem_of_nil in Hr. by destruct Hr as [|[[=]|[|]]].
    + left.
Defined.

(** ** Writing *)

Definition written (es : list WriteEvent) : list bytes :=
  omap (λ e, match e with Wrote buf (Ready (Ok _)) => Some buf | _ => None end) es.
(** Errors returned to the caller, and errors of the browser *)
Definition write_errors (es : list WriteEvent) : list JsError :=
  omap (λ e, match e with
             | Wrote _ (Ready (Err e)) | Flushed (Ready (Err e)) | Shut (Ready (Err e)) => Some e
             | _ => None
             end) es.
Definition settled_errors (es : list WriteEvent) : list JsError :=
  omap (λ e, match e with WriteSettled e => e | _ => None end) es.
Definition settled (es : list WriteEvent) : nat :=
  length (omap (λ e, match e with WriteSettled e => Some e | _ => None end) es).

Definition held_error (s : SendStream) : list JsError :=
  match ws_state s with WRunning (Some (Err e)) => [e] | _ => [] end.
Definition outstanding (s : SendStream) : nat := match ws_state s with WRunning None => 1 | _ => 0 end.

(** The state machine is never seen between two of its states. *)
Definition writer_ok (s : SendStream) : Prop :=
  match ws_state s with WInvalid | WRunning (Some Panic) => False | _ => True end.

Record write_inv (es : list WriteEvent) (s : SendStream) : Prop := {
  wi_ok : writer_ok s;
  wi_chunks : ws_chunks s = written es;
  wi_errors : write_errors es ++ held_error s = settled_errors es;
  wi_settled : (settled es + outstanding s = length (ws_chunks s))%nat;
  wi_counts : ∀ buf k, Wrote buf (Ready (Ok k)) ∈ es → k = length buf;
}.

(** [poll_flush] reports the settled write, if any, and starts nothing. *)
Lemma write_inv_flush es e s s' r :
  e = Flushed r ∨ e = Shut r → write_inv es s → poll_flush s = (s', r) → write_inv (es ++ [e]) s'.
Proof.
  intros He [Hok Hc Her Hs Hk] Hf. destruct s as [st cs]. unfold poll_flush in Hf. unfold writer_ok, held_error, outstanding in *. cbn in *.
  assert (Hcounts : ∀ buf k, Wrote buf (Ready (Ok k)) ∈ es ++ [e] → k = length buf).
  { intros buf k [Hin|Hin%list_elem_of_singleton]%elem_of_app; [by apply Hk|]. by destruct He as [->| ->]. }
  destruct st as [|[[u|err|]|]|]; try done; injection Hf as <- <-; destruct He as [->| ->]; (split; [done| | | |done]);
    unfold written, write_errors, settled_errors, settled, held_error, outstanding in *; rewrite ?omap_app; cbn; rewrite ?app_nil_r in *; auto.
Qed.

Lemma poll_write_cases buf s :
  writer_ok s →
  (∃ s', poll_write LOOP_FUEL buf s = (start_write buf s', Some (Ready (Ok (length buf)))) ∧ ws_chunks s' = ws_chunks s ∧
     held_error s = [] ∧ outstanding s = 0%nat) ∨
  (∃ e, ws_state s = WRunning (Some (Err e)) ∧ poll_write LOOP_FUEL buf s = (set_writer WIdle s, Some (Ready (Err e)))) ∨
  (ws_state s = WRunning None ∧ poll_write LOOP_FUEL buf s = (s, Some Pending)).
Proof.
  destruct s as [[|[[u|e|]|]|] cs]; unfold writer_ok; cbn; try done; intros _.
  - left. by exists {| ws_state := WIdle; ws_chunks := cs |}.
  - left. by exists {| ws_state := WIdle; ws_chunks := cs |}.
  - right. left. by exists e.
  - right. by right.
Qed.

Lemma write_inv_write es s buf s' r :
  write_inv es s → poll_write LOOP_FUEL buf s = (s', Some r) → write_inv (es ++ [Wrote buf r]) s'.
Proof.
  intros [Hok Hc Her Hs Hk] Hp.
  assert (Hcounts : r ≠ Ready Panic ∧ (∀ k, r = Ready (Ok k) → k = length buf) → ∀ b k, Wrote b (Ready (Ok k)) ∈ es ++ [Wrote buf r] → k = length b).
  { intros [_ Hr] b k [Hin|Hin%list_elem_of_singleton]%elem_of_app; [by apply Hk|]. injection Hin as -> <-. by apply Hr. }
  destruct (poll_write_cases buf s Hok) as [(s1 & Hp1 & Hcs & Hh & Ho)|[(e & Hst & Hp1)|[Hst Hp1]]]; rewrite Hp in Hp1; injection Hp1 as -> ->.
  - split; [done| | | |apply Hcounts; split; [done|by intros k [= <-]]]; unfold written, write_errors, settled_errors, settled in *; rewrite ?omap_app; cbn.
    + by rewrite Hcs, Hc.
    + rewrite Hh, app_nil_r in Her. by rewrite !app_nil_r.
    + rewrite app_nil_r, length_app, Hcs. cbn. lia.
  - unfold held_error, outstanding in *. rewrite Hst in *.
    split; [done| | | |apply Hcounts; split; [done|done]]; unfold written, write_errors, settled_errors, settled in *; rewrite ?omap_app; cbn; rewrite ?app_nil_r; done.
  - split; [done| | | |apply Hcounts; split; [done|done]]; unfold written, write_errors, settled_errors, settled in *; rewrite ?omap_app; cbn; rewrite ?app_nil_r; done.
Qed.

Lemma write_inv_reachable es s : runs write_step send_stream_new es s → write_inv es s.
Proof.
  apply (runs_invariant write_step write_inv).
  { split; try done. intros buf k Hin. by apply not_elem_of_nil in Hin. }
  intros ls l s1 s2 Hinv Hstep. destruct Hstep as [s1 buf s2 r Hp|s1 s2 r Hf|s1 s2 r Hf|s1 e Hst].
  - by eapply write_inv_write.
  - eapply write_inv_flush; [by left|done|done].
  - eapply write_inv_flush; [by right|done|done].
  - destruct Hinv as [Hok Hc Her Hs Hk]. unfold held_error, outstanding in *. rewrite Hst in *. rewrite app_nil_r in Her.
    split; unfold written, write_errors, settled_errors, settled, writer_ok, held_error, outstanding in *; rewrite ?omap_app; cbn; rewrite ?app_nil_r.
    + by destruct e.
    + done.
    + rewrite Her. by destruct e.
    + rewrite length_app. cbn. lia.
    + intros buf k [Hin|Hin%list_elem_of_singleton]%elem_of_app; [by apply Hk|done].
Qed.

(** C32: the browser's [AsyncWrite]: the chunks handed to the browser are the
    buffers of the calls that returned [Ok], whole and in order, at most one of
    them unsettled; every error of the browser is returned by exactly one later
    call, in order; a flush completes only when every chunk has been settled;
    and the states the code calls unreachable are. *)
Theorem web_write_exact es s :
  runs write_step send_stream_new es s →
  ws_chunks s = written es ∧
  write_errors es ++ held_error s = settled_errors es ∧
  (settled es ≤ length (ws_chunks s) ≤ settled es + 1)%nat ∧
  (∀ buf k, Wrote buf (Ready (Ok k)) ∈ es → k = length buf) ∧
  (∀ s' r, poll_flush s = (s', Ready r) → settled es = length (ws_chunks s) ∧ r ≠ Panic) ∧
  (∀ buf, ∃ s' r, poll_write LOOP_FUEL buf s = (s', Some r) ∧ r ≠ Ready Panic).
Proof.
  intros Hr. destruct (write_inv_reachable es s Hr) as [Hok Hc Her Hs Hk]. split_and!; [done|done| | |done| |].
  - lia.
  - unfold outstanding in Hs. destruct (ws_state s) as [|[]|]; lia.
  - intros s' r Hf. unfold poll_flush, writer_ok, outstanding in *. destruct (ws_state s) as [|[[]|]|]; try done; injection Hf as <- <-; split; (lia || done).
  - intros buf. destruct (poll_write_cases buf s Hok) as [(s1 & -> & _)|[(e & _ & ->)|[_ ->]]]; by eexists _, _.
Qed.

Definition sample_writes : list WriteEvent :=
  [Wrote [1; 2] (Ready (Ok 2%nat)); Wrote [3] Pending; WriteSettled (Some "reset"%string); Wrote [3] (Ready (Err "reset"%string)); Flushed (Ready (Ok tt))].

Lemma web_write_exact_witness :
  ∃ s, runs write_step send_stream_new sample_writes s ∧ ws_chunks s = written sample_writes ∧
    write_errors sample_writes ++ held_error s = settled_errors sample_writes.
Proof.
  assert (H : ∃ s, runs write_step send_stream_new sample_writes s).
  { eexists. eapply runs_cons; [by constructor|]. eapply runs_cons; [by constructor|]. eapply runs_cons; [by constructor|].
    eapply runs_cons; [by constructor|]. eapply runs_cons; [by constructor|]. constructor. }
  destruct H as [s Hs]. exists s. split; [done|]. destruct (web_write_exact sample_writes s Hs) as (H1 & H2 & _). done.
Defined.

(** ** The connection driver

    The browser lets a stream of streams be read by one reader only: asking for
    a second one throws, which the bindings turn into a panic for readers and
    into an error for writers. *)

(** A stream of the browser: whether the driver holds its reader (or writer),
    whether it is locked, and how often a reader was asked for *)
Record Lock := { held_reader : bool; locked : bool; requests : nat }.

Definition unlocked : Lock := {| held_reader := false; locked := false; requests := 0 |}.

Record WebDriver := {
  uni_streams_reader : Lock;
  bi_streams_reader : Lock;
  datagrams_reader : Lock;
  datagrams_writer : Lock;
}.

(** [WebTransportJSConnectionDriver::wrap] *)
Definition web_wrap : WebDriver :=
  {| uni_streams_reader := unlocked; bi_streams_reader := unlocked; datagrams_reader := unlocked; datagrams_writer := unlocked |}.

(** [if reader.is_none() { *reader = Some(..get_reader()..) }] *)
Definition acquire (on_locked : outcome string Lock) (l : Lock) : outcome string Lock :=
  if held_reader l then Ok l
  else if locked l then on_locked
  else Ok {| held_reader := true; locked := true; requests := S (requests l) |}.

(** What the promise of a read resolves to: the end, a value of the expected
    type, another value, or a rejection *)
Inductive JsNext (A : Type) := NextDone | NextValue (a : A) | NextOther (e : JsError) | NextRejected (e : JsError).
Arguments NextDone {A}.
Arguments NextValue {A}.
Arguments NextOther {A}.
Arguments NextRejected {A}.

(** The end of [accept_uni], [accept_bi] and [read_datagram] *)
Definition next_value {A} (at_done : string) (next : JsNext A) : outcome string A :=
  match next with
  | NextDone => Err at_done
  | NextValue a => Ok a
  | NextOther e | NextRejected e => Err e
  end.

Abbreviation driving := (handler WebDriver string).

Definition web_accept_uni {A} (next : JsNext A) : driving A := λ d,
  match acquire Panic (uni_streams_reader d) with
  | Ok l => ({| uni_streams_reader := l; bi_streams_reader := bi_streams_reader d; datagrams_reader := datagrams_reader d;
                datagrams_writer := datagrams_writer d |}, next_value "No more unistreams" next)
  | Err e => (d, Err e)
  | Panic => (d, Panic)
  end.

Definition web_accept_bi {A} (next : JsNext A) : driving A := λ d,
  match acquire Panic (bi_streams_reader d) with
  | Ok l => ({| uni_streams_reader := uni_streams_reader d; bi_streams_reader := l; datagrams_reader := datagrams_reader d;
                datagrams_writer := datagrams_writer d |}, next_value "No more bistreams" next)
  | Err e => (d, Err e)
  | Panic => (d, Panic)
  end.

Definition web_read_datagram (next : JsNext bytes) : driving bytes := λ d,
  match acquire Panic (datagrams_reader d) with
  | Ok l => ({| uni_streams_reader := uni_streams_reader d; bi_streams_reader := bi_streams_reader d; datagrams_reader := l;
                datagrams_writer := datagrams_writer d |}, next_value "Could not read datagrams" next)
  | Err e => (d, Err e)
  | Panic => (d, Panic)
  end.

(** [send_datagram], with the error of a locked stream and the result of the
    write *)
Definition web_send_datagram (lock_error : JsError) (res : outcome JsError unit) : driving unit := λ d,
  match acquire (Err lock_error) (datagrams_writer d) with
  | Ok l => ({| uni_streams_reader := uni_streams_reader d; bi_streams_reader := bi_streams_reader d; datagrams_reader := datagrams_reader d;
                datagrams_writer := l |}, res)
  | Err e => (d, Err e)
  | Panic => (d, Panic)
  end.

(** [WebTransportJSHash::new_from_hex] *)
Record WebTransportJSHash := { algorithm : string; hash_value : bytes }.

Definition new_from_hex (algorithm : string) (hash : bytes) : outcome DecodeHexError WebTransportJSHash :=
  hash ← hex_to_bytes hash;
  Ok {| algorithm := algorithm; hash_value := hash |}.

Definition new_sha256_from_hex (hash : bytes) : outcome DecodeHexError WebTransportJSHash := new_from_hex "sha-256" hash.

(** One call of the driver, by the answer of the browser *)
Inductive WebCall :=
| CallUni (next : JsNext nat)
| CallBi (next : JsNext nat)
| CallReadDatagram (next : JsNext bytes)
| CallSendDatagram (lock_error : JsError) (e : option JsError).

Definition web_call (c : WebCall) (d : WebDriver) : WebDriver * bool :=
  let panics {A} (r : outcome string A) := match r with Panic => true | _ => false end in
  match c with
  | CallUni n => let '(d, r) := web_accept_uni n d in (d, panics r)
  | CallBi n => let '(d, r) := web_accept_bi n d in (d, panics r)
  | CallReadDatagram n => let '(d, r) := web_read_datagram n d in (d, panics r)
  | CallSendDatagram lock_error e => let '(d, r) := web_send_datagram lock_error (match e with Some e => Err e | None => Ok tt end) d in (d, panics r)
  end.

Definition lock_ok (l : Lock) : Prop := locked l = held_reader l ∧ requests l = (if held_reader l then 1 else 0)%nat.

Lemma acquire_ok on_locked l : lock_ok l → ∃ l', acquire on_locked l = Ok l' ∧ lock_ok l' ∧ held_reader l' = true.
Proof.
  destruct l as [h k n]. intros [Hk Hn]. unfold acquire. cbn in *. subst. destruct h; eexists; (split; [done|]); done.
Qed.

Lemma lock_requests l : lock_ok l → (requests l ≤ 1)%nat.
Proof. intros [_ ->]. case_match; lia. Qed.

(** Whatever calls are made on a WebTransport connection, in whatever order
    and with whatever answers of the browser, each reader and writer of the
    browser is asked for at most once, so no call panics on a locked stream. *)
Theorem web_driver_locks_once cs c :
  let d := fold_left (λ d c, (web_call c d).1) cs web_wrap in
  snd (web_call c d) = false ∧
  Forall (λ l, requests l ≤ 1)%nat [uni_streams_reader d; bi_streams_reader d; datagrams_reader d; datagrams_writer d].
Proof.
  intros d. assert (Hd : lock_ok (uni_streams_reader d) ∧ lock_ok (bi_streams_reader d) ∧ lock_ok (datagrams_reader d) ∧ lock_ok (datagrams_writer d)).
  { unfold d. clear d. induction cs as [|c' cs IH] using rev_ind; [done|]. rewrite fold_left_app. cbn [fold_left].
    destruct (fold_left _ cs web_wrap) as [u b r w]. cbn in IH. destruct IH as (Hu & Hb & Hr & Hw).
    destruct c'; cbn; unfold web_accept_uni, web_accept_bi, web_read_datagram, web_send_datagram; cbn.
    - destruct (acquire_ok Panic u Hu) as (l & -> & Hl & _). done.
    - destruct (acquire_ok Panic b Hb) as (l & -> & Hl & _). done.
    - destruct (acquire_ok Panic r Hr) as (l & -> & Hl & _). done.
    - destruct (acquire_ok (Err lock_error) w Hw) as (l & -> & Hl & _). done. }
  destruct Hd as (Hu & Hb & Hr & Hw). split.
  - destruct c; cbn; unfold web_accept_uni, web_accept_bi, web_read_datagram, web_send_datagram.
    + destruct (acquire_ok Panic _ Hu) as (l & -> & _). by destruct next.
    + destruct (acquire_ok Panic _ Hb) as (l & -> & _). by destruct next.
    + destruct (acquire_ok Panic _ Hr) as (l & -> & _). by destruct next.
    + destruct (acquire_ok (Err lock_error) _ Hw) as (l & -> & _). by destruct e.
  - repeat (apply Forall_cons; split; [by apply lock_requests|]). constructor.
Qed.
