(* ===== verification/Kycom.v ===== *)
(** * Local connections between components

    Models [kycom]: the addresses of endpoints ([lib.rs]), the table of pending
    endpoints and the listener that pairs a TCP connection with the channel
    registered under the id it sends ([server.rs], [connection.rs]), and the
    first bytes of a connection ([endpoint.rs]).  TCP is the environment: a
    connection is a reader and a writer.  The [url] crate and the text of IP
    addresses are the class [Net]. *)

From stdpp Require Import prelude list gmap.
From Stdlib Require Import ZArith Lia.
From S2P Require Import Prelude Io Av Packets Hex.
Open Scope Z_scope.

(** ** Addresses ([lib.rs]) *)

Inductive Host (Ip : Type) := Domain (d : bytes) | Ipv4 (ip : Ip) | Ipv6 (ip : Ip).
Arguments Domain {Ip}.
Arguments Ipv4 {Ip}.
Arguments Ipv6 {Ip}.

(** What the code looks at in a parsed URL *)
Record Url (Ip : Type) := {
  scheme : bytes;
  host : option (Host Ip);
  port : option Z;
  path_segments : option (list bytes);
}.
Arguments scheme {Ip}.
Arguments host {Ip}.
Arguments port {Ip}.
Arguments path_segments {Ip}.

Class Net := {
  IpAddr : Type;
  socket_text : IpAddr → Z → bytes;
  ip_from_str : bytes → option IpAddr;
  url_parse : bytes → option (Url IpAddr);
}.

(** "kymux", "://" and "/" *)
Definition KYMUX : bytes := [107; 121; 109; 117; 120].
Definition SEPARATOR : bytes := [58; 47; 47].
Definition SLASH : bytes := [47].

Section Addresses.
Context `{Net}.

Abbreviation SocketAddr := (IpAddr * Z)%type.

Record KyComAddr := { addr : SocketAddr; endpoint_id : Z }.

Definition kycom_url (self : KyComAddr) : bytes :=
  KYMUX ++ SEPARATOR ++ socket_text (fst (addr self)) (snd (addr self)) ++ SLASH ++ format_X16 (endpoint_id self).

(** The two calls of [path_segments.next()] *)
Definition single_segment (segments : list bytes) : option bytes :=
  match segments with [s] => Some s | _ => None end.

(** [KyComAddr::parse]; every error is [InvalidData] *)
Definition kycom_parse (text : bytes) : io KyComAddr :=
  url ← ok_or (url_parse text) InvalidData;
  _ ← bail_if (negb (bool_decide (scheme url = KYMUX))) InvalidData;
  h ← ok_or (host url) InvalidData;
  ip ← match h with
       | Domain d => ok_or (ip_from_str d) InvalidData
       | Ipv4 ip => Ok ip
       | Ipv6 ip => Ok ip
       end;
  p ← ok_or (port url) InvalidData;
  segments ← ok_or (path_segments url) InvalidData;
  endpoint ← ok_or (single_segment segments) InvalidData;
  id ← map_err (λ _, InvalidData) (from_str_radix16 16 endpoint);
  Ok {| addr := (ip, p); endpoint_id := id |}.

(** ** Connections and channels ([connection.rs], [endpoint.rs]) *)

Record Connection := { c_addr : KyComAddr; c_read : Reader; c_write : Writer }.

Inductive ChannelRole := Client | Server.

(** A channel and the oneshot it waits on *)
Record Channel := { ch_addr : KyComAddr; ch_rx : nat; ch_role : ChannelRole }.

Definition on_write (m : writing unit) (c : Connection) : io Connection :=
  match m (c_write c) with
  | (w, Ok _) => Ok {| c_addr := c_addr c; c_read := c_read c; c_write := w |}
  | (_, Err e) => Err e
  | (_, Panic) => Panic
  end.

(** [Channel::ready_internal], by the value of the oneshot: [None] when its
    sender was dropped *)
Definition ready_internal (self : Channel) (result : option (io Connection)) : io Connection :=
  let id := endpoint_id (ch_addr self) in
  connection ← match result with None => Err ConnectionAborted | Some r => r end;
  _ ← rassert (endpoint_id (c_addr connection) =? id);
  match ch_role self with
  | Client =>
      connection ← on_write (_ ← write_all (be_bytes 2 id); flush) connection;
      '(_, r) ← read_exact 1 (c_read connection);
      Ok {| c_addr := c_addr connection; c_read := r; c_write := c_write connection |}
  | Server => on_write (_ ← write_all [0]; flush) connection
  end.

(** [Server::handle_stream], up to the queue: the id the peer sends *)
Definition handle_stream (tcp_stream : Reader) : io (Z * Reader) :=
  '(raw, r) ← read_exact 2 tcp_stream;
  Ok (read_be raw, r).

(** [Connection::connect], by the TCP connection; both halves of the stream *)
Definition connection_connect (tcp_connect : SocketAddr → io (Reader * Writer)) (a : KyComAddr) : io Connection :=
  '(r, w) ← tcp_connect (addr a);
  Ok {| c_addr := a; c_read := r; c_write := w |}.

(** [Channel::connect]; [rx] is the oneshot on which the spawned task sends the
    result of [Connection::connect]. *)
Definition channel_connect (a : KyComAddr) (rx : nat) : Channel := {| ch_addr := a; ch_rx := rx; ch_role := Client |}.

Section Start.
Context (localhost : IpAddr) (bind : SocketAddr → io unit).

(** [Server::start_on_addr], by the result of binding the address; the server is
    known by its address *)
Definition server_start_on_addr (a : SocketAddr) : io SocketAddr := _ ← bind a; Ok a.

(** [Server::start_on_port] *)
Definition server_start_on_port (port : Z) : io SocketAddr := server_start_on_addr (localhost, port).

(** [Server::start_on_any_port] *)
Fixpoint start_on_any_port (local_ports : list Z) : io SocketAddr :=
  match local_ports with
  | [] => Err AddrInUse
  | p :: local_ports => match server_start_on_port p with Ok server => Ok server | Err _ => start_on_any_port local_ports | Panic => Panic end
  end.
End Start.

(** ** The server ([server.rs]) *)

(** The channels by which a connection reaches [register_channel]'s caller *)
Inductive Slot := SlotWaiting | SlotDone (r : io Connection) | SlotDropped.

Record EndpointMap := { next_id : Z; endpoints : gmap Z nat }.

(** The server, the connections accepted and not looked at yet, and the oneshot
    channels *)
Record KyCom := {
  kc_addr : SocketAddr;
  kc_pending : option EndpointMap;
  kc_queue : list (Reader * Writer * Z);
  kc_slots : list Slot;
}.

(** [KyCom::new] *)
Definition kycom_new (a : SocketAddr) : KyCom :=
  {| kc_addr := a; kc_pending := Some {| next_id := 0; endpoints := ∅ |}; kc_queue := []; kc_slots := [] |}.

(** [KyCom::start_on_addr], [start_on_port] and [start_on_any_port] *)
Definition kycom_start_on_addr (bind : SocketAddr → io unit) (a : SocketAddr) : io KyCom :=
  server ← server_start_on_addr bind a; Ok (kycom_new server).
Definition kycom_start_on_port (localhost : IpAddr) (bind : SocketAddr → io unit) (port : Z) : io KyCom :=
  server ← server_start_on_port localhost bind port; Ok (kycom_new server).
Definition kycom_start_on_any_port (localhost : IpAddr) (bind : SocketAddr → io unit) (local_ports : list Z) : io KyCom :=
  server ← start_on_any_port localhost bind local_ports; Ok (kycom_new server).

Definition set_pending (p : option EndpointMap) (self : KyCom) : KyCom :=
  {| kc_addr := kc_addr self; kc_pending := p; kc_queue := kc_queue self; kc_slots := kc_slots self |}.
Definition set_slots (l : list Slot) (self : KyCom) : KyCom :=
  {| kc_addr := kc_addr self; kc_pending := kc_pending self; kc_queue := kc_queue self; kc_slots := l |}.
Definition set_queue (q : list (Reader * Writer * Z)) (self : KyCom) : KyCom :=
  {| kc_addr := kc_addr self; kc_pending := kc_pending self; kc_queue := q; kc_slots := kc_slots self |}.

(** [oneshot::Sender::send]: ignored when the receiver is gone *)
Definition slot_send (tx : nat) (r : io Connection) (slots : list Slot) : list Slot :=
  match slots !! tx with Some SlotWaiting => <[tx := SlotDone r]> slots | _ => slots end.

(** The loop of [register_channel]; [None] when it needs more turns than [fuel] *)
Fixpoint find_id (fuel : nat) (tx : nat) (m : EndpointMap) : option (EndpointMap * Z) :=
  match fuel with
  | O => None
  | S fuel =>
      let id := next_id m in
      let next := wrap16 (next_id m + 1) in
      match endpoints m !! id with
      | Some _ => find_id fuel tx {| next_id := next; endpoints := endpoints m |}
      | None => Some ({| next_id := next; endpoints := <[id := tx]> (endpoints m) |}, id)
      end
  end.

Definition ID_COUNT : nat := Z.to_nat (2 ^ 16).

(** [KyCom::register_channel]; the loop runs at most once per id
    ([find_id_spec]) *)
Definition register_channel : handler KyCom ErrorKind Channel := λ self,
  match kc_pending self with
  | None => (self, Err ConnectionAborted)
  | Some m =>
      if decide (base.size (endpoints m) = ID_COUNT) then (self, Panic)
      else
        match find_id ID_COUNT (length (kc_slots self)) m with
        | Some (m, id) =>
            (set_slots (kc_slots self ++ [SlotWaiting]) (set_pending (Some m) self),
             Ok {| ch_addr := {| addr := kc_addr self; endpoint_id := id |}; ch_rx := length (kc_slots self); ch_role := Server |})
        | None => (self, Panic)
        end
  end.

(** A TCP connection that has sent its id reaches the queue of
    [Server::accept] *)
Definition queue_stream (r : Reader) (w : Writer) (self : KyCom) : KyCom :=
  match handle_stream r with
  | Ok (id, r) => set_queue (kc_queue self ++ [(r, w, id)]) self
  | _ => self
  end.

(** [Server::accept]; the queue is only empty here when its senders are gone *)
Definition server_accept : handler KyCom ErrorKind Connection := λ self,
  match kc_queue self with
  | [] => (self, Err ConnectionAborted)
  | (r, w, id) :: q => (set_queue q self, Ok {| c_addr := {| addr := kc_addr self; endpoint_id := id |}; c_read := r; c_write := w |})
  end.

(** The body of the loop of [KyCom::listen]: the connection goes to the channel that waits for its id. *)
Definition pair_connection (connection : Connection) : handler KyCom ErrorKind unit := λ self,
  let id := endpoint_id (c_addr connection) in
  match kc_pending self with
  | None => (self, Panic)
  | Some m =>
      match endpoints m !! id with
      | Some tx =>
          (set_slots (slot_send tx (Ok connection) (kc_slots self))
             (set_pending (Some {| next_id := next_id m; endpoints := delete id (endpoints m) |}) self), Ok tt)
      | None => (self, Ok tt)
      end
  end.

(** One turn of [KyCom::listen] *)
Definition listen_turn : handler KyCom ErrorKind unit :=
  connection ← server_accept;
  pair_connection connection.

(** [Guard::drop]: the listener has ended *)
Definition guard_drop : handler KyCom ErrorKind unit := λ self,
  match kc_pending self with
  | None => (self, Panic)
  | Some m =>
      let slots := fold_right (λ tx slots, slot_send tx (Err ConnectionAborted) slots) (kc_slots self) (map_to_list (endpoints m)).*2 in
      (set_slots slots (set_pending None self), Ok tt)
  end.

(** The caller drops a channel it is waiting on. *)
Definition drop_channel (ch : Channel) (self : KyCom) : KyCom :=
  match kc_slots self !! ch_rx ch with
  | Some SlotWaiting => set_slots (<[ch_rx ch := SlotDropped]> (kc_slots self)) self
  | _ => self
  end.

(** ** The server with its callers *)

(** The queue of [Server::start_on_addr]; a full one makes the task of a
    connection wait *)
Definition QUEUE_SIZE : nat := 16.

Inductive KyComEvent :=
| Registered (ch : Channel)
| Connected (r : Reader) (w : Writer)
| Listened
| ListenerEnded
| ChannelDropped (ch : Channel).

Inductive kycom_step : KyCom → KyComEvent → KyCom → Prop :=
| step_register s s' ch : register_channel s = (s', Ok ch) → kycom_step s (Registered ch) s'
| step_connect s r w : (length (kc_queue s) < QUEUE_SIZE)%nat → kycom_step s (Connected r w) (queue_stream r w s)
| step_listen s s' : is_Some (kc_pending s) → kc_queue s ≠ [] → listen_turn s = (s', Ok tt) → kycom_step s Listened s'
| step_ended s s' : is_Some (kc_pending s) → guard_drop s = (s', Ok tt) → kycom_step s ListenerEnded s'
| step_drop s ch : kycom_step s (ChannelDropped ch) (drop_channel ch s).

Definition registered (es : list KyComEvent) : list Channel :=
  omap (λ e, match e with Registered ch => Some ch | _ => None end) es.
End Addresses.

(** ** Free identifiers *)

Section Registration.
Context `{Net}.

Definition ids_ok (m : EndpointMap) : Prop := is_u16 (next_id m) ∧ ∀ id tx, endpoints m !! id = Some tx → is_u16 id.

Lemma wrap16_u16 x : is_u16 (wrap16 x).
Proof. unfold is_u16, wrap16. apply Z.mod_pos_bound. lia. Qed.

Lemma wrap16_add x i : wrap16 (wrap16 (x + 1) + i) = wrap16 (x + (1 + i)).
Proof. unfold wrap16. rewrite Z.add_mod_idemp_l by lia. f_equal. lia. Qed.

(** The loop inspects the ids from [next_id] on, in order, and takes the first
    that is free. *)
Lemma find_id_turns fuel tx m :
  is_u16 (next_id m) →
  match find_id fuel tx m with
  | Some (m', id) =>
      ∃ k, (k < fuel)%nat ∧ id = wrap16 (next_id m + Z.of_nat k) ∧ endpoints m !! id = None ∧
        (∀ j, (j < k)%nat → is_Some (endpoints m !! wrap16 (next_id m + Z.of_nat j))) ∧
        m' = {| next_id := wrap16 (id + 1); endpoints := <[id := tx]> (endpoints m) |}
  | None => ∀ j, (j < fuel)%nat → is_Some (endpoints m !! wrap16 (next_id m + Z.of_nat j))
  end.
Proof.
  revert m. induction fuel as [|fuel IH]; intros m Hn; cbn [find_id]; [intros j Hj; lia|].
  assert (H0 : wrap16 (next_id m + Z.of_nat 0) = next_id m) by (unfold wrap16; rewrite Z.add_0_r; by apply Z.mod_small).
  destruct (endpoints m !! next_id m) as [tx'|] eqn:Hm.
  - specialize (IH {| next_id := wrap16 (next_id m + 1); endpoints := endpoints m |} (wrap16_u16 _)). cbn [next_id endpoints] in IH.
    assert (Hshift : ∀ j, wrap16 (wrap16 (next_id m + 1) + Z.of_nat j) = wrap16 (next_id m + Z.of_nat (S j)))
      by (intros j; rewrite wrap16_add; do 2 f_equal; lia).
    destruct (find_id fuel tx _) as [[m' id]|].
    + destruct IH as (k & Hk & -> & Hfree & Hbefore & ->). exists (S k). rewrite Hshift in *. split_and!; [lia|done|done| |done].
      intros [|j] Hj; [rewrite H0, Hm; eauto|]. rewrite <- Hshift. apply Hbefore. lia.
    + intros [|j] Hj; [rewrite H0, Hm; eauto|]. rewrite <- Hshift. apply IH. lia.
  - exists 0%nat. rewrite H0. split_and!; [lia|done|done|lia|done].
Qed.

Lemma ID_COUNT_eq : Z.of_nat ID_COUNT = 2 ^ 16.
Proof. unfold ID_COUNT. lia. Qed.

Section AllIds.
Context (n : nat) (Hcount : Z.of_nat n = 2 ^ 16).

Definition all_ids (from : Z) : list Z := (λ j, wrap16 (from + Z.of_nat j)) <$> seq 0 n.

Lemma all_ids_NoDup from : NoDup (all_ids from).
Proof using Hcount.
  apply NoDup_fmap_2_strong; [|apply NoDup_seq]. intros i j Hi%elem_of_seq Hj%elem_of_seq Heq. unfold wrap16 in Heq.
  pose proof (Z.div_mod (from + Z.of_nat i) (2 ^ 16) ltac:(lia)). pose proof (Z.div_mod (from + Z.of_nat j) (2 ^ 16) ltac:(lia)). nia.
Qed.

Lemma elem_of_all_ids from id : is_u16 id → id ∈ all_ids from.
Proof using Hcount.
  intros Hid. apply list_elem_of_fmap. exists (Z.to_nat (wrap16 (id - from))).
  pose proof (wrap16_u16 (id - from)) as Hw. unfold is_u16 in *. split; [|apply elem_of_seq; lia].
  rewrite Z2Nat.id by lia. unfold wrap16. rewrite Z.add_mod_idemp_r by lia. rewrite Z.add_sub_assoc, Z.add_simpl_l, Z.mod_small; lia.
Qed.

Lemma size_all_ids (from : Z) : base.size (list_to_set (all_ids from) : gset Z) = n.
Proof using Hcount. rewrite size_list_to_set by apply all_ids_NoDup. unfold all_ids. by rewrite length_fmap, length_seq. Qed.

(** Unless every id is taken, the loop finds one within one turn per id. *)
Lemma find_id_spec tx m :
  ids_ok m → base.size (endpoints m) ≠ n → is_Some (find_id n tx m).
Proof using Hcount.
  intros [Hn Hkeys] Hsize. pose proof (find_id_turns n tx m Hn) as Hturns.
  destruct (find_id n tx m) as [[m' id]|]; [eauto|]. exfalso. apply Hsize.
  rewrite <- (size_dom (D:=gset Z) (endpoints m)), <- (size_all_ids (next_id m)). f_equal. apply set_eq. intros id.
  rewrite elem_of_dom, elem_of_list_to_set. split.
  - intros [tx' Hid]. apply elem_of_all_ids. by eapply Hkeys.
  - intros (j & -> & Hj%elem_of_seq)%list_elem_of_fmap. apply Hturns. lia.
Qed.
End AllIds.

Lemma register_channel_ok s m :
  kc_pending s = Some m → ids_ok m → base.size (endpoints m) ≠ ID_COUNT →
  ∃ s' ch k, register_channel s = (s', Ok ch) ∧
    endpoint_id (ch_addr ch) = wrap16 (next_id m + Z.of_nat k) ∧ (k < ID_COUNT)%nat ∧
    endpoints m !! endpoint_id (ch_addr ch) = None ∧
    (∀ j, (j < k)%nat → is_Some (endpoints m !! wrap16 (next_id m + Z.of_nat j))) ∧
    ch_role ch = Server ∧ kc_slots s' = kc_slots s ++ [SlotWaiting] ∧ ch_rx ch = length (kc_slots s) ∧
    kc_pending s' = Some {| next_id := wrap16 (endpoint_id (ch_addr ch) + 1);
                            endpoints := <[endpoint_id (ch_addr ch) := ch_rx ch]> (endpoints m) |}.
Proof.
  intros Hp Hids Hsize. unfold register_channel. rewrite Hp, decide_False by done.
  destruct (find_id_spec ID_COUNT ID_COUNT_eq (length (kc_slots s)) m Hids Hsize) as [[m' id] Hf]. rewrite Hf.
  pose proof (find_id_turns ID_COUNT (length (kc_slots s)) m (proj1 Hids)) as Ht. rewrite Hf in Ht.
  destruct Ht as (k & Hk & Hid & Hfree & Hbefore & ->). eexists _, _, k. split; [reflexivity|]. cbn. split_and!; done.
Qed.

(** [register_channel] always returns: while the listener runs and an id is
    free, the loop ends after at most 65536 turns, takes the first free id from
    [next_id] on (wrapping around), and records the channel under it. *)
Theorem kycom_register_finds_id s m :
  kc_pending s = Some m → ids_ok m → base.size (endpoints m) ≠ ID_COUNT →
  ∃ s' ch k, register_channel s = (s', Ok ch) ∧
    endpoint_id (ch_addr ch) = wrap16 (next_id m + Z.of_nat k) ∧ (k < ID_COUNT)%nat ∧
    endpoints m !! endpoint_id (ch_addr ch) = None ∧
    (∀ j, (j < k)%nat → is_Some (endpoints m !! wrap16 (next_id m + Z.of_nat j))) ∧
    ch_role ch = Server ∧ kc_slots s' = kc_slots s ++ [SlotWaiting] ∧ ch_rx ch = length (kc_slots s) ∧
    kc_pending s' = Some {| next_id := wrap16 (endpoint_id (ch_addr ch) + 1);
                            endpoints := <[endpoint_id (ch_addr ch) := ch_rx ch]> (endpoints m) |}.
Proof. apply register_channel_ok. Qed.

(** ** Pairing *)

Definition channel_ok (s : KyCom) (ch : Channel) : Prop :=
  match kc_slots s !! ch_rx ch with
  | Some SlotWaiting => ∃ m, kc_pending s = Some m ∧ endpoints m !! endpoint_id (ch_addr ch) = Some (ch_rx ch)
  | Some (SlotDone (Ok c)) => endpoint_id (c_addr c) = endpoint_id (ch_addr ch)
  | Some (SlotDone (Err e)) => e = ConnectionAborted
  | Some (SlotDone Panic) | None => False
  | Some SlotDropped => True
  end.

Record kycom_inv (es : list KyComEvent) (s : KyCom) : Prop := {
  ki_ids m : kc_pending s = Some m → ids_ok m;
  ki_owner m id tx : kc_pending s = Some m → endpoints m !! id = Some tx →
    ∃ ch, ch ∈ registered es ∧ ch_rx ch = tx ∧ endpoint_id (ch_addr ch) = id;
  ki_channels ch : ch ∈ registered es → channel_ok s ch ∧ ch_role ch = Server;
  ki_distinct ch1 ch2 : ch1 ∈ registered es → ch2 ∈ registered es → ch_rx ch1 = ch_rx ch2 → ch1 = ch2;
}.

Lemma slot_send_lookup tx r slots i :
  slot_send tx r slots !! i =
  match slots !! i with Some SlotWaiting => Some (if decide (i = tx) then SlotDone r else SlotWaiting) | o => o end.
Proof.
  unfold slot_send. destruct (decide (i = tx)) as [->|Hne].
  - destruct (slots !! tx) as [[| |]|] eqn:Hs; rewrite ?Hs; [|done..].
    rewrite list_lookup_insert_eq by (by eapply lookup_lt_Some). done.
  - assert (Hi : (match slots !! tx with Some SlotWaiting => <[tx := SlotDone r]> slots | _ => slots end) !! i = slots !! i)
      by (destruct (slots !! tx) as [[| |]|]; try done; by rewrite list_lookup_insert_ne).
    rewrite Hi. by destruct (slots !! i) as [[| |]|].
Qed.

Lemma slot_send_all_lookup txs r slots i :
  foldr (λ tx slots, slot_send tx r slots) slots txs !! i =
  match slots !! i with Some SlotWaiting => Some (if decide (i ∈ txs) then SlotDone r else SlotWaiting) | o => o end.
Proof.
  induction txs as [|tx txs IH]; cbn [foldr]; [by destruct (slots !! i) as [[| |]|]|].
  rewrite slot_send_lookup, IH. destruct (slots !! i) as [[| |]|]; [|done..]. destruct (decide (i ∈ txs)) as [Hi|Hi].
  - rewrite decide_True; [done|by right].
  - destruct (decide (i = tx)) as [->|Hne]; [rewrite decide_True; [done|left]|]. rewrite decide_False; [done|]. by intros [|]%elem_of_cons.
Qed.

Lemma channel_in_range s ch : channel_ok s ch → (ch_rx ch < length (kc_slots s))%nat.
Proof. unfold channel_ok. intros Hok. apply lookup_lt_is_Some. destruct (kc_slots s !! ch_rx ch); [eauto|done]. Qed.

Lemma kycom_inv_register es s s' ch : kycom_inv es s → register_channel s = (s', Ok ch) → kycom_inv (es ++ [Registered ch]) s'.
Proof.
  intros [Hids Howner Hch Hdist] Hr. unfold register_channel in Hr. destruct (kc_pending s) as [m|] eqn:Hp; [|done].
  case_decide; [done|]. specialize (Hids m eq_refl). pose proof (find_id_turns ID_COUNT (length (kc_slots s)) m (proj1 Hids)) as Ht.
  destruct (find_id _ _ m) as [[m' id]|]; [|done]. injection Hr as <- <-. destruct Ht as (k & _ & Hid & Hfree & _ & ->).
  assert (Hreg : ∀ c, c ∈ registered (es ++ [Registered {| ch_addr := {| addr := kc_addr s; endpoint_id := id |}; ch_rx := length (kc_slots s); ch_role := Server |}]) ↔
    c ∈ registered es ∨ c = {| ch_addr := {| addr := kc_addr s; endpoint_id := id |}; ch_rx := length (kc_slots s); ch_role := Server |}).
  { intros c. unfold registered. rewrite omap_app, elem_of_app. cbn. by rewrite list_elem_of_singleton. }
  split; cbn.
  - intros m' [= <-]. split; cbn; [apply wrap16_u16|]. intros id' tx'. rewrite lookup_insert_Some. intros [[<- _]|[_ Hl]]; [rewrite Hid; apply wrap16_u16|].
    by eapply (proj2 Hids).
  - intros m' id' tx' [= <-]. cbn. rewrite lookup_insert_Some. intros [[<- <-]|[_ Hl]].
    + eexists. split; [apply Hreg; by right|done].
    + destruct (Howner m id' tx' eq_refl Hl) as (c & Hc & Hc'). exists c. split; [apply Hreg; by left|done].
  - intros c [Hc| ->]%Hreg; [|split; [|done]]; unfold channel_ok; cbn.
    + destruct (Hch c Hc) as [Hok Hrole]. split; [|done]. pose proof (channel_in_range s c Hok). rewrite lookup_app_l by done.
      unfold channel_ok in Hok. destruct (kc_slots s !! ch_rx c) as [[| |]|]; [|done..]. destruct Hok as (m0 & Hm0 & Hl). rewrite Hp in Hm0. injection Hm0 as <-.
      eexists. split; [done|]. cbn. rewrite lookup_insert_ne; [done|]. congruence.
    + rewrite list_lookup_middle by done. eexists. split; [done|]. cbn. apply lookup_insert_eq.
  - intros c1 c2 [H1| ->]%Hreg [H2| ->]%Hreg; cbn; [by apply Hdist| |intros Heq; exfalso|done].
    + intros Heq. exfalso. pose proof (channel_in_range s c1 (proj1 (Hch c1 H1))). lia.
    + pose proof (channel_in_range s c2 (proj1 (Hch c2 H2))). lia.
Qed.

Lemma kycom_inv_listen es s s' : kycom_inv es s → kc_queue s ≠ [] → listen_turn s = (s', Ok tt) → kycom_inv es s'.
Proof.
  intros [Hids Howner Hch Hdist] Hq. unfold listen_turn, server_accept, pair_connection. run_handler. destruct (kc_queue s) as [|[[r w] id] q]; [done|]. cbn.
  destruct (kc_pending s) as [m|] eqn:Hp; [|done]. destruct (endpoints m !! id) as [tx|] eqn:Hid; intros [= <-].
  - destruct (Howner m id tx eq_refl Hid) as (c0 & Hc0 & Htx & Hid0). split; cbn.
    + intros m' [= <-]. destruct (Hids m eq_refl) as [Hn Hk]. split; [done|]. cbn. intros id' tx' [_ Hl]%lookup_delete_Some. by eapply Hk.
    + intros m' id' tx' [= <-]. cbn [endpoints]. intros [_ Hl]%lookup_delete_Some. by apply (Howner m).
    + intros c Hc. destruct (Hch c Hc) as [Hok Hrole]. split; [|done]. unfold channel_ok in *. cbn. rewrite slot_send_lookup.
      destruct (kc_slots s !! ch_rx c) as [[| |]|] eqn:Hs; [|done..]. case_decide as Hd.
      * assert (c = c0) as -> by (apply Hdist; [done|done|congruence]). done.
      * destruct Hok as (m0 & Hm0 & Hl). rewrite Hp in Hm0. injection Hm0 as <-. eexists. split; [done|]. cbn. apply lookup_delete_Some. split; [|done]. congruence.
    + done.
  - split; cbn; rewrite ?Hp; done.
Qed.

Lemma kycom_inv_ended es s s' : kycom_inv es s → guard_drop s = (s', Ok tt) → kycom_inv es s'.
Proof.
  intros [Hids Howner Hch Hdist]. unfold guard_drop. destruct (kc_pending s) as [m|] eqn:Hp; [|done]. intros [= <-]. split; cbn; [done|done| |done].
  intros c Hc. destruct (Hch c Hc) as [Hok Hrole]. split; [|done]. unfold channel_ok in *. cbn. rewrite slot_send_all_lookup.
  destruct (kc_slots s !! ch_rx c) as [[| |]|]; [|done..]. case_decide as Hd; [done|]. exfalso. apply Hd.
  destruct Hok as (m0 & Hm0 & Hl). rewrite Hp in Hm0. injection Hm0 as <-. apply list_elem_of_fmap. exists (endpoint_id (ch_addr c), ch_rx c).
  split; [done|]. by apply elem_of_map_to_list.
Qed.

Lemma kycom_inv_drop es s ch : kycom_inv es s → kycom_inv es (drop_channel ch s).
Proof.
  intros [Hids Howner Hch Hdist]. unfold drop_channel. destruct (kc_slots s !! ch_rx ch) as [[| |]|] eqn:Hs; try by split.
  split; cbn; [done|done| |done]. intros c Hc. destruct (Hch c Hc) as [Hok Hrole]. split; [|done]. unfold channel_ok in *. cbn.
  destruct (decide (ch_rx c = ch_rx ch)) as [->|Hne]; [by rewrite list_lookup_insert_eq by (by eapply lookup_lt_Some)|].
  by rewrite list_lookup_insert_ne.
Qed.

Lemma registered_snoc_other es e : (∀ ch, e ≠ Registered ch) → registered (es ++ [e]) = registered es.
Proof. intros He. unfold registered. rewrite omap_app. destruct e; cbn; rewrite ?app_nil_r; try done. by exfalso; eapply He. Qed.

Lemma kycom_inv_reachable a es s : runs kycom_step (kycom_new a) es s → kycom_inv es s.
Proof.
  apply (runs_invariant kycom_step kycom_inv).
  { split; cbn.
    - intros m [= <-]. by split.
    - intros m id tx [= <-]. by cbn.
    - intros ch Hin. by apply not_elem_of_nil in Hin.
    - intros ch1 ch2 Hin. by apply not_elem_of_nil in Hin. }
  intros ls l s1 s2 Hinv Hstep. assert (Hother : ∀ e s2, (∀ ch, e ≠ Registered ch) → kycom_inv ls s2 → kycom_inv (ls ++ [e]) s2).
  { intros e s3 He [H1 H2 H3 H4]. split; rewrite ?registered_snoc_other by done; done. }
  destruct Hstep as [s1 s2 ch Hr|s1 r w Hl|s1 s2 Hp Hq Hl|s1 s2 Hp Hg|s1 ch].
  - by eapply kycom_inv_register.
  - apply Hother; [done|]. destruct Hinv as [H1 H2 H3 H4]. unfold queue_stream. destruct (handle_stream r) as [[id r']| |]; by split.
  - apply Hother; [done|]. by eapply kycom_inv_listen.
  - apply Hother; [done|]. by eapply kycom_inv_ended.
  - apply Hother; [done|]. by apply kycom_inv_drop.
Qed.

Lemma on_write_no_panic bs c : on_write (_ ← write_all bs; flush) c ≠ Panic.
Proof.
  unfold on_write, mbind, writing_bind, write_all, flush. destruct (w_budget (c_write c)) as [[|[|n]]|]; done.
Qed.

Lemma ready_internal_no_panic ch c :
  endpoint_id (c_addr c) = endpoint_id (ch_addr ch) → ready_internal ch (Some (Ok c)) ≠ Panic.
Proof.
  intros Heq. unfold ready_internal. cbn [mbind outcome_bind]. rewrite Heq, Z.eqb_refl. cbn [rassert mbind outcome_bind].
  destruct (ch_role ch); [|apply on_write_no_panic].
  pose proof (on_write_no_panic (be_bytes 2 (endpoint_id (ch_addr ch))) c). destruct (on_write _ c) as [c'| |]; [|done|done]. cbn [mbind outcome_bind].
  unfold read_exact. by destruct (exact_chunks 1 _) as [[? ?]|].
Qed.

(** C26: whatever registrations, connections and drops happen, in whatever order:
    the assertion of [ready] never fails (a channel only gets connections that
    asked for its id), two channels that wait have different ids, and once the
    listener has ended no channel waits any more. *)
Theorem kycom_channels_paired a es s ch :
  runs kycom_step (kycom_new a) es s → ch ∈ registered es →
  (∀ r, kc_slots s !! ch_rx ch = Some (SlotDone r) → ready_internal ch (Some r) ≠ Panic) ∧
  (∀ ch2, ch2 ∈ registered es → kc_slots s !! ch_rx ch = Some SlotWaiting → kc_slots s !! ch_rx ch2 = Some SlotWaiting →
     endpoint_id (ch_addr ch) = endpoint_id (ch_addr ch2) → ch = ch2) ∧
  (kc_pending s = None → kc_slots s !! ch_rx ch ≠ Some SlotWaiting).
Proof.
  intros Hr Hin. destruct (kycom_inv_reachable a es s Hr) as [Hids Howner Hch Hdist]. destruct (Hch ch Hin) as [Hok _]. split_and!.
  - intros r Hs. unfold channel_ok in Hok. rewrite Hs in Hok. destruct r as [c|e|]; [by apply ready_internal_no_panic|done|done].
  - intros ch2 Hin2 Hw Hw2 Heq. destruct (Hch ch2 Hin2) as [Hok2 _]. unfold channel_ok in Hok, Hok2. rewrite Hw in Hok. rewrite Hw2 in Hok2.
    destruct Hok as (m & Hm & Hl), Hok2 as (m2 & Hm2 & Hl2). apply Hdist; [done|done|]. rewrite Hm in Hm2. injection Hm2 as <-. congruence.
  - intros Hp Hw. unfold channel_ok in Hok. rewrite Hw in Hok. destruct Hok as (m & Hm & _). congruence.
Qed.

(** A connection that asks for the id of a waiting channel is handed to that
    channel, with the bytes that follow the id, and to no other; the id becomes
    free. *)
Theorem kycom_connection_delivered a es s ch r w q :
  runs kycom_step (kycom_new a) es s → ch ∈ registered es → kc_slots s !! ch_rx ch = Some SlotWaiting →
  kc_queue s = (r, w, endpoint_id (ch_addr ch)) :: q →
  ∃ s' m', listen_turn s = (s', Ok tt) ∧ kc_queue s' = q ∧
    kc_slots s' !! ch_rx ch =
      Some (SlotDone (Ok {| c_addr := {| addr := kc_addr s; endpoint_id := endpoint_id (ch_addr ch) |}; c_read := r; c_write := w |})) ∧
    kc_pending s' = Some m' ∧ endpoints m' !! endpoint_id (ch_addr ch) = None ∧
    (∀ ch2, ch2 ∈ registered es → ch2 ≠ ch → kc_slots s' !! ch_rx ch2 = kc_slots s !! ch_rx ch2).
Proof.
  intros Hr Hin Hw Hq. destruct (kycom_inv_reachable a es s Hr) as [_ _ Hch Hdist]. destruct (Hch ch Hin) as [Hok _].
  unfold channel_ok in Hok. rewrite Hw in Hok. destruct Hok as (m & Hm & Hl). unfold listen_turn, server_accept, pair_connection. run_handler. rewrite Hq. cbn. rewrite Hm, Hl.
  eexists _, _. split; [reflexivity|]. cbn. split_and!; [done| |done|apply lookup_delete_eq|].
  - by rewrite slot_send_lookup, Hw, decide_True by done.
  - intros ch2 Hin2 Hne. rewrite slot_send_lookup. destruct (kc_slots s !! ch_rx ch2) as [[| |]|]; [|done..].
    rewrite decide_False; [done|]. intros Heq. apply Hne. by apply Hdist.
Qed.

(** One registration dropped before a connection came *)
Lemma register_and_drop s m :
  kc_pending s = Some m → ids_ok m → base.size (endpoints m) ≠ ID_COUNT →
  ∃ ch s' m', runs kycom_step s [Registered ch; ChannelDropped ch] s' ∧ kc_pending s' = Some m' ∧ ids_ok m' ∧
    base.size (endpoints m') = S (base.size (endpoints m)).
Proof.
  intros Hp Hids Hs. destruct (register_channel_ok s m Hp Hids Hs) as (s1 & ch & k & Hr & Hid & _ & Hfree & _ & _ & _ & _ & Hp1).
  eexists ch, (drop_channel ch s1), _. split_and!.
  - eapply runs_cons; [by apply step_register|]. apply runs_one. apply step_drop.
  - unfold drop_channel. destruct (kc_slots s1 !! ch_rx ch) as [[| |]|]; done.
  - split; cbn; [apply wrap16_u16|]. intros id tx. rewrite lookup_insert_Some. intros [[<- _]|[_ Hl]]; [rewrite Hid; apply wrap16_u16|].
    by eapply (proj2 Hids).
  - cbn. by apply map_size_insert_None.
Qed.

(** A channel that is dropped before its connection comes keeps its id:
    after 65536 of them the next [register_channel] panics, although no channel
    waits. *)
Theorem kycom_dropped_channels_exhaust_ids a :
  ∃ es s, runs kycom_step (kycom_new a) es s ∧
    (∀ e, e ∈ es → ∃ ch, e = Registered ch ∨ e = ChannelDropped ch) ∧
    length (registered es) = ID_COUNT ∧ register_channel s = (s, Panic).
Proof.
  assert (Hn : ∀ n, (n ≤ ID_COUNT)%nat → ∃ es s m, runs kycom_step (kycom_new a) es s ∧ (∀ e, e ∈ es → ∃ ch, e = Registered ch ∨ e = ChannelDropped ch) ∧
    length (registered es) = n ∧ kc_pending s = Some m ∧ ids_ok m ∧ base.size (endpoints m) = n).
  { induction n as [|n IH]; intros Hle.
    - eexists [], _, _. split; [constructor|]. split_and!; [intros e He; by apply not_elem_of_nil in He|done|done|by split|done].
    - destruct IH as (es & s & m & Hr & Hes & Hreg & Hp & Hids & Hsize); [lia|].
      destruct (register_and_drop s m Hp Hids) as (ch & s' & m' & Hr' & Hp' & Hids' & Hsize'); [lia|].
      exists (es ++ [Registered ch; ChannelDropped ch]), s', m'. split_and!; [by eapply runs_trans| | |done|done|lia].
      + intros e [He|He]%elem_of_app; [by apply Hes|]. exists ch. rewrite !elem_of_cons, elem_of_nil in He. naive_solver.
      + unfold registered in *. rewrite omap_app, length_app, Hreg. cbn. lia. }
  destruct (Hn ID_COUNT) as (es & s & m & Hr & Hes & Hreg & Hp & _ & Hsize); [lia|]. exists es, s. split_and!; [done|done|done|].
  unfold register_channel. by rewrite Hp, decide_True.
Qed.

(** [start_on_any_port] listens on the first port of the range that can be
    bound, on the local host only, and fails only if none can. *)
Theorem kycom_first_free_port localhost bind ports :
  (∀ a, bind a ≠ Panic) →
  match kycom_start_on_any_port localhost bind ports with
  | Ok self => ∃ p before after, self = kycom_new (localhost, p) ∧ ports = before ++ p :: after ∧ bind (localhost, p) = Ok tt ∧
                 Forall (λ p, ∃ e, bind (localhost, p) = Err e) before
  | Err e => e = AddrInUse ∧ Forall (λ p, ∃ e, bind (localhost, p) = Err e) ports
  | Panic => False
  end.
Proof.
  intros Hnp. unfold kycom_start_on_any_port.
  induction ports as [|p ports IH]; cbn [start_on_any_port]; [done|]. unfold server_start_on_port, server_start_on_addr.
  pose proof (Hnp (localhost, p)). destruct (bind (localhost, p)) as [[]|e|] eqn:Hb; cbn [mbind outcome_bind] in *; [by exists p, [], ports| |done].
  destruct (start_on_any_port localhost bind ports) as [p'|e'|]; cbn [mbind outcome_bind] in *; [|by destruct IH; split; [|constructor; eauto]|done].
  destruct IH as (p0 & before & after & Hs & -> & Hp & Hbefore). exists p0, (p :: before), after. split_and!; [done|done|done|]. constructor; eauto.
Qed.
End Registration.

(** ** The first bytes of a connection *)

Lemma read_exact_1 r b rest : rd_data r = b :: rest → ∃ r', read_exact 1 r = Ok ([b], r') ∧ rd_data r' = rest ∧ rd_fail r' = rd_fail r.
Proof. intros Hd. by apply (read_exact_app 1 r [b] rest). Qed.

Lemma on_write_open `{Net} bs a r out :
  on_write (_ ← write_all bs; flush) {| c_addr := a; c_read := r; c_write := open_writer out |} =
  Ok {| c_addr := a; c_read := r; c_write := open_writer (out ++ bs) |}.
Proof. done. Qed.

(** A client and the server channel with its id agree on where packets
    start: what the client sends after [ready] is received unchanged by the
    server after [handle_stream] and [ready], and the reverse, however the two
    byte streams are chunked. *)
Theorem kycom_handshake `{Net} {P Q} `{HSP : Serializable P} {wfP : P → Prop} `{HLP : !SerializableLaws P wfP} `{HEP : !CleanEof P}
    `{HSQ : Serializable Q} {wfQ : Q → Prop} `{HLQ : !SerializableLaws Q wfQ} `{HEQ : !CleanEof Q} (a : KyComAddr) ps qs rx tx :
  is_u16 (endpoint_id a) → Forall wfP ps → Forall wfQ qs →
  let client := {| ch_addr := a; ch_rx := rx; ch_role := Client |} in
  let server := {| ch_addr := a; ch_rx := tx; ch_role := Server |} in
  ∃ from_client from_server,
    (∀ r fuel, rd_data r = from_server → rd_fail r = None → (length qs < fuel)%nat →
       ∃ c, ready_internal client (Some (Ok {| c_addr := a; c_read := r; c_write := open_writer [] |})) = Ok c ∧
         ipc_send_all ps (c_write c) = (open_writer from_client, Ok tt) ∧ recv_all fuel (c_read c) = Some (qs, Ok tt)) ∧
    (∀ r fuel, rd_data r = from_client → rd_fail r = None → (length ps < fuel)%nat →
       ∃ r' c, handle_stream r = Ok (endpoint_id a, r') ∧
         ready_internal server (Some (Ok {| c_addr := a; c_read := r'; c_write := open_writer [] |})) = Ok c ∧
         ipc_send_all qs (c_write c) = (open_writer from_server, Ok tt) ∧ recv_all fuel (c_read c) = Some (ps, Ok tt)).
Proof.
  intros Hid Hps Hqs client server.
  exists (be_bytes 2 (endpoint_id a) ++ stream_image ps), ([0] ++ stream_image qs). split; intros r fuel Hd Hf Hfuel.
  - destruct (read_exact_1 r 0 _ Hd) as (r' & Hr & Hd' & Hf'). unfold ready_internal. cbn [mbind outcome_bind ch_addr client c_addr]. rewrite Z.eqb_refl.
    cbn [rassert mbind outcome_bind ch_role client]. rewrite on_write_open. cbn [mbind outcome_bind c_read]. rewrite Hr. cbn [mbind outcome_bind c_addr c_write app]. eexists. split; [reflexivity|]. cbn [c_write c_read]. split.
    + by rewrite (ipc_send_all_ok ps _ Hps).
    + apply recv_all_stream; [done|done|congruence|done].
  - destruct (read_exact_app 2 r _ _ Hd (be_bytes_length 2 _)) as (r' & Hr & Hd' & Hf'). unfold handle_stream. rewrite Hr. cbn [mbind outcome_bind].
    rewrite read_be_be2 by done. eexists r', _. split; [done|]. unfold ready_internal. cbn [mbind outcome_bind ch_addr server c_addr]. rewrite Z.eqb_refl.
    cbn [rassert mbind outcome_bind ch_role server]. rewrite on_write_open. split; [reflexivity|]. cbn [c_write c_read app]. split.
    + by rewrite (ipc_send_all_ok qs _ Hqs).
    + apply recv_all_stream; [done|done|congruence|done].
Qed.

(** ** Text of an address *)

(** What the code relies on: the text of a socket address is the host and port
    of a URL, as a domain for IPv4 addresses (the scheme is not a special one)
    and as an IPv6 literal otherwise. *)
Class NetLaws `{Net} :=
  url_of_address ip p segment :
    is_u16 p → segment ≠ [] → Forall (λ c, is_Some (to_digit c)) segment →
    ∃ h, url_parse (KYMUX ++ SEPARATOR ++ socket_text ip p ++ SLASH ++ segment) =
           Some {| scheme := KYMUX; host := Some h; port := Some p; path_segments := Some [segment] |} ∧
      match h with Domain d => ip_from_str d = Some ip | Ipv4 ip' | Ipv6 ip' => ip' = ip end.

(** The URL of an address parses back to it. *)
Theorem kycom_addr_roundtrip `{NL : NetLaws} (a : KyComAddr) :
  is_u16 (snd (addr a)) → is_u16 (endpoint_id a) → kycom_parse (kycom_url a) = Ok a.
Proof.
  intros Hp Hid. destruct a as [[ip p] id]. cbn [addr endpoint_id fst snd] in *. destruct (format_X16_digits id Hid) as [Hne Hd].
  destruct (url_of_address ip p (format_X16 id) Hp Hne Hd) as (h & Hu & Hh). unfold kycom_parse, kycom_url. cbn [addr endpoint_id fst snd].
  rewrite Hu. cbn [ok_or mbind outcome_bind scheme host port path_segments single_segment]. rewrite bool_decide_true by done. cbn [negb bail_if mbind outcome_bind].
  destruct h as [d|ip'|ip']; cbn [ok_or mbind outcome_bind]; rewrite Hh; cbn [ok_or mbind outcome_bind]; rewrite format_X16_roundtrip by done; done.
Qed.

(** ** Samples *)

(** A network of two hosts, with a fixed-size text of addresses *)
#[local] Instance sample_net : Net := {
  IpAddr := bool;
  socket_text ip p := (if ip then 1 else 0) :: be_bytes 2 p;
  ip_from_str _ := None;
  url_parse text :=
    if decide (take 8 text = KYMUX ++ SEPARATOR) then
      match drop 8 text with
      | b :: p1 :: p2 :: slash :: segment =>
          Some {| scheme := KYMUX; host := Some (Ipv6 (b =? 1)); port := Some (read_be [p1; p2]); path_segments := Some [segment] |}
      | _ => None
      end
    else None;
}.

#[local] Instance sample_net_laws : NetLaws.
Proof.
  intros ip p segment Hp _ _. exists (Ipv6 ip). split; [|done]. unfold url_parse, sample_net, socket_text.
  rewrite decide_True by done. pose proof (read_be_be2 p Hp) as Hport. cbn [be_bytes] in Hport. rewrite <- Hport at 2. by destruct ip.
Qed.

Definition sample_socket : IpAddr * Z := (true, 4343).
Definition sample_addr : KyComAddr := {| addr := sample_socket; endpoint_id := 0x0123 |}.

Lemma kycom_addr_roundtrip_witness : kycom_parse (kycom_url sample_addr) = Ok sample_addr.
Proof. apply (kycom_addr_roundtrip sample_addr); by vm_compute. Defined.

Definition sample_map : EndpointMap := {| next_id := 65535; endpoints := {[65535 := 0%nat; 0 := 1%nat]} |}.
Definition sample_server : KyCom :=
  {| kc_addr := sample_socket; kc_pending := Some sample_map; kc_queue := []; kc_slots := [SlotWaiting; SlotWaiting] |}.

Lemma kycom_register_finds_id_witness :
  ∃ s' ch k, register_channel sample_server = (s', Ok ch) ∧ endpoint_id (ch_addr ch) = wrap16 (65535 + Z.of_nat k) ∧
    endpoints sample_map !! endpoint_id (ch_addr ch) = None ∧
    (∀ j, (j < k)%nat → is_Some (endpoints sample_map !! wrap16 (65535 + Z.of_nat j))) ∧ ch_rx ch = 2%nat ∧ kc_slots s' = kc_slots sample_server ++ [SlotWaiting].
Proof.
  destruct (kycom_register_finds_id sample_server sample_map eq_refl) as (s' & ch & k & H1 & H2 & _ & H3 & H4 & _ & H5 & H6 & _).
  - split; [by vm_compute|]. intros id tx. unfold sample_map. cbn [endpoints]. rewrite lookup_insert_Some, lookup_singleton_Some.
    intros [[<- _]|[_ [<- _]]]; by vm_compute.
  - intros Heq. apply (f_equal Z.of_nat) in Heq. rewrite ID_COUNT_eq in Heq. by vm_compute in Heq.
  - exists s', ch, k. done.
Defined.

Definition sample_channel (id : Z) (rx : nat) : Channel :=
  {| ch_addr := {| addr := sample_socket; endpoint_id := id |}; ch_rx := rx; ch_role := Server |}.

Lemma find_id_first n tx m :
  n ≠ 0%nat → endpoints m !! next_id m = None →
  find_id n tx m = Some ({| next_id := wrap16 (next_id m + 1); endpoints := <[next_id m := tx]> (endpoints m) |}, next_id m).
Proof. intros Hn Hm. destruct n; [done|]. cbn [find_id]. by rewrite Hm. Qed.

(** A registration, as the run of a sample sees it *)
Lemma register_run s m :
  kc_pending s = Some m → endpoints m !! next_id m = None → base.size (endpoints m) ≠ ID_COUNT →
  register_channel s =
    (set_slots (kc_slots s ++ [SlotWaiting])
       (set_pending (Some {| next_id := wrap16 (next_id m + 1); endpoints := <[next_id m := length (kc_slots s)]> (endpoints m) |}) s),
     Ok {| ch_addr := {| addr := kc_addr s; endpoint_id := next_id m |}; ch_rx := length (kc_slots s); ch_role := Server |}).
Proof.
  intros Hp Hn Hs. unfold register_channel. rewrite Hp, decide_False by done.
  rewrite find_id_first; [done| |done]. intros Hz. pose proof ID_COUNT_eq as Hc. rewrite Hz in Hc. done.
Qed.

Definition sample_stream : Reader := {| rd_chunks := [[0; 1; 9]]; rd_fail := None |}.

Definition sample_kycom : KyCom :=
  {| kc_addr := sample_socket; kc_pending := Some {| next_id := 2; endpoints := <[1 := 1%nat]> (<[0 := 0%nat]> ∅) |};
     kc_queue := [({| rd_chunks := [[9]]; rd_fail := None |}, open_writer [], 1)]; kc_slots := [SlotWaiting; SlotWaiting] |}.

Definition sample_events : list KyComEvent :=
  [Registered (sample_channel 0 0); Registered (sample_channel 1 1); Connected sample_stream (open_writer [])].

Lemma small_map_free (m : gmap Z nat) : (base.size m < 10)%nat → base.size m ≠ ID_COUNT.
Proof. intros Hs Heq. pose proof ID_COUNT_eq. lia. Qed.

Lemma step_register_at s m ch :
  kc_pending s = Some m → endpoints m !! next_id m = None → base.size (endpoints m) ≠ ID_COUNT →
  ch = {| ch_addr := {| addr := kc_addr s; endpoint_id := next_id m |}; ch_rx := length (kc_slots s); ch_role := Server |} →
  kycom_step s (Registered ch)
    (set_slots (kc_slots s ++ [SlotWaiting])
       (set_pending (Some {| next_id := wrap16 (next_id m + 1); endpoints := <[next_id m := length (kc_slots s)]> (endpoints m) |}) s)).
Proof. intros Hp Hn Hs ->. apply step_register. by apply register_run. Qed.

Definition sample_map1 : EndpointMap := {| next_id := wrap16 (0 + 1); endpoints := <[0 := 0%nat]> ∅ |}.

Lemma sample_kycom_run : runs kycom_step (kycom_new sample_socket) sample_events sample_kycom.
Proof.
  eapply runs_cons; [apply (step_register_at _ {| next_id := 0; endpoints := ∅ |}); [done|done|apply small_map_free; vm_compute; lia|done]|].
  eapply runs_cons; [apply (step_register_at _ sample_map1); [done|by vm_compute|apply small_map_free; vm_compute; lia|done]|].
  eapply runs_cons; [apply step_connect; cbn; unfold QUEUE_SIZE; lia|]. constructor.
Qed.

Lemma kycom_channels_paired_witness :
  kc_slots sample_kycom !! 0%nat = Some SlotWaiting ∧
  (∀ ch2, ch2 ∈ registered sample_events → kc_slots sample_kycom !! 0%nat = Some SlotWaiting → kc_slots sample_kycom !! ch_rx ch2 = Some SlotWaiting →
     0 = endpoint_id (ch_addr ch2) → sample_channel 0 0 = ch2).
Proof. split; [done|]. apply (kycom_channels_paired sample_socket sample_events sample_kycom (sample_channel 0 0) sample_kycom_run). left. Defined.

Lemma kycom_connection_delivered_witness :
  ∃ s' m', listen_turn sample_kycom = (s', Ok tt) ∧ kc_queue s' = [] ∧
    kc_slots s' !! 1%nat =
      Some (SlotDone (Ok {| c_addr := {| addr := sample_socket; endpoint_id := 1 |}; c_read := {| rd_chunks := [[9]]; rd_fail := None |};
                            c_write := open_writer [] |})) ∧
    kc_pending s' = Some m' ∧ endpoints m' !! 1 = None ∧
    (∀ ch2, ch2 ∈ registered sample_events → ch2 ≠ sample_channel 1 1 → kc_slots s' !! ch_rx ch2 = kc_slots sample_kycom !! ch_rx ch2).
Proof.
  apply (kycom_connection_delivered sample_socket sample_events sample_kycom (sample_channel 1 1) {| rd_chunks := [[9]]; rd_fail := None |} (open_writer []) []
           sample_kycom_run); [right; left|done|done].
Defined.

Lemma kycom_first_free_port_witness :
  let bind := λ a : IpAddr * Z, if a.2 <? 9 then Err AddrInUse else Ok tt in
  match kycom_start_on_any_port sample_socket.1 bind [7; 8; 9; 10] with
  | Ok self => ∃ p before after, self = kycom_new (sample_socket.1, p) ∧ [7; 8; 9; 10] = before ++ p :: after ∧ bind (sample_socket.1, p) = Ok tt ∧
                 Forall (λ p, ∃ e, bind (sample_socket.1, p) = Err e) before
  | _ => False
  end.
Proof.
  apply (kycom_first_free_port sample_socket.1 (λ a : IpAddr * Z, if a.2 <? 9 then Err AddrInUse else Ok tt) [7; 8; 9; 10]). intros [ip p]. cbn. by destruct (p <? 9).
Defined.

Lemma kycom_handshake_witness :
  ∃ from_client from_server,
    (∀ r fuel, rd_data r = from_server → rd_fail r = None → (1 < fuel)%nat →
       ∃ c, ready_internal {| ch_addr := sample_addr; ch_rx := 0%nat; ch_role := Client |}
              (Some (Ok {| c_addr := sample_addr; c_read := r; c_write := open_writer [] |})) = Ok c ∧
         ipc_send_all [{| data_payload := [1; 2] |}] (c_write c) = (open_writer from_client, Ok tt) ∧
         recv_all fuel (c_read c) = Some ([{| data_payload := [3] |}], Ok tt)) ∧
    (∀ r fuel, rd_data r = from_client → rd_fail r = None → (1 < fuel)%nat →
       ∃ r' c, handle_stream r = Ok (0x0123, r') ∧
         ready_internal {| ch_addr := sample_addr; ch_rx := 0%nat; ch_role := Server |}
           (Some (Ok {| c_addr := sample_addr; c_read := r'; c_write := open_writer [] |})) = Ok c ∧
         ipc_send_all [{| data_payload := [3] |}] (c_write c) = (open_writer from_server, Ok tt) ∧
         recv_all fuel (c_read c) = Some ([{| data_payload := [1; 2] |}], Ok tt)).
Proof.
  apply (kycom_handshake (wfP:=wf_data) (wfQ:=wf_data) sample_addr [{| data_payload := [1; 2] |}] [{| data_payload := [3] |}] 0 0).
  - by vm_compute.
  - repeat constructor; vm_compute; congruence.
  - repeat constructor; vm_compute; congruence.
Defined.
