(* ===== verification/Reliable.v ===== *)
(** * Reliable drivers

    Models [kyproto/src/protocol/driver/mod.rs], the four [reliable.rs] drivers
    (audio and video, data, input, metrics), which differ only in their packet
    type.  A driver sends its packets on one unidirectional stream of its channel; the theorems
    follow the bytes through the router of the peer to the receiving driver. *)

From stdpp Require Import prelude list gmap strings.
From Stdlib Require Import ZArith Lia.
From S2P Require Import Prelude Io Av Packets Router.
Open Scope Z_scope.

Section Driver.
Context {P : Type} `{Serializable P}.

(** [driver::read_packet] *)
Definition read_packet (reader : Reader) : outcome ProtocolError (option P * Reader) := map_err io_message (ser_read reader).

(** [driver::write_packet] *)
Definition write_packet (packet : P) (writer : Writer) : Writer * outcome ProtocolError unit :=
  let '(w, r) := (_ ← ser_write packet; flush) writer in (w, map_err io_message r).

(** The sending driver: its channel, by endpoint id, and its stream *)
Record ReliableSend := { rs_endpoint : Z; rs_stream : Writer }.

(** The receiving driver: its channel, by the index of its queues, and its
    stream *)
Record ReliableRecv := { rr_channel : nat; rr_stream : Reader }.

(** [ReliableProtocolSendDriver::start], on the stream that [kynet] opens *)
Definition reliable_send_start (endpoint_id : Z) (stream : Writer) : outcome ProtocolError ReliableSend :=
  match open_uni_ endpoint_id stream with
  | (w, Ok _) => Ok {| rs_endpoint := endpoint_id; rs_stream := w |}
  | (_, Err e) => Err (io_message e)
  | (_, Panic) => Panic
  end.

(** [ReliableProtocolSendDriver::send] *)
Definition reliable_send (packet : P) : handler ReliableSend ProtocolError unit := λ self,
  let '(w, r) := write_packet packet (rs_stream self) in
  ({| rs_endpoint := rs_endpoint self; rs_stream := w |}, r).

(** [ReliableProtocolRecvDriver::start], once a stream is queued: [None] while it
    waits *)
Definition reliable_recv_start (channel : nat) (r : Router) : option (ReliableRecv * Router) :=
  '(stream, r) ← recv_ unistreams on_uni channel r;
  Some ({| rr_channel := channel; rr_stream := stream |}, r).

(** [ReliableProtocolRecvDriver::recv] *)
Definition reliable_recv (self : ReliableRecv) : outcome ProtocolError (option P * ReliableRecv) :=
  '(p, r) ← read_packet (rr_stream self);
  Ok (p, {| rr_channel := rr_channel self; rr_stream := r |}).

(** Packets sent one after the other, and received until the stream ends *)
Fixpoint reliable_send_all (ps : list P) : handler ReliableSend ProtocolError unit :=
  match ps with
  | [] => mret tt
  | p :: ps => _ ← reliable_send p; reliable_send_all ps
  end.

Fixpoint reliable_recv_all (fuel : nat) (self : ReliableRecv) : option (list P * outcome ProtocolError unit) :=
  match fuel with
  | O => None
  | S fuel =>
      match reliable_recv self with
      | Err e => Some ([], Err e)
      | Panic => Some ([], Panic)
      | Ok (None, _) => Some ([], Ok tt)
      | Ok (Some p, self) =>
          match reliable_recv_all fuel self with
          | Some (ps, res) => Some (p :: ps, res)
          | None => None
          end
      end
  end.
End Driver.

(** ** The four drivers *)

Definition av_send_start : Z → Writer → outcome ProtocolError ReliableSend := reliable_send_start.
Definition av_send : AVPacket → handler ReliableSend ProtocolError unit := reliable_send.
Definition av_recv_start : nat → Router → option (ReliableRecv * Router) := reliable_recv_start.
Definition av_recv : ReliableRecv → outcome ProtocolError (option AVPacket * ReliableRecv) := reliable_recv.

Definition data_send_start : Z → Writer → outcome ProtocolError ReliableSend := reliable_send_start.
Definition data_send : DataPacket → handler ReliableSend ProtocolError unit := reliable_send.
Definition data_recv_start : nat → Router → option (ReliableRecv * Router) := reliable_recv_start.
Definition data_recv : ReliableRecv → outcome ProtocolError (option DataPacket * ReliableRecv) := reliable_recv.

Definition input_send_start : Z → Writer → outcome ProtocolError ReliableSend := reliable_send_start.
Definition input_send : InputPacket → handler ReliableSend ProtocolError unit := reliable_send.
Definition input_recv_start : nat → Router → option (ReliableRecv * Router) := reliable_recv_start.
Definition input_recv : ReliableRecv → outcome ProtocolError (option InputPacket * ReliableRecv) := reliable_recv.

Definition metrics_send_start : Z → Writer → outcome ProtocolError ReliableSend := reliable_send_start.
Definition metrics_send : MetricsPacket → handler ReliableSend ProtocolError unit := reliable_send.
Definition metrics_recv_start : nat → Router → option (ReliableRecv * Router) := reliable_recv_start.
Definition metrics_recv : ReliableRecv → outcome ProtocolError (option MetricsPacket * ReliableRecv) := reliable_recv.

(** ** Through the router *)

(** A router that can take a stream for an endpoint: registered, its channel
    alive and its queue empty *)
Definition awaits_stream (id : Z) (channel : nat) (r : Router) : Prop :=
  clients r !! id = Some channel ∧ accept_uni_task r = Accepting ∧
  ∃ c, queues r !! channel = Some c ∧ rx_open (unistreams c) = true ∧ mq (unistreams c) = [] ∧ (0 < capacity (unistreams c))%nat.

(** The router hands a stream that starts with the id of the endpoint to its
    channel, without the id. *)
Lemma route_stream id channel r stream rest :
  is_u16 id → awaits_stream id channel r → rd_data stream = be_bytes 2 id ++ rest →
  ∃ r1 r2 recv, complete_uni (accept_uni stream r) = Some r1 ∧ recv_ unistreams on_uni channel r1 = Some (recv, r2) ∧
    rd_data recv = rest ∧ rd_fail recv = rd_fail stream ∧ clients r2 = clients r.
Proof.
  intros Hid (Hc & Ht & c & Hq & Ho & Hm & Hcap) Hd.
  destruct (read_exact_app 2 stream _ _ Hd (be_bytes_length 2 id)) as (recv & Hr & Hd' & Hf').
  unfold accept_uni, read_endpoint_id. rewrite Hr. cbn [mbind outcome_bind]. rewrite read_be_be2, Hc by done.
  unfold complete_uni. cbn [set_uni accept_uni_task queues complete]. rewrite Hq, Ho, Hm. cbn [length].
  destruct (Nat.ltb_spec 0 (capacity (unistreams c))); [|lia]. cbn [mbind option_bind].
  eexists _, _, recv. split; [reflexivity|]. split.
  { unfold recv_. cbn [set_uni set_queues queues]. rewrite list_lookup_insert_eq by (by eapply lookup_lt_Some).
    cbn [mbind option_bind on_uni unistreams mpsc_push mq]. rewrite Hm. cbn [app head mbind option_bind]. reflexivity. }
  done.
Qed.

Lemma reliable_recv_starts channel r st r' :
  recv_ unistreams on_uni channel r = Some (st, r') → reliable_recv_start channel r = Some ({| rr_channel := channel; rr_stream := st |}, r').
Proof. intros H. unfold reliable_recv_start. by rewrite H. Qed.

Section Transfer.
Context {P : Type} `{HS : Serializable P} {wf : P → Prop} `{HL : !SerializableLaws P wf}.

Lemma reliable_send_start_ok id out :
  reliable_send_start id (open_writer out) = Ok {| rs_endpoint := id; rs_stream := open_writer (out ++ be_bytes 2 id) |}.
Proof. done. Qed.

Lemma reliable_send_all_ok ps id out :
  Forall wf ps →
  reliable_send_all ps {| rs_endpoint := id; rs_stream := open_writer out |} =
  ({| rs_endpoint := id; rs_stream := open_writer (out ++ stream_image ps) |}, Ok tt).
Proof.
  intros Hps. revert out. induction Hps as [|p ps Hp Hps IH]; intros out; cbn [reliable_send_all].
  - unfold stream_image. cbn. by rewrite app_nil_r.
  - run_handler. unfold reliable_send, write_packet. cbn [rs_stream rs_endpoint]. unfold mbind, writing_bind. rewrite (ser_write_ok p out Hp).
    cbn [flush w_budget open_writer map_err]. rewrite IH. unfold stream_image. cbn. by rewrite app_assoc.
Qed.

(** The packets of a stream are received, then whatever the end of the stream
    gives. *)
Lemma reliable_recv_all_prefix ps ch r fuel :
  Forall wf ps → rd_data r = stream_image ps →
  ∃ r', rd_data r' = [] ∧ rd_fail r' = rd_fail r ∧
    reliable_recv_all (P:=P) (length ps + fuel) {| rr_channel := ch; rr_stream := r |} =
      match reliable_recv_all fuel {| rr_channel := ch; rr_stream := r' |} with Some (qs, res) => Some (ps ++ qs, res) | None => None end.
Proof.
  intros Hps. revert r. induction Hps as [|p ps Hp Hps IH]; intros r Hd.
  - exists r. split_and!; [done|done|]. cbn [length Nat.add]. destruct (reliable_recv_all fuel _) as [[qs res]|]; done.
  - destruct (ser_read_ok p r (stream_image ps) Hp Hd) as (r1 & Hr & Hd1 & Hf1). destruct (IH r1 Hd1) as (r' & Hd' & Hf' & Hrec).
    exists r'. split_and!; [done|congruence|]. cbn [length Nat.add reliable_recv_all]. unfold reliable_recv, read_packet. cbn [rr_stream rr_channel].
    rewrite Hr. cbn [map_err mbind outcome_bind]. rewrite Hrec. by destruct (reliable_recv_all fuel _) as [[qs res]|].
Qed.
End Transfer.

(** A reliable driver end to end, for every packet type that keeps the
    serialization laws: the sender's bytes, routed by the peer's router to the
    channel registered for the endpoint, give the receiving driver exactly the
    packets sent, in order, and a clean end. *)
Theorem reliable_end_to_end {P} `{HS : Serializable P} {wf : P → Prop} `{HL : !SerializableLaws P wf} `{HE : !CleanEof P}
    id channel (r : Router) (ps : list P) :
  is_u16 id → Forall wf ps → awaits_stream id channel r →
  ∃ d wire, reliable_send_start id (open_writer []) = Ok d ∧
    reliable_send_all ps d = ({| rs_endpoint := id; rs_stream := open_writer wire |}, Ok tt) ∧
    ∀ stream fuel, rd_data stream = wire → rd_fail stream = None → (0 < fuel)%nat →
      ∃ r1 r2 recv, complete_uni (accept_uni stream r) = Some r1 ∧ reliable_recv_start channel r1 = Some (recv, r2) ∧
        reliable_recv_all (length ps + fuel) recv = Some (ps, Ok tt).
Proof.
  intros Hid Hps Hr. eexists _, _. split; [apply reliable_send_start_ok|]. split; [by apply reliable_send_all_ok|].
  intros stream fuel Hd Hf Hfuel. cbn [app] in Hd. destruct (route_stream id channel r stream _ Hid Hr Hd) as (r1 & r2 & recv & H1 & H2 & H3 & H4 & _).
  eexists r1, r2, _. split_and!; [done|by apply reliable_recv_starts|].
  destruct (reliable_recv_all_prefix ps channel recv fuel Hps H3) as (r' & Hd' & Hf' & ->). destruct fuel as [|fuel]; [lia|]. cbn [reliable_recv_all].
  destruct (read_clean_eof (P:=P) r' Hd' ltac:(congruence)) as [r'' Hr'']. unfold reliable_recv, read_packet. cbn [rr_stream]. rewrite Hr''. cbn.
  by rewrite app_nil_r.
Qed.

(** Input endpoints deliver every packet too, but the end of the stream is
    an error there: [InputPacket::read] has no clean end between packets. *)
Theorem input_end_to_end_fails_at_end id channel (r : Router) (ps : list InputPacket) :
  is_u16 id → Forall wf_input ps → awaits_stream id channel r →
  ∃ d wire, input_send_start id (open_writer []) = Ok d ∧
    reliable_send_all ps d = ({| rs_endpoint := id; rs_stream := open_writer wire |}, Ok tt) ∧
    ∀ stream fuel, rd_data stream = wire → rd_fail stream = None → (0 < fuel)%nat →
      ∃ r1 r2 recv, complete_uni (accept_uni stream r) = Some r1 ∧ input_recv_start channel r1 = Some (recv, r2) ∧
        reliable_recv_all (length ps + fuel) recv = Some (ps, Err (io_message UnexpectedEof)).
Proof.
  intros Hid Hps Hr. eexists _, _. split; [apply reliable_send_start_ok|]. split; [by apply reliable_send_all_ok|].
  intros stream fuel Hd Hf Hfuel. cbn [app] in Hd. destruct (route_stream id channel r stream _ Hid Hr Hd) as (r1 & r2 & recv & H1 & H2 & H3 & H4 & _).
  eexists r1, r2, _. split_and!; [done|by apply reliable_recv_starts|].
  destruct (reliable_recv_all_prefix ps channel recv fuel Hps H3) as (r' & Hd' & Hf' & ->). destruct fuel as [|fuel]; [lia|]. cbn [reliable_recv_all].
  unfold reliable_recv, read_packet. cbn [rr_stream]. cbn [ser_read InputPacket_Serializable]. unfold input_read.
  rewrite read_exact_eof by (lia || congruence). cbn. by rewrite app_nil_r.
Qed.

(** ** Samples *)

Definition sample_router : Router := fst (register 5 router_start).

Lemma sample_awaits : awaits_stream 5 0 sample_router.
Proof. split_and!; [done|done|]. eexists. split_and!; [done|done|done|cbn; lia]. Qed.

Lemma reliable_end_to_end_witness :
  ∃ d wire, reliable_send_start 5 (open_writer []) = Ok d ∧
    reliable_send_all [{| data_payload := [1; 2] |}; {| data_payload := [3] |}] d = ({| rs_endpoint := 5; rs_stream := open_writer wire |}, Ok tt) ∧
    ∀ stream fuel, rd_data stream = wire → rd_fail stream = None → (0 < fuel)%nat →
      ∃ r1 r2 recv, complete_uni (accept_uni stream sample_router) = Some r1 ∧ reliable_recv_start 0 r1 = Some (recv, r2) ∧
        reliable_recv_all (2 + fuel) recv = Some ([{| data_payload := [1; 2] |}; {| data_payload := [3] |}], Ok tt).
Proof.
  apply (reliable_end_to_end (wf:=wf_data) 5 0 sample_router [{| data_payload := [1; 2] |}; {| data_payload := [3] |}]).
  - by vm_compute.
  - repeat constructor; vm_compute; congruence.
  - apply sample_awaits.
Defined.

Lemma input_end_to_end_fails_at_end_witness :
  ∃ d wire, input_send_start 5 (open_writer []) = Ok d ∧
    reliable_send_all [{| type_ := 1; input_payload := [3] |}] d = ({| rs_endpoint := 5; rs_stream := open_writer wire |}, Ok tt) ∧
    ∀ stream fuel, rd_data stream = wire → rd_fail stream = None → (0 < fuel)%nat →
      ∃ r1 r2 recv, complete_uni (accept_uni stream sample_router) = Some r1 ∧ input_recv_start 0 r1 = Some (recv, r2) ∧
        reliable_recv_all (1 + fuel) recv = Some ([{| type_ := 1; input_payload := [3] |}], Err (io_message UnexpectedEof)).
Proof.
  apply (input_end_to_end_fails_at_end 5 0 sample_router [{| type_ := 1; input_payload := [3] |}]).
  - by vm_compute.
  - repeat constructor; vm_compute; congruence.
  - apply sample_awaits.
Defined.
