(* ===== verification/Endpoints.v ===== *)
(** * Endpoints and the protocols they start

    Models [kyproto/src/protocol/mod.rs] (which driver a protocol selects), the
    endpoint drivers of [kyproto/src/lib.rs] with their [ready_boxed], and the
    [register_*_endpoint] and [connect_*_endpoint] operations of a connection.
    A call that waits in the middle is split where it waits: a registration
    waits for the acknowledgement of the peer, [ready_boxed] for its [Ready]
    message, and the start of most receiving drivers for a stream. *)

From stdpp Require Import prelude list gmap strings.
From Stdlib Require Import ZArith Lia.
From S2P Require Import Prelude Io Av Packets Channel Fec SystematicCode VideoUnreliable VideoUnreliableFec AudioUnreliable AudioUnreliableFec GopStream ClockSync Router Reliable Control Connection.
Open Scope Z_scope.

Inductive VideoProtocol := VideoReliable | VideoGopStream | VideoUnreliable_ | VideoUnreliableFec_.
Inductive AudioProtocol := AudioReliable | AudioUnreliable_ | AudioUnreliableFec_.

#[export] Instance VideoProtocol_eq_dec : EqDecision VideoProtocol.
Proof. solve_decision. Defined.
#[export] Instance AudioProtocol_eq_dec : EqDecision AudioProtocol.
Proof. solve_decision. Defined.

(** What [kynet] gives to a driver that starts: the size and the number of the
    datagrams it takes, and the streams it opens ([None]: it fails) *)
Record Net := { net_max_datagram_size : option Z; net_budget : option nat; net_openings : list (option Writer) }.

Definition net_channel (id : Z) (net : Net) : KyChannel :=
  {| endpoint_id := id; max_datagram_size := net_max_datagram_size net; datagrams_sent := []; datagram_budget := net_budget net |}.

(** [conn.open_uni()] *)
Definition net_open_uni (net : Net) : outcome ProtocolError Writer :=
  match net_openings net with Some w :: _ => Ok w | _ => Err connection_lost end.

(** [ky_channel.open_uni().await.map_err(ProtocolError::new)?] in the [start] of
    a driver *)
Definition open_stream (id : Z) (net : Net) : outcome ProtocolError Writer :=
  w ← net_open_uni net;
  let '(w, r) := open_uni_ id w in
  _ ← map_err io_message r;
  Ok w.

(** [driver::*::reliable::ReliableProtocolSendDriver::start] on the next stream *)
Definition start_reliable (id : Z) (net : Net) : outcome ProtocolError ReliableSend :=
  w ← net_open_uni net; reliable_send_start id w.

(** ** Protocol selection *)

Section Protocols.
Context `{RQ : RaptorQ}.

Inductive VideoSend :=
| VideoSendReliable (d : ReliableSend)
| VideoSendGopStream (d : GopStream.SendDriver)
| VideoSendUnreliable (d : VideoUnreliable.SendDriver)
| VideoSendUnreliableFec (d : VideoUnreliableFec.SendDriver).

Inductive AudioSend :=
| AudioSendReliable (d : ReliableSend)
| AudioSendUnreliable (d : AudioUnreliable.SendDriver)
| AudioSendUnreliableFec (d : AudioUnreliableFec.SendDriver).

(** The unreliable receiving drivers: the stream read by one task, the channel
    whose datagrams another one reads, and the state of the third *)
Inductive VideoRecv :=
| VideoRecvReliable (d : ReliableRecv)
| VideoRecvGopStream (channel : nat) (d : GopStream.RecvDriver)
| VideoRecvUnreliable (stream : Reader) (channel : nat) (process : VideoUnreliable.Process)
| VideoRecvUnreliableFec (stream : Reader) (channel : nat) (process : VideoUnreliableFec.Process).

Inductive AudioRecv :=
| AudioRecvReliable (d : ReliableRecv)
| AudioRecvUnreliable (stream : Reader) (channel : nat) (process : AudioUnreliable.Process)
| AudioRecvUnreliableFec (stream : Reader) (channel : nat) (process : AudioUnreliableFec.Process).

Definition start_video_protocol_send (id : Z) (video_protocol : VideoProtocol) (net : Net) : outcome ProtocolError VideoSend :=
  match video_protocol with
  | VideoReliable => d ← start_reliable id net; Ok (VideoSendReliable d)
  | VideoGopStream => Ok (VideoSendGopStream (GopStream.send_start (net_openings net)))
  | VideoUnreliable_ => w ← open_stream id net; Ok (VideoSendUnreliable (VideoUnreliable.send_start (net_channel id net) w))
  | VideoUnreliableFec_ => w ← open_stream id net; Ok (VideoSendUnreliableFec (VideoUnreliableFec.send_start (net_channel id net) w))
  end.

Definition start_audio_protocol_send (id : Z) (audio_protocol : AudioProtocol) (net : Net) : outcome ProtocolError AudioSend :=
  match audio_protocol with
  | AudioReliable => d ← start_reliable id net; Ok (AudioSendReliable d)
  | AudioUnreliable_ => w ← open_stream id net; Ok (AudioSendUnreliable (AudioUnreliable.send_start (net_channel id net) w))
  | AudioUnreliableFec_ => w ← open_stream id net; Ok (AudioSendUnreliableFec (AudioUnreliableFec.send_start (net_channel id net) w))
  end.

(** [None] while the driver waits for its stream *)
Definition start_video_protocol_recv (channel : nat) (video_protocol : VideoProtocol) (stats : ProtocolStats) (r : Router) :
    option (VideoRecv * Router) :=
  match video_protocol with
  | VideoReliable => '(d, r) ← av_recv_start channel r; Some (VideoRecvReliable d, r)
  | VideoGopStream => Some (VideoRecvGopStream channel GopStream.recv_start, r)
  | VideoUnreliable_ =>
      '(stream, r) ← recv_ unistreams on_uni channel r;
      Some (VideoRecvUnreliable stream channel (VideoUnreliable.process_init stats), r)
  | VideoUnreliableFec_ =>
      '(stream, r) ← recv_ unistreams on_uni channel r;
      Some (VideoRecvUnreliableFec stream channel (VideoUnreliableFec.process_init stats), r)
  end.

Definition start_audio_protocol_recv (channel : nat) (audio_protocol : AudioProtocol) (stats : ProtocolStats) (r : Router) :
    option (AudioRecv * Router) :=
  match audio_protocol with
  | AudioReliable => '(d, r) ← av_recv_start channel r; Some (AudioRecvReliable d, r)
  | AudioUnreliable_ =>
      '(stream, r) ← recv_ unistreams on_uni channel r;
      Some (AudioRecvUnreliable stream channel (AudioUnreliable.process_init stats), r)
  | AudioUnreliableFec_ =>
      '(stream, r) ← recv_ unistreams on_uni channel r;
      Some (AudioRecvUnreliableFec stream channel (AudioUnreliableFec.process_init stats), r)
  end.

(** The protocol an endpoint becomes when it is ready *)
Inductive Protocol :=
| VideoServerProtocol (send : VideoSend)
| VideoClientProtocol (recv : VideoRecv)
| AudioServerProtocol (send : AudioSend)
| AudioClientProtocol (recv : AudioRecv)
| DataProtocol (send : ReliableSend) (recv : ReliableRecv)
| InputProtocol (send : ReliableSend) (recv : ReliableRecv)
| ClockSyncServerProtocol_ (ky_channel : KyChannel) (channel : nat)
| ClockSyncClientProtocol_ (client : ClockSyncClientProtocol) (channel : nat)
| MetricsServerProtocol (send : ReliableSend)
| MetricsClientProtocol (recv : ReliableRecv).

(** A start: done, or waiting for a stream, with its sending half when that is
    open already and with what it does then *)
Inductive Starting :=
| Started (p : Protocol)
| AwaitingUni (sending : option ReliableSend) (resume : Router → option (Protocol * Router)).

(** [start_data_protocol] opens its stream before it waits for the peer's, as
    does [start_input_protocol] *)
Definition start_data_protocol (id : Z) (channel : nat) (net : Net) : outcome ProtocolError Starting :=
  w ← net_open_uni net;
  protocol_send ← data_send_start id w;
  Ok (AwaitingUni (Some protocol_send) (λ r, '(protocol_recv, r) ← data_recv_start channel r; Some (DataProtocol protocol_send protocol_recv, r))).

Definition start_input_protocol (id : Z) (channel : nat) (net : Net) : outcome ProtocolError Starting :=
  w ← net_open_uni net;
  protocol_send ← input_send_start id w;
  Ok (AwaitingUni (Some protocol_send) (λ r, '(protocol_recv, r) ← input_recv_start channel r; Some (InputProtocol protocol_send protocol_recv, r))).

Definition start_metrics_protocol_send (id : Z) (net : Net) : outcome ProtocolError ReliableSend :=
  w ← net_open_uni net; metrics_send_start id w.

Definition start_metrics_protocol_recv (channel : nat) (r : Router) : option (ReliableRecv * Router) := metrics_recv_start channel r.

(** ** Endpoint drivers

    The channel of a driver is the index of its queues in the router; the
    statistics are shared with the connection and given when they are read. *)

Inductive EndpointDriver :=
| VideoServerEndpointDriver (video_protocol : VideoProtocol) (ready_notifier : ReadyNotifier) (ky_channel : nat)
| VideoClientEndpointDriver (video_protocol : VideoProtocol) (ready_notifier : ReadyNotifier) (ky_channel : nat)
| AudioServerEndpointDriver (audio_protocol : AudioProtocol) (ready_notifier : ReadyNotifier) (ky_channel : nat)
| AudioClientEndpointDriver (audio_protocol : AudioProtocol) (ready_notifier : ReadyNotifier) (ky_channel : nat)
| DataEndpointDriver (ready_notifier : ReadyNotifier) (ky_channel : nat)
| InputEndpointDriver (ready_notifier : ReadyNotifier) (ky_channel : nat)
| ClockSyncServerEndpointDriver (ready_notifier : ReadyNotifier) (ky_channel : nat)
| ClockSyncClientEndpointDriver (ready_notifier : ReadyNotifier) (ky_channel : nat)
| MetricsServerEndpointDriver (ready_notifier : ReadyNotifier) (ky_channel : nat)
| MetricsClientEndpointDriver (ready_notifier : ReadyNotifier) (ky_channel : nat).

Definition driver_parts (d : EndpointDriver) : ReadyNotifier * nat :=
  match d with
  | VideoServerEndpointDriver _ n c | VideoClientEndpointDriver _ n c | AudioServerEndpointDriver _ n c
  | AudioClientEndpointDriver _ n c | DataEndpointDriver n c | InputEndpointDriver n c | ClockSyncServerEndpointDriver n c
  | ClockSyncClientEndpointDriver n c | MetricsServerEndpointDriver n c | MetricsClientEndpointDriver n c => (n, c)
  end.

Definition driver_notifier (d : EndpointDriver) : ReadyNotifier := (driver_parts d).1.
Definition driver_channel (d : EndpointDriver) : nat := (driver_parts d).2.

(** [ready_boxed], up to the wait in [ready_notifier.ready()] *)
Definition ready_boxed (d : EndpointDriver) : setting_up unit := on_control (ready (driver_notifier d)).

(** [ready_boxed] of each driver, once the peer is ready *)
Definition video_server_notified (id : Z) (video_protocol : VideoProtocol) (net : Net) : outcome ProtocolError Starting :=
  send ← start_video_protocol_send id video_protocol net; Ok (Started (VideoServerProtocol send)).
Definition video_client_notified (ky_channel : nat) (video_protocol : VideoProtocol) (stats : ProtocolStats) : outcome ProtocolError Starting :=
  Ok (AwaitingUni None (λ r, '(recv, r) ← start_video_protocol_recv ky_channel video_protocol stats r; Some (VideoClientProtocol recv, r))).
Definition audio_server_notified (id : Z) (audio_protocol : AudioProtocol) (net : Net) : outcome ProtocolError Starting :=
  send ← start_audio_protocol_send id audio_protocol net; Ok (Started (AudioServerProtocol send)).
Definition audio_client_notified (ky_channel : nat) (audio_protocol : AudioProtocol) (stats : ProtocolStats) : outcome ProtocolError Starting :=
  Ok (AwaitingUni None (λ r, '(recv, r) ← start_audio_protocol_recv ky_channel audio_protocol stats r; Some (AudioClientProtocol recv, r))).
Definition data_notified (id : Z) (ky_channel : nat) (net : Net) : outcome ProtocolError Starting := start_data_protocol id ky_channel net.
Definition input_notified (id : Z) (ky_channel : nat) (net : Net) : outcome ProtocolError Starting := start_input_protocol id ky_channel net.
Definition clock_sync_server_notified (id : Z) (ky_channel : nat) (net : Net) : outcome ProtocolError Starting :=
  Ok (Started (ClockSyncServerProtocol_ (net_channel id net) ky_channel)).
Definition clock_sync_client_notified (id : Z) (ky_channel : nat) (net : Net) : outcome ProtocolError Starting :=
  Ok (Started (ClockSyncClientProtocol_ (client_new (net_channel id net)) ky_channel)).
Definition metrics_server_notified (id : Z) (net : Net) : outcome ProtocolError Starting :=
  send ← start_metrics_protocol_send id net; Ok (Started (MetricsServerProtocol send)).
Definition metrics_client_notified (ky_channel : nat) : outcome ProtocolError Starting :=
  Ok (AwaitingUni None (λ r, '(recv, r) ← start_metrics_protocol_recv ky_channel r; Some (MetricsClientProtocol recv, r))).

(** [ProtocolEndpoint::ready], after that wait: the method of the driver *)
Definition ready_boxed_notified (d : EndpointDriver) (net : Net) (stats : ProtocolStats) : outcome ProtocolError Starting :=
  let id := rn_endpoint_id (driver_notifier d) in
  match d with
  | VideoServerEndpointDriver video_protocol _ _ => video_server_notified id video_protocol net
  | VideoClientEndpointDriver video_protocol _ ky_channel => video_client_notified ky_channel video_protocol stats
  | AudioServerEndpointDriver audio_protocol _ _ => audio_server_notified id audio_protocol net
  | AudioClientEndpointDriver audio_protocol _ ky_channel => audio_client_notified ky_channel audio_protocol stats
  | DataEndpointDriver _ ky_channel => data_notified id ky_channel net
  | InputEndpointDriver _ ky_channel => input_notified id ky_channel net
  | ClockSyncServerEndpointDriver _ ky_channel => clock_sync_server_notified id ky_channel net
  | ClockSyncClientEndpointDriver _ ky_channel => clock_sync_client_notified id ky_channel net
  | MetricsServerEndpointDriver _ _ => metrics_server_notified id net
  | MetricsClientEndpointDriver _ ky_channel => metrics_client_notified ky_channel
  end.

(** ** Registration and connection *)

(** A registration that waits for its acknowledgement *)
Record RegisterCall := { rc_id : Z; rc_notifier : ReadyNotifier; rc_ack : nat; rc_driver : ReadyNotifier → nat → EndpointDriver }.

(** The statements that every [register_*_endpoint] begins with *)
Definition begin_register (driver : ReadyNotifier → nat → EndpointDriver) : setting_up RegisterCall :=
  id ← get_endpoint_id;
  ready_notifier ← on_control (register_ready_notifier id);
  ack ← on_control (register_endpoint id);
  mret {| rc_id := id; rc_notifier := ready_notifier; rc_ack := ack; rc_driver := driver |}.

(** The statements that follow the acknowledgement *)
Definition finish_register (call : RegisterCall) : setting_up (Z * EndpointDriver) :=
  ky_channel ← on_router (register (rc_id call));
  mret (rc_id call, rc_driver call (rc_notifier call) ky_channel).

(** The statements of every [connect_*_endpoint] *)
Definition connect_endpoint (driver : ReadyNotifier → nat → EndpointDriver) (id : Z) : setting_up EndpointDriver :=
  ready_notifier ← on_control (register_ready_notifier id);
  ky_channel ← on_router (register id);
  mret (driver ready_notifier ky_channel).

(** The twelve operations: a registration is the call it begins, which
    [finish_register] completes with the driver named here. *)
Definition register_video_endpoint (video_protocol : VideoProtocol) := begin_register (VideoServerEndpointDriver video_protocol).
Definition connect_video_endpoint (id : Z) (video_protocol : VideoProtocol) := connect_endpoint (VideoClientEndpointDriver video_protocol) id.
Definition register_audio_endpoint (audio_protocol : AudioProtocol) := begin_register (AudioServerEndpointDriver audio_protocol).
Definition connect_audio_endpoint (id : Z) (audio_protocol : AudioProtocol) := connect_endpoint (AudioClientEndpointDriver audio_protocol) id.
Definition register_data_endpoint := begin_register DataEndpointDriver.
Definition connect_data_endpoint (id : Z) := connect_endpoint DataEndpointDriver id.
Definition register_input_endpoint := begin_register InputEndpointDriver.
Definition connect_input_endpoint (id : Z) := connect_endpoint InputEndpointDriver id.
Definition register_clock_sync_endpoint := begin_register ClockSyncServerEndpointDriver.
Definition connect_clock_sync_endpoint (id : Z) := connect_endpoint ClockSyncClientEndpointDriver id.
Definition register_metrics_endpoint := begin_register MetricsServerEndpointDriver.
Definition connect_metrics_endpoint (id : Z) := connect_endpoint MetricsClientEndpointDriver id.
End Protocols.

(** ** Matching endpoints start *)

Section Start.
Context `{RQ : RaptorQ}.

(** The two ends of an endpoint *)
Inductive matching : EndpointDriver → EndpointDriver → Prop :=
| match_video p n c n' c' : matching (VideoServerEndpointDriver p n c) (VideoClientEndpointDriver p n' c')
| match_audio p n c n' c' : matching (AudioServerEndpointDriver p n c) (AudioClientEndpointDriver p n' c')
| match_data n c n' c' : matching (DataEndpointDriver n c) (DataEndpointDriver n' c')
| match_input n c n' c' : matching (InputEndpointDriver n c) (InputEndpointDriver n' c')
| match_clock_sync n c n' c' : matching (ClockSyncServerEndpointDriver n c) (ClockSyncClientEndpointDriver n' c')
| match_metrics n c n' c' : matching (MetricsServerEndpointDriver n c) (MetricsClientEndpointDriver n' c').

(** The stream that a start has opened *)
Definition video_stream (d : VideoSend) : option Writer :=
  match d with
  | VideoSendReliable d => Some (rs_stream d)
  | VideoSendGopStream _ => None
  | VideoSendUnreliable d => Some (VideoUnreliable.stream d)
  | VideoSendUnreliableFec d => Some (VideoUnreliableFec.stream d)
  end.
Definition audio_stream (d : AudioSend) : option Writer :=
  match d with
  | AudioSendReliable d => Some (rs_stream d)
  | AudioSendUnreliable d => Some (AudioUnreliable.stream d)
  | AudioSendUnreliableFec d => Some (AudioUnreliableFec.stream d)
  end.
Definition started_stream (x : Starting) : option Writer :=
  match x with
  | Started (VideoServerProtocol d) => video_stream d
  | Started (AudioServerProtocol d) => audio_stream d
  | Started (MetricsServerProtocol d) => Some (rs_stream d)
  | AwaitingUni (Some d) _ => Some (rs_stream d)
  | _ => None
  end.

(** A start completes on the router [r] with what the other side opened. *)
Definition completes (x : Starting) (other : option Writer) (r : Router) : Prop :=
  match x with
  | Started _ => True
  | AwaitingUni _ resume =>
      match other with
      | None => is_Some (resume r)
      | Some w => ∀ st, rd_data st = w_out w → ∃ r', complete_uni (accept_uni st r) = Some r' ∧ is_Some (resume r')
      end
  end.

(** A resumption that waits for the stream of its channel *)
Lemma completes_uni id channel r sending (resume : Router → option (Protocol * Router)) w :
  is_u16 id → awaits_stream id channel r → w_out w = be_bytes 2 id →
  (∀ r1 st r2, recv_ unistreams on_uni channel r1 = Some (st, r2) → is_Some (resume r1)) →
  completes (AwaitingUni sending resume) (Some w) r.
Proof.
  intros Hid Hr Hw Hresume st Hst. rewrite Hw, <- (app_nil_r (be_bytes 2 id)) in Hst.
  destruct (route_stream id channel r st [] Hid Hr Hst) as (r1 & r2 & recv & H1 & H2 & _). eauto.
Qed.

(** C23: no endpoint waits for ever: once the two sides of an endpoint are ready,
    both starts succeed, and each of them completes, either at once or when its
    router has taken the one stream that the other side opened.  In particular
    the sides of a data or input endpoint, which both wait, have both opened
    their stream before. *)
Theorem matching_endpoints_start d1 d2 id r1 r2 max budget stats rest :
  matching d1 d2 → is_u16 id →
  rn_endpoint_id (driver_notifier d1) = id → rn_endpoint_id (driver_notifier d2) = id →
  awaits_stream id (driver_channel d1) r1 → awaits_stream id (driver_channel d2) r2 →
  let net := {| net_max_datagram_size := max; net_budget := budget; net_openings := Some (open_writer []) :: rest |} in
  ∃ x1 x2, ready_boxed_notified d1 net stats = Ok x1 ∧ ready_boxed_notified d2 net stats = Ok x2 ∧
    completes x1 (started_stream x2) r1 ∧ completes x2 (started_stream x1) r2.
Proof.
  intros Hm Hid H1 H2 Ha1 Ha2 net.
  destruct Hm as [[] n c n' c'|[] n c n' c'|n c n' c'|n c n' c'|n c n' c'|n c n' c']; cbn in H1, H2;
    unfold driver_channel in *; cbn [driver_parts snd] in Ha1, Ha2; unfold ready_boxed_notified; cbn;
    rewrite ?H1, ?H2; (eexists _, _; split; [reflexivity|]; split; [reflexivity|]); cbn -[completes]; (split; [|]); try done;
    try (eexists; reflexivity); eapply completes_uni; try done; intros ra st rb Hrecv;
    unfold start_metrics_protocol_recv, av_recv_start, data_recv_start, input_recv_start, metrics_recv_start;
    rewrite ?(reliable_recv_starts _ _ _ _ Hrecv), ?Hrecv; cbn; eauto.
Qed.
End Start.

(** *** A data endpoint between two fresh routers *)

Definition sample_data_driver : EndpointDriver := DataEndpointDriver {| rn_endpoint_id := 5; rn_rx := 0 |} 0.
Definition sample_net : Net := {| net_max_datagram_size := Some 1200; net_budget := None; net_openings := [Some (open_writer [])] |}.

Lemma matching_endpoints_start_witness :
  ∃ x1 x2, ready_boxed_notified (RQ:=systematic) sample_data_driver sample_net stats_default = Ok x1 ∧
    ready_boxed_notified sample_data_driver sample_net stats_default = Ok x2 ∧
    completes x1 (started_stream x2) sample_router ∧ completes x2 (started_stream x1) sample_router.
Proof.
  apply (matching_endpoints_start sample_data_driver sample_data_driver 5 sample_router sample_router);
    [constructor|by vm_compute|reflexivity|reflexivity|apply sample_awaits|apply sample_awaits].
Defined.
