(* ===== verification/EndpointSetup.v ===== *)
(** * Setting up endpoints between two peers

    Two connections, with the calls of their users, as a step relation: at any
    point either side may begin a registration, complete an acknowledged one,
    connect to an endpoint, declare it ready, open a stream on an endpoint whose
    [ready] returned, handle a control message, or let its router do a turn.
    The ready handshake is there so that no stream reaches a router that does
    not know its endpoint, which would stop the routing of every endpoint; the
    theorems show that it does that, whatever the interleaving, as long as no
    endpoint is dropped. *)

From stdpp Require Import prelude list gmap strings.
From Stdlib Require Import ZArith Lia.
From S2P Require Import Prelude Io Av Packets Channel Router RouterDemux Control ControlPeers Connection Endpoints.
Open Scope Z_scope.

(** A side: its control instance with the calls made on it, its router, its
    registrations in progress, its endpoints, and the streams it opened that the
    other side has not accepted yet *)
Record Side := {
  node : Node;
  side_router : Router;
  side_next : Z;
  calls : gmap Z RegisterCall;
  drivers : gmap Z EndpointDriver;
  opened : list Reader;
}.

Definition side_start (initiator : Z) : Side :=
  {| node := node_start; side_router := conn_router (connection_new initiator); side_next := next_endpoint_index (connection_new initiator);
     calls := ∅; drivers := ∅; opened := [] |}.

Definition side_conn (s : Side) : Connection :=
  {| conn_control := ctl (node s); conn_router := side_router s; next_endpoint_index := side_next s |}.

Definition after (c : Connection) (s : Side) : Side :=
  {| node := set_ctl (conn_control c) (node s); side_router := conn_router c; side_next := next_endpoint_index c;
     calls := calls s; drivers := drivers s; opened := opened s |}.
Definition on_node (f : Node → Node) (s : Side) : Side :=
  {| node := f (node s); side_router := side_router s; side_next := side_next s; calls := calls s; drivers := drivers s; opened := opened s |}.
Definition set_calls (m : gmap Z RegisterCall) (s : Side) : Side :=
  {| node := node s; side_router := side_router s; side_next := side_next s; calls := m; drivers := drivers s; opened := opened s |}.
Definition add_driver (e : Z) (d : EndpointDriver) (s : Side) : Side :=
  {| node := node s; side_router := side_router s; side_next := side_next s; calls := calls s; drivers := <[e := d]> (drivers s); opened := opened s |}.
Definition set_opened (l : list Reader) (s : Side) : Side :=
  {| node := node s; side_router := side_router s; side_next := side_next s; calls := calls s; drivers := drivers s; opened := l |}.
Definition route (r : Router) (s : Side) : Side :=
  {| node := node s; side_router := r; side_next := side_next s; calls := calls s; drivers := drivers s; opened := opened s |}.

(** The operations of the users *)
Inductive registration : setting_up RegisterCall → Prop :=
| reg_video p : registration (register_video_endpoint p)
| reg_audio p : registration (register_audio_endpoint p)
| reg_data : registration register_data_endpoint
| reg_input : registration register_input_endpoint
| reg_clock_sync : registration register_clock_sync_endpoint
| reg_metrics : registration register_metrics_endpoint.

Inductive connecting (e : Z) : setting_up EndpointDriver → Prop :=
| con_video p : connecting e (connect_video_endpoint e p)
| con_audio p : connecting e (connect_audio_endpoint e p)
| con_data : connecting e (connect_data_endpoint e)
| con_input : connecting e (connect_input_endpoint e)
| con_clock_sync : connecting e (connect_clock_sync_endpoint e)
| con_metrics : connecting e (connect_metrics_endpoint e).

(** [ready_boxed] of [d] has passed its [ready_notifier.ready()] *)
Definition is_ready (e : Z) (d : EndpointDriver) (s : Side) : Prop :=
  e ∈ readied (node s) ∧ oneshot_poll (rn_rx (driver_notifier d)) (ctl (node s)) = true.

(** A turn of the router that takes no stream *)
Inductive router_turn (ds : gmap Z EndpointDriver) (r : Router) : Router → Prop :=
| turn_datagram d : recv_datagrams_task r = Accepting → router_turn ds r (recv_datagram d r)
| turn_complete_uni r' : complete_uni r = Some r' → router_turn ds r r'
| turn_complete_datagram r' : complete_datagram r = Some r' → router_turn ds r r'
| turn_recv_uni e d x r' : ds !! e = Some d → recv_ unistreams on_uni (driver_channel d) r = Some (x, r') → router_turn ds r r'
| turn_recv_datagram e d x r' : ds !! e = Some d → recv_ datagrams on_datagrams (driver_channel d) r = Some (x, r') → router_turn ds r r'.

(** Steps of the side [s].  An endpoint id is used once on a side; what arrives
    of an opened stream is a prefix of what is written on it; streams are
    accepted in any order. *)
Inductive setup_step (s o : Side) : Side → Side → Prop :=
| step_register reg c call :
    registration reg → notifiers (node s) !! side_next s = None → acks (node s) !! side_next s = None →
    reg (side_conn s) = (c, Ok call) →
    setup_step s o
      (set_calls (<[rc_id call := call]> (calls s))
         (on_node (λ n, add_ack (rc_id call) (rc_ack call) (add_notifier (rc_id call) (rn_rx (rc_notifier call)) n)) (after c s))) o
| step_acked e call c d :
    calls s !! e = Some call → oneshot_poll (rc_ack call) (ctl (node s)) = true → finish_register call (side_conn s) = (c, Ok (e, d)) →
    setup_step s o (add_driver e d (set_calls (delete e (calls s)) (after c s))) o
| step_connect e op c d :
    is_u16 e → connecting e op → notifiers (node s) !! e = None → op (side_conn s) = (c, Ok d) →
    setup_step s o (add_driver e d (on_node (add_notifier e (rn_rx (driver_notifier d))) (after c s))) o
| step_ready e d c :
    drivers s !! e = Some d → e ∉ readied (node s) → ready_boxed d (side_conn s) = (c, Ok tt) →
    setup_step s o (on_node (add_readied e) (after c s)) o
| step_open e d w payload st :
    drivers s !! e = Some d → is_ready e d s →
    open_uni_ e (open_writer []) = (w, Ok tt) → rd_data st `prefix_of` w_out w ++ payload →
    setup_step s o (set_opened (opened s ++ [st]) s) o
| step_control m q c r :
    control_tx (ctl (node o)) = m :: q → handle_msg m (ctl (node s)) = (c, r) →
    setup_step s o (on_node (set_ctl c) s) (on_node (set_ctl (set_tx q (ctl (node o)))) o)
| step_accept st l1 l2 :
    opened o = l1 ++ st :: l2 → accept_uni_task (side_router s) = Accepting →
    setup_step s o (route (accept_uni st (side_router s)) s) (set_opened (l1 ++ l2) o)
| step_turn r : router_turn (drivers s) (side_router s) r → setup_step s o (route r s) o.

Inductive setups : Side → Side → Prop :=
| setups_client : setups (side_start INITIATOR_CLIENT) (side_start INITIATOR_SERVER)
| setups_server : setups (side_start INITIATOR_SERVER) (side_start INITIATOR_CLIENT)
| setups_left s o s' o' : setups s o → setup_step s o s' o' → setups s' o'
| setups_right s o s' o' : setups s o → setup_step o s o' s' → setups s' o'.

(** ** Routers whose channels are all alive *)

Definition running {A} (r : Router) (t : Loop A) : Prop :=
  match t with Accepting => True | Sending c _ => (c < length (queues r))%nat | Stopped _ => False end.

Lemma running_mono {A} r r' (t : Loop A) : (length (queues r) ≤ length (queues r'))%nat → running r t → running r' t.
Proof. unfold running. intros Hl Ht. case_match; [done|lia|done]. Qed.

Record router_ok (r : Router) : Prop := {
  ro_clients e c : clients r !! e = Some c → (c < length (queues r))%nat;
  ro_open c cl : queues r !! c = Some cl → rx_open (unistreams cl) = true ∧ rx_open (datagrams cl) = true;
  ro_uni : running r (accept_uni_task r);
  ro_bi : running r (accept_bi_task r);
  ro_datagrams : running r (recv_datagrams_task r);
}.

Lemma router_ok_start : router_ok router_start.
Proof. split; cbn; [intros *; by rewrite lookup_empty|done..]. Qed.

(** A change of one client's queues *)
Lemma router_ok_insert r c cl cl1 tu td :
  router_ok r → queues r !! c = Some cl → rx_open (unistreams cl1) = true → rx_open (datagrams cl1) = true →
  running r tu → running r td →
  router_ok {| clients := clients r; queues := <[c := cl1]> (queues r); accept_uni_task := tu; accept_bi_task := accept_bi_task r;
               recv_datagrams_task := td |}.
Proof.
  intros [I1 I2 I3 I4 I5] Hc H1 H2 Hu Hd.
  split; cbn -[running]; [rewrite length_insert; eauto| |eapply running_mono; [|done]; cbn; by rewrite length_insert..].
  intros c' cl'. destruct (decide (c = c')) as [<-|Hne]; [|rewrite list_lookup_insert_ne by done; eauto].
  rewrite list_lookup_insert_eq by (by eapply lookup_lt_Some). by intros [= <-].
Qed.

(** The loops alone *)
Lemma router_ok_tasks r tu td :
  router_ok r → running r tu → running r td →
  router_ok {| clients := clients r; queues := queues r; accept_uni_task := tu; accept_bi_task := accept_bi_task r; recv_datagrams_task := td |}.
Proof. intros [I1 I2 I3 I4 I5] Hu Hd. by split. Qed.

Lemma router_ok_register r e r' c :
  router_ok r → register e r = (r', Ok c) →
  router_ok r' ∧ clients r !! e = None ∧ clients r' = <[e := c]> (clients r).
Proof.
  intros [I1 I2 I3 I4 I5] Hr. unfold register in Hr. destruct (clients r !! e) eqn:He; [done|]. injection Hr as <- <-. split; [|done].
  split; cbn -[running]; [..|eapply running_mono; [|done]; cbn; rewrite length_app; lia|
    eapply running_mono; [|done]; cbn; rewrite length_app; lia|eapply running_mono; [|done]; cbn; rewrite length_app; lia].
  - rewrite length_app. cbn. intros e' c'. destruct (decide (e = e')) as [<-|Hne]; [rewrite lookup_insert_eq; intros [= <-]; lia|].
    rewrite lookup_insert_ne by done. intros Hc%I1. lia.
  - intros c' cl [Hl|[_ Hl]]%lookup_app_Some; [eauto|]. destruct (c' - length (queues r))%nat; [|done]. by injection Hl as <-.
Qed.

Lemma router_ok_turn ds r r' : router_ok r → router_turn ds r r' → router_ok r' ∧ clients r' = clients r.
Proof.
  intros Hr [d Ht|r1 H|r1 H|e d x r1 _ H|e d x r1 _ H].
  - split; [|unfold recv_datagram; by repeat case_match]. unfold recv_datagram. destruct (2 <=? _)%nat; [|done].
    destruct (clients r !! _) as [c|] eqn:Hc; [|done]. apply router_ok_tasks; [done|exact (ro_uni r Hr)|by eapply ro_clients].
  - apply bind_Some in H as ([t qs] & (c & x & cl & Hs & Hc & [(_ & -> & ->)|(Ho & _ & _)])%complete_inv & [= <-]).
    + split; [|done]. destruct (ro_open r Hr c cl Hc) as [H1 H2]. apply (router_ok_insert r c cl); [done..|exact (ro_datagrams r Hr)].
    + destruct (ro_open r Hr c cl Hc). congruence.
  - apply bind_Some in H as ([t qs] & (c & x & cl & Hs & Hc & [(_ & -> & ->)|(Ho & _ & _)])%complete_inv & [= <-]).
    + split; [|done]. destruct (ro_open r Hr c cl Hc) as [H1 H2]. apply (router_ok_insert r c cl); [done..|exact (ro_uni r Hr)|done].
    + destruct (ro_open r Hr c cl Hc). congruence.
  - apply recv_inv in H as (cl & q & Hc & _ & ->). split; [|done]. destruct (ro_open r Hr _ cl Hc) as [H1 H2].
    apply (router_ok_insert r _ cl); [done..|exact (ro_uni r Hr)|exact (ro_datagrams r Hr)].
  - apply recv_inv in H as (cl & q & Hc & _ & ->). split; [|done]. destruct (ro_open r Hr _ cl Hc) as [H1 H2].
    apply (router_ok_insert r _ cl); [done..|exact (ro_uni r Hr)|exact (ro_datagrams r Hr)].
Qed.

(** What arrives of a stream opened for the endpoint [e] *)
Definition stream_of (e : Z) (st : Reader) : Prop := ∃ payload, rd_data st `prefix_of` be_bytes 2 e ++ payload.

Lemma stream_of_id e st e' st' : is_u16 e → stream_of e st → read_endpoint_id st = Ok (e', st') → e' = e.
Proof.
  intros He (payload & rest & Hd) H. unfold read_endpoint_id in H.
  destruct (read_exact 2 st) as [[raw st1]| |] eqn:Hr; [|done..]. cbn in H. injection H as <- <-.
  apply read_exact_inv in Hr as (Hd' & Hlen & _). rewrite Hd', <- app_assoc in Hd.
  apply app_inj_1 in Hd as [<- _]; [by apply read_be_be2|by rewrite be_bytes_length].
Qed.

Lemma router_ok_accept r e c st :
  router_ok r → is_u16 e → clients r !! e = Some c → stream_of e st → router_ok (accept_uni st r) ∧ clients (accept_uni st r) = clients r.
Proof.
  intros Hr He Hc Hst. unfold accept_uni. destruct (read_endpoint_id st) as [[e' st']| |] eqn:Hid; [|done..].
  rewrite (stream_of_id e st e' st' He Hst Hid), Hc. split; [|done].
  apply router_ok_tasks; [done|by eapply ro_clients|exact (ro_datagrams r Hr)].
Qed.

(** ** The operations on a connection *)

(** A constructor of drivers keeps the notifier and the channel it is given. *)
Definition keeps_parts (mk : ReadyNotifier → nat → EndpointDriver) : Prop := ∀ n c, driver_parts (mk n c) = (n, c).

Lemma registration_begins reg : registration reg → ∃ mk, keeps_parts mk ∧ reg = begin_register mk.
Proof. destruct 1; eexists; (split; [|reflexivity]); done. Qed.

Lemma connecting_connects e op : connecting e op → ∃ mk, keeps_parts mk ∧ op = connect_endpoint mk e.
Proof. destruct 1; eexists; (split; [|reflexivity]); done. Qed.

Lemma register_ready_notifier_id e c c' n : register_ready_notifier e c = (c', Ok n) → rn_endpoint_id n = e.
Proof.
  unfold register_ready_notifier, oneshot_channel, oneshot_send; run_handler. repeat case_match; intros; by simplify_eq.
Qed.

Lemma begin_register_inv mk c c' call :
  begin_register mk c = (c', Ok call) →
  ∃ k1 rx k2 ack, let e := next_endpoint_index c in let n := {| rn_endpoint_id := e; rn_rx := rx |} in
    register_ready_notifier e (conn_control c) = (k1, Ok n) ∧ register_endpoint e k1 = (k2, Ok ack) ∧
    c' = {| conn_control := k2; conn_router := conn_router c; next_endpoint_index := wrap16 (e + 2) |} ∧
    call = {| rc_id := e; rc_notifier := n; rc_ack := ack; rc_driver := mk |}.
Proof.
  unfold begin_register, get_endpoint_id, on_control; run_handler. cbn.
  destruct (register_ready_notifier _ (conn_control c)) as [k1 [[e rx]| |]] eqn:Hn; cbn; [|done..].
  destruct (register_endpoint _ k1) as [k2 [ack| |]] eqn:Ha; cbn; [|done..]. intros [= <- <-].
  pose proof (register_ready_notifier_id _ _ _ _ Hn) as He. cbn in He. subst e. by exists k1, rx, k2, ack.
Qed.

Lemma connect_endpoint_inv mk e c c' d :
  connect_endpoint mk e c = (c', Ok d) →
  ∃ k rx r ch, let n := {| rn_endpoint_id := e; rn_rx := rx |} in
    register_ready_notifier e (conn_control c) = (k, Ok n) ∧ register e (conn_router c) = (r, Ok ch) ∧
    c' = {| conn_control := k; conn_router := r; next_endpoint_index := next_endpoint_index c |} ∧ d = mk n ch.
Proof.
  unfold connect_endpoint, on_control, on_router; run_handler.
  destruct (register_ready_notifier e (conn_control c)) as [k [[e' rx]| |]] eqn:Hn; cbn; [|done..].
  destruct (register e (conn_router c)) as [r [ch| |]] eqn:Hr; cbn; [|done..]. intros [= <- <-].
  pose proof (register_ready_notifier_id _ _ _ _ Hn) as He. cbn in He. subst e'. by exists k, rx, r, ch.
Qed.

Lemma finish_register_inv call c c' e d :
  finish_register call c = (c', Ok (e, d)) →
  ∃ r ch, register e (conn_router c) = (r, Ok ch) ∧ e = rc_id call ∧ d = rc_driver call (rc_notifier call) ch ∧
    c' = {| conn_control := conn_control c; conn_router := r; next_endpoint_index := next_endpoint_index c |}.
Proof.
  unfold finish_register, on_router; run_handler. destruct (register (rc_id call) (conn_router c)) as [r [ch| |]] eqn:Hr; cbn; [|done..].
  intros [= <- <- <-]. by exists r, ch.
Qed.

(** ** The invariant *)

Record side_inv (s : Side) : Prop := {
  si_router : router_ok (side_router s);
  si_next : is_u16 (side_next s);
  si_call e call : calls s !! e = Some call →
    is_u16 e ∧ rc_id call = e ∧ keeps_parts (rc_driver call) ∧ clients (side_router s) !! e = None ∧
    ∃ rx, rc_notifier call = {| rn_endpoint_id := e; rn_rx := rx |} ∧ notifiers (node s) !! e = Some rx;
  si_driver e d : drivers s !! e = Some d →
    is_u16 e ∧ clients (side_router s) !! e = Some (driver_channel d) ∧
    ∃ rx, driver_notifier d = {| rn_endpoint_id := e; rn_rx := rx |} ∧ notifiers (node s) !! e = Some rx;
  si_client e c : clients (side_router s) !! e = Some c → is_Some (drivers s !! e);
  si_readied e : e ∈ readied (node s) → is_Some (drivers s !! e);
}.

(** Every stream the side [s] opened is for an endpoint of the side [o]. *)
Definition routed (s o : Side) : Prop :=
  ∀ st, st ∈ opened s → ∃ e, is_u16 e ∧ stream_of e st ∧ is_Some (clients (side_router o) !! e).

(** The users keep what they hold and use an endpoint once. *)
Definition regular (n : Node) : Prop := ready_misused n = ∅ ∧ register_misused n = ∅.

Lemma regular_ready n n' e : regular n ∧ regular n' → e ∉ ready_misused n ∪ ready_misused n'.
Proof. intros [[-> _] [-> _]]. set_solver. Qed.

Record setup_inv (s o : Side) : Prop := {
  su_peers : peers (node s) (node o);
  su_regular : regular (node s) ∧ regular (node o);
  su_left : side_inv s;
  su_right : side_inv o;
  su_routed : routed s o;
  su_routed' : routed o s;
}.

Lemma peers_sym s o : peers s o → peers o s.
Proof. induction 1; [constructor|by eapply peers_right|by eapply peers_left]. Qed.

Lemma setup_inv_sym s o : setup_inv s o → setup_inv o s.
Proof. intros [? []]. split; [by apply peers_sym|done..]. Qed.

Lemma side_inv_start x : is_u16 x → side_inv (side_start x).
Proof.
  intros Hx. split; cbn; [apply router_ok_start|done|intros *; by rewrite lookup_empty..|set_solver].
Qed.

(** A client of the router has a notifier. *)
Lemma fresh_client s e : side_inv s → notifiers (node s) !! e = None → clients (side_router s) !! e = None.
Proof.
  intros Hs Hn. destruct (clients (side_router s) !! e) as [c|] eqn:Hc; [|done]. destruct (si_client s Hs e c Hc) as [d Hd].
  destruct (si_driver s Hs e d Hd) as (_ & _ & rx & _ & Hrx). congruence.
Qed.

(** Steps that only add to the table of the router keep the streams routed. *)
Lemma routed_mono s o o' : clients (side_router o) ⊆ clients (side_router o') → routed s o → routed s o'.
Proof. intros Hsub Hr st (e & He & Hst & c & Hc)%Hr. exists e. split_and!; [done|done|]. exists c. by eapply lookup_weaken. Qed.

(** ** Steps keep the invariant *)

Lemma side_inv_node s n l :
  side_inv s → notifiers n = notifiers (node s) → (∀ e, e ∈ readied n → is_Some (drivers s !! e)) →
  side_inv {| node := n; side_router := side_router s; side_next := side_next s; calls := calls s; drivers := drivers s; opened := l |}.
Proof. intros [I1 I2 I3 I4 I5 I6] Hn Hr. split; cbn; rewrite ?Hn; done. Qed.

Lemma side_inv_route s r : side_inv s → router_ok r → clients r = clients (side_router s) → side_inv (route r s).
Proof. intros [I1 I2 I3 I4 I5 I6] Hr Hc. split; cbn; rewrite ?Hc; done. Qed.

Lemma side_inv_opened s l : side_inv s → side_inv (set_opened l s).
Proof. intros []. by split. Qed.

Lemma side_inv_register s k mk rx ack :
  side_inv s → keeps_parts mk → notifiers (node s) !! side_next s = None →
  let e := side_next s in
  side_inv {| node := add_ack e ack (add_notifier e rx (set_ctl k (node s))); side_router := side_router s; side_next := wrap16 (e + 2);
              calls := <[e := {| rc_id := e; rc_notifier := {| rn_endpoint_id := e; rn_rx := rx |}; rc_ack := ack; rc_driver := mk |}]> (calls s);
              drivers := drivers s; opened := opened s |}.
Proof.
  intros Hs Hmk Hn e. pose proof (fresh_client s e Hs Hn) as Hc. destruct Hs as [I1 I2 I3 I4 I5 I6]. split; cbn; [done|..].
  - unfold is_u16, wrap16. apply Z.mod_pos_bound. lia.
  - intros e' call. destruct (decide (e = e')) as [<-|Hne].
    + rewrite !lookup_insert_eq. intros [= <-]. split_and!; [done..|]. by exists rx.
    + rewrite !lookup_insert_ne by done. apply I3.
  - intros e' d Hd. destruct (I4 e' d Hd) as (H1 & H2 & rx' & H3 & H4). split_and!; [done..|]. exists rx'.
    rewrite lookup_insert_ne by (intros <-; congruence). done.
  - done.
  - done.
Qed.

Lemma side_inv_driver s e r ch n rx m d :
  side_inv s → is_u16 e → register e (side_router s) = (r, Ok ch) → driver_parts d = ({| rn_endpoint_id := e; rn_rx := rx |}, ch) →
  notifiers n !! e = Some rx → (∀ e', e ≠ e' → notifiers n !! e' = notifiers (node s) !! e') → readied n = readied (node s) →
  (∀ e' call, m !! e' = Some call → e ≠ e' ∧ calls s !! e' = Some call) →
  side_inv {| node := n; side_router := r; side_next := side_next s; calls := m; drivers := <[e := d]> (drivers s); opened := opened s |}.
Proof.
  intros Hs He Hr Hd Hn Hn' Hrd Hm. destruct (router_ok_register _ _ _ _ (si_router s Hs) Hr) as (Hok & Hnone & Hcl).
  destruct Hs as [I1 I2 I3 I4 I5 I6]. split; cbn; rewrite ?Hcl, ?Hrd; [done|done|..].
  - intros e' call [Hne Hc]%Hm. rewrite lookup_insert_ne, Hn' by done. by apply I3.
  - intros e' d'. destruct (decide (e = e')) as [<-|Hne].
    + rewrite !lookup_insert_eq. intros [= <-]. unfold driver_channel, driver_notifier. rewrite Hd. split_and!; [done..|]. by exists rx.
    + rewrite !lookup_insert_ne, Hn' by done. apply I4.
  - intros e' c. destruct (decide (e = e')) as [<-|Hne]; [rewrite !lookup_insert_eq; eauto|]. rewrite !lookup_insert_ne by done. apply I5.
  - intros e' [d' Hd']%I6. destruct (decide (e = e')) as [<-|Hne]; [rewrite lookup_insert_eq; eauto|].
    rewrite lookup_insert_ne by done. eauto.
Qed.

Lemma inv_step_register s o reg c call :
  setup_inv s o → registration reg → notifiers (node s) !! side_next s = None → acks (node s) !! side_next s = None →
  reg (side_conn s) = (c, Ok call) →
  setup_inv (set_calls (<[rc_id call := call]> (calls s))
         (on_node (λ n, add_ack (rc_id call) (rc_ack call) (add_notifier (rc_id call) (rn_rx (rc_notifier call)) n)) (after c s))) o.
Proof.
  intros [Hp Hcl0 Hs Ho Hr Hr'] (mk & Hmk & ->)%registration_begins Hn Ha (k1 & rx & k2 & ack & H1 & H2 & -> & ->)%begin_register_inv.
  cbn in H1, H2. split; [|done|by apply (side_inv_register s k2 mk rx ack)|done|done|done]. cbn.
  eapply peers_left; [eapply peers_left; [done|by eapply side_notifier]|]. by eapply (side_register (add_notifier _ _ (set_ctl k1 (node s)))).
Qed.

Lemma inv_step_acked s o e call c d :
  setup_inv s o → calls s !! e = Some call → finish_register call (side_conn s) = (c, Ok (e, d)) →
  setup_inv (add_driver e d (set_calls (delete e (calls s)) (after c s))) o.
Proof.
  intros [Hp Hcl0 Hs Ho Hr Hr'] Hc (r & ch & Hreg & _ & -> & ->)%finish_register_inv. cbn in Hreg.
  destruct (si_call s Hs e call Hc) as (He & <- & Hmk & Hnone & rx & Hrn & Hn). split; [|done|..|done|done|].
  - by destruct s as [[]].
  - eapply (side_inv_driver s (rc_id call) r ch); [done|done|done|rewrite Hmk, Hrn; reflexivity|done|done|done|].
    cbn. intros e' call' [Hne Hl]%lookup_delete_Some. done.
  - eapply routed_mono, Hr'. cbn. destruct (router_ok_register _ _ _ _ (si_router s Hs) Hreg) as (_ & Hf & ->). by apply insert_subseteq.
Qed.

Lemma inv_step_connect s o e op c d :
  setup_inv s o → is_u16 e → connecting e op → notifiers (node s) !! e = None → op (side_conn s) = (c, Ok d) →
  setup_inv (add_driver e d (on_node (add_notifier e (rn_rx (driver_notifier d))) (after c s))) o.
Proof.
  intros [Hp Hcl0 Hs Ho Hr Hr'] He (mk & Hmk & ->)%connecting_connects Hn (k & rx & r & ch & H1 & Hreg & -> & ->)%connect_endpoint_inv.
  cbn in H1, Hreg. unfold driver_notifier. rewrite Hmk. split; [|done|..|done|done|].
  - eapply peers_left; [done|]. by eapply side_notifier in H1.
  - eapply (side_inv_driver s e r ch); [done|done|done|by rewrite Hmk|cbn; by rewrite lookup_insert_eq| |done|].
    + cbn. intros e' Hne. by rewrite lookup_insert_ne.
    + cbn. intros e' call Hc. split; [|done]. intros <-. destruct (si_call s Hs e call Hc) as (_ & _ & _ & _ & rx' & _ & Hn'). congruence.
  - eapply routed_mono, Hr'. cbn. destruct (router_ok_register _ _ _ _ (si_router s Hs) Hreg) as (_ & Hf & ->). by apply insert_subseteq.
Qed.

Lemma inv_step_ready s o e d c :
  setup_inv s o → drivers s !! e = Some d → e ∉ readied (node s) → ready_boxed d (side_conn s) = (c, Ok tt) →
  setup_inv (on_node (add_readied e) (after c s)) o.
Proof.
  intros [Hp Hcl0 Hs Ho Hr Hr'] Hd Hne Hready. destruct (si_driver s Hs e d Hd) as (He & Hc & rx & Hrn & Hn).
  unfold ready_boxed, on_control in Hready. rewrite Hrn in Hready. cbn [side_conn conn_control] in Hready.
  destruct (ready _ (ctl (node s))) as [k [[]| |]] eqn:Hk; cbn in Hready; [|done..]. injection Hready as <-.
  split; [|done|..|done|done|done].
  - eapply peers_left; [done|]. by eapply side_ready in Hk.
  - apply (side_inv_node s (add_readied e (set_ctl k (node s)))); [done|done|]. cbn. intros e' [->%elem_of_singleton|Hin]%elem_of_union; [eauto|by apply (si_readied s Hs)].
Qed.

Lemma inv_step_control s o m q c r :
  setup_inv s o → control_tx (ctl (node o)) = m :: q → handle_msg m (ctl (node s)) = (c, r) →
  setup_inv (on_node (set_ctl c) s) (on_node (set_ctl (set_tx q (ctl (node o)))) o).
Proof.
  intros [Hp Hcl0 Hs Ho Hr Hr'] Hq Hm. split; [|done|..|done|done].
  - eapply peers_left; [done|]. by eapply side_deliver.
  - apply side_inv_node; [done|done|apply (si_readied s Hs)].
  - apply side_inv_node; [done|done|apply (si_readied o Ho)].
Qed.

(** The heart of the handshake: an endpoint that is ready here is registered
    with the router over there. *)
Lemma ready_is_routed s o e d :
  setup_inv s o → drivers s !! e = Some d → is_ready e d s → is_u16 e ∧ is_Some (clients (side_router o) !! e).
Proof.
  intros [Hp Hcl0 Hs Ho Hr Hr'] Hd [_ Hpoll]. destruct (si_driver s Hs e d Hd) as (He & _ & rx & Hrn & Hn). rewrite Hrn in Hpoll.
  apply (ready_returns_iff _ _ e rx (inv_reachable _ _ Hp) (regular_ready _ _ e Hcl0) Hn) in Hpoll as [Hin _]. destruct (si_readied o Ho e Hin) as [d' Hd'].
  destruct (si_driver o Ho e d' Hd') as (_ & Hc & _). eauto.
Qed.

Lemma inv_step_open s o e d w payload st :
  setup_inv s o → drivers s !! e = Some d → is_ready e d s →
  open_uni_ e (open_writer []) = (w, Ok tt) → rd_data st `prefix_of` w_out w ++ payload →
  setup_inv (set_opened (opened s ++ [st]) s) o.
Proof.
  intros Hinv Hd Hready Hw Hst. destruct (ready_is_routed s o e d Hinv Hd Hready) as [He Hc]. destruct Hinv as [Hp Hcl0 Hs Ho Hr Hr'].
  injection Hw as <-. split; [done|done|by apply side_inv_opened|done| |done].
  intros st' [Hin|Hin]%elem_of_app; [by apply Hr|]. apply list_elem_of_singleton in Hin as ->. exists e. split_and!; [done|by exists payload|done].
Qed.

Lemma inv_step_accept s o st l1 l2 :
  setup_inv s o → opened o = l1 ++ st :: l2 → setup_inv (route (accept_uni st (side_router s)) s) (set_opened (l1 ++ l2) o).
Proof.
  intros [Hp Hcl0 Hs Ho Hr Hr'] Hl. destruct (Hr' st) as (e & He & Hst & c & Hc); [rewrite Hl; set_solver|].
  destruct (router_ok_accept _ e c st (si_router s Hs) He Hc Hst) as [Hok Hcl].
  split; [done|done|by apply side_inv_route|by apply side_inv_opened|done|].
  intros st' Hin. cbn. rewrite Hcl. apply Hr'. rewrite Hl. set_solver.
Qed.

Lemma inv_step_turn s o r : setup_inv s o → router_turn (drivers s) (side_router s) r → setup_inv (route r s) o.
Proof.
  intros [Hp Hcl0 Hs Ho Hr Hr'] Ht. destruct (router_ok_turn _ _ _ (si_router s Hs) Ht) as [Hok Hcl].
  split; [done|done|by apply side_inv_route|done|done|]. intros st Hin. cbn. rewrite Hcl. by apply Hr'.
Qed.

Lemma inv_setup_step s o s' o' : setup_inv s o → setup_step s o s' o' → setup_inv s' o'.
Proof.
  intros Hinv []; [by eapply inv_step_register|by eapply inv_step_acked|by eapply inv_step_connect|by eapply inv_step_ready
    |by eapply inv_step_open|by eapply inv_step_control|by eapply inv_step_accept|by eapply inv_step_turn].
Qed.

Lemma inv_setups s o : setups s o → setup_inv s o.
Proof.
  induction 1 as [| |s o s' o' _ IH Hstep|s o s' o' _ IH Hstep]; [..|by eapply inv_setup_step|].
  1,2: split; [constructor|done|by apply side_inv_start|by apply side_inv_start|intros ?; set_solver|intros ?; set_solver].
  apply setup_inv_sym. eapply inv_setup_step; [by apply setup_inv_sym|done].
Qed.

(** ** Properties *)

(** C8: the ready handshake protects the routers.  In every reachable state of
    two peers that keep their endpoints, no routing loop of a side has stopped,
    and a stream that the other side opened is handed, without its id, to the
    channel of the endpoint it names, which has been set up on this side. *)
Theorem setup_streams_always_routed s o :
  setups s o →
  (∀ err, accept_uni_task (side_router s) ≠ Stopped err ∧ accept_bi_task (side_router s) ≠ Stopped err ∧
          recv_datagrams_task (side_router s) ≠ Stopped err) ∧
  (∀ st e rest, st ∈ opened o → is_u16 e → rd_data st = be_bytes 2 e ++ rest →
     ∃ d stream, drivers s !! e = Some d ∧ rd_data stream = rest ∧
       accept_uni st (side_router s) = set_uni (Sending (driver_channel d) stream) (side_router s)).
Proof.
  intros [_ _ Hs _ _ Hr]%inv_setups. split.
  - intros err. destruct (si_router s Hs) as [_ _ Hu Hb Hd]. split_and!; intros E; [rewrite E in Hu|rewrite E in Hb|rewrite E in Hd]; done.
  - intros st e rest Hst He Hd. destruct (Hr st Hst) as (e' & He' & Hof & c & Hc).
    destruct (read_exact_app 2 st _ _ Hd (be_bytes_length 2 e)) as (stream & Hread & Hrest & _).
    assert (read_endpoint_id st = Ok (e, stream)) as Hid by (unfold read_endpoint_id; rewrite Hread; cbn [mbind outcome_bind]; by rewrite read_be_be2).
    pose proof (stream_of_id e' st e stream He' Hof Hid) as <-. destruct (si_client s Hs e c Hc) as [d Hdr].
    destruct (si_driver s Hs e d Hdr) as (_ & Hc' & _). exists d, stream. split_and!; [done|done|]. unfold accept_uni. by rewrite Hid, Hc'.
Qed.

(** Setting up an endpoint never fails in a reachable state: a registration
    under an unused id, its completion once acknowledged, a connection to an
    unused id and the [Ready] message of an endpoint all succeed. *)
Theorem setup_never_fails s o :
  setups s o →
  (∀ reg, registration reg → notifiers (node s) !! side_next s = None → acks (node s) !! side_next s = None →
     ∃ c call, reg (side_conn s) = (c, Ok call) ∧ rc_id call = side_next s) ∧
  (∀ e call, calls s !! e = Some call → ∃ c d, finish_register call (side_conn s) = (c, Ok (e, d))) ∧
  (∀ e op, connecting e op → notifiers (node s) !! e = None → ∃ c d, op (side_conn s) = (c, Ok d)) ∧
  (∀ e d, drivers s !! e = Some d → ∃ c, ready_boxed d (side_conn s) = (c, Ok tt)).
Proof.
  intros [Hp%inv_reachable [[Hr1 Hr2] [Hr1' Hr2']] Hs _ _ _]%inv_setups.
  assert (∀ e, notifiers (node s) !! e = None → ∀ tx, pending_ready (ctl (node s)) !! e ≠ Some (AwaitingRemote tx)) as Hfree
    by (intros e; apply (notifier_free _ _ _ Hp); rewrite ?Hr1, ?Hr1'; set_solver).
  split_and!.
  - intros reg (mk & _ & ->)%registration_begins Hn Ha. unfold begin_register, get_endpoint_id, on_control; run_handler. cbn.
    rewrite (register_ready_notifier_ok _ _ (Hfree _ Hn)). cbn.
    pose proof (inv_notifier _ _ _ Hp Hn) as Hp'. pose proof (nd_open _ (pi_left _ _ Hp')) as Hopen. cbn in Hopen.
    pose proof (register_free _ _ (side_next s) Hp' ltac:(cbn; rewrite Hr2; set_solver) Ha) as Hack. cbn in Hack. rewrite register_endpoint_ok by done. cbn. eauto.
  - intros e call Hc. destruct (si_call s Hs e call Hc) as (_ & <- & _ & Hnone & _). unfold finish_register, on_router; run_handler. cbn.
    unfold register. rewrite Hnone. cbn. eauto.
  - intros e op (mk & _ & ->)%connecting_connects Hn. unfold connect_endpoint, on_control, on_router; run_handler. cbn.
    rewrite (register_ready_notifier_ok _ _ (Hfree _ Hn)). cbn. unfold register. rewrite (fresh_client s e Hs Hn). cbn. eauto.
  - intros e d Hd. unfold ready_boxed, on_control, ready, queue_msg. cbn [side_conn conn_control]. rewrite (nd_open _ (pi_left _ _ Hp)). cbn. eauto.
Qed.

(** ** A run: the client registers a data endpoint, the server connects to it,
    and the client opens a stream *)

Definition moved {A} (m : setting_up A) (s : Side) : Side := after (m (side_conn s)).1 s.
Definition handled (m : ControlMsg) (s : Side) : Side := on_node (λ n, set_ctl (handle_msg m (ctl n)).1 n) s.
Definition sent (s : Side) : Side := on_node (λ n, set_ctl (set_tx (tail (control_tx (ctl n))) (ctl n)) n) s.

Definition sample_call : RegisterCall :=
  {| rc_id := 1; rc_notifier := {| rn_endpoint_id := 1; rn_rx := 0 |}; rc_ack := 1; rc_driver := DataEndpointDriver |}.
Definition sample_driver : EndpointDriver := DataEndpointDriver {| rn_endpoint_id := 1; rn_rx := 0 |} 0.
Definition sample_stream : Reader := {| rd_chunks := [[0; 1; 7]]; rd_fail := None |}.

Definition client1 : Side :=
  set_calls {[1 := sample_call]} (on_node (λ n, add_ack 1 1 (add_notifier 1 0 n)) (moved register_data_endpoint (side_start INITIATOR_CLIENT))).
Definition server1 : Side := handled (RegisterEndpoint 1) (side_start INITIATOR_SERVER).
Definition client2 : Side := handled (EndpointRegistered 1) (sent client1).
Definition client3 : Side := add_driver 1 sample_driver (set_calls (delete 1 (calls client2)) (moved (finish_register sample_call) client2)).
Definition server2 : Side :=
  add_driver 1 sample_driver (on_node (add_notifier 1 0) (moved (connect_data_endpoint 1) (sent server1))).
Definition server3 : Side := on_node (add_readied 1) (moved (ready_boxed sample_driver) server2).
Definition client4 : Side := on_node (add_readied 1) (moved (ready_boxed sample_driver) (handled (Ready 1) client3)).
Definition client5 : Side := set_opened [sample_stream] client4.

Lemma sample_setup2 : setups (sent server1) client2.
Proof.
  eapply setups_right; [|by eapply (step_control (sent client1) server1 (EndpointRegistered 1) [])].
  eapply setups_left; [|by eapply (step_control (side_start INITIATOR_SERVER) client1 (RegisterEndpoint 1) [])].
  eapply setups_right; [apply setups_server|].
  eapply (step_register (side_start INITIATOR_CLIENT) (side_start INITIATOR_SERVER) register_data_endpoint _ sample_call);
    [constructor|done|done|reflexivity].
Qed.

Lemma sample_setups : setups (sent server3) client5.
Proof.
  eapply setups_right; [|eapply (step_open client4 (sent server3) 1 sample_driver _ [7] sample_stream);
    [done|split; [set_solver|done]|reflexivity|by exists []]].
  eapply setups_right; [|eapply (step_ready (handled (Ready 1) client3) (sent server3) 1 sample_driver); [done|set_solver|reflexivity]].
  eapply setups_right; [|by eapply (step_control client3 server3 (Ready 1) [])].
  eapply setups_left; [|eapply (step_ready server2 client3 1 sample_driver); [done|set_solver|reflexivity]].
  eapply setups_left; [|eapply (step_connect (sent server1) client3 1 (connect_data_endpoint 1) _ sample_driver);
    [done|constructor|done|reflexivity]].
  eapply setups_right; [apply sample_setup2|].
  eapply (step_acked client2 (sent server1) 1 sample_call _ sample_driver); [done|done|reflexivity].
Qed.

Lemma setup_streams_always_routed_witness :
  ∃ d stream, drivers (sent server3) !! 1 = Some d ∧ rd_data stream = [7] ∧
    accept_uni sample_stream (side_router (sent server3)) = set_uni (Sending (driver_channel d) stream) (side_router (sent server3)).
Proof.
  destruct (setup_streams_always_routed (sent server3) client5 sample_setups) as [_ H].
  apply (H sample_stream 1 [7]); [by left|done|done].
Defined.

Lemma setup_never_fails_witness : ∃ c d, connect_metrics_endpoint 3 (side_conn (sent server3)) = (c, Ok d).
Proof.
  destruct (setup_never_fails (sent server3) client5 sample_setups) as (_ & _ & H & _). apply (H 3); [constructor|reflexivity].
Defined.
