(* ===== verification/KycomForward.v ===== *)
(** * Forwarding endpoints to other processes

    Models the IPC drivers ([kymux-types/src/ipc.rs]) as protocol drivers, the
    endpoint drivers of [kycom/src/endpoint.rs] and the forwarders of
    [kycom/src/server.rs], each of which makes its two endpoints ready, in that
    order, and then relays packets between them.  The last theorem follows a
    video from the sender's driver to the process behind the forwarder. *)

From stdpp Require Import prelude list gmap strings.
From Stdlib Require Import ZArith Lia.
From S2P Require Import Prelude Io Av Packets Router Reliable CancelSafe Hex Kycom.
Open Scope Z_scope.

(** ** IPC drivers *)

Section Drivers.
Context `{Net} {P : Type} `{Serializable P}.

(** [create_send_protocol] and [create_recv_protocol] on a whole connection *)
#[export] Instance connection_send : ProtocolSendDriver Connection P := λ p c,
  let '(w, r) := ipc_send p (c_write c) in
  ({| c_addr := c_addr c; c_read := c_read c; c_write := w |}, r).

#[export] Instance connection_recv : ProtocolRecvDriver Connection P := λ c,
  let with_read r := {| c_addr := c_addr c; c_read := r; c_write := c_write c |} in
  match ipc_recv (c_read c) with
  | Ok (p, r) => (with_read r, Ok p)
  | Err e => (with_read (exhausted (c_read c)), Err e)
  | Panic => (c, Panic)
  end.
End Drivers.

Section Halves.
Context {P : Type} `{Serializable P}.

(** [create_bi_protocol] on the two halves *)
#[export] Instance writer_send : ProtocolSendDriver Writer P := ipc_send.
#[export] Instance reader_recv : ProtocolRecvDriver Reader P := λ r,
  match ipc_recv r with
  | Ok (p, r') => (r', Ok p)
  | Err e => (exhausted r, Err e)
  | Panic => (r, Panic)
  end.

(** The reliable drivers of the network *)
#[export] Instance reliable_send_driver : ProtocolSendDriver ReliableSend P := reliable_send.
#[export] Instance reliable_recv_driver : ProtocolRecvDriver ReliableRecv P := λ d,
  match reliable_recv d with
  | Ok (p, d') => (d', Ok p)
  | Err e => ({| rr_channel := rr_channel d; rr_stream := exhausted (rr_stream d) |}, Err e)
  | Panic => (d, Panic)
  end.
End Halves.

Section Endpoints.
Context `{Net}.

(** [Channel::ready] *)
Definition channel_ready (self : Channel) (result : option (io Connection)) : outcome ProtocolError Connection :=
  map_err io_message (ready_internal self result).

(** *** The endpoint drivers: what each makes of the connection *)

Definition video_client_ready (self : Channel) (result : option (io Connection)) : outcome ProtocolError Connection :=
  recv ← channel_ready self result; Ok recv.
Definition video_server_ready (self : Channel) (result : option (io Connection)) : outcome ProtocolError Connection :=
  send ← channel_ready self result; Ok send.
Definition audio_client_ready (self : Channel) (result : option (io Connection)) : outcome ProtocolError Connection :=
  recv ← channel_ready self result; Ok recv.
Definition audio_server_ready (self : Channel) (result : option (io Connection)) : outcome ProtocolError Connection :=
  send ← channel_ready self result; Ok send.
Definition data_ready (self : Channel) (result : option (io Connection)) : outcome ProtocolError (Writer * Reader) :=
  connection ← channel_ready self result; Ok (c_write connection, c_read connection).
Definition input_ready (self : Channel) (result : option (io Connection)) : outcome ProtocolError (Writer * Reader) :=
  connection ← channel_ready self result; Ok (c_write connection, c_read connection).
Definition metrics_client_ready (self : Channel) (result : option (io Connection)) : outcome ProtocolError Connection :=
  recv ← channel_ready self result; Ok recv.
Definition metrics_server_ready (self : Channel) (result : option (io Connection)) : outcome ProtocolError Connection :=
  send ← channel_ready self result; Ok send.

(** [KyCom::register_and_forward]: the address, and the channel and endpoint of
    the task that [KyCom::forward] spawns *)
Definition register_and_forward {E} (endpoint : E) : handler KyCom ErrorKind (KyComAddr * (Channel * E)) :=
  channel ← register_channel;
  mret (ch_addr channel, (channel, endpoint)).

(** *** The forwarders

    [endpoint] is what [self.endpoint.ready()] gives, [result] what the channel
    receives; the result is the loop that relays. *)

Section Forwarders.
Context (channel : Channel) (result : option (io Connection)).

Definition forward_video_client {R} `{ProtocolRecvDriver R AVPacket} (endpoint : outcome ProtocolError R) :
    outcome ProtocolError (Forward R Connection AVPacket) :=
  protocol ← endpoint; ipc ← video_server_ready channel result; Ok (forward_start protocol ipc).

Definition forward_video_server {S} `{ProtocolSendDriver S AVPacket} (endpoint : outcome ProtocolError S) :
    outcome ProtocolError (Forward Connection S AVPacket) :=
  protocol ← endpoint; ipc ← video_client_ready channel result; Ok (forward_start ipc protocol).

Definition forward_audio_client {R} `{ProtocolRecvDriver R AVPacket} (endpoint : outcome ProtocolError R) :
    outcome ProtocolError (Forward R Connection AVPacket) :=
  protocol ← endpoint; ipc ← audio_server_ready channel result; Ok (forward_start protocol ipc).

Definition forward_audio_server {S} `{ProtocolSendDriver S AVPacket} (endpoint : outcome ProtocolError S) :
    outcome ProtocolError (Forward Connection S AVPacket) :=
  protocol ← endpoint; ipc ← audio_client_ready channel result; Ok (forward_start ipc protocol).

Definition forward_input {R S} `{ProtocolRecvDriver R InputPacket} `{ProtocolSendDriver S InputPacket} (endpoint : outcome ProtocolError (S * R)) :
    outcome ProtocolError (ForwardBi R S Reader Writer InputPacket InputPacket) :=
  '(send, recv) ← endpoint; '(ipc_send, ipc_recv) ← input_ready channel result; Ok (forward_bi send recv ipc_send ipc_recv).

Definition forward_data {R S} `{ProtocolRecvDriver R DataPacket} `{ProtocolSendDriver S DataPacket} (endpoint : outcome ProtocolError (S * R)) :
    outcome ProtocolError (ForwardBi R S Reader Writer DataPacket DataPacket) :=
  '(send, recv) ← endpoint; '(ipc_send, ipc_recv) ← data_ready channel result; Ok (forward_bi send recv ipc_send ipc_recv).

Definition forward_metrics_server {S} `{ProtocolSendDriver S MetricsPacket} (endpoint : outcome ProtocolError S) :
    outcome ProtocolError (Forward Connection S MetricsPacket) :=
  protocol ← endpoint; ipc ← metrics_client_ready channel result; Ok (forward_start ipc protocol).
End Forwarders.
End Endpoints.

(** ** Relaying a stream *)

Section Relay.
Context `{Net} {P : Type} `{HS : Serializable P} {wf : P → Prop} `{HL : !SerializableLaws P wf} `{HE : !CleanEof P}.

(** [n] completed awaits of the loop *)
Fixpoint forward_awaits {R S : Type} `{ProtocolRecvDriver R P} `{ProtocolSendDriver S P} (n : nat) (f : Forward R S P) : option (Forward R S P) :=
  match n with
  | O => Some f
  | S n => f ← forward_await f; forward_awaits n f
  end.

(** The two awaits of a round *)
Lemma await_reliable {S : Type} ch st st1 x (s : S) `{ProtocolSendDriver S P} :
  ser_read st = Ok (x, st1) →
  forward_await (forward_start {| rr_channel := ch; rr_stream := st |} s) =
  Some {| fw_recv := {| rr_channel := ch; rr_stream := st1 |}; fw_send := s;
          fw_state := match x with Some p => AwaitSend p | None => Returned (Ok tt) end |}.
Proof. intros Hr. unfold forward_await, drv_recv, reliable_recv_driver, reliable_recv, read_packet. cbn. rewrite Hr. by destruct x. Qed.

Lemma await_connection {R : Type} (d : R) `{ProtocolRecvDriver R P} p a r out :
  wf p →
  forward_await {| fw_recv := d; fw_send := {| c_addr := a; c_read := r; c_write := open_writer out |}; fw_state := AwaitSend p |} =
  Some (forward_start d {| c_addr := a; c_read := r; c_write := open_writer (out ++ ser_encoding p) |}).
Proof.
  intros Hp. unfold forward_await, drv_send, connection_send. cbn [fw_state fw_send fw_recv c_write c_addr c_read]. by rewrite (ipc_send_ok p out Hp).
Qed.

(** The relay from a network stream of packets to a connection returns, having
    written the same packets. *)
Lemma relay_reliable_to_connection ps ch st a r out :
  Forall wf ps → rd_data st = stream_image ps → rd_fail st = None →
  ∃ f, forward_awaits (2 * length ps + 1)
         (forward_start {| rr_channel := ch; rr_stream := st |} {| c_addr := a; c_read := r; c_write := open_writer out |}) = Some f ∧
    forward_result f = Some (Ok tt) ∧ fw_send f = {| c_addr := a; c_read := r; c_write := open_writer (out ++ stream_image ps) |}.
Proof.
  intros Hps. revert st out. induction Hps as [|p ps Hp Hps IH]; intros st out Hd Hf.
  - destruct (read_clean_eof st Hd Hf) as [st' Hst]. cbn [length Nat.mul Nat.add forward_awaits]. rewrite (await_reliable _ _ _ _ _ Hst).
    cbn [mbind option_bind]. eexists. split; [reflexivity|]. cbn. by rewrite app_nil_r.
  - destruct (ser_read_ok p st (stream_image ps) Hp Hd) as (st1 & Hr & Hd1 & Hf1).
    destruct (IH st1 (out ++ ser_encoding p) Hd1 ltac:(congruence)) as (f & Hrun & Hres & Hsend). exists f.
    replace (2 * length (p :: ps) + 1)%nat with (2 + (2 * length ps + 1))%nat by (cbn [length]; lia).
    cbn [Nat.add forward_awaits]. rewrite (await_reliable _ _ _ _ _ Hr). cbn [mbind option_bind]. rewrite (await_connection _ p a r out Hp).
    cbn [mbind option_bind]. change (stream_image (p :: ps)) with (ser_encoding p ++ stream_image ps). rewrite app_assoc. done.
Qed.
End Relay.

(** C11: a video from end to end: the packets that the sender's reliable driver
    writes reach, through the router of the peer, the forwarder of the video
    endpoint and an IPC connection, the process that connected to the channel:
    it receives exactly those packets, in order, and a clean end. *)
Theorem video_forwarded_end_to_end `{Net} id channel (rt : Router) (ps : list AVPacket) (a : KyComAddr) tx rx r0 :
  is_u16 id → Forall wf_av ps → awaits_stream id channel rt →
  let server := {| ch_addr := a; ch_rx := tx; ch_role := Server |} in
  let client := {| ch_addr := a; ch_rx := rx; ch_role := Client |} in
  ∃ d wire, av_send_start id (open_writer []) = Ok d ∧
    reliable_send_all ps d = ({| rs_endpoint := id; rs_stream := open_writer wire |}, Ok tt) ∧
    ∀ stream, rd_data stream = wire → rd_fail stream = None →
      ∃ rt1 rt2 recv f0 f, complete_uni (accept_uni stream rt) = Some rt1 ∧ av_recv_start channel rt1 = Some (recv, rt2) ∧
        forward_video_client server (Some (Ok {| c_addr := a; c_read := r0; c_write := open_writer [] |})) (Ok recv) = Ok f0 ∧
        forward_awaits (2 * length ps + 1) f0 = Some f ∧ forward_result f = Some (Ok tt) ∧
        ∀ r fuel, rd_data r = w_out (c_write (fw_send f)) → rd_fail r = None → (length ps < fuel)%nat →
          ∃ c, video_client_ready client (Some (Ok {| c_addr := a; c_read := r; c_write := open_writer [] |})) = Ok c ∧
            recv_all fuel (c_read c) = Some (ps, Ok tt).
Proof.
  intros Hid Hps Hrt server client. eexists _, _. split; [apply reliable_send_start_ok|]. split; [by apply reliable_send_all_ok|].
  intros stream Hd Hf. cbn [app] in Hd. destruct (route_stream id channel rt stream _ Hid Hrt Hd) as (rt1 & rt2 & st & H1 & H2 & H3 & H4 & _).
  destruct (relay_reliable_to_connection ps channel st a r0 [0] Hps H3 ltac:(congruence)) as (f & Hrun & Hres & Hsend).
  eexists rt1, rt2, _, _, f. split; [done|]. split; [by apply reliable_recv_starts|]. split.
  { unfold forward_video_client, video_server_ready, channel_ready, ready_internal. cbn -[Z.eqb]. rewrite Z.eqb_refl. reflexivity. }
  split; [exact Hrun|]. split; [done|]. intros r fuel Hr Hrf Hfuel. rewrite Hsend in Hr. cbn [c_write w_out open_writer] in Hr.
  destruct (read_exact_1 r 0 _ Hr) as (r' & Hr' & Hd' & Hf'). eexists. split.
  { unfold video_client_ready, channel_ready, ready_internal. cbn -[Z.eqb read_exact be_bytes]. rewrite Z.eqb_refl. cbn -[read_exact be_bytes].
    rewrite on_write_open. cbn [mbind outcome_bind c_read c_addr c_write]. rewrite Hr'. reflexivity. }
  cbn [c_read]. apply recv_all_stream; [done|done|congruence|done].
Qed.

(** ** A sample *)

#[local] Existing Instance Kycom.sample_net.

Definition sample_video : list AVPacket := [Media {| header := {| pts := 7; is_config := false; is_key := true; size := 2 |}; payload := [5; 6] |}].

Lemma video_forwarded_end_to_end_witness :
  ∃ d wire, av_send_start 5 (open_writer []) = Ok d ∧
    reliable_send_all sample_video d = ({| rs_endpoint := 5; rs_stream := open_writer wire |}, Ok tt) ∧
    ∀ stream, rd_data stream = wire → rd_fail stream = None →
      ∃ rt1 rt2 recv f0 f, complete_uni (accept_uni stream sample_router) = Some rt1 ∧ av_recv_start 0 rt1 = Some (recv, rt2) ∧
        forward_video_client {| ch_addr := sample_addr; ch_rx := 0; ch_role := Server |}
          (Some (Ok {| c_addr := sample_addr; c_read := {| rd_chunks := []; rd_fail := None |}; c_write := open_writer [] |})) (Ok recv) = Ok f0 ∧
        forward_awaits 3 f0 = Some f ∧ forward_result f = Some (Ok tt) ∧
        ∀ r fuel, rd_data r = w_out (c_write (fw_send f)) → rd_fail r = None → (1 < fuel)%nat →
          ∃ c, video_client_ready {| ch_addr := sample_addr; ch_rx := 0; ch_role := Client |}
                 (Some (Ok {| c_addr := sample_addr; c_read := r; c_write := open_writer [] |})) = Ok c ∧
            recv_all fuel (c_read c) = Some (sample_video, Ok tt).
Proof.
  apply (video_forwarded_end_to_end 5 0 sample_router sample_video sample_addr 0 0).
  - by vm_compute.
  - repeat constructor; vm_compute; congruence.
  - apply sample_awaits.
Defined.
