(* ===== verification/ReceiveTasks.v ===== *)
(** * The tasks of a receiving driver

    The four drivers that receive over datagrams are built alike: [start] spawns
    a task that reads the packets of the stream, a task that reads the datagrams
    of the channel and a task that runs [process]; bounded queues of 16 carry
    the messages to [process] and the packets to the client, which calls [recv].
    This file models [kyproto/src/task.rs] and that pipeline, for any driver
    (class [ReceiveDriver]), as the actions the scheduler interleaves, and shows
    what holds of every interleaving. *)

From stdpp Require Import prelude list strings.
From Stdlib Require Import ZArith Lia.
From S2P Require Import Prelude Io Av Packets Router.
Open Scope Z_scope.

(** ** [Task] *)

(** A spawned future with its cancellation signal *)
Record Task (F : Type) := { future : F; cancel_sent : bool }.
Arguments future {F}.
Arguments cancel_sent {F}.

Definition spawn_task {F} (task : F) : Task F := {| future := task; cancel_sent := false |}.
Definition cancel {F} (self : Task F) : Task F := {| future := future self; cancel_sent := true |}.
Definition progress {F} (task : F) (self : Task F) : Task F := {| future := task; cancel_sent := cancel_sent self |}.

(** The [select!] of a spawned task takes its first branch: the future, dropped,
    leaves [dropped] behind. *)
Definition interrupt {F} (dropped : F) (self : Task F) : option (Task F) :=
  if cancel_sent self then Some (progress dropped self) else None.

(** ** Handlers that only add to what was sent *)

Section Grows.
Context {S E X : Type} (log : S → list X).

(** The handler only adds to the log, and its results satisfy [P]. *)
Definition grows {A} (P : A → Prop) (m : handler S E A) : Prop :=
  ∀ s, log s `prefix_of` log (m s).1 ∧ ∀ a, (m s).2 = Ok a → P a.

Lemma grows_weaken {A} (P Q : A → Prop) m : grows P m → (∀ a, P a → Q a) → grows Q m.
Proof. intros Hm HQ s. destruct (Hm s) as [H1 H2]. split; [done|]. auto. Qed.

Lemma grows_ret {A} (P : A → Prop) a : P a → grows P (mret a).
Proof. intros Ha s. split; [done|]. by intros ? [= <-]. Qed.

Lemma grows_bind {A B} (P : B → Prop) (m : handler S E A) (f : A → handler S E B) :
  grows (λ _, True) m → (∀ a, grows P (f a)) → grows P (m ≫= f).
Proof.
  intros Hm Hf s. destruct (Hm s) as [H1 _]. run_handler. destruct (m s) as [s1 [a|e|]]; cbn in *.
  - destruct (Hf a s1) as [H2 H3]. split; [by etrans|done].
  - split; [done|by intros].
  - split; [done|by intros].
Qed.

Lemma grows_get {A} (f : S → A) : grows (λ _, True) (getM f).
Proof. intros s. by split. Qed.

Lemma grows_pure {A} (m : outcome E A) : grows (λ _, True) (pureM m).
Proof. intros s. by split. Qed.

Lemma grows_modify f : (∀ s, log (f s) = log s) → grows (λ _, True) (modifyM f).
Proof. intros Hf s. split; [|done]. cbn. by rewrite Hf. Qed.
End Grows.

Create HintDb grow.
#[export] Hint Resolve grows_get grows_pure grows_modify : grow.

(** Follows the monad operations of a handler. *)
Ltac grow :=
  repeat match goal with
  | |- grows _ _ (mbind _ _) => apply grows_bind; [auto with grow|intros ?]
  | |- grows _ _ (mret _) => apply grows_ret; (done || (cbn; congruence))
  | |- grows _ _ (if ?b then _ else _) => destruct b
  | |- grows _ _ (let '(_, _) := ?p in _) => destruct p
  end; auto with grow.

(** ** The parts in which the drivers differ *)

Class ReceiveDriver (Msg Event State Time : Type) := {
  msg_read : Reader → outcome ProtocolError (Msg * Reader);  (* a round of [recv_stream_packets] *)
  msg_parse : bytes → outcome ProtocolError Msg;             (* a round of [recv_datagrams] *)
  ev_msg : Msg → Event;
  ev_err : option (ProtocolError → Event);                   (* the errors of the tasks are queued, or only logged *)
  ev_end : Event;
  ev_deadline : Event;
  round : Time → Event → handler State ProtocolError bool;   (* a round of [process] *)
  wakes : Time → State → bool;                               (* the deadline is set, and is over at that time *)
  sent : State → list AVPacket;                              (* what [process] has sent to the client *)
}.

(** What [process] promises: the packets sent are only ever added to, and it
    returns without an error at the end of its queue and only there. *)
Class ReceiveDriverLaws {Msg Event State Time} (D : ReceiveDriver Msg Event State Time) : Prop := {
  round_sends t ev s : sent s `prefix_of` sent (round t ev s).1;
  round_ends t ev s : (round t ev s).2 = Ok false → ev = ev_end;
  round_end t s : round t ev_end s = (s, Ok false);
  msg_not_end m : ev_msg m ≠ ev_end;
  deadline_not_end : ev_deadline ≠ ev_end;
}.

(** The drivers with FEC queue the errors of the two readers, and [process]
    returns the first one it meets; nothing the peer sends makes a reader panic. *)
Class ForwardsErrors {Msg Event State Time} (D : ReceiveDriver Msg Event State Time) (err : ProtocolError → Event) : Prop := {
  forwards : ev_err = Some err;
  round_err t e s : (round t (err e) s).2 = Err e;
  err_not_end e : err e ≠ ev_end;
  read_no_panic r : msg_read r ≠ Panic;
  parse_no_panic b : msg_parse b ≠ Panic;
}.

(** ** The pipeline *)

(** [recv_stream_packets] and [recv_datagrams]: waiting for the network, waiting
    in [tx.send(msg)], or (with the error queued) in the [tx.send(Err(err))] that
    follows; [Src] is what the task still holds while it reads. *)
Inductive Source (Src Event : Type) :=
| Reading (src : Src)
| Pushing (src : Src) (ev : Event)
| Reporting (ev : Event)
| Finished.
Arguments Reading {Src Event}.
Arguments Pushing {Src Event}.
Arguments Reporting {Src Event}.
Arguments Finished {Src Event}.

(** [process]: in its [select!], in [tx_client.send] with the packets of the
    round still to send and the result of the round, in the
    [tx_client.send(Err(err))] that follows an error, or returned *)
Inductive Processing :=
| Selecting
| Delivering (out : list AVPacket) (result : outcome ProtocolError bool)
| Failing (e : ProtocolError)
| Ended.

(** What the [select!] of [process] yields *)
Inductive Selected (Event : Type) := Message (ev : Event) | NoMore | Woken.
Arguments Message {Event}.
Arguments NoMore {Event}.
Arguments Woken {Event}.

Section Pipeline.
Context {Msg Event State Time : Type} `{D : ReceiveDriver Msg Event State Time}.

(** The driver and its tasks.  The task of the datagrams holds the [KyChannel],
    whose datagrams come with the actions. *)
Record Pipeline := {
  recv_stream_packets_task : Task (Source Reader Event);
  recv_datagrams_task : Task (Source unit Event);
  process_task : Task Processing;
  process_state : State;
  queue : Mpsc Event;                           (* [tx] and [rx] *)
  client_queue : Mpsc (ProtocolError + AVPacket);  (* [tx_client] and [rx_client] *)
  handles : bool;                               (* the driver holds the three [Task]s *)
}.

(** [start], once the stream is accepted *)
Definition start (stream : Reader) (init : State) : Pipeline :=
  {| recv_stream_packets_task := spawn_task (Reading stream); recv_datagrams_task := spawn_task (Reading tt);
     process_task := spawn_task Selecting; process_state := init;
     queue := mpsc_channel 16; client_queue := mpsc_channel 16; handles := true |}.

Definition with_stream (t : Task (Source Reader Event)) (s : Pipeline) : Pipeline :=
  {| recv_stream_packets_task := t; recv_datagrams_task := recv_datagrams_task s; process_task := process_task s;
     process_state := process_state s; queue := queue s; client_queue := client_queue s; handles := handles s |}.
Definition with_datagrams (t : Task (Source unit Event)) (s : Pipeline) : Pipeline :=
  {| recv_stream_packets_task := recv_stream_packets_task s; recv_datagrams_task := t; process_task := process_task s;
     process_state := process_state s; queue := queue s; client_queue := client_queue s; handles := handles s |}.
Definition with_process (t : Task Processing) (s : Pipeline) : Pipeline :=
  {| recv_stream_packets_task := recv_stream_packets_task s; recv_datagrams_task := recv_datagrams_task s; process_task := t;
     process_state := process_state s; queue := queue s; client_queue := client_queue s; handles := handles s |}.
Definition with_state (st : State) (s : Pipeline) : Pipeline :=
  {| recv_stream_packets_task := recv_stream_packets_task s; recv_datagrams_task := recv_datagrams_task s;
     process_task := process_task s; process_state := st; queue := queue s; client_queue := client_queue s; handles := handles s |}.
Definition with_queue (q : Mpsc Event) (s : Pipeline) : Pipeline :=
  {| recv_stream_packets_task := recv_stream_packets_task s; recv_datagrams_task := recv_datagrams_task s;
     process_task := process_task s; process_state := process_state s; queue := q; client_queue := client_queue s; handles := handles s |}.
Definition with_client (q : Mpsc (ProtocolError + AVPacket)) (s : Pipeline) : Pipeline :=
  {| recv_stream_packets_task := recv_stream_packets_task s; recv_datagrams_task := recv_datagrams_task s;
     process_task := process_task s; process_state := process_state s; queue := queue s; client_queue := q; handles := handles s |}.

(** The three handles are taken and cancelled. *)
Definition cancel_tasks (s : Pipeline) : Pipeline :=
  if handles s then
    {| recv_stream_packets_task := cancel (recv_stream_packets_task s); recv_datagrams_task := cancel (recv_datagrams_task s);
       process_task := cancel (process_task s); process_state := process_state s; queue := queue s;
       client_queue := client_queue s; handles := false |}
  else s.

(** *** The readers *)

(** What follows a round of a reader: the message is sent, or the error is
    queued or logged; a failed assertion unwinds the task. *)
Definition after_read {Src} (r : outcome ProtocolError (Msg * Src)) : Source Src Event :=
  match r with
  | Ok (m, src) => Pushing src (ev_msg m)
  | Err e => match ev_err with Some err => Reporting (err e) | None => Finished end
  | Panic => Finished
  end.

Definition read_stream (s : Pipeline) : option Pipeline :=
  match future (recv_stream_packets_task s) with
  | Reading r => Some (with_stream (progress (after_read (msg_read r)) (recv_stream_packets_task s)) s)
  | _ => None
  end.

(** [ky_channel.recv_datagram()] has returned [d]. *)
Definition read_datagram (d : ProtocolError + bytes) (s : Pipeline) : option Pipeline :=
  match future (recv_datagrams_task s) with
  | Reading _ =>
      let r := match d with
               | inl e => Err e
               | inr b => m ← msg_parse b; Ok (m, tt)
               end in
      Some (with_datagrams (progress (after_read r) (recv_datagrams_task s)) s)
  | _ => None
  end.

Definition has_room {A} (q : Mpsc A) : bool := bool_decide (length (mq q) < capacity q)%nat.

(** A pending [tx.send] completes: with an error when [process] has dropped its
    receiver, else when there is room.  The error of the first [send] is itself
    queued or logged, which fails the same way. *)
Definition push_source {Src} (src : Source Src Event) (q : Mpsc Event) : option (Source Src Event * Mpsc Event * option Event) :=
  match src with
  | Pushing src ev =>
      if negb (rx_open q) then Some (Finished, q, None)
      else if has_room q then Some (Reading src, mpsc_push ev q, Some ev) else None
  | Reporting ev =>
      if negb (rx_open q) then Some (Finished, q, None)
      else if has_room q then Some (Finished, mpsc_push ev q, Some ev) else None
  | _ => None
  end.

(** *** [process] *)

Definition source_finished {Src} (src : Source Src Event) : bool := match src with Finished => true | _ => false end.

(** Both senders are gone. *)
Definition senders_gone (s : Pipeline) : bool :=
  source_finished (future (recv_stream_packets_task s)) && source_finished (future (recv_datagrams_task s)).

(** What follows the sends of a round *)
Definition settle (out : list AVPacket) (r : outcome ProtocolError bool) : Processing :=
  match out, r with
  | [], Ok true => Selecting
  | [], Err e => match ev_err with Some _ => Failing e | None => Ended end
  | [], _ => Ended
  | _, _ => Delivering out r
  end.

(** A [process] that returns drops its receiver. *)
Definition set_process (p : Processing) (s : Pipeline) : Pipeline :=
  let s := with_process (progress p (process_task s)) s in
  match p with Ended => with_queue (mpsc_close (queue s)) s | _ => s end.

(** A round on [ev], in the state [s] whose queue has been popped already *)
Definition run_round (t : Time) (ev : Event) (s : Pipeline) : Pipeline :=
  let '(st, r) := round t ev (process_state s) in
  set_process (settle (drop (length (sent (process_state s))) (sent st)) r) (with_state st s).

(** The [select!]: [rx.recv()] or the deadline *)
Definition select_round (t : Time) (woken : bool) (s : Pipeline) : option (Pipeline * Selected Event) :=
  match future (process_task s) with
  | Selecting =>
      if woken then
        if wakes t (process_state s) then Some (run_round t ev_deadline s, Woken) else None
      else
        match mq (queue s) with
        | ev :: _ => Some (run_round t ev (with_queue (mpsc_pop (queue s)) s), Message ev)
        | [] => if senders_gone s then Some (run_round t ev_end s, NoMore) else None
        end
  | _ => None
  end.

(** A pending [tx_client.send] completes, with an error when the client has
    dropped its receiver, else when there is room. *)
Definition deliver (s : Pipeline) : option Pipeline :=
  let q := client_queue s in
  match future (process_task s) with
  | Delivering (p :: out) r =>
      if negb (rx_open q) then Some (set_process Ended s)
      else if has_room q then Some (set_process (settle out r) (with_client (mpsc_push (inr p) q) s)) else None
  | Failing e =>
      if negb (rx_open q) then Some (set_process Ended s)
      else if has_room q then Some (set_process Ended (with_client (mpsc_push (inl e) q) s)) else None
  | _ => None
  end.

(** *** The client *)

Definition process_returned (s : Pipeline) : bool := match future (process_task s) with Ended => true | _ => false end.

(** [recv]: [rx_client.recv()]; an error cancels the tasks. *)
Definition recv (s : Pipeline) : option (Pipeline * outcome ProtocolError (option AVPacket)) :=
  if negb (rx_open (client_queue s)) then None
  else match mq (client_queue s) with
       | inr p :: _ => Some (with_client (mpsc_pop (client_queue s)) s, Ok (Some p))
       | inl e :: _ => Some (cancel_tasks (with_client (mpsc_pop (client_queue s)) s), Err e)
       | [] => if process_returned s then Some (s, Ok None) else None
       end.

(** [drop]: the tasks are cancelled, then the receiver is dropped. *)
Definition drop_driver (s : Pipeline) : option Pipeline :=
  if negb (rx_open (client_queue s)) then None
  else let s := cancel_tasks s in Some (with_client (mpsc_close (client_queue s)) s).

(** *** Interleavings *)

Inductive Action :=
| ReadStream
| GotDatagram (d : ProtocolError + bytes)
| PushStream
| PushDatagram
| Round (t : Time) (woken : bool)
| Deliver
| Recv
| InterruptStream
| InterruptDatagrams
| InterruptProcess
| DropDriver.

(** What an action shows: a well-formed datagram that was read, a message given
    to the queue by either reader, a round of [process], a result of [recv] *)
Inductive Obs :=
| Tau
| Datagram (b : bytes)
| PushedStream (ev : Event)
| PushedDatagram (ev : Event)
| RoundOn (t : Time) (sel : Selected Event)
| Received (r : outcome ProtocolError (option AVPacket)).

Definition act (a : Action) (s : Pipeline) : option (Pipeline * Obs) :=
  match a with
  | ReadStream => s ← read_stream s; Some (s, Tau)
  | GotDatagram d =>
      s ← read_datagram d s;
      Some (s, match d with inr b => match msg_parse b with Ok _ => Datagram b | _ => Tau end | inl _ => Tau end)
  | PushStream =>
      '(src, q, ev) ← push_source (future (recv_stream_packets_task s)) (queue s);
      Some (with_stream (progress src (recv_stream_packets_task s)) (with_queue q s), from_option PushedStream Tau ev)
  | PushDatagram =>
      '(src, q, ev) ← push_source (future (recv_datagrams_task s)) (queue s);
      Some (with_datagrams (progress src (recv_datagrams_task s)) (with_queue q s), from_option PushedDatagram Tau ev)
  | Round t woken => '(s, sel) ← select_round t woken s; Some (s, RoundOn t sel)
  | Deliver => s ← deliver s; Some (s, Tau)
  | Recv => '(s, r) ← recv s; Some (s, Received r)
  | InterruptStream => t ← interrupt Finished (recv_stream_packets_task s); Some (with_stream t s, Tau)
  | InterruptDatagrams => t ← interrupt Finished (recv_datagrams_task s); Some (with_datagrams t s, Tau)
  | InterruptProcess => _ ← interrupt Ended (process_task s); Some (set_process Ended s, Tau)
  | DropDriver => s ← drop_driver s; Some (s, Tau)
  end.

Fixpoint exec (acts : list Action) (s : Pipeline) : option (Pipeline * list Obs) :=
  match acts with
  | [] => Some (s, [])
  | a :: acts =>
      '(s, o) ← act a s;
      '(s, obs) ← exec acts s;
      Some (s, o :: obs)
  end.

(** A run that goes through, from what was computed of it *)
Lemma exec_result {B} (f : Pipeline * list Obs → B) acts s b :
  option_map f (exec acts s) = Some b → ∃ s' obs, exec acts s = Some (s', obs) ∧ f (s', obs) = b.
Proof. destruct (exec acts s) as [[s' obs]|]; [|done]. cbn. intros [= Hf]. by exists s', obs. Qed.

(** *** What a run has shown *)

Definition event_of (sel : Selected Event) : Event :=
  match sel with Message ev => ev | NoMore => ev_end | Woken => ev_deadline end.

Definition datagrams_read : list Obs → list bytes := omap (λ o, match o with Datagram b => Some b | _ => None end).
Definition stream_pushed : list Obs → list Event := omap (λ o, match o with PushedStream ev => Some ev | _ => None end).
Definition datagrams_pushed : list Obs → list Event := omap (λ o, match o with PushedDatagram ev => Some ev | _ => None end).
Definition taken : list Obs → list Event := omap (λ o, match o with RoundOn _ (Message ev) => Some ev | _ => None end).
Definition rounds : list Obs → list (Time * Event) := omap (λ o, match o with RoundOn t sel => Some (t, event_of sel) | _ => None end).
Definition received : list Obs → list AVPacket := omap (λ o, match o with Received (Ok (Some p)) => Some p | _ => None end).

(** The rounds of [process] one after the other, up to the first that does not go on *)
Fixpoint run_rounds (l : list (Time * Event)) (s : State) : State * outcome ProtocolError bool :=
  match l with
  | [] => (s, Ok true)
  | (t, ev) :: l =>
      match round t ev s with
      | (s, Ok true) => run_rounds l s
      | (s, r) => (s, r)
      end
  end.

Lemma run_rounds_snoc l s s' t ev : run_rounds l s = (s', Ok true) → run_rounds (l ++ [(t, ev)]) s = round t ev s'.
Proof.
  revert s. induction l as [|[t0 ev0] l IH]; intros s; cbn [run_rounds app].
  - intros [= ->]. by destruct (round t ev s') as [s1 [[]| |]].
  - destruct (round t0 ev0 s) as [s1 [[]| |]]; [apply IH|done..].
Qed.

End Pipeline.

(** ** The invariant of the pipeline *)

Section Invariant.
Context {Msg Event State Time : Type} `{D : ReceiveDriver Msg Event State Time} `{L : !ReceiveDriverLaws D}.
Implicit Types (s : Pipeline (Event:=Event) (State:=State)) (obs : list (Obs (Event:=Event) (Time:=Time))).

(** The packets that a reader has read *)
Inductive reads (r0 : Reader) : list Msg → Reader → Prop :=
| reads_nil : reads r0 [] r0
| reads_snoc ms r m r' : reads r0 ms r → msg_read r = Ok (m, r') → reads r0 (ms ++ [m]) r'.

Definition parses (bs : list bytes) (ms : list Msg) : Prop := Forall2 (λ b m, msg_parse b = Ok m) bs ms.

(** The events [evs] that a reader has queued: its messages [ms], the last of
    which may be missing, then possibly its error *)
Definition queued_of (H : list Msg → Prop) (evs : list Event) : Prop :=
  ∃ ms tail, H ms ∧ evs `prefix_of` (ev_msg <$> ms) ++ tail ∧ (tail = [] ∨ ∃ err e, ev_err = Some err ∧ tail = [err e]).

Definition source_inv {Src} (H : list Msg → Src → Prop) (evs : list Event) (src : Source Src Event) : Prop :=
  match src with
  | Reading x => ∃ ms, H ms x ∧ evs = ev_msg <$> ms
  | Pushing x ev => ∃ ms, H ms x ∧ evs ++ [ev] = ev_msg <$> ms
  | Reporting ev => ∃ ms x err e, H ms x ∧ evs = ev_msg <$> ms ∧ ev_err = Some err ∧ ev = err e
  | Finished => queued_of (λ ms, ∃ x, H ms x) evs
  end.

(** The last result of the rounds, as the task of [process] shows it *)
Definition result_of (p : Processing) (r : outcome ProtocolError bool) : Prop :=
  match p with
  | Selecting => r = Ok true
  | Delivering out r' => r' = r ∧ out ≠ []
  | Failing e => r = Err e
  | Ended => True
  end.

(** The packets of the rounds not yet queued for the client *)
Definition undelivered (p : Processing) (rest : list AVPacket) : Prop :=
  match p with
  | Delivering out _ => rest = out
  | Ended => True
  | _ => rest = []
  end.

Definition packets : list (ProtocolError + AVPacket) → list AVPacket := omap (λ x, match x with inr p => Some p | inl _ => None end).

Record pipeline_inv (r0 : Reader) (init : State) (obs : list Obs) (s : Pipeline) : Prop := {
  inv_queue_room : capacity (queue s) = 16%nat ∧ (length (mq (queue s)) ≤ 16)%nat;
  inv_client_room : capacity (client_queue s) = 16%nat ∧ (length (mq (client_queue s)) ≤ 16)%nat;
  inv_run : ∃ r, run_rounds (rounds obs) init = (process_state s, r) ∧ result_of (future (process_task s)) r;
  inv_sent : ∃ rest, sent (process_state s) = sent init ++ received obs ++ packets (mq (client_queue s)) ++ rest ∧
               (rx_open (client_queue s) = true → undelivered (future (process_task s)) rest);
  inv_order : ∃ lost, interleaves (stream_pushed obs) (datagrams_pushed obs) (taken obs ++ mq (queue s) ++ lost) ∧
                (rx_open (queue s) = true → lost = []);
  inv_open : rx_open (queue s) = negb (process_returned s);
  inv_stream : source_inv (reads r0) (stream_pushed obs) (future (recv_stream_packets_task s));
  inv_datagrams : source_inv (λ ms _, parses (datagrams_read obs) ms) (datagrams_pushed obs) (future (recv_datagrams_task s));
}.

Lemma start_inv r0 init : pipeline_inv r0 init [] (start r0 init).
Proof.
  split; cbn; try (split; lia).
  - by exists (Ok true).
  - exists []. rewrite !app_nil_r. done.
  - exists []. split; [constructor|done].
  - exists []. split; [constructor|done].
  - exists []. split; [constructor|done].
Qed.

(** *** The readers *)

Lemma source_finish {Src} (H : list Msg → Src → Prop) evs src : source_inv H evs src → queued_of (λ ms, ∃ x, H ms x) evs.
Proof.
  destruct src as [x|x ev|ev|]; cbn; [| | |done].
  - intros (ms & Hm & ->). exists ms, []. rewrite app_nil_r. naive_solver.
  - intros (ms & Hm & He). exists ms, []. rewrite app_nil_r, <- He. split; [by eexists|]. split; [by apply prefix_app_r|by left].
  - intros (ms & x & err & e & Hm & -> & _). exists ms, []. rewrite app_nil_r. naive_solver.
Qed.

Lemma source_read {Src} (H H' : list Msg → Src → Prop) evs x r :
  source_inv H evs (Reading x) → (∀ m x', r = Ok (m, x') → ∀ ms, H ms x → H' (ms ++ [m]) x') →
  ((∀ m, r ≠ Ok m) → ∀ ms, H ms x → H' ms x) → source_inv H' evs (after_read r).
Proof.
  intros (ms & Hm & ->) Hok Herr.
  assert (Hfin : (∀ m, r ≠ Ok m) → queued_of (λ ms, ∃ x, H' ms x) (ev_msg <$> ms)).
  { intros Hr. exists ms, []. rewrite app_nil_r. split_and!; [exists x; by apply Herr|done|by left]. }
  destruct r as [[m x']|e|]; cbn.
  - exists (ms ++ [m]). split; [by eapply Hok|]. by rewrite fmap_app.
  - destruct ev_err as [err|] eqn:He; cbn; [|by apply Hfin].
    exists ms, x, err, e. split_and!; [|done..]. by apply Herr.
  - by apply Hfin.
Qed.

Lemma source_push {Src} (H : list Msg → Src → Prop) evs src q src' q' ev :
  source_inv H evs src → push_source src q = Some (src', q', ev) →
  source_inv H (evs ++ option_list ev) src' ∧ capacity q' = capacity q ∧ rx_open q' = rx_open q ∧
  mq q' = mq q ++ option_list ev ∧ (is_Some ev → rx_open q = true ∧ (length (mq q) < capacity q)%nat).
Proof.
  intros Hs. unfold push_source, has_room. destruct src as [x|x e|e|]; [done| | |done].
  all: destruct (rx_open q) eqn:Ho; cbn [negb]; [case_bool_decide as Hr; [|done]|]; intros [= <- <- <-]; cbn [option_list mpsc_push mq capacity rx_open];
    rewrite ?app_nil_r; (split_and!; [|done|done|done|intros [? [=]]; try done]).
  - exact Hs.
  - by eapply (source_finish H evs (Pushing x e)).
  - destruct Hs as (ms & x & err & e0 & Hm & -> & He & ->). exists ms, [err e0]. naive_solver.
  - by eapply (source_finish H evs (Reporting e)).
Qed.

(** *** One action at a time *)

Ltac history :=
  unfold received, rounds, taken, stream_pushed, datagrams_pushed, datagrams_read in *;
  rewrite ?omap_app; cbn [omap list_omap event_of]; rewrite ?app_nil_r.

(** Actions that neither touch the queues nor show anything *)
Lemma read_stream_inv r0 init obs s s' :
  pipeline_inv r0 init obs s → read_stream s = Some s' → pipeline_inv r0 init (obs ++ [Tau]) s'.
Proof.
  intros [H1 H2 H3 H4 H5 H6 H7 H8]. unfold read_stream. destruct (future (recv_stream_packets_task s)) as [r| | |] eqn:Hf; [|done..].
  intros [= <-]. split; history; try done. cbn [with_stream recv_stream_packets_task progress future].
  eapply source_read; [exact H7| |done].
  intros m x' Hr ms Hms. by eapply reads_snoc.
Qed.

Lemma read_datagram_inv r0 init obs d s s' o :
  pipeline_inv r0 init obs s → act (GotDatagram d) s = Some (s', o) → pipeline_inv r0 init (obs ++ [o]) s'.
Proof.
  intros [H1 H2 H3 H4 H5 H6 H7 H8]. cbn [act]. unfold read_datagram. destruct (future (recv_datagrams_task s)) as [[]| | |] eqn:Hf; [|done..].
  cbn [mbind option_bind]. intros [= <- <-].
  destruct d as [e|b]; [|destruct (msg_parse b) as [m|e|] eqn:Hp]; split; history; try done;
    cbn [with_datagrams recv_datagrams_task progress future mbind outcome_bind];
    (eapply source_read; [exact H8|..]; try done).
  - intros m' x' [= <- <-] ms Hms. unfold parses. apply Forall2_app; [done|]. by repeat constructor.
  - intros Hn. by destruct (Hn (m, tt)).
Qed.

Lemma push_stream_inv r0 init obs s s' o :
  pipeline_inv r0 init obs s → act PushStream s = Some (s', o) → pipeline_inv r0 init (obs ++ [o]) s'.
Proof.
  intros [[H1 H1'] H2 H3 H4 (lost & H5 & H5') H6 H7 H8]. cbn [act].
  destruct (push_source _ _) as [[[src q] ev]|] eqn:Hp; [|done]. cbn [mbind option_bind]. intros [= <- <-].
  destruct (source_push _ _ _ _ _ _ _ H7 Hp) as (Hs & Hc & Ho & Hq & Hroom).
  destruct ev as [ev|]; cbn [from_option option_list] in *.
  - destruct Hroom as [Hopen Hlen]; [done|]. rewrite (H5' Hopen), app_nil_r in H5.
    split; history; cbn; try done; [rewrite Hq, length_app; cbn; split; [congruence|lia]| |by rewrite Ho].
    exists []. rewrite app_nil_r, Hq, app_assoc. split; [by constructor|done].
  - rewrite app_nil_r in Hq, Hs. split; history; cbn; rewrite ?Hq, ?Ho, ?Hc; try done. by exists lost.
Qed.

Lemma push_datagram_inv r0 init obs s s' o :
  pipeline_inv r0 init obs s → act PushDatagram s = Some (s', o) → pipeline_inv r0 init (obs ++ [o]) s'.
Proof.
  intros [[H1 H1'] H2 H3 H4 (lost & H5 & H5') H6 H7 H8]. cbn [act].
  destruct (push_source _ _) as [[[src q] ev]|] eqn:Hp; [|done]. cbn [mbind option_bind]. intros [= <- <-].
  destruct (source_push _ _ _ _ _ _ _ H8 Hp) as (Hs & Hc & Ho & Hq & Hroom).
  destruct ev as [ev|]; cbn [from_option option_list] in *.
  - destruct Hroom as [Hopen Hlen]; [done|]. rewrite (H5' Hopen), app_nil_r in H5.
    split; history; cbn; try done; [rewrite Hq, length_app; cbn; split; [congruence|lia]| |by rewrite Ho].
    exists []. rewrite app_nil_r, Hq, app_assoc. split; [by constructor|done].
  - rewrite app_nil_r in Hq, Hs. split; history; cbn; rewrite ?Hq, ?Ho, ?Hc; try done. by exists lost.
Qed.

(** *** [process] and the client *)

Lemma settle_result out r : result_of (settle out r) r.
Proof. by destruct out, r as [[]| |]; cbn; try done; destruct ev_err. Qed.

Lemma settle_undelivered out r : undelivered (settle out r) out.
Proof. by destruct out, r as [[]| |]; cbn; try done; destruct ev_err. Qed.

(** The task of [process] changes from a running one: the invariant on the
    queue follows, whether it returned or not. *)
Lemma set_process_inv r0 init obs p s :
  (capacity (queue s) = 16%nat ∧ (length (mq (queue s)) ≤ 16)%nat) →
  (capacity (client_queue s) = 16%nat ∧ (length (mq (client_queue s)) ≤ 16)%nat) →
  (∃ r, run_rounds (rounds obs) init = (process_state s, r) ∧ result_of p r) →
  (∃ rest, sent (process_state s) = sent init ++ received obs ++ packets (mq (client_queue s)) ++ rest ∧
    (rx_open (client_queue s) = true → undelivered p rest)) →
  (∃ lost, interleaves (stream_pushed obs) (datagrams_pushed obs) (taken obs ++ mq (queue s) ++ lost) ∧
    (rx_open (queue s) = true → lost = [])) →
  (p ≠ Ended → rx_open (queue s) = true) →
  source_inv (reads r0) (stream_pushed obs) (future (recv_stream_packets_task s)) →
  source_inv (λ ms _, parses (datagrams_read obs) ms) (datagrams_pushed obs) (future (recv_datagrams_task s)) →
  pipeline_inv r0 init obs (set_process p s).
Proof.
  intros H1 H2 H3 H4 (lost & H5 & H5') H6 H7 H8. destruct p; (split; cbn; [try apply H1|done|done|done| |first [by apply H6|done]|done|done]).
  1-3: by exists lost.
  - split; [apply H1|lia].
  - exists (mq (queue s) ++ lost). done.
Qed.

Lemma run_round_inv r0 init obs t sel s q :
  pipeline_inv r0 init obs s → future (process_task s) = Selecting →
  capacity q = 16%nat → (length (mq q) ≤ 16)%nat → rx_open q = true →
  interleaves (stream_pushed obs) (datagrams_pushed obs) (taken (obs ++ [RoundOn t sel]) ++ mq q) →
  pipeline_inv r0 init (obs ++ [RoundOn t sel]) (run_round t (event_of sel) (with_queue q s)).
Proof.
  intros [H1 H2 (r & H3 & Hr) (rest & H4 & H4') H5 H6 H7 H8] Hp Hc Hl Ho Hi. rewrite Hp in Hr, H4'. cbn in Hr, H4'. subst r.
  unfold run_round. cbn [process_state with_queue].
  pose proof (round_sends t (event_of sel) (process_state s)) as Hpre.
  destruct (round t (event_of sel) (process_state s)) as [st r] eqn:Hround. destruct Hpre as [new Hnew]. cbn [fst] in Hnew.
  rewrite Hnew, drop_app_length. apply set_process_inv; cbn.
  - done.
  - done.
  - exists r. split; [|apply settle_result]. history. by rewrite (run_rounds_snoc _ _ _ _ _ H3).
  - exists (rest ++ new). rewrite Hnew, H4. history. split; [by rewrite <- !app_assoc|].
    intros Hopen. rewrite (H4' Hopen). apply settle_undelivered.
  - exists []. rewrite app_nil_r. split; [|done]. revert Hi. by history.
  - done.
  - by history.
  - by history.
Qed.

Lemma select_round_inv r0 init obs t woken s s' sel :
  pipeline_inv r0 init obs s → select_round t woken s = Some (s', sel) → pipeline_inv r0 init (obs ++ [RoundOn t sel]) s'.
Proof.
  intros Hinv. unfold select_round. destruct (future (process_task s)) eqn:Hp; try done.
  assert (Hs : s = with_queue (queue s) s) by by destruct s.
  pose proof Hinv as [[H1 H1'] H2 H3 H4 (lost & H5 & H5') H6 H7 H8]. unfold process_returned in H6. rewrite Hp in H6. cbn in H6.
  rewrite (H5' H6), app_nil_r in H5. destruct woken.
  - destruct (wakes t (process_state s)); [|done]. intros [= <- <-]. rewrite Hs.
    apply (run_round_inv _ _ _ _ Woken); try done. by history.
  - destruct (mq (queue s)) as [|ev q] eqn:Hq.
    + destruct (senders_gone s); [|done]. intros [= <- <-]. rewrite Hs.
      apply (run_round_inv _ _ _ _ NoMore); try done; rewrite ?Hq; try done. rewrite app_nil_r in H5. by history.
    + intros [= <- <-]. apply (run_round_inv _ _ _ _ (Message ev)); try done; cbn; rewrite ?Hq; cbn in *; [lia|].
      history. by rewrite <- app_assoc.
Qed.

Lemma deliver_inv r0 init obs s s' :
  pipeline_inv r0 init obs s → deliver s = Some s' → pipeline_inv r0 init (obs ++ [Tau]) s'.
Proof.
  intros [H1 [H2 H2'] (r & H3 & Hr) (rest & H4 & H4') H5 H6 H7 H8]. unfold deliver, process_returned in *.
  destruct (future (process_task s)) as [|[|p out] r'|e|] eqn:Hp; try done; cbn in Hr, H4', H6.
  all: destruct (rx_open (client_queue s)) eqn:Ho; cbn [negb];
    [unfold has_room; case_bool_decide as Hroom; [|done]|]; intros Heq; apply (inj Some) in Heq as <-;
    (apply set_process_inv; cbn; history; try done; [try (rewrite length_app; cbn; split; [done|lia])|..]).
  all: try by eexists.
  - exists r. split; [done|]. destruct Hr as [-> _]. apply settle_result.
  - exists out. rewrite H4, (H4' eq_refl). unfold packets. rewrite omap_app. cbn. split; [by rewrite <- !app_assoc|].
    intros _. apply settle_undelivered.
  - exists rest. rewrite H4. split; [|done]. unfold packets. rewrite omap_app. cbn. by rewrite app_nil_r.
Qed.

Lemma client_recv_inv r0 init obs s s' r :
  pipeline_inv r0 init obs s → recv s = Some (s', r) → pipeline_inv r0 init (obs ++ [Received r]) s'.
Proof.
  intros [H1 [H2 H2'] H3 (rest & H4 & H4') H5 H6 H7 H8]. unfold recv. destruct (rx_open (client_queue s)) eqn:Ho; [|done]. cbn [negb].
  destruct (mq (client_queue s)) as [|[e|p] q] eqn:Hq; cbn in H2'.
  - destruct (process_returned s) eqn:Hret; [|done]. intros [= <- <-]. split; history; rewrite ?Hq, ?Hret, ?Ho; try done. by exists rest.
  - intros [= <- <-]. unfold cancel_tasks. cbn. destruct (handles s); (split; history; cbn; rewrite ?Hq; try done; [split; [done|cbn; lia]|]);
      exists rest; rewrite H4, ?Ho; done.
  - intros [= <- <-]. split; history; cbn; rewrite ?Hq; try done; [split; [done|cbn; lia]|].
    exists rest. rewrite H4, Ho. split; [|done]. cbn. by rewrite <- !app_assoc.
Qed.

Lemma cancel_tasks_inv r0 init obs s :
  pipeline_inv r0 init obs s → pipeline_inv r0 init obs (cancel_tasks s).
Proof. intros [H1 H2 H3 H4 H5 H6 H7 H8]. unfold cancel_tasks. destruct (handles s); by split. Qed.

Lemma interrupt_process_inv r0 init obs s :
  pipeline_inv r0 init obs s → pipeline_inv r0 init obs (set_process Ended s).
Proof.
  intros [H1 H2 (r & H3 & Hr) (rest & H4 & H4') H5 H6 H7 H8]. apply set_process_inv; try done; by eexists.
Qed.

Lemma inv_tau r0 init obs s : pipeline_inv r0 init obs s → pipeline_inv r0 init (obs ++ [Tau]) s.
Proof. intros [H1 H2 H3 H4 H5 H6 H7 H8]. by split; history. Qed.

Lemma act_inv r0 init obs a s s' o :
  pipeline_inv r0 init obs s → act a s = Some (s', o) → pipeline_inv r0 init (obs ++ [o]) s'.
Proof.
  intros Hinv Hact. destruct a; cbn [act] in Hact.
  - destruct (read_stream s) eqn:Hr; [|done]. injection Hact as <- <-. by eapply read_stream_inv.
  - by eapply read_datagram_inv.
  - by eapply push_stream_inv.
  - by eapply push_datagram_inv.
  - destruct (select_round t woken s) as [[s1 sel]|] eqn:Hr; [|done]. injection Hact as <- <-. by eapply select_round_inv.
  - destruct (deliver s) eqn:Hr; [|done]. injection Hact as <- <-. by eapply deliver_inv.
  - destruct (recv s) as [[s1 r]|] eqn:Hr; [|done]. injection Hact as <- <-. by eapply client_recv_inv.
  - unfold interrupt in Hact. destruct (cancel_sent _); [|done]. injection Hact as <- <-. apply inv_tau.
    destruct Hinv as [H1 H2 H3 H4 H5 H6 H7 H8]. split; try done. cbn. by eapply source_finish.
  - unfold interrupt in Hact. destruct (cancel_sent _); [|done]. injection Hact as <- <-. apply inv_tau.
    destruct Hinv as [H1 H2 H3 H4 H5 H6 H7 H8]. split; try done. cbn. by eapply source_finish.
  - unfold interrupt in Hact. destruct (cancel_sent _); [|done].
    assert (s' = set_process Ended s ∧ o = Tau) as [-> ->] by (by injection Hact as <- <-). by apply inv_tau, interrupt_process_inv.
  - unfold drop_driver in Hact. destruct (rx_open (client_queue s)) eqn:Ho; [|done]. injection Hact as <- <-. apply inv_tau.
    destruct (cancel_tasks_inv _ _ _ _ Hinv) as [H1 [H2 H2'] H3 (rest & H4 & _) H5 H6 H7 H8]. split; cbn; try done; [split; [done|lia]|].
    by eexists.
Qed.

Lemma exec_inv r0 init acts obs s s' obs' :
  pipeline_inv r0 init obs s → exec acts s = Some (s', obs') → pipeline_inv r0 init (obs ++ obs') s'.
Proof.
  revert obs s obs'. induction acts as [|a acts IH]; intros obs s obs' Hinv; cbn [exec].
  { intros [= <- <-]. by rewrite app_nil_r. }
  destruct (act a s) as [[s1 o]|] eqn:Ha; [|done]. cbn [mbind option_bind].
  destruct (exec acts s1) as [[s2 obs2]|] eqn:He; [|done]. cbn [mbind option_bind]. intros [= <- <-].
  replace (obs ++ o :: obs2) with ((obs ++ [o]) ++ obs2) by by rewrite <- app_assoc.
  eapply IH; [|done]. by eapply act_inv.
Qed.

(** Every run of the driver *)
Lemma driver_inv r0 init acts s obs :
  exec acts (start r0 init) = Some (s, obs) → pipeline_inv r0 init obs s.
Proof. intros He. by eapply (exec_inv _ _ _ [] _ _ _ (start_inv r0 init)). Qed.

(** ** Progress *)

(** The actions that need neither the network nor the clock *)
Definition internal (t : Time) : list Action := [PushStream; PushDatagram; Round t false; Deliver; Recv].

Definition waiting {Src} (src : Source Src Event) : bool := match src with Reading _ | Finished => true | _ => false end.

(** Everything has reached the client, and [process] either has returned or
    waits for a reader that waits for the network. *)
Definition settled s : Prop :=
  mq (client_queue s) = [] ∧
  (future (process_task s) = Ended ∨
   future (process_task s) = Selecting ∧ mq (queue s) = [] ∧ senders_gone s = false ∧
   waiting (future (recv_stream_packets_task s)) = true ∧ waiting (future (recv_datagrams_task s)) = true).

(** What is left to do: messages first, then packets *)
Definition messages_left s : nat :=
  2 * (Nat.b2n (negb (waiting (future (recv_stream_packets_task s)))) + Nat.b2n (negb (waiting (future (recv_datagrams_task s))))) +
  length (mq (queue s)) + Nat.b2n (negb (process_returned s)).

Definition packets_left s : nat :=
  match future (process_task s) with Delivering out _ => 4 * length out | Failing _ => 2 | _ => 0 end + length (mq (client_queue s)).

Definition nearer s' s : Prop :=
  (messages_left s' < messages_left s)%nat ∨ messages_left s' = messages_left s ∧ (packets_left s' < packets_left s)%nat.

Lemma nearer_wf : well_founded nearer.
Proof.
  assert (H : ∀ n m s, (messages_left s < n)%nat → (packets_left s < m)%nat → Acc nearer s).
  { induction n as [|n IHn]; [lia|]. induction m as [|m IHm]; [lia|]. intros s Hn Hm. constructor. intros s' [Hlt|[Heq Hlt]].
    - eapply (IHn (S (packets_left s'))); lia.
    - apply IHm; lia. }
  intros s. eapply (H (S (messages_left s)) (S (packets_left s))); lia.
Qed.

Lemma push_source_nearer {Src} (src : Source Src Event) q :
  capacity q = 16%nat → (length (mq q) < 16)%nat → waiting src = false →
  ∃ src' q' ev, push_source src q = Some (src', q', ev) ∧ waiting src' = true ∧ (length (mq q') ≤ length (mq q) + 1)%nat.
Proof.
  intros Hc Hl Hw. unfold push_source, has_room. rewrite bool_decide_true by lia.
  destruct src, (rx_open q); try done; cbn; eexists _, _, _; (split; [done|]); cbn; rewrite ?length_app; cbn; (split; [done|lia]).
Qed.

Lemma set_process_left p s :
  messages_left (set_process p s) =
    (2 * (Nat.b2n (negb (waiting (future (recv_stream_packets_task s)))) + Nat.b2n (negb (waiting (future (recv_datagrams_task s))))) +
     match p with Ended => 0 | _ => length (mq (queue s)) + 1 end)%nat.
Proof. unfold messages_left, process_returned. destruct p; cbn; lia. Qed.

Lemma run_round_left t ev s : (messages_left (run_round t ev s) ≤ 2 * (Nat.b2n (negb (waiting (future (recv_stream_packets_task s)))) + Nat.b2n (negb (waiting (future (recv_datagrams_task s))))) + length (mq (queue s)) + 1)%nat.
Proof. unfold run_round. destruct (round t ev (process_state s)) as [st r]. rewrite set_process_left. cbn. destruct (settle _ _); lia. Qed.

Lemma recv_nearer s :
  rx_open (client_queue s) = true → mq (client_queue s) ≠ [] →
  ∃ s' r, recv s = Some (s', r) ∧ nearer s' s ∧ rx_open (client_queue s') = true.
Proof.
  intros Ho Hq. unfold recv. rewrite Ho. cbn [negb]. destruct (mq (client_queue s)) as [|[e|p] q] eqn:Hm; [done|..].
  - eexists _, _. split; [done|]. unfold cancel_tasks. cbn. destruct (handles s); (split; [|done]); right;
      (split; [done|]); unfold packets_left; cbn; rewrite Hm; cbn; lia.
  - eexists _, _. split; [done|]. split; [|done]. right. split; [done|]. unfold packets_left. cbn. rewrite Hm. cbn. lia.
Qed.

Lemma settle_left out r :
  (match settle out r with Delivering out _ => 4 * length out | Failing _ => 2 | _ => 0 end ≤ 4 * length out + 2)%nat.
Proof. destruct out, r as [[]| |]; cbn; try destruct ev_err; lia. Qed.

Lemma deliver_nearer s :
  capacity (client_queue s) = 16%nat → rx_open (client_queue s) = true → mq (client_queue s) = [] →
  match future (process_task s) with Delivering out _ => out ≠ [] | Failing _ => True | _ => False end →
  ∃ s', deliver s = Some s' ∧ nearer s' s ∧ rx_open (client_queue s') = true.
Proof.
  intros Hc Ho Hq Hp. unfold deliver. rewrite Ho. unfold has_room. rewrite bool_decide_true by (rewrite Hq, Hc; cbn; lia). cbn [negb].
  destruct (future (process_task s)) as [|[|p out] r|e|] eqn:Hf; try done; eexists; (split; [done|]);
    (split; [|by destruct out as [|??], r as [[]| |]; cbn; try destruct ev_err]) || (split; [|done]); unfold nearer; rewrite set_process_left.
  all: unfold messages_left, packets_left, process_returned; rewrite Hf, Hq; cbn -[settle Nat.mul].
  - pose proof (settle_left out r). destruct (settle out r); cbn -[Nat.mul] in *; rewrite ?length_app, ?Hq; cbn [length]; lia.
  - lia.
Qed.

Lemma act_nearer t r0 init obs s :
  pipeline_inv r0 init obs s → rx_open (client_queue s) = true →
  settled s ∨ ∃ a s' o, a ∈ internal t ∧ act a s = Some (s', o) ∧ nearer s' s ∧ rx_open (client_queue s') = true.
Proof.
  intros [[H1 H1'] [H2 H2'] (r & H3 & Hr) _ _ _ _ _] Ho.
  destruct (decide (mq (client_queue s) = [])) as [Hq|Hq]; last first.
  { destruct (recv_nearer s Ho Hq) as (s' & r' & Hrecv & Hn). right. exists Recv, s', (Received r'). split; [set_solver|].
    cbn [act]. by rewrite Hrecv. }
  assert (Hd : ∀ s', deliver s = Some s' ∧ nearer s' s ∧ rx_open (client_queue s') = true →
    ∃ a s' o, a ∈ internal t ∧ act a s = Some (s', o) ∧ nearer s' s ∧ rx_open (client_queue s') = true).
  { intros s' (Hs' & Hn). exists Deliver, s', Tau. split; [set_solver|]. cbn [act]. by rewrite Hs'. }
  destruct (future (process_task s)) as [|out r'|e|] eqn:Hf; cbn in Hr.
  - destruct (mq (queue s)) as [|ev q] eqn:Hm; last first.
    { right. eexists (Round t false), _, _. split; [set_solver|]. cbn [act]. unfold select_round. rewrite Hf, Hm. split; [done|].
      split; [left|].
      - pose proof (run_round_left t ev (with_queue (mpsc_pop (queue s)) s)) as Hl. cbn in Hl. rewrite Hm in Hl. cbn [tail] in Hl.
        eapply Nat.le_lt_trans; [exact Hl|]. unfold messages_left, process_returned. rewrite Hf, Hm. cbn [length negb Nat.b2n]. lia.
      - unfold run_round. destruct (round _ _ _). cbn. by destruct (settle _ _). }
    destruct (waiting (future (recv_stream_packets_task s))) eqn:Hw1; last first.
    { destruct (push_source_nearer _ (queue s) H1 ltac:(rewrite Hm; cbn; lia) Hw1) as (src & q & ev & Hp & Hw & Hl).
      right. eexists PushStream, _, _. split; [set_solver|]. cbn [act]. rewrite Hp. split; [done|]. split; [|done].
      left. unfold messages_left, process_returned. cbn -[Nat.mul]. rewrite Hw, Hw1. rewrite Hm in *. cbn -[Nat.mul] in *. lia. }
    destruct (waiting (future (recv_datagrams_task s))) eqn:Hw2; last first.
    { destruct (push_source_nearer _ (queue s) H1 ltac:(rewrite Hm; cbn; lia) Hw2) as (src & q & ev & Hp & Hw & Hl).
      right. eexists PushDatagram, _, _. split; [set_solver|]. cbn [act]. rewrite Hp. split; [done|]. split; [|done].
      left. unfold messages_left, process_returned. cbn -[Nat.mul]. rewrite Hw, Hw1, Hw2. rewrite Hm in *. cbn -[Nat.mul] in *. lia. }
    destruct (senders_gone s) eqn:Hg; [right|left; split; [done|right; done]].
    eexists (Round t false), _, _. split; [set_solver|]. cbn [act]. unfold select_round, run_round. rewrite Hf, Hm, Hg, round_end.
    rewrite drop_all. cbn [settle]. split; [done|]. split; [|done]. left. rewrite set_process_left.
    unfold messages_left, process_returned. cbn -[Nat.mul]. rewrite Hw1, Hw2, Hf. cbn. lia.
  - right. destruct Hr as [_ Hne]. destruct (deliver_nearer s H2 Ho Hq) as [s' Hs']; [by rewrite Hf|by eapply Hd].
  - right. destruct (deliver_nearer s H2 Ho Hq) as [s' Hs']; [by rewrite Hf|by eapply Hd].
  - left. split; [done|by left].
Qed.

Lemma exec_app acts1 acts2 s s1 s2 obs1 obs2 :
  exec acts1 s = Some (s1, obs1) → exec acts2 s1 = Some (s2, obs2) → exec (acts1 ++ acts2) s = Some (s2, obs1 ++ obs2).
Proof.
  revert s obs1. induction acts1 as [|a acts1 IH]; intros s obs1; cbn [exec app].
  { by intros [= -> <-]. }
  destruct (act a s) as [[s3 o]|]; [|done]. cbn [mbind option_bind].
  destruct (exec acts1 s3) as [[s4 obs4]|] eqn:He; [|done]. cbn [mbind option_bind]. intros [= -> <-] H2.
  by rewrite (IH _ _ He H2).
Qed.

(** From any state, internal actions alone settle the pipeline. *)
Lemma internal_settle t r0 init obs s :
  pipeline_inv r0 init obs s → rx_open (client_queue s) = true →
  ∃ acts s' obs', Forall (λ a, a ∈ internal t) acts ∧ exec acts s = Some (s', obs') ∧ settled s' ∧ rx_open (client_queue s') = true.
Proof.
  revert obs. induction (nearer_wf s) as [s _ IH]. intros obs Hinv Ho.
  destruct (act_nearer t _ _ _ _ Hinv Ho) as [Hs|(a & s1 & o & Ha & Hact & Hn & Ho1)].
  { exists [], s, []. done. }
  destruct (IH s1 Hn _ (act_inv _ _ _ _ _ _ _ Hinv Hact) Ho1) as (acts & s' & obs' & Hall & He & Hs & Ho').
  exists (a :: acts), s', (o :: obs'). cbn [exec]. rewrite Hact. cbn [mbind option_bind]. rewrite He. split_and!; try done. by constructor.
Qed.

(** *** What reached the client *)

(** C10: whatever the interleaving of the tasks with the network, the clock, the
    client and cancellation, the driver behaves as [process] alone on some
    sequence of events: the client has received a prefix of what these rounds
    send; the messages taken are an interleaving of a prefix of the packets of
    the stream and a prefix of the well-formed datagrams, each in order, then
    possibly the error of either reader; and neither queue ever holds more than
    its 16 items. *)
Theorem pipeline_refines_process stream init acts s obs :
  sent init = [] → exec acts (start stream init) = Some (s, obs) →
  (∃ r, run_rounds (rounds obs) init = (process_state s, r)) ∧
  received obs `prefix_of` sent (process_state s) ∧
  (∃ evs1 evs2, interleaves evs1 evs2 (taken obs) ∧ queued_of (λ ms, ∃ r, reads stream ms r) evs1 ∧
                queued_of (parses (datagrams_read obs)) evs2) ∧
  (length (mq (queue s)) ≤ 16)%nat ∧ (length (mq (client_queue s)) ≤ 16)%nat.
Proof.
  intros Hs He. destruct (driver_inv _ _ _ _ _ He) as [[_ H1] [_ H2] (r & H3 & _) (rest & H4 & _) (lost & H5 & _) _ H7 H8].
  split_and!; [by exists r| | |done|done].
  - rewrite H4, Hs. by eexists.
  - apply interleaves_prefix in H5 as (l1 & r1 & Hl & Hr & Hi). exists l1, r1. split; [done|].
    apply source_finish in H7 as (ms1 & t1 & Hm1 & Hp1 & Ht1). apply source_finish in H8 as (ms2 & t2 & Hm2 & Hp2 & Ht2).
    split; [exists ms1, t1|exists ms2, t2]; (split_and!; [|by etrans|done]); [done|by destruct Hm2].
Qed.

(** C20: the tasks never deadlock: from any state the driver can reach, as long
    as the client keeps it, finitely many actions of the tasks and calls of
    [recv], without any help of the network or of the clock, bring it to a point
    where the client has received everything [process] has sent and the
    driver is over or waits for the network. *)
Theorem pipeline_always_settles t stream init acts s obs :
  sent init = [] → exec acts (start stream init) = Some (s, obs) → rx_open (client_queue s) = true →
  ∃ acts' s' obs', Forall (λ a, a ∈ internal t) acts' ∧ exec acts' s = Some (s', obs') ∧ settled s' ∧
    (process_returned s' = false → received (obs ++ obs') = sent (process_state s')).
Proof.
  intros Hs He Ho. pose proof (driver_inv _ _ _ _ _ He) as Hinv.
  destruct (internal_settle t _ _ _ _ Hinv Ho) as (acts' & s' & obs' & Hall & He' & Hset & Ho').
  exists acts', s', obs'. split_and!; try done. intros Hret.
  destruct (exec_inv _ _ _ _ _ _ _ Hinv He') as [_ _ _ (rest & H4 & H4') _ _ _ _].
  destruct Hset as [Hq [Hend|[Hsel _]]]; [unfold process_returned in Hret; by rewrite Hend in Hret|].
  specialize (H4' Ho'). rewrite Hsel in H4'. cbn in H4'. by rewrite H4, Hs, Hq, H4', !app_nil_r.
Qed.
End Invariant.
