(* ===== verification/ReceiveErrors.v ===== *)
(** * Errors of the receiving tasks

    The drivers with FEC queue the error of a reader for [process], which
    returns it, and the driver hands it to its client.  Shows, for every
    interleaving of the tasks of [ReceiveTasks], that such a driver never lets
    its client see an end of the packets that is not preceded by an error, and
    that the error of a reader always gets through. *)

From stdpp Require Import prelude list strings.
From Stdlib Require Import ZArith Lia.
From S2P Require Import Prelude Io Av Packets Router ReceiveTasks.
Open Scope Z_scope.

Section Errors.
Context {Msg Event State Time : Type} `{D : ReceiveDriver Msg Event State Time} `{L : !ReceiveDriverLaws D}.
Context (err : ProtocolError → Event) `{F : !ForwardsErrors D err}.
Implicit Types (s : Pipeline (Event:=Event) (State:=State)) (obs : list (Obs (Event:=Event) (Time:=Time))).

(** [process] still goes on after the current round. *)
Definition going (p : Processing) : bool := match p with Selecting | Delivering _ (Ok true) => true | _ => false end.

(** A reader that is over has left its error in the queue. *)
Definition left_error {Src} (src : Source Src Event) (q : list Event) : Prop :=
  source_finished src = true → ∃ e, err e ∈ q.

Record live_inv (obs : list (Obs (Event:=Event) (Time:=Time))) (s : Pipeline (Event:=Event) (State:=State)) : Prop := {
  live_tasks : cancel_sent (recv_stream_packets_task s) = false ∧ cancel_sent (recv_datagrams_task s) = false ∧
               cancel_sent (process_task s) = false;
  live_sources : going (future (process_task s)) = true →
    left_error (future (recv_stream_packets_task s)) (mq (queue s)) ∧ left_error (future (recv_datagrams_task s)) (mq (queue s));
  live_process : match future (process_task s) with
                 | Delivering _ r => r ≠ Ok false
                 | Ended => ∃ e, inl e ∈ mq (client_queue s)
                 | _ => True
                 end;
  live_obs : Received (Ok None) ∉ obs;
}.

(** Either nothing has gone wrong for the client yet, or the client was told. *)
Definition reported (obs : list (Obs (Event:=Event) (Time:=Time))) (s : Pipeline (Event:=Event) (State:=State)) : Prop :=
  if handles s then live_inv obs s ∧ rx_open (client_queue s) = true
  else rx_open (client_queue s) = false ∧ Received (Ok None) ∉ obs ∨ ∃ e, Received (Err e) ∈ obs.

Lemma start_reported r0 init : reported [] (start r0 init).
Proof. split; [|done]. split; [done|done|done|set_solver]. Qed.

Lemma obs_snoc obs o : Received (Ok None) ∉ obs → o ≠ Received (Ok None) → Received (Ok None) ∉ obs ++ [o].
Proof. set_solver. Qed.

(** Once the handles are gone, they stay so. *)
Lemma gone_reported obs s s' o :
  handles s = false → handles s' = false → rx_open (client_queue s') = rx_open (client_queue s) →
  (rx_open (client_queue s) = false → o ≠ Received (Ok None)) → reported obs s → reported (obs ++ [o]) s'.
Proof.
  unfold reported. intros -> -> -> Ho [[Hc Hn]|[e He]]; [left; split; [done|apply obs_snoc; auto]|right; exists e; set_solver].
Qed.

(** A reader has read, or failed to. *)
Lemma after_read_left {Src} (r : outcome ProtocolError (Msg * Src)) q : r ≠ Panic → left_error (after_read r) q.
Proof. destruct r as [[]| |]; [done| |done]. cbn. by rewrite (forwards (err:=err)). Qed.

(** A reader has pushed to an open queue. *)
Lemma push_left {Src} H evs (src : Source Src Event) q src' q' ev :
  source_inv H evs src → rx_open q = true → push_source src q = Some (src', q', ev) →
  left_error src' (mq q') ∧ ∀ x, x ∈ mq q → x ∈ mq q'.
Proof.
  intros Hs Ho. unfold push_source. rewrite Ho. cbn [negb]. destruct src; try done; (destruct (has_room q); [|done]); intros [= <- <- <-].
  - split; [done|]. cbn. set_solver.
  - destruct Hs as (ms & x & err' & e & _ & _ & He & ->). rewrite (forwards (err:=err)) in He. injection He as <-.
    split; [|cbn; set_solver]. intros _. exists e. cbn. set_solver.
Qed.

(** The events queued are messages or errors, never the end. *)
Lemma queued_not_end r0 init obs s ev : pipeline_inv r0 init obs s → ev ∈ mq (queue s) → ev ≠ ev_end.
Proof.
  intros [_ _ _ _ (lost & H5 & _) _ H7 H8] Hev.
  assert (Hq : ∀ H evs, queued_of H evs → ev ∈ evs → ev ≠ ev_end).
  { intros H evs (ms & tl & _ & [k Hp] & Ht) He. assert (Hin : ev ∈ (ev_msg <$> ms) ++ tl) by (rewrite Hp; set_solver).
    apply elem_of_app in Hin as [(m & -> & _)%list_elem_of_fmap|Hin]; [apply msg_not_end|].
    destruct Ht as [->|(err' & e & He' & ->)]; [by apply not_elem_of_nil in Hin|]. apply list_elem_of_singleton in Hin as ->.
    rewrite (forwards (err:=err)) in He'. injection He' as <-. apply err_not_end. }
  apply (interleaves_elem _ _ _ ev) in H5. destruct (proj1 H5 ltac:(set_solver)) as [Hin|Hin].
  - exact (Hq _ _ (source_finish _ _ _ H7) Hin).
  - exact (Hq _ _ (source_finish _ _ _ H8) Hin).
Qed.

(** What a round makes of [process] when it neither panics nor ends *)
Lemma settle_live out r q :
  r ≠ Panic → r ≠ Ok false →
  match settle out r with
  | Delivering _ r => r ≠ Ok false
  | Ended => ∃ e : ProtocolError, inl e ∈ (q : list (ProtocolError + AVPacket))
  | _ => True
  end ∧ (going (settle out r) = true → r = Ok true).
Proof. intros Hp He. destruct out, r as [[]| |]; cbn; try done; by rewrite (forwards (err:=err)). Qed.

Lemma set_process_live obs p s :
  live_inv obs s → (going p = true → going (future (process_task s)) = true) →
  match p with Delivering _ r => r ≠ Ok false | Ended => ∃ e, inl e ∈ mq (client_queue s) | _ => True end →
  live_inv obs (set_process p s).
Proof. intros [H1 H2 H3 H4] Hg Hp. destruct p; split; cbn in *; try done; intros; apply H2; auto. Qed.

Section NoPanic.
Context (init : State) (no_panic : ∀ l, (run_rounds l init).2 ≠ Panic).

Lemma round_live r0 obs t woken s s' sel :
  pipeline_inv r0 init obs s → live_inv obs s → select_round t woken s = Some (s', sel) →
  live_inv (obs ++ [RoundOn t sel]) s' ∧ handles s' = handles s ∧ client_queue s' = client_queue s.
Proof.
  intros Hinv Hlive. pose proof Hinv as [_ _ (r & H3 & Hr) _ _ _ _ _]. unfold select_round.
  destruct (future (process_task s)) eqn:Hp; try done. cbn in Hr. subst r.
  assert (Hrr : ∀ sel q, event_of sel ≠ ev_end → (∀ e, err e ∈ mq (queue s) → err e ∈ mq q ∨ event_of sel = err e) →
    live_inv (obs ++ [RoundOn t sel]) (run_round t (event_of sel) (with_queue q s)) ∧
    handles (run_round t (event_of sel) (with_queue q s)) = handles s ∧
    client_queue (run_round t (event_of sel) (with_queue q s)) = client_queue s).
  { intros sel' q Hne Hq. unfold run_round. cbn [process_state with_queue].
    pose proof (run_rounds_snoc _ _ _ t (event_of sel') H3) as Hsnoc. pose proof (no_panic (rounds obs ++ [(t, event_of sel')])) as Hnp.
    rewrite Hsnoc in Hnp. pose proof (round_ends t (event_of sel') (process_state s)) as Hends.
    pose proof (λ e, round_err (D:=D) (err:=err) t e (process_state s)) as Herr.
    destruct (round t (event_of sel') (process_state s)) as [st r] eqn:Hround. cbn [snd] in *.
    destruct (settle_live (drop (length (sent (process_state s))) (sent st)) r (mq (client_queue s)) Hnp ltac:(auto)) as [Hl Hg].
    split; [|by destruct (settle _ _)]. destruct Hlive as [H1' H2' H3' H4'].
    assert (Hgo : going (settle (drop (length (sent (process_state s))) (sent st)) r) = true →
      left_error (future (recv_stream_packets_task s)) (mq q) ∧ left_error (future (recv_datagrams_task s)) (mq q)).
    { intros Hgoing. rewrite Hp in H2'. destruct (H2' eq_refl) as [Ha Hb]. specialize (Hg Hgoing). subst r.
      split; [intros [e He]%Ha|intros [e He]%Hb]; (destruct (Hq e He) as [|Heq]; [by exists e|]);
        specialize (Herr e); rewrite <- Heq, Hround in Herr; done. }
    destruct (settle _ _); split; cbn in *; try done; try (by apply Hgo); by apply obs_snoc. }
  assert (Hs : s = with_queue (queue s) s) by by destruct s.
  destruct woken; [|destruct (mq (queue s)) as [|ev q] eqn:Hq].
  - destruct (wakes t (process_state s)); [|done]. intros [= <- <-]. rewrite Hs at 2 4 5. apply (Hrr Woken); [apply deadline_not_end|]. auto.
  - destruct (senders_gone s) eqn:Hg; [|done]. exfalso. unfold senders_gone in Hg. apply andb_prop in Hg as [Hg _].
    destruct Hlive as [_ H2 _ _]. rewrite Hp, Hq in H2. destruct (H2 eq_refl) as [Hl _]. destruct (Hl Hg) as [e He]. by apply not_elem_of_nil in He.
  - intros [= <- <-]. apply (Hrr (Message ev)).
    + eapply queued_not_end; [done|]. rewrite Hq. set_solver.
    + intros e He. cbn. rewrite Hq. cbn. apply elem_of_cons in He as [<-|He]; auto.
Qed.

Lemma live_tau obs s : live_inv obs s → live_inv (obs ++ [Tau]) s.
Proof. intros [H1 H2 H3 H4]. split; try done. by apply obs_snoc. Qed.

Lemma deliver_live r0 obs s s' :
  pipeline_inv r0 init obs s → live_inv obs s → rx_open (client_queue s) = true → deliver s = Some s' →
  live_inv obs s' ∧ handles s' = handles s ∧ rx_open (client_queue s') = true.
Proof.
  intros [_ _ (r & H3 & Hr) _ _ _ _ _] Hlive Ho. unfold deliver. rewrite Ho. cbn [negb]. pose proof (no_panic (rounds obs)) as Hnp.
  rewrite H3 in Hnp. cbn [snd] in Hnp. pose proof Hlive as [H1 H2 Hp H4].
  destruct (future (process_task s)) as [|[|p out] r'|e|] eqn:Hf; try done;
    (destruct (has_room _); [|done]); intros Heq; apply (inj Some) in Heq as <-.
  - destruct Hr as [-> _]. destruct (settle_live out r (mq (client_queue s) ++ [inr p]) Hnp Hp) as [Hl Hg].
    split; [|by destruct (settle out r)]. apply set_process_live; [|cbn; rewrite Hf|done].
    + split; cbn; rewrite ?Hf; done.
    + intros Hgo. by rewrite (Hg Hgo).
  - split; [|done]. apply set_process_live; [|done|cbn; exists e; set_solver]. split; cbn; rewrite ?Hf; done.
Qed.

Lemma recv_reported obs s s' r :
  live_inv obs s → rx_open (client_queue s) = true → handles s = true → recv s = Some (s', r) → reported (obs ++ [Received r]) s'.
Proof.
  intros [H1 H2 H3 H4] Ho Hh. unfold recv. rewrite Ho. cbn [negb].
  destruct (mq (client_queue s)) as [|[e|p] q] eqn:Hq.
  - unfold process_returned. destruct (future (process_task s)); try done. destruct H3 as [e He]. by apply not_elem_of_nil in He.
  - intros [= <- <-]. unfold cancel_tasks. cbn. rewrite Hh. unfold reported. cbn. right. exists e. set_solver.
  - intros [= <- <-]. unfold reported. cbn. rewrite Hh. split; [|done]. split; cbn; try done; [|by apply obs_snoc].
    destruct (future (process_task s)); try done. rewrite Hq. cbn. destruct H3 as [e He]. apply elem_of_cons in He as [?|?]; [done|by exists e].
Qed.

(** Nothing but the handling of the client changes the handles. *)
Lemma set_process_frame p s : handles (set_process p s) = handles s ∧ client_queue (set_process p s) = client_queue s.
Proof. by destruct p. Qed.

Lemma run_round_frame t ev s : handles (run_round t ev s) = handles s ∧ client_queue (run_round t ev s) = client_queue s.
Proof. unfold run_round. destruct (round _ _ _). by edestruct set_process_frame as [-> ->]. Qed.

Lemma act_handles a s s' o :
  act a s = Some (s', o) → handles s = false →
  handles s' = false ∧ (rx_open (client_queue s') = rx_open (client_queue s) ∨ rx_open (client_queue s') = false ∧ o = Tau).
Proof.
  intros Ha Hh. destruct a; cbn [act] in Ha.
  - unfold read_stream in Ha. destruct (future (recv_stream_packets_task s)); try done. injection Ha as <- <-. auto.
  - unfold read_datagram in Ha. destruct (future (recv_datagrams_task s)); try done. injection Ha as <- <-. auto.
  - destruct (push_source _ _) as [[[]]|]; [|done]. injection Ha as <- <-. auto.
  - destruct (push_source _ _) as [[[]]|]; [|done]. injection Ha as <- <-. auto.
  - destruct (select_round t woken s) as [[s1 sel]|] eqn:Hr; [|done]. injection Ha as <- <-. unfold select_round in Hr.
    repeat (case_match; try done); apply (inj Some) in Hr; apply pair_eq in Hr as [<- _]; edestruct run_round_frame as [-> ->]; auto.
  - destruct (deliver s) as [s1|] eqn:Hr; [|done]. injection Ha as <- <-. unfold deliver in Hr.
    repeat (case_match; try done); apply (inj Some) in Hr as <-;
      edestruct set_process_frame as [-> ->]; auto.
  - unfold recv in Ha. repeat (case_match; try done); unfold cancel_tasks in Ha; cbn in Ha; rewrite ?Hh in Ha; injection Ha as <- <-; auto.
  - destruct (interrupt _ _); [|done]. injection Ha as <- <-. auto.
  - destruct (interrupt _ _); [|done]. injection Ha as <- <-. auto.
  - destruct (interrupt _ _); [|done]. injection Ha as <- <-. auto.
  - unfold drop_driver, cancel_tasks in Ha. rewrite Hh in Ha. case_match; [done|]. injection Ha as <- <-. auto.
Qed.

Lemma act_received a s s' r : act a s = Some (s', Received r) → recv s = Some (s', r).
Proof.
  destruct a; cbn [act]; try (destruct (recv s) as [[]|]; [by intros [= -> ->]|done]).
  - by destruct (read_stream s).
  - destruct (read_datagram d s); [|done]. destruct d as [|b]; [done|]. cbn. by destruct (msg_parse b).
  - destruct (push_source _ _) as [[[? ?] [|]]|]; done.
  - destruct (push_source _ _) as [[[? ?] [|]]|]; done.
  - by destruct (select_round t woken s) as [[]|].
  - by destruct (deliver s).
  - by destruct (interrupt _ _).
  - by destruct (interrupt _ _).
  - by destruct (interrupt _ _).
  - by destruct (drop_driver s).
Qed.

Lemma act_reported r0 obs a s s' o :
  pipeline_inv r0 init obs s → reported obs s → act a s = Some (s', o) → reported (obs ++ [o]) s'.
Proof.
  intros Hinv Hrep Ha. unfold reported in Hrep. destruct (handles s) eqn:Hh; last first.
  { destruct (act_handles _ _ _ _ Ha Hh) as [Hh' Ho]. unfold reported. rewrite Hh'. destruct Hrep as [[Hc Hn]|[e He]]; [|right; exists e; set_solver].
    left. split; [destruct Ho as [->|[-> _]]; done|]. apply obs_snoc; [done|]. intros ->. apply act_received in Ha. unfold recv in Ha. by rewrite Hc in Ha. }
  destruct Hrep as [Hlive Ho]. pose proof Hlive as [(Hc1 & Hc2 & Hc3) H2 H3 H4]. pose proof Hinv as [_ _ _ _ _ Hopen H7 H8].
  destruct a; cbn [act] in Ha.
  - unfold read_stream in Ha. destruct (future (recv_stream_packets_task s)) as [r| | |] eqn:Hf; [|done..]. injection Ha as <- <-.
    unfold reported. cbn. rewrite Hh. split; [|done]. apply live_tau. split; cbn; try done. intros Hg. destruct (H2 Hg) as [_ Hl].
    split; [|done]. apply after_read_left, read_no_panic.
  - unfold read_datagram in Ha. destruct (future (recv_datagrams_task s)) as [r| | |] eqn:Hf; [|done..]. injection Ha as <- <-.
    unfold reported. cbn. rewrite Hh. split; [|done]. split; cbn; try done; [|by apply obs_snoc; [|repeat case_match]].
    intros Hg. destruct (H2 Hg) as [Hl _]. split; [done|]. apply after_read_left. destruct d as [e|b]; [done|].
    pose proof (parse_no_panic (D:=D) (err:=err) b). by destruct (msg_parse b).
  - destruct (push_source _ _) as [[[src q] ev]|] eqn:Hp; [|done]. injection Ha as <- <-.
    unfold reported. cbn. rewrite Hh. split; [|done]. split; cbn; try done; [|apply obs_snoc; [done|by destruct ev]].
    intros Hg. destruct (H2 Hg) as [_ Hl]. assert (Hq : rx_open (queue s) = true) by by rewrite Hopen; unfold process_returned; destruct (future (process_task s)).
    destruct (push_left _ _ _ _ _ _ _ H7 Hq Hp) as [Hl' Hin]. split; [done|]. intros [e He]%Hl. exists e. by apply Hin.
  - destruct (push_source _ _) as [[[src q] ev]|] eqn:Hp; [|done]. injection Ha as <- <-.
    unfold reported. cbn. rewrite Hh. split; [|done]. split; cbn; try done; [|apply obs_snoc; [done|by destruct ev]].
    intros Hg. destruct (H2 Hg) as [Hl _]. assert (Hq : rx_open (queue s) = true) by by rewrite Hopen; unfold process_returned; destruct (future (process_task s)).
    destruct (push_left _ _ _ _ _ _ _ H8 Hq Hp) as [Hl' Hin]. split; [|done]. intros [e He]%Hl. exists e. by apply Hin.
  - destruct (select_round t woken s) as [[s1 sel]|] eqn:Hr; [|done]. injection Ha as <- <-.
    destruct (round_live _ _ _ _ _ _ _ Hinv Hlive Hr) as (Hl & Hh' & Hc'). unfold reported. by rewrite Hh', Hh, Hc'.
  - destruct (deliver s) as [s1|] eqn:Hr; [|done]. injection Ha as <- <-.
    destruct (deliver_live _ _ _ _ Hinv Hlive Ho Hr) as (Hl & Hh' & Hc'). unfold reported. rewrite Hh', Hh. split; [by apply live_tau|done].
  - destruct (recv s) as [[s1 r]|] eqn:Hr; [|done]. injection Ha as <- <-. by eapply recv_reported.
  - unfold interrupt in Ha. by rewrite Hc1 in Ha.
  - unfold interrupt in Ha. by rewrite Hc2 in Ha.
  - unfold interrupt in Ha. by rewrite Hc3 in Ha.
  - unfold drop_driver, cancel_tasks in Ha. rewrite Ho, Hh in Ha. injection Ha as <- <-. unfold reported. cbn. left. split; [done|by apply obs_snoc].
Qed.

Lemma exec_reported r0 acts obs s s' obs' :
  pipeline_inv r0 init obs s → reported obs s → exec acts s = Some (s', obs') → reported (obs ++ obs') s'.
Proof.
  revert obs s obs'. induction acts as [|a acts IH]; intros obs s obs' Hinv Hrep; cbn [exec].
  { intros [= <- <-]. by rewrite app_nil_r. }
  destruct (act a s) as [[s1 o]|] eqn:Ha; [|done]. cbn [mbind option_bind].
  destruct (exec acts s1) as [[s2 obs2]|] eqn:He; [|done]. cbn [mbind option_bind]. intros [= <- <-].
  replace (obs ++ o :: obs2) with ((obs ++ [o]) ++ obs2) by by rewrite <- app_assoc.
  eapply IH; [by eapply act_inv|by eapply act_reported|done].
Qed.

(** A driver that queues the errors of its readers never shows its client a
    clean end of the packets: [recv] returns [None] only after it has returned
    an error. *)
Lemma end_only_after_error stream acts s obs :
  exec acts (start stream init) = Some (s, obs) → Received (Ok None) ∈ obs → ∃ e, Received (Err e) ∈ obs.
Proof.
  intros He Hin. pose proof (exec_reported stream _ [] _ _ _ (start_inv stream init) (start_reported stream init) He) as Hrep.
  unfold reported in Hrep. cbn [app] in Hrep. destruct (handles s); [destruct Hrep as [[_ _ _ Hn] _]; done|].
  destruct Hrep as [[_ Hn]|He']; done.
Qed.

(** A reader that is over: in its last [send], or finished *)
Definition over {Src} (src : Source Src Event) : bool := match src with Reporting _ | Finished => true | _ => false end.

Definition reader_over (s : Pipeline (Event:=Event) (State:=State)) : bool :=
  over (future (recv_stream_packets_task s)) || over (future (recv_datagrams_task s)).

Lemma push_over {Src} (src src' : Source Src Event) q q' ev : push_source src q = Some (src', q', ev) → over src = true → over src' = true.
Proof. unfold push_source. destruct src; try done. intros H _. repeat case_match; try done; by injection H as <- _ _. Qed.

(** Both readers as they were *)
Definition same_readers s s' : Prop :=
  recv_stream_packets_task s' = recv_stream_packets_task s ∧ recv_datagrams_task s' = recv_datagrams_task s.

Lemma set_process_readers p s : same_readers s (set_process p s).
Proof. by destruct p. Qed.

Lemma run_round_readers t ev s : same_readers s (run_round t ev s).
Proof. unfold run_round. destruct (round _ _ _) as [st r]. by destruct (set_process_readers (settle (drop (length (sent (process_state s))) (sent st)) r) (with_state st s)). Qed.

Lemma internal_over t a s s' o : a ∈ internal t → act a s = Some (s', o) → reader_over s = true → reader_over s' = true.
Proof.
  assert (Hsame : ∀ s1, same_readers s s1 → reader_over s = true → reader_over s1 = true).
  { intros s1 [H1 H2]. unfold reader_over. by rewrite H1, H2. }
  unfold internal. rewrite !elem_of_cons, elem_of_nil. intros [->|[->|[->|[->|[->|[]]]]]] Ha Hover; cbn [act] in Ha.
  - destruct (push_source _ _) as [[[src q] ev]|] eqn:Hp; [|done]. injection Ha as <- <-. unfold reader_over in *. cbn.
    apply orb_true_iff in Hover as [Ho| ->]; [by rewrite (push_over _ _ _ _ _ Hp Ho)|apply orb_true_r].
  - destruct (push_source _ _) as [[[src q] ev]|] eqn:Hp; [|done]. injection Ha as <- <-. unfold reader_over in *. cbn.
    apply orb_true_iff in Hover as [->|Ho]; [done|]. rewrite (push_over _ _ _ _ _ Hp Ho). apply orb_true_r.
  - destruct (select_round t false s) as [[s1 sel]|] eqn:Hr; [|done]. injection Ha as <- <-. unfold select_round in Hr.
    repeat (case_match; try done); apply (inj Some), pair_eq in Hr as [<- _]; (apply Hsame; [|done]).
    + apply run_round_readers.
    + by destruct (run_round_readers t e (with_queue (mpsc_pop (queue s)) s)).
  - destruct (deliver s) as [s1|] eqn:Hr; [|done]. injection Ha as <- <-. unfold deliver in Hr.
    repeat (case_match; try done); apply (inj Some) in Hr as <-; (apply Hsame; [|done]);
      match goal with |- same_readers _ (set_process ?p ?s0) => by destruct (set_process_readers p s0) end.
  - destruct (recv s) as [[s1 r]|] eqn:Hr; [|done]. injection Ha as <- <-. unfold recv, cancel_tasks in Hr.
    repeat (case_match; try done); apply (inj Some), pair_eq in Hr as [<- _]; done.
Qed.

Lemma exec_internal_over t acts s s' obs :
  Forall (λ a, a ∈ internal t) acts → exec acts s = Some (s', obs) → reader_over s = true → reader_over s' = true.
Proof.
  intros Hall. revert s obs. induction Hall as [|a acts Ha Hall IH]; intros s obs; cbn [exec].
  { by intros [= <- _]. }
  destruct (act a s) as [[s1 o]|] eqn:Hact; [|done]. cbn [mbind option_bind].
  destruct (exec acts s1) as [[s2 obs2]|] eqn:He; [|done]. intros [= <- _] Ho. eapply IH; [done|]. by eapply internal_over.
Qed.

(** C19: the error of a reader always gets through: once a reader is over, the
    tasks and the client's calls of [recv] alone bring an error to the client,
    whatever is still queued before it. *)
Theorem reader_error_reaches_client t stream acts s obs :
  exec acts (start stream init) = Some (s, obs) → rx_open (client_queue s) = true → reader_over s = true →
  ∃ acts' s' obs', Forall (λ a, a ∈ internal t) acts' ∧ exec acts' s = Some (s', obs') ∧ ∃ e, Received (Err e) ∈ obs ++ obs'.
Proof.
  intros He Ho Hover. pose proof (driver_inv _ _ _ _ _ He) as Hinv.
  pose proof (exec_reported stream _ [] _ _ _ (start_inv stream init) (start_reported stream init) He) as Hrep. cbn [app] in Hrep.
  destruct (internal_settle t _ _ _ _ Hinv Ho) as (acts' & s' & obs' & Hall & He' & [Hq Hset] & Ho').
  exists acts', s', obs'. split; [done|]. split; [done|].
  pose proof (exec_reported _ _ _ _ _ _ Hinv Hrep He') as Hrep'. pose proof (exec_internal_over _ _ _ _ _ Hall He' Hover) as Hover'.
  unfold reported in Hrep'. destruct (handles s'); last first.
  { destruct Hrep' as [[Hc _]|He'']; [by rewrite Ho' in Hc|done]. }
  exfalso. destruct Hrep' as [[_ H2 H3 _] _]. destruct Hset as [Hend|(Hsel & Hmq & Hg & Hw1 & Hw2)].
  - rewrite Hend, Hq in H3. destruct H3 as [e Hin]. by apply not_elem_of_nil in Hin.
  - rewrite Hsel, Hmq in H2. destruct (H2 eq_refl) as [Ha Hb]. apply orb_true_iff in Hover' as [Hx|Hx].
    + destruct Ha as [e Hin]; [by destruct (future (recv_stream_packets_task s'))|]. by apply not_elem_of_nil in Hin.
    + destruct Hb as [e Hin]; [by destruct (future (recv_datagrams_task s'))|]. by apply not_elem_of_nil in Hin.
Qed.
End NoPanic.
End Errors.

(** ** Drivers that only log their errors *)

Section Silent.
Context {Msg Event State Time : Type} `{D : ReceiveDriver Msg Event State Time}.
Context (silent : ev_err = None).
Implicit Types (s : Pipeline (Event:=Event) (State:=State)) (obs : list (Obs (Event:=Event) (Time:=Time))).

(** No error is on its way to the client. *)
Definition quiet s : Prop :=
  (∀ e, inl e ∉ mq (client_queue s)) ∧ match future (process_task s) with Failing _ => False | _ => True end.

Lemma set_process_quiet p s : (∀ e, inl e ∉ mq (client_queue s)) → match p with Failing _ => False | _ => True end → quiet (set_process p s).
Proof. intros Hq Hp. by destruct p. Qed.

Lemma settle_quiet out r : match settle out r with Failing _ => False | _ => True end.
Proof. destruct out, r as [[]| |]; cbn; try done. by rewrite silent. Qed.

Lemma run_round_quiet t ev s : quiet s → quiet (run_round t ev s).
Proof. intros [Hq _]. unfold run_round. destruct (round _ _ _). apply set_process_quiet; [done|apply settle_quiet]. Qed.

Lemma act_quiet a s s' o : quiet s → act a s = Some (s', o) → quiet s' ∧ ∀ e, o ≠ Received (Err e).
Proof.
  intros Hquiet Ha. pose proof Hquiet as [Hq Hp]. destruct a; cbn [act] in Ha.
  - unfold read_stream in Ha. destruct (future (recv_stream_packets_task s)); try done. by injection Ha as <- <-.
  - unfold read_datagram in Ha. destruct (future (recv_datagrams_task s)); try done. injection Ha as <- <-. split; [done|]. destruct d as [|b]; [done|]. by destruct (msg_parse b).
  - destruct (push_source _ _) as [[[? ?] []]|]; [..|done]; by injection Ha as <- <-.
  - destruct (push_source _ _) as [[[? ?] []]|]; [..|done]; by injection Ha as <- <-.
  - destruct (select_round t woken s) as [[s1 sel]|] eqn:Hr; [|done]. injection Ha as <- <-. split; [|done]. unfold select_round in Hr.
    repeat (case_match; try done); apply (inj Some), pair_eq in Hr as [<- _]; by apply run_round_quiet.
  - destruct (deliver s) as [s1|] eqn:Hr; [|done]. injection Ha as <- <-. split; [|done]. unfold deliver in Hr.
    repeat (case_match; try done); apply (inj Some) in Hr as <-; apply set_process_quiet; try done; [|apply settle_quiet].
    cbn. intros e. rewrite elem_of_app. intros [?|?%list_elem_of_singleton]; [by eapply Hq|done].
  - unfold recv in Ha. destruct (rx_open (client_queue s)); [|done]. cbn [negb] in Ha.
    destruct (mq (client_queue s)) as [|[e|p] q] eqn:Hm; [|exfalso; apply (Hq e); set_solver|].
    + destruct (process_returned s); [|done]. injection Ha as <- <-. split; [|done]. split; [by rewrite Hm|done].
    + injection Ha as <- <-. split; [|done]. split; [|done]. cbn. rewrite Hm. cbn. set_solver.
  - destruct (interrupt _ _); [|done]. by injection Ha as <- <-.
  - destruct (interrupt _ _); [|done]. by injection Ha as <- <-.
  - destruct (interrupt _ _); [|done]. cbn [mbind option_bind] in Ha. apply (inj Some), pair_eq in Ha as [<- <-]. split; [|done]. by apply set_process_quiet.
  - unfold drop_driver, cancel_tasks in Ha. destruct (rx_open (client_queue s)); [|done]. cbn [negb] in Ha.
    destruct (handles s); injection Ha as <- <-; (split; [|done]); (split; [cbn; set_solver|done]).
Qed.

(** The task of the datagrams is over: no datagram is read nor passed on any more. *)
Lemma act_finished a s s' o :
  future (recv_datagrams_task s) = Finished → act a s = Some (s', o) →
  future (recv_datagrams_task s') = Finished ∧ (∀ b, o ≠ Datagram b) ∧ (∀ ev, o ≠ PushedDatagram ev).
Proof.
  intros Hf Ha. destruct a; cbn [act] in Ha.
  - unfold read_stream in Ha. destruct (future (recv_stream_packets_task s)); try done. by injection Ha as <- <-.
  - unfold read_datagram in Ha. by rewrite Hf in Ha.
  - destruct (push_source _ _) as [[[? ?] []]|]; [..|done]; by injection Ha as <- <-.
  - by rewrite Hf in Ha.
  - destruct (select_round t woken s) as [[s1 sel]|] eqn:Hr; [|done]. injection Ha as <- <-. split; [|done]. unfold select_round in Hr.
    repeat (case_match; try done); apply (inj Some), pair_eq in Hr as [<- _]; match goal with |- context [run_round ?t ?ev ?s0] => by destruct (run_round_readers t ev s0) as [_ ->] end.
  - destruct (deliver s) as [s1|] eqn:Hr; [|done]. injection Ha as <- <-. split; [|done]. unfold deliver in Hr.
    repeat (case_match; try done); apply (inj Some) in Hr as <-; match goal with |- context [set_process ?p ?s0] => by destruct (set_process_readers p s0) as [_ ->] end.
  - destruct (recv s) as [[s1 r]|] eqn:Hr; [|done]. injection Ha as <- <-. split; [|done]. unfold recv, cancel_tasks in Hr.
    repeat (case_match; try done); apply (inj Some), pair_eq in Hr as [<- _]; done.
  - destruct (interrupt _ _); [|done]. by injection Ha as <- <-.
  - unfold interrupt in Ha. destruct (cancel_sent _); [|done]. by injection Ha as <- <-.
  - destruct (interrupt _ _); [|done]. cbn [mbind option_bind] in Ha. apply (inj Some), pair_eq in Ha as [<- <-]. done.
  - unfold drop_driver, cancel_tasks in Ha. destruct (rx_open (client_queue s)); [|done]. cbn [negb] in Ha.
    destruct (handles s); by injection Ha as <- <-.
Qed.

Lemma exec_silenced acts s s' obs :
  quiet s → future (recv_datagrams_task s) = Finished → exec acts s = Some (s', obs) →
  datagrams_read obs = [] ∧ datagrams_pushed obs = [] ∧ ∀ e, Received (Err e) ∉ obs.
Proof.
  revert s obs. induction acts as [|a acts IH]; intros s obs Hq Hf; cbn [exec]; [intros [= _ <-]; split_and!; [done|done|set_solver]|].
  destruct (act a s) as [[s1 o]|] eqn:Ha; [|done]. cbn [mbind option_bind].
  destruct (exec acts s1) as [[s2 obs2]|] eqn:He; [|done]. cbn [mbind option_bind]. intros [= <- <-].
  destruct (act_quiet _ _ _ _ Hq Ha) as [Hq1 Ho]. destruct (act_finished _ _ _ _ Hf Ha) as (Hf1 & Hd & Hp).
  destruct (IH _ _ Hq1 Hf1 He) as (H1 & H2 & H3). split_and!.
  - unfold datagrams_read in *. cbn. rewrite H1. destruct o; try done. by destruct (Hd b).
  - unfold datagrams_pushed in *. cbn. rewrite H2. destruct o; try done. by destruct (Hp ev).
  - intros e [Heq|Hin]%elem_of_cons; [by destruct (Ho e)|by eapply H3].
Qed.

Lemma exec_quiet acts s s' obs : quiet s → exec acts s = Some (s', obs) → quiet s'.
Proof.
  revert s obs. induction acts as [|a acts IH]; intros s obs Hq; cbn [exec]; [by intros [= <- _]|].
  destruct (act a s) as [[s1 o]|] eqn:Ha; [|done]. cbn [mbind option_bind].
  destruct (exec acts s1) as [[s2 obs2]|] eqn:He; [|done]. cbn [mbind option_bind]. intros [= <- _].
  eapply IH; [by eapply act_quiet|done].
Qed.

Lemma start_quiet r0 init : quiet (start r0 init).
Proof. split; [|done]. intros e He. by apply not_elem_of_nil in He. Qed.
End Silent.
