(* ===== verification/ControlLifetime.v ===== *)
(** * The life of the control stream

    Models the rest of [kyproto/src/control.rs]: the two tasks that
    [Control::start] spawns, the calls that wait on a oneshot channel, and
    [impl Drop for Control].  The state is shared by the [Control] and by the
    task of [recv_msgs]; it holds the sending ends of the channels, so that a wait
    ends when it is answered or when the last owner of the state is gone. *)

From stdpp Require Import prelude list gmap strings.
From Stdlib Require Import ZArith Lia.
From S2P Require Import Prelude Io Packets ReceiveTasks Control.
Open Scope Z_scope.

(** ** State *)

(** Who waits on a channel: a call of [register_endpoint], or a notifier, on
    which [ready] may have been called *)
Inductive Waiter := WAck (endpoint_id : Z) | WNotifier (endpoint_id : Z) (called : bool).

Record ControlLife := {
  cl_ctl : Control;
  cl_alive : bool;                  (* the [Control] has not been dropped *)
  rx_task : Task (option Reader);   (* [recv_msgs] with what it has to read, until it ends *)
  tx_task : Task (option Writer);   (* [send_msgs] with its stream, until it ends *)
  waiters : gmap nat Waiter;        (* by the channel they wait on *)
}.

(** [Control::start] *)
Definition life_of_control (stream_tx : Writer) (stream_rx : Reader) : ControlLife :=
  {| cl_ctl := control_start; cl_alive := true; rx_task := spawn_task (Some stream_rx); tx_task := spawn_task (Some stream_tx); waiters := ∅ |}.

Definition with_ctl (c : Control) (s : ControlLife) : ControlLife :=
  {| cl_ctl := c; cl_alive := cl_alive s; rx_task := rx_task s; tx_task := tx_task s; waiters := waiters s |}.
Definition with_rx (t : Task (option Reader)) (s : ControlLife) : ControlLife :=
  {| cl_ctl := cl_ctl s; cl_alive := cl_alive s; rx_task := t; tx_task := tx_task s; waiters := waiters s |}.
Definition with_tx (t : Task (option Writer)) (s : ControlLife) : ControlLife :=
  {| cl_ctl := cl_ctl s; cl_alive := cl_alive s; rx_task := rx_task s; tx_task := t; waiters := waiters s |}.
Definition with_waiters (m : gmap nat Waiter) (s : ControlLife) : ControlLife :=
  {| cl_ctl := cl_ctl s; cl_alive := cl_alive s; rx_task := rx_task s; tx_task := tx_task s; waiters := m |}.

Definition is_over {A} (t : Task (option A)) : bool := match future t with None => true | Some _ => false end.

(** The state is shared by the [Control] and by [recv_msgs]. *)
Definition state_alive (s : ControlLife) : bool := cl_alive s || negb (is_over (rx_task s)).

(** A sending end of channel [rx] is in the state. *)
Definition has_sender (rx : nat) (c : Control) : bool :=
  existsb (λ '(_, tx), (tx =? rx)%nat) (map_to_list (pending_register_ack c)) ||
  existsb (λ '(_, p), match p with AwaitingRemote tx => (tx =? rx)%nat | AwaitingLocal => false end) (map_to_list (pending_ready c)).

(** [rx.await]: [None] while it waits *)
Definition await_poll (rx : nat) (s : ControlLife) : option (outcome ControlError unit) :=
  match oneshots (cl_ctl s) !! rx with
  | Some Sent => Some (Ok tt)
  | Some Waiting => if state_alive s && has_sender rx (cl_ctl s) then None else Some (Err ReceiverClosed)
  | _ => None
  end.

(** ** Operations *)

(** [register_endpoint]: when the message cannot be queued, the call returns and its receiver is dropped. *)
Definition call_register (endpoint_id : Z) (s : ControlLife) : ControlLife :=
  match register_endpoint endpoint_id (cl_ctl s) with
  | (c, Ok rx) => with_waiters (<[rx := WAck endpoint_id]> (waiters s)) (with_ctl c s)
  | (c, _) => with_ctl (drop_oneshot (length (oneshots (cl_ctl s))) c) s
  end.

(** [register_ready_notifier] *)
Definition call_notifier (endpoint_id : Z) (s : ControlLife) : ControlLife :=
  match register_ready_notifier endpoint_id (cl_ctl s) with
  | (c, Ok n) => with_waiters (<[rn_rx n := WNotifier endpoint_id false]> (waiters s)) (with_ctl c s)
  | (c, _) => with_ctl c s
  end.

(** A call returns, or its future or the notifier is dropped. *)
Definition forget (rx : nat) (s : ControlLife) : ControlLife :=
  with_waiters (delete rx (waiters s)) (with_ctl (drop_oneshot rx (cl_ctl s)) s).

(** [ReadyNotifier::ready], up to its wait; when it fails the notifier is gone. *)
Definition call_ready (endpoint_id : Z) (rx : nat) (s : ControlLife) : ControlLife :=
  match ready {| rn_endpoint_id := endpoint_id; rn_rx := rx |} (cl_ctl s) with
  | (c, Ok _) => with_waiters (<[rx := WNotifier endpoint_id true]> (waiters s)) (with_ctl c s)
  | (c, _) => forget rx (with_ctl c s)
  end.

(** The end of [send_msgs] drops the receiver of the queue, with what is in it. *)
Definition close_queue (c : Control) : Control :=
  {| pending_register_ack := pending_register_ack c; pending_connect := pending_connect c; pending_ready := pending_ready c;
     control_tx := []; tx_open := false; oneshots := oneshots c |}.

(** Somebody can still send to the queue: the [Control], [recv_msgs], or a notifier *)
Definition queue_has_sender (s : ControlLife) : bool :=
  cl_alive s || negb (is_over (rx_task s)) ||
  existsb (λ '(_, w), match w with WNotifier _ _ => true | WAck _ => false end) (map_to_list (waiters s)).

Section Tasks.
Context `{RmpSerde}.

(** A turn of [recv_msgs]: an error of [handle_msg] is logged. *)
Definition rx_turn (s : ControlLife) : option ControlLife :=
  r ← future (rx_task s);
  Some match recv_msg r with
       | Ok (Some msg, r) =>
           match handle_msg msg (cl_ctl s) with
           | (c, Panic) => with_rx (progress None (rx_task s)) (with_ctl c s)
           | (c, _) => with_rx (progress (Some r) (rx_task s)) (with_ctl c s)
           end
       | _ => with_rx (progress None (rx_task s)) s
       end.

(** A turn of [send_msgs]; [None] while it waits for a message *)
Definition tx_turn (s : ControlLife) : option ControlLife :=
  w ← future (tx_task s);
  match control_tx (cl_ctl s) with
  | m :: q =>
      Some match send_msg m w with
           | (w, Ok _) => with_tx (progress (Some w) (tx_task s)) (with_ctl (set_tx q (cl_ctl s)) s)
           | _ => with_tx (progress None (tx_task s)) (with_ctl (close_queue (cl_ctl s)) s)
           end
  | [] => if queue_has_sender s then None else Some (with_tx (progress None (tx_task s)) (with_ctl (close_queue (cl_ctl s)) s))
  end.

(** The cancelled tasks end. *)
Definition rx_interrupt (s : ControlLife) : option ControlLife := t ← interrupt None (rx_task s); Some (with_rx t s).
Definition tx_interrupt (s : ControlLife) : option ControlLife :=
  t ← interrupt None (tx_task s); Some (with_tx t (with_ctl (close_queue (cl_ctl s)) s)).

(** [impl Drop for Control], with the names of the tasks it finds already stopped *)
Definition drop_control (s : ControlLife) : ControlLife * list string :=
  ({| cl_ctl := cl_ctl s; cl_alive := false; rx_task := cancel (rx_task s); tx_task := cancel (tx_task s); waiters := waiters s |},
   (if is_over (rx_task s) then ["control recv_msgs"%string] else []) ++ (if is_over (tx_task s) then ["control send_msgs"%string] else [])).

(** ** Everything that can happen

    A call of [register_endpoint] borrows the [Control], which is not dropped
    before the call returns or is abandoned. *)
Inductive control_step (s : ControlLife) : ControlLife → Prop :=
| k_register e : cl_alive s = true → control_step s (call_register e s)
| k_notifier e : cl_alive s = true → control_step s (call_notifier e s)
| k_ready e rx : waiters s !! rx = Some (WNotifier e false) → control_step s (call_ready e rx s)
| k_return rx w r : waiters s !! rx = Some w → w ≠ WNotifier (match w with WAck e | WNotifier e _ => e end) false →
    await_poll rx s = Some r → control_step s (forget rx s)
| k_abandon rx w : waiters s !! rx = Some w → control_step s (forget rx s)
| k_rx s' : rx_turn s = Some s' → control_step s s'
| k_tx s' : tx_turn s = Some s' → control_step s s'
| k_drop : cl_alive s = true → (∀ rx e, waiters s !! rx ≠ Some (WAck e)) → control_step s (drop_control s).1
| k_rx_interrupt s' : rx_interrupt s = Some s' → control_step s s'
| k_tx_interrupt s' : tx_interrupt s = Some s' → control_step s s'.
End Tasks.

(** ** What the operations do to the waits *)

(** The entry of the state that holds the sending end for a waiter *)
Definition held (w : Waiter) (rx : nat) (c : Control) : Prop :=
  match w with
  | WAck e => pending_register_ack c !! e = Some rx
  | WNotifier e _ => pending_ready c !! e = Some (AwaitingRemote rx)
  end.

(** The waiter has its answer, or the state will give it. *)
Definition waits (w : Waiter) (rx : nat) (c : Control) : Prop :=
  oneshots c !! rx = Some Sent ∨ oneshots c !! rx = Some Waiting ∧ held w rx c.

Definition keeps_waits (c c' : Control) : Prop := ∀ rx w, waits w rx c → waits w rx c'.

Lemma held_sender w rx c : held w rx c → has_sender rx c = true.
Proof.
  intros Hh. unfold has_sender. apply orb_true_iff. destruct w as [e|e b]; [left|right]; apply existsb_exists;
    (eexists (e, _); split; [apply list_elem_of_In, elem_of_map_to_list; exact Hh|apply Nat.eqb_refl]).
Qed.

Lemma keeps_refl c : keeps_waits c c.
Proof. by intros rx w. Qed.

(** A change that leaves channels and entries alone *)
Lemma keeps_same c c' :
  oneshots c' = oneshots c → pending_register_ack c' = pending_register_ack c → pending_ready c' = pending_ready c → keeps_waits c c'.
Proof. intros H1 H2 H3 rx w. unfold waits, held. by rewrite H1, H2, H3. Qed.

Lemma queue_msg_keeps m c : keeps_waits c (queue_msg m c).1.
Proof. unfold queue_msg. destruct (tx_open c); by apply keeps_same. Qed.

(** A new channel, and its entry *)
Lemma waits_grow w rx c o : waits w rx c → waits w rx (set_oneshots (oneshots c ++ [o]) c).
Proof. intros [Hs|[Hs Hh]]; [left|right; split; [|done]]; cbn; rewrite lookup_app_l by (by eapply lookup_lt_Some); done. Qed.

Lemma send_keeps tx c c1 :
  oneshots c1 = oneshots c → (∀ w rx, held w rx c → rx ≠ tx → held w rx c1) → keeps_waits c (oneshot_send tx c1).1.
Proof.
  intros Ho Hh rx w Hw. unfold oneshot_send. rewrite Ho. destruct (decide (rx = tx)) as [->|Hne].
  - destruct Hw as [Hs|[Hs _]]; rewrite Hs; [left; by rewrite <- Ho in Hs|]. left. cbn. rewrite list_lookup_insert_eq; [done|]. by eapply lookup_lt_Some.
  - assert (Hsame : ∀ l, waits w rx (set_oneshots l c1) ↔ l !! rx = Some Sent ∨ l !! rx = Some Waiting ∧ held w rx c1) by done.
    assert (Hkeep : waits w rx c1) by (destruct Hw as [Hs|[Hs Hx]]; [left; by rewrite Ho|right; rewrite Ho; auto]).
    destruct (oneshots c !! tx) as [[]|]; [|done..]. apply Hsame. rewrite list_lookup_insert_ne by done. destruct Hw as [Hs|[Hs Hx]]; auto.
Qed.

Lemma handle_msg_keeps m c : keeps_waits c (handle_msg m c).1.
Proof.
  destruct m as [e|e|e]; unfold handle_msg; run_handler.
  - case_bool_decide; cbn [bail_if pureM]; [by apply keeps_same|]. intros rx w Hw. apply (queue_msg_keeps _ (set_connect _ c)). by apply (keeps_same c).
  - destruct (pending_register_ack c !! e) as [tx|] eqn:He.
    + apply send_keeps; [done|]. intros [e'|e' b] rx Hh Hne; [|done]. cbn in *. rewrite lookup_delete_ne; [done|]. congruence.
    + intros rx w [Hs|[Hs Hh]]; [by left|right; split; [done|]]. destruct w as [e'|e' b]; [|done]. cbn in *. rewrite lookup_delete_ne; [done|]. congruence.
  - destruct (pending_ready c !! e) as [[|tx]|] eqn:He.
    + intros rx w [Hs|[Hs Hh]]; [by left|right; split; [done|]]. destruct w as [e'|e' b]; [done|]. cbn in *. rewrite lookup_delete_ne; [done|]. congruence.
    + apply send_keeps; [done|]. intros [e'|e' b] rx Hh Hne; [done|]. cbn in *. rewrite lookup_delete_ne; [done|]. congruence.
    + intros rx w [Hs|[Hs Hh]]; [by left|right; split; [done|]]. destruct w as [e'|e' b]; [done|]. cbn in *.
      rewrite lookup_insert_ne, lookup_delete_ne by congruence. done.
Qed.

(** The effect of a registration *)
Lemma register_endpoint_spec e c :
  match register_endpoint e c with
  | (c', Ok rx) => oneshots c' = oneshots c ++ [Waiting] ∧ rx = length (oneshots c) ∧ held (WAck e) rx c' ∧ keeps_waits c c'
  | (c', Err _) => (c' = c ∨ oneshots c' = oneshots c ++ [Waiting]) ∧ keeps_waits c c'
  | (_, Panic) => False
  end.
Proof.
  unfold register_endpoint. run_handler. destruct (pending_register_ack c !! e) as [|] eqn:He; [split; [by left|apply keeps_refl]|].
  unfold oneshot_channel, queue_msg. cbn [set_oneshots set_register_ack tx_open pending_register_ack].
  assert (Hkeep : ∀ c', oneshots c' = oneshots c ++ [Waiting] → pending_register_ack c' = <[e := length (oneshots c)]> (pending_register_ack c) →
    pending_ready c' = pending_ready c → keeps_waits c c').
  { intros c' H1 H2 H3 rx w [Hs|[Hs Hh]]; [left|right; split]; rewrite ?H1; [by rewrite lookup_app_l by (by eapply lookup_lt_Some)..|].
    destruct w as [e'|e' b]; cbn in *; [rewrite H2, lookup_insert_ne by congruence|rewrite H3]; done. }
  destruct (tx_open c); cbn; [split_and!; [done|done|by rewrite lookup_insert_eq|by apply Hkeep]|split; [by right|by apply Hkeep]].
Qed.

Lemma register_notifier_spec e c :
  match register_ready_notifier e c with
  | (c', Ok n) => (∃ o, oneshots c' = oneshots c ++ [o]) ∧ rn_rx n = length (oneshots c) ∧ waits (WNotifier e false) (rn_rx n) c' ∧ keeps_waits c c'
  | (c', Err _) => c' = c
  | (_, Panic) => False
  end.
Proof.
  unfold register_ready_notifier. run_handler. destruct (pending_ready c !! e) as [[|tx]|] eqn:He; [| done|].
  - unfold oneshot_channel, oneshot_send. cbn [set_oneshots set_ready oneshots]. rewrite lookup_app_r, Nat.sub_diag by lia. cbn.
    rewrite insert_app_r_alt, Nat.sub_diag by lia. cbn. split_and!; [by eexists|done|left; cbn; by rewrite lookup_app_r, Nat.sub_diag by lia|].
    intros rx w [Hs|[Hs Hh]]; [left|right; split]; cbn; [by rewrite lookup_app_l by (by eapply lookup_lt_Some)..|].
    destruct w as [e'|e' b]; cbn in *; [done|]. rewrite lookup_delete_ne; [done|]. congruence.
  - cbn. split_and!; [by eexists|done|right; cbn; by rewrite lookup_app_r, Nat.sub_diag, lookup_insert_eq by lia|].
    intros rx w [Hs|[Hs Hh]]; [left|right; split]; cbn; [by rewrite lookup_app_l by (by eapply lookup_lt_Some)..|].
    destruct w as [e'|e' b]; cbn in *; [done|]. rewrite lookup_insert_ne; [done|]. congruence.
Qed.

Lemma drop_oneshot_waits rx rx' w c : rx' ≠ rx → waits w rx' c → waits w rx' (drop_oneshot rx c).
Proof.
  intros Hne Hw. unfold waits. rewrite drop_oneshot_other by done. destruct Hw as [?|[? Hh]]; [by left|right; split; [done|]].
  unfold drop_oneshot. destruct (oneshots c !! rx) as [[]|]; by destruct w.
Qed.

(** ** The invariant *)

Record control_inv (s : ControlLife) : Prop := {
  ci_waits rx w : waiters s !! rx = Some w → waits w rx (cl_ctl s);
  ci_borrowed rx e : waiters s !! rx = Some (WAck e) → cl_alive s = true;
  ci_cancelled : cl_alive s = false → cancel_sent (rx_task s) = true ∧ cancel_sent (tx_task s) = true;
  ci_queue : is_over (tx_task s) = true → tx_open (cl_ctl s) = false;
}.

Lemma waits_bound w rx c : waits w rx c → (rx < length (oneshots c))%nat.
Proof. intros [Hs|[Hs _]]; by eapply lookup_lt_Some. Qed.

(** A change of the state that keeps the waits *)
Lemma inv_with_ctl c s : control_inv s → keeps_waits (cl_ctl s) c → (tx_open (cl_ctl s) = false → tx_open c = false) → control_inv (with_ctl c s).
Proof. intros [I1 I2 I3 I4] Hk Ho. split; cbn; auto. Qed.

Lemma inv_with_waiter rx w s :
  control_inv s → waits w rx (cl_ctl s) → (∀ e, w = WAck e → cl_alive s = true) → control_inv (with_waiters (<[rx := w]> (waiters s)) s).
Proof.
  intros [I1 I2 I3 I4] Hw Ha. split; cbn; [| |done|done].
  - intros rx' w' [[<- <-]|[_ ?]]%lookup_insert_Some; auto.
  - intros rx' e [[<- ->]|[_ ?]]%lookup_insert_Some; eauto.
Qed.

Lemma inv_forget rx s : control_inv s → control_inv (forget rx s).
Proof.
  intros [I1 I2 I3 I4]. split; cbn.
  - intros rx' w [Hne Hw]%lookup_delete_Some. apply drop_oneshot_waits; [congruence|by apply I1].
  - intros rx' e [_ Hw]%lookup_delete_Some. by eapply I2.
  - done.
  - intros Ho. specialize (I4 Ho). unfold drop_oneshot. destruct (oneshots (cl_ctl s) !! rx) as [[]|]; done.
Qed.

Lemma inv_call_register e s : control_inv s → cl_alive s = true → control_inv (call_register e s).
Proof.
  intros Hi Ha. unfold call_register. pose proof (register_endpoint_spec e (cl_ctl s)) as Hs.
  assert (Hopen : tx_open (register_endpoint e (cl_ctl s)).1 = tx_open (cl_ctl s)).
  { unfold register_endpoint, oneshot_channel, queue_msg. run_handler. destruct (pending_register_ack (cl_ctl s) !! e); [done|]. cbn. by destruct (tx_open (cl_ctl s)) eqn:Ho. }
  destruct (register_endpoint e (cl_ctl s)) as [c [rx|err|]]; cbn in Hopen; [| |done].
  - destruct Hs as (Hos & -> & Hh & Hk). apply (inv_with_waiter _ _ (with_ctl c s)); [apply inv_with_ctl; [done|done|congruence]| |done].
    right. cbn. split; [|done]. by rewrite Hos, lookup_app_r, Nat.sub_diag by lia.
  - destruct Hs as [Hcase Hk]. apply inv_with_ctl; [done| |unfold drop_oneshot; repeat case_match; cbn; congruence].
    intros rx w Hw. apply drop_oneshot_waits; [|by apply Hk]. apply waits_bound in Hw. lia.
Qed.

Lemma oneshot_send_open tx c : tx_open (oneshot_send tx c).1 = tx_open c.
Proof. unfold oneshot_send. by destruct (oneshots c !! tx) as [[]|]. Qed.

Lemma queue_msg_open m c : tx_open (queue_msg m c).1 = tx_open c.
Proof. unfold queue_msg. by destruct (tx_open c) eqn:Ho. Qed.

Lemma inv_call_notifier e s : control_inv s → control_inv (call_notifier e s).
Proof.
  intros Hi. unfold call_notifier. pose proof (register_notifier_spec e (cl_ctl s)) as Hs.
  assert (Hopen : tx_open (register_ready_notifier e (cl_ctl s)).1 = tx_open (cl_ctl s)).
  { unfold register_ready_notifier. run_handler. destruct (pending_ready (cl_ctl s) !! e) as [[]|]; [|done|done]. cbn [oneshot_channel].
    match goal with |- context [oneshot_send ?tx ?c] => pose proof (oneshot_send_open tx c) as Ho; destruct (oneshot_send tx c) as [c' []]; exact Ho end. }
  destruct (register_ready_notifier e (cl_ctl s)) as [c [n|err|]]; cbn in Hopen; [| |done].
  - destruct Hs as (_ & _ & Hw & Hk). apply (inv_with_waiter _ _ (with_ctl c s)); [apply inv_with_ctl; [done|done|congruence]|done|done].
  - subst c. apply inv_with_ctl; [done|apply keeps_refl|done].
Qed.

Lemma inv_call_ready e rx s : control_inv s → waiters s !! rx = Some (WNotifier e false) → control_inv (call_ready e rx s).
Proof.
  intros Hi Hw. unfold call_ready, ready, queue_msg. destruct (tx_open (cl_ctl s)) eqn:Ho.
  - assert (Hk : keeps_waits (cl_ctl s) (set_tx (control_tx (cl_ctl s) ++ [Control.Ready (rn_endpoint_id {| rn_endpoint_id := e; rn_rx := rx |})]) (cl_ctl s))) by by apply keeps_same.
    apply (inv_with_waiter rx (WNotifier e true) (with_ctl _ s)); [apply inv_with_ctl; [done|done|cbn; congruence]| |done].
    apply (Hk rx (WNotifier e true)). exact (ci_waits _ Hi _ _ Hw).
  - apply inv_forget, inv_with_ctl; [done|apply keeps_refl|done].
Qed.

Section Reachable.
Context `{RmpSerde}.

Lemma inv_rx_turn s s' : control_inv s → rx_turn s = Some s' → control_inv s'.
Proof.
  intros Hi (r & Hr & Hs)%bind_Some. injection Hs as <-.
  assert (Hend : ∀ s t, cancel_sent t = cancel_sent (rx_task s) → control_inv s → control_inv (with_rx t s)).
  { intros s0 t Ht [I1 I2 I3 I4]. split; cbn; [done|done|by rewrite Ht|done]. }
  destruct (recv_msg r) as [[[msg|] r']|e|]; [|by apply Hend..].
  pose proof (handle_msg_keeps msg (cl_ctl s)) as Hk.
  assert (Hopen : tx_open (handle_msg msg (cl_ctl s)).1 = tx_open (cl_ctl s)).
  { destruct msg as [e|e|e]; unfold handle_msg; run_handler.
    - case_bool_decide; [done|]. exact (queue_msg_open _ (set_connect _ _)).
    - destruct (pending_register_ack (cl_ctl s) !! e); [exact (oneshot_send_open _ (set_register_ack _ _))|done].
    - destruct (pending_ready (cl_ctl s) !! e) as [[]|]; [done|exact (oneshot_send_open _ (set_ready _ _))|done]. }
  destruct (handle_msg msg (cl_ctl s)) as [c o]. cbn in Hk, Hopen. assert (Hi' : control_inv (with_ctl c s)) by (apply inv_with_ctl; [done|done|congruence]).
  destruct o; by apply (Hend (with_ctl c s)).
Qed.

Lemma inv_close_queue s t : control_inv s → (cl_alive s = false → cancel_sent t = true) → control_inv (with_tx t (with_ctl (close_queue (cl_ctl s)) s)).
Proof. intros [I1 I2 I3 I4] Ht. split; cbn; [done|done| |done]. intros Ha. destruct (I3 Ha). auto. Qed.

Lemma inv_tx_turn s s' : control_inv s → tx_turn s = Some s' → control_inv s'.
Proof.
  intros Hi (w & Hw & Hs)%bind_Some. pose proof Hi as [I1 I2 I3 I4]. assert (Hc : cl_alive s = false → cancel_sent (tx_task s) = true) by (intros Ha; by destruct (I3 Ha)).
  destruct (control_tx (cl_ctl s)) as [|m q].
  - destruct (queue_has_sender s); [done|]. injection Hs as <-. by apply inv_close_queue.
  - injection Hs as <-. destruct (send_msg m w) as [w' []]; [|by apply inv_close_queue..]. split; cbn; try done.
Qed.

Lemma inv_control_step s s' : control_inv s → control_step s s' → control_inv s'.
Proof.
  intros Hi Hstep. destruct Hstep as [e Ha|e Ha|e rx Hw|rx w r _ _ _|rx w _|s' Hs|s' Hs|Ha Hno|s' Hs|s' Hs].
  - by apply inv_call_register.
  - by apply inv_call_notifier.
  - by apply inv_call_ready.
  - by apply inv_forget.
  - by apply inv_forget.
  - by eapply inv_rx_turn.
  - by eapply inv_tx_turn.
  - destruct Hi as [I1 I2 I3 I4]. split; cbn; try done. intros rx e Hw. by destruct (Hno rx e).
  - apply bind_Some in Hs as (t & Ht & [= <-]). unfold interrupt in Ht. destruct (cancel_sent (rx_task s)) eqn:Hc; [|done]. injection Ht as <-.
    destruct Hi as [I1 I2 I3 I4]. by split.
  - apply bind_Some in Hs as (t & Ht & [= <-]). unfold interrupt in Ht. destruct (cancel_sent (tx_task s)) eqn:Hc; [|done]. injection Ht as <-.
    by apply inv_close_queue.
Qed.

Lemma control_inv_reachable w r s : rtc control_step (life_of_control w r) s → control_inv s.
Proof.
  intros Hr. assert (H0 : control_inv (life_of_control w r)) by (split; cbn; [intros ?? Hw; by rewrite lookup_empty in Hw..|done|done]).
  revert H0. generalize (life_of_control w r), Hr. clear Hr. intros s0 Hr. induction Hr as [|x y z Hs _ IH]; eauto using inv_control_step.
Qed.

(** ** How a wait ends *)

Lemma await_exact rx w s :
  control_inv s → waiters s !! rx = Some w →
  oneshots (cl_ctl s) !! rx = Some Sent ∧ await_poll rx s = Some (Ok tt) ∨
  oneshots (cl_ctl s) !! rx = Some Waiting ∧ await_poll rx s = if state_alive s then None else Some (Err ReceiverClosed).
Proof.
  intros Hi Hw. unfold await_poll. destruct (ci_waits _ Hi _ _ Hw) as [->|[-> Hh]]; [by left|right]. split; [done|].
  rewrite (held_sender _ _ _ Hh), andb_true_r. by destruct (state_alive s).
Qed.

(** What one waiter sees of a step: its channel and its place *)
Record undisturbed (rx : nat) (s s' : ControlLife) : Prop := {
  un_shot : oneshots (cl_ctl s') !! rx = oneshots (cl_ctl s) !! rx;
  un_waiter : waiters s' !! rx = waiters s !! rx;
}.

Lemma forget_undisturbed rx rx' s : rx' ≠ rx → undisturbed rx' s (forget rx s).
Proof. intros Hne. split; cbn; [by apply drop_oneshot_other|by rewrite lookup_delete_ne]. Qed.

Lemma register_undisturbed e rx s : (rx < length (oneshots (cl_ctl s)))%nat → undisturbed rx s (call_register e s).
Proof.
  intros Hlt. unfold call_register. pose proof (register_endpoint_spec e (cl_ctl s)) as Hs. destruct (register_endpoint e (cl_ctl s)) as [c [i|err|]]; [| |done].
  - destruct Hs as (Ho & -> & _). split; cbn; [by rewrite Ho, lookup_app_l|by rewrite lookup_insert_ne by lia].
  - destruct Hs as [Hcase _]. split; cbn; [|done]. rewrite drop_oneshot_other by lia. destruct Hcase as [->| ->]; [done|by rewrite lookup_app_l].
Qed.

Lemma notifier_undisturbed e rx s : (rx < length (oneshots (cl_ctl s)))%nat → undisturbed rx s (call_notifier e s).
Proof.
  intros Hlt. unfold call_notifier. pose proof (register_notifier_spec e (cl_ctl s)) as Hs. destruct (register_ready_notifier e (cl_ctl s)) as [c [n|err|]]; [| |done].
  - destruct Hs as ((o & Ho) & Hn & _). split; cbn; [by rewrite Ho, lookup_app_l|by rewrite lookup_insert_ne by lia].
  - by subst c.
Qed.

Lemma ready_undisturbed e rx rx' s : rx' ≠ rx → undisturbed rx' s (call_ready e rx s).
Proof.
  intros Hne. unfold call_ready, ready, queue_msg. destruct (tx_open (cl_ctl s)); [split; cbn; [done|by rewrite lookup_insert_ne]|].
  destruct (forget_undisturbed rx rx' (with_ctl (cl_ctl s) s) Hne). by split.
Qed.

Lemma tx_turn_undisturbed rx s s' : tx_turn s = Some s' → undisturbed rx s s'.
Proof.
  intros (w & _ & Hs)%bind_Some. destruct (control_tx (cl_ctl s)) as [|m q]; [destruct (queue_has_sender s); [done|]; by injection Hs as <-|].
  injection Hs as <-. by destruct (send_msg m w) as [w' []].
Qed.

(** Channel [rx] has been given out, and whoever waits on it has no answer. *)
Definition unanswered (rx : nat) (s : ControlLife) : Prop :=
  (rx < length (oneshots (cl_ctl s)))%nat ∧ ∀ w, waiters s !! rx = Some w → oneshots (cl_ctl s) !! rx = Some Waiting.

Lemma undisturbed_unanswered rx s s' : undisturbed rx s s' → unanswered rx s → unanswered rx s'.
Proof.
  intros [H1 H2] [Hlt Hw]. split; [|intros w; rewrite H1, H2; apply Hw]. apply lookup_lt_is_Some in Hlt as [o Ho]. apply (lookup_lt_Some _ _ o). by rewrite H1.
Qed.

Lemma forget_unanswered rx rx' s : unanswered rx s → unanswered rx (forget rx' s).
Proof.
  intros Hu. destruct (decide (rx = rx')) as [<-|Hne]; [|by eapply undisturbed_unanswered; [apply forget_undisturbed|]].
  split; cbn; [rewrite drop_oneshot_length; apply Hu|]. intros w. by rewrite lookup_delete_eq.
Qed.

Lemma ready_unanswered e rx rx' s : waiters s !! rx' = Some (WNotifier e false) → unanswered rx s → unanswered rx (call_ready e rx' s).
Proof.
  intros Hw Hu. destruct (decide (rx = rx')) as [<-|Hne]; [|by eapply undisturbed_unanswered; [apply ready_undisturbed|]].
  unfold call_ready, ready, queue_msg. destruct (tx_open (cl_ctl s)); [|by apply forget_unanswered]. destruct Hu as [Hlt Hu].
  split; [exact Hlt|]. intros w _. exact (Hu _ Hw).
Qed.

(** Once [recv_msgs] has ended, a wait is answered by nobody. *)
Lemma unanswered_step rx s s' :
  control_step s s' → is_over (rx_task s) = true → unanswered rx s → is_over (rx_task s') = true ∧ unanswered rx s'.
Proof.
  intros Hstep Hover Hu. pose proof (proj1 Hu) as Hlt.
  destruct Hstep as [e Ha|e Ha|e i Hw|i w r Hw _ Hp|i w Hw|s' Hs|s' Hs|Ha Hno|s' Hs|s' Hs].
  - split; [unfold call_register; by destruct (register_endpoint e (cl_ctl s)) as [c []]|by eapply undisturbed_unanswered; [apply register_undisturbed|]].
  - split; [unfold call_notifier; by destruct (register_ready_notifier e (cl_ctl s)) as [c []]|by eapply undisturbed_unanswered; [apply notifier_undisturbed|]].
  - split; [unfold call_ready; by destruct (ready _ (cl_ctl s)) as [c []]|by apply ready_unanswered].
  - split; [done|by apply forget_unanswered].
  - split; [done|by apply forget_unanswered].
  - apply bind_Some in Hs as (r & Hr & _). unfold is_over in Hover. by rewrite Hr in Hover.
  - split; [|by eapply undisturbed_unanswered; [eapply tx_turn_undisturbed|]]. apply bind_Some in Hs as (w & _ & Hs).
    destruct (control_tx (cl_ctl s)) as [|m q]; [destruct (queue_has_sender s); [done|]; by injection Hs as <-|]. injection Hs as <-. by destruct (send_msg m w) as [w' []].
  - done.
  - apply bind_Some in Hs as (t & Ht & [= <-]). unfold interrupt in Ht. destruct (cancel_sent (rx_task s)); [|done]. by injection Ht as <-.
  - apply bind_Some in Hs as (t & Ht & [= <-]). by split.
Qed.

Lemma unanswered_steps rx s s' : rtc control_step s s' → is_over (rx_task s) = true → unanswered rx s → is_over (rx_task s') = true ∧ unanswered rx s'.
Proof. induction 1 as [|x y z Hs _ IH]; [done|]. intros Ho Hu. destruct (unanswered_step _ _ _ Hs Ho Hu). auto. Qed.

(** A dropped [Control] does not come back. *)
Lemma dropped_step s s' : control_step s s' → cl_alive s = false → cl_alive s' = false.
Proof.
  intros Hstep Hd. destruct Hstep as [e Ha|e Ha|e i Hw|i w r Hw _ Hp|i w Hw|s' Hs|s' Hs|Ha Hno|s' Hs|s' Hs]; try done.
  - unfold call_register. by destruct (register_endpoint e (cl_ctl s)) as [c []].
  - unfold call_notifier. by destruct (register_ready_notifier e (cl_ctl s)) as [c []].
  - unfold call_ready. by destruct (ready _ (cl_ctl s)) as [c []].
  - apply bind_Some in Hs as (r & Hr & Hs). injection Hs as <-. destruct (recv_msg r) as [[[m|] r']| |]; [|done..]. by destruct (handle_msg m (cl_ctl s)) as [c []].
  - apply bind_Some in Hs as (w & _ & Hs). destruct (control_tx (cl_ctl s)) as [|m q]; [destruct (queue_has_sender s); [done|]; by injection Hs as <-|].
    injection Hs as <-. by destruct (send_msg m w) as [w' []].
  - by apply bind_Some in Hs as (t & Ht & [= <-]).
  - by apply bind_Some in Hs as (t & Ht & [= <-]).
Qed.

Lemma dropped_steps s s' : rtc control_step s s' → cl_alive s = false → cl_alive s' = false.
Proof. induction 1 as [|x y z Hs _ IH]; [done|]. intros Hd. apply IH. by eapply dropped_step. Qed.

(** C17: the end of the control.  Once the [Control] has been dropped, whatever its
    tasks were doing, they can end; and when [recv_msgs] has ended nobody waits any
    more: every notifier whose peer has declared itself ready returns, every other
    gets an error, and a notifier on which [ready] is called later gets an error too once [send_msgs] has ended. *)
Theorem control_drop_ends_waits stream_tx stream_rx s :
  rtc control_step (life_of_control stream_tx stream_rx) s → cl_alive s = false →
  (∃ s', rtc control_step s s' ∧ is_over (rx_task s') = true ∧ is_over (tx_task s') = true) ∧
  ∀ s', rtc control_step s s' → is_over (rx_task s') = true →
    (∀ rx w, waiters s' !! rx = Some w →
       await_poll rx s' = if bool_decide (oneshots (cl_ctl s') !! rx = Some Sent) then Some (Ok tt) else Some (Err ReceiverClosed)) ∧
    (is_over (tx_task s') = true → ∀ e rx, waiters s' !! rx = Some (WNotifier e false) →
       (ready {| rn_endpoint_id := e; rn_rx := rx |} (cl_ctl s')).2 = Err QueueClosed).
Proof.
  intros Hr Hd. pose proof (control_inv_reachable _ _ _ Hr) as Hi. destruct (ci_cancelled _ Hi Hd) as [H1 H2]. split.
  - set (s1 := with_rx (progress None (rx_task s)) s).
    assert (Hs1 : rx_interrupt s = Some s1) by (unfold rx_interrupt, interrupt; by rewrite H1).
    assert (Hs2 : tx_interrupt s1 = Some (with_tx (progress None (tx_task s1)) (with_ctl (close_queue (cl_ctl s1)) s1))) by (unfold tx_interrupt, interrupt; change (tx_task s1) with (tx_task s); by rewrite H2).
    eexists. split; [eapply rtc_l; [apply k_rx_interrupt; exact Hs1|]; apply rtc_once, k_tx_interrupt; exact Hs2|]. by split.
  - intros s' Hs' Hover. pose proof (dropped_steps _ _ Hs' Hd) as Hd'. assert (Hi' : control_inv s') by (eapply control_inv_reachable; by etrans). split.
    + intros rx w Hw. assert (Hdead : state_alive s' = false) by (unfold state_alive; by rewrite Hd', Hover).
      destruct (await_exact _ _ _ Hi' Hw) as [[Hs ->]|[Hs ->]]; rewrite Hs; [done|by rewrite Hdead].
    + intros Ho e rx _. unfold ready, queue_msg. by rewrite (ci_queue _ Hi' Ho).
Qed.

(** C30: what the control does not tell.  When the control stream has ended (the peer closed it, or
    the connection was lost) and [recv_msgs] has returned, a call of
    [register_endpoint] that still waits for its ack never returns: the
    [Control] it borrows keeps the sending end alive.  [ready] does not
    return either, as long as the [Control] is kept. *)
Theorem stream_end_not_told stream_tx stream_rx s rx w :
  rtc control_step (life_of_control stream_tx stream_rx) s → is_over (rx_task s) = true →
  waiters s !! rx = Some w → await_poll rx s = None →
  ∀ s' w', rtc control_step s s' → waiters s' !! rx = Some w' → (∃ e, w' = WAck e) ∨ cl_alive s' = true → await_poll rx s' = None.
Proof.
  intros Hr Hover Hw Hp s' w' Hs' Hw' Hkept. pose proof (control_inv_reachable _ _ _ Hr) as Hi.
  assert (Hi' : control_inv s') by (eapply control_inv_reachable; by etrans).
  assert (Hu : unanswered rx s).
  { split; [by eapply waits_bound, Hi|]. intros _ _. destruct (await_exact _ _ _ Hi Hw) as [[_ Hx]|[? _]]; [congruence|done]. }
  destruct (unanswered_steps _ _ _ Hs' Hover Hu) as [_ [_ Hu']]. specialize (Hu' w' Hw').
  assert (Ha : cl_alive s' = true) by (destruct Hkept as [[e ->]|?]; [by eapply ci_borrowed|done]).
  destruct (await_exact _ _ _ Hi' Hw') as [[? _]|[_ ->]]; [congruence|]. unfold state_alive. by rewrite Ha.
Qed.
End Reachable.

(** ** Samples *)

Definition idle_reader : Reader := {| rd_chunks := []; rd_fail := None |}.
Definition control_sample : ControlLife := life_of_control (open_writer []) idle_reader.

(** A notifier waits, the peer closes the stream, and the control is dropped. *)
Definition notifier_left : ControlLife := (drop_control (default control_sample (rx_turn (H := tagged) (call_notifier 3 control_sample)))).1.

Lemma notifier_left_reachable : rtc (control_step (H := tagged)) control_sample notifier_left.
Proof.
  eapply rtc_l; [by apply (k_notifier _ 3)|]. eapply rtc_l; [apply k_rx; by vm_compute|]. apply rtc_once.
  refine (k_drop _ _ _); [by vm_compute|]. intros rx e Hw.
  assert (Hm : (<[0%nat := WNotifier 3 false]> ∅ : gmap nat Waiter) !! rx = Some (WAck e)) by exact Hw.
  apply lookup_insert_Some in Hm as [[_ ?]|[_ Hm]]; [done|]. by rewrite lookup_empty in Hm.
Qed.

Lemma control_drop_ends_waits_witness : await_poll 0 notifier_left = Some (Err ReceiverClosed).
Proof.
  destruct (control_drop_ends_waits (H := tagged) (open_writer []) idle_reader notifier_left notifier_left_reachable eq_refl) as [_ Hall].
  destruct (Hall notifier_left) as [Hw _]; [apply rtc_refl|done|]. exact (Hw 0%nat (WNotifier 3 false) eq_refl).
Defined.

(** A registration waits and the peer closes the stream. *)
Definition registration_left : ControlLife := default control_sample (rx_turn (H := tagged) (call_register 3 control_sample)).
(** Later its message is sent. *)
Definition registration_later : ControlLife := default control_sample (tx_turn (H := tagged) registration_left).

Lemma registration_left_reachable : rtc (control_step (H := tagged)) control_sample registration_left.
Proof. eapply rtc_l; [by apply (k_register _ 3)|]. apply rtc_once, k_rx. by vm_compute. Qed.

Lemma stream_end_not_told_witness : await_poll 0 registration_later = None.
Proof.
  apply (stream_end_not_told (H := tagged) (open_writer []) idle_reader registration_left 0 (WAck 3) registration_left_reachable eq_refl eq_refl eq_refl
    registration_later (WAck 3)); [apply rtc_once, k_tx; by vm_compute|by vm_compute|left; by exists 3].
Defined.
