(* ===== verification/StreamSession.v ===== *)
(** * What a receiving driver reads of a session

    For a driver of [ReceiveTasks] whose messages on the stream have an image
    (class [StreamCodec]): from whatever part of the images of a session gets
    through, the messages are read in order; with the datagrams that were
    received, they are all that [process] meets. *)

From stdpp Require Import prelude list strings.
From Stdlib Require Import ZArith Lia.
From S2P Require Import Prelude Io Av Packets Router ReceiveTasks.
Open Scope Z_scope.

(** What was read from a stream does not depend on what follows. *)
Lemma read_exact_extend n r b r' R extra :
  read_exact n r = Ok (b, r') → rd_data R = rd_data r ++ extra → ∃ R', read_exact n R = Ok (b, R') ∧ rd_data R' = rd_data r' ++ extra.
Proof.
  intros Hr HR. apply read_exact_inv in Hr as (Hd & Hl & _). rewrite Hd, <- app_assoc in HR.
  destruct (read_exact_app n R b _ HR Hl) as (R' & H1 & H2 & _). eauto.
Qed.

(** ** Projections of interleavings and of rounds *)

Lemma interleaves_omap {A B} (f : A → option B) (l r m : list A) :
  interleaves l r m → (∀ x, x ∈ r → f x = None) → omap f m = omap f l.
Proof.
  induction 1 as [|l r m x H IH|l r m x H IH]; intros Hr; [done|..]; rewrite !omap_app, IH by set_solver; [done|].
  cbn. rewrite (Hr x) by set_solver. by rewrite app_nil_r.
Qed.

Lemma omap_prefix {A B} (f : A → option B) (l k : list A) : l `prefix_of` k → omap f l `prefix_of` omap f k.
Proof. intros [t ->]. rewrite omap_app. by apply prefix_app_r. Qed.

Section Rounds.
Context {Msg Event State Time : Type} `{D : ReceiveDriver Msg Event State Time}.
Implicit Types (obs : list (Obs (Event:=Event) (Time:=Time))) (ev : Event).

(** The rounds of [process] meet the messages that were taken. *)
Lemma rounds_of_taken obs ev : ev ∈ snd <$> rounds obs → ev ∈ taken obs ∨ ev = ev_end ∨ ev = ev_deadline.
Proof.
  induction obs as [|o obs IH]; [by intros ?%not_elem_of_nil|].
  destruct o as [| | | |t [ev'| |]|]; cbn in *; try done; (intros [->|Hev]%elem_of_cons; [|destruct (IH Hev)]; set_solver).
Qed.

Lemma rounds_omap {B} (f : Event → option B) obs :
  f ev_end = None → f ev_deadline = None → omap f (snd <$> rounds obs) = omap f (taken obs).
Proof.
  intros He Hd. induction obs as [|o obs IH]; [done|]. destruct o as [| | | |t [ev'| |]|]; cbn in *; try done; rewrite ?He, ?Hd, IH; done.
Qed.
End Rounds.

(** ** Messages on a stream *)

(** The messages of a stream, as the reader of the driver reads them *)
Class StreamCodec {Msg Event State Time} (D : ReceiveDriver Msg Event State Time) (image : Msg → bytes) (wf : Msg → Prop) : Prop := {
  read_image m r rest : wf m → rd_data r = image m ++ rest → ∃ r', msg_read r = Ok (m, r') ∧ rd_data r' = rest;
  read_extend r m r' R extra : msg_read r = Ok (m, r') → rd_data R = rd_data r ++ extra →
    ∃ R', msg_read R = Ok (m, R') ∧ rd_data R' = rd_data r' ++ extra;
  read_nothing r m r' : rd_data r = [] → msg_read r ≠ Ok (m, r');
}.

Section Session.
Context {Msg Event State Time : Type} `{D : ReceiveDriver Msg Event State Time} `{L : !ReceiveDriverLaws D}.
Context (image : Msg → bytes) (wf : Msg → Prop) `{C : !StreamCodec D image wf}.
Implicit Types (obs : list (Obs (Event:=Event) (Time:=Time))) (ms : list Msg) (ev : Event).

(** Whatever part of the stream arrives, its messages are read in order. *)
Lemma reads_in_order stream extra msgs ms r :
  Forall wf msgs → rd_data stream ++ extra = concat (image <$> msgs) → reads stream ms r →
  ∃ rest, msgs = ms ++ rest ∧ rd_data r ++ extra = concat (image <$> rest).
Proof.
  intros Hwf Hd. induction 1 as [|ms r m r' Hr IH Hread]; [by exists msgs|].
  destruct IH as (rest & -> & Hrest). destruct rest as [|m0 rest].
  { cbn in Hrest. apply app_nil in Hrest as [Hrest _]. by destruct (read_nothing _ _ _ Hrest Hread). }
  assert (Hm0 : wf m0) by (rewrite Forall_forall in Hwf; apply Hwf; set_solver).
  set (R := {| rd_chunks := [concat (image <$> m0 :: rest)]; rd_fail := None |}).
  assert (HR : rd_data R = image m0 ++ concat (image <$> rest)) by (cbn; by rewrite app_nil_r).
  destruct (read_image m0 R _ Hm0 HR) as (R1 & HR1 & Hd1).
  assert (HRr : rd_data R = rd_data r ++ extra) by (rewrite Hrest; cbn; by rewrite app_nil_r).
  destruct (read_extend _ _ _ _ _ Hread HRr) as (R2 & HR2 & Hd2). rewrite HR1 in HR2. injection HR2 as <- <-.
  exists rest. split; [by rewrite <- app_assoc|congruence].
Qed.

(** ** The messages taken *)

Context (msgs : list Msg) (P : Msg → Prop) (Hwf : Forall wf msgs).

(** A message of the stream, a datagram, or the error of a reader *)
Definition of_session ev : Prop :=
  (∃ m, m ∈ msgs ∧ ev = ev_msg m) ∨ (∃ m, P m ∧ ev = ev_msg m) ∨ (∃ err e, ev_err = Some err ∧ ev = err e).

Lemma taken_session stream init acts s obs :
  rd_data stream `prefix_of` concat (image <$> msgs) → exec acts (start stream init) = Some (s, obs) →
  (∀ b, b ∈ datagrams_read obs → ∃ m, msg_parse b = Ok m ∧ P m) →
  (∀ ev, ev ∈ taken obs → of_session ev) ∧
  ∀ {B} (f : Event → option B), (∀ m, P m → f (ev_msg m) = None) → (∀ err e, ev_err = Some err → f (err e) = None) →
    omap f (taken obs) `prefix_of` omap f (ev_msg <$> msgs).
Proof.
  intros [extra Hstream] He Hdg. destruct (driver_inv _ _ _ _ _ He) as [_ _ _ _ (lost & H5 & _) _ H7 H8].
  apply interleaves_prefix in H5 as (evs1 & evs2 & Hp1 & Hp2 & Hi).
  apply source_finish in H7 as (ms1 & t1 & (r & Hms1) & Hpre1 & Ht1). apply source_finish in H8 as (ms2 & t2 & (? & Hms2) & Hpre2 & Ht2).
  destruct (reads_in_order _ extra _ _ _ Hwf (eq_sym Hstream) Hms1) as (rest & Hmsgs & _).
  assert (Hq1 : evs1 `prefix_of` (ev_msg <$> ms1) ++ t1) by by etrans.
  assert (Hq2 : ∀ ev, ev ∈ evs2 → (∃ m, P m ∧ ev = ev_msg m) ∨ ∃ err e, ev_err = Some err ∧ ev = err e).
  { intros ev Hev. assert (Hin : ev ∈ (ev_msg <$> ms2) ++ t2) by (eapply elem_of_prefix; [|exact Hpre2]; by eapply elem_of_prefix).
    apply elem_of_app in Hin as [(m & -> & Hm)%list_elem_of_fmap|Hin].
    - left. apply list_elem_of_lookup in Hm as [i Hm]. destruct (Forall2_lookup_r _ _ _ _ _ Hms2 Hm) as (b & Hb & Hparse).
      apply list_elem_of_lookup_2, Hdg in Hb as (m' & Hm' & HP). rewrite Hparse in Hm'. injection Hm' as <-. eauto.
    - right. destruct Ht2 as [->|(err & e & Herr & ->)]; [by apply not_elem_of_nil in Hin|]. apply list_elem_of_singleton in Hin as ->. eauto. }
  split.
  - intros ev Hev. apply (interleaves_elem _ _ _ ev Hi) in Hev as [Hev|Hev]; [|right; by apply Hq2].
    eapply elem_of_prefix in Hev; [|exact Hq1]. apply elem_of_app in Hev as [(m & -> & Hm)%list_elem_of_fmap|Hev].
    + left. exists m. split; [|done]. rewrite Hmsgs. set_solver.
    + right. right. destruct Ht1 as [->|(err & e & Herr & ->)]; [by apply not_elem_of_nil in Hev|]. apply list_elem_of_singleton in Hev as ->. eauto.
  - intros B f HfP Hfe. rewrite (interleaves_omap f _ _ _ Hi).
    + etrans; [apply omap_prefix, Hq1|]. rewrite omap_app. replace (omap f t1) with (@nil B).
      * rewrite app_nil_r, Hmsgs, fmap_app, omap_app. by apply prefix_app_r.
      * destruct Ht1 as [->|(err & e & Herr & ->)]; [done|]. cbn. by rewrite (Hfe err e Herr).
    + intros ev Hev. destruct (Hq2 ev Hev) as [(m & Hm & ->)|(err & e & Herr & ->)]; [by apply HfP|by eapply Hfe].
Qed.
End Session.
