(* ===== verification/VideoReceive.v ===== *)
(** * The receiving driver of unreliable video

    [VideoUnreliableProtocolRecvDriver] of [video_unreliable.rs] as an instance
    of the pipeline of [ReceiveTasks]: the guarantees of the loop of [process]
    become guarantees on what the client of the whole driver receives. *)

From stdpp Require Import prelude list strings.
From Stdlib Require Import ZArith Lia.
From S2P Require Import Prelude SortedVec Sequencer Io Av Packets Channel Reassembly Router ReceiveTasks ReceiveErrors VideoUnreliable VideoOrder.
Open Scope Z_scope.

(** ** The instance *)

#[export] Instance video_driver : ReceiveDriver RecvMsg Event Process (Instant * Instant) := {
  msg_read := recv_stream_packet;
  msg_parse := VideoUnreliable.recv_datagram;
  ev_msg := EvMsg;
  ev_err := None;
  ev_end := EvEnd;
  ev_deadline := EvDeadline;
  round t ev := step t.1 t.2 ev;
  wakes t s := match deadline s with Some d => d <=? t.2 | None => false end;
  sent s := snd <$> client s;
}.

(** [VideoUnreliableProtocolRecvDriver::start], once its stream is accepted *)
Definition video_start (stream : Reader) (stats : ProtocolStats) : Pipeline (Event:=Event) (State:=Process) :=
  start stream (process_init stats).

Lemma video_send_client_grows p : grows client (λ _, True) (send_client p).
Proof. intros s. unfold send_client. destruct (client_open s); (split; [|done]); [by apply prefix_app_r|done]. Qed.

Lemma video_unroll_grows k g : grows client (λ _, True) (unroll k g).
Proof. intros s. unfold unroll. destruct (seq _ _ k), (seq _ _ g). done. Qed.

Lemma video_update_grows f : grows client (λ _, True) (update_groups f).
Proof. intros s. unfold update_groups. by destruct (f _). Qed.

Lemma video_take_step_grows now : grows client (λ _, True) (take_step now).
Proof.
  intros s. unfold take_step. destruct (take_next_packet _ _ _) as [[[k packet|i|] gs]|e|]; try done. cbv zeta.
  match goal with |- context [(_ ≫= _) ?s0] => pose proof (grows_bind client (λ _, True) _ (λ _, modifyM (set_deadline None)) (video_send_client_grows (Some k, packet)) (λ _, grows_modify client (set_deadline None) (λ _, eq_refl)) s0) as [Hg _] end.
  split; [exact Hg|done].
Qed.

#[local] Hint Resolve video_send_client_grows video_unroll_grows video_update_grows video_take_step_grows : grow.

Lemma video_handle_event_grows now ev : grows client (λ fl, fl = Return → ev = EvEnd) (handle_event now ev).
Proof.
  destruct ev as [[m|m]| |]; cbn [handle_event]; [destruct (sm_packet m)|..]; grow.
Qed.

Lemma video_step_grows now1 now2 ev : grows client (λ b, b = false → ev = EvEnd) (step now1 now2 ev).
Proof.
  intros s. pose proof (video_handle_event_grows now1 ev s) as [H1 H2]. unfold step. run_handler.
  destruct (handle_event now1 ev s) as [s1 [fl|e|]]; cbn in *; [|by split|by split].
  destruct fl; cbn; [|split; [done|by intros ? [= <-]]|split; [done|intros ? _ _; by apply (H2 Return)]].
  pose proof (video_take_step_grows now2 s1) as [H3 _]. destruct (take_step now2 s1) as [s2 [[]|e|]]; cbn in *; (split; [by etrans|]); by intros ? [= <-].
Qed.

#[export] Instance video_driver_laws : ReceiveDriverLaws video_driver.
Proof.
  split; try done.
  - intros t ev s. cbn. destruct (video_step_grows t.1 t.2 ev s) as [[k Hk] _]. rewrite Hk, fmap_app. by apply prefix_app_r.
  - intros t ev s Hr. by eapply (proj2 (video_step_grows t.1 t.2 ev s)).
Qed.

(** ** Short datagrams *)

(** C39: a datagram shorter than its header, which any peer can send, fails the
    assertion of [recv_datagrams] and ends its task; whatever happens next, no
    datagram is read any more and [recv] never returns an error: the video
    stays frozen without the client being told. *)
Theorem short_datagram_silences_video stream stats acts s obs b s1 o :
  exec acts (video_start stream stats) = Some (s, obs) →
  blen b < DATAGRAM_HEADER_SIZE → act (GotDatagram (inr b)) s = Some (s1, o) →
  future (recv_datagrams_task s1) = Finished ∧
  ∀ acts' s' obs', exec acts' s1 = Some (s', obs') →
    datagrams_read obs' = [] ∧ datagrams_pushed obs' = [] ∧ ∀ e, Received (Err e) ∉ obs'.
Proof.
  intros He Hb Ha. pose proof (exec_quiet (D:=video_driver) eq_refl _ _ _ _ (start_quiet stream (process_init stats)) He) as Hq.
  destruct (act_quiet (D:=video_driver) eq_refl _ _ _ _ Hq Ha) as [Hq1 _].
  assert (Hf : future (recv_datagrams_task s1) = Finished).
  { cbn [act] in Ha. unfold read_datagram in Ha. destruct (future (recv_datagrams_task s)); try done. injection Ha as <- _. cbn.
    unfold VideoUnreliable.recv_datagram. by destruct (Z.leb_spec DATAGRAM_HEADER_SIZE (blen b)); [lia|]. }
  split; [done|]. intros acts' s' obs' He'. by eapply (exec_silenced (D:=video_driver) eq_refl).
Qed.

Definition sample_stream : Reader := {| rd_chunks := []; rd_fail := None |}.

Lemma short_datagram_silences_video_witness :
  ∃ s1 o, act (GotDatagram (inr [0; 5; 1])) (video_start sample_stream stats_default) = Some (s1, o) ∧
    future (recv_datagrams_task s1) = Finished ∧
    ∀ acts' s' obs', exec acts' s1 = Some (s', obs') →
      datagrams_read obs' = [] ∧ datagrams_pushed obs' = [] ∧ ∀ e, Received (Err e) ∉ obs'.
Proof.
  eexists _, _. split; [reflexivity|].
  by eapply (short_datagram_silences_video sample_stream stats_default [] _ [] [0; 5; 1]).
Defined.
