(* ===== verification/VideoSession.v ===== *)
(** * The content of an unreliable video session

    [VideoOrder] follows the sequence numbers of the packets; this file follows
    their content.  For the messages of a sender that sent the packets [ps], in
    whatever order they arrive, with whatever loss and duplication, [process]
    never panics and every packet it forwards is the packet of [ps] with that
    number, intact. *)

From stdpp Require Import prelude list strings.
From Stdlib Require Import ZArith Lia.
From S2P Require Import Prelude SortedVec Sequencer Io Av Packets Channel Reassembly VideoUnreliable VideoTransfer VideoOrder.
Open Scope Z_scope.

(** ** A session *)

Definition media_of (p : AVPacket) : option MediaPacket := match p with Media m => Some m | _ => None end.
Definition codec_of (p : AVPacket) : option CodecPacket := match p with Codec c => Some c | _ => None end.

(** The numbered packets of a session, and the segments in which each media
    packet is sent *)
Class Session := {
  sent_packets : list MediaPacket;
  segments_of : Z → list bytes;
  session_short : Z.of_nat (length sent_packets) < 2 ^ 31;
}.

Section Session.
Context {SE : Session}.

Definition plan : list bool := (λ p, is_config (header p)) <$> sent_packets.

(** Packet number [k] is [p]. *)
Definition is_sent (k : Z) (p : MediaPacket) : Prop := 0 ≤ k ∧ sent_packets !! Z.to_nat k = Some p.

Definition media_image (p : MediaPacket) : bytes :=
  (be_bytes 8 (pts_and_flags (header p)) ++ be_bytes 4 (size (header p))) ++ payload p.

(** The segments of the media packets make them up. *)
Class SessionOk : Prop := {
  packets_wf k p : is_sent k p → wf_media (header p);
  segments_image k p : is_sent k p → is_config (header p) = false → concat (segments_of k) = media_image p;
  segments_some k p : is_sent k p → is_config (header p) = false → (0 < length (segments_of k))%nat;
}.
Context {SO : SessionOk}.

Lemma is_sent_bound k p : is_sent k p → 0 ≤ k < 2 ^ 31.
Proof. intros [Hk Hp]. apply lookup_lt_Some in Hp. pose proof session_short. lia. Qed.

Lemma is_sent_cfg k p : is_sent k p → session_cfg plan k ↔ is_config (header p) = true.
Proof. intros [Hk Hp]. unfold session_cfg, plan. rewrite list_lookup_fmap, Hp. cbn. split; [by intros [_ [=]]|by intros ->]. Qed.

Lemma session_group_bound k : 0 ≤ session_group plan k < 2 ^ 31.
Proof.
  unfold session_group. split; [lia|].
  assert (length (List.filter id (take (Z.to_nat (k + 1)) plan)) ≤ length plan)%nat.
  { etrans; [apply List.filter_length_le|]. rewrite length_take. lia. }
  unfold plan in *. rewrite length_fmap in *. pose proof session_short. lia.
Qed.

(** ** What the receiver holds *)

Definition datagram_content (d : DatagramPacket) : Prop := ∃ p, is_sent (dg_seq d) p ∧ dg_packet d = Media p.

Definition segments_content (s : DatagramSegments) : Prop :=
  ∃ p, is_sent (seg_seq s) p ∧ is_config (header p) = false ∧ collects (segments_of (seg_seq s)) s.

Definition pending_content (p : Pending) : Prop :=
  (∀ d, d ∈ datagrams p → datagram_content d) ∧ (∀ s, s ∈ segments p → segments_content s).

Definition config_content (c : ConfigPacket) : Prop :=
  match c with CfgReady p => ∃ m, is_sent (st_seq p) m ∧ st_packet p = Media m | _ => True end.

Lemma insert_datagram_content {E} now k p i data pd :
  wf_pending pd → pending_content pd → is_sent k p → is_config (header p) = false → segments_of k !! i = Some data →
  ∃ pd', insert_datagram (E:=E) now k i (bool_decide (i + 1 = length (segments_of k))%nat) data pd = Ok pd' ∧ pending_content pd'.
Proof.
  intros (Hd & Hs & Hdisj) [HCd HCs] Hsent Hnc Hseg. unfold insert_datagram.
  destruct (binary_search_cases dg_seq k (datagrams pd) Hd) as [(j & x & -> & Hx & Hk)|[-> Hn]]; [by exists pd|].
  destruct (prepare_spec k pd Hs) as (sl & j & -> & Hsl & (x & Hx & Hxk) & Hsub & _).
  cbn [segments datagrams]. rewrite Hx. cbn [expect mbind outcome_bind].
  pose proof (segments_some k p Hsent Hnc) as Hne.
  assert (HCsl : ∀ y, y ∈ sl → segments_content y).
  { intros y [Hy| ->]%Hsub; [by apply HCs|]. exists p. split_and!; [done|done|]. by apply collects_new. }
  assert (Hcx : collects (segments_of k) x).
  { destruct (HCsl x) as (p' & _ & _ & Hc); [by eapply list_elem_of_lookup_2|]. by rewrite Hxk in Hc. }
  destruct (set_segment_collects _ (E:=E) i data x Hne Hcx Hseg) as (s' & -> & Hc' & Hk' & _). cbn [mbind outcome_bind].
  assert (HCi : ∀ y, y ∈ <[j := s']> sl → segments_content y).
  { intros y Hy. destruct (elem_of_replace _ _ _ _ _ Hx Hy) as [->|?]; [|by apply HCsl]. exists p. by rewrite Hk', Hxk. }
  destruct (is_complete s') eqn:Hcomp; [|eexists; split; [done|]; by split].
  rewrite (assemble_collected now k p (segments_of k) (packets_wf k p Hsent) (segments_image k p Hsent Hnc) Hne s' Hc' ltac:(congruence) Hcomp).
  cbn [mbind outcome_bind]. eexists. split; [done|]. cbn [datagrams segments].
  destruct (insert_datagram_packet_spec (assembled now k p) {| datagrams := datagrams pd; segments := delete j (<[j := s']> sl) |} Hd) as (_ & H2 & H3).
  split.
  - intros d [Hdd| ->]%H3; [by apply HCd|]. exists p. done.
  - rewrite H2. intros y Hy. apply HCi. cbn in Hy. rewrite (delete_Permutation (<[j := s']> sl) j s').
    + by right.
    + apply list_lookup_insert_eq. by eapply lookup_lt_Some.
Qed.

(** ** The groups *)

(** The groups hold packets of the session, and only groups up to [top] have
    received their config. *)
Definition groups_content (top : Z) (gs : PendingGroups) : Prop :=
  ∀ g, g ∈ gs → pending_content (pending g) ∧ config_content (config_packet g) ∧ (cfg_is_none (config_packet g) = false → pg_seq g ≤ top).

Lemma prepare_content top g gs gs1 i : prepare_pending_group g gs = (gs1, i) → groups_content top gs → groups_content top gs1.
Proof.
  unfold prepare_pending_group. intros Hprep HC. destruct (binary_search_by_key _ _ _); injection Hprep as <- _; [done|].
  intros x. rewrite vec_insert_perm, elem_of_cons. intros [->|Hx]; [|by apply HC].
  split_and!; [|done|done]. split; intros y Hy; by apply not_elem_of_nil in Hy.
Qed.

Lemma insert_stream_content {E} next top k p gs :
  groups_inv (session_group plan) (session_cfg plan) next gs → groups_content top gs → is_sent k p → top < session_group plan k →
  ∃ gs', insert_stream_packet (E:=E) (session_group plan k) k (Media p) gs = Ok gs' ∧ groups_content (session_group plan k) gs'.
Proof.
  intros Hinv HC Hk Htop. unfold insert_stream_packet.
  destruct (prepare_group_spec _ _ (session_group plan k) gs next Hinv) as (gs1 & i & g & Hprep & Hi & Hgk & _ & _).
  pose proof (prepare_content _ _ _ _ _ Hprep HC) as HC1.
  rewrite Hprep, Hi. cbn [expect mbind outcome_bind]. destruct (HC1 g) as (H1 & H2 & H3); [by eapply list_elem_of_lookup_2|].
  destruct (cfg_is_none (config_packet g)) eqn:Hn; [|specialize (H3 eq_refl); lia]. cbn [rassert mbind outcome_bind].
  eexists. split; [done|]. intros x Hx. destruct (elem_of_replace _ _ _ _ _ Hi Hx) as [->|Hx'].
  - cbn. split_and!; [done|by exists p|lia].
  - destruct (HC1 x Hx') as (? & ? & Ht). split_and!; [done|done|]. intros Hc. specialize (Ht Hc). lia.
Qed.

Lemma insert_datagram_groups {E} now next top k p i data gs :
  groups_inv (session_group plan) (session_cfg plan) next gs → groups_content top gs →
  is_sent k p → is_config (header p) = false → segments_of k !! i = Some data →
  ∃ gs', groups_insert_datagram (E:=E) now (session_group plan k) k i (bool_decide (i + 1 = length (segments_of k))%nat) data gs = Ok gs' ∧
    groups_content top gs'.
Proof.
  intros Hinv HC Hk Hnc Hseg. unfold groups_insert_datagram.
  destruct (prepare_group_spec _ _ (session_group plan k) gs next Hinv) as (gs1 & j & g & Hprep & Hj & Hgk & [_ Hinv1] & _).
  pose proof (prepare_content _ _ _ _ _ Hprep HC) as HC1.
  rewrite Hprep, Hj. cbn [expect mbind outcome_bind]. assert (Hin : g ∈ gs1) by by eapply list_elem_of_lookup_2.
  destruct (HC1 g Hin) as (H1 & H2 & H3). destruct (Hinv1 g Hin) as (Hwf & _).
  destruct (insert_datagram_content (E:=E) now k p i data (pending g) Hwf H1 Hk Hnc Hseg) as (pd & -> & Hpd). cbn [mbind outcome_bind].
  eexists. split; [done|]. intros x Hx. destruct (elem_of_replace _ _ _ _ _ Hj Hx) as [->|Hx']; [done|by apply HC1].
Qed.

Lemma take_next_content {E} now next top gs a gs' :
  groups_content top gs → take_next_packet (E:=E) now next gs = Ok (a, gs') →
  groups_content top gs' ∧ match a with APacket k packet => ∃ p, is_sent k p ∧ packet = Media p | _ => True end.
Proof.
  intros HC. unfold take_next_packet. destruct (next_packet now next gs) as [|i c|d] eqn:Hn; [by intros [= <- <-]| |by intros [= <- <-]].
  destruct (next_packet_ready _ _ _ _ _ Hn) as (g & Hgi & Hg0 & Hnone & Hc & Hd).
  rewrite Hg0. cbn [expect mbind outcome_bind]. rewrite Hnone. cbn [negb rassert mbind outcome_bind].
  assert (HCd : groups_content top (drop i gs)) by (intros x Hx%elem_of_drop; by apply HC).
  destruct (HCd g) as (HC1 & HC2 & HC3); [by eapply list_elem_of_lookup_2|]. specialize (HC3 Hnone).
  assert (Hrep : ∀ g', pending_content (pending g') → config_content (config_packet g') → pg_seq g' = pg_seq g →
    groups_content top (<[0%nat := g']> (drop i gs))).
  { intros g' Hp' Hc' Hs' x Hx. destruct (elem_of_replace _ _ _ _ _ Hg0 Hx) as [->|?]; [|by apply HCd]. split_and!; [done|done|lia]. }
  destruct c.
  - destruct (config_packet g) as [|p|] eqn:Hp; try done. cbn. intros [= <- <-]. split; [by apply Hrep|done].
  - destruct (datagrams (pending g)) as [|d ds] eqn:Hds; [done|]. intros [= <- <-]. destruct HC1 as [HC1 HC1']. rewrite Hds in HC1.
    split; [|apply HC1; by left]. apply Hrep; [|done|done]. split; cbn.
    + intros x Hx. apply HC1. by right.
    + intros x Hx%elem_of_drop. by apply HC1'.
Qed.

(** ** [process] *)

(** The messages of the session *)
Definition genuine (ev : Event) : Prop :=
  match ev with
  | EvMsg (RStream m) =>
      match sm_packet m with
      | Codec _ => True
      | Media p => is_sent (sm_raw_kypacket_seq m) p ∧ is_config (header p) = true ∧
                   sm_raw_group_seq m = session_group plan (sm_raw_kypacket_seq m)
      | Hole _ => False
      end
  | EvMsg (RDatagram m) =>
      ∃ p i, is_sent (dm_raw_kypacket_seq m) p ∧ is_config (header p) = false ∧
             dm_raw_group_seq m = session_group plan (dm_raw_kypacket_seq m) ∧
             segments_of (dm_raw_kypacket_seq m) !! i = Some (dm_data m) ∧ dm_number m = Z.of_nat i ∧
             dm_end m = bool_decide (i + 1 = length (segments_of (dm_raw_kypacket_seq m)))%nat
  | _ => True
  end.

(** The configs arrive in order, from groups after [top]. *)
Fixpoint configs_ordered (top : Z) (evs : list Event) : Prop :=
  match evs with
  | EvMsg (RStream m) :: evs =>
      match sm_packet m with
      | Codec _ => configs_ordered top evs
      | _ => top < sm_raw_group_seq m ∧ configs_ordered (sm_raw_group_seq m) evs
      end
  | _ :: evs => configs_ordered top evs
  | [] => True
  end.

Definition client_content (e : option Z * AVPacket) : Prop :=
  match e.1 with
  | Some k => ∃ p, is_sent k p ∧ e.2 = Media p
  | None => ∃ c, e.2 = Codec c
  end.

(** The codec packet of a message *)
Definition codec_event (ev : Event) : option CodecPacket :=
  match ev with EvMsg (RStream m) => codec_of (sm_packet m) | _ => None end.

Record session_inv (d0 top : Z) (codecs : list CodecPacket) (s : Process) : Prop := {
  si_order : ∃ nk ng, process_inv (session_group plan) (session_cfg plan) d0 nk ng s ∧ nk < 2 ^ 31 ∧ ng < 2 ^ 31;
  si_groups : groups_content top (pending_groups s);
  si_client : Forall client_content (client s);
  si_codecs : omap codec_of (snd <$> client s) = codecs;
}.

Lemma session_init d0 stats : d0 = default 0 (dropped_packets stats) → session_inv d0 0 [] (process_init stats).
Proof.
  intros ->. split; [exists 0, 0; split; [apply process_init_inv|done]| |constructor|done].
  intros g Hg. by apply not_elem_of_nil in Hg.
Qed.

Lemma stamped_session nk ng k :
  0 ≤ nk < 2 ^ 31 → 0 ≤ ng < 2 ^ 31 → 0 ≤ k < 2 ^ 31 → stamped (session_group plan) nk ng k (session_group plan k) k.
Proof.
  intros Hn Hg Hk. pose proof (session_group_bound k) as Hb. unfold stamped.
  change (range SeqU32) with (2 ^ 32). change (half_range SeqU32) with (2 ^ 31).
  rewrite !Z.mod_small by lia. split_and!; lia.
Qed.

(** Both sequencers give back the numbers of a message of the session. *)
Lemma unroll_session d0 top cod k s :
  session_inv d0 top cod s → 0 ≤ k < 2 ^ 31 →
  ∃ s1, unroll k (session_group plan k) s = (s1, Ok (k, session_group plan k)) ∧ session_inv d0 top cod s1 ∧
    pending_groups s1 = pending_groups s.
Proof.
  intros [(nk & ng & Hinv & Hnk & Hng) Hgs Hcl Hcod] Hk. pose proof Hinv as [[_ Hk0] [_ Hg0] _ _ _ _ _].
  destruct (unroll_inv _ _ d0 nk ng _ _ _ _ Hinv (stamped_session nk ng k ltac:(lia) ltac:(lia) Hk)) as (s1 & Hu & Hinv1 & Hnx).
  assert (pending_groups s1 = pending_groups s ∧ client s1 = client s) as [Hpg Hc].
  { unfold unroll in Hu. destruct (seq _ _ k), (seq _ _ (session_group plan k)). by injection Hu as <- _. }
  exists s1. split; [done|]. split; [|done]. pose proof (session_group_bound k).
  split; [eexists _, _; split; [exact Hinv1|lia]|by rewrite Hpg|by rewrite Hc..].
Qed.

Lemma take_step_session d0 top cod now s :
  session_inv d0 top cod s → ∃ s', take_step now s = (s', Ok tt) ∧ session_inv d0 top cod s'.
Proof.
  intros [(nk & ng & Hinv & Hb) Hgs Hcl Hcod]. destruct (take_step now s) as [s' r] eqn:Ht.
  destruct (take_step_inv _ _ _ _ _ _ _ _ _ Hinv Ht) as [-> Hinv']. exists s'. split; [done|].
  unfold take_step in Ht. destruct (take_next_packet _ _ _) as [[a gs]|e|] eqn:Htake; [|done..].
  destruct (take_next_content _ _ _ _ _ _ Hgs Htake) as [Hgs' Ha].
  pose proof Hinv as [_ _ _ _ _ _ Ho].
  destruct a as [k packet|d|]; [|injection Ht as <-; split; [by eexists _, _|done..]..].
  unfold send_client, set_next, set_groups in Ht; run_handler in Ht. cbn [client_open] in Ht. rewrite Ho in Ht. injection Ht as <-.
  split; [by eexists _, _|done|..]; cbn.
  - apply Forall_app. split; [done|]. by repeat constructor.
  - destruct Ha as (p & _ & ->). by rewrite fmap_app, omap_app, Hcod, app_nil_r.
Qed.

Lemma update_session d0 top top' cod f s :
  session_inv d0 top cod s →
  (∃ gs', f (pending_groups s) = Ok gs' ∧ groups_content top' gs' ∧ groups_inv (session_group plan) (session_cfg plan) (next_kypacket_seq s) gs') →
  ∃ s', update_groups f s = (s', Ok tt) ∧ session_inv d0 top' cod s'.
Proof.
  intros [(nk & ng & Hinv & Hb) Hgs Hcl Hcod] (gs' & Hf & HC & HI). unfold update_groups. rewrite Hf. eexists. split; [done|].
  split; [|done..]. exists nk, ng. split; [|done]. by destruct Hinv.
Qed.

Lemma handle_event_session d0 top cod now ev evs s :
  session_inv d0 top cod s → genuine ev → configs_ordered top (ev :: evs) →
  ∃ s' fl top', handle_event now ev s = (s', Ok fl) ∧ (fl = Return ↔ ev = EvEnd) ∧ session_inv d0 top' (cod ++ option_list (codec_event ev)) s' ∧ configs_ordered top' evs.
Proof.
  intros Hinv Hgen Hord. destruct ev as [[m|m]| |]; cbn [handle_event genuine configs_ordered codec_event] in *; rewrite ?app_nil_r.
  - destruct (sm_packet m) as [c|p|] eqn:Hp; cbn [codec_of option_list]; [| |done].
    { pose proof Hinv as [(nk & ng & Ho & Hb) Hgs Hcl Hcod]. unfold send_client; run_handler. rewrite (pi_open _ _ _ _ _ _ Ho).
      eexists _, _, top. split; [done|]. split; [done|]. split; [|done]. split; [|done|..].
      - exists nk, ng. split; [|done]. eapply send_client_inv; [done|]. unfold send_client. by rewrite (pi_open _ _ _ _ _ _ Ho).
      - cbn. apply Forall_app. split; [done|]. repeat constructor. by exists c.
      - cbn. by rewrite fmap_app, omap_app, Hcod. }
    rewrite app_nil_r. destruct Hgen as (Hs & Hcf & Hg), Hord as [Htop Hord]. rewrite Hg in Htop, Hord |- *.
    destruct (unroll_session _ _ _ _ _ Hinv (is_sent_bound _ _ Hs)) as (s1 & Hu & Hinv1 & _).
    rewrite (handler_bind_eq _ _ _ _ _ Hu), (handler_bind_eq _ _ s1 s1 (next_kypacket_seq s1) eq_refl).
    pose proof Hinv1 as [(nk & ng & Ho & Hb) Hgs Hcl Hcod].
    destruct (Z.leb_spec (next_kypacket_seq s1) (sm_raw_kypacket_seq m)) as [Hle|]; last first.
    { eexists _, _, (session_group plan (sm_raw_kypacket_seq m)). split; [done|]. split; [done|]. split; [|done]. split; [by eexists _, _| |done..].
      intros g Hg'. destruct (Hgs g Hg') as (? & ? & Ht). split_and!; [done|done|]. intros Hn. specialize (Ht Hn). lia. }
    pose proof (pi_groups _ _ _ _ _ _ Ho) as HI.
    destruct (insert_stream_content (E:=ProtocolError) _ _ _ _ _ HI Hgs Hs Htop) as (gs' & Hins & HC).
    destruct (update_session _ _ (session_group plan (sm_raw_kypacket_seq m)) _ (insert_stream_packet (session_group plan (sm_raw_kypacket_seq m)) (sm_raw_kypacket_seq m) (Media p)) _ Hinv1) as (s2 & Hup & Hinv2).
    { exists gs'. split_and!; [done|done|]. eapply insert_stream_packet_inv; [exact HI|exact Hle|reflexivity| |exact Hins]. by apply (is_sent_cfg _ _ Hs). }
    rewrite (handler_bind_eq _ _ _ _ _ Hup). by eexists _, _, _.
  - destruct Hgen as (p & i & Hs & Hcf & Hg & Hseg & Hnum & Hend). rewrite Hg.
    destruct (unroll_session _ _ _ _ _ Hinv (is_sent_bound _ _ Hs)) as (s1 & Hu & Hinv1 & _).
    rewrite (handler_bind_eq _ _ _ _ _ Hu), (handler_bind_eq _ _ s1 s1 (next_kypacket_seq s1) eq_refl).
    pose proof Hinv1 as [(nk & ng & Ho & Hb) Hgs Hcl Hcod].
    destruct (Z.ltb_spec (dm_raw_kypacket_seq m) (next_kypacket_seq s1)) as [|Hle]; [by eexists _, _, _|].
    pose proof (pi_groups _ _ _ _ _ _ Ho) as HI. rewrite Hnum, Hend, Nat2Z.id.
    destruct (insert_datagram_groups (E:=ProtocolError) now _ _ _ _ _ _ _ HI Hgs Hs Hcf Hseg) as (gs' & Hins & HC).
    destruct (update_session _ _ top _ (groups_insert_datagram now (session_group plan (dm_raw_kypacket_seq m)) (dm_raw_kypacket_seq m) i
      (bool_decide (i + 1 = length (segments_of (dm_raw_kypacket_seq m)))%nat) (dm_data m)) _ Hinv1) as (s2 & Hup & Hinv2).
    { exists gs'. split_and!; [done|done|]. eapply groups_insert_datagram_inv; [exact HI| |exact Hins].
      split_and!; [done|done|]. by rewrite (is_sent_cfg _ _ Hs), Hcf. }
    rewrite (handler_bind_eq _ _ _ _ _ Hup). by eexists _, _, _.
  - by eexists _, _, _.
  - by eexists _, _, _.
Qed.

Lemma step_session d0 top cod now1 now2 ev evs s :
  session_inv d0 top cod s → genuine ev → configs_ordered top (ev :: evs) →
  ∃ s' b top', step now1 now2 ev s = (s', Ok b) ∧ (b = false ↔ ev = EvEnd) ∧ session_inv d0 top' (cod ++ option_list (codec_event ev)) s' ∧ configs_ordered top' evs.
Proof.
  intros Hinv Hgen Hord. destruct (handle_event_session _ _ _ now1 _ _ _ Hinv Hgen Hord) as (s1 & fl & top' & Hh & Hfl & Hinv1 & Hord1).
  unfold step. rewrite (handler_bind_eq _ _ _ _ _ Hh). destruct fl.
  - destruct (take_step_session _ _ _ now2 _ Hinv1) as (s2 & Ht & Hinv2). rewrite (handler_bind_eq _ _ _ _ _ Ht).
    eexists _, _, _. split; [done|]. split; [|done]. naive_solver.
  - eexists _, _, _. split; [done|]. split; [|done]. naive_solver.
  - eexists _, _, _. split; [done|]. split; [|done]. naive_solver.
Qed.

Lemma run_session d0 top cod evs s :
  session_inv d0 top cod s → Forall genuine (snd <$> evs) → configs_ordered top (snd <$> evs) →
  ∃ s' top' cod', run evs s = (s', Ok tt) ∧ session_inv d0 top' cod' s'.
Proof.
  revert top cod s. induction evs as [|[[now1 now2] ev] evs IH]; intros top cod s Hinv Hgen Hord; cbn [run]; [by eexists _, _, _|].
  cbn in Hgen. apply Forall_cons in Hgen as [Hg Hgen].
  destruct (step_session _ _ _ now1 now2 _ _ _ Hinv Hg Hord) as (s1 & b & top' & Hs & _ & Hinv1 & Hord1).
  rewrite (handler_bind_eq _ _ _ _ _ Hs). destruct b; [by eapply IH|by eexists _, _, _].
Qed.
End Session.

(** ** What was forwarded *)

(** Elements at increasing positions form a sublist. *)
Lemma positions_sublist {A} (l : list A) (ks : list Z) (xs : list A) n :
  Forall2 (λ k x, Z.of_nat n ≤ k ∧ l !! Z.to_nat k = Some x) ks xs → sorted_by id ks → xs `sublist_of` drop n l.
Proof.
  revert xs n. induction ks as [|k ks IH]; intros xs n H Hs.
  { apply Forall2_nil_inv_l in H as ->. apply sublist_nil_l. }
  apply Forall2_cons_inv_l in H as (x & xs' & [Hk Hx] & H & ->). apply sorted_cons in Hs as [Hs Hlt].
  assert (Hd : drop n l = take (Z.to_nat k - n) (drop n l) ++ x :: drop (S (Z.to_nat k)) l).
  { rewrite <- (take_drop (Z.to_nat k - n) (drop n l)) at 1. f_equal. rewrite drop_drop.
    replace (n + (Z.to_nat k - n))%nat with (Z.to_nat k) by lia. by apply drop_S. }
  rewrite Hd. apply sublist_inserts_l, sublist_skip, IH; [|done].
  rewrite Forall_forall in Hlt. rewrite Forall2_lookup in *. intros i. specialize (H i). inversion H as [k' x' [Hk' Hx'] E1 E2|E1 E2].
  - constructor. split; [|done]. symmetry in E1. apply list_elem_of_lookup_2 in E1. specialize (Hlt k' E1). cbn in Hlt. lia.
  - constructor.
Qed.

Lemma client_sublist `{Session} l :
  Forall client_content l → sorted_by id (omap fst l) → omap media_of (snd <$> l) `sublist_of` sent_packets.
Proof.
  intros Hc Hs. rewrite <- (drop_0 sent_packets). apply (positions_sublist _ (omap fst l)); [|done]. clear Hs.
  induction Hc as [|[[k|] p] l (m & Hm) Hc IH]; [constructor| |].
  - destruct Hm as [[Hk Hl] Hp]. cbn in Hp. subst p. cbn. constructor; [|exact IH]. split; [lia|done].
  - cbn in Hm. subst p. exact IH.
Qed.

(** For the messages of a session, whatever their order (the configs, which
    share a stream, excepted), their loss and their duplication, and whatever
    the deadlines, [process] neither panics nor fails, and the media packets it
    forwards are packets of the session, intact, in order, each at most once. *)
Theorem video_session_intact `{SO : SessionOk} evs stats :
  Forall genuine (snd <$> evs) → configs_ordered 0 (snd <$> evs) →
  ∃ s, run evs (process_init stats) = (s, Ok tt) ∧ omap media_of (snd <$> client s) `sublist_of` sent_packets.
Proof.
  intros Hg Ho. destruct (run_session _ _ _ evs _ (session_init _ stats eq_refl) Hg Ho) as (s & top & cod & Hr & [(nk & ng & Hinv & _) _ Hc _]).
  exists s. split; [done|]. apply client_sublist; [done|apply Hinv].
Qed.
