(* ===== verification/VideoEndToEnd.v ===== *)
(** * Unreliable video from end to end

    What [VideoUnreliableProtocolSendDriver::send] puts on the stream and in
    datagrams for a whole session, read by the tasks of the receiving driver:
    whatever the network does to the datagrams, however much of the stream gets
    through and however the tasks are scheduled, the client receives packets of
    the session, intact and in order. *)

From stdpp Require Import prelude list strings.
From Stdlib Require Import ZArith Lia.
From S2P Require Import Prelude SortedVec Sequencer Io Av Packets Channel Reassembly Router ReceiveTasks StreamSession VideoUnreliable VideoTransfer VideoOrder VideoReceive VideoSession.
Open Scope Z_scope.

(** ** The sender *)

Fixpoint send_all (l : list AVPacket) : sending unit :=
  match l with
  | [] => mret tt
  | p :: l => _ ← send p; send_all l
  end.

(** The driver on a connection that does not fail *)
Definition driver_at (id max : Z) (sent : list bytes) (out : bytes) (k g : Z) : SendDriver :=
  {| ky_channel := open_channel id max sent; stream := open_writer out; kypacket_seq := k; group_seq := g |}.

(** The messages of the stream, for a session that goes on from packet [k] and group [g] *)
Fixpoint stream_messages (k g : Z) (l : list AVPacket) : list StreamMsg :=
  match l with
  | [] => []
  | Media p :: l =>
      if is_config (header p)
      then {| sm_packet := Media p; sm_raw_kypacket_seq := k; sm_raw_group_seq := g + 1 |} :: stream_messages (k + 1) (g + 1) l
      else stream_messages (k + 1) g l
  | p :: l => {| sm_packet := p; sm_raw_kypacket_seq := 0; sm_raw_group_seq := 0 |} :: stream_messages k g l
  end.

Definition message_bytes (m : StreamMsg) : bytes :=
  be_bytes 4 (sm_raw_kypacket_seq m) ++ be_bytes 4 (sm_raw_group_seq m) ++ av_image (sm_packet m).

Definition stream_bytes (ms : list StreamMsg) : bytes := concat (message_bytes <$> ms).

(** The segments of a media packet *)
Definition packet_segments (max : Z) (p : MediaPacket) : list bytes :=
  chunks (length (media_image p)) (Z.to_nat (max - DATAGRAM_HEADER_SIZE)) (media_image p).

Fixpoint session_datagrams (id max k g : Z) (l : list AVPacket) : list bytes :=
  match l with
  | [] => []
  | Media p :: l =>
      if is_config (header p) then session_datagrams id max (k + 1) (g + 1) l
      else wire_datagrams (driver_at id max [] [] k g) 0 (packet_segments max p) ++ session_datagrams id max (k + 1) g l
  | _ :: l => session_datagrams id max k g l
  end.

Lemma wire_driver_at id max sent out k g n cs :
  wire_datagrams (driver_at id max sent out k g) n cs = wire_datagrams (driver_at id max [] [] k g) n cs.
Proof. revert n. induction cs as [|c cs IH]; intros n; [done|]. cbn [wire_datagrams]. by rewrite IH. Qed.

(** What may be sent: codecs and media packets that fit in [2^31] segments *)
Definition sendable (p : AVPacket) : Prop :=
  wf_av p ∧ match p with Media m => blen (payload m) ≤ 2 ^ 31 - 12 | Codec _ => True | Hole _ => False end.

Section Sender.
Context (id max : Z) (Hmax : DATAGRAM_HEADER_SIZE < max < DATAGRAM_HEADER_SIZE + 2 ^ 16).

Lemma send_datagrams_at p sent out k g :
  wf_media (header p) →
  send_datagrams p (driver_at id max sent out k g) =
    (driver_at id max (sent ++ wire_datagrams (driver_at id max [] [] k g) 0 (packet_segments max p)) out k g, Ok tt).
Proof.
  intros Hwf. unfold send_datagrams, DATAGRAM_HEADER_SIZE in *. run_handler. cbn [ky_channel driver_at open_channel max_datagram_size ok_or].
  destruct (Z.ltb_spec 14 max); [|lia]. cbn [rassert]. rewrite (media_serialize_eq _ Hwf).
  change ((be_bytes 8 (pts_and_flags (header p)) ++ be_bytes 4 (size (header p))) ++ payload p) with (media_image p).
  change {| ky_channel := open_channel id max sent; stream := open_writer out; kypacket_seq := k; group_seq := g |} with (driver_at id max sent out k g).
  rewrite send_loop_open by (done || lia). unfold packet_segments, DATAGRAM_HEADER_SIZE. by rewrite drop_0, wire_driver_at.
Qed.

Lemma send_all_at l sent out k g :
  Forall sendable l → 0 ≤ k → 0 ≤ g → k + Z.of_nat (length l) < 2 ^ 31 → g + Z.of_nat (length l) < 2 ^ 31 →
  ∃ k' g', send_all l (driver_at id max sent out k g) =
    (driver_at id max (sent ++ session_datagrams id max k g l) (out ++ stream_bytes (stream_messages k g l)) k' g', Ok tt).
Proof.
  intros Hl. revert sent out k g. induction Hl as [|p l [Hwf Hp] Hl IH]; intros sent out k g Hk Hg Hkl Hgl; cbn [send_all].
  { exists k, g. unfold stream_bytes. cbn. by rewrite !app_nil_r. }
  cbn [length] in Hkl, Hgl. destruct p as [c|p|h]; [| |done].
  - assert (Hs : send (Codec c) (driver_at id max sent out k g) = (driver_at id max sent (out ++ be_bytes 8 0 ++ codec_image (codec_header c)) k g, Ok tt)).
    { unfold send. run_handler. by rewrite codec_serialize_eq. }
    rewrite (handler_bind_eq _ _ _ _ _ Hs).
    destruct (IH sent (out ++ be_bytes 8 0 ++ codec_image (codec_header c)) k g ltac:(lia) ltac:(lia) ltac:(lia) ltac:(lia)) as (k' & g' & ->).
    exists k', g'. unfold stream_bytes. cbn [session_datagrams stream_messages fmap list_fmap concat]. by rewrite <- app_assoc.
  - destruct Hwf as [Hwf Hsz]. cbn [session_datagrams stream_messages]. destruct (is_config (header p)) eqn:Hc.
    + assert (Hs : send (Media p) (driver_at id max sent out k g) =
        (driver_at id max sent (out ++ (be_bytes 4 k ++ be_bytes 4 (g + 1)) ++ media_image p) (k + 1) (g + 1), Ok tt)).
      { unfold send. rewrite Hc. run_handler. unfold set_seqs. cbn [kypacket_seq group_seq driver_at ky_channel stream].
        rewrite (media_serialize_eq _ Hwf). unfold wrap32. rewrite !Z.mod_small by lia. unfold on_stream. cbn [stream].
        rewrite write_all_open. cbn -[be_bytes Z.add]. rewrite Z.mod_small by lia. done. }
      rewrite (handler_bind_eq _ _ _ _ _ Hs).
      destruct (IH sent (out ++ (be_bytes 4 k ++ be_bytes 4 (g + 1)) ++ media_image p) (k + 1) (g + 1) ltac:(lia) ltac:(lia) ltac:(lia) ltac:(lia)) as (k' & g' & ->).
      exists k', g'. unfold stream_bytes. cbn [fmap list_fmap concat]. unfold message_bytes at 2. cbn [sm_raw_kypacket_seq sm_raw_group_seq sm_packet av_image].
      fold (media_image p). by rewrite <- !app_assoc.
    + assert (Hs : send (Media p) (driver_at id max sent out k g) =
        (driver_at id max (sent ++ wire_datagrams (driver_at id max [] [] k g) 0 (packet_segments max p)) out (k + 1) g, Ok tt)).
      { unfold send. rewrite Hc. rewrite (handler_bind_eq _ _ _ _ _ (send_datagrams_at p sent out k g Hwf)). unfold modifyM, set_seqs, wrap32.
        cbn [driver_at kypacket_seq group_seq stream ky_channel]. by rewrite Z.mod_small by lia. }
      rewrite (handler_bind_eq _ _ _ _ _ Hs).
      destruct (IH (sent ++ wire_datagrams (driver_at id max [] [] k g) 0 (packet_segments max p)) out (k + 1) g ltac:(lia) ltac:(lia) ltac:(lia) ltac:(lia)) as (k' & g' & ->).
      exists k', g'. by rewrite <- app_assoc.
Qed.
End Sender.

(** ** The stream *)

Lemma av_read_extend r p r' R extra :
  av_read r = Ok (Some p, r') → rd_data R = rd_data r ++ extra → ∃ R', av_read R = Ok (Some p, R') ∧ rd_data R' = rd_data r' ++ extra.
Proof.
  unfold av_read. intros Hr HR. destruct (read_exact SERIALIZED_SIZE r) as [[hdr r1]|[]|] eqn:H1; try done.
  destruct (read_exact_extend _ _ _ _ _ _ H1 HR) as (R1 & -> & HR1). destruct (av_deserialize hdr) as [[h|h|h]|e|]; try done; cbn [mbind outcome_bind] in *.
  all: try (injection Hr as <- <-; by eexists).
  destruct (read_exact (Z.to_nat (size h)) r1) as [[buf r2]|e|] eqn:H2; try done. cbn [mbind outcome_bind] in *. injection Hr as <- <-.
  destruct (read_exact_extend _ _ _ _ _ _ H2 HR1) as (R2 & -> & HR2). by eexists.
Qed.

Lemma recv_stream_packet_extend r m r' R extra :
  recv_stream_packet r = Ok (m, r') → rd_data R = rd_data r ++ extra →
  ∃ R', recv_stream_packet R = Ok (m, R') ∧ rd_data R' = rd_data r' ++ extra.
Proof.
  unfold recv_stream_packet. intros Hr HR. destruct (read_exact 8 r) as [[seqs r1]|e|] eqn:H1; try done.
  destruct (read_exact_extend _ _ _ _ _ _ H1 HR) as (R1 & -> & HR1). cbn [map_err mbind outcome_bind] in *.
  destruct (av_read r1) as [[[p|] r2]|e|] eqn:H2; try done. destruct (av_read_extend _ _ _ _ _ H2 HR1) as (R2 & -> & HR2).
  cbn [map_err mbind outcome_bind ok_or] in *. injection Hr as <- <-. by eexists.
Qed.

Definition wf_message (m : StreamMsg) : Prop := wf_av (sm_packet m) ∧ is_u32 (sm_raw_kypacket_seq m) ∧ is_u32 (sm_raw_group_seq m).

Lemma recv_stream_packet_ok m r rest :
  wf_message m → rd_data r = message_bytes m ++ rest → ∃ r', recv_stream_packet r = Ok (RStream m, r') ∧ rd_data r' = rest.
Proof.
  intros (Hwf & Hk & Hg) Hd. unfold message_bytes in Hd. rewrite app_assoc, <- app_assoc in Hd. unfold recv_stream_packet.
  destruct (read_exact_app 8 r _ _ Hd) as (r1 & -> & Hd1 & _); [by rewrite length_app, !be_bytes_length|]. cbn [map_err mbind outcome_bind].
  destruct (av_read_ok _ _ _ Hwf Hd1) as (r2 & -> & Hd2 & _). cbn [map_err mbind outcome_bind ok_or].
  rewrite slice_app_l, slice_app_r by by rewrite be_bytes_length. rewrite !read_be_be4 by done. exists r2. by destruct m.
Qed.

(** The bytes of a message on the stream *)
Definition image (m : RecvMsg) : bytes := match m with RStream m => message_bytes m | RDatagram _ => [] end.
Definition wf_image (m : RecvMsg) : Prop := match m with RStream m => wf_message m | RDatagram _ => False end.

#[export] Instance video_codec : StreamCodec video_driver image wf_image.
Proof.
  split.
  - intros [m|m] r rest Hm Hd; [by apply recv_stream_packet_ok|done].
  - intros r m r' R extra. apply recv_stream_packet_extend.
  - intros r m r' Hd Hr. cbn in Hr. unfold recv_stream_packet in Hr. rewrite read_exact_short in Hr by (rewrite Hd; cbn; lia). done.
Qed.

Lemma stream_bytes_image ms : stream_bytes ms = concat (image <$> (RStream <$> ms)).
Proof. unfold stream_bytes. by rewrite <- list_fmap_compose. Qed.

(** ** The messages of the sender are those of a session *)

Lemma length_omap_le {A B} (f : A → option B) (l : list A) : (length (omap f l) ≤ length l)%nat.
Proof. induction l as [|x l IH]; cbn; [lia|]. destruct (f x); cbn; lia. Qed.

(** The numbers of the packet and of the group that follow [l1] *)
Definition number_after (l1 : list AVPacket) : Z := Z.of_nat (length (omap media_of l1)).
Definition configs_of (l1 : list AVPacket) : Z :=
  Z.of_nat (length (List.filter id ((λ p, is_config (header p)) <$> omap media_of l1))).

Lemma number_snoc l1 p : number_after (l1 ++ [p]) = number_after l1 + match media_of p with Some _ => 1 | None => 0 end.
Proof. unfold number_after. rewrite omap_app, length_app. destruct p; cbn; lia. Qed.

Lemma configs_snoc l1 p :
  configs_of (l1 ++ [p]) = configs_of l1 + match p with Media m => if is_config (header m) then 1 else 0 | _ => 0 end.
Proof.
  unfold configs_of. rewrite omap_app, fmap_app, List.filter_app, length_app. destruct p as [|m|]; cbn; [lia| |lia].
  destruct (is_config (header m)); cbn; lia.
Qed.

Section Messages.
Context (endpoint max : Z) (Hmax : DATAGRAM_HEADER_SIZE < max < DATAGRAM_HEADER_SIZE + 2 ^ 16).
Context (l : list AVPacket) (Hl : Forall sendable l) (Hlen : Z.of_nat (length l) < 2 ^ 31).

Lemma sender_short : Z.of_nat (length (omap media_of l)) < 2 ^ 31.
Proof. pose proof (length_omap_le media_of l). lia. Qed.

#[local] Instance sender_session : Session := {|
  sent_packets := omap media_of l;
  segments_of k := from_option (packet_segments max) [] (omap media_of l !! Z.to_nat k);
  session_short := sender_short;
|}.

Lemma is_sent_sendable k p : is_sent k p → sendable (Media p).
Proof.
  intros [_ Hp]. apply list_elem_of_lookup_2 in Hp. cbn in Hp. apply list_elem_of_omap in Hp as (q & Hq & Hm).
  rewrite Forall_forall in Hl. destruct q; try done. injection Hm as ->. by apply Hl.
Qed.

Lemma segments_of_sent k p : is_sent k p → segments_of k = packet_segments max p.
Proof. intros [_ Hp]. cbn in *. by rewrite Hp. Qed.

Lemma packet_segments_concat p : concat (packet_segments max p) = media_image p.
Proof. apply chunks_concat; [unfold DATAGRAM_HEADER_SIZE in *; lia|done]. Qed.

Lemma media_image_length p : length (media_image p) = (12 + length (payload p))%nat.
Proof. unfold media_image. rewrite !length_app, !be_bytes_length. done. Qed.

#[local] Instance sender_session_ok : SessionOk.
Proof.
  split.
  - intros k p Hp. by destruct (is_sent_sendable _ _ Hp) as [[] _].
  - intros k p Hp _. rewrite (segments_of_sent _ _ Hp). apply packet_segments_concat.
  - intros k p Hp _. rewrite (segments_of_sent _ _ Hp). pose proof (packet_segments_concat p) as Hc. pose proof (media_image_length p).
    destruct (packet_segments max p); [|cbn; lia]. apply (f_equal length) in Hc. cbn in Hc. lia.
Qed.

Lemma sent_after l1 p l2 : l = l1 ++ Media p :: l2 →
  is_sent (number_after l1) p ∧
  session_group plan (number_after l1) = configs_of l1 + (if is_config (header p) then 1 else 0).
Proof.
  intros Heq. unfold is_sent, number_after, session_group, configs_of, plan. cbn [sent_packets sender_session].
  rewrite Heq, omap_app. cbn [omap list_omap media_of]. split.
  - split; [lia|]. rewrite Nat2Z.id, lookup_app_r, Nat.sub_diag by lia. done.
  - rewrite fmap_app, fmap_cons. replace (Z.to_nat (Z.of_nat (length (omap media_of l1)) + 1)) with (length ((λ p, is_config (header p)) <$> omap media_of l1) + 1)%nat by (rewrite length_fmap; lia).
    rewrite take_app_add. cbn [take]. rewrite take_0, List.filter_app, length_app. destruct (is_config (header p)); cbn; lia.
Qed.

Lemma stream_messages_genuine l1 l2 : l = l1 ++ l2 →
  Forall (λ m, genuine (EvMsg (RStream m))) (stream_messages (number_after l1) (configs_of l1) l2) ∧
  configs_ordered (configs_of l1) ((λ m, EvMsg (RStream m)) <$> stream_messages (number_after l1) (configs_of l1) l2).
Proof.
  revert l1. induction l2 as [|p l2 IH]; intros l1 Heq; [by split|].
  destruct (IH (l1 ++ [p])) as [IH1 IH2]; [by rewrite <- app_assoc|]. rewrite number_snoc, configs_snoc in IH1, IH2.
  assert (Hp : sendable p) by (rewrite Forall_forall in Hl; apply Hl; rewrite Heq; set_solver).
  destruct p as [c|p|h]; [| |by destruct Hp].
  - cbn [media_of] in *. rewrite !Z.add_0_r in IH1, IH2. cbn [stream_messages]. split; [by constructor|done].
  - cbn [media_of] in *. destruct (sent_after _ _ _ Heq) as [Hs Hg]. cbn [stream_messages].
    destruct (is_config (header p)) eqn:Hc; [|by rewrite Z.add_0_r in IH1, IH2]. split.
    + constructor; [|done]. cbn. by split_and!.
    + cbn [fmap list_fmap configs_ordered sm_packet sm_raw_group_seq]. split; [lia|done].
Qed.

Lemma session_datagrams_genuine l1 l2 b : l = l1 ++ l2 → Forall sendable l2 →
  b ∈ session_datagrams endpoint max (number_after l1) (configs_of l1) l2 →
  ∃ m, recv_datagram (E:=ProtocolError) b = Ok (RDatagram m) ∧ genuine (EvMsg (RDatagram m)).
Proof.
  revert l1. induction l2 as [|p l2 IH]; intros l1 Heq Hl2 Hb; [by apply not_elem_of_nil in Hb|].
  apply Forall_cons in Hl2 as [Hp Hl2]. specialize (IH (l1 ++ [p]) ltac:(by rewrite <- app_assoc) Hl2).
  rewrite number_snoc, configs_snoc in IH. destruct p as [c|p|h]; cbn [session_datagrams media_of] in *; [by rewrite !Z.add_0_r in IH; auto| |by destruct Hp].
  destruct (is_config (header p)) eqn:Hc; [by auto|]. apply elem_of_app in Hb as [Hb|Hb]; [|rewrite Z.add_0_r in IH; auto].
  destruct (sent_after _ _ _ Heq) as [Hs Hg]. rewrite Hc, Z.add_0_r in Hg.
  apply list_elem_of_lookup in Hb as [i Hi].
  assert (Hil : (i < length (packet_segments max p))%nat) by (rewrite <- (wire_datagrams_length (driver_at endpoint max [] [] (number_after l1) (configs_of l1)) 0); by eapply lookup_lt_Some).
  destruct (lookup_lt_is_Some_2 (packet_segments max p) i Hil) as [c Hci]. rewrite (wire_datagrams_lookup _ _ 0 i c Hci) in Hi. injection Hi as <-.
  assert (Hsegs : (length (packet_segments max p) ≤ length (media_image p))%nat) by apply chunks_length.
  rewrite media_image_length in Hsegs. destruct Hp as [_ Hpl]. unfold blen in Hpl.
  pose proof (is_sent_bound _ _ Hs) as Hb1. pose proof (session_group_bound (number_after l1)) as Hb2.
  eexists. split; [rewrite Z.add_0_l; apply recv_datagram_wire; unfold is_u32; cbn; lia|].
  cbn [genuine dm_raw_kypacket_seq dm_raw_group_seq dm_data dm_number dm_end driver_at kypacket_seq group_seq].
  exists p, i. rewrite (segments_of_sent _ _ Hs). by split_and!.
Qed.
End Messages.

(** ** The driver *)

Definition is_stream (ev : Event) : bool := match ev with EvMsg (RStream _) => true | _ => false end.

Definition stream_event (ev : Event) : option Event := if is_stream ev then Some ev else None.

Lemma stream_event_filter evs : omap stream_event evs = List.filter is_stream evs.
Proof. unfold stream_event. induction evs as [|ev evs IH]; [done|]. cbn. destruct (is_stream ev); by rewrite <- IH. Qed.

Lemma configs_ordered_filter top evs : configs_ordered top (List.filter is_stream evs) → configs_ordered top evs.
Proof.
  revert top. induction evs as [|[[m|m]| |] evs IH]; intros top; cbn [List.filter is_stream configs_ordered]; try done; [|apply IH..].
  destruct (sm_packet m); [apply IH|..]; (intros [? ?]; split; [done|by apply IH]).
Qed.

Lemma configs_ordered_prefix top evs1 evs2 : configs_ordered top (evs1 ++ evs2) → configs_ordered top evs1.
Proof.
  revert top. induction evs1 as [|[[m|m]| |] evs1 IH]; intros top; cbn [app configs_ordered]; try done; [|apply IH..].
  destruct (sm_packet m); [apply IH|..]; (intros [? ?]; split; [done|by eapply IH]).
Qed.

Lemma codec_event_filter evs : omap codec_event evs = omap codec_event (List.filter is_stream evs).
Proof. induction evs as [|[[m|m]| |] evs IH]; cbn; [done| |done..]. destruct (codec_of (sm_packet m)); by rewrite IH. Qed.

Lemma rounds_session `{SO : SessionOk} d0 top cod evs s s' r :
  session_inv d0 top cod s → Forall genuine (snd <$> evs) → configs_ordered top (snd <$> evs) → run_rounds evs s = (s', r) →
  (∃ b, r = Ok b) ∧ ∃ top' cod', session_inv d0 top' (cod ++ cod') s' ∧ cod' `prefix_of` omap codec_event (snd <$> evs).
Proof.
  revert top cod s. induction evs as [|[[now1 now2] ev] evs IH]; intros top cod s Hinv Hgen Hord; cbn [run_rounds].
  { intros [= <- <-]. split; [by eexists|]. exists top, []. by rewrite app_nil_r. }
  cbn in Hgen. apply Forall_cons in Hgen as [Hg Hgen].
  destruct (step_session _ _ _ now1 now2 _ _ _ Hinv Hg Hord) as (s1 & b & top' & Hs & _ & Hinv1 & Hord1).
  cbn [round video_driver]. cbn [fst snd]. rewrite Hs.
  assert (Hcod : option_list (codec_event ev) ++ omap codec_event (snd <$> evs) = omap codec_event (snd <$> (((now1, now2), ev) :: evs))).
  { cbn. by destruct (codec_event ev). }
  rewrite <- Hcod. destruct b.
  - intros Hr. destruct (IH _ _ _ Hinv1 Hgen Hord1 Hr) as (Hb & top2 & cod2 & Hinv2 & Hp). split; [done|].
    exists top2, (option_list (codec_event ev) ++ cod2). rewrite app_assoc. split; [done|]. by apply prefix_app.
  - intros [= <- <-]. split; [by eexists|]. exists top', (option_list (codec_event ev)). split; [done|]. by apply prefix_app_r.
Qed.

Lemma stream_messages_codecs k g l : Forall sendable l → omap codec_of (sm_packet <$> stream_messages k g l) = omap codec_of l.
Proof.
  intros Hl. revert k g. induction Hl as [|p l [_ Hp] Hl IH]; intros k g; [done|]. destruct p as [c|p|h]; [| |done].
  - cbn. by rewrite IH.
  - cbn [stream_messages omap list_omap codec_of]. destruct (is_config (header p)); cbn; apply IH.
Qed.

Lemma stream_messages_wf k g l : Forall sendable l → 0 ≤ k → 0 ≤ g → k + Z.of_nat (length l) < 2 ^ 31 → g + Z.of_nat (length l) < 2 ^ 31 →
  Forall wf_message (stream_messages k g l).
Proof.
  intros Hl. revert k g. induction Hl as [|p l [Hwf Hp] Hl IH]; intros k g Hk Hg Hkl Hgl; [constructor|]. cbn [length] in *.
  destruct p as [c|p|h]; [| |done]; cbn [stream_messages].
  - constructor; [done|]. apply IH; lia.
  - destruct (is_config (header p)); [constructor; [split_and!; [done|unfold is_u32; cbn; lia..]|]|]; apply IH; lia.
Qed.

(** The messages taken by [process] in a run whose stream and datagrams come from the sender *)
Lemma taken_of_sender endpoint max l stream stats acts s obs :
  DATAGRAM_HEADER_SIZE < max < DATAGRAM_HEADER_SIZE + 2 ^ 16 → ∀ (Hl : Forall sendable l) (Hlen : Z.of_nat (length l) < 2 ^ 31),
  rd_data stream `prefix_of` stream_bytes (stream_messages 0 0 l) →
  exec acts (video_start stream stats) = Some (s, obs) →
  (∀ b, b ∈ datagrams_read obs → b ∈ session_datagrams endpoint max 0 0 l) →
  (∀ ev, ev ∈ taken obs → genuine (SE := sender_session max l Hlen) ev) ∧
  List.filter is_stream (taken obs) `prefix_of` (λ m, EvMsg (RStream m)) <$> stream_messages 0 0 l.
Proof.
  intros Hmax Hl Hlen Hpre He Hdg. rewrite stream_bytes_image in Hpre.
  destruct (stream_messages_genuine max Hmax l Hl Hlen [] l eq_refl) as [Hgs _]. change (number_after []) with 0 in Hgs. change (configs_of []) with 0 in Hgs.
  set (P := λ m, ∃ d, m = RDatagram d ∧ genuine (SE := sender_session max l Hlen) (EvMsg m)).
  assert (Hwf : Forall wf_image (RStream <$> stream_messages 0 0 l)).
  { apply Forall_fmap. apply (stream_messages_wf 0 0 l Hl); lia. }
  destruct (taken_session (D := video_driver) image wf_image _ P Hwf _ _ _ _ _ Hpre He) as [Hin Hord].
  { intros b Hb. destruct (session_datagrams_genuine endpoint max l Hlen [] l b eq_refl Hl (Hdg b Hb)) as (m & Hm & Hg).
    exists (RDatagram m). split; [done|]. by exists m. }
  split.
  - intros ev Hev. destruct (Hin ev Hev) as [(m & Hm & ->)|[(m & (d & -> & Hg) & ->)|(err & e & Herr & _)]]; [|done|done].
    apply list_elem_of_fmap in Hm as (m' & -> & Hm). rewrite Forall_forall in Hgs. by apply Hgs.
  - rewrite <- stream_event_filter. assert (Heq : (λ m, EvMsg (RStream m)) <$> stream_messages 0 0 l = omap stream_event (EvMsg <$> (RStream <$> stream_messages 0 0 l))).
    { rewrite <- list_fmap_compose. clear. induction (stream_messages 0 0 l) as [|m ms IH]; [done|]. cbn. by f_equal. }
    rewrite Heq. apply (Hord _ stream_event); [by intros m (d & -> & _)|done].
Qed.

(** What the client receives of a session *)
Lemma session_received endpoint max l stream stats acts s obs :
  DATAGRAM_HEADER_SIZE < max < DATAGRAM_HEADER_SIZE + 2 ^ 16 → Forall sendable l → Z.of_nat (length l) < 2 ^ 31 →
  rd_data stream `prefix_of` stream_bytes (stream_messages 0 0 l) → exec acts (video_start stream stats) = Some (s, obs) →
  (∀ b, b ∈ datagrams_read obs → b ∈ session_datagrams endpoint max 0 0 l) →
  omap media_of (received obs) `sublist_of` omap media_of l ∧
  omap codec_of (received obs) `prefix_of` omap codec_of l ∧
  ∃ b, (run_rounds (rounds obs) (process_init stats)).2 = Ok b.
Proof.
  intros Hmax Hl Hlen Hpre He Hdg.
  destruct (taken_of_sender endpoint max l stream stats acts s obs Hmax Hl Hlen Hpre He Hdg) as [Hgen Hord].
  pose proof (rounds_of_taken (D := video_driver) obs) as Hin. pose proof (rounds_omap (D := video_driver) stream_event obs eq_refl eq_refl) as Hf. rewrite !stream_event_filter in Hf.
  destruct (driver_inv _ _ _ _ _ He) as [_ _ (r & Hrun & _) (rest & Hsent & _) _ _ _ _].
  pose (SS := sender_session max l Hlen). pose proof (sender_session_ok max Hmax l Hl Hlen) as SO.
  destruct (stream_messages_genuine max Hmax l Hl Hlen [] l eq_refl) as [_ Hco]. change (number_after []) with 0 in Hco. change (configs_of []) with 0 in Hco.
  assert (Hco' : configs_ordered 0 (snd <$> rounds obs)).
  { apply configs_ordered_filter. rewrite Hf. destruct Hord as [k' Hk']. rewrite Hk' in Hco. by eapply configs_ordered_prefix. }
  assert (Hall : Forall (genuine (SE := SS)) (snd <$> rounds obs)).
  { apply Forall_forall. intros ev Hev. destruct (Hin ev Hev) as [Ht|[->| ->]]; [by apply Hgen|done|done]. }
  destruct (rounds_session (SE := SS) _ _ _ _ _ _ _ (session_init _ stats eq_refl) Hall Hco' Hrun) as (Hb & top & cod & Hinv & Hcod).
  destruct Hinv as [(nk & ng & Hinv & _) _ Hcl Hcods]. cbn [app] in Hcods.
  cbn [ReceiveTasks.sent VideoReceive.video_driver process_init client fmap list_fmap app] in Hsent.
  split_and!.
  - etrans; [|apply (client_sublist (H:=SS) (client (process_state s)) Hcl), Hinv]. rewrite Hsent, omap_app. apply sublist_inserts_r. done.
  - assert (Hp1 : omap codec_of (received obs) `prefix_of` cod) by (rewrite <- Hcods, Hsent, omap_app; by apply prefix_app_r).
    etrans; [exact Hp1|]. etrans; [exact Hcod|]. rewrite codec_event_filter, Hf. destruct Hord as [k' Hk'].
    rewrite <- (stream_messages_codecs 0 0 l Hl). exists (omap codec_event k').
    rewrite <- omap_app, <- Hk'. clear. induction (stream_messages 0 0 l) as [|m ms IH]; [done|]. cbn. destruct (codec_of (sm_packet m)); by rewrite IH.
  - rewrite Hrun. exact Hb.
Qed.

(** C1: unreliable video from end to end.  The sender sends any session of
    codecs, configs and media packets; the network delivers any part of the
    stream and any of the datagrams, in any order and any number of times; the
    tasks of the receiver, the clock and the client are scheduled in any way, and
    the driver may be dropped at any point.  Then the media packets that [recv]
    returns are packets of the session, intact, in order and each at most once,
    the codecs it returns are the first ones of the session, in order, and
    [process] neither panics nor fails. *)
Theorem video_session_end_to_end endpoint max l :
  DATAGRAM_HEADER_SIZE < max < DATAGRAM_HEADER_SIZE + 2 ^ 16 → Forall sendable l → Z.of_nat (length l) < 2 ^ 31 →
  ∃ sent wire k g,
    send_all l (send_start (open_channel endpoint max []) (open_writer [])) = (driver_at endpoint max sent wire k g, Ok tt) ∧
    ∀ stream stats acts s obs,
      rd_data stream `prefix_of` wire → exec acts (video_start stream stats) = Some (s, obs) →
      (∀ b, b ∈ datagrams_read obs → b ∈ sent) →
      omap media_of (received obs) `sublist_of` omap media_of l ∧
      omap codec_of (received obs) `prefix_of` omap codec_of l ∧
      ∃ b, (run_rounds (rounds obs) (process_init stats)).2 = Ok b.
Proof.
  intros Hmax Hl Hlen. destruct (send_all_at endpoint max Hmax l [] [] 0 0 Hl ltac:(lia) ltac:(lia) ltac:(lia) ltac:(lia)) as (k & g & Hsend).
  exists (session_datagrams endpoint max 0 0 l), (stream_bytes (stream_messages 0 0 l)), k, g. split; [exact Hsend|].
  intros stream stats acts s obs Hpre He Hdg.
  by eapply session_received.
Qed.

(** ** A sample *)

Definition sample_session : list AVPacket :=
  [Codec {| codec_header := {| codec := 7; rotation := 0; Av.frame_size := 0 |} |};
   Media {| header := {| is_config := true; is_key := false; pts := 0; size := 2 |}; payload := [1; 2] |};
   Media {| header := {| is_config := false; is_key := true; pts := 5; size := 3 |}; payload := [3; 4; 5] |};
   Media {| header := {| is_config := false; is_key := false; pts := 6; size := 1 |}; payload := [6] |}].

Lemma sample_sendable : Forall sendable sample_session.
Proof. repeat constructor; vm_compute; intuition congruence. Qed.

Definition sample_wire : bytes * list bytes :=
  let d := (send_all sample_session (send_start (open_channel 5 20 []) (open_writer []))).1 in
  (w_out (stream d), datagrams_sent (ky_channel d)).

Definition sample_stream : Reader := {| rd_chunks := [sample_wire.1]; rd_fail := None |}.

(** All datagrams come before the stream, the last first; then the first one of
    each packet comes again; the stream is then closed. *)
Definition sample_actions : list (ReceiveTasks.Action (Time:=Instant * Instant)) :=
  concat ((λ b, [GotDatagram (inr b); PushDatagram; Round (0, 0) false]) <$> reverse sample_wire.2) ++
  concat (replicate 2 [ReadStream; PushStream; Round (1, 1) false; Deliver; Recv]) ++
  concat ((λ b, [GotDatagram (inr b); PushDatagram; Round (2, 2) false; Deliver; Recv]) <$> omap (λ i, sample_wire.2 !! i) [0%nat; 3%nat]) ++
  [ReadStream].

Example video_sample_received :
  (λ r, received r.2) <$> exec sample_actions (video_start sample_stream stats_default) = Some sample_session.
Proof. by vm_compute. Qed.

Lemma video_session_end_to_end_witness :
  ∃ sent wire k g,
    send_all sample_session (send_start (open_channel 5 20 []) (open_writer [])) = (driver_at 5 20 sent wire k g, Ok tt) ∧
    ∀ stream stats acts s obs,
      rd_data stream `prefix_of` wire → exec acts (video_start stream stats) = Some (s, obs) →
      (∀ b, b ∈ datagrams_read obs → b ∈ sent) →
      omap media_of (received obs) `sublist_of` omap media_of sample_session ∧
      omap codec_of (received obs) `prefix_of` omap codec_of sample_session ∧
      ∃ b, (run_rounds (rounds obs) (process_init stats)).2 = Ok b.
Proof. apply (video_session_end_to_end 5 20 sample_session); [by vm_compute|apply sample_sendable|by vm_compute]. Defined.

Lemma pipeline_refines_process_witness :
  let r := exec sample_actions (video_start sample_stream stats_default) in
  ∃ s obs, r = Some (s, obs) ∧
    (∃ r, run_rounds (rounds obs) (process_init stats_default) = (process_state s, r)) ∧
    received obs `prefix_of` ReceiveTasks.sent (process_state s) ∧
    (∃ evs1 evs2, interleaves evs1 evs2 (taken obs) ∧ queued_of (λ ms, ∃ r, reads sample_stream ms r) evs1 ∧
                  queued_of (parses (datagrams_read obs)) evs2) ∧
    (length (mq (queue s)) ≤ 16)%nat ∧ (length (mq (client_queue s)) ≤ 16)%nat.
Proof.
  destruct (exec sample_actions (video_start sample_stream stats_default)) as [[s obs]|] eqn:He.
  - exists s, obs. split; [done|]. by apply (pipeline_refines_process sample_stream (process_init stats_default) sample_actions s obs).
  - by vm_compute in He.
Defined.

Lemma pipeline_always_settles_witness :
  ∃ s obs, exec (take 18 sample_actions) (video_start sample_stream stats_default) = Some (s, obs) ∧
    ∃ acts' s' obs', Forall (λ a, a ∈ internal (0, 0)) acts' ∧ exec acts' s = Some (s', obs') ∧ settled s' ∧
      (process_returned s' = false → received (obs ++ obs') = ReceiveTasks.sent (process_state s')).
Proof.
  destruct (exec (take 18 sample_actions) (video_start sample_stream stats_default)) as [[s obs]|] eqn:He.
  - exists s, obs. split; [done|].
    apply (pipeline_always_settles (0, 0) sample_stream (process_init stats_default) (take 18 sample_actions) s obs); [done|done|].
    assert (Hs : (λ r, rx_open (client_queue r.1)) <$> exec (take 18 sample_actions) (video_start sample_stream stats_default) = Some true) by by vm_compute.
    rewrite He in Hs. by injection Hs.
  - by vm_compute in He.
Defined.
