(* ===== verification/VideoFecReceive.v ===== *)
(** * The receiving driver of video with FEC

    [VideoUnreliableFecProtocolRecvDriver] of [video_unreliable_fec.rs] as an
    instance of the pipeline of [ReceiveTasks]: whatever the peer sends and
    however the tasks are scheduled, the driver does not panic, holds bounded
    memory and tells its client of any failure. *)

From stdpp Require Import prelude list strings gmap.
From Stdlib Require Import ZArith Lia.
From S2P Require Import Prelude SortedVec Sequencer Io Av Packets Channel Reassembly Fec SystematicCode FecSafety VideoFecSafety VideoFecProcess Router ReceiveTasks ReceiveErrors VideoUnreliableFec.
Open Scope Z_scope.

(** ** The instance *)

Section Driver.
Context `{RL : RaptorQLaws}.

#[export] Instance video_fec_driver : ReceiveDriver RecvMsg Event Process (Clocks * (nat → Instant)) := {
  msg_read := recv_stream_packet;
  msg_parse b := m ← parse b; Ok (RDatagram m);
  ev_msg := EvMsg;
  ev_err := Some EvErr;
  ev_end := EvEnd;
  ev_deadline := EvDeadline;
  round t ev := step t.1 t.2 ev;
  wakes t s := match deadline s with Some d => d <=? t.2 0%nat | None => false end;
  sent s := snd <$> client s;
}.

(** [VideoUnreliableFecProtocolRecvDriver::start], once its stream is accepted *)
Definition video_fec_start (stream : Reader) (stats : ProtocolStats) : Pipeline (Event:=Event) (State:=Process) :=
  start stream (process_init stats).

Lemma video_fec_send_client_grows p : grows client (λ _, True) (send_client p).
Proof. intros s. unfold send_client. destruct (client_open s); (split; [|done]); [by apply prefix_app_r|done]. Qed.

Lemma video_fec_unroll_grows k g : grows client (λ _, True) (unroll k g).
Proof. intros s. unfold unroll. destruct (seq _ _ k), (seq _ _ g). done. Qed.

Lemma video_fec_update_grows f : grows client (λ _, True) (update_groups f).
Proof. intros s. unfold update_groups. by destruct (f _). Qed.

Lemma video_fec_take_step_grows now : grows client (λ _, True) (take_step now).
Proof.
  intros s. unfold take_step. destruct (take_next_packet _ _ _) as [[[k packet fec|i|] gs]|e|]; try done. cbv zeta.
  match goal with |- context [(_ ≫= _) ?s0] => pose proof (grows_bind client (λ _, True) _ (λ _, mret true) (video_fec_send_client_grows (Some k, packet)) (λ _, grows_ret client (λ _, True) true I) s0) as [Hg _] end.
  split; [exact Hg|done].
Qed.

#[local] Hint Resolve video_fec_send_client_grows video_fec_unroll_grows video_fec_update_grows video_fec_take_step_grows : grow.

Lemma video_fec_drain_loop_grows fuel nows i : grows client (λ _, True) (drain_loop fuel nows i).
Proof.
  revert i. induction fuel as [|fuel IH]; intros i; cbn [drain_loop]; [auto with grow|].
  apply grows_bind; [auto with grow|]. intros []; [apply IH|by apply grows_ret].
Qed.

Lemma video_fec_drain_grows nows : grows client (λ _, True) (drain nows).
Proof. intros s. apply video_fec_drain_loop_grows. Qed.

Lemma video_fec_handle_event_grows now ev : grows client (λ fl, fl = Return → ev = EvEnd) (handle_event now ev).
Proof.
  destruct ev as [[m|m]|e| |]; cbn [handle_event]; [destruct (sm_packet m)|..]; grow.
  intros s. by split; [|intros ? [=]].
Qed.

Lemma video_fec_step_grows now nows ev : grows client (λ b, b = false → ev = EvEnd) (step now nows ev).
Proof.
  intros s. pose proof (video_fec_handle_event_grows now ev s) as [H1 H2]. unfold step. run_handler.
  destruct (handle_event now ev s) as [s1 [fl|e|]]; cbn [fst snd] in *; [|by split|by split].
  destruct fl; cbn [fst snd]; [|split; [done|by intros ? [= <-]]|split; [done|intros ? _ _; by apply (H2 Return)]].
  pose proof (video_fec_drain_grows nows s1) as [H3 _].
  destruct (drain nows s1) as [s2 [[]|e|]]; cbn [fst snd] in *; (split; [by etrans|]); by intros ? [= <-].
Qed.

#[export] Instance video_fec_driver_laws : ReceiveDriverLaws video_fec_driver.
Proof.
  split; try done.
  - intros t ev s. cbn. destruct (video_fec_step_grows t.1 t.2 ev s) as [[k Hk] _]. rewrite Hk, fmap_app. by apply prefix_app_r.
  - intros t ev s Hr. by eapply (proj2 (video_fec_step_grows t.1 t.2 ev s)).
Qed.

#[export] Instance video_fec_driver_forwards : ForwardsErrors video_fec_driver EvErr.
Proof.
  split; try done.
  - intros r. cbn. unfold recv_stream_packet. apply bind_no_panic; [apply map_err_no_panic, read_exact_no_panic|intros [] _].
    apply bind_no_panic; [apply read_stream_packet_no_panic|by intros [] _].
  - intros b. cbn. unfold parse. apply bind_no_panic; [apply bind_no_panic; [apply parse_datagram_no_panic|by intros [[]] _]|done].
Qed.

(** ** The whole driver *)

(** The rounds of the pipeline are a run of [process]. *)
Lemma video_fec_run_rounds_run evs s : run evs s = ((run_rounds evs s).1, (λ _, tt) <$> (run_rounds evs s).2).
Proof.
  revert s. induction evs as [|[[now nows] ev] evs IH]; intros s; cbn [run run_rounds]; [done|].
  cbn [round video_fec_driver fst snd]. run_handler. destruct (step now nows ev s) as [s1 [[]|e|]]; [apply IH|done..].
Qed.

Lemma video_fec_rounds_safe evs stats : process_ok (run_rounds evs (process_init stats)).1 ∧ (run_rounds evs (process_init stats)).2 ≠ Panic.
Proof.
  destruct (safe_run evs _ (process_init_ok stats)) as (s & r & Hr & Hok & Hnp). rewrite video_fec_run_rounds_run in Hr. injection Hr as <- <-.
  split; [done|]. by destruct (run_rounds evs (process_init stats)) as [s' [|e|]].
Qed.

(** C9: the whole FEC video driver against a hostile peer: whatever bytes the
    stream and the datagrams carry and however the tasks, the clock and the
    client are scheduled, [process] never panics; the packets pending never
    exceed 128 objects, 256 MiB and 32 groups, nor either queue 16 items; and
    [recv] reports no end of the packets before it has returned an error. *)
Theorem video_fec_driver_safe stream stats acts s obs :
  exec acts (video_fec_start stream stats) = Some (s, obs) →
  (run_rounds (rounds obs) (process_init stats)).2 ≠ Panic ∧
  total_objects (pending_groups (process_state s)) ≤ 128 ∧
  total_bytes (pending_groups (process_state s)) ≤ 256 * 1024 * 1024 ∧
  Z.of_nat (length (groups (pending_groups (process_state s)))) ≤ 32 ∧
  (length (mq (queue s)) ≤ 16)%nat ∧ (length (mq (client_queue s)) ≤ 16)%nat ∧
  (Received (Ok None) ∈ obs → ∃ e, Received (Err e) ∈ obs).
Proof.
  intros He. destruct (driver_inv _ _ _ _ _ He) as [[_ Hq] [_ Hcq] (r & Hrun & _) _ _ _ _ _].
  destruct (video_fec_rounds_safe (rounds obs) stats) as [Hok Hnp]. rewrite Hrun in Hok |- *. rewrite Hrun in Hnp. destruct Hok as [_ (H1 & H2 & H3)].
  do 6 (split; [done|]).
  apply (end_only_after_error EvErr (process_init stats) (λ l, proj2 (video_fec_rounds_safe l stats)) stream acts s obs He).
Qed.
End Driver.

(** ** A sample: a truncated datagram *)

Definition sample_stream : Reader := {| rd_chunks := []; rd_fail := Some ConnectionAborted |}.

Definition sample_time : Clocks * (nat → Instant) := ({| at_admit := 0; at_create := 0; at_assemble := 0 |}, λ _, 0).

Definition sample_actions : list (ReceiveTasks.Action (Time:=Clocks * (nat → Instant))) :=
  [GotDatagram (inr [0; 5; 1]); PushDatagram; Round sample_time false; Deliver; Recv; Recv].

(** The client is told, then sees the end. *)
Example video_fec_sample_errors :
  option_map (λ r, omap (λ o, match o with Received r => Some r | _ => None end) (snd r)) (exec sample_actions (video_fec_start sample_stream stats_default)) =
  Some [Err (invalid "truncated datagram header"); Ok None].
Proof. by vm_compute. Qed.

Lemma video_fec_driver_safe_witness :
  ∃ s obs, exec (take 6 sample_actions) (video_fec_start sample_stream stats_default) = Some (s, obs) ∧
    (run_rounds (rounds obs) (process_init stats_default)).2 ≠ Panic ∧
    total_objects (pending_groups (process_state s)) ≤ 128 ∧
    total_bytes (pending_groups (process_state s)) ≤ 256 * 1024 * 1024 ∧
    Z.of_nat (length (groups (pending_groups (process_state s)))) ≤ 32 ∧
    (length (mq (queue s)) ≤ 16)%nat ∧ (length (mq (client_queue s)) ≤ 16)%nat ∧
    (Received (Ok None) ∈ obs → ∃ e, Received (Err e) ∈ obs).
Proof.
  destruct (exec_result (λ _, tt) (take 6 sample_actions) (video_fec_start sample_stream stats_default) tt) as (s & obs & He & _); [by vm_compute|].
  exists s, obs. split; [exact He|]. exact (video_fec_driver_safe sample_stream stats_default (take 6 sample_actions) s obs He).
Defined.

Lemma reader_error_reaches_client_witness :
  ∃ s obs, exec (take 1 sample_actions) (video_fec_start sample_stream stats_default) = Some (s, obs) ∧
    ∃ acts' s' obs', Forall (λ a, a ∈ internal sample_time) acts' ∧ exec acts' s = Some (s', obs') ∧ ∃ e, Received (Err e) ∈ obs ++ obs'.
Proof.
  destruct (exec_result (λ r, (rx_open (client_queue r.1), reader_over r.1)) (take 1 sample_actions) (video_fec_start sample_stream stats_default) (true, true)) as (s & obs & He & Hs); [by vm_compute|].
  injection Hs as H1 H2. exists s, obs. split; [exact He|].
  exact (reader_error_reaches_client EvErr (process_init stats_default) (λ l, proj2 (video_fec_rounds_safe l stats_default)) sample_time sample_stream (take 1 sample_actions) s obs He H1 H2).
Defined.
