(* ===== verification/VideoFecSession.v ===== *)
(** * The content of a video session with error correction

    For the messages of a sender that sent the packets of a session, in whatever
    order they arrive, with whatever loss and duplication, and whatever
    [process] drops to make room: every packet it forwards is the packet of the
    session with that number, intact, and the numbers increase. *)

From stdpp Require Import prelude list gmap strings.
From Stdlib Require Import ZArith Lia.
From S2P Require Import Prelude SortedVec Sequencer Io Av Packets Channel Reassembly Fec SystematicCode FecSafety VideoOrder VideoSession FecTransfer VideoFecSafety VideoFecProcess VideoUnreliableFec.
Open Scope Z_scope.

(** ** Objects of a session *)

Section Objects.
Context `{RQ : RaptorQ} (max : Z).

(** The parameters of the encoder for a media packet, and its symbols *)
Definition object_oti (p : MediaPacket) : Oti := encoder_config (media_image p) (max - Z.of_nat DATAGRAM_HEADER_SIZE).
Definition object_repair (p : MediaPacket) : Z := repair_symbols (div_ceil (blen (media_image p)) (symbol_size (object_oti p))).
Definition object_packets (p : MediaPacket) : list (PayloadId * bytes) :=
  get_encoded_packets (media_image p) (object_oti p) (object_repair p).

(** The packets are well formed, and the receiver accepts the parameters of their objects. *)
Class FecSessionOk {SE : Session} : Prop := {
  fec_packets_wf k p : is_sent k p → wf_media (header p) ∧ size (header p) = blen (payload p);
  fec_objects_wf k p : is_sent k p → is_config (header p) = false →
    blen (media_image p) < 2 ^ 40 ∧ Z.of_nat DATAGRAM_HEADER_SIZE < max ∧ validate_oti (object_oti p) MAX_VIDEO_PAYLOAD = Ok tt;
}.
End Objects.

Section Session.
Context `{RL : RaptorQLaws} {SE : Session} (max : Z) {SO : FecSessionOk max}.

Lemma object_params k p :
  is_sent k p → is_config (header p) = false → transfer_length (object_oti max p) = blen (media_image p) ∧ rfc_valid (object_oti max p).
Proof.
  intros Hs Hc. destruct (fec_objects_wf max k p Hs Hc) as (Hlen & Hmax & Hv). split.
  - apply encoder_config_spec; [|lia]. split; [|done]. unfold media_image, blen. rewrite !length_app, !be_bytes_length. lia.
  - by destruct (validate_oti_acceptable _ _ _ Hv) as (_ & Hr & _).
Qed.

(** ** What the receiver holds *)

(** Media packet number [k] *)
Definition media_sent (k : Z) (p : MediaPacket) : Prop := is_sent k p ∧ is_config (header p) = false.

(** Number [k] may still be delivered from group [gseq]. *)
Definition due (next gseq k : Z) : Prop := next ≤ k ∧ session_group plan k = gseq.

Definition decoder_content (k : Z) (d : ObjectDecoder) : Prop :=
  ∃ p d0 fed, media_sent k p ∧ Decoder_new (object_oti max p) = Ok d0 ∧
    fed_with (media_image p) (object_oti max p) (object_repair max p) d0 fed d.

Record group_content (next : Z) (g : PendingGroup) : Prop := {
  gc_segments s : s ∈ fg_segments g → due next (fg_seq g) (fs_seq s) ∧ decoder_content (fs_seq s) (fs_decoder s);
  gc_datagrams d : d ∈ fg_datagrams g → due next (fg_seq g) (fd_seq d) ∧ ∃ p, media_sent (fd_seq d) p ∧ fd_packet d = Media p;
  gc_config p : fg_config g = CfgReady p →
    due next (fg_seq g) (st_seq p) ∧ ∃ m, is_sent (st_seq p) m ∧ is_config (header m) = true ∧ st_packet p = Media m;
}.

Definition fec_content (next : Z) (self : PendingGroups) : Prop := ∀ g, g ∈ groups self → group_content next g.

Lemma is_sent_unique k p q : is_sent k p → is_sent k q → p = q.
Proof. intros [_ Hp] [_ Hq]. congruence. Qed.

Lemma group_content_new next gseq : group_content next (PendingGroup_new gseq).
Proof. split; cbn; [| |done]; intros x Hx; by apply not_elem_of_nil in Hx. Qed.

Lemma group_content_sub next g g' :
  group_content next g → fg_seq g' = fg_seq g → (∀ s, s ∈ fg_segments g' → s ∈ fg_segments g) →
  (∀ d, d ∈ fg_datagrams g' → d ∈ fg_datagrams g) → (∀ p, fg_config g' = CfgReady p → fg_config g = CfgReady p) → group_content next g'.
Proof. intros [H1 H2 H3] Hk Hs Hd Hc. split; rewrite Hk; auto. Qed.

Lemma shrinks_content next now self self' : shrinks now self self' → fec_content next self → fec_content next self'.
Proof.
  intros Hsh HC g' Hg'. destruct (sh_from _ _ _ Hsh g' Hg') as (g & Hg & Hk & Hc & Hs & Hd).
  apply (group_content_sub next g); [by apply HC|done..|]. by rewrite Hc.
Qed.

Lemma replace_content next self i g g' :
  fec_content next self → groups self !! i = Some g → group_content next g' →
  fec_content next (with_groups (<[i := g']> (groups self)) self).
Proof. intros HC Hi Hg' x Hx. cbn in Hx. destruct (elem_of_replace _ _ _ _ _ Hi Hx) as [->|?]; [done|by apply HC]. Qed.

(** ** Insertions *)

Lemma insert_stream_packet_content next now k p self self' :
  wf_groups self → fec_content next self → is_sent k p → is_config (header p) = true → next ≤ k →
  insert_stream_packet now (session_group plan k) k (Media p) self = Ok self' → fec_content next self'.
Proof.
  intros Hwf HC Hs Hc Hk. unfold insert_stream_packet. rewrite Hc. cbn [negb bail_if mbind outcome_bind].
  pose proof (admit_spec now (blen (payload p)) self Hwf) as Ha. destruct (admit_ now _ self) as [s1|e|]; [|done|done].
  destruct Ha as (Hwf1 & Hsh & _). pose proof (shrinks_content _ _ _ _ Hsh HC) as HC1. cbn [mbind outcome_bind].
  pose proof (fec_prepare_group_spec (session_group plan k) s1 Hwf1) as Hp. destruct (prepare_pending_group _ s1) as [[s2 i]|e|]; [|done|done].
  destruct Hp as (_ & _ & _ & _ & _ & Hfrom & _ & g & Hi & Hgk). cbn [mbind outcome_bind]. rewrite Hi. cbn [expect mbind outcome_bind].
  destruct (negb (cfg_is_none (fg_config g))); [done|]. cbn [bail_if mbind outcome_bind]. intros [= <-].
  assert (HC2 : fec_content next s2) by (intros x [Hx| ->]%Hfrom; [by apply HC1|apply group_content_new]).
  eapply replace_content; [done|done|]. destruct (HC2 g) as [H1 H2 _]; [by eapply list_elem_of_lookup_2|].
  split; [done|done|]. cbn. intros q [= <-]. cbn. split; [by split|]. by exists p.
Qed.

Lemma add_packet_content k p id data s s' :
  media_sent k p → (id, data) ∈ object_packets max p → decoder_content k (fs_decoder s) →
  add_packet (object_oti max p) id data s = Ok s' →
  decoder_content k (fs_decoder s') ∧ ∀ out, assembled s' = Some out → out = media_image p.
Proof.
  intros [Hs Hc] Hin (q & d0 & fed & [Hq _] & Hd0 & Hfed) Hadd. assert (q = p) as -> by by eapply is_sent_unique.
  destruct (object_params k p Hs Hc) as [Hlen Hrfc].
  unfold add_packet in Hadd. apply bind_Ok in Hadd as ([d' out] & Hdec & [= <-]). cbn.
  destruct (decode_fed _ _ _ _ Hlen Hrfc Hd0 _ _ _ _ _ _ Hfed Hin Hdec) as [(fed' & Hfed') Hout].
  split; [|done]. exists p, d0, fed'. done.
Qed.

Lemma group_insert_content next now k p id data g g' :
  wf_group g → group_content next g → media_sent k p → due next (fg_seq g) k → (id, data) ∈ object_packets max p →
  group_insert_datagram now k (object_oti max p) id data g = Ok g' → group_content next g'.
Proof.
  intros Hg [H1 H2 H3] Hp Hdue Hin. pose proof Hp as [Hs Hc]. unfold group_insert_datagram.
  destruct (fec_objects_wf max k p Hs Hc) as (_ & _ & Hv). pose proof (validate_oti_acceptable _ _ _ Hv) as Hacc.
  destruct (binary_search_cases fd_seq k (fg_datagrams g) (wg_datagrams _ Hg)) as [(i & x & -> & Hx & _)|[-> Hn]].
  { rewrite Hx. cbn [expect mbind outcome_bind]. destruct (negb _); [done|]. cbn. by intros [= <-]. }
  destruct (prepare_segments_spec (at_create now) k (object_oti max p) g Hg Hacc) as (S1 & i & s & Hprep & Hi & Hsk & _ & _ & Hcase).
  assert (HS1 : ∀ x, x ∈ S1 → due next (fg_seq g) (fs_seq x) ∧ decoder_content (fs_seq x) (fs_decoder x)).
  { destruct Hcase as [(_ & _ & _ & ->)|(_ & Hperm & _)]; [done|]. intros x Hx. rewrite Hperm in Hx.
    apply elem_of_cons in Hx as [->|Hx]; [|by apply H1]. rewrite Hsk. split; [done|].
    destruct (decoder_new_ok (object_oti max p)) as (d0 & Hd0 & _); [by destruct (object_params k p Hs Hc)|].
    exists p, d0, []. split_and!; [done|done|]. apply (fed_with_new _ _ _ _ Hd0 _ MAX_VIDEO_PAYLOAD).
    revert Hprep. unfold prepare_datagram_segments, DatagramSegments_new.
    destruct (binary_search_cases fs_seq k (fg_segments g) (wg_segments _ Hg)) as [(j & x & -> & _)|[-> _]].
    - intros [= Heq <-]. exfalso. apply (f_equal fg_segments) in Heq. cbn in Heq. pose proof (Permutation_length Hperm) as Hl.
      rewrite <- Heq in Hl. cbn in Hl. lia.
    - destruct (ObjectDecoder_new _ _) as [d|e|]; [|done|done]. cbn. intros [= <- <-]. f_equal.
      rewrite vec_insert_lookup in Hi by apply lower_bound_le. by injection Hi as <-. }
  rewrite Hprep. cbn [mbind outcome_bind with_segments fg_segments]. rewrite Hi. cbn [expect mbind outcome_bind].
  assert (Hsc : decoder_content k (fs_decoder s)) by (rewrite <- Hsk; apply HS1; by eapply list_elem_of_lookup_2).
  destruct (add_packet _ id data s) as [s'|e|] eqn:Hadd; [|done|done]. cbn [mbind outcome_bind].
  destruct (add_packet_content _ _ _ _ _ _ Hp Hin Hsc Hadd) as [Hsc' Hout].
  assert (Hsk' : fs_seq s' = k) by (unfold add_packet in Hadd; apply bind_Ok in Hadd as ([] & _ & [= <-]); done).
  assert (HS2 : ∀ x, x ∈ <[i := s']> S1 → due next (fg_seq g) (fs_seq x) ∧ decoder_content (fs_seq x) (fs_decoder x)).
  { intros x Hx. destruct (elem_of_replace _ _ _ _ _ Hi Hx) as [->|Hx']; [by rewrite Hsk'|by apply HS1]. }
  destruct (is_complete s') eqn:Hcomp; [|intros [= <-]; split; [exact HS2|exact H2|exact H3]].
  unfold assemble. destruct (assembled s') as [out|] eqn:Hass; [|by unfold is_complete in Hcomp; rewrite Hass in Hcomp].
  rewrite (Hout out eq_refl). cbn [ok_or mbind outcome_bind]. destruct (fec_packets_wf max k p Hs) as [Hwfm Hsz].
  rewrite (media_packet_image p Hwfm Hc Hsz). cbn [mbind outcome_bind]. intros [= <-].
  assert (HS3 : ∀ x, x ∈ delete i (<[i := s']> S1) → x ∈ <[i := s']> S1).
  { intros x Hx. rewrite (delete_Permutation (<[i := s']> S1) i s'); [by right|]. apply list_lookup_insert_eq. by eapply lookup_lt_Some. }
  unfold insert_datagram_packet. cbn [fd_seq with_segments fg_datagrams].
  destruct (binary_search_by_key fd_seq (fs_seq s') (fg_datagrams g)) as [j|j]; split; cbn; auto.
  intros d Hd. rewrite vec_insert_perm in Hd. apply elem_of_cons in Hd as [->|Hd]; [|by apply H2]. cbn. rewrite Hsk'. split; [done|]. by exists p.
Qed.
Lemma fec_insert_datagram_content next now k p id data self self' :
  wf_groups self → fec_content next self → media_sent k p → next ≤ k → (id, data) ∈ object_packets max p →
  insert_datagram now (session_group plan k) k (object_oti max p) id data self = Ok self' → fec_content next self'.
Proof.
  intros Hwf HC Hp Hk Hin. unfold insert_datagram. destruct (validate_oti _ _) as [[]|e|]; [|done|done]. cbn [mbind outcome_bind].
  destruct (is_retired k self); [by intros [= <-]|]. destruct (existsb (λ g, negb _ && _) (groups self)); cbn [bail_if mbind outcome_bind]; [done|].
  set (pend := existsb _ (groups self)).
  assert (Hadm : ∀ s1, (if pend then Ok self else admit_ (at_admit now) (reservation (object_oti max p)) self) = Ok s1 → wf_groups s1 ∧ fec_content next s1).
  { intros s1. destruct pend; [by intros [= <-]|].
    pose proof (admit_spec (at_admit now) (reservation (object_oti max p)) self Hwf) as Ha. intros Heq. rewrite Heq in Ha.
    destruct Ha as (Hwf1 & Hsh & _). split; [done|]. by eapply shrinks_content. }
  destruct (if pend then _ else _) as [s1|e|]; [|done|done]. destruct (Hadm s1 eq_refl) as [Hwf1 HC1]. cbn [mbind outcome_bind].
  destruct (negb pend && is_retired k s1); [by intros [= <-]|].
  pose proof (fec_prepare_group_spec (session_group plan k) s1 Hwf1) as Hprep. destruct (prepare_pending_group _ s1) as [[s2 i]|e|]; [|done|done].
  destruct Hprep as (Hwf2 & _ & _ & _ & _ & Hfrom & _ & g & Hi & Hgk). cbn [mbind outcome_bind]. rewrite Hi. cbn [expect mbind outcome_bind].
  assert (HC2 : fec_content next s2) by (intros x [Hx| ->]%Hfrom; [by apply HC1|apply group_content_new]).
  assert (Hg : g ∈ groups s2) by by eapply list_elem_of_lookup_2.
  destruct (group_insert_datagram _ _ _ _ _ g) as [g'|e|] eqn:Hins; [|done|done]. cbn [mbind outcome_bind]. intros [= <-].
  eapply replace_content; [done|done|]. eapply group_insert_content; [by apply Hwf2|by apply HC2|exact Hp|by split|exact Hin|exact Hins].
Qed.

(** ** Taking packets *)

Lemma group_content_later next next' g :
  group_content next g → (∀ k, due next (fg_seq g) k → next' ≤ k) → group_content next' g.
Proof.
  intros [H1 H2 H3] Hm. split.
  - intros s Hs. destruct (H1 s Hs) as [Hd ?]. split; [|done]. split; [by apply Hm|apply Hd].
  - intros d Hd. destruct (H2 d Hd) as [Hdue ?]. split; [|done]. split; [by apply Hm|apply Hdue].
  - intros p Hp. destruct (H3 p Hp) as [Hdue ?]. split; [|done]. split; [by apply Hm|apply Hdue].
Qed.

Lemma later_group k k' : session_group plan k < session_group plan k' → k < k'.
Proof. intros Hlt. destruct (Z.le_gt_cases k' k) as [Hle|]; [|done]. pose proof (plan_mono (group:=session_group plan) (is_cfg:=session_cfg plan) k' k Hle). lia. Qed.

(** What is left of a group once its config or its first media packet is taken *)
Lemma take_config_content next g p :
  group_content next g → fg_config g = CfgReady p → group_content (st_seq p + 1) (with_config CfgSent g).
Proof.
  intros [H1 H2 H3] Hc. destruct (H3 p Hc) as [[_ Hg] (m & Hm & Hcf & _)].
  assert (Hlt : ∀ k q, media_sent k q → session_group plan k = fg_seq g → st_seq p + 1 ≤ k).
  { intros k q [Hk Hq] Hgk. assert (session_cfg plan (st_seq p)) by (by apply (is_sent_cfg _ _ Hm)).
    pose proof (plan_first (group:=session_group plan) (is_cfg:=session_cfg plan) (st_seq p) k ltac:(done) ltac:(congruence)).
    destruct (decide (k = st_seq p)) as [->|]; [|lia]. by rewrite (is_sent_unique _ _ _ Hk Hm), Hcf in Hq. }
  split; cbn; [| |done].
  - intros s Hs. destruct (H1 s Hs) as [[_ Hgk] Hd]. split; [|done]. split; [|done]. destruct Hd as (q & _ & _ & Hq & _). by eapply Hlt.
  - intros d Hd. destruct (H2 d Hd) as [[_ Hgk] (q & Hq & Hpk)]. split; [|by exists q]. split; [|done]. by eapply Hlt.
Qed.

Lemma take_datagram_content next g d ds :
  wf_group g → group_content next g → fg_datagrams g = d :: ds → cfg_is_ready (fg_config g) = false →
  group_content (fd_seq d + 1) (drop_expired_segments (fd_seq d) (with_datagrams ds g)).1.
Proof.
  intros Hwf [H1 H2 H3] Hd Hr. pose proof Hwf as [Hso1 Hso2 Hdis _ _ _]. rewrite Hd in Hso1, Hdis, H2. apply sorted_cons in Hso1 as [_ Hlt].
  rewrite Forall_forall in Hlt. pose proof (drop_lower_bound fs_seq (fd_seq d) (fg_segments g) Hso2) as Hge. rewrite Forall_forall in Hge.
  unfold drop_expired_segments. cbn [fst fg_segments with_datagrams].
  destruct (binary_search_cases fs_seq (fd_seq d) (fg_segments g) Hso2) as [(i & x & -> & Hx & Hk)|[-> Hn]].
  { exfalso. apply (Hdis d x); [by left|by eapply list_elem_of_lookup_2|done]. }
  split; cbn.
  - intros s Hs. pose proof (elem_of_drop _ _ _ Hs) as Hs'. destruct (H1 s Hs') as [[_ Hgk] Hc]. split; [|done]. split; [|done].
    specialize (Hge s Hs). cbn in Hge. assert (fd_seq d ≠ fs_seq s) by (apply Hdis; [by left|done]). lia.
  - intros x Hx. destruct (H2 x) as [[_ Hgk] Hc]; [by right|]. split; [|done]. split; [|done]. specialize (Hlt x Hx). cbn in Hlt. lia.
  - intros p Hp. by rewrite Hp in Hr.
Qed.

Lemma take_next_packet_content next now self a self' :
  wf_groups self → fec_content next self → take_next_packet now next self = Ok (a, self') →
  match a with
  | APacket k packet _ => next ≤ k ∧ fec_content (k + 1) self' ∧ ∃ p, is_sent k p ∧ packet = Media p
  | _ => self' = self
  end.
Proof.
  intros Hwf HC. unfold take_next_packet. destruct (next_packet now next self) as [|i c|t] eqn:Hn; [by intros [= <- <-]| |by intros [= <- <-]].
  apply fec_next_packet_loop_ready in Hn as (j & g & -> & Hj & Hnone & Hc & Hd). cbn [Nat.add].
  assert (Hg : g ∈ groups self) by by eapply list_elem_of_lookup_2. pose proof (ws_groups _ Hwf g Hg) as Hwg. pose proof (HC g Hg) as HCg.
  destruct (drop j (groups self)) as [|g0 rest] eqn:Hdr; [done|].
  assert (g0 = g) as -> by (pose proof (lookup_drop (groups self) j 0) as Hl; rewrite Hdr, Nat.add_0_r, Hj in Hl; by injection Hl).
  cbn [lookup list_lookup expect mbind outcome_bind]. rewrite Hnone. cbn [negb rassert mbind outcome_bind].
  assert (Hrest : ∀ k g' st, session_group plan k = fg_seq g → group_content (k + 1) g' →
    fec_content (k + 1) {| groups := <[0%nat := g']> (g :: rest); retired_through := retired_through self; retired_stats := st |}).
  { intros k g' st Hk Hg' x Hx. cbn in Hx. apply elem_of_cons in Hx as [->|Hx]; [done|].
    pose proof (sorted_drop fg_seq j _ (ws_sorted _ Hwf)) as Hs. rewrite Hdr in Hs. apply sorted_cons in Hs as [_ Hlt].
    rewrite Forall_forall in Hlt. specialize (Hlt x Hx). cbn in Hlt.
    apply (group_content_later next); [apply HC; apply (elem_of_drop j); rewrite Hdr; by right|].
    intros k' [_ Hk']. enough (k < k') by lia. apply later_group. lia. }
  destruct c.
  - destruct (fg_config g) as [|p|] eqn:Hcfg; [done| |done]. cbn. intros [= <- <-].
    destruct (gc_config _ _ HCg p Hcfg) as [[Hk Hgk] (m & Hm & _ & Hpk)]. split; [done|]. split; [|by exists m].
    apply Hrest; [done|]. by eapply take_config_content.
  - destruct (fg_datagrams g) as [|d ds] eqn:Hds; [by destruct (Hd eq_refl)|].
    destruct (gc_datagrams _ _ HCg d) as [[Hk Hgk] (p & [Hp _] & Hpk)]; [rewrite Hds; by left|].
    pose proof (take_datagram_content next g d ds Hwg HCg Hds Hc) as Ht. destruct (drop_expired_segments _ _) as [g1 st]. cbn in Ht.
    intros [= <- <-]. split; [done|]. split; [|by exists p]. by apply Hrest.
Qed.

(** ** [process] *)

(** The messages of the session *)
Definition genuine (ev : Event) : Prop :=
  match ev with
  | EvMsg (RStream m) =>
      match sm_packet m with
      | Codec _ => True
      | Media p => is_sent (sm_raw_kypacket_seq m) p ∧ is_config (header p) = true ∧
                   sm_raw_group_seq m = session_group plan (sm_raw_kypacket_seq m)
      | Hole _ => False
      end
  | EvMsg (RDatagram m) =>
      ∃ p, media_sent (dm_raw_kypacket_seq m) p ∧ dm_raw_group_seq m = session_group plan (dm_raw_kypacket_seq m) ∧
           dm_oti m = object_oti max p ∧ (dm_payload_id m, dm_data m) ∈ object_packets max p
  | _ => True
  end.

Definition codec_event (ev : Event) : option CodecPacket :=
  match ev with EvMsg (RStream m) => codec_of (sm_packet m) | _ => None end.

Record fec_session_inv (codecs : list CodecPacket) (s : Process) : Prop := {
  fi_kseq : newest (kypacket_sequencer s);
  fi_gseq : newest (group_sequencer s);
  fi_ok : process_ok s;
  fi_groups : fec_content (next_kypacket_seq s) (pending_groups s);
  fi_sorted : sorted_by id (omap fst (client s));
  fi_below : Forall (λ k, k < next_kypacket_seq s) (omap fst (client s));
  fi_client : Forall client_content (client s);
  fi_codecs : omap codec_of (snd <$> client s) = codecs;
  fi_open : client_open s = true;
}.

Lemma fec_session_init stats : fec_session_inv [] (process_init stats).
Proof.
  split; [by exists 0|by exists 0|apply process_init_ok| |constructor|constructor|constructor|done|done]. intros g Hg. by apply not_elem_of_nil in Hg.
Qed.

Lemma unroll_fec cod k g s :
  fec_session_inv cod s → 0 ≤ k < 2 ^ 31 → 0 ≤ g < 2 ^ 31 → ∃ s1, unroll k g s = (s1, Ok (k, g)) ∧ fec_session_inv cod s1.
Proof.
  intros [H1 H2 H3 H4 H5 H6 H7 H8 H9] Hk Hg. destruct (seq_newest _ _ H1 Hk) as (q1 & Hq1 & Hn1). destruct (seq_newest _ _ H2 Hg) as (q2 & Hq2 & Hn2).
  unfold unroll. rewrite Hq1, Hq2. eexists. split; [done|]. by split.
Qed.

Lemma update_fec cod f s s' r :
  fec_session_inv cod s → keeps_ok (f (pending_groups s)) →
  (∀ gs, f (pending_groups s) = Ok gs → fec_content (next_kypacket_seq s) gs) →
  update_groups f s = (s', r) → fec_session_inv cod s'.
Proof.
  intros Hinv Hok Hc. unfold update_groups. destruct (f (pending_groups s)) as [gs|e|] eqn:Hf; intros [= <- <-]; [|done..].
  destruct Hinv. split; try done. by apply Hc.
Qed.

Lemma send_client_fec cod packet s s' r :
  fec_session_inv cod s → send_client (None, Codec packet) s = (s', r) → r = Ok tt ∧ fec_session_inv (cod ++ [packet]) s'.
Proof.
  intros [H1 H2 H3 H4 H5 H6 H7 H8 H9]. unfold send_client. rewrite H9. intros [= <- <-]. split; [done|].
  split; cbn; try done; rewrite ?omap_app, ?app_nil_r; try done.
  - apply Forall_app. split; [done|]. repeat constructor. by exists packet.
  - rewrite fmap_app, omap_app, H8. done.
Qed.

Lemma take_step_fec cod now s s' r :
  fec_session_inv cod s → take_step now s = (s', r) → fec_session_inv cod s'.
Proof.
  intros [H1 H2 [Hwf Hbud] H4 H5 H6 H7 H8 H9]. unfold take_step.
  destruct (take_next_packet_spec now (next_kypacket_seq s) (pending_groups s) Hwf) as (a & gs & Ht & Ha). rewrite Ht.
  pose proof (take_next_packet_content _ _ _ _ _ Hwf H4 Ht) as Hc. destruct a as [k packet st|t|].
  - destruct Hc as (Hk & HC & p & Hp & ->). destruct Ha as [Hwf' Ho Hb Hl _]. unfold send_client, set_next, set_groups. run_handler.
    cbn [client_open]. rewrite H9. intros [= <- <-]. destruct Hbud as (Hb1 & Hb2 & Hb3).
    split; cbn [kypacket_sequencer group_sequencer pending_groups next_kypacket_seq client client_open push_client]; try done.
    + split; [done|]. cbn. unfold within_budget. split_and!; lia.
    + rewrite omap_app. cbn. apply sorted_snoc; [done|]. eapply Forall_impl; [exact H6|]. cbn. lia.
    + rewrite omap_app. apply Forall_app. cbn. split; [|repeat constructor; lia]. eapply Forall_impl; [exact H6|]. cbn. lia.
    + apply Forall_app. split; [done|]. repeat constructor. by exists p.
    + by rewrite fmap_app, omap_app, H8, app_nil_r.
  - destruct Ha as [-> _]. intros [= <- <-]. by split.
  - destruct Ha as [-> _]. intros [= <- <-]. by split.
Qed.

Lemma drain_fec cod fuel nows i s s' r :
  fec_session_inv cod s → drain_loop fuel nows i s = (s', r) → fec_session_inv cod s'.
Proof.
  revert i s. induction fuel as [|fuel IH]; intros i s Hinv; cbn [drain_loop]; [by intros [= <- <-]|].
  run_handler. destruct (take_step (nows i) s) as [s1 r1] eqn:Ht. pose proof (take_step_fec _ _ _ _ _ Hinv Ht) as Hinv1.
  destruct r1 as [[]|e|]; [by apply IH|by intros [= <- <-]..].
Qed.

Lemma handle_event_fec cod now ev s s' r :
  fec_session_inv cod s → genuine ev → handle_event now ev s = (s', r) → fec_session_inv (cod ++ option_list (codec_event ev)) s'.
Proof.
  intros Hinv Hgen. destruct ev as [[m|m]|e| |]; cbn [handle_event genuine codec_event] in *; rewrite ?app_nil_r.
  - destruct (sm_packet m) as [c|p|] eqn:Hp; [| |done].
    { run_handler. destruct (send_client (None, Codec c) s) as [s1 r1] eqn:Hsend. destruct (send_client_fec _ _ _ _ _ Hinv Hsend) as [-> Hinv1].
      intros [= <- <-]. exact Hinv1. }
    cbn [codec_of option_list]. rewrite app_nil_r. destruct Hgen as (Hs & Hc & Hg). rewrite Hg.
    destruct (unroll_fec _ _ _ _ Hinv (is_sent_bound _ _ Hs) (session_group_bound (sm_raw_kypacket_seq m))) as (s1 & Hu & Hinv1).
    rewrite (handler_bind_eq _ _ _ _ _ Hu), (handler_bind_eq _ _ s1 s1 (next_kypacket_seq s1) eq_refl).
    destruct (Z.leb_spec (next_kypacket_seq s1) (sm_raw_kypacket_seq m)) as [Hle|]; [|by intros [= <- <-]]. run_handler.
    destruct (update_groups _ s1) as [s2 r2] eqn:Hup. intros Hr. assert (s' = s2) as -> by (by destruct r2; injection Hr).
    pose proof (fi_ok _ _ Hinv1) as Hok. eapply update_fec; [exact Hinv1|by apply insert_stream_packet_ok| |exact Hup].
    intros gs Hgs. eapply insert_stream_packet_content; [apply Hok|apply Hinv1|exact Hs|exact Hc|exact Hle|exact Hgs].
  - destruct Hgen as (p & Hp & Hg & Ho & Hin). rewrite Hg. pose proof Hp as [Hs Hc].
    destruct (unroll_fec _ _ _ _ Hinv (is_sent_bound _ _ Hs) (session_group_bound (dm_raw_kypacket_seq m))) as (s1 & Hu & Hinv1).
    rewrite (handler_bind_eq _ _ _ _ _ Hu), (handler_bind_eq _ _ s1 s1 (next_kypacket_seq s1) eq_refl).
    destruct (Z.ltb_spec (dm_raw_kypacket_seq m) (next_kypacket_seq s1)) as [|Hle]; [by intros [= <- <-]|]. run_handler.
    destruct (update_groups _ s1) as [s2 r2] eqn:Hup. intros Hr. assert (s' = s2) as -> by (by destruct r2; injection Hr).
    pose proof (fi_ok _ _ Hinv1) as Hok. rewrite Ho in Hup. eapply update_fec; [exact Hinv1|by apply insert_datagram_ok| |exact Hup].
    intros gs Hgs. eapply fec_insert_datagram_content; [apply Hok|apply Hinv1|exact Hp|exact Hle|exact Hin|exact Hgs].
  - by intros [= <- <-].
  - by intros [= <- <-].
  - by intros [= <- <-].
Qed.

Lemma step_fec cod now nows ev s s' r :
  fec_session_inv cod s → genuine ev → step now nows ev s = (s', r) → fec_session_inv (cod ++ option_list (codec_event ev)) s'.
Proof.
  intros Hinv Hgen. unfold step. run_handler. destruct (handle_event now ev s) as [s1 r1] eqn:Hh.
  pose proof (handle_event_fec _ _ _ _ _ _ Hinv Hgen Hh) as Hinv1. destruct r1 as [[]|e|]; try (by intros [= <- <-]).
  unfold drain. destruct (drain_loop _ nows 0 s1) as [s2 r2] eqn:Hd. pose proof (drain_fec _ _ _ _ _ _ _ Hinv1 Hd) as Hinv2.
  by destruct r2; intros [= <- <-].
Qed.
End Session.
