(* ===== verification/VideoFecEndToEnd.v ===== *)
(** * Video with error correction from end to end

    What [VideoUnreliableFecProtocolSendDriver::send] puts on the stream and in
    datagrams for a whole session, read by the tasks of the receiving driver:
    whatever the network does to the datagrams, however much of the stream gets
    through, whatever the receiver retires to make room and however the tasks
    are scheduled, the client receives packets of the session, intact and in
    order. *)

From stdpp Require Import prelude list gmap strings.
From Stdlib Require Import ZArith Lia.
From S2P Require Import Prelude SortedVec Sequencer Io Av Packets Channel Reassembly Router ReceiveTasks StreamSession VideoOrder VideoSession VideoEndToEnd Fec SystematicCode FecSafety VideoFecSafety VideoFecProcess VideoFecReceive FecTransfer VideoUnreliableFec VideoFecSession.
Open Scope Z_scope.

(** ** The stream *)

(** What the sender may put on the stream: codecs, and configs within the cap of the receiver *)
Definition streamable (max_payload : Z) (p : AVPacket) : Prop :=
  wf_av p ∧ match p with
            | Codec _ => True
            | Media m => is_config (header m) = true ∧ size (header m) ≤ Z.min max_payload MAX_CONFIG_PAYLOAD
            | Hole _ => False
            end.

Lemma read_stream_packet_ok max_payload p r rest :
  streamable max_payload p → rd_data r = av_image p ++ rest →
  ∃ r', read_stream_packet max_payload r = Ok (p, r') ∧ rd_data r' = rest.
Proof.
  intros [Hwf Hp] Hd. unfold read_stream_packet. destruct p as [[h]|[h pl]|h]; [| |done]; cbn [wf_av av_image codec_header header payload] in *.
  - destruct Hwf as [Hwf Hc]. destruct (read_exact_app SERIALIZED_SIZE r _ _ Hd eq_refl) as (r1 & -> & Hd1 & _). cbn [map_err mbind outcome_bind].
    rewrite codec_image_first_bit by apply Hwf. destruct (Z.ltb_spec (codec h) (2 ^ 31)); [|lia].
    rewrite codec_image_first_four by apply Hwf. destruct (Z.eqb_spec (codec h) 0); [lia|]. cbn [bail_if mbind outcome_bind].
    rewrite codec_deserialize_image by (done || lia). by exists r1.
  - destruct Hwf as [Hwf Hs], Hp as [Hc Hmax]. rewrite <- app_assoc in Hd.
    destruct (read_exact_app SERIALIZED_SIZE r _ _ Hd) as (r1 & -> & Hd1 & _); [by rewrite length_app, !be_bytes_length|]. cbn [map_err mbind outcome_bind].
    rewrite first_bit_media, be_bytes_first_bit, pts_and_flags_bit, (bool_decide_true (63 = 63)), orb_true_r by done. cbn [orb negb].
    rewrite media_deserialize_serialized by done. cbn [mbind outcome_bind]. rewrite Hc. destruct (Z.ltb_spec (Z.min max_payload MAX_CONFIG_PAYLOAD) (size h)); [lia|].
    cbn [orb negb bail_if mbind outcome_bind]. destruct (read_exact_app (Z.to_nat (size h)) r1 _ _ Hd1) as (r2 & -> & Hd2 & _).
    { rewrite Hs. unfold blen. by rewrite Nat2Z.id. }
    by exists r2.
Qed.

Lemma read_stream_packet_extend max_payload r p r' R extra :
  read_stream_packet max_payload r = Ok (p, r') → rd_data R = rd_data r ++ extra →
  ∃ R', read_stream_packet max_payload R = Ok (p, R') ∧ rd_data R' = rd_data r' ++ extra.
Proof.
  unfold read_stream_packet. intros Hr HR. destruct (read_exact SERIALIZED_SIZE r) as [[raw r1]|e|] eqn:H1; try done.
  destruct (read_exact_extend _ _ _ _ _ _ H1 HR) as (R1 & -> & HR1). cbn [map_err mbind outcome_bind] in *. destruct (Z.land _ _ =? 0).
  - destruct (bail_if _ _); try done. cbn [mbind outcome_bind] in *. destruct (codec_deserialize raw); try done. cbn [mbind outcome_bind] in *.
    injection Hr as <- <-. by eexists.
  - destruct (media_deserialize raw) as [h|e|]; try done. cbn [mbind outcome_bind] in *. destruct (bail_if _ _); try done. cbn [mbind outcome_bind] in *.
    destruct (read_exact (Z.to_nat (size h)) r1) as [[pl r2]|e|] eqn:H2; try done. destruct (read_exact_extend _ _ _ _ _ _ H2 HR1) as (R2 & -> & HR2).
    cbn [map_err mbind outcome_bind] in *. injection Hr as <- <-. by eexists.
Qed.

Section EndToEnd.
Context `{RL : RaptorQLaws}.

Definition message_bytes (m : StreamMsg) : bytes :=
  be_bytes 4 (sm_raw_kypacket_seq m) ++ be_bytes 4 (sm_raw_group_seq m) ++ av_image (sm_packet m).

(** The bytes of a message on the stream *)
Definition image (m : RecvMsg) : bytes := match m with RStream m => message_bytes m | RDatagram _ => [] end.

Definition wf_image (m : RecvMsg) : Prop :=
  match m with
  | RStream m => streamable MAX_VIDEO_PAYLOAD (sm_packet m) ∧ is_u32 (sm_raw_kypacket_seq m) ∧ is_u32 (sm_raw_group_seq m)
  | RDatagram _ => False
  end.

#[export] Instance video_fec_codec : StreamCodec video_fec_driver image wf_image.
Proof.
  split.
  - intros [m|m] r rest Hm Hd; [|done]. destruct Hm as (Hp & Hk & Hg). cbn [image message_bytes] in Hd. unfold message_bytes in Hd.
    rewrite app_assoc, <- app_assoc in Hd. cbn [msg_read video_fec_driver]. unfold recv_stream_packet.
    destruct (read_exact_app 8 r _ _ Hd) as (r1 & -> & Hd1 & _); [by rewrite length_app, !be_bytes_length|]. cbn [map_err mbind outcome_bind].
    destruct (read_stream_packet_ok _ _ _ _ Hp Hd1) as (r2 & -> & Hd2). cbn [mbind outcome_bind].
    rewrite slice_app_l, slice_app_r by by rewrite be_bytes_length. rewrite !read_be_be4 by done. exists r2. by destruct m.
  - intros r m r' R extra Hr HR. cbn [msg_read video_fec_driver] in *. unfold recv_stream_packet in *.
    destruct (read_exact 8 r) as [[seqs r1]|e|] eqn:H1; try done.
    destruct (read_exact_extend _ _ _ _ _ _ H1 HR) as (R1 & -> & HR1). cbn [map_err mbind outcome_bind] in *.
    destruct (read_stream_packet MAX_VIDEO_PAYLOAD r1) as [[p r2]|e|] eqn:H2; try done.
    destruct (read_stream_packet_extend _ _ _ _ _ _ H2 HR1) as (R2 & -> & HR2). cbn [mbind outcome_bind] in *. injection Hr as <- <-. by eexists.
  - intros r m r' Hd Hr. cbn in Hr. unfold recv_stream_packet in Hr. rewrite read_exact_short in Hr by (rewrite Hd; cbn; lia). done.
Qed.

(** ** The sender *)

Fixpoint send_all (l : list AVPacket) : handler SendDriver ProtocolError unit :=
  match l with
  | [] => mret tt
  | p :: l => _ ← send p; send_all l
  end.

(** The driver on a connection that does not fail *)
Definition driver_at (id max : Z) (sent : list bytes) (out : bytes) (k g : Z) : SendDriver :=
  {| ky_channel := open_channel id max sent; stream := open_writer out; kypacket_seq := k; group_seq := g |}.

(** The messages of the stream, for a session that goes on from packet [k] and group [g] *)
Fixpoint stream_messages (k g : Z) (l : list AVPacket) : list StreamMsg :=
  match l with
  | [] => []
  | Media p :: l =>
      if is_config (header p)
      then {| sm_packet := Media p; sm_raw_kypacket_seq := k; sm_raw_group_seq := g + 1 |} :: stream_messages (k + 1) (g + 1) l
      else stream_messages (k + 1) g l
  | p :: l => {| sm_packet := p; sm_raw_kypacket_seq := 0; sm_raw_group_seq := 0 |} :: stream_messages k g l
  end.

Definition stream_bytes (ms : list StreamMsg) : bytes := concat (message_bytes <$> ms).

(** The datagrams of a media packet *)
Definition object_datagrams (id max k g : Z) (p : MediaPacket) : list bytes :=
  (λ ps, datagram_bytes (driver_at id max [] [] k g) (oti_serialize (object_oti max p)) ps.1 ps.2) <$> object_packets max p.

Fixpoint session_datagrams (id max k g : Z) (l : list AVPacket) : list bytes :=
  match l with
  | [] => []
  | Media p :: l =>
      if is_config (header p) then session_datagrams id max (k + 1) (g + 1) l
      else object_datagrams id max k g p ++ session_datagrams id max (k + 1) g l
  | _ :: l => session_datagrams id max k g l
  end.

(** What may be sent: codecs, configs within the cap of the receiver, and media
    packets whose object it accepts *)
Definition sendable (max : Z) (p : AVPacket) : Prop :=
  match p with
  | Media m => if is_config (header m) then streamable MAX_VIDEO_PAYLOAD p
               else wf_av p ∧ blen (media_image m) < 2 ^ 40 ∧ validate_oti (object_oti max m) MAX_VIDEO_PAYLOAD = Ok tt
  | _ => streamable MAX_VIDEO_PAYLOAD p
  end.

Lemma sendable_wf max p : sendable max p → wf_av p.
Proof. unfold sendable. destruct p as [|m|]; [by intros []| |by intros []]. destruct (is_config (header m)); by intros []. Qed.

Section Sender.
Context (id max : Z) (Hmax : Z.of_nat DATAGRAM_HEADER_SIZE < max < 0x10000).

Lemma fec_send_encoded_open oti ps sent out k g :
  send_encoded oti ps (driver_at id max sent out k g) =
    (driver_at id max (sent ++ ((λ ps, datagram_bytes (driver_at id max [] [] k g) oti ps.1 ps.2) <$> ps)) out k g, Ok tt).
Proof.
  revert sent. induction ps as [|[i data] ps IH]; intros sent; cbn [send_encoded]; [cbn; by rewrite app_nil_r|]. run_handler.
  unfold on_channel. cbn [ky_channel driver_at]. rewrite send_datagram_open.
  change {| ky_channel := open_channel id max ?s; stream := _; kypacket_seq := _; group_seq := _ |} with (driver_at id max s out k g).
  rewrite IH, <- app_assoc. done.
Qed.

Lemma fec_send_datagrams_at p sent out k g :
  sendable max (Media p) → is_config (header p) = false →
  send_datagrams p (driver_at id max sent out k g) = (driver_at id max (sent ++ object_datagrams id max k g p) out k g, Ok tt).
Proof.
  intros Hp Hc. cbn [sendable] in Hp. rewrite Hc in Hp. destruct Hp as ([Hwf _] & _ & Hv). pose proof (validate_oti_acceptable _ _ _ Hv) as (_ & (_ & Hsy & _) & _).
  unfold send_datagrams. run_handler. cbn [ky_channel driver_at open_channel max_datagram_size ok_or].
  destruct (Z.ltb_spec (Z.of_nat DATAGRAM_HEADER_SIZE) max); [|lia]. destruct (Z.ltb_spec max 0x10000); [|lia]. cbn [rassert].
  rewrite (media_serialize_eq _ Hwf), <- app_assoc. fold (media_image p). fold (object_oti max p).
  destruct (Z.eqb_spec (symbol_size (object_oti max p)) 0); [lia|]. cbn [negb rassert]. fold (object_repair max p). fold (object_packets max p).
  change {| ky_channel := open_channel id max sent; stream := open_writer out; kypacket_seq := k; group_seq := g |} with (driver_at id max sent out k g).
  apply fec_send_encoded_open.
Qed.

Lemma send_codec_at c sent out k g :
  send (Codec c) (driver_at id max sent out k g) = (driver_at id max sent (out ++ be_bytes 8 0 ++ codec_image (codec_header c)) k g, Ok tt).
Proof. unfold send. run_handler. by rewrite codec_serialize_eq. Qed.

Lemma send_config_at p sent out k g :
  wf_media (header p) → is_config (header p) = true → 0 ≤ k < 2 ^ 31 → 0 ≤ g < 2 ^ 31 →
  send (Media p) (driver_at id max sent out k g) =
    (driver_at id max sent (out ++ message_bytes {| sm_packet := Media p; sm_raw_kypacket_seq := k; sm_raw_group_seq := g + 1 |}) (k + 1) (g + 1), Ok tt).
Proof.
  intros Hwf Hc Hk Hg. unfold send. rewrite Hc. run_handler. unfold set_seqs. cbn [kypacket_seq group_seq driver_at ky_channel stream].
  rewrite (media_serialize_eq _ Hwf). unfold wrap32. rewrite !Z.mod_small by lia. unfold on_stream. cbn [stream].
  rewrite write_all_open. cbn -[be_bytes Z.add]. rewrite Z.mod_small by lia. unfold message_bytes, driver_at.
  cbn [sm_packet sm_raw_kypacket_seq sm_raw_group_seq av_image]. by rewrite <- !app_assoc.
Qed.

Lemma send_media_at p sent out k g :
  sendable max (Media p) → is_config (header p) = false → 0 ≤ k < 2 ^ 31 →
  send (Media p) (driver_at id max sent out k g) = (driver_at id max (sent ++ object_datagrams id max k g p) out (k + 1) g, Ok tt).
Proof.
  intros Hp Hc Hk. unfold send. rewrite Hc, (handler_bind_eq _ _ _ _ _ (fec_send_datagrams_at p sent out k g Hp Hc)). unfold modifyM, set_seqs, wrap32.
  cbn [driver_at kypacket_seq group_seq stream ky_channel]. by rewrite Z.mod_small by lia.
Qed.

Lemma fec_send_all_at l sent out k g :
  Forall (sendable max) l → 0 ≤ k → 0 ≤ g → k + Z.of_nat (length l) < 2 ^ 31 → g + Z.of_nat (length l) < 2 ^ 31 →
  ∃ k' g', send_all l (driver_at id max sent out k g) =
    (driver_at id max (sent ++ session_datagrams id max k g l) (out ++ stream_bytes (stream_messages k g l)) k' g', Ok tt).
Proof.
  intros Hl. revert sent out k g. induction Hl as [|p l Hp Hl IH]; intros sent out k g Hk Hg Hkl Hgl; cbn [send_all].
  { exists k, g. unfold stream_bytes. cbn. by rewrite !app_nil_r. }
  cbn [length] in Hkl, Hgl. destruct p as [c|p|h]; [| |by destruct Hp].
  - rewrite (handler_bind_eq _ _ _ _ _ (send_codec_at c sent out k g)).
    match goal with |- context [send_all l (driver_at _ _ ?s ?o ?k1 ?g1)] => destruct (IH s o k1 g1) as (k' & g' & ->); [lia..|] end. exists k', g'. unfold stream_bytes.
    cbn [session_datagrams stream_messages fmap list_fmap concat]. by rewrite <- app_assoc.
  - pose proof (sendable_wf _ _ Hp) as [Hwf _]. cbn [session_datagrams stream_messages]. destruct (is_config (header p)) eqn:Hc.
    + rewrite (handler_bind_eq _ _ _ _ _ (send_config_at p sent out k g Hwf Hc ltac:(lia) ltac:(lia))).
      match goal with |- context [send_all l (driver_at _ _ ?s ?o ?k1 ?g1)] => destruct (IH s o k1 g1) as (k' & g' & ->); [lia..|] end. exists k', g'. unfold stream_bytes. cbn [fmap list_fmap concat]. by rewrite <- app_assoc.
    + rewrite (handler_bind_eq _ _ _ _ _ (send_media_at p sent out k g Hp Hc ltac:(lia))).
      match goal with |- context [send_all l (driver_at _ _ ?s ?o ?k1 ?g1)] => destruct (IH s o k1 g1) as (k' & g' & ->); [lia..|] end. exists k', g'. by rewrite <- app_assoc.
Qed.
End Sender.

Lemma fec_stream_bytes_image ms : stream_bytes ms = concat (image <$> (RStream <$> ms)).
Proof. unfold stream_bytes. by rewrite <- list_fmap_compose. Qed.

Lemma fec_stream_messages_wf max k g l :
  Forall (sendable max) l → 0 ≤ k → 0 ≤ g → k + Z.of_nat (length l) < 2 ^ 31 → g + Z.of_nat (length l) < 2 ^ 31 →
  Forall wf_image (RStream <$> stream_messages k g l).
Proof.
  intros Hl. revert k g. induction Hl as [|p l Hp Hl IH]; intros k g Hk Hg Hkl Hgl; [constructor|]. cbn [length] in *.
  destruct p as [c|p|h]; [| |by destruct Hp]; cbn [stream_messages].
  - constructor; [done|]. apply IH; lia.
  - cbn [sendable] in Hp. destruct (is_config (header p)); [constructor; [split_and!; [done|unfold is_u32; cbn; lia..]|]|]; apply IH; lia.
Qed.

Lemma fec_stream_messages_codecs max k g l :
  Forall (sendable max) l → omap codec_event (EvMsg <$> (RStream <$> stream_messages k g l)) = omap codec_of l.
Proof.
  intros Hl. revert k g. induction Hl as [|p l Hp Hl IH]; intros k g; [done|]. destruct p as [c|p|h]; [| |by destruct Hp].
  - cbn. by rewrite IH.
  - cbn [stream_messages]. destruct (is_config (header p)); cbn; apply IH.
Qed.

(** ** The messages of the sender are those of a session *)

Section Messages.
Context (endpoint max : Z) (Hmax : Z.of_nat DATAGRAM_HEADER_SIZE < max < 0x10000).
Context (l : list AVPacket) (Hl : Forall (sendable max) l) (Hlen : Z.of_nat (length l) < 2 ^ 31).
#[local] Instance fec_session : Session := sender_session max l Hlen.

Lemma fec_is_sent_sendable k p : is_sent k p → sendable max (Media p).
Proof.
  intros [_ Hp]. apply list_elem_of_lookup_2 in Hp. cbn in Hp. apply list_elem_of_omap in Hp as (q & Hq & Hm).
  rewrite Forall_forall in Hl. destruct q; try done. injection Hm as ->. by apply Hl.
Qed.

#[local] Instance fec_session_ok : FecSessionOk max.
Proof.
  split.
  - intros k p Hp. exact (sendable_wf _ _ (fec_is_sent_sendable _ _ Hp)).
  - intros k p Hp Hc. pose proof (fec_is_sent_sendable _ _ Hp) as Hs. cbn [sendable] in Hs. rewrite Hc in Hs. destruct Hs as (_ & Hs & Hv). split_and!; [done|lia|done].
Qed.

Lemma fec_stream_messages_genuine l1 l2 : l = l1 ++ l2 →
  Forall (λ m, genuine max (EvMsg (RStream m))) (stream_messages (number_after l1) (configs_of l1) l2).
Proof.
  revert l1. induction l2 as [|p l2 IH]; intros l1 Heq; [constructor|].
  pose proof (IH (l1 ++ [p]) ltac:(by rewrite <- app_assoc)) as IH1. rewrite number_snoc, configs_snoc in IH1.
  assert (Hp : sendable max p) by (rewrite Forall_forall in Hl; apply Hl; rewrite Heq; apply elem_of_app; right; left).
  destruct p as [c|p|h]; [| |by destruct Hp]; cbn [media_of stream_messages] in *.
  - rewrite !Z.add_0_r in IH1. by constructor.
  - destruct (sent_after max l Hlen _ _ _ Heq) as [Hs Hg].
    destruct (is_config (header p)) eqn:Hc; [|by rewrite Z.add_0_r in IH1]. constructor; [|done]. cbn. by split_and!.
Qed.

Lemma object_datagram_genuine k p b :
  media_sent k p → b ∈ object_datagrams endpoint max k (session_group plan k) p →
  ∃ m, parse b = Ok m ∧ genuine max (EvMsg (RDatagram m)).
Proof.
  intros Hp Hb. apply list_elem_of_fmap in Hb as ([i sym] & -> & Hin). cbn [fst snd]. pose proof Hp as [Hs Hc].
  destruct (object_params max k p Hs Hc) as [Htl Hrfc]. destruct (fec_objects_wf max k p Hs Hc) as (_ & _ & Hv).
  destruct (encoded_shape _ _ _ _ _ Htl Hrfc Hin) as [Hblk Hsz]. pose proof (is_sent_bound _ _ Hs). pose proof (session_group_bound k).
  eexists. split; [apply parse_datagram_bytes; try done; unfold is_u32; cbn [driver_at kypacket_seq group_seq]; lia|]. exists p. by split_and!.
Qed.

Lemma fec_session_datagrams_genuine l1 l2 b : l = l1 ++ l2 →
  b ∈ session_datagrams endpoint max (number_after l1) (configs_of l1) l2 →
  ∃ m, parse b = Ok m ∧ genuine max (EvMsg (RDatagram m)).
Proof.
  revert l1. induction l2 as [|p l2 IH]; intros l1 Heq Hb; [by apply not_elem_of_nil in Hb|].
  specialize (IH (l1 ++ [p]) ltac:(by rewrite <- app_assoc)). rewrite number_snoc, configs_snoc in IH.
  assert (Hp : sendable max p) by (rewrite Forall_forall in Hl; apply Hl; rewrite Heq; apply elem_of_app; right; left).
  destruct p as [c|p|h]; cbn [session_datagrams media_of] in *; [by rewrite !Z.add_0_r in IH; auto| |by destruct Hp].
  destruct (is_config (header p)) eqn:Hc; [by auto|]. apply elem_of_app in Hb as [Hb|Hb]; [|rewrite Z.add_0_r in IH; auto].
  destruct (sent_after max l Hlen _ _ _ Heq) as [Hs Hg]. rewrite Hc, Z.add_0_r in Hg. rewrite <- Hg in Hb. by eapply object_datagram_genuine.
Qed.
End Messages.

(** ** The driver *)

Lemma rounds_fec {SE : Session} (max : Z) {SO : FecSessionOk max} cod evs s s' r :
  fec_session_inv max cod s → Forall (genuine max) (snd <$> evs) → run_rounds (D := video_fec_driver) evs s = (s', r) →
  ∃ cod', fec_session_inv max (cod ++ cod') s' ∧ cod' `prefix_of` omap codec_event (snd <$> evs).
Proof.
  revert cod s. induction evs as [|[[now nows] ev] evs IH]; intros cod s Hinv Hgen; cbn [run_rounds].
  { intros [= <- <-]. exists []. by rewrite app_nil_r. }
  cbn in Hgen. apply Forall_cons in Hgen as [Hg Hgen]. cbn [round video_fec_driver fst snd].
  destruct (step now nows ev s) as [s1 r1] eqn:Hs. pose proof (step_fec max _ _ _ _ _ _ _ Hinv Hg Hs) as Hinv1.
  assert (Hcod : omap codec_event (snd <$> (((now, nows), ev) :: evs)) = option_list (codec_event ev) ++ omap codec_event (snd <$> evs)).
  { cbn. by destruct (codec_event ev). }
  rewrite Hcod. assert (Hstop : ∃ cod', fec_session_inv max (cod ++ cod') s1 ∧ cod' `prefix_of` option_list (codec_event ev) ++ omap codec_event (snd <$> evs)).
  { exists (option_list (codec_event ev)). split; [done|]. by apply prefix_app_r. }
  destruct r1 as [[]|e|]; [|by intros [= <- <-]..].
  intros Hr. destruct (IH _ _ Hinv1 Hgen Hr) as (cod2 & Hinv2 & Hp).
  exists (option_list (codec_event ev) ++ cod2). rewrite app_assoc. split; [done|]. by apply prefix_app.
Qed.

(** The messages taken by [process] in a run whose stream and datagrams come from the sender *)
Lemma fec_taken_of_sender endpoint max l stream stats acts s obs :
  Z.of_nat DATAGRAM_HEADER_SIZE < max < 0x10000 → ∀ (Hl : Forall (sendable max) l) (Hlen : Z.of_nat (length l) < 2 ^ 31),
  rd_data stream `prefix_of` stream_bytes (stream_messages 0 0 l) →
  exec acts (video_fec_start stream stats) = Some (s, obs) →
  (∀ b, b ∈ datagrams_read obs → b ∈ session_datagrams endpoint max 0 0 l) →
  (∀ ev, ev ∈ taken obs → genuine (SE := fec_session max l Hlen) max ev) ∧
  (∀ {B} (f : Event → option B), (∀ m, f (EvMsg (RDatagram m)) = None) → (∀ e, f (EvErr e) = None) →
     omap f (taken obs) `prefix_of` omap f (EvMsg <$> (RStream <$> stream_messages 0 0 l))) ∧
  omap codec_event (taken obs) `prefix_of` omap codec_of l.
Proof.
  intros Hmax Hl Hlen Hpre He Hdg. rewrite fec_stream_bytes_image in Hpre.
  pose proof (fec_stream_messages_genuine max l Hl Hlen [] l eq_refl) as Hgs.
  set (P := λ m, ∃ d, m = RDatagram d ∧ genuine (SE := fec_session max l Hlen) max (EvMsg m)).
  pose proof (fec_stream_messages_wf max 0 0 l Hl ltac:(lia) ltac:(lia) ltac:(lia) ltac:(lia)) as Hwf.
  destruct (taken_session (D := video_fec_driver) image wf_image _ P Hwf _ _ _ _ _ Hpre He) as [Hin Hord].
  { intros b Hb. destruct (fec_session_datagrams_genuine endpoint max Hmax l Hl Hlen [] l b eq_refl (Hdg b Hb)) as (m & Hm & Hg).
    exists (RDatagram m). split; [cbn; by rewrite Hm|]. by exists m. }
  split_and!.
  - intros ev Hev. destruct (Hin ev Hev) as [(m & Hm & ->)|[(m & (d & -> & Hg) & ->)|(err & e & [= <-] & ->)]]; [|done|done].
    apply list_elem_of_fmap in Hm as (m' & -> & Hm). rewrite Forall_forall in Hgs. by apply Hgs.
  - intros B f Hf1 Hf2. apply (Hord _ f); [intros m (d & -> & _); apply Hf1|intros err e [= <-]; apply Hf2].
  - rewrite <- (fec_stream_messages_codecs max 0 0 l Hl). apply (Hord _ codec_event); [by intros m (d & -> & _)|by intros err e [= <-]].
Qed.

(** What the client receives of a session *)
Lemma fec_session_received endpoint max l stream stats acts s obs :
  Z.of_nat DATAGRAM_HEADER_SIZE < max < 0x10000 → Forall (sendable max) l → Z.of_nat (length l) < 2 ^ 31 →
  rd_data stream `prefix_of` stream_bytes (stream_messages 0 0 l) → exec acts (video_fec_start stream stats) = Some (s, obs) →
  (∀ b, b ∈ datagrams_read obs → b ∈ session_datagrams endpoint max 0 0 l) →
  omap media_of (ReceiveTasks.received obs) `sublist_of` omap media_of l ∧
  omap codec_of (ReceiveTasks.received obs) `prefix_of` omap codec_of l ∧
  (run_rounds (rounds obs) (process_init stats)).2 ≠ Panic.
Proof.
  intros Hmax Hl Hlen Hpre He Hdg.
  destruct (fec_taken_of_sender endpoint max l stream stats acts s obs Hmax Hl Hlen Hpre He Hdg) as (Hgen & _ & Hord).
  pose proof (rounds_of_taken (D := video_fec_driver) obs) as Hin.
  pose proof (rounds_omap (D := video_fec_driver) codec_event obs eq_refl eq_refl) as Hf.
  destruct (driver_inv _ _ _ _ _ He) as [_ _ (r & Hrun & _) (rest & Hsent & _) _ _ _ _].
  pose (SS := fec_session max l Hlen). pose proof (fec_session_ok max Hmax l Hl Hlen) as SO.
  assert (Hall : Forall (genuine (SE := SS) max) (snd <$> rounds obs)).
  { apply Forall_forall. intros ev Hev. destruct (Hin ev Hev) as [Ht|[->| ->]]; [by apply Hgen|done|done]. }
  destruct (rounds_fec (SE := SS) max _ _ _ _ _ (fec_session_init (SE := SS) max stats) Hall Hrun) as (cod & Hinv & Hcod).
  pose proof (fi_codecs _ _ _ Hinv) as Hcods. cbn [app] in Hcods. cbn [ReceiveTasks.sent video_fec_driver process_init client fmap list_fmap app] in Hsent.
  split_and!.
  - etrans; [|apply (client_sublist (H := SS) (client (process_state s))); apply Hinv]. rewrite Hsent, omap_app. by apply sublist_inserts_r.
  - etrans; [|exact Hord]. rewrite <- Hf. etrans; [|exact Hcod]. rewrite <- Hcods, Hsent, omap_app. by apply prefix_app_r.
  - apply video_fec_rounds_safe.
Qed.

(** C2: video with error correction from end to end.  The sender sends any
    session of codecs, configs and media packets that the receiver's limits
    allow; the network delivers any part of the stream and any of the datagrams,
    in any order and any number of times; the tasks of the receiver, the clock
    and the client are scheduled in any way, and whatever the budget makes the
    receiver retire.  Then the media packets that [recv] returns are packets of
    the session, decoded intact, in order and each at most once, the codecs it
    returns are the first ones of the session, in order, and [process] does not
    panic. *)
Theorem video_fec_session_end_to_end endpoint max l :
  Z.of_nat DATAGRAM_HEADER_SIZE < max < 0x10000 → Forall (sendable max) l → Z.of_nat (length l) < 2 ^ 31 →
  ∃ sent wire k g,
    send_all l (send_start (open_channel endpoint max []) (open_writer [])) = (driver_at endpoint max sent wire k g, Ok tt) ∧
    ∀ stream stats acts s obs,
      rd_data stream `prefix_of` wire → exec acts (video_fec_start stream stats) = Some (s, obs) →
      (∀ b, b ∈ datagrams_read obs → b ∈ sent) →
      omap media_of (ReceiveTasks.received obs) `sublist_of` omap media_of l ∧
      omap codec_of (ReceiveTasks.received obs) `prefix_of` omap codec_of l ∧
      (run_rounds (rounds obs) (process_init stats)).2 ≠ Panic.
Proof.
  intros Hmax Hl Hlen. destruct (fec_send_all_at endpoint max Hmax l [] [] 0 0 Hl ltac:(lia) ltac:(lia) ltac:(lia) ltac:(lia)) as (k & g & Hsend).
  exists (session_datagrams endpoint max 0 0 l), (stream_bytes (stream_messages 0 0 l)), k, g. split; [exact Hsend|].
  intros stream stats acts s obs Hpre He Hdg.
  by eapply fec_session_received.
Qed.
End EndToEnd.

(** ** A sample, with the systematic code *)

Definition fec_sample_session : list AVPacket :=
  [Codec {| codec_header := {| codec := 7; rotation := 0; Av.frame_size := 0 |} |};
   Media {| header := {| is_config := true; is_key := false; pts := 0; size := 2 |}; payload := [1; 2] |};
   Media {| header := {| is_config := false; is_key := true; pts := 5; size := 4 |}; payload := [3; 4; 5; 6] |};
   Media {| header := {| is_config := false; is_key := false; pts := 6; size := 12 |}; payload := replicate 12 9 |}].

Lemma fec_sample_sendable : Forall (sendable (H := systematic) 34) fec_sample_session.
Proof. repeat constructor; vm_compute; intuition congruence. Qed.

Definition fec_sample_wire : bytes * list bytes :=
  let d := (send_all (H := systematic) fec_sample_session (send_start (open_channel 5 34 []) (open_writer []))).1 in
  (w_out (stream d), datagrams_sent (ky_channel d)).

Definition fec_sample_stream : Reader := {| rd_chunks := [fec_sample_wire.1]; rd_fail := None |}.

(** The datagrams come before the stream, the last first. *)
Definition fec_sample_actions : list (ReceiveTasks.Action (Time:=Clocks * (nat → Instant))) :=
  concat ((λ b, [GotDatagram (inr b); PushDatagram; Round sample_time false]) <$> reverse fec_sample_wire.2) ++
  concat (replicate 2 [ReadStream; PushStream; Round sample_time false; Deliver; Recv]) ++ [Deliver; Recv; Deliver; Recv].

Example video_fec_sample_received :
  option_map (λ r, ReceiveTasks.received (snd r)) (exec fec_sample_actions (video_fec_start (H := systematic) fec_sample_stream stats_default)) = Some fec_sample_session.
Proof. by vm_compute. Qed.

Lemma video_fec_session_end_to_end_witness :
  ∃ sent wire k g,
    send_all fec_sample_session (send_start (open_channel 5 34 []) (open_writer [])) = (driver_at 5 34 sent wire k g, Ok tt) ∧
    ∀ stream stats acts s obs,
      rd_data stream `prefix_of` wire → exec acts (video_fec_start stream stats) = Some (s, obs) →
      (∀ b, b ∈ datagrams_read obs → b ∈ sent) →
      omap media_of (ReceiveTasks.received obs) `sublist_of` omap media_of fec_sample_session ∧
      omap codec_of (ReceiveTasks.received obs) `prefix_of` omap codec_of fec_sample_session ∧
      (run_rounds (rounds obs) (process_init stats)).2 ≠ Panic.
Proof. apply (video_fec_session_end_to_end 5 34 fec_sample_session); [by vm_compute|apply fec_sample_sendable|by vm_compute]. Defined.
