(* ===== verification/VideoFecComplete.v ===== *)
(** * Nothing is lost: video with error correction

    The other half of [VideoFecSession]: when the network keeps its promises,
    [process] keeps its own.  If sufficient symbols of the packets arrive before
    the buffering time of the packets that wait for them is over, and what is in
    flight fits the receive budget, then no error occurs, nothing is retired or
    skipped, and the client is given every packet as soon as it and all those before it
    have arrived. *)

From stdpp Require Import prelude list gmap strings.
From Stdlib Require Import ZArith Lia.
From S2P Require Import Prelude SortedVec Sequencer Io Av Packets Channel Reassembly Fec SystematicCode FecSafety VideoOrder VideoSession FecTransfer FecRecovery Arrivals VideoFecSafety VideoFecProcess Router ReceiveTasks VideoUnreliableFec VideoFecReceive VideoFecSession.
Open Scope Z_scope.

(** ** What has arrived *)

Abbreviation timed_event := (Clocks * (nat → Instant) * Event)%type.

Section Arrivals.
Context `{RQ : RaptorQ} {RR : RaptorQRecovery} (max : Z) (packets : list MediaPacket).

(** The packet a datagram belongs to, and the identifier of its symbol *)
Definition symbol_of (ev : Event) : option (Z * (Z * Z)) :=
  match ev with
  | EvMsg (RDatagram m) => Some (dm_raw_kypacket_seq m, (source_block_number (dm_payload_id m), encoding_symbol_id (dm_payload_id m)))
  | _ => None
  end.

(** The number of a config *)
Definition config_number (ev : Event) : option Z :=
  match ev with
  | EvMsg (RStream m) => match sm_packet m with Media _ => Some (sm_raw_kypacket_seq m) | _ => None end
  | _ => None
  end.

(** Packet [k] has arrived: a config on the stream, a media packet by symbols
    that determine it. *)
Definition arrived (evs : list Event) (k : Z) : bool :=
  match packets !! Z.to_nat k with
  | Some p => if is_config (header p) then bool_decide (k ∈ omap config_number evs) else sufficient (object_oti max p) (packet_ids symbol_of evs k)
  | None => false
  end.

(** Some of packet [k] has arrived. *)
Definition begun (evs : list Event) (k : Z) : bool :=
  match packets !! Z.to_nat k with
  | Some p => if is_config (header p) then bool_decide (k ∈ omap config_number evs) else bool_decide (packet_ids symbol_of evs k ≠ ∅)
  | None => false
  end.

(** The first packet that has not arrived *)
Definition frontier (evs : list Event) : Z := first_missing (length packets) (arrived evs).

(** The packets that have begun to arrive, among those from [from] on *)
Definition in_flight (from : Z) (evs : list Event) : list Z := filter (λ k, from ≤ k ∧ begun evs k = true) (numbers (length packets)).

(** What packet [k] counts for in the receive budget, and its group *)
Definition demand (k : Z) : Z :=
  match packets !! Z.to_nat k with
  | Some p => if is_config (header p) then blen (payload p) else reservation (object_oti max p)
  | None => 0
  end.
Definition group_of (k : Z) : Z := session_group ((λ p, is_config (header p)) <$> packets) k.

Definition fits (ks : list Z) : Prop :=
  Z.of_nat (length ks) ≤ MAX_PENDING_OBJECTS ∧ sum_list_with demand ks ≤ pending_limit MAX_VIDEO_PAYLOAD ∧
  Z.of_nat (base.size (list_to_set (group_of <$> ks) : gset Z)) < MAX_PENDING_GROUPS.

(** One round, after those of [before]: a message or the deadline, not an error or the end of the
    queue; what is in flight fits the budget; and no packet has waited for
    [MAX_BUFFERING] behind one that has not arrived. *)
Definition round_steady (before : list timed_event) (r : timed_event) : Prop :=
  match r.2 with EvMsg _ | EvDeadline => True | _ => False end ∧
  fits (in_flight (frontier (snd <$> before)) (snd <$> (before ++ [r]))) ∧
  Forall (λ r' : timed_event, match symbol_of r'.2 with
                | Some (k, _) => frontier (snd <$> (before ++ [r])) < k → ∀ i, r.1.2 i < at_assemble r'.1.1 + MAX_BUFFERING
                | None => True
                end) (before ++ [r]).

Fixpoint steady (before rs : list timed_event) : Prop :=
  match rs with
  | [] => True
  | r :: rs => round_steady before r ∧ steady (before ++ [r]) rs
  end.

(** Distinct packets in flight are within the budget. *)
Lemma fits_less ks ks' : (∀ k, 0 ≤ demand k) → fits ks → NoDup ks' → (∀ k, k ∈ ks' → k ∈ ks) → fits ks'.
Proof.
  intros Hd (H1 & H2 & H3) Hnd Hsub. destruct (weights_some demand ks ks' Hd Hnd Hsub). unfold fits.
  assert (base.size (list_to_set (group_of <$> ks') : gset Z) ≤ base.size (list_to_set (group_of <$> ks) : gset Z))%nat.
  { apply subseteq_size. intros g. rewrite !elem_of_list_to_set, !list_elem_of_fmap. intros (k & -> & Hk). eauto. }
  lia.
Qed.
End Arrivals.

(** ** Insertions in a group *)

Section Complete.
Context `{RL : RaptorQLaws} {RR : RaptorQRecovery} {SE : Session} (max : Z) {SO : FecSessionOk max}.
Hypothesis Hblocks : ∀ k p, media_sent k p → source_blocks (object_oti max p) ≤ 3.
Hypothesis Hconfig : ∀ p, is_sent 0 p → is_config (header p) = true.

(** The decoder of a packet of which not enough has come *)
Definition open_decoder (k : Z) (d : ObjectDecoder) : Prop :=
  ∃ p, media_sent k p ∧ open_object (media_image p) (object_oti max p) (object_repair max p) d.

Lemma video_media_unique k p q : media_sent k p → media_sent k q → p = q.
Proof. intros [Hp _] [Hq _]. by eapply is_sent_unique. Qed.

Lemma video_object_ok k p :
  media_sent k p → transfer_length (object_oti max p) = blen (media_image p) ∧ validate_oti (object_oti max p) MAX_VIDEO_PAYLOAD = Ok tt.
Proof. intros [Hs Hc]. split; [by destruct (object_params max k p Hs Hc)|]. by destruct (fec_objects_wf max k p Hs Hc) as (_ & _ & Hv). Qed.

Lemma video_insufficient k p d ids :
  media_sent k p → open_decoder k d → ids ⊆ Fec.received d → sufficient (object_oti max p) ids = false.
Proof.
  intros Hp (q & Hq & Hopen) Hids. assert (q = p) as -> by by eapply video_media_unique. destruct (video_object_ok k p Hp).
  by eapply open_object_insufficient.
Qed.

Lemma video_add_symbol k p id data s :
  media_sent k p → (id, data) ∈ object_packets max p → wf_segments s → open_decoder k (fs_decoder s) →
  ∃ s', add_packet (object_oti max p) id data s = Ok s' ∧ fs_seq s' = fs_seq s ∧ od_oti (fs_decoder s') = object_oti max p ∧
    Fec.received (fs_decoder s') = {[key_of (id, data)]} ∪ Fec.received (fs_decoder s) ∧
    match assembled s' with None => open_decoder k (fs_decoder s') | Some out => out = media_image p end.
Proof.
  intros Hp Hin [Hwf _] (q & Hq & Hopen). assert (q = p) as -> by by eapply video_media_unique. destruct (video_object_ok k p Hp) as [Hlen Hv].
  assert (Hr : object_repair max p = repair_symbols (symbols_of (object_oti max p))) by (unfold object_repair, symbols_of; by rewrite Hlen).
  destruct (repair_within_cap _ _ Hv (Hblocks k p Hp)) as [Hn Hcap]. rewrite <- Hr in Hn, Hcap.
  destruct (open_object_decode _ _ _ _ Hlen Hv _ _ _ Hn (λ b _, Hcap b) Hwf Hopen Hin) as (d' & o & Hdec & Hrec & Ho & Hout).
  unfold add_packet. rewrite Hdec. cbn [mbind outcome_bind]. eexists. split; [done|]. cbn. split_and!; [done|done|done|].
  destruct o as [out|]; [done|]. by exists p.
Qed.

(** The segments that a symbol of packet [k] goes to *)
Lemma video_prepare_total now k p g :
  wf_group g → (∀ s, s ∈ fg_segments g → open_decoder (fs_seq s) (fs_decoder s)) → media_sent k p →
  ∃ segs i s, prepare_datagram_segments now k (object_oti max p) g = Ok (with_segments segs g, i) ∧
    segs !! i = Some s ∧ fs_seq s = k ∧ sorted_by fs_seq segs ∧ wf_segments s ∧ open_decoder k (fs_decoder s) ∧
    (∀ x, x ∈ segs ↔ x ∈ fg_segments g ∨ x = s) ∧ (∀ x, x ∈ fg_segments g → fs_seq x = k → x = s).
Proof.
  intros Hg Hopen Hp. unfold prepare_datagram_segments.
  destruct (binary_search_cases fs_seq k (fg_segments g) (wg_segments _ Hg)) as [(i & s & -> & Hi & Hk)|[-> Hn]].
  { pose proof (list_elem_of_lookup_2 _ _ _ Hi) as Hs. exists (fg_segments g), i, s.
    split_and!; [by destruct g|done|done|apply Hg|by apply Hg|rewrite <- Hk; by apply Hopen| |].
    - intros x. split; [by left|]. by intros [?| ->].
    - intros x Hx Hxk. eapply (sorted_key_inj fs_seq); [apply Hg|done|done|congruence]. }
  unfold DatagramSegments_new. destruct (video_object_ok k p Hp) as [Hlen Hv].
  destruct (open_object_new (media_image p) _ (object_repair max p) _ Hlen Hv) as (d & -> & Hwf & Hopn & _). cbn [mbind outcome_bind].
  eexists _, _, _. split; [reflexivity|]. split; [apply vec_insert_lookup, lower_bound_le|]. split_and!; [done|by apply sorted_vec_insert; [apply Hg|..]|by split|by exists p| |].
  - intros x. rewrite vec_insert_perm, elem_of_cons. tauto.
  - intros x Hx Hxk. exfalso. rewrite Forall_forall in Hn. by apply (Hn x).
Qed.

(** The effect of a symbol of packet [k] on its group *)
Record group_inserted (now : Instant) (k : Z) (p : MediaPacket) (key : Z * Z) (g g' : PendingGroup) : Prop := {
  gn_seq : fg_seq g' = fg_seq g;
  gn_config : fg_config g' = fg_config g;
  gn_datagrams_kept d : d ∈ fg_datagrams g → d ∈ fg_datagrams g';
  gn_datagrams_new d : d ∈ fg_datagrams g' → d ∈ fg_datagrams g ∨ fd_seq d = k ∧ fd_oti d = object_oti max p ∧ fd_instant d = now;
  gn_segments_kept s : s ∈ fg_segments g → fs_seq s ≠ k → s ∈ fg_segments g';
  gn_segments_new s : s ∈ fg_segments g' → s ∈ fg_segments g ∧ fs_seq s ≠ k ∨ fs_seq s = k ∧ open_decoder k (fs_decoder s);
  gn_tracked : k ∈ fd_seq <$> fg_datagrams g' ∨
    ∃ s, s ∈ fg_segments g' ∧ fs_seq s = k ∧ key ∈ Fec.received (fs_decoder s) ∧
      ∀ s0, s0 ∈ fg_segments g → fs_seq s0 = k → Fec.received (fs_decoder s0) ⊆ Fec.received (fs_decoder s);
}.

Lemma group_insert_total now k p id data g :
  wf_group g → (∀ s, s ∈ fg_segments g → open_decoder (fs_seq s) (fs_decoder s)) →
  (∀ d, d ∈ fg_datagrams g → fd_seq d = k → fd_oti d = object_oti max p) → media_sent k p → (id, data) ∈ object_packets max p →
  ∃ g', group_insert_datagram now k (object_oti max p) id data g = Ok g' ∧ group_inserted (at_assemble now) k p (key_of (id, data)) g g'.
Proof.
  intros Hg Hopen Hoti Hp Hin. unfold group_insert_datagram.
  destruct (binary_search_cases fd_seq k (fg_datagrams g) (wg_datagrams _ Hg)) as [(i & d & -> & Hi & Hk)|[Hb Hn]].
  { pose proof (list_elem_of_lookup_2 _ _ _ Hi) as Hd. rewrite Hi. cbn [expect mbind outcome_bind]. rewrite (bool_decide_true (fd_oti d = object_oti max p)) by auto.
    exists g. split; [done|]. split; [done|done|done|by left|done| |].
    - intros s Hs. left. split; [done|]. rewrite <- Hk. intros Heq. by apply (wg_disjoint g Hg d s).
    - left. apply list_elem_of_fmap. by exists d. }
  destruct (video_prepare_total (at_create now) k p g Hg Hopen Hp) as (segs & i & s & Hprep & Hi & Hsk & Hso & Hws & Hsd & Hel & Huniq).
  rewrite Hb, Hprep. cbn [mbind outcome_bind with_segments fg_segments]. rewrite Hi. cbn [expect mbind outcome_bind].
  destruct (video_add_symbol k p id data s Hp Hin Hws Hsd) as (s' & -> & Hsk' & Hso' & Hrec & Hout). cbn [mbind outcome_bind with_segments fg_segments fg_datagrams fg_config].
  rewrite Hsk in Hsk'. rewrite delete_insert. pose proof (lookup_lt_Some _ _ _ Hi) as Hlt.
  assert (Hdel : ∀ x, x ∈ delete i segs ↔ x ∈ fg_segments g ∧ fs_seq x ≠ k).
  { intros x. split.
    - intros Hx. destruct (elem_of_delete_neq fs_seq _ _ _ _ Hso Hi Hx) as [Hx1 Hx2]. rewrite Hsk in Hx2. split; [|done]. apply Hel in Hx1 as [?| ->]; done.
    - intros [Hx Hxk]. assert (Hx2 : x ∈ segs) by (apply Hel; by left). rewrite (delete_Permutation _ _ _ Hi) in Hx2.
      apply elem_of_cons in Hx2 as [->|]; done. }
  unfold is_complete, assemble. destruct (assembled s') as [out|]; cbn [ok_or mbind outcome_bind].
  - rewrite bool_decide_true by done. subst out. destruct (fec_packets_wf max k p (proj1 Hp)) as [Hwfm Hsz].
    rewrite (media_packet_image p Hwfm (proj2 Hp) Hsz). cbn [mbind outcome_bind]. eexists. split; [done|].
    unfold insert_datagram_packet. cbn [fd_seq with_segments fg_datagrams]. rewrite Hsk', Hb.
    split; cbn [with_segments with_datagrams fg_seq fg_config fg_datagrams fg_segments]; [done|done|..].
    + intros d Hd. rewrite vec_insert_perm. by right.
    + intros d. rewrite vec_insert_perm. intros [->|]%elem_of_cons; [right|by left]. by rewrite <- Hso'.
    + intros x Hx Hxk. by apply Hdel.
    + intros x Hx%Hdel. by left.
    + left. apply list_elem_of_fmap. eexists. split; [|rewrite vec_insert_perm; left]. done.
  - rewrite bool_decide_false by (by intros [? ?]). eexists. split; [done|].
    split; cbn [with_segments fg_seq fg_config fg_datagrams fg_segments]; [done|done|done|by left|..].
    + intros x Hx Hxk. rewrite (insert_delete_perm i s s' segs Hi). right. by apply Hdel.
    + intros x. rewrite (insert_delete_perm i s s' segs Hi). intros [->|Hx%Hdel]%elem_of_cons; [by right|by left].
    + right. exists s'. rewrite (insert_delete_perm i s s' segs Hi). split_and!; [left|done|rewrite Hrec; set_solver|].
      intros s0 Hs0 Hk0. rewrite (Huniq s0 Hs0 Hk0), Hrec. set_solver.
Qed.

(** ** What [process] holds *)

Abbreviation ids_of rs k := (packet_ids symbol_of (snd <$> rs) k).
Abbreviation configs_in rs := (omap config_number (snd <$> rs)).

(** The numbers pending in a group *)
Definition config_numbers (c : ConfigPacket) : list Z := match c with CfgReady p => [st_seq p] | _ => [] end.
Definition group_numbers (g : PendingGroup) : list Z := media_seqs g ++ config_numbers (fg_config g).

(** After the rounds [rs], nothing of what has come from the next packet on is
    lost, and the client has all the packets before it.  Only the group of the last packet taken
    may have nothing pending. *)
Record on_time (rs : list timed_event) (s : Process) : Prop := {
  vt_retired : retired_through (pending_groups s) = None;
  vt_segments g sg : g ∈ groups (pending_groups s) → sg ∈ fg_segments g → open_decoder (fs_seq sg) (fs_decoder sg) ∧ ids_of rs (fs_seq sg) ≠ ∅;
  vt_tracked k p : media_sent k p → next_kypacket_seq s ≤ k → ids_of rs k ≠ ∅ →
    ∃ g, g ∈ groups (pending_groups s) ∧
      (k ∈ fd_seq <$> fg_datagrams g ∨ ∃ sg, sg ∈ fg_segments g ∧ fs_seq sg = k ∧ ids_of rs k ⊆ Fec.received (fs_decoder sg));
  vt_datagrams g d : g ∈ groups (pending_groups s) → d ∈ fg_datagrams g →
    (∀ p, media_sent (fd_seq d) p → fd_oti d = object_oti max p) ∧
    ∃ r key, r ∈ rs ∧ at_assemble r.1.1 = fd_instant d ∧ symbol_of r.2 = Some (fd_seq d, key);
  vt_config k : k ∈ configs_in rs → next_kypacket_seq s ≤ k → ∃ g p, g ∈ groups (pending_groups s) ∧ fg_config g = CfgReady p ∧ st_seq p = k;
  vt_ready g p : g ∈ groups (pending_groups s) → fg_config g = CfgReady p → st_seq p ∈ configs_in rs;
  vt_next : 0 ≤ next_kypacket_seq s;
  vt_last : 0 < next_kypacket_seq s →
    ∃ g, g ∈ groups (pending_groups s) ∧ fg_seq g = session_group plan (next_kypacket_seq s - 1) ∧ fg_config g = CfgSent;
  vt_others g : g ∈ groups (pending_groups s) → fg_config g = CfgSent → 0 < next_kypacket_seq s ∧ fg_seq g = session_group plan (next_kypacket_seq s - 1);
  vt_filled g : g ∈ groups (pending_groups s) → fg_config g ≠ CfgSent → group_numbers g ≠ [];
  vt_media : omap media_of (snd <$> client s) = take (Z.to_nat (next_kypacket_seq s)) sent_packets;
}.

Lemma video_on_time_init stats : on_time [] (process_init stats).
Proof. split; cbn; try done; intros; exfalso; by eapply not_elem_of_nil. Qed.

(** A media packet is in the group of the packet before it. *)
Lemma media_group k p : media_sent k p → 0 < k ∧ session_group plan k = session_group plan (k - 1).
Proof.
  intros [[Hk Hp] Hc]. assert (0 < k). { destruct (decide (k = 0)) as [->|]; [|lia]. rewrite Hconfig in Hc; done. }
  split; [done|]. unfold session_group. replace (Z.to_nat (k - 1 + 1)) with (Z.to_nat k) by lia. replace (Z.to_nat (k + 1)) with (S (Z.to_nat k)) by lia.
  rewrite (take_S_r _ _ false); [|unfold plan; by rewrite list_lookup_fmap, Hp; cbn; rewrite Hc]. rewrite List.filter_app. cbn. by rewrite app_nil_r.
Qed.

(** What is pending is due. *)
Lemma pending_due cod s g k :
  fec_session_inv max cod s → g ∈ groups (pending_groups s) → k ∈ group_numbers g →
  due (next_kypacket_seq s) (fg_seq g) k ∧ ∃ p, is_sent k p ∧ (k ∈ media_seqs g → is_config (header p) = false) ∧
    (fg_config g = CfgReady {| st_packet := Media p; st_seq := k |} ∨ k ∈ media_seqs g).
Proof.
  intros HP Hg Hk. pose proof (fi_groups _ _ _ HP g Hg) as HC. unfold group_numbers in Hk. apply elem_of_app in Hk as [Hk|Hk].
  - pose proof Hk as Hk'. apply elem_of_media_seqs in Hk as [(sg & Hsg & <-)|(d & Hd & <-)].
    + destruct (gc_segments _ _ _ HC sg Hsg) as [Hdue (p & _ & _ & [Hp Hc] & _)]. split; [done|]. exists p. auto.
    + destruct (gc_datagrams _ _ _ HC d Hd) as [Hdue (p & [Hp Hc] & _)]. split; [done|]. exists p. auto.
  - destruct (fg_config g) as [|q|] eqn:Hq; [by apply not_elem_of_nil in Hk| |by apply not_elem_of_nil in Hk].
    apply list_elem_of_singleton in Hk as ->. destruct (gc_config _ _ _ HC q Hq) as [Hdue (m & Hm & Hc & Hpk)]. split; [done|]. exists m.
    split_and!; [done| |left; destruct q; cbn in *; by subst]. intros Hmed. exfalso.
    apply elem_of_media_seqs in Hmed as [(sg & Hsg & Hk)|(d & Hd & Hk)].
    + destruct (gc_segments _ _ _ HC sg Hsg) as [_ (p & _ & _ & [Hp Hcp] & _)]. rewrite Hk in Hp. by rewrite (is_sent_unique _ _ _ Hp Hm), Hc in Hcp.
    + destruct (gc_datagrams _ _ _ HC d Hd) as [_ (p & [Hp Hcp] & _)]. rewrite Hk in Hp. by rewrite (is_sent_unique _ _ _ Hp Hm), Hc in Hcp.
Qed.

(** Groups before that of the next packet have nothing pending. *)
Lemma earlier_group_empty cod s g :
  fec_session_inv max cod s → g ∈ groups (pending_groups s) → fg_seq g < session_group plan (next_kypacket_seq s) → group_numbers g = [].
Proof.
  intros HP Hg Hlt. destruct (group_numbers g) as [|k ks] eqn:Hn; [done|]. exfalso.
  destruct (pending_due _ _ _ k HP Hg) as [[Hk Hgk] _]; [rewrite Hn; left|]. pose proof (later_group k (next_kypacket_seq s)) as Hl. rewrite Hgk in Hl.
  specialize (Hl Hlt). lia.
Qed.

(** The next packet is there. *)
Definition held (s : Process) : Prop :=
  ∃ g, g ∈ groups (pending_groups s) ∧
    ((∃ p, fg_config g = CfgReady p ∧ st_seq p = next_kypacket_seq s) ∨ next_kypacket_seq s ∈ fd_seq <$> fg_datagrams g).

Lemma held_or_not s : held s ∨ ¬ held s.
Proof.
  destruct (decide (Exists (λ g, next_kypacket_seq s ∈ config_numbers (fg_config g) ++ (fd_seq <$> fg_datagrams g)) (groups (pending_groups s)))) as [He|He].
  - left. apply Exists_exists in He as (g & Hg & Hk). exists g. split; [done|]. apply elem_of_app in Hk as [Hk|Hk]; [left|by right].
    destruct (fg_config g) as [|p|]; [by apply not_elem_of_nil in Hk| |by apply not_elem_of_nil in Hk]. apply list_elem_of_singleton in Hk. by exists p.
  - right. intros (g & Hg & Hk). apply He, Exists_exists. exists g. split; [done|]. apply elem_of_app.
    destruct Hk as [(p & -> & <-)|?]; [left; by apply list_elem_of_singleton|by right].
Qed.

Lemma held_group cod s g :
  fec_session_inv max cod s → g ∈ groups (pending_groups s) →
  (∃ p, fg_config g = CfgReady p ∧ st_seq p = next_kypacket_seq s) ∨ next_kypacket_seq s ∈ fd_seq <$> fg_datagrams g →
  fg_seq g = session_group plan (next_kypacket_seq s).
Proof.
  intros HP Hg Hh. destruct (pending_due _ _ _ (next_kypacket_seq s) HP Hg) as [[_ Hgk] _]; [|done]. unfold group_numbers. apply elem_of_app.
  destruct Hh as [(p & Hp & <-)|Hd]; [right; rewrite Hp; by apply list_elem_of_singleton|left]. unfold media_seqs. apply elem_of_app. by right.
Qed.

(** The config of the group of the next packet has been taken when that packet is not a config. *)
Lemma held_media_sent cod rs s g :
  fec_session_inv max cod s → on_time rs s → g ∈ groups (pending_groups s) → next_kypacket_seq s ∈ fd_seq <$> fg_datagrams g → fg_config g = CfgSent.
Proof.
  intros HP HO Hg Hd. pose proof (held_group _ _ _ HP Hg (or_intror Hd)) as Hgk. apply list_elem_of_fmap in Hd as (d & Hd & Hin).
  destruct (gc_datagrams _ _ _ (fi_groups _ _ _ HP g Hg) d Hin) as [_ (p & Hp & _)]. rewrite <- Hd in Hp. destruct (media_group _ p Hp) as [Hpos Heq].
  destruct (vt_last _ _ HO Hpos) as (g0 & Hg0 & Hk0 & Hc0). assert (g = g0) as ->; [|done].
  eapply (sorted_key_inj fg_seq); [apply (fi_ok _ _ _ HP)|done|done|congruence].
Qed.

Lemma not_held_missing cod rs s :
  fec_session_inv max cod s → on_time rs s → ¬ held s → arrived max sent_packets (snd <$> rs) (next_kypacket_seq s) = false.
Proof.
  intros HP HO Hh. unfold arrived. destruct (sent_packets !! _) as [p|] eqn:Hp; [|done]. pose proof (vt_next _ _ HO) as Hn.
  assert (Hs : is_sent (next_kypacket_seq s) p) by done. destruct (is_config (header p)) eqn:Hcf.
  - apply bool_decide_eq_false. intros Hin. apply Hh. destruct (vt_config _ _ HO _ Hin ltac:(lia)) as (g & q & Hg & Hq & Hk). exists g. split; [done|]. left. by exists q.
  - assert (Hm : media_sent (next_kypacket_seq s) p) by by split. destruct (decide (ids_of rs (next_kypacket_seq s) = ∅)) as [He|He].
    + rewrite He. destruct (video_object_ok _ p Hm) as [Hlen Hv]. by apply (nothing_insufficient (media_image p) _ 0 MAX_VIDEO_PAYLOAD).
    + destruct (vt_tracked _ _ HO _ p Hm ltac:(lia) He) as (g & Hg & [Hd|(sg & Hsg & Hk & Hids)]); [destruct Hh; exists g; auto|].
      destruct (vt_segments _ _ HO g sg Hg Hsg) as [Hopen _]. rewrite Hk in Hopen. by eapply video_insufficient.
Qed.

Lemma not_held_frontier cod rs s :
  fec_session_inv max cod s → on_time rs s → ¬ held s → frontier max sent_packets (snd <$> rs) ≤ next_kypacket_seq s.
Proof. intros HP HO Hh. apply first_missing_le; [apply HO|]. by eapply not_held_missing. Qed.

(** ** Looking for the next packet *)

Lemma group_numbers_nil g : group_numbers g = [] → fg_datagrams g = [] ∧ cfg_is_ready (fg_config g) = false.
Proof.
  unfold group_numbers, media_seqs. intros [[_ Hd]%app_nil Hc]%app_nil. split; [by apply fmap_nil_inv in Hd|]. by destruct (fg_config g).
Qed.

Lemma loop_skip now next all gs rest index cached :
  Forall (λ g, group_numbers g = []) gs →
  next_packet_loop now next all (gs ++ rest) index cached = next_packet_loop now next all rest (index + length gs) cached.
Proof.
  intros Hgs. revert index. induction Hgs as [|g gs Hg Hgs IH]; intros index; cbn [app length]; [by rewrite Nat.add_0_r|].
  destruct (group_numbers_nil g Hg) as [Hd Hc]. cbn [next_packet_loop]. rewrite Hd. replace (index + S (length gs))%nat with (S index + length gs)%nat by lia.
  destruct (fg_config g); [apply IH|done|apply IH].
Qed.

(** The next packet is found as soon as it is there. *)
Lemma next_packet_held cod rs now s :
  fec_session_inv max cod s → on_time rs s → held s →
  ∃ j g c, next_packet now (next_kypacket_seq s) (pending_groups s) = NpReady j c ∧ groups (pending_groups s) !! j = Some g ∧
    fg_seq g = session_group plan (next_kypacket_seq s) ∧
    (c = true ∧ (∃ p, fg_config g = CfgReady p ∧ st_seq p = next_kypacket_seq s) ∨
     c = false ∧ fg_config g = CfgSent ∧ ∃ d ds, fg_datagrams g = d :: ds ∧ fd_seq d = next_kypacket_seq s).
Proof.
  intros HP HO (g & Hg & Hh). pose proof (held_group _ _ _ HP Hg Hh) as Hgk. destruct (fi_ok _ _ _ HP) as [Hwf _].
  pose proof Hg as Hg'. apply list_elem_of_lookup in Hg' as [j Hj]. pose proof (take_drop_middle _ _ _ Hj) as Hsplit.
  assert (Hskip : Forall (λ x, group_numbers x = []) (take j (groups (pending_groups s)))).
  { apply Forall_forall. intros x (i & Hi & Hij)%elem_of_take. apply (earlier_group_empty cod s x HP); [by eapply list_elem_of_lookup_2|].
    pose proof (sorted_lookup_lt fg_seq _ _ _ _ _ (ws_sorted _ Hwf) Hij Hi Hj). lia. }
  assert (Hlen : length (take j (groups (pending_groups s))) = j) by (rewrite length_take; apply lookup_lt_Some in Hj; lia).
  assert (Hloop : next_packet now (next_kypacket_seq s) (pending_groups s) =
    next_packet_loop now (next_kypacket_seq s) (groups (pending_groups s)) (g :: drop (S j) (groups (pending_groups s))) j None).
  { unfold next_packet. transitivity (next_packet_loop now (next_kypacket_seq s) (groups (pending_groups s))
      (take j (groups (pending_groups s)) ++ g :: drop (S j) (groups (pending_groups s))) 0 None); [by rewrite Hsplit|]. by rewrite loop_skip, Hlen by done. }
  exists j, g. rewrite Hloop. cbn [next_packet_loop].
  destruct (decide (cfg_is_ready (fg_config g) = true)) as [Hr|Hr].
  - destruct (fg_config g) as [|p|] eqn:Hc; [done| |done]. exists true. cbn [cfg_is_none]. assert (Hfirst : st_seq p = next_kypacket_seq s).
    { destruct Hh as [(q & [= ->] & Hk)|Hd]; [done|]. by rewrite (held_media_sent _ _ _ _ HP HO Hg Hd) in Hc. }
    rewrite Hfirst, Z.eqb_refl. split_and!; [done|done|done|]. left. split; [done|]. by exists p.
  - destruct Hh as [(p & Hp & _)|Hd]; [by rewrite Hp in Hr|]. rewrite (held_media_sent _ _ _ _ HP HO Hg Hd). cbn [cfg_is_none cfg_is_ready]. exists false.
    pose proof (wg_datagrams _ (ws_groups _ Hwf g Hg)) as Hso. pose proof (gc_datagrams _ _ _ (fi_groups _ _ _ HP g Hg)) as Hdue.
    destruct (fg_datagrams g) as [|d ds] eqn:Hds; [by apply not_elem_of_nil in Hd|].
    assert (Hfirst : fd_seq d = next_kypacket_seq s).
    { destruct (Hdue d) as [[Hle _] _]; [left|]. apply sorted_cons in Hso as [_ Hlt]. rewrite Forall_forall in Hlt.
      apply list_elem_of_fmap in Hd as (x & Hx & Hin). apply elem_of_cons in Hin as [->|Hin]; [done|]. specialize (Hlt x Hin). cbn in Hlt. lia. }
    rewrite Hfirst, Z.eqb_refl. split_and!; [done|done|done|]. right. split_and!; [done|done|]. by exists d, ds.
Qed.

Lemma loop_ready_cases now next all gs index cached i c :
  cached = None ∨ cached = Some (min_instant all) → next_packet_loop now next all gs index cached = NpReady i c →
  (∃ g, g ∈ gs ∧ ((∃ p, fg_config g = CfgReady p ∧ st_seq p = next) ∨ next ∈ fd_seq <$> fg_datagrams g)) ∨
  ∃ m, min_instant all = Some m ∧ m + MAX_BUFFERING ≤ now.
Proof.
  revert index cached. induction gs as [|g gs IH]; intros index cached Hca; [done|]. cbn [next_packet_loop].
  assert (Hrec : ∀ cached, cached = None ∨ cached = Some (min_instant all) → next_packet_loop now next all gs (S index) cached = NpReady i c →
    (∃ g', g' ∈ g :: gs ∧ ((∃ p, fg_config g' = CfgReady p ∧ st_seq p = next) ∨ next ∈ fd_seq <$> fg_datagrams g')) ∨
    ∃ m, min_instant all = Some m ∧ m + MAX_BUFFERING ≤ now).
  { intros c0 Hc0 [(g' & Hg' & Hh)|?]%IH; [left; exists g'; split; [by right|done]|by right|done]. }
  destruct (cfg_is_none (fg_config g)); [by apply Hrec|].
  destruct (match fg_config g with CfgReady p => st_seq p =? next | _ => false end) eqn:Hr.
  { intros _. left. exists g. split; [left|]. left. destruct (fg_config g) as [|p|]; [done| |done]. exists p. split; [done|]. by apply Z.eqb_eq. }
  destruct (fg_datagrams g) as [|d ds] eqn:Hds; [by apply Hrec|].
  destruct (Z.eqb_spec (fd_seq d) next) as [Heq|_].
  { intros _. left. exists g. split; [left|]. right. rewrite Hds. cbn. rewrite Heq. left. }
  assert (Hmin : match cached with Some c => c | None => min_instant all end = min_instant all) by (by destruct Hca as [->| ->]).
  rewrite Hmin. destruct (min_instant all) as [m|] eqn:Hm; [|apply Hrec; by right].
  destruct (Z.leb_spec (m + MAX_BUFFERING) now); [|done]. intros _. right. eauto.
Qed.

Lemma video_min_of_group_held g m : min_of_group g = Some m → ∃ d, d ∈ fg_datagrams g ∧ fd_instant d = m.
Proof.
  unfold min_of_group. revert m. induction (fg_datagrams g) as [|d ds IH]; intros m; [done|]. cbn.
  destruct (foldr _ None ds) as [x|] eqn:Hx; cbn; intros [= <-].
  - destruct (Z.min_spec (fd_instant d) x) as [[_ ->]|[_ ->]]; [exists d; split; [left|done]|].
    destruct (IH x eq_refl) as (d' & Hd & Hi). exists d'. split; [by right|done].
  - exists d. split; [left|done].
Qed.

Lemma video_min_instant_held gs m : min_instant gs = Some m → ∃ g d, g ∈ gs ∧ d ∈ fg_datagrams g ∧ fd_instant d = m.
Proof.
  unfold min_instant. revert m. induction gs as [|g gs IH]; intros m; [done|]. cbn.
  destruct (foldr _ None gs) as [x|] eqn:Hx, (min_of_group g) as [y|] eqn:Hy; cbn; intros Hm; try done; injection Hm as <-.
  - destruct (Z.min_spec y x) as [[_ ->]|[_ ->]].
    + destruct (video_min_of_group_held g y Hy) as (d & Hd & Hi). exists g, d. split_and!; [left|done|done].
    + destruct (IH x eq_refl) as (g' & d & Hg & Hd & Hi). exists g', d. split_and!; [by right|done|done].
  - destruct (IH x eq_refl) as (g' & d & Hg & Hd & Hi). exists g', d. split_and!; [by right|done|done].
  - destruct (video_min_of_group_held g y Hy) as (d & Hd & Hi). exists g, d. split_and!; [left|done|done].
Qed.

(** No packet has waited too long behind a missing one when the clock is read. *)
Definition timely (rs : list timed_event) (nows : nat → Instant) : Prop :=
  ∀ r k key, r ∈ rs → symbol_of r.2 = Some (k, key) → frontier max sent_packets (snd <$> rs) < k → ∀ i, nows i < at_assemble r.1.1 + MAX_BUFFERING.

(** Nothing else is taken. *)
Lemma not_held_waits cod rs nows i s :
  fec_session_inv max cod s → on_time rs s → timely rs nows → ¬ held s →
  ∀ j c, next_packet (nows i) (next_kypacket_seq s) (pending_groups s) ≠ NpReady j c.
Proof.
  intros HP HO HT Hh j c Hn. unfold next_packet in Hn. apply loop_ready_cases in Hn as [(g & Hg & Hx)|(m & Hm & Hle)]; [|..|by left].
  - apply Hh. by exists g.
  - destruct (video_min_instant_held _ _ Hm) as (g & d & Hg & Hd & <-). destruct (vt_datagrams _ _ HO g d Hg Hd) as (_ & r & key & Hr & Hri & Hrs).
    destruct (gc_datagrams _ _ _ (fi_groups _ _ _ HP g Hg) d Hd) as [[Hge _] _]. pose proof (not_held_frontier _ _ _ HP HO Hh).
    assert (fd_seq d ≠ next_kypacket_seq s). { intros Heq. apply Hh. exists g. split; [done|]. right. rewrite <- Heq. apply list_elem_of_fmap. by exists d. }
    specialize (HT r _ key Hr Hrs ltac:(lia) i). lia.
Qed.

(** ** Taking packets *)

Lemma video_kept_segment u g sg : wf_group g → sg ∈ fg_segments g → u < fs_seq sg → sg ∈ fg_segments (drop_expired_segments u g).1.
Proof.
  intros Hg Hsg Hu. by apply (kept_after_search fs_seq); [apply Hg|..].
Qed.

(** The effect of taking the next packet *)
Record takes (next : Z) (self self' : PendingGroups) (g g' : PendingGroup) (rest : list PendingGroup) : Prop := {
  tk_retired : retired_through self' = retired_through self;
  tk_groups : groups self' = g' :: rest;
  tk_from : g ∈ groups self;
  tk_seq : fg_seq g' = fg_seq g;
  tk_group : fg_seq g = session_group plan next;
  tk_config : fg_config g' = CfgSent;
  tk_ready p : fg_config g = CfgReady p → st_seq p = next;
  tk_rest x : x ∈ rest → x ∈ groups self ∧ fg_seq g < fg_seq x;
  tk_others x : x ∈ groups self → x = g ∨ x ∈ rest ∨ group_numbers x = [];
  tk_datagrams d : d ∈ fg_datagrams g' → d ∈ fg_datagrams g;
  tk_segments sg : sg ∈ fg_segments g' → sg ∈ fg_segments g;
  tk_datagrams_kept d : d ∈ fg_datagrams g → fd_seq d ≠ next → d ∈ fg_datagrams g';
  tk_segments_kept sg : sg ∈ fg_segments g → next < fs_seq sg → sg ∈ fg_segments g';
}.

Lemma taken_held cod rs now s :
  fec_session_inv max cod s → on_time rs s → held s →
  ∃ p st self' g g' rest, take_next_packet now (next_kypacket_seq s) (pending_groups s) = Ok (APacket (next_kypacket_seq s) (Media p) st, self') ∧
    is_sent (next_kypacket_seq s) p ∧ takes (next_kypacket_seq s) (pending_groups s) self' g g' rest.
Proof.
  intros HP HO Hh. destruct (next_packet_held _ _ now _ HP HO Hh) as (j & g & c & Hn & Hj & Hgk & Hc). destruct (fi_ok _ _ _ HP) as [Hwf _].
  assert (Hg : g ∈ groups (pending_groups s)) by by eapply list_elem_of_lookup_2. pose proof (drop_S _ _ _ Hj) as Hdr. set (rest := drop (S j) _) in Hdr.
  assert (Hrest : ∀ x, x ∈ rest → x ∈ groups (pending_groups s) ∧ fg_seq g < fg_seq x).
  { intros x Hx. pose proof (sorted_drop fg_seq j _ (ws_sorted _ Hwf)) as Hs. rewrite Hdr in Hs. apply sorted_cons in Hs as [_ Hlt]. rewrite Forall_forall in Hlt.
    split; [by eapply elem_of_drop|]. by apply Hlt. }
  assert (Hothers : ∀ x, x ∈ groups (pending_groups s) → x = g ∨ x ∈ rest ∨ group_numbers x = []).
  { intros x Hx. rewrite <- (take_drop j (groups (pending_groups s))), Hdr in Hx. apply elem_of_app in Hx as [(i & Hi & Hij)%elem_of_take|[->|Hx]%elem_of_cons].
    - right. right. apply (earlier_group_empty cod s x HP); [by eapply list_elem_of_lookup_2|]. pose proof (sorted_lookup_lt fg_seq _ _ _ _ _ (ws_sorted _ Hwf) Hij Hi Hj). lia.
    - by left.
    - by right; left. }
  unfold take_next_packet. rewrite Hn, Hdr. cbn [lookup list_lookup expect mbind outcome_bind].
  destruct Hc as [[-> (q & Hq & Hk)]|(-> & Hsent & d & ds & Hds & Hk)].
  - rewrite Hq. cbn [cfg_is_none cfg_is_ready negb rassert cfg_consume mbind outcome_bind].
    destruct (gc_config _ _ _ (fi_groups _ _ _ HP g Hg) q Hq) as [_ (m & Hm & _ & ->)]. rewrite Hk in *. eexists m, _, _, g, _, rest.
    split; [done|]. split; [done|]. split; cbn; try done. intros p Hp. congruence.
  - rewrite Hsent. cbn [cfg_is_none negb rassert mbind outcome_bind]. rewrite Hds.
    destruct (gc_datagrams _ _ _ (fi_groups _ _ _ HP g Hg) d) as [_ (m & Hm & ->)]; [rewrite Hds; left|]. rewrite Hk in *.
    pose proof (ws_groups _ Hwf g Hg) as Hwg.
    assert (Hkeep : ∀ sg, sg ∈ fg_segments g → next_kypacket_seq s < fs_seq sg → sg ∈ fg_segments (drop_expired_segments (next_kypacket_seq s) (with_datagrams ds g)).1).
    { intros sg Hsg Hlt. exact (video_kept_segment _ g sg Hwg Hsg Hlt). }
    destruct (drop_expired_segments (next_kypacket_seq s) (with_datagrams ds g)) as [g1 e] eqn:He. unfold drop_expired_segments in He. injection He as <- _.
    eexists m, _, _, g, _, rest. split; [done|]. split; [apply Hm|]. split; cbn; try done.
    + intros p Hp. congruence.
    + intros x Hx. rewrite Hds. by right.
    + by intros sg Hsg%elem_of_drop.
    + intros x. rewrite Hds. intros [->|Hx]%elem_of_cons Hne; done.
Qed.

Lemma takes_on_time cod rs s s' self' g g' rest p :
  fec_session_inv max cod s → on_time rs s → takes (next_kypacket_seq s) (pending_groups s) self' g g' rest → is_sent (next_kypacket_seq s) p →
  pending_groups s' = self' → next_kypacket_seq s' = next_kypacket_seq s + 1 →
  omap media_of (snd <$> client s') = omap media_of (snd <$> client s) ++ [p] → on_time rs s'.
Proof.
  intros HP HO [T1 T2 T3 T4 T5 T6 T7 T8 T9 T10 T11 T12 T13] [Hp0 Hp] Hpg Hnx Hcl. pose proof HO as [H1 H2 H3 H4 H5 H6 H7 H8 H9 H10 H11].
  assert (Hin : ∀ x, x ∈ groups (pending_groups s') ↔ x = g' ∨ x ∈ rest) by (intros x; by rewrite Hpg, T2, elem_of_cons).
  assert (Hkeep : ∀ x k, x ∈ groups (pending_groups s) → k ∈ group_numbers x → x = g ∨ x ∈ rest).
  { intros x k Hx Hk. destruct (T9 x Hx) as [?|[?|Hn]]; [by left|by right|]. rewrite Hn in Hk. by apply not_elem_of_nil in Hk. }
  split; rewrite ?Hnx.
  - by rewrite Hpg, T1.
  - intros x sg [->|Hx]%Hin Hsg; [apply (H2 g sg T3); by apply T11|]. by apply (H2 x sg); [apply T8|].
  - intros k q Hq Hk Hids. destruct (H3 k q Hq ltac:(lia) Hids) as (x & Hx & Hc).
    assert (Hkx : k ∈ group_numbers x).
    { unfold group_numbers, media_seqs. rewrite !elem_of_app. destruct Hc as [?|(sg & Hsg & <- & _)]; [by left; right|left; left]. apply list_elem_of_fmap. by exists sg. }
    destruct (Hkeep x k Hx Hkx) as [->|Hr]; [|exists x; split; [apply Hin; by right|done]]. exists g'. split; [apply Hin; by left|].
    destruct Hc as [(d & -> & Hd)%list_elem_of_fmap|(sg & Hsg & Hsk & Hrec)].
    + left. apply list_elem_of_fmap. exists d. split; [done|]. apply T12; [done|lia].
    + right. exists sg. split_and!; [|done|done]. apply T13; [done|lia].
  - intros x d [->|Hx]%Hin Hd; [apply (H4 g d T3); by apply T10|]. by apply (H4 x d); [apply T8|].
  - intros k Hk Hle. destruct (H5 k Hk ltac:(lia)) as (x & q & Hx & Hq & Hqk). exists x, q. split_and!; [|done|done]. apply Hin.
    destruct (Hkeep x k Hx) as [->|?]; [| |by right].
    + unfold group_numbers. rewrite Hq. apply elem_of_app. right. rewrite <- Hqk. left.
    + specialize (T7 q Hq). lia.
  - intros x q [->|Hx]%Hin Hq; [congruence|]. by apply (H6 x q); [apply T8|].
  - lia.
  - intros _. exists g'. split_and!; [apply Hin; by left| |done]. by rewrite T4, T5, Z.add_simpl_r.
  - intros x [->|Hx]%Hin Hc; [split; [lia|]; by rewrite T4, T5, Z.add_simpl_r|]. exfalso. destruct (T8 x Hx) as [Hx1 Hx2]. destruct (H9 x Hx1 Hc) as [_ Heq].
    rewrite Heq, T5 in Hx2. pose proof (later_group _ _ Hx2). lia.
  - intros x [->|Hx]%Hin Hc; [done|]. by apply (H10 x); [apply T8|].
  - rewrite Hcl, H11. replace (Z.to_nat (next_kypacket_seq s + 1)) with (S (Z.to_nat (next_kypacket_seq s))) by lia. by rewrite (take_S_r _ _ p).
Qed.

Lemma video_take_step_on_time cod rs nows i s :
  fec_session_inv max cod s → on_time rs s → timely rs nows →
  ∃ s' b, take_step (nows i) s = (s', Ok b) ∧ on_time rs s' ∧
    (b = false → ¬ held s') ∧ (b = true → (deliverable (pending_groups s') < deliverable (pending_groups s))%nat).
Proof.
  intros HP HO HT. destruct (fi_ok _ _ _ HP) as [Hwf _]. unfold take_step.
  destruct (take_next_packet_spec (nows i) (next_kypacket_seq s) (pending_groups s) Hwf) as (a & gs & Ht & Ha). rewrite Ht.
  assert (Hidle : (∀ j c, next_packet (nows i) (next_kypacket_seq s) (pending_groups s) ≠ NpReady j c) → ¬ held s).
  { intros Hn Hh. destruct (next_packet_held _ _ (nows i) _ HP HO Hh) as (j & g & c & Hr & _). by apply (Hn j c). }
  destruct a as [k packet st|t|].
  - assert (Hh : held s).
    { destruct (held_or_not s) as [|Hh]; [done|]. unfold take_next_packet in Ht.
      destruct (next_packet (nows i) (next_kypacket_seq s) (pending_groups s)) as [|j c|] eqn:Hn; [done| |done]. by destruct (not_held_waits _ _ _ i _ HP HO HT Hh j c). }
    destruct (taken_held _ _ (nows i) _ HP HO Hh) as (p & st' & self' & g & g' & rest & Ht' & Hp & Htk). rewrite Ht in Ht'. injection Ht' as -> -> -> ->.
    unfold send_client, set_next, set_groups. run_handler. cbn [client_open]. rewrite (fi_open _ _ _ HP).
    eexists _, true. split; [done|]. split; [|split; [done|intros _; by apply Ha]].
    eapply takes_on_time; [exact HP|exact HO|exact Htk|exact Hp|done|done|]. cbn. by rewrite fmap_app, omap_app.
  - destruct Ha as [-> Hn]. eexists _, false. split; [done|]. split; [by destruct HO; split|]. split; [|done]. intros _. apply Hidle. intros j c. by rewrite Hn.
  - destruct Ha as [-> Hn]. eexists _, false. split; [done|]. split; [by destruct HO; split|]. split; [|done]. intros _. apply Hidle. intros j c. by rewrite Hn.
Qed.

Lemma video_drain_loop_on_time cod rs nows fuel i s :
  fec_session_inv max cod s → on_time rs s → timely rs nows → (deliverable (pending_groups s) < fuel)%nat →
  ∃ s', drain_loop fuel nows i s = (s', Ok tt) ∧ on_time rs s' ∧ ¬ held s'.
Proof.
  intros HP HO HT. revert i s HP HO. induction fuel as [|fuel IH]; intros i s HP HO Hf; [lia|]. cbn [drain_loop]. run_handler.
  destruct (video_take_step_on_time _ _ _ i _ HP HO HT) as (s1 & b & Ht & HO1 & Hb & Hmore). pose proof (take_step_fec max _ _ _ _ _ HP Ht) as HP1.
  rewrite Ht. destruct b; [|exists s1; by split_and!; [|..|apply Hb]]. apply IH; [done|done|]. specialize (Hmore eq_refl). lia.
Qed.

Lemma video_drain_on_time cod rs nows s :
  fec_session_inv max cod s → on_time rs s → timely rs nows → ∃ s', drain nows s = (s', Ok tt) ∧ on_time rs s' ∧ ¬ held s'.
Proof. intros HP HO HT. eapply video_drain_loop_on_time; [done|done|done|lia]. Qed.
End Complete.
