(* ===== verification/VideoFecOnTime.v ===== *)
(** * Video with error correction, on time

    The receive budget of a run that keeps its promises, and the rounds of
    [process]: what [VideoFecComplete] says of the pending groups holds from one
    round to the next. *)

From stdpp Require Import prelude list gmap strings.
From Stdlib Require Import ZArith Lia.
From S2P Require Import Prelude SortedVec Sequencer Io Av Packets Channel Reassembly Fec SystematicCode FecSafety VideoOrder VideoSession FecTransfer FecRecovery Arrivals VideoFecSafety VideoFecProcess Router ReceiveTasks VideoUnreliableFec VideoFecReceive VideoFecSession VideoFecEndToEnd VideoFecComplete.
Open Scope Z_scope.

(** ** Sums over the groups *)

Lemma sum_list_bind {A B} (f : B → Z) (h : A → list B) l : sum_list_with f (l ≫= h) = sum_list_with (λ x, sum_list_with f (h x)) l.
Proof. induction l as [|x l IH]; [done|]. by rewrite bind_cons, sum_list_app, sum_list_cons, IH. Qed.

Lemma length_sum {A} (l : list A) : Z.of_nat (length l) = sum_list_with (λ _, 1) l.
Proof. induction l as [|x l IH]; [done|]. rewrite sum_list_cons. cbn [length]. lia. Qed.

Section OnTime.
Context `{RL : RaptorQLaws} {RR : RaptorQRecovery} {SE : Session} (max : Z) {SO : FecSessionOk max}.
Hypothesis Hblocks : ∀ k p, media_sent k p → source_blocks (object_oti max p) ≤ 3.
Hypothesis Hconfig : ∀ p, is_sent 0 p → is_config (header p) = true.

Abbreviation ids_of rs k := (packet_ids symbol_of (snd <$> rs) k).
Abbreviation configs_in rs := (omap config_number (snd <$> rs)).
Abbreviation on_time := (on_time max).
Abbreviation weight := (demand max sent_packets).

(** ** The budget *)

Lemma video_demand_nonneg k : 0 ≤ weight k.
Proof.
  unfold demand. destruct (sent_packets !! Z.to_nat k) as [p|] eqn:Hp; [|lia]. destruct (is_config (header p)) eqn:Hc; [unfold blen; lia|].
  assert (Hs : is_sent (Z.of_nat (Z.to_nat k)) p) by (split; [lia|by rewrite Nat2Z.id]).
  destruct (fec_objects_wf max _ p Hs Hc) as (_ & _ & Hv). by apply validate_oti_acceptable, reservation_nonneg in Hv.
Qed.

Lemma video_media_demand k p : media_sent k p → weight k = reservation (object_oti max p).
Proof. intros [[_ Hp] Hc]. unfold demand. by rewrite Hp, Hc. Qed.

Lemma config_demand k p : is_sent k p → is_config (header p) = true → weight k = blen (payload p).
Proof. intros [_ Hp] Hc. unfold demand. by rewrite Hp, Hc. Qed.

(** The numbers of what is pending *)
Definition pending_numbers (self : PendingGroups) : list Z := groups self ≫= group_numbers.

Lemma elem_of_pending k self : k ∈ pending_numbers self ↔ ∃ g, g ∈ groups self ∧ k ∈ group_numbers g.
Proof. unfold pending_numbers. rewrite list_elem_of_bind. naive_solver. Qed.

Lemma group_usage cod rs s g :
  fec_session_inv max cod s → on_time rs s → g ∈ groups (pending_groups s) →
  objects g = Z.of_nat (length (group_numbers g)) ∧ charge g = sum_list_with weight (group_numbers g).
Proof.
  intros HP HO Hg. pose proof (fi_groups _ _ _ HP g Hg) as HC. destruct (usage_split g) as [-> ->]. unfold group_numbers, media_seqs, media_objects, media_bytes.
  rewrite !length_app, !length_fmap, !sum_list_app, !sum_list_fmap.
  assert (Hc : config_objects (fg_config g) = Z.of_nat (length (config_numbers (fg_config g))) ∧ config_bytes (fg_config g) = sum_list_with weight (config_numbers (fg_config g))).
  { destruct (fg_config g) as [|q|] eqn:Hq; [done| |done]. destruct (gc_config _ _ _ HC q Hq) as [_ (m & Hm & Hcf & Hpk)]. destruct q as [pk k]. cbn in *. subst pk.
    by rewrite (config_demand k m Hm Hcf), Z.add_0_r. }
  destruct Hc as [-> ->]. split; [lia|]. f_equal. f_equal; apply sum_list_ext.
  - intros sg Hsg. destruct (vt_segments _ _ _ HO g sg Hg Hsg) as [(p & Hp & Hopen) _]. by rewrite (open_object_oti _ _ _ _ Hopen), (video_media_demand _ p Hp).
  - intros d Hd. destruct (gc_datagrams _ _ _ HC d Hd) as [_ (p & Hp & _)]. destruct (vt_datagrams _ _ _ HO g d Hg Hd) as [Ho _].
    by rewrite (Ho p Hp), (video_media_demand _ p Hp).
Qed.

Lemma group_numbers_NoDup cod s g : fec_session_inv max cod s → g ∈ groups (pending_groups s) → NoDup (group_numbers g).
Proof.
  intros HP Hg. destruct (fi_ok _ _ _ HP) as [Hwf _]. unfold group_numbers. apply NoDup_app.
  split_and!; [by apply media_seqs_NoDup, Hwf| |by destruct (fg_config g); repeat constructor; apply not_elem_of_nil].
  intros k Hk Hc. destruct (pending_due max _ _ _ k HP Hg) as [_ (p & Hp & Hm & _)]; [unfold group_numbers; apply elem_of_app; by left|].
  specialize (Hm Hk). destruct (fg_config g) as [|q|] eqn:Hq; [by apply not_elem_of_nil in Hc| |by apply not_elem_of_nil in Hc].
  apply list_elem_of_singleton in Hc as ->. destruct (gc_config _ _ _ (fi_groups _ _ _ HP g Hg) q Hq) as [_ (m & Hq' & Hcf & _)].
  rewrite (is_sent_unique _ _ _ Hp Hq') in Hm. congruence.
Qed.

Lemma video_pending_usage cod rs s :
  fec_session_inv max cod s → on_time rs s →
  NoDup (pending_numbers (pending_groups s)) ∧ total_objects (pending_groups s) = Z.of_nat (length (pending_numbers (pending_groups s))) ∧
  total_bytes (pending_groups s) = sum_list_with weight (pending_numbers (pending_groups s)).
Proof.
  intros HP HO. destruct (fi_ok _ _ _ HP) as [Hwf _]. unfold pending_numbers. split_and!.
  - apply NoDup_bind; [|by intros g Hg; eapply group_numbers_NoDup|eapply NoDup_fmap_1, sorted_NoDup, Hwf].
    intros g1 g2 k Hg1 Hg2 Hk1 Hk2. destruct (pending_due max _ _ _ k HP Hg1 Hk1) as [[_ E1] _]. destruct (pending_due max _ _ _ k HP Hg2 Hk2) as [[_ E2] _].
    eapply (sorted_key_inj fg_seq); [apply Hwf|done|done|congruence].
  - rewrite length_sum, sum_list_bind. apply sum_list_ext. intros g Hg. destruct (group_usage _ _ _ _ HP HO Hg) as [-> _]. apply length_sum.
  - rewrite sum_list_bind. apply sum_list_ext. intros g Hg. by destruct (group_usage _ _ _ _ HP HO Hg) as [_ ->].
Qed.

Lemma begun_mono evs ev k : begun sent_packets evs k = true → begun sent_packets (evs ++ [ev]) k = true.
Proof.
  unfold begun. destruct (sent_packets !! _) as [p|]; [|done]. destruct (is_config _); rewrite !bool_decide_eq_true.
  - rewrite omap_app, elem_of_app. by left.
  - rewrite packet_ids_snoc. set_solver.
Qed.

Lemma video_pending_in_flight cod rs r s k :
  fec_session_inv max cod s → on_time rs s → ¬ held s → k ∈ pending_numbers (pending_groups s) →
  k ∈ in_flight sent_packets (frontier max sent_packets (snd <$> rs)) (snd <$> rs ++ [r]).
Proof.
  intros HP HO HD (g & Hg & Hk)%elem_of_pending. pose proof (not_held_frontier max _ _ _ HP HO HD) as Hf.
  destruct (pending_due max _ _ _ k HP Hg Hk) as [[Hle _] (p & Hp & Hm & Hwhere)]. apply list_elem_of_filter. split; [split; [lia|]|].
  - rewrite fmap_app. apply begun_mono. unfold begun. rewrite (proj2 Hp). destruct Hwhere as [Hq|Hmed].
    + destruct (gc_config _ _ _ (fi_groups _ _ _ HP g Hg) _ Hq) as [_ (m & Hm' & Hcf & _)]. cbn in Hm'. rewrite (is_sent_unique _ _ _ Hp Hm'), Hcf.
      apply bool_decide_eq_true. exact (vt_ready _ _ _ HO g _ Hg Hq).
    + rewrite (Hm Hmed). apply bool_decide_eq_true. apply elem_of_media_seqs in Hmed as [(sg & Hsg & <-)|(d & Hd & <-)].
      * by destruct (vt_segments _ _ _ HO g sg Hg Hsg).
      * destruct (vt_datagrams _ _ _ HO g d Hg Hd) as (_ & r' & key & Hr & _ & Hs). assert (key ∈ ids_of rs (fd_seq d)); [|set_solver].
        apply elem_of_packet_ids. exists r'.2. split; [|done]. apply list_elem_of_fmap. by exists r'.
  - apply elem_of_numbers. destruct Hp as [? Hp]. apply lookup_lt_Some in Hp. lia.
Qed.

(** The groups with something pending, and that of the last packet taken *)
Lemma groups_count cod rs s :
  fec_session_inv max cod s → on_time rs s →
  (length (groups (pending_groups s)) ≤ S (base.size (list_to_set (group_of sent_packets <$> pending_numbers (pending_groups s)) : gset Z)))%nat.
Proof.
  intros HP HO. destruct (fi_ok _ _ _ HP) as [Hwf _]. set (S0 := list_to_set _ : gset Z).
  rewrite <- (length_fmap fg_seq), <- (size_list_to_set (C := gset Z)) by apply sorted_NoDup, Hwf.
  transitivity (base.size ({[session_group plan (next_kypacket_seq s - 1)]} ∪ S0)).
  - apply subseteq_size. intros x. rewrite elem_of_list_to_set, elem_of_union, elem_of_singleton. intros (g & -> & Hg)%list_elem_of_fmap.
    assert (Hcase : fg_config g = CfgSent ∨ fg_config g ≠ CfgSent) by (destruct (fg_config g); auto). destruct Hcase as [Hc|Hc]; [left; by apply (vt_others _ _ _ HO)|right].
    pose proof (vt_filled _ _ _ HO g Hg Hc) as Hne. destruct (group_numbers g) as [|k ks] eqn:Hk; [done|]. unfold S0. rewrite elem_of_list_to_set.
    apply list_elem_of_fmap. exists k. assert (Hin : k ∈ group_numbers g) by (rewrite Hk; left). destruct (pending_due max _ _ _ k HP Hg Hin) as [[_ Hgk] _].
    split; [done|]. apply elem_of_pending. by exists g.
  - rewrite size_union_alt, size_singleton. assert (base.size (S0 ∖ {[session_group plan (next_kypacket_seq s - 1)]}) ≤ base.size S0)%nat by (apply subseteq_size; set_solver). lia.
Qed.

(** A packet that begins to arrive finds room. *)
Lemma video_room cod rs r s k :
  fec_session_inv max cod s → on_time rs s → ¬ held s →
  fits max sent_packets (in_flight sent_packets (frontier max sent_packets (snd <$> rs)) (snd <$> rs ++ [r])) →
  k ∉ pending_numbers (pending_groups s) → next_kypacket_seq s ≤ k → k < Z.of_nat (length sent_packets) →
  begun sent_packets (snd <$> rs ++ [r]) k = true →
  check_capacity (weight k) (pending_groups s) = Ok tt ∧
  (session_group plan k ∉ fg_seq <$> groups (pending_groups s) → Z.of_nat (length (groups (pending_groups s))) < MAX_PENDING_GROUPS).
Proof.
  intros HP HO HD Hfits Hk Hle Hlt Hb. destruct (video_pending_usage _ _ _ HP HO) as (Hnd & Ho & Hby). pose proof (not_held_frontier max _ _ _ HP HO HD) as Hf.
  pose proof (vt_next _ _ _ HO) as H0. pose proof (groups_count _ _ _ HP HO) as Hcount. set (ks := pending_numbers (pending_groups s)) in *.
  destruct (fits_less max sent_packets _ (k :: ks) video_demand_nonneg Hfits) as (F1 & F2 & F3).
  { by constructor. }
  { intros x [->|Hx]%elem_of_cons; [|by eapply video_pending_in_flight]. apply list_elem_of_filter. split; [split; [lia|done]|]. apply elem_of_numbers. lia. }
  split.
  - rewrite sum_list_cons in F2. cbn [length] in F1. pose proof (video_demand_nonneg k).
    assert (0 ≤ sum_list_with weight ks) by (apply sum_list_nonneg; intros; apply video_demand_nonneg).
    rewrite check_capacity_eq, Ho, Hby. unfold check_pending, bail_if. destruct (_ || _) eqn:Hbad; [exfalso|done]. lia.
  - intros Hnew. rewrite fmap_cons, list_to_set_cons, size_union, size_singleton in F3; [lia|]. apply disjoint_singleton_l. rewrite elem_of_list_to_set.
    intros (j & Hj & (g & Hg & Hin)%elem_of_pending)%list_elem_of_fmap. destruct (pending_due max _ _ _ j HP Hg Hin) as [[_ Hgj] _].
    apply Hnew, list_elem_of_fmap. exists g. split; [|done]. change (group_of sent_packets k) with (session_group plan k) in Hj.
    change (group_of sent_packets j) with (session_group plan j) in Hj. congruence.
Qed.

(** ** Preparing a group *)

Lemma prepared_group gseq self :
  wf_groups self → (gseq ∉ fg_seq <$> groups self → Z.of_nat (length (groups self)) < MAX_PENDING_GROUPS) →
  ∃ self2 i g, prepare_pending_group gseq self = Ok (self2, i) ∧ groups self2 !! i = Some g ∧ fg_seq g = gseq ∧
    retired_through self2 = retired_through self ∧ (g ∈ groups self ∨ g = PendingGroup_new gseq ∧ gseq ∉ fg_seq <$> groups self) ∧
    ∀ g' x, x ∈ <[i := g']> (groups self2) ↔ x = g' ∨ x ∈ groups self ∧ fg_seq x ≠ gseq.
Proof.
  intros Hwf Hroom. pose proof (ws_sorted _ Hwf) as Hso. unfold prepare_pending_group.
  destruct (binary_search_cases fg_seq gseq (groups self) Hso) as [(i & g & -> & Hi & Hk)|[-> Hn]].
  - exists self, i, g. split_and!; [done|done|done|done|left; by eapply list_elem_of_lookup_2|]. intros g' x. rewrite (insert_delete_perm i g g' _ Hi), elem_of_cons.
    assert (x ∈ delete i (groups self) ↔ x ∈ groups self ∧ fg_seq x ≠ gseq); [|tauto]. split.
    + intros Hx. destruct (elem_of_delete_neq fg_seq _ _ _ _ Hso Hi Hx) as [? Hne]. by rewrite Hk in Hne.
    + intros [Hx Hne]. rewrite (delete_Permutation _ _ _ Hi) in Hx. apply elem_of_cons in Hx as [->|]; done.
  - rewrite Forall_forall in Hn. assert (Hnew : gseq ∉ fg_seq <$> groups self) by (intros (x & -> & Hx)%list_elem_of_fmap; by apply (Hn x)).
    specialize (Hroom Hnew). unfold bail_if. destruct (Z.leb_spec MAX_PENDING_GROUPS (Z.of_nat (length (groups self)))) as [|_]; [lia|]. cbn [mbind outcome_bind].
    set (i := lower_bound fg_seq gseq (groups self)).
    assert (Hi : vec_insert i (PendingGroup_new gseq) (groups self) !! i = Some (PendingGroup_new gseq)) by apply vec_insert_lookup, lower_bound_le.
    eexists _, i, _. split; [done|]. cbn [groups with_groups retired_through]. split_and!; [exact Hi|done|done|by right|].
    intros g' x. rewrite (insert_delete_perm i _ g' _ Hi), elem_of_cons.
    assert (Hp : delete i (vec_insert i (PendingGroup_new gseq) (groups self)) ≡ₚ groups self).
    { apply (Permutation_cons_inv (a := PendingGroup_new gseq)). by rewrite <- (delete_Permutation _ _ _ Hi), vec_insert_perm. }
    rewrite Hp. split; [intros [?|Hx]; [by left|right; by split; [|apply Hn]]|]. intros [?|[? _]]; [by left|by right].
Qed.

Lemma admitted now additional self : check_capacity additional self = Ok tt → admit_ now additional self = Ok self.
Proof. intros Hc. unfold admit_. by destruct (media_count (groups self)); cbn [admit_loop]; rewrite Hc. Qed.

(** ** Insertions *)

(** The groups of [s'] are those of [s], with [g'] for the group number [gseq], which was [g]. *)
Record regroups (gseq : Z) (g g' : PendingGroup) (s s' : Process) : Prop := {
  rg_old : g ∈ groups (pending_groups s) ∨ g = PendingGroup_new gseq ∧ gseq ∉ fg_seq <$> groups (pending_groups s);
  rg_seq : fg_seq g = gseq;
  rg_seq' : fg_seq g' = gseq;
  rg_groups x : x ∈ groups (pending_groups s') ↔ x = g' ∨ x ∈ groups (pending_groups s) ∧ fg_seq x ≠ gseq;
  rg_retired : retired_through (pending_groups s') = retired_through (pending_groups s);
  rg_next : next_kypacket_seq s' = next_kypacket_seq s;
  rg_client : client s' = client s;
}.

Lemma regroups_cases gseq g g' s s' x :
  wf_groups (pending_groups s) → regroups gseq g g' s s' → x ∈ groups (pending_groups s) → x = g ∨ x ∈ groups (pending_groups s') ∧ fg_seq x ≠ gseq.
Proof.
  intros Hwf [Hold Hk _ Hgs _ _ _] Hx. destruct (decide (fg_seq x = gseq)) as [He|He]; [left|right; split; [apply Hgs; by right|done]].
  destruct Hold as [Hg|[_ Hn]]; [by eapply (sorted_key_inj fg_seq); [apply Hwf|..|congruence]|]. destruct Hn. apply list_elem_of_fmap. by exists x.
Qed.

Lemma number_group cod s g k : fec_session_inv max cod s → g ∈ groups (pending_groups s) → k ∈ media_seqs g → fg_seq g = session_group plan k.
Proof. intros HP Hg Hk. destruct (pending_due max _ _ _ k HP Hg) as [[_ <-] _]; [|done]. unfold group_numbers. apply elem_of_app. by left. Qed.

Lemma tracked_media k g (P : DatagramSegments → Prop) :
  (k ∈ fd_seq <$> fg_datagrams g ∨ ∃ sg, sg ∈ fg_segments g ∧ fs_seq sg = k ∧ P sg) → k ∈ media_seqs g.
Proof. unfold media_seqs. rewrite elem_of_app. intros [?|(sg & Hsg & <- & _)]; [by right|left]. apply list_elem_of_fmap. by exists sg. Qed.

Lemma video_on_time_datagram cod rs now nows m p s s' g g' :
  fec_session_inv max cod s → on_time rs s → media_sent (dm_raw_kypacket_seq m) p → next_kypacket_seq s ≤ dm_raw_kypacket_seq m →
  group_inserted max (at_assemble now) (dm_raw_kypacket_seq m) p (source_block_number (dm_payload_id m), encoding_symbol_id (dm_payload_id m)) g g' →
  regroups (session_group plan (dm_raw_kypacket_seq m)) g g' s s' →
  on_time (rs ++ [(now, nows, EvMsg (RDatagram m))]) s'.
Proof.
  intros HP HO Hp Hnext [I1 I2 I3 I4 I5 I6 I7] HR. destruct (fi_ok _ _ _ HP) as [Hwf _]. pose proof HR as [R1 R2 R3 R4 R5 R6 R7].
  pose proof HO as [H1 H2 H3 H4 H5 H6 H7 H8 H9 H10 H11]. set (r := (now, nows, EvMsg (RDatagram m))). set (k := dm_raw_kypacket_seq m) in *.
  set (key := (source_block_number (dm_payload_id m), encoding_symbol_id (dm_payload_id m))) in *.
  assert (Hother : ∀ j, j ≠ k → ids_of (rs ++ [r]) j = ids_of rs j).
  { intros j Hj. rewrite fmap_app. apply (packet_ids_kept symbol_of). cbn. fold k. done. }
  assert (Hself : ∀ x, x ∈ ids_of (rs ++ [r]) k ↔ x ∈ ids_of rs k ∨ x = key).
  { intros x. rewrite fmap_app. by apply (packet_ids_self symbol_of). }
  assert (Hcfg : configs_in (rs ++ [r]) = configs_in rs) by (rewrite fmap_app, omap_app; cbn; by rewrite app_nil_r).
  assert (Hmono : ∀ j, ids_of rs j ≠ ∅ → ids_of (rs ++ [r]) j ≠ ∅) by (intros j Hj; rewrite fmap_app; cbn [fmap list_fmap]; rewrite packet_ids_snoc; set_solver).
  assert (Hfrom : ∀ x, x ∈ groups (pending_groups s') → x = g' ∨ x ∈ groups (pending_groups s)) by (intros x [?|[? _]]%R4; auto).
  assert (Hg' : g' ∈ groups (pending_groups s')) by (apply R4; by left).
  assert (Hempty : g ∈ groups (pending_groups s) ∨ fg_datagrams g = [] ∧ fg_segments g = [] ∧ fg_config g = CfgNone) by (destruct R1 as [?|[-> _]]; [by left|by right]).
  split; rewrite ?R5, ?R6, ?R7, ?Hcfg; try done.
  - intros x sg [->|Hx]%Hfrom Hsg.
    + destruct (I6 sg Hsg) as [[Hs Hne]|[-> Hopen]].
      * destruct Hempty as [Hg|(_ & Hn & _)]; [|rewrite Hn in Hs; by apply not_elem_of_nil in Hs]. destruct (H2 g sg Hg Hs). auto.
      * split; [done|]. intros He. apply (not_elem_of_empty (C := gset (Z * Z)) key). rewrite <- He. apply Hself. by right.
    + destruct (H2 x sg Hx Hsg). auto.
  - intros j q Hq Hj Hne. destruct (decide (j = k)) as [->|Hjk].
    + exists g'. split; [done|]. destruct I7 as [?|(sg & Hsg & Hsk & Hkey & Hold)]; [by left|]. destruct (decide (ids_of rs k = ∅)) as [Hn0|Hn0].
      { right. exists sg. split_and!; [done|done|]. intros x [Hx| ->]%Hself; [rewrite Hn0 in Hx; set_solver|done]. }
      destruct (H3 k q Hq Hj Hn0) as (x & Hx & Htr). pose proof (number_group _ _ _ _ HP Hx (tracked_media _ _ _ Htr)) as Hxk.
      destruct (regroups_cases _ _ _ _ _ _ Hwf HR Hx) as [->|[_ ?]]; [|done].
      destruct Htr as [(d & Hdk & Hd)%list_elem_of_fmap|(sg0 & Hsg0 & Hk0 & Hrec)]; [left; apply list_elem_of_fmap; exists d; by auto|].
      right. exists sg. split_and!; [done|done|]. intros y [Hy| ->]%Hself; [|done]. apply (Hold sg0 Hsg0 Hk0). by apply Hrec.
    + rewrite Hother in Hne |- * by done. destruct (H3 j q Hq Hj Hne) as (x & Hx & Htr).
      destruct (regroups_cases _ _ _ _ _ _ Hwf HR Hx) as [->|[Hx' _]]; [|by exists x]. exists g'. split; [done|].
      destruct Htr as [(d & Hdk & Hd)%list_elem_of_fmap|(sg & Hsg & Hsk & Hrec)]; [left; apply list_elem_of_fmap; exists d; by auto|].
      right. exists sg. split_and!; [|done|done]. apply I5; [done|congruence].
  - assert (Hold : ∀ x d, x ∈ groups (pending_groups s) → d ∈ fg_datagrams x →
      (∀ q, media_sent (fd_seq d) q → fd_oti d = object_oti max q) ∧ ∃ r' key', r' ∈ rs ++ [r] ∧ at_assemble r'.1.1 = fd_instant d ∧ symbol_of r'.2 = Some (fd_seq d, key')).
    { intros x d Hx Hd. destruct (H4 x d Hx Hd) as (Ho & r' & key' & Hr & Hrest). split; [done|]. exists r', key'. split; [|done]. apply elem_of_app. by left. }
    intros x d [->|Hx]%Hfrom Hd; [|by eapply Hold]. destruct (I4 d Hd) as [Hd0|(Hdk & Hdo & Hdi)].
    + destruct Hempty as [Hg|(Hn & _)]; [by eapply Hold|]. rewrite Hn in Hd0. by apply not_elem_of_nil in Hd0.
    + split; [|exists r, key; split; [apply elem_of_app; right; left|by rewrite Hdk, Hdi]]. rewrite Hdk. intros q Hq. by rewrite (video_media_unique _ _ _ Hq Hp).
  - intros j Hj Hle. destruct (H5 j Hj Hle) as (x & q & Hx & Hq & Hqk). destruct (regroups_cases _ _ _ _ _ _ Hwf HR Hx) as [->|[Hx' _]]; [exists g', q|by exists x, q].
    by rewrite I2.
  - intros x q [->|Hx]%Hfrom Hq; [|by eapply H6]. rewrite I2 in Hq. destruct Hempty as [Hg|(_ & _ & Hn)]; [by eapply H6|congruence].
  - intros Hpos. destruct (H8 Hpos) as (x & Hx & Hxk & Hxc). destruct (regroups_cases _ _ _ _ _ _ Hwf HR Hx) as [->|[Hx' _]]; [exists g'|by exists x]. by rewrite I1, I2.
  - intros x [->|Hx]%Hfrom Hc; [|by apply H9]. rewrite I2 in Hc. rewrite I1. destruct Hempty as [Hg|(_ & _ & Hn)]; [by apply H9|congruence].
  - intros x [->|Hx]%Hfrom Hc; [|by apply H10]. intros Hn. assert (Hk : k ∈ group_numbers g'); [|rewrite Hn in Hk; by apply not_elem_of_nil in Hk].
    unfold group_numbers. apply elem_of_app. left. apply (tracked_media _ _ (λ _, True)). destruct I7 as [?|(sg & Hsg & Hsk & _)]; [by left|right; by exists sg].
Qed.

(** A symbol of a packet that can still be delivered *)
Lemma video_symbol_on_time cod rs now nows m p s :
  fec_session_inv max cod s → on_time rs s → ¬ held s → media_sent (dm_raw_kypacket_seq m) p →
  (dm_payload_id m, dm_data m) ∈ object_packets max p → next_kypacket_seq s ≤ dm_raw_kypacket_seq m →
  fits max sent_packets (in_flight sent_packets (frontier max sent_packets (snd <$> rs)) (snd <$> rs ++ [(now, nows, EvMsg (RDatagram m))])) →
  ∃ s', update_groups (insert_datagram now (session_group plan (dm_raw_kypacket_seq m)) (dm_raw_kypacket_seq m) (object_oti max p) (dm_payload_id m) (dm_data m)) s = (s', Ok tt) ∧
    on_time (rs ++ [(now, nows, EvMsg (RDatagram m))]) s'.
Proof.
  intros HP HO HD Hp Hin Hle Hfits. set (k := dm_raw_kypacket_seq m) in *. set (r := (now, nows, EvMsg (RDatagram m))) in *. destruct (fi_ok _ _ _ HP) as [Hwf _].
  destruct (video_object_ok max k p Hp) as [_ Hv]. unfold update_groups, insert_datagram. rewrite Hv. cbn [mbind outcome_bind].
  assert (Hnr : is_retired k (pending_groups s) = false) by (unfold is_retired; by rewrite (vt_retired _ _ _ HO)). rewrite Hnr.
  assert (Hmoved : existsb (λ g, negb (fg_seq g =? session_group plan k) && contains k g) (groups (pending_groups s)) = false).
  { apply not_true_is_false. rewrite (existsb_contains (λ g, negb (fg_seq g =? session_group plan k))) by done. intros (g & Hg & Hne & Hk).
    rewrite (number_group _ _ _ _ HP Hg Hk), Z.eqb_refl in Hne. done. }
  rewrite Hmoved. cbn [bail_if mbind outcome_bind]. set (pend := existsb _ _).
  assert (Hroom : pend = false → check_capacity (reservation (object_oti max p)) (pending_groups s) = Ok tt ∧
    (session_group plan k ∉ fg_seq <$> groups (pending_groups s) → Z.of_nat (length (groups (pending_groups s))) < MAX_PENDING_GROUPS)).
  { intros Hf. rewrite <- (video_media_demand k p Hp). destruct Hp as [[Hp0 Hlk] Hc]. pose proof (lookup_lt_Some _ _ _ Hlk).
    apply (video_room cod rs r s k HP HO HD Hfits); [|lia|lia|].
    - intros (g & Hg & Hk)%elem_of_pending. destruct (pending_due max _ _ _ k HP Hg Hk) as [_ (q & Hq & _ & [Hcf|Hmed])].
      + destruct (gc_config _ _ _ (fi_groups _ _ _ HP g Hg) _ Hcf) as [_ (q' & Hq' & Hc' & _)]. cbn in Hq'. assert (q' = p) as -> by (by eapply is_sent_unique). congruence.
      + assert (pend = true); [|congruence]. apply (existsb_contains (λ g, fg_seq g =? session_group plan k)); [done|]. exists g.
        split_and!; [done|by rewrite (number_group _ _ _ _ HP Hg Hmed), Z.eqb_refl|done].
    - unfold begun. rewrite Hlk, Hc, fmap_app. cbn [fmap list_fmap]. apply bool_decide_eq_true. intros He.
      assert (Hx : (source_block_number (dm_payload_id m), encoding_symbol_id (dm_payload_id m)) ∈ packet_ids symbol_of ((snd <$> rs) ++ [r.2]) k) by (eapply packet_ids_self; [done|by right]).
      rewrite He in Hx. set_solver. }
  assert (Hadm : (if pend then Ok (pending_groups s) else admit_ (at_admit now) (reservation (object_oti max p)) (pending_groups s)) = Ok (pending_groups s)).
  { destruct pend; [done|]. apply admitted. by destruct (Hroom eq_refl). }
  rewrite Hadm. cbn [mbind outcome_bind]. rewrite Hnr, andb_false_r.
  destruct (prepared_group (session_group plan k) (pending_groups s) Hwf) as (self2 & i & g & Hprep & Hi & Hgk & Hret & Hold & Hgs).
  { intros Hnew. destruct pend eqn:Hpd; [exfalso|by destruct (Hroom eq_refl); auto].
    apply (existsb_contains (λ g, fg_seq g =? session_group plan k)) in Hpd as (g & Hg & He & _); [|done]. apply Z.eqb_eq in He. apply Hnew, list_elem_of_fmap. by exists g. }
  rewrite Hprep. cbn [mbind outcome_bind]. rewrite Hi. cbn [expect mbind outcome_bind].
  destruct (group_insert_total max Hblocks Hconfig now k p (dm_payload_id m) (dm_data m) g) as (g' & Hins & Hgi); [| | |done|done|].
  - destruct Hold as [?|[-> _]]; [by apply Hwf|apply wf_group_new].
  - intros sg Hsg. destruct Hold as [Hg|[-> _]]; [by destruct (vt_segments _ _ _ HO g sg Hg Hsg)|by apply not_elem_of_nil in Hsg].
  - intros d Hd Hdk. destruct Hold as [Hg|[-> _]]; [|by apply not_elem_of_nil in Hd]. destruct (vt_datagrams _ _ _ HO g d Hg Hd) as [Ho _]. apply Ho. by rewrite Hdk.
  - rewrite Hins. cbn [mbind outcome_bind]. eexists. split; [done|].
    apply (video_on_time_datagram cod rs now nows m p s _ g g' HP HO Hp Hle Hgi). destruct Hgi as [Hsq _ _ _ _ _ _]. split; [done|done|by rewrite Hsq|apply Hgs|exact Hret|done|done].
Qed.

Lemma video_on_time_snoc cod rs r s :
  fec_session_inv max cod s → on_time rs s → (∀ k, next_kypacket_seq s ≤ k → packet_ids symbol_of [r.2] k = ∅) →
  (∀ k, config_number r.2 = Some k → k < next_kypacket_seq s) → on_time (rs ++ [r]) s.
Proof.
  intros HP [H1 H2 H3 H4 H5 H6 H7 H8 H9 H10 H11] Hids Hc.
  assert (Heq : ∀ k, next_kypacket_seq s ≤ k → ids_of (rs ++ [r]) k = ids_of rs k).
  { intros k Hk. rewrite fmap_app. cbn [fmap list_fmap]. rewrite packet_ids_snoc, (Hids k Hk). set_solver. }
  assert (Hcf : ∀ k, k ∈ configs_in (rs ++ [r]) ↔ k ∈ configs_in rs ∨ config_number r.2 = Some k).
  { intros k. rewrite fmap_app, omap_app, elem_of_app. cbn. destruct (config_number r.2); set_solver. }
  split; try done.
  - intros g sg Hg Hsg. rewrite Heq; [by apply (H2 g)|]. by destruct (gc_segments _ _ _ (fi_groups _ _ _ HP g Hg) sg Hsg) as [[] _].
  - intros k p Hp Hk. rewrite Heq by done. by apply (H3 k p).
  - intros g d Hg Hd. destruct (H4 g d Hg Hd) as (Ho & r' & key & Hr & Hrest). split; [done|]. exists r', key. split; [|done]. apply elem_of_app. by left.
  - intros k [Hk|Hk]%Hcf Hle; [by apply H5|]. specialize (Hc k Hk). lia.
  - intros g p Hg Hp. apply Hcf. left. by eapply H6.
Qed.

(** A config that has not come before finds no other in its group. *)
Lemma config_slot cod rs s g k p :
  fec_session_inv max cod s → on_time rs s → g ∈ groups (pending_groups s) → fg_seq g = session_group plan k →
  is_sent k p → is_config (header p) = true → next_kypacket_seq s ≤ k → k ∉ configs_in rs → fg_config g = CfgNone.
Proof.
  intros HP HO Hg Hgk Hp Hc Hle Hnew. assert (Hcf : session_cfg plan k) by (by apply (is_sent_cfg _ _ Hp)).
  destruct (fg_config g) as [|q|] eqn:Hq; [done|exfalso..].
  - destruct (gc_config _ _ _ (fi_groups _ _ _ HP g Hg) q Hq) as [[_ Hqk] (m & Hm & Hcm & _)]. assert (Hcq : session_cfg plan (st_seq q)) by (by apply (is_sent_cfg _ _ Hm)).
    pose proof (plan_first (group:=session_group plan) (is_cfg:=session_cfg plan) k (st_seq q) Hcf (eq_trans Hqk Hgk)).
    pose proof (plan_first (group:=session_group plan) (is_cfg:=session_cfg plan) (st_seq q) k Hcq (eq_sym (eq_trans Hqk Hgk))).
    apply Hnew. replace k with (st_seq q) by lia. exact (vt_ready _ _ _ HO g q Hg Hq).
  - destruct (vt_others _ _ _ HO g Hg Hq) as [_ Hs].
    pose proof (plan_first (group:=session_group plan) (is_cfg:=session_cfg plan) k (next_kypacket_seq s - 1) Hcf (eq_trans (eq_sym Hs) Hgk)). lia.
Qed.

Lemma video_on_time_config cod rs r s s' g k p :
  fec_session_inv max cod s → on_time rs s → regroups (session_group plan k) g (with_config (CfgReady {| st_packet := p; st_seq := k |}) g) s s' →
  fg_config g = CfgNone → symbol_of r.2 = None → config_number r.2 = Some k → on_time (rs ++ [r]) s'.
Proof.
  intros HP HO HR Hnone Hsym Hcn. destruct (fi_ok _ _ _ HP) as [Hwf _]. pose proof HR as [R1 R2 R3 R4 R5 R6 R7].
  pose proof HO as [H1 H2 H3 H4 H5 H6 H7 H8 H9 H10 H11]. set (g' := with_config _ g) in *.
  assert (Heq : ∀ j, ids_of (rs ++ [r]) j = ids_of rs j) by (intros j; rewrite fmap_app; apply (packet_ids_kept symbol_of); by rewrite Hsym).
  assert (Hcf : ∀ j, j ∈ configs_in (rs ++ [r]) ↔ j ∈ configs_in rs ∨ j = k).
  { intros j. rewrite fmap_app, omap_app, elem_of_app. cbn. rewrite Hcn. set_solver. }
  assert (Hfrom : ∀ x, x ∈ groups (pending_groups s') → x = g' ∨ x ∈ groups (pending_groups s)) by (intros x [?|[? _]]%R4; auto).
  assert (Hg' : g' ∈ groups (pending_groups s')) by (apply R4; by left).
  assert (Hempty : g ∈ groups (pending_groups s) ∨ fg_datagrams g = [] ∧ fg_segments g = []) by (destruct R1 as [?|[-> _]]; [by left|by right]).
  split; rewrite ?R5, ?R6, ?R7; try done.
  - intros x sg [->|Hx]%Hfrom Hsg; rewrite Heq; [|by apply (H2 x)]. destruct Hempty as [Hg|[_ Hn]]; [by apply (H2 g)|].
    cbn in Hsg. rewrite Hn in Hsg. by apply not_elem_of_nil in Hsg.
  - intros j q Hq Hj. rewrite Heq. intros Hne. destruct (H3 j q Hq Hj Hne) as (x & Hx & Htr).
    destruct (regroups_cases _ _ _ _ _ _ Hwf HR Hx) as [->|[Hx' _]]; [by exists g'|by exists x].
  - assert (Hold : ∀ x d, x ∈ groups (pending_groups s) → d ∈ fg_datagrams x →
      (∀ q, media_sent (fd_seq d) q → fd_oti d = object_oti max q) ∧ ∃ r' key', r' ∈ rs ++ [r] ∧ at_assemble r'.1.1 = fd_instant d ∧ symbol_of r'.2 = Some (fd_seq d, key')).
    { intros x d Hx Hd. destruct (H4 x d Hx Hd) as (Ho & r' & key' & Hr & Hrest). split; [done|]. exists r', key'. split; [|done]. apply elem_of_app. by left. }
    intros x d [->|Hx]%Hfrom Hd; [|by eapply Hold]. destruct Hempty as [Hg|[Hn _]]; [by apply (Hold g)|]. cbn in Hd. rewrite Hn in Hd. by apply not_elem_of_nil in Hd.
  - intros j [Hj| ->]%Hcf Hle; [|by eexists g', _]. destruct (H5 j Hj Hle) as (x & q & Hx & Hq & Hqk).
    destruct (regroups_cases _ _ _ _ _ _ Hwf HR Hx) as [->|[Hx' _]]; [congruence|by exists x, q].
  - intros x q [->|Hx]%Hfrom Hq; apply Hcf; [right; unfold g' in Hq; cbn in Hq; by injection Hq as <-|left; by eapply H6].
  - intros Hpos. destruct (H8 Hpos) as (x & Hx & Hxk & Hxc). destruct (regroups_cases _ _ _ _ _ _ Hwf HR Hx) as [->|[Hx' _]]; [congruence|by exists x].
  - intros x [->|Hx]%Hfrom Hc; [done|by apply H9].
  - intros x [->|Hx]%Hfrom Hc; [|by apply H10]. by intros [_ ?]%app_nil.
Qed.

(** A config that can still be delivered *)
Lemma video_config_on_time cod rs r s now k p :
  fec_session_inv max cod s → on_time rs s → ¬ held s → is_sent k p → is_config (header p) = true → next_kypacket_seq s ≤ k → k ∉ configs_in rs →
  fits max sent_packets (in_flight sent_packets (frontier max sent_packets (snd <$> rs)) (snd <$> rs ++ [r])) →
  symbol_of r.2 = None → config_number r.2 = Some k →
  ∃ s', update_groups (insert_stream_packet now (session_group plan k) k (Media p)) s = (s', Ok tt) ∧ on_time (rs ++ [r]) s'.
Proof.
  intros HP HO HD Hp Hc Hle Hnew Hfits Hsym Hcn. destruct (fi_ok _ _ _ HP) as [Hwf _]. pose proof (lookup_lt_Some _ _ _ (proj2 Hp)) as Hlen. pose proof (vt_next _ _ _ HO).
  destruct (video_room cod rs r s k HP HO HD Hfits) as [Hcap Hroom]; [|lia|lia| |].
  - intros (g & Hg & Hk)%elem_of_pending. destruct (pending_due max _ _ _ k HP Hg Hk) as [[_ Hgk] (q & Hq & Hm & Hwhere)].
    pose proof (config_slot _ _ _ _ _ _ HP HO Hg (eq_sym Hgk) Hp Hc Hle Hnew) as Hnone. destruct Hwhere as [Hr|Hmed]; [congruence|].
    specialize (Hm Hmed). rewrite (is_sent_unique _ _ _ Hq Hp) in Hm. congruence.
  - unfold begun. rewrite (proj2 Hp), Hc, fmap_app, omap_app. apply bool_decide_eq_true, elem_of_app. right. cbn. rewrite Hcn. left.
  - unfold update_groups, insert_stream_packet. rewrite Hc. cbn [negb bail_if mbind outcome_bind].
    rewrite (config_demand k p Hp Hc) in Hcap. rewrite (admitted _ _ _ Hcap). cbn [mbind outcome_bind].
    destruct (prepared_group (session_group plan k) (pending_groups s) Hwf Hroom) as (self2 & i & g & Hprep & Hi & Hgk & Hret & Hold & Hgs).
    rewrite Hprep. cbn [mbind outcome_bind]. rewrite Hi. cbn [expect mbind outcome_bind].
    assert (Hnone : fg_config g = CfgNone) by (destruct Hold as [Hg|[-> _]]; [by eapply config_slot|done]).
    rewrite Hnone. cbn [cfg_is_none negb bail_if mbind outcome_bind]. eexists. split; [done|].
    eapply video_on_time_config; [exact HP|exact HO| |exact Hnone|exact Hsym|exact Hcn].
    split; [exact Hold|exact Hgk|exact Hgk|apply Hgs|exact Hret|done|done].
Qed.

(** ** [process] *)

Lemma video_handle_on_time cod rs now nows ev s :
  fec_session_inv max cod s → genuine max ev → on_time rs s → ¬ held s → (∀ k, config_number ev = Some k → k ∉ configs_in rs) →
  round_steady max sent_packets rs (now, nows, ev) →
  ∃ s1 fl, handle_event now ev s = (s1, Ok fl) ∧ on_time (rs ++ [(now, nows, ev)]) s1 ∧ (fl = Continue ∧ ¬ held s1 ∨ fl = Proceed).
Proof.
  intros HP Hgen HO HD Hnew (Hcar & Hfits & _). cbn [fst snd] in Hcar. set (r := (now, nows, ev)) in *.
  destruct ev as [[m|m]|e| |]; [| |done|done|]; cbn [handle_event genuine config_number] in *.
  - destruct (sm_packet m) as [c|p|h] eqn:Hpk; [| |done].
    + run_handler. unfold send_client. rewrite (fi_open _ _ _ HP). eexists _, Continue. split; [done|]. split; [|by left].
      assert (HO' : on_time (rs ++ [r]) s).
      { apply (video_on_time_snoc cod); [done|done|by intros; apply (packet_ids_other symbol_of)|]. cbn. by rewrite Hpk. }
      destruct HO' as [H1 H2 H3 H4 H5 H6 H7 H8 H9 H10 H11]. split; cbn; try done. by rewrite fmap_app, omap_app, H11, app_nil_r.
    + destruct Hgen as (Hs & Hc & Hg). rewrite Hg.
      destruct (unroll_fec max _ _ _ _ HP (is_sent_bound _ _ Hs) (session_group_bound (sm_raw_kypacket_seq m))) as (s1 & Hu & HP1).
      rewrite (handler_bind_eq _ _ _ _ _ Hu), (handler_bind_eq _ _ s1 s1 (next_kypacket_seq s1) eq_refl).
      assert (HO1 : on_time rs s1 ∧ ¬ held s1) by (unfold unroll in Hu; destruct (seq _ _ _), (seq _ _ _); injection Hu as <-; destruct HO; split; [by split|done]).
      destruct HO1 as [HO1 HD1]. destruct (Z.leb_spec (next_kypacket_seq s1) (sm_raw_kypacket_seq m)) as [Hle|Hgt].
      * destruct (video_config_on_time _ rs r s1 (at_admit now) (sm_raw_kypacket_seq m) p HP1 HO1 HD1 Hs Hc Hle) as (s2 & Hup & HO2);
          [by apply Hnew|exact Hfits|done|cbn; by rewrite Hpk|].
        rewrite (handler_bind_eq _ _ _ _ _ Hup). eexists _, Proceed. split; [done|]. split; [done|by right].
      * eexists _, Proceed. split; [done|]. split; [|by right]. apply (video_on_time_snoc cod); [done|done|by intros; apply (packet_ids_other symbol_of)|].
        cbn. rewrite Hpk. by intros k [= <-].
  - destruct Hgen as (p & Hp & Hg & Ho & Hin). rewrite Hg. pose proof Hp as [Hs Hc].
    destruct (unroll_fec max _ _ _ _ HP (is_sent_bound _ _ Hs) (session_group_bound (dm_raw_kypacket_seq m))) as (s1 & Hu & HP1).
    rewrite (handler_bind_eq _ _ _ _ _ Hu), (handler_bind_eq _ _ s1 s1 (next_kypacket_seq s1) eq_refl).
    assert (HO1 : on_time rs s1 ∧ ¬ held s1) by (unfold unroll in Hu; destruct (seq _ _ _), (seq _ _ _); injection Hu as <-; destruct HO; split; [by split|done]).
    destruct HO1 as [HO1 HD1]. destruct (Z.ltb_spec (dm_raw_kypacket_seq m) (next_kypacket_seq s1)) as [Hlt|Hle].
    { eexists _, Continue. split; [done|]. split; [|by left]. apply (video_on_time_snoc cod); [done|done| |done].
      intros k Hk. apply (packet_ids_other symbol_of). cbn. lia. }
    rewrite Ho. destruct (video_symbol_on_time _ rs now nows m p s1 HP1 HO1 HD1 Hp Hin Hle Hfits) as (s2 & Hup & HO2).
    rewrite (handler_bind_eq _ _ _ _ _ Hup). eexists _, Proceed. split; [done|]. split; [done|by right].
  - eexists _, Proceed. split; [done|]. split; [|by right]. apply (video_on_time_snoc cod); [done|done|by intros; apply (packet_ids_other symbol_of)|done].
Qed.

Lemma video_steady_timely rs now nows ev : round_steady max sent_packets rs (now, nows, ev) → timely max (rs ++ [(now, nows, ev)]) nows.
Proof.
  intros (_ & _ & Hall) r k key Hr Hs Hk i. rewrite Forall_forall in Hall. specialize (Hall r Hr). rewrite Hs in Hall. by apply Hall.
Qed.

Lemma video_step_on_time cod rs now nows ev s :
  fec_session_inv max cod s → genuine max ev → on_time rs s → ¬ held s → (∀ k, config_number ev = Some k → k ∉ configs_in rs) →
  round_steady max sent_packets rs (now, nows, ev) →
  ∃ s', step now nows ev s = (s', Ok true) ∧ on_time (rs ++ [(now, nows, ev)]) s' ∧ ¬ held s'.
Proof.
  intros HP Hgen HO HD Hnew Hst. destruct (video_handle_on_time _ _ _ nows _ _ HP Hgen HO HD Hnew Hst) as (s1 & fl & Hh & HO1 & Hfl).
  pose proof (handle_event_fec max _ _ _ _ _ _ HP Hgen Hh) as HP1. unfold step. rewrite (handler_bind_eq _ _ _ _ _ Hh).
  destruct Hfl as [[-> HD1]| ->]; [by exists s1|].
  destruct (video_drain_on_time max Hconfig _ _ nows _ HP1 HO1 (video_steady_timely _ _ _ _ Hst)) as (s2 & Hd & HO2 & HD2). rewrite (handler_bind_eq _ _ _ _ _ Hd). by exists s2.
Qed.

Lemma video_rounds_on_time cod rs evs s :
  fec_session_inv max cod s → Forall (genuine max) (snd <$> evs) → on_time rs s → ¬ held s → NoDup (configs_in (rs ++ evs)) →
  steady max sent_packets rs evs →
  ∃ s', run_rounds (D := video_fec_driver) evs s = (s', Ok true) ∧ on_time (rs ++ evs) s' ∧ ¬ held s' ∧ ∃ cod', fec_session_inv max cod' s'.
Proof.
  revert cod rs s. induction evs as [|[[now nows] ev] evs IH]; intros cod rs s HP Hgen HO HD Hnd Hst; cbn [run_rounds].
  { exists s. rewrite app_nil_r. by eauto 10. }
  apply Forall_cons in Hgen as [Hg Hgen]. destruct Hst as [Hst1 Hst]. cbn [round video_fec_driver fst snd].
  assert (Hnew : ∀ k, config_number ev = Some k → k ∉ configs_in rs).
  { intros k Hk Hin. rewrite fmap_app, omap_app in Hnd. apply NoDup_app in Hnd as (_ & Hnd & _). apply (Hnd k Hin). cbn. rewrite Hk. left. }
  destruct (video_step_on_time _ _ now nows ev _ HP Hg HO HD Hnew Hst1) as (s1 & Hs & HO1 & HD1).
  pose proof (step_fec max _ _ _ _ _ _ _ HP Hg Hs) as HP1. rewrite Hs.
  destruct (IH _ (rs ++ [((now, nows), ev)]) _ HP1 Hgen HO1 HD1) as (s' & Hr & HO' & HD' & HP'); [by rewrite <- app_assoc|done|].
  exists s'. rewrite <- app_assoc in HO'. done.
Qed.
End OnTime.
