(* ===== verification/VideoFecDelivery.v ===== *)
(** * Video with error correction: delivery

    The promise of the whole system, from [send] to [recv], to a network that
    loses symbols but not too many of them, and not for too long: nothing of the
    session is lost. *)

From stdpp Require Import prelude list gmap strings.
From Stdlib Require Import ZArith Lia.
From S2P Require Import Prelude SortedVec Sequencer Io Av Packets Channel Reassembly Router ReceiveTasks StreamSession VideoOrder VideoSession VideoEndToEnd Fec SystematicCode FecSafety VideoFecSafety VideoFecProcess VideoFecReceive FecTransfer FecRecovery Arrivals VideoUnreliableFec VideoFecSession VideoFecEndToEnd VideoFecComplete VideoFecOnTime.
Open Scope Z_scope.

Section Delivery.
Context `{RL : RaptorQLaws} {RR : RaptorQRecovery}.

(** Every media packet has few enough source blocks for the cap of the decoder
    to let all its symbols in. *)
Definition few_blocks (max : Z) (p : MediaPacket) : Prop := is_config (header p) = false → source_blocks (object_oti max p) ≤ 3.

(** The first packet is a config. *)
Definition config_leads (ps : list MediaPacket) : Prop := match ps with p :: _ => is_config (header p) = true | [] => True end.

(** The configs on the stream are numbered in order. *)
Lemma stream_configs_NoDup k g l :
  NoDup (omap config_number (EvMsg <$> (RStream <$> stream_messages k g l))) ∧
  ∀ j, j ∈ omap config_number (EvMsg <$> (RStream <$> stream_messages k g l)) → k ≤ j.
Proof.
  revert k g. induction l as [|p l IH]; intros k g; [split; [constructor|by intros j ?%not_elem_of_nil]|].
  destruct p as [c|p|h]; cbn [stream_messages]; [apply IH| |apply IH]. destruct (is_config (header p)).
  - destruct (IH (k + 1) (g + 1)) as [Hnd Hge]. cbn. split; [constructor; [intros Hin; specialize (Hge k Hin); lia|done]|].
    intros j [->|Hj]%elem_of_cons; [lia|]. specialize (Hge j Hj). lia.
  - destruct (IH (k + 1) g) as [Hnd Hge]. split; [done|]. intros j Hj. specialize (Hge j Hj). lia.
Qed.

(** C7: delivery of video with error correction.  The sender sends any session of
    codecs, configs and media packets that begins with a config and that the receiver's limits allow; the
    network delivers some of the symbols, in any order and any number of times,
    and the tasks are scheduled in any way, as long as the run is steady: what is
    in flight fits the receive budget, no packet waits for [MAX_BUFFERING] behind
    one that has not arrived, and no reader fails.  Then [process] does not fail,
    and it has sent the client, in order, all the packets up to the first one
    of which not enough has arrived; the client receives them as soon as it
    asks for them.  When all have arrived, the client is sent the whole session. *)
Theorem video_fec_session_delivered endpoint max l :
  Z.of_nat DATAGRAM_HEADER_SIZE < max < 0x10000 → Forall (sendable max) l → Z.of_nat (length l) < 2 ^ 31 →
  Forall (few_blocks max) (omap media_of l) → config_leads (omap media_of l) →
  ∃ sent wire k g,
    send_all l (send_start (open_channel endpoint max []) (open_writer [])) = (driver_at endpoint max sent wire k g, Ok tt) ∧
    ∀ stream stats acts s obs,
      rd_data stream `prefix_of` wire → exec acts (video_fec_start stream stats) = Some (s, obs) →
      (∀ b, b ∈ datagrams_read obs → b ∈ sent) → steady max (omap media_of l) [] (rounds obs) →
      (run_rounds (rounds obs) (process_init stats)).2 = Ok true ∧
      (∃ n, frontier max (omap media_of l) (snd <$> rounds obs) ≤ n ∧
         omap media_of (ReceiveTasks.sent (process_state s)) = take (Z.to_nat n) (omap media_of l)) ∧
      ((∀ k, 0 ≤ k < Z.of_nat (length (omap media_of l)) → arrived max (omap media_of l) (snd <$> rounds obs) k = true) →
         omap media_of (ReceiveTasks.sent (process_state s)) = omap media_of l) ∧
      ReceiveTasks.received obs `prefix_of` ReceiveTasks.sent (process_state s) ∧
      (future (process_task s) = Selecting → mq (client_queue s) = [] → rx_open (client_queue s) = true →
         ReceiveTasks.received obs = ReceiveTasks.sent (process_state s)).
Proof.
  intros Hmax Hl Hlen Hfew Hlead. destruct (fec_send_all_at endpoint max Hmax l [] [] 0 0 Hl ltac:(lia) ltac:(lia) ltac:(lia) ltac:(lia)) as (k & g & Hsend).
  exists (session_datagrams endpoint max 0 0 l), (stream_bytes (stream_messages 0 0 l)), k, g. split; [exact Hsend|].
  intros stream stats acts s obs Hpre He Hdg Hst.
  destruct (fec_taken_of_sender endpoint max l stream stats acts s obs Hmax Hl Hlen Hpre He Hdg) as (Hgen & Hord & _).
  pose proof (rounds_of_taken (D := video_fec_driver) obs) as Hin.
  destruct (driver_inv _ _ _ _ _ He) as [_ _ (r & Hrun & _) (rest & Hsent & Hrest) _ _ _ _].
  pose (SS := fec_session max l Hlen). pose proof (fec_session_ok max Hmax l Hl Hlen) as SO.
  assert (Hall : Forall (genuine (SE := SS) max) (snd <$> rounds obs)).
  { apply Forall_forall. intros ev Hev. destruct (Hin ev Hev) as [Ht|[->| ->]]; [by apply Hgen|done|done]. }
  assert (Hnd : NoDup (omap config_number (snd <$> rounds obs))).
  { rewrite (rounds_omap (D := video_fec_driver) config_number obs eq_refl eq_refl). destruct (Hord _ config_number) as [tl Htl]; [done|done|].
    pose proof (proj1 (stream_configs_NoDup 0 0 l)) as Hn. rewrite Htl in Hn. by apply NoDup_app in Hn as [? _]. }
  assert (Hblocks : ∀ k p, media_sent (SE := SS) k p → source_blocks (object_oti max p) ≤ 3).
  { intros k' p [[_ Hp] Hc]. rewrite Forall_forall in Hfew. apply Hfew; [|done]. by eapply list_elem_of_lookup_2. }
  assert (Hconfig : ∀ p, is_sent (SE := SS) 0 p → is_config (header p) = true).
  { intros p [_ Hp]. change sent_packets with (omap media_of l) in Hp. destruct (omap media_of l) as [|q qs]; [done|]. injection Hp as <-. done. }
  destruct (video_rounds_on_time (SE := SS) max Hblocks Hconfig [] [] (rounds obs) (process_init stats)) as (s' & Hr & HO & HD & cod & HP);
    [apply fec_session_init|exact Hall|apply video_on_time_init| |exact Hnd|exact Hst|].
  { intros (x & Hx & _). by apply not_elem_of_nil in Hx. }
  rewrite Hrun in Hr. injection Hr as <- ->. cbn [app] in HO. pose proof (not_held_frontier (SE := SS) max _ _ _ HP HO HD) as Hfr.
  pose proof (vt_media _ _ _ HO) as Hm. cbn [ReceiveTasks.sent video_fec_driver process_init client fmap list_fmap app] in *.
  change sent_packets with (omap media_of l) in *. split_and!.
  - by rewrite Hrun.
  - by exists (next_kypacket_seq (process_state s)).
  - intros Hk. rewrite Hm. apply first_missing_all in Hk. unfold frontier in *. apply take_ge. lia.
  - rewrite Hsent. by apply prefix_app_r.
  - intros Hsel Hq Hopen. specialize (Hrest Hopen). rewrite Hsel in Hrest. cbn in Hrest. by rewrite Hsent, Hq, Hrest, !app_nil_r.
Qed.
End Delivery.

(** ** A sample, with the systematic code: the datagrams come before the config, the last first *)

Definition video_delivery_actions : list (ReceiveTasks.Action (Time:=Clocks * (nat → Instant))) :=
  [ReadStream; PushStream; Round sample_time false; Deliver; Recv] ++
  concat ((λ b, [GotDatagram (inr b); PushDatagram; Round sample_time false]) <$> reverse fec_sample_wire.2) ++
  [ReadStream; PushStream; Round ({| at_admit := 9000; at_create := 9000; at_assemble := 9000 |}, λ _, 9000) false; Deliver; Recv; Deliver; Recv; Deliver; Recv].

Definition video_delivery_run : option (Pipeline * list Obs) :=
  exec video_delivery_actions (video_fec_start (H := systematic) fec_sample_stream stats_default).

Example video_delivery_sample_received : option_map (λ r, ReceiveTasks.received (snd r)) video_delivery_run = Some fec_sample_session.
Proof. by vm_compute. Qed.

Definition video_delivery_rounds : list (Clocks * (nat → Instant) * @Event systematic) :=
  Eval vm_compute in default [] (option_map (λ r, rounds (snd r)) video_delivery_run).

#[local] Instance fits_dec `{RaptorQRecovery} max packets ks : Decision (fits max packets ks).
Proof. unfold fits. apply _. Defined.

Lemma video_delivery_steady : steady (RR := systematic_recovery) 34 (omap media_of fec_sample_session) [] video_delivery_rounds.
Proof.
  unfold video_delivery_rounds. cbn [steady app].
  repeat (split; [split; [done|split; [apply (bool_decide_unpack _); by vm_compute|repeat constructor; cbn; done || (intros _ i; by vm_compute)]]|]).
  done.
Qed.

Lemma video_delivery_arrived k :
  0 ≤ k < Z.of_nat (length (omap media_of fec_sample_session)) →
  arrived (RR := systematic_recovery) 34 (omap media_of fec_sample_session) (snd <$> video_delivery_rounds) k = true.
Proof.
  intros Hk. apply (first_missing_all (length (omap media_of fec_sample_session))
    (arrived (RR := systematic_recovery) 34 (omap media_of fec_sample_session) (snd <$> video_delivery_rounds))); [by vm_compute|done].
Qed.

Lemma video_delivery_exec :
  option_map (λ r, (rounds (snd r), datagrams_read (snd r))) (exec video_delivery_actions (video_fec_start (H := systematic) fec_sample_stream stats_default)) =
  Some (video_delivery_rounds, reverse fec_sample_wire.2).
Proof. vm_cast_no_check (eq_refl (Some (video_delivery_rounds, reverse fec_sample_wire.2))). Qed.

(** The datagrams and the stream are those of the sender. *)
Lemma video_fec_session_delivered_witness :
  ∃ sent wire k g s obs,
    send_all (H := systematic) fec_sample_session (send_start (open_channel 5 34 []) (open_writer [])) = (driver_at 5 34 sent wire k g, Ok tt) ∧
    exec video_delivery_actions (video_fec_start fec_sample_stream stats_default) = Some (s, obs) ∧
    omap media_of (ReceiveTasks.sent (process_state s)) = omap media_of fec_sample_session.
Proof.
  destruct (video_fec_session_delivered (RL := systematic_laws) (RR := systematic_recovery) 5 34 fec_sample_session) as (sent & wire & k & g & Hsend & Hall).
  - by vm_compute.
  - apply fec_sample_sendable.
  - by vm_compute.
  - repeat constructor; by vm_compute.
  - done.
  - destruct (exec_result (λ r, (rounds (snd r), datagrams_read (snd r))) video_delivery_actions (video_fec_start (H := systematic) fec_sample_stream stats_default)
      (video_delivery_rounds, reverse fec_sample_wire.2) video_delivery_exec) as (s & obs & He & Hr). pose proof (f_equal snd Hr) as Hd. apply (f_equal fst) in Hr. cbn [fst snd] in Hr, Hd.
    assert (Hw : fec_sample_wire = (wire, sent)) by (unfold fec_sample_wire; by rewrite Hsend).
    exists sent, wire, k, g, s, obs. split; [exact Hsend|]. split; [exact He|].
    destruct (Hall fec_sample_stream stats_default video_delivery_actions s obs) as (_ & _ & Hmedia & _); [|exact He| | |].
    + unfold fec_sample_stream. rewrite Hw. cbn. by rewrite app_nil_r.
    + intros b. rewrite Hd, Hw, elem_of_reverse. done.
    + rewrite Hr. apply video_delivery_steady.
    + apply Hmedia. rewrite Hr. apply video_delivery_arrived.
Defined.
