(* ===== verification/Multiplex.v ===== *)
(** * Several sessions on one connection

    The router of the receiving peer between the senders and the drivers: what
    a channel gives its driver comes from streams and datagrams that named its
    endpoint, so that sessions that share a connection do not disturb each
    other. *)

From stdpp Require Import prelude list gmap strings relations functions.
From Stdlib Require Import ZArith Lia.
From S2P Require Import Prelude Io Av Packets Channel ReceiveTasks StreamSession Fec SystematicCode VideoSession VideoReceive VideoEndToEnd VideoFecReceive VideoFecEndToEnd Router RouterDemux.
Open Scope Z_scope.

(** ** Where the items of a channel come from *)

(** The items a channel has given out, holds or is about to get *)
Record from {A} (P : Z → A → Prop) (got : nat → list A) (get : RouterClient → Mpsc A) (t : Loop A) (qs : list RouterClient) : Prop := {
  from_got c cl x : qs !! c = Some cl → x ∈ got c → P (client_id cl) x;
  from_queue c cl x : qs !! c = Some cl → x ∈ mq (get cl) → P (client_id cl) x;
  from_loop c x : t = Sending c x → ∃ cl, qs !! c = Some cl ∧ P (client_id cl) x;
}.

Section From.
Context {A : Type} (got : nat → list A) (get : RouterClient → Mpsc A) (set : (Mpsc A → Mpsc A) → RouterClient → RouterClient).
Context (Hset : ∀ f cl, client_id (set f cl) = client_id cl ∧ get (set f cl) = f (get cl)).
Implicit Types (P Q : Z → A → Prop) (t : Loop A) (qs : list RouterClient).

Lemma from_weaken P Q t qs : (∀ e x, P e x → Q e x) → from P got get t qs → from Q got get t qs.
Proof. intros HPQ [H1 H2 H3]. split; [eauto|eauto|]. intros c x Ht. destruct (H3 c x Ht) as (cl & Hcl & HP). eauto. Qed.

(** A client whose queue does not grow *)
Lemma from_insert P t qs c cl cl1 :
  qs !! c = Some cl → client_id cl1 = client_id cl → (∀ x, x ∈ mq (get cl1) → x ∈ mq (get cl)) →
  from P got get t qs → from P got get t (<[c := cl1]> qs).
Proof.
  intros Hc Hid Hsub [H1 H2 H3].
  assert (Hl : ∀ c' cl', <[c := cl1]> qs !! c' = Some cl' → ∃ cl0, qs !! c' = Some cl0 ∧ client_id cl' = client_id cl0 ∧ ∀ x, x ∈ mq (get cl') → x ∈ mq (get cl0)).
  { intros c' cl' Hl. apply list_lookup_insert_Some in Hl as [(<- & <- & _)|[_ Hl]]; eauto. }
  split.
  - intros c' cl' x (cl0 & Hcl0 & -> & _)%Hl. eauto.
  - intros c' cl' x (cl0 & Hcl0 & -> & Hx)%Hl. eauto.
  - intros c' x Ht. destruct (H3 c' x Ht) as (cl' & Hcl' & HP). destruct (decide (c = c')) as [<-|Hne].
    + exists cl1. rewrite list_lookup_insert_eq by (by eapply lookup_lt_Some). split; [done|]. rewrite Hid. congruence.
    + exists cl'. by rewrite list_lookup_insert_ne.
Qed.

Lemma from_idle P t t' qs : (∀ c x, t' ≠ Sending c x) → from P got get t qs → from P got get t' qs.
Proof. intros Ht [H1 H2 H3]. split; [done|done|]. intros c x He. by destruct (Ht c x). Qed.

Lemma from_sending P t qs c cl x : qs !! c = Some cl → P (client_id cl) x → from P got get t qs → from P got get (Sending c x) qs.
Proof. intros Hc HP [H1 H2 H3]. split; [done|done|]. intros c' x' [= <- <-]. eauto. Qed.

Lemma from_complete P err t qs t' qs' :
  complete get set err t qs = Some (t', qs') → from P got get t qs → from P got get t' qs'.
Proof.
  intros (c & x & cl & -> & Hc & [(_ & -> & ->)|(_ & -> & ->)])%complete_inv HF; [|by eapply from_idle]. destruct HF as [H1 H2 H3].
  destruct (H3 c x eq_refl) as (cl' & Hcl' & HP). rewrite Hc in Hcl'. injection Hcl' as <-. destruct (Hset (mpsc_push x) cl) as [Hid Hget].
  split; [..|done]; intros c' cl' y Hl Hy; apply list_lookup_insert_Some in Hl as [(<- & <- & _)|[_ Hl]]; rewrite ?Hid; eauto.
  rewrite Hget in Hy. cbn in Hy. apply elem_of_app in Hy as [Hy|Hy]; [eauto|]. by apply list_elem_of_singleton in Hy as ->.
Qed.

Lemma from_register P t qs cl :
  mq (get cl) = [] → from P got get t qs → from P (<[length qs := []]> got) get t (qs ++ [cl]).
Proof.
  intros Hq [H1 H2 H3].
  assert (Hl : ∀ c cl', (qs ++ [cl]) !! c = Some cl' → (qs !! c = Some cl' ∧ length qs ≠ c) ∨ c = length qs ∧ cl' = cl).
  { intros c cl' Hl. apply lookup_app_Some in Hl as [Hl|[Hge Hl]]; [left|right].
    - split; [done|]. apply lookup_lt_Some in Hl. lia.
    - apply list_lookup_singleton_Some in Hl as [? <-]. split; [lia|done]. }
  split.
  - intros c cl' x [[Hc Hne]|[-> ->]]%Hl; [rewrite fn_lookup_insert_ne by done; eauto|]. rewrite fn_lookup_insert. by intros ?%not_elem_of_nil.
  - intros c cl' x [[Hc Hne]|[-> ->]]%Hl; [eauto|]. rewrite Hq. by intros ?%not_elem_of_nil.
  - intros c x Ht. destruct (H3 c x Ht) as (cl' & Hcl' & HP). exists cl'. split; [by apply lookup_app_l_Some|done].
Qed.

Lemma from_recv P t r c x r' :
  recv_ get set c r = Some (x, r') → from P got get t (queues r) → from P (<[c := got c ++ [x]]> got) get t (queues r').
Proof.
  intros (cl & q & Hc & Hq & ->)%recv_inv HF. destruct (Hset mpsc_pop cl) as [Hid Hget].
  assert (Hx : P (client_id cl) x) by (eapply (from_queue _ _ _ _ _ HF); [exact Hc|rewrite Hq; left]).
  destruct (from_insert P t (queues r) c cl (set mpsc_pop cl) Hc Hid) as [H1 H2 H3]; [|done|].
  { rewrite Hget. cbn. rewrite Hq. intros y Hy. by right. }
  cbn [set_queues queues]. split; [|exact H2|exact H3]. intros c' cl' y Hl. destruct (decide (c = c')) as [<-|Hne].
  - rewrite fn_lookup_insert. intros [Hy|Hy]%elem_of_app; [eauto|]. apply list_elem_of_singleton in Hy as ->.
    rewrite list_lookup_insert_eq in Hl by (by eapply lookup_lt_Some). injection Hl as <-. by rewrite Hid.
  - rewrite fn_lookup_insert_ne by done. eauto.
Qed.
End From.

(** A datagram that arrived and named the endpoint *)
Definition routed_datagram (w : World) (e : Z) (d : bytes) : Prop := d ∈ arrivals w ∧ addressed e d.

(** A stream that was accepted and named the endpoint; the id is read *)
Definition routed_stream (w : World) (e : Z) (s : Reader) : Prop := ∃ s0, s0 ∈ accepted w ∧ read_endpoint_id s0 = Ok (e, s).

Record origins (w : World) : Prop := {
  or_clients e c : clients (router w) !! e = Some c → ∃ cl, queues (router w) !! c = Some cl ∧ client_id cl = e;
  or_datagrams : from (routed_datagram w) (received w) datagrams (recv_datagrams_task (router w)) (queues (router w));
  or_streams : from (routed_stream w) (streams w) unistreams (accept_uni_task (router w)) (queues (router w));
}.

Lemma origins_start : origins world_start.
Proof. split; cbn; [intros *; by rewrite lookup_empty|split; done..]. Qed.

Lemma table_insert (m : gmap Z nat) (qs : list RouterClient) c cl cl1 :
  (∀ e c', m !! e = Some c' → ∃ cl', qs !! c' = Some cl' ∧ client_id cl' = e) → qs !! c = Some cl → client_id cl1 = client_id cl →
  ∀ e c', m !! e = Some c' → ∃ cl', <[c := cl1]> qs !! c' = Some cl' ∧ client_id cl' = e.
Proof.
  intros Hm Hc Hid e c' He. destruct (Hm e c' He) as (cl' & Hcl' & Hide). destruct (decide (c = c')) as [<-|Hne].
  - exists cl1. rewrite list_lookup_insert_eq by (by eapply lookup_lt_Some). split; [done|]. congruence.
  - exists cl'. by rewrite list_lookup_insert_ne.
Qed.

Lemma on_uni_set f cl : client_id (on_uni f cl) = client_id cl ∧ unistreams (on_uni f cl) = f (unistreams cl).
Proof. done. Qed.
Lemma on_datagrams_set f cl : client_id (on_datagrams f cl) = client_id cl ∧ datagrams (on_datagrams f cl) = f (datagrams cl).
Proof. done. Qed.

(** A change of one client that gives it no further item *)
Lemma origins_insert w c cl cl1 tb :
  origins w → queues (router w) !! c = Some cl → client_id cl1 = client_id cl →
  (∀ x, x ∈ mq (datagrams cl1) → x ∈ mq (datagrams cl)) → (∀ x, x ∈ mq (unistreams cl1) → x ∈ mq (unistreams cl)) →
  origins (with_router (set_bi tb (set_queues (<[c := cl1]> (queues (router w))) (router w))) w).
Proof.
  intros [H1 H2 H3] Hc Hid Hd Hs. split; [by eapply table_insert|by eapply from_insert|by eapply from_insert].
Qed.

Lemma origins_register w e r c :
  origins w → register e (router w) = (r, Ok c) →
  origins {| router := r; held := <[c := e]> (held w); arrivals := arrivals w; since := <[c := length (arrivals w)]> (since w);
             received := <[c := []]> (received w); accepted := accepted w; streams := <[c := []]> (streams w) |}.
Proof.
  intros [H1 H2 H3]. unfold register. destruct (clients (router w) !! e) eqn:He; [done|]. intros [= <- <-]. split; cbn.
  - intros e' c' [[<- <-]|[_ Hl]]%lookup_insert_Some.
    + eexists. rewrite lookup_app_r, Nat.sub_diag by lia. done.
    + destruct (H1 _ _ Hl) as (cl & Hcl & Hid). exists cl. split; [by apply lookup_app_l_Some|done].
  - by apply from_register.
  - by apply from_register.
Qed.

Lemma origins_datagram w d :
  origins w →
  origins {| router := recv_datagram d (router w); held := held w; arrivals := arrivals w ++ [d]; since := since w; received := received w;
             accepted := accepted w; streams := streams w |}.
Proof.
  intros [H1 H2 H3].
  assert (H2' : from (λ e x, x ∈ arrivals w ++ [d] ∧ addressed e x) (received w) datagrams (recv_datagrams_task (router w)) (queues (router w))).
  { eapply from_weaken; [|exact H2]. intros e x [Hx ?]. split; [set_solver|done]. }
  unfold recv_datagram. destruct (Nat.leb_spec 2 (length d)); [|by split].
  destruct (clients (router w) !! read_be (take 2 d)) as [c|] eqn:Hc; [|by split].
  destruct (H1 _ _ Hc) as (cl & Hcl & Hid). split; cbn; [done| |done].
  eapply from_sending; [exact Hcl| |exact H2']. split; [set_solver|done].
Qed.

Lemma origins_accept_uni w s :
  origins w → origins (with_streams (accepted w ++ [s]) (streams w) (with_router (accept_uni s (router w)) w)).
Proof.
  intros [H1 H2 H3].
  assert (H3' : from (λ e x, ∃ s0, s0 ∈ accepted w ++ [s] ∧ read_endpoint_id s0 = Ok (e, x)) (streams w) unistreams (accept_uni_task (router w)) (queues (router w))).
  { eapply from_weaken; [|exact H3]. intros e x (s0 & Hs & Hr). exists s0. split; [set_solver|done]. }
  unfold accept_uni. destruct (read_endpoint_id s) as [[e s']|e|] eqn:Hr; [|by split..].
  destruct (clients (router w) !! e) as [c|] eqn:Hc; [|by split; [..|eapply from_idle]].
  destruct (H1 _ _ Hc) as (cl & Hcl & Hid). split; cbn; [done|done|].
  eapply from_sending; [exact Hcl| |exact H3']. exists s. rewrite Hid. split; [set_solver|done].
Qed.

Lemma origins_complete_uni w r : origins w → complete_uni (router w) = Some r → origins (with_router r w).
Proof.
  intros [H1 H2 H3] ([t qs] & Hc & [= <-])%bind_Some. pose proof (from_complete _ _ _ on_uni_set _ _ _ _ _ _ Hc H3) as H3'.
  apply complete_inv in Hc as (c & x & cl & Ht & Hc & [(_ & -> & ->)|(_ & -> & ->)]); [|by split].
  split; [by eapply table_insert|by eapply from_insert|done].
Qed.

Lemma origins_complete_datagram w r : origins w → complete_datagram (router w) = Some r → origins (with_router r w).
Proof.
  intros [H1 H2 H3] ([t qs] & Hc & [= <-])%bind_Some. pose proof (from_complete _ _ _ on_datagrams_set _ _ _ _ _ _ Hc H2) as H2'.
  apply complete_inv in Hc as (c & x & cl & Ht & Hc & [(_ & -> & ->)|(_ & -> & ->)]); [|by split].
  split; [by eapply table_insert|done|by eapply from_insert].
Qed.

Lemma set_bi_same (r : Router) : set_bi (accept_bi_task r) r = r.
Proof. by destruct r. Qed.

Lemma origins_step w w' : origins w → world_step w w' → origins w'.
Proof.
  intros Ho Hs. destruct Hs as [e r c Hr|d _|s _|s1 s2 _|r Hc|r Hc|r Hc|c e d r _ Hr|c e s r _ Hr|c e s r _ Hr|c e _|c e r o _ Hr].
  - by apply origins_register.
  - by apply origins_datagram.
  - by apply origins_accept_uni.
  - unfold accept_bi. destruct (read_endpoint_id s2) as [[e s']|e|]; [destruct (clients (router w) !! e)|..]; by destruct Ho; split.
  - by apply origins_complete_datagram.
  - by apply origins_complete_uni.
  - apply bind_Some in Hc as ([t qs] & (c & x & cl & _ & Hc & [(_ & -> & ->)|(_ & -> & ->)])%complete_inv & [= <-]); [|by destruct Ho; split].
    by eapply origins_insert.
  - destruct Ho as [H1 H2 H3]. pose proof (from_recv _ _ _ on_datagrams_set _ _ _ _ _ _ Hr H2) as H2'.
    apply recv_inv in Hr as (cl & q & Hc & Hq & ->). split; [by eapply table_insert|done|by eapply from_insert].
  - destruct Ho as [H1 H2 H3]. pose proof (from_recv _ _ _ on_uni_set _ _ _ _ _ _ Hr H3) as H3'.
    apply recv_inv in Hr as (cl & q & Hc & Hq & ->). split; [by eapply table_insert|by eapply from_insert|done].
  - apply recv_inv in Hr as (cl & q & Hc & Hq & ->). rewrite <- (set_bi_same (set_queues _ _)). by eapply origins_insert.
  - unfold drop_receivers. destruct (queues (router w) !! c) as [cl|] eqn:Hc; [|by destruct Ho; split].
    rewrite <- (set_bi_same (set_queues _ _)). eapply origins_insert; [done|done|done|..]; cbn; by intros x ?%not_elem_of_nil.
  - injection Hr as <- <-. destruct Ho as [H1 H2 H3]. split; cbn; [|done|done]. intros e' c' [_ Hl]%lookup_delete_Some. by apply H1.
Qed.

Lemma origins_reachable w : rtc world_step world_start w → origins w.
Proof.
  assert (∀ w0, rtc world_step w0 w → origins w0 → origins w) as Hall.
  { induction 1 as [|x y z Hs _ IH]; [done|]. intros Hx. apply IH. by eapply origins_step. }
  intros Hr. eapply Hall; [done|apply origins_start].
Qed.

(** ** Bytes that name an endpoint *)

(** The bytes of a datagram or of a stream on endpoint [e], or a part of them *)
Definition names (e : Z) (b : bytes) : Prop := ∃ rest, b `prefix_of` be_bytes 2 e ++ rest.

Lemma prefix_split (a b rest d : bytes) : a ++ b `prefix_of` d ++ rest → length a = length d → a = d ∧ b `prefix_of` rest.
Proof. intros [k Hk] Hl. rewrite <- app_assoc in Hk. apply app_inj_1 in Hk as [<- ->]; [|done]. split; [done|by eexists]. Qed.

Lemma names_addressed e e' b : is_u16 e' → names e' b → addressed e b → e' = e.
Proof.
  intros Hu [rest [k Hk]] [Hl <-]. assert (Ht : take 2 b = be_bytes 2 e').
  { rewrite <- (take_app_le b k) by lia. rewrite <- Hk. by rewrite take_app_length' by by rewrite be_bytes_length. }
  rewrite Ht, read_be_be_bytes, Z.mod_small; [done|]. unfold is_u16 in Hu. cbn. lia.
Qed.

Lemma names_stream e e' rest s r :
  is_u16 e' → rd_data s `prefix_of` be_bytes 2 e' ++ rest → read_endpoint_id s = Ok (e, r) → e' = e ∧ rd_data r `prefix_of` rest.
Proof.
  intros Hu Hp Hr. unfold read_endpoint_id in Hr. destruct (read_exact 2 s) as [[raw r']|err|] eqn:Hx; try done. injection Hr as <- ->.
  apply read_exact_inv in Hx as (Hd & Hl & _). rewrite Hd in Hp. apply prefix_split in Hp as [-> Hp]; [|by rewrite be_bytes_length].
  split; [|done]. rewrite read_be_be_bytes, Z.mod_small; [done|]. unfold is_u16 in Hu. cbn. lia.
Qed.

(** The channel of an endpoint *)
Definition channel_of (w : World) (c : nat) (e : Z) : Prop := ∃ cl, queues (router w) !! c = Some cl ∧ client_id cl = e.

(** What the connection carried: parts of the streams and some of the datagrams
    of the senders [sessions], and anything on other endpoints *)
Definition carried (sessions : list (Z * list bytes * bytes)) (w : World) : Prop :=
  (∀ d, d ∈ arrivals w → ∃ e, is_u16 e ∧ names e d ∧ ∀ sent wire, (e, sent, wire) ∈ sessions → d ∈ sent) ∧
  (∀ s, s ∈ accepted w → ∃ e rest, is_u16 e ∧ rd_data s `prefix_of` be_bytes 2 e ++ rest ∧
     ∀ sent wire, (e, sent, wire) ∈ sessions → rd_data s `prefix_of` wire).

(** A channel gives out what the sender of its endpoint sent, and nothing else. *)
Lemma channel_inputs sessions w c e sent body :
  rtc world_step world_start w → carried sessions w → channel_of w c e → (e, sent, be_bytes 2 e ++ body) ∈ sessions →
  (∀ d, d ∈ received w c → d ∈ sent) ∧ ∀ s, s ∈ streams w c → rd_data s `prefix_of` body.
Proof.
  intros Hw%origins_reachable [Hd Hs] (cl & Hcl & Hid) He. split.
  - intros d Hdc. destruct (from_got _ _ _ _ _ (or_datagrams _ Hw) c cl d Hcl Hdc) as [Harr Hadd]. rewrite Hid in Hadd.
    destruct (Hd d Harr) as (e' & Hu & Hn & Hsent). assert (e' = e) as -> by by eapply names_addressed. by eapply Hsent.
  - intros s Hsc. destruct (from_got _ _ _ _ _ (or_streams _ Hw) c cl s Hcl Hsc) as (s0 & Hacc & Hr). rewrite Hid in Hr.
    destruct (Hs s0 Hacc) as (e' & rest & Hu & Hp & Hwire). destruct (names_stream _ _ _ _ _ Hu Hp Hr) as [-> _].
    by destruct (names_stream _ _ _ _ _ Hu (Hwire _ _ He) Hr) as [_ ?].
Qed.

(** ** Two video sessions *)

Section Sessions.
Context `{RL : RaptorQLaws}.

(** The opened stream of an endpoint *)
Definition opened (e : Z) : Writer := (open_uni_ e (open_writer [])).1.

(** C3: an unreliable video session and one with error correction on different
    endpoints of one connection, next to any traffic of other endpoints.  Through
    the router of the receiver, and whatever it does in any order, the driver of
    either endpoint gets its own session only: its client receives media packets
    of that session, intact, in order and at most once, and its first codecs. *)
Theorem video_sessions_share_connection e1 e2 max l1 l2 :
  is_u16 e1 → is_u16 e2 → 26 < max < 0x10000 →
  Forall VideoEndToEnd.sendable l1 → Z.of_nat (length l1) < 2 ^ 31 →
  Forall (VideoFecEndToEnd.sendable max) l2 → Z.of_nat (length l2) < 2 ^ 31 →
  ∃ sent1 wire1 k1 g1 sent2 wire2 k2 g2,
    VideoEndToEnd.send_all l1 (VideoUnreliable.send_start (open_channel e1 max []) (opened e1)) =
      (VideoEndToEnd.driver_at e1 max sent1 wire1 k1 g1, Ok tt) ∧
    VideoFecEndToEnd.send_all l2 (VideoUnreliableFec.send_start (open_channel e2 max []) (opened e2)) =
      (VideoFecEndToEnd.driver_at e2 max sent2 wire2 k2 g2, Ok tt) ∧
    ∀ w c1 c2, rtc world_step world_start w → carried [(e1, sent1, wire1); (e2, sent2, wire2)] w →
      (∀ stream stats acts s obs,
         channel_of w c1 e1 → stream ∈ streams w c1 → exec acts (video_start stream stats) = Some (s, obs) →
         (∀ b, b ∈ datagrams_read obs → b ∈ received w c1) →
         omap media_of (ReceiveTasks.received obs) `sublist_of` omap media_of l1 ∧
         omap codec_of (ReceiveTasks.received obs) `prefix_of` omap codec_of l1) ∧
      (∀ stream stats acts s obs,
         channel_of w c2 e2 → stream ∈ streams w c2 → exec acts (video_fec_start stream stats) = Some (s, obs) →
         (∀ b, b ∈ datagrams_read obs → b ∈ received w c2) →
         omap media_of (ReceiveTasks.received obs) `sublist_of` omap media_of l2 ∧
         omap codec_of (ReceiveTasks.received obs) `prefix_of` omap codec_of l2).
Proof.
  intros Hu1 Hu2 Hmax Hl1 Hlen1 Hl2 Hlen2.
  assert (Hm1 : VideoUnreliable.DATAGRAM_HEADER_SIZE < max < VideoUnreliable.DATAGRAM_HEADER_SIZE + 2 ^ 16)
    by (unfold VideoUnreliable.DATAGRAM_HEADER_SIZE; lia).
  assert (Hm2 : Z.of_nat VideoUnreliableFec.DATAGRAM_HEADER_SIZE < max < 0x10000) by (unfold VideoUnreliableFec.DATAGRAM_HEADER_SIZE; lia).
  destruct (VideoEndToEnd.send_all_at e1 max Hm1 l1 [] (be_bytes 2 e1) 0 0 Hl1 ltac:(lia) ltac:(lia) ltac:(lia) ltac:(lia)) as (k1 & g1 & Hs1).
  destruct (fec_send_all_at e2 max Hm2 l2 [] (be_bytes 2 e2) 0 0 Hl2 ltac:(lia) ltac:(lia) ltac:(lia) ltac:(lia)) as (k2 & g2 & Hs2).
  do 8 eexists. split; [exact Hs1|]. split; [exact Hs2|]. cbn [app]. intros w c1 c2 Hw Hcar. split; intros stream stats acts s obs Hc Hst He Hdg.
  - destruct (channel_inputs _ w c1 e1 _ _ Hw Hcar Hc ltac:(left)) as [H1 H2].
    destruct (session_received e1 max l1 stream stats acts s obs) as (? & ? & _); eauto.
  - destruct (channel_inputs _ w c2 e2 _ _ Hw Hcar Hc ltac:(right; left)) as [H1 H2].
    destruct (fec_session_received e2 max l2 stream stats acts s obs) as (? & ? & _); eauto.
Qed.
End Sessions.

(** ** A sample: both sessions through one router *)

Definition shared_wire1 : bytes * list bytes :=
  let d := (VideoEndToEnd.send_all sample_session (VideoUnreliable.send_start (open_channel 5 34 []) (opened 5))).1 in
  (w_out (VideoUnreliable.stream d), datagrams_sent (VideoUnreliable.ky_channel d)).
Definition shared_wire2 : bytes * list bytes :=
  let d := (VideoFecEndToEnd.send_all (H := systematic) fec_sample_session (VideoUnreliableFec.send_start (open_channel 6 34 []) (opened 6))).1 in
  (w_out (VideoUnreliableFec.stream d), datagrams_sent (VideoUnreliableFec.ky_channel d)).

(** The steps of the sample, as functions *)
Definition do_register (e : Z) (w : World) : World :=
  match register e (router w) with
  | (r, Ok c) => {| router := r; held := <[c := e]> (held w); arrivals := arrivals w; since := <[c := length (arrivals w)]> (since w);
                    received := <[c := []]> (received w); accepted := accepted w; streams := <[c := []]> (streams w) |}
  | _ => w
  end.
Definition do_stream (s : Reader) (c : nat) (w : World) : World :=
  let w := with_streams (accepted w ++ [s]) (streams w) (with_router (accept_uni s (router w)) w) in
  let w := with_router (default (router w) (complete_uni (router w))) w in
  match recv_ unistreams on_uni c (router w) with
  | Some (x, r) => with_streams (accepted w) (<[c := streams w c ++ [x]]> (streams w)) (with_router r w)
  | None => w
  end.
Definition do_datagram (d : bytes) (c : nat) (w : World) : World :=
  let w := {| router := recv_datagram d (router w); held := held w; arrivals := arrivals w ++ [d]; since := since w; received := received w;
              accepted := accepted w; streams := streams w |} in
  let w := with_router (default (router w) (complete_datagram (router w))) w in
  match recv_ datagrams on_datagrams c (router w) with
  | Some (x, r) => {| router := r; held := held w; arrivals := arrivals w; since := since w; received := <[c := received w c ++ [x]]> (received w);
                      accepted := accepted w; streams := streams w |}
  | None => w
  end.

(** The datagrams of both sessions arrive in turn. *)
Definition shared_world : World :=
  let w := do_register 6 (do_register 5 world_start) in
  let w := do_stream {| rd_chunks := [shared_wire2.1]; rd_fail := None |} 1 (do_stream {| rd_chunks := [shared_wire1.1]; rd_fail := None |} 0 w) in
  foldl (λ w d, do_datagram d.2 1 (do_datagram d.1 0 w)) w (zip shared_wire1.2 shared_wire2.2).

Example shared_world_routes :
  ((rd_data <$> streams shared_world 0%nat, rd_data <$> streams shared_world 1%nat) = ([drop 2 shared_wire1.1], [drop 2 shared_wire2.1])) ∧
  received shared_world 0%nat = take (length (received shared_world 1%nat)) shared_wire1.2 ∧
  received shared_world 1%nat = take (length (received shared_world 0%nat)) shared_wire2.2 ∧ length (received shared_world 0%nat) = 2%nat.
Proof. vm_compute. split_and!; reflexivity. Qed.

Lemma do_register_steps e w : rtc world_step w (do_register e w).
Proof. unfold do_register. destruct (register e (router w)) as [r [c|err|]] eqn:Hr; [|done..]. by apply rtc_once, w_register. Qed.

Lemma do_stream_steps s c e w : accept_uni_task (router w) = Accepting → held w !! c = Some e → rtc world_step w (do_stream s c w).
Proof.
  intros Ha Hh. unfold do_stream. cbv zeta. eapply rtc_l; [by apply (w_uni w s)|].
  set (w1 := with_streams _ _ _). assert (Hh1 : held w1 !! c = Some e) by done. clearbody w1.
  assert (H2 : rtc world_step w1 (with_router (default (router w1) (complete_uni (router w1))) w1)).
  { destruct (complete_uni (router w1)) as [r|] eqn:Hr; [by apply rtc_once, w_complete_uni|]. cbn. by destruct w1. }
  etrans; [exact H2|]. set (w2 := with_router _ w1). assert (Hh2 : held w2 !! c = Some e) by done. clearbody w2.
  destruct (recv_ unistreams on_uni c (router w2)) as [[x r]|] eqn:Hr; [|done]. apply rtc_once. by eapply w_recv_uni.
Qed.

Lemma do_datagram_steps d c e w : recv_datagrams_task (router w) = Accepting → held w !! c = Some e → rtc world_step w (do_datagram d c w).
Proof.
  intros Ha Hh. unfold do_datagram. cbv zeta. eapply rtc_l; [by apply (w_datagram w d)|].
  match goal with |- rtc _ ?x _ => set (w1 := x) end. assert (Hh1 : held w1 !! c = Some e) by done. clearbody w1.
  assert (H2 : rtc world_step w1 (with_router (default (router w1) (complete_datagram (router w1))) w1)).
  { destruct (complete_datagram (router w1)) as [r|] eqn:Hr; [by apply rtc_once, w_complete_datagram|]. cbn. by destruct w1. }
  etrans; [exact H2|]. set (w2 := with_router _ w1). assert (Hh2 : held w2 !! c = Some e) by done. clearbody w2.
  destruct (recv_ datagrams on_datagrams c (router w2)) as [[x r]|] eqn:Hr; [|done]. apply rtc_once. by eapply w_recv.
Qed.

Lemma shared_world_reachable : rtc world_step world_start shared_world.
Proof.
  unfold shared_world. cbv zeta.
  assert (Hz : zip shared_wire1.2 shared_wire2.2 = [(shared_wire1.2 !!! 0%nat, shared_wire2.2 !!! 0%nat); (shared_wire1.2 !!! 1%nat, shared_wire2.2 !!! 1%nat)])
    by (vm_compute; reflexivity).
  rewrite Hz. cbn [foldl fst snd].
  do 2 (etrans; [|eapply (do_datagram_steps _ 1 6); vm_compute; reflexivity]; etrans; [|eapply (do_datagram_steps _ 0 5); vm_compute; reflexivity]).
  etrans; [|eapply (do_stream_steps _ 1 6); vm_compute; reflexivity]. etrans; [|eapply (do_stream_steps _ 0 5); vm_compute; reflexivity].
  etrans; [|apply (do_register_steps 6)]. apply (do_register_steps 5).
Qed.

Lemma shared_world_carried : carried [(5, shared_wire1.2, shared_wire1.1); (6, shared_wire2.2, shared_wire2.1)] shared_world.
Proof.
  assert (H5 : Forall (λ d, take 2 d = be_bytes 2 5 ∧ d ∈ shared_wire1.2 ∨ take 2 d = be_bytes 2 6 ∧ d ∈ shared_wire2.2) (arrivals shared_world)).
  { apply (bool_decide_unpack _). vm_compute. exact I. }
  assert (Hs : accepted shared_world = [{| rd_chunks := [shared_wire1.1]; rd_fail := None |}; {| rd_chunks := [shared_wire2.1]; rd_fail := None |}])
    by (vm_compute; reflexivity).
  assert (Hn : ∀ e d, take 2 d = be_bytes 2 e → names e d) by (intros e d He; exists (drop 2 d); by rewrite <- He, take_drop).
  split.
  - clear Hs. revert H5. generalize (arrivals shared_world) as arr. generalize shared_wire1 as wire1, shared_wire2 as wire2. intros wire1 wire2 arr H5 d Hd.
    rewrite List.Forall_forall in H5. apply list_elem_of_In in Hd. destruct (H5 d Hd) as [[Ht Hin]|[Ht Hin]]; [exists 5|exists 6]; (split; [done|split; [by apply Hn|]]);
      intros sent wire Hw; rewrite !elem_of_cons in Hw; by destruct Hw as [[= -> ->]|[[= -> ->]|?%not_elem_of_nil]].
  - assert (W1 : shared_wire1.1 = be_bytes 2 5 ++ drop 2 shared_wire1.1) by (vm_compute; reflexivity).
    assert (W2 : shared_wire2.1 = be_bytes 2 6 ++ drop 2 shared_wire2.1) by (vm_compute; reflexivity).
    intros s. rewrite Hs. clear Hs H5 Hn. revert W1 W2. generalize shared_wire1 as wire1, shared_wire2 as wire2. intros wire1 wire2 W1 W2.
    assert (Hd : ∀ b, rd_data {| rd_chunks := [b]; rd_fail := None |} = b) by (intros b; apply app_nil_r).
    rewrite !elem_of_cons. intros [->|[->|?%not_elem_of_nil]]; [| |done]; rewrite Hd;
      [exists 5, (drop 2 wire1.1); rewrite <- W1|exists 6, (drop 2 wire2.1); rewrite <- W2]; (split; [done|]; split; [done|]);
      intros sent wire Hw; rewrite !elem_of_cons in Hw; by destruct Hw as [[= -> ->]|[[= -> ->]|?%not_elem_of_nil]].
Qed.

Lemma video_sessions_share_connection_witness :
  ∃ sent1 wire1 k1 g1 sent2 wire2 k2 g2,
    VideoEndToEnd.send_all sample_session (VideoUnreliable.send_start (open_channel 5 34 []) (opened 5)) =
      (VideoEndToEnd.driver_at 5 34 sent1 wire1 k1 g1, Ok tt) ∧
    VideoFecEndToEnd.send_all fec_sample_session (VideoUnreliableFec.send_start (open_channel 6 34 []) (opened 6)) =
      (VideoFecEndToEnd.driver_at 6 34 sent2 wire2 k2 g2, Ok tt) ∧
    rtc world_step world_start shared_world ∧ carried [(5, sent1, wire1); (6, sent2, wire2)] shared_world ∧
    ∀ stats acts s obs, exec acts (video_start {| rd_chunks := [drop 2 wire1]; rd_fail := None |} stats) = Some (s, obs) →
      (∀ b, b ∈ datagrams_read obs → b ∈ received shared_world 0%nat) →
      omap media_of (ReceiveTasks.received obs) `sublist_of` omap media_of sample_session.
Proof.
  destruct (video_sessions_share_connection 5 6 34 sample_session fec_sample_session) as (sent1 & wire1 & k1 & g1 & sent2 & wire2 & k2 & g2 & H1 & H2 & H3);
    [done|done|done|apply sample_sendable|by vm_compute|apply fec_sample_sendable|by vm_compute|].
  assert (E1 : shared_wire1 = (wire1, sent1)) by (unfold shared_wire1; by rewrite H1).
  assert (E2 : shared_wire2 = (wire2, sent2)) by (unfold shared_wire2; by rewrite H2).
  pose proof shared_world_carried as Hc. rewrite E1, E2 in Hc. cbn [fst snd] in Hc.
  exists sent1, wire1, k1, g1, sent2, wire2, k2, g2. split; [exact H1|]. split; [exact H2|]. split; [exact shared_world_reachable|]. split; [exact Hc|].
  intros stats acts s obs He Hdg. destruct (H3 shared_world 0%nat 1%nat shared_world_reachable Hc) as [HA _].
  eapply HA; [| |exact He|exact Hdg].
  - eexists. split; vm_compute; reflexivity.
  - assert (Hst : streams shared_world 0%nat = [{| rd_chunks := [drop 2 shared_wire1.1]; rd_fail := None |}]) by (vm_compute; reflexivity).
    rewrite Hst, E1. by left.
Defined.
