(* ===== verification/AudioReceive.v ===== *)
(** * The receiving driver of unreliable audio

    [AudioUnreliableProtocolRecvDriver] of [audio_unreliable.rs] as an instance
    of the pipeline of [ReceiveTasks]: the guarantees of the loop of [process]
    become guarantees on what the client of the whole driver receives. *)

From stdpp Require Import prelude list strings.
From Stdlib Require Import ZArith Lia.
From S2P Require Import Prelude SortedVec Sequencer Io Av Packets Channel Reassembly Router ReceiveTasks AudioUnreliable AudioOrder.
Open Scope Z_scope.

(** ** The instance *)

#[export] Instance audio_driver : ReceiveDriver RecvMsg Event Process (Instant * Instant) := {
  msg_read := recv_stream_packet;
  msg_parse := AudioUnreliable.recv_datagram;
  ev_msg := EvMsg;
  ev_err := None;
  ev_end := EvEnd;
  ev_deadline := EvDeadline;
  round t ev := step t.1 t.2 ev;
  wakes t s := match deadline s with Some d => d <=? t.2 | None => false end;
  sent s := snd <$> client s;
}.

(** [AudioUnreliableProtocolRecvDriver::start], once its stream is accepted *)
Definition audio_start (stream : Reader) (stats : ProtocolStats) : Pipeline (Event:=Event) (State:=Process) :=
  start stream (process_init stats).

Lemma audio_send_client_grows p : grows client (λ _, True) (send_client p).
Proof. intros s. unfold send_client. destruct (client_open s); (split; [|done]); [by apply prefix_app_r|done]. Qed.

Lemma audio_unroll_grows k : grows client (λ _, True) (unroll k).
Proof. intros s. unfold unroll. by destruct (seq _ _ k). Qed.

Lemma audio_update_grows f : grows client (λ _, True) (update_group f).
Proof. intros s. unfold update_group. by destruct (f _). Qed.

#[local] Hint Resolve audio_send_client_grows audio_unroll_grows audio_update_grows : grow.

Lemma audio_fill_gap_grows k : grows client (λ _, True) (fill_gap k).
Proof. unfold fill_gap. grow. Qed.
#[local] Hint Resolve audio_fill_gap_grows : grow.

Lemma audio_take_step_grows now : grows client (λ _, True) (take_step now).
Proof.
  intros s. unfold take_step. destruct (take_next_packet _ _ _) as [[[k packet|i|] g]|e|]; try done.
  match goal with |- context [(?m ≫= ?f) ?s0] => assert (Hg : grows client (λ _, True) (m ≫= f)) by grow; destruct (Hg s0) end.
  done.
Qed.
#[local] Hint Resolve audio_take_step_grows : grow.


Lemma audio_handle_event_grows now ev : grows client (λ fl, fl = Return → ev = EvEnd) (handle_event now ev).
Proof.
  destruct ev as [[m|m]| |]; cbn [handle_event]; [destruct (sm_packet m)|..]; grow.
Qed.

Lemma audio_step_grows now1 now2 ev : grows client (λ b, b = false → ev = EvEnd) (step now1 now2 ev).
Proof.
  intros s. pose proof (audio_handle_event_grows now1 ev s) as [H1 H2]. unfold step. run_handler.
  destruct (handle_event now1 ev s) as [s1 [fl|e|]]; cbn in *; [|by split|by split].
  destruct fl; cbn; [|split; [done|by intros ? [= <-]]|split; [done|intros ? _ _; by apply (H2 Return)]].
  pose proof (audio_take_step_grows now2 s1) as [H3 _]. destruct (take_step now2 s1) as [s2 [[]|e|]]; cbn in *; (split; [by etrans|]); by intros ? [= <-].
Qed.

#[export] Instance audio_driver_laws : ReceiveDriverLaws audio_driver.
Proof.
  split; try done.
  - intros t ev s. cbn. destruct (audio_step_grows t.1 t.2 ev s) as [[k Hk] _]. rewrite Hk, fmap_app. by apply prefix_app_r.
  - intros t ev s Hr. by eapply (proj2 (audio_step_grows t.1 t.2 ev s)).
Qed.

(** ** The whole driver *)

(** The rounds of the pipeline are a run of [process]. *)
Lemma audio_run_rounds_run evs s : run evs s = ((run_rounds evs s).1, (λ _, tt) <$> (run_rounds evs s).2).
Proof.
  revert s. induction evs as [|[[now1 now2] ev] evs IH]; intros s; cbn [run run_rounds]; [done|].
  cbn [round audio_driver fst snd]. run_handler. destruct (step now1 now2 ev s) as [s1 [[]|e|]]; [apply IH|done..].
Qed.

(** The whole audio driver, for an honest sender: whatever the network, the
    tasks, the clock and the client do, the packets that [recv] has returned,
    with their numbers, are the beginning of an exact playback: packets in
    sequence and every gap announced by one hole of exactly the missing samples. *)
Theorem audio_driver_playback c stream stats acts s obs :
  0 ≤ c → exec acts (audio_start stream stats) = Some (s, obs) → honest c 0 false false (rounds obs) →
  ∃ items pb, received obs = snd <$> items ∧ play_all playback_start items = Some pb.
Proof.
  intros Hc He Hh. destruct (driver_inv _ _ _ _ _ He) as [_ _ (r & Hrun & _) (rest & Hsent & _) _ _ _ _].
  pose proof (audio_run_rounds_run (rounds obs) (process_init stats)) as Hr. rewrite Hrun in Hr. cbn [fst snd] in Hr.
  destruct (audio_run_inv _ _ _ _ _ _ _ _ _ (audio_process_init_inv c stats Hc) Hh Hr) as (nk & co & cf & [_ _ _ _ _ _ _ _ Hplay _ _]).
  cbn [sent audio_driver process_init client fmap list_fmap app] in Hsent.
  exists (take (length (received obs)) (client (process_state s))).
  assert (Hr1 : received obs = snd <$> take (length (received obs)) (client (process_state s))).
  { rewrite fmap_take, Hsent. by rewrite take_app_length. }
  rewrite <- (take_drop (length (received obs)) (client (process_state s))), play_all_app in Hplay.
  destruct (play_all playback_start (take (length (received obs)) (client (process_state s)))) as [pb|]; [|done]. by exists pb.
Qed.

(** ** A sample *)

(** The codec, the config and two packets, the first of which is lost *)
Definition sample_sent : SendDriver :=
  let send_all := foldr (λ p k, _ ← send p; k) (mret tt) in
  (send_all [Codec {| codec_header := {| codec := 7; rotation := 0; Av.frame_size := 960 |} |};
             Media {| header := {| is_config := true; is_key := false; pts := 0; size := 0 |}; payload := [] |};
             Media {| header := {| is_config := false; is_key := false; pts := 1; size := 1 |}; payload := [1] |};
             Media {| header := {| is_config := false; is_key := false; pts := 2; size := 1 |}; payload := [2] |}]
     (send_start (open_channel 5 100 []) (open_writer []))).1.

Definition sample_stream : Reader := {| rd_chunks := [w_out (stream sample_sent)]; rd_fail := None |}.

Definition sample_actions : list (ReceiveTasks.Action (Time:=Instant * Instant)) :=
  concat (replicate 2 [ReadStream; PushStream; Round (1, 1) false; Deliver; Recv]) ++
  concat ((λ b, [GotDatagram (inr b); PushDatagram; Round (2, 2) false]) <$> drop 1 (datagrams_sent (ky_channel sample_sent))) ++
  [Round (20000, 20000) true; Deliver; Deliver; Recv; Recv].

Definition sample_run : option (Pipeline * list Obs) := exec sample_actions (audio_start sample_stream stats_default).

Definition sample_rounds : list (Instant * Instant * Event) :=
  Eval vm_compute in default [] (option_map (λ r, rounds (snd r)) sample_run).

Example audio_sample_received :
  option_map (λ r, (λ p, match p with Hole h => missing_audio_samples (hole_header h) | _ => 0 end) <$> received (snd r)) sample_run = Some [0; 0; 960; 0].
Proof. by vm_compute. Qed.

Lemma audio_driver_playback_witness :
  ∃ s obs, exec sample_actions (audio_start sample_stream stats_default) = Some (s, obs) ∧
    ∃ items pb, received obs = snd <$> items ∧ play_all playback_start items = Some pb.
Proof.
  destruct (exec_result (λ r, rounds (snd r)) sample_actions (audio_start sample_stream stats_default) sample_rounds) as (s & obs & He & Hr); [by vm_compute|].
  exists s, obs. split; [exact He|].
  apply (audio_driver_playback 0 sample_stream stats_default sample_actions s obs); [lia|exact He|]. cbn [snd] in Hr. rewrite Hr.
  unfold sample_rounds. cbn [honest sm_packet].
  split; [vm_compute; intuition congruence|]. do 2 (split; [done|]). split; [vm_compute; intuition congruence|].
  exists 2. split; [lia|]. split; [vm_compute; intuition congruence|done].
Defined.
