(* ===== verification/AudioSession.v ===== *)
(** * The content of an audio session

    [AudioOrder] follows the numbers of the packets and the timeline; this file
    follows their content.  For the messages of a sender that sent the packets of
    a session, in whatever order they arrive, with whatever loss and duplication,
    [process] neither fails nor panics and every numbered packet it forwards is
    the packet of the session with that number, intact. *)

From stdpp Require Import prelude list strings.
From Stdlib Require Import ZArith Lia.
From S2P Require Import Prelude SortedVec Sequencer Io Av Packets Channel Router ReceiveTasks Reassembly VideoOrder VideoSession AudioUnreliable AudioOrder AudioReceive.
Open Scope Z_scope.

Section Session.
Context {SE : Session} {SO : SessionOk}.

(** The messages of the session *)
Definition genuine (ev : Event) : Prop :=
  match ev with
  | EvMsg (RStream m) =>
      match sm_packet m with
      | Codec _ => True
      | Media p => is_sent (sm_raw_kypacket_seq m) p ∧ is_config (header p) = true
      | Hole _ => False
      end
  | EvMsg (RDatagram m) =>
      ∃ p i, is_sent (dm_raw_kypacket_seq m) p ∧ is_config (header p) = false ∧
             segments_of (dm_raw_kypacket_seq m) !! i = Some (dm_data m) ∧ dm_number m = Z.of_nat i ∧
             dm_end m = bool_decide (i + 1 = length (segments_of (dm_raw_kypacket_seq m)))%nat
  | _ => True
  end.

Definition codec_event (ev : Event) : option CodecPacket :=
  match ev with EvMsg (RStream m) => codec_of (sm_packet m) | _ => None end.

(** What the client is given: numbered packets of the session, codecs and holes *)
Definition audio_item (e : option Z * AVPacket) : Prop :=
  match e with
  | (Some k, p) => ∃ m, is_sent k m ∧ p = Media m
  | (None, Media _) => False
  | (None, _) => True
  end.

Record audio_content (codecs : list CodecPacket) (s : Process) : Prop := {
  ac_seq : newest (kypacket_sequencer s);
  ac_pending : pending_content (pending (pending_group s));
  ac_config : config_content (config_packet (pending_group s));
  ac_client : Forall audio_item (client s);
  ac_codecs : omap codec_of (snd <$> client s) = codecs;
}.

Lemma audio_content_init stats : audio_content [] (process_init stats).
Proof. split; [by exists 0|split; intros x Hx; by apply not_elem_of_nil in Hx|done|constructor|done]. Qed.

Lemma audio_unroll_content cod k s :
  audio_content cod s → 0 ≤ k < 2 ^ 31 →
  ∃ q, unroll k s = (set_sequencer q s, Ok k) ∧ audio_content cod (set_sequencer q s).
Proof.
  intros [H1 H2 H3 H4 H5] Hk. destruct (seq_newest _ _ H1 Hk) as (q & Hq & Hn). exists q. unfold unroll. rewrite Hq. split; [done|]. by split.
Qed.

Lemma audio_take_content now next g a g' :
  pending_content (pending g) → config_content (config_packet g) → take_next_packet (E:=ProtocolError) now next g = Ok (a, g') →
  pending_content (pending g') ∧ config_content (config_packet g') ∧
  match a with APacket k packet => ∃ m, is_sent k m ∧ packet = Media m | _ => True end.
Proof.
  intros HP HC. unfold take_next_packet. destruct (next_packet now next g) as [|b|t]; [by intros [= <- <-]| |by intros [= <- <-]].
  destruct (config_packet g) as [|p|] eqn:Hp; [done|..]; destruct b; cbn; try done; [intros [= <- <-]; split_and!; [exact HP|exact I|exact HC]|..];
    (destruct (datagrams (pending g)) as [|d ds] eqn:Hds; [done|]; intros [= <- <-]; destruct HP as [HP1 HP2]; rewrite Hds in HP1;
     split_and!; [|done|apply HP1; by left]; split; cbn; [intros x Hx; apply HP1; by right|intros x Hx%elem_of_drop; by apply HP2]).
Qed.

Lemma client_snoc cod s e s' :
  audio_content cod s → audio_item e → kypacket_sequencer s' = kypacket_sequencer s → pending_group s' = pending_group s →
  client s' = client s ++ [e] → audio_content (cod ++ option_list (codec_of e.2)) s'.
Proof.
  intros [H1 H2 H3 H4 H5] He Hq Hg Hc. split; rewrite ?Hq, ?Hg, ?Hc; try done.
  - apply Forall_app. split; [done|]. by repeat constructor.
  - rewrite fmap_app, omap_app, H5. cbn. by destruct (codec_of e.2).
Qed.

(** ** [process] *)

Context (c : Z).

Lemma audio_take_step_content d0 nk codec cfg cod now s s' r :
  process_inv c d0 nk codec cfg s → audio_content cod s → take_step now s = (s', r) → r = Ok tt ∧ audio_content cod s'.
Proof.
  intros [_ Hwf Hm Hn Hc _ Hco Hf _ _ Ho] HA. unfold take_step.
  destruct (audio_take_next_packet_inv c now (next_kypacket_seq s) (pending_group s) Hwf Hm Hc) as (a & g' & Ht & Hg). rewrite Ht.
  pose proof HA as [A1 A2 A3 A4 A5]. destruct (audio_take_content _ _ _ _ _ A2 A3 Ht) as (B2 & B3 & Ha).
  destruct a as [k p|d|]; [|by intros [= <- <-]..]. destruct Ha as (m & Hm' & ->). destruct Hg as (_ & _ & Hcn & _).
  destruct (Hf (Hco Hcn)) as (f & Hfs & _). run_handler. cbn [frame_size set_group]. rewrite Hfs, bool_decide_true by done. cbn [rassert].
  assert (HA' : audio_content cod (set_group g' s)) by by split.
  assert (Hend : ∀ s0, audio_content cod s0 → audio_content cod (set_deadline None (push_client (Some k, Media m) (set_next (k + 1) s0)))).
  { intros s0 H0. rewrite <- (app_nil_r cod). eapply (client_snoc cod s0 (Some k, Media m)); [exact H0|by exists m|done..]. }
  unfold fill_gap; run_handler. cbn [next_kypacket_seq set_group]. destruct (next_kypacket_seq s <? k).
  - cbn [frame_size set_stats set_group protocol_stats]. rewrite Hfs. cbn [expect]. unfold send_client.
    cbn [client_open set_stats set_group set_next push_client]. rewrite Ho. cbn [client_open set_next push_client set_stats set_group]. rewrite Ho.
    intros [= <- <-]. split; [done|]. apply Hend.
    rewrite <- (app_nil_r cod). eapply (client_snoc cod (set_group g' s) (None, Hole _)); [exact HA'|done..].
  - unfold send_client. cbn [mret handler_ret client_open set_next set_group]. rewrite Ho. intros [= <- <-]. split; [done|]. by apply Hend.
Qed.

Lemma audio_handle_content d0 nk codec cfg cod t now ev rest s s' r :
  process_inv c d0 nk codec cfg s → honest c nk codec cfg ((t, ev) :: rest) → genuine ev → audio_content cod s →
  handle_event now ev s = (s', r) → (∃ fl, r = Ok fl) ∧ audio_content (cod ++ option_list (codec_event ev)) s'.
Proof.
  intros Hinv Hh Hgen HA. destruct t as [t1 t2]. destruct ev as [[m|m]| |]; cbn [honest handle_event genuine codec_event] in *; rewrite ?app_nil_r.
  - destruct (sm_packet m) as [p|p|p] eqn:Hpk; [| |done].
    + destruct Hh as [Hfs _]. unfold send_client; run_handler. destruct (Z.ltb_spec 0 (Av.frame_size (codec_header p))); [|lia].
      cbn [rassert client_open set_frame_size]. rewrite (pi_open _ _ _ _ _ _ Hinv). intros [= <- <-]. split; [by eexists|].
      eapply (client_snoc cod s (None, Codec p)); [exact HA|done..].
    + cbn [codec_of option_list]. rewrite app_nil_r. destruct Hgen as [Hs Hc], Hh as (-> & -> & _ & _).
      destruct (audio_unroll_content _ _ _ HA (is_sent_bound _ _ Hs)) as (q & Hu & HA1). pose proof (pi_cfg _ _ _ _ _ _ Hinv eq_refl) as Hnone.
      rewrite (handler_bind_eq _ _ _ _ _ Hu), (handler_bind_eq (getM next_kypacket_seq) _ (set_sequencer q s) (set_sequencer q s) (next_kypacket_seq s) eq_refl). cbn [set_sequencer next_kypacket_seq].
      destruct (_ <=? _); [|intros [= <- <-]; split; [by eexists|done]]. unfold update_group, insert_stream_packet; run_handler.
      cbn [set_sequencer pending_group]. rewrite Hnone. cbn. intros [= <- <-]. split; [by eexists|].
      destruct HA1 as [H1 H2 H3 H4 H5]. split; try done. cbn. by exists p.
  - destruct Hgen as (p & i & Hs & Hc & Hseg & Hnum & Hend). destruct (audio_unroll_content _ _ _ HA (is_sent_bound _ _ Hs)) as (q & Hu & HA1).
    rewrite (handler_bind_eq _ _ _ _ _ Hu), (handler_bind_eq (getM next_kypacket_seq) _ (set_sequencer q s) (set_sequencer q s) (next_kypacket_seq s) eq_refl).
    destruct (_ <? _); [intros [= <- <-]; split; [by eexists|done]|]. unfold update_group, group_insert_datagram; run_handler.
    destruct HA1 as [H1 H2 H3 H4 H5]. rewrite Hnum, Nat2Z.id, Hend.
    destruct (insert_datagram_content (E:=ProtocolError) now _ p i (dm_data m) _ (pi_wf _ _ _ _ _ _ Hinv) H2 Hs Hc Hseg) as (pd & Hpd & HC).
    cbn [set_sequencer pending_group] in *. rewrite Hpd. cbn. intros [= <- <-]. split; [by eexists|]. by split.
  - intros [= <- <-]. split; [by eexists|done].
  - intros [= <- <-]. split; [by eexists|done].
Qed.

(** A run of the rounds of the driver *)
Lemma rounds_audio d0 nk codec cfg cod evs s s' r :
  process_inv c d0 nk codec cfg s → honest c nk codec cfg evs → Forall genuine (snd <$> evs) → audio_content cod s →
  run_rounds (D := audio_driver) evs s = (s', r) →
  (∃ b, r = Ok b) ∧ (∃ nk' codec' cfg', process_inv c d0 nk' codec' cfg' s') ∧
  ∃ cod', audio_content (cod ++ cod') s' ∧ cod' `prefix_of` omap codec_event (snd <$> evs).
Proof.
  revert nk codec cfg cod s. induction evs as [|[[now1 now2] ev] evs IH]; intros nk codec cfg cod s Hinv Hh Hgen HA; cbn [run_rounds].
  { intros [= <- <-]. split; [by eexists|]. split; [eauto|]. exists []. by rewrite app_nil_r. }
  cbn in Hgen. apply Forall_cons in Hgen as [Hg Hgen]. cbn [round audio_driver fst snd]. unfold step. run_handler.
  destruct (handle_event now1 ev s) as [s1 r1] eqn:H1.
  destruct (audio_handle_content _ _ _ _ _ _ _ _ _ _ _ _ Hinv Hh Hg HA H1) as [(fl & ->) HA1].
  destruct (audio_handle_event_inv c _ _ _ _ _ _ _ _ _ _ _ _ Hinv Hh H1) as (nk1 & co1 & cf1 & Hinv1 & Hh1).
  assert (Hcod : omap codec_event (snd <$> (((now1, now2), ev) :: evs)) = option_list (codec_event ev) ++ omap codec_event (snd <$> evs)).
  { cbn. by destruct (codec_event ev). }
  rewrite Hcod.
  assert (Hgo : ∀ s2, process_inv c d0 nk1 co1 cf1 s2 → audio_content (cod ++ option_list (codec_event ev)) s2 → run_rounds (D := audio_driver) evs s2 = (s', r) →
    (∃ b, r = Ok b) ∧ (∃ nk' codec' cfg', process_inv c d0 nk' codec' cfg' s') ∧
    ∃ cod', audio_content (cod ++ cod') s' ∧ cod' `prefix_of` option_list (codec_event ev) ++ omap codec_event (snd <$> evs)).
  { intros s2 Hi2 HA2 Hr. destruct (IH _ _ _ _ _ Hi2 Hh1 Hgen HA2 Hr) as (Hb & Hi & cod2 & HA3 & Hp). split; [done|]. split; [done|].
    exists (option_list (codec_event ev) ++ cod2). rewrite app_assoc. split; [done|]. by apply prefix_app. }
  destruct fl; cbn [mret handler_ret].
  - destruct (take_step now2 s1) as [s2 r2] eqn:H2. destruct (audio_take_step_content _ _ _ _ _ _ _ _ _ Hinv1 HA1 H2) as [-> HA2].
    pose proof (audio_take_step_inv c _ _ _ _ _ _ _ _ Hinv1 H2) as Hinv2. by apply Hgo.
  - by apply Hgo.
  - intros [= <- <-]. split; [by eexists|]. split; [eauto|]. exists (option_list (codec_event ev)). split; [done|]. by apply prefix_app_r.
Qed.
End Session.
