(* ===== verification/AudioEndToEnd.v ===== *)
(** * Unreliable audio from end to end

    What [AudioUnreliableProtocolSendDriver::send] puts on the stream and in
    datagrams for a whole session, read by the tasks of the receiving driver:
    whatever the network does to the datagrams, however much of the stream gets
    through and however the tasks are scheduled, the client receives an exact
    playback of the session, with its own packets at their places. *)

From stdpp Require Import prelude list strings.
From Stdlib Require Import ZArith Lia.
From S2P Require Import Prelude SortedVec Sequencer Io Av Packets Channel Router ReceiveTasks StreamSession Reassembly VideoTransfer VideoOrder VideoSession VideoEndToEnd AudioUnreliable AudioOrder AudioReceive AudioSession.
Open Scope Z_scope.

(** ** The datagrams of a packet *)

Fixpoint audio_wire (self : SendDriver) (number : Z) (cs : list bytes) : list bytes :=
  match cs with
  | [] => []
  | c :: cs => datagram_bytes self (number_and_end number (bool_decide (cs = []))) c :: audio_wire self (number + 1) cs
  end.

(** The driver on a connection that does not fail *)
Definition driver_at (id max : Z) (sent : list bytes) (out : bytes) (k : Z) : SendDriver :=
  {| ky_channel := open_channel id max sent; stream := open_writer out; kypacket_seq := k |}.

Lemma audio_wire_at id max sent out k number cs : audio_wire (driver_at id max sent out k) number cs = audio_wire (driver_at id max [] [] k) number cs.
Proof. revert number. induction cs as [|c cs IH]; intros number; [done|]. cbn [audio_wire]. by rewrite IH. Qed.

Lemma audio_send_loop_open fuel m data offset number id max sent out k :
  (0 < m)%nat → Z.of_nat m < 2 ^ 16 → (length data ≤ fuel + offset)%nat → (offset ≤ length data)%nat →
  send_loop fuel m data offset number (driver_at id max sent out k) =
    (driver_at id max (sent ++ audio_wire (driver_at id max [] [] k) number (chunks fuel m (drop offset data))) out k, Ok tt).
Proof.
  intros Hm Hm16. revert offset number sent. induction fuel as [|fuel IH]; intros offset number sent Hf Ho; cbn [send_loop]; case_decide as Hlt.
  - lia.
  - rewrite drop_ge by lia. cbn. by rewrite app_nil_r.
  - destruct (chunks_step fuel m data offset Hm Hlt ltac:(lia)) as [-> Hlast]. set (ps := Nat.min m (length data - offset)) in *.
    assert (Hps : (0 < ps ≤ m)%nat ∧ (offset + ps ≤ length data)%nat) by (unfold ps; lia). clearbody ps.
    run_handler. rewrite (bool_decide_true (Z.of_nat ps < 2 ^ 16)) by lia. cbn [rassert]. unfold on_channel. cbn [ky_channel driver_at].
    rewrite send_datagram_open. change {| ky_channel := open_channel id max ?s; stream := _; kypacket_seq := _ |} with (driver_at id max s out k).
    rewrite IH by lia. cbn [audio_wire]. rewrite Hlast, <- app_assoc. done.
  - rewrite drop_ge by lia. cbn. by rewrite app_nil_r.
Qed.

Lemma audio_wire_lookup self cs number i c :
  cs !! i = Some c →
  audio_wire self number cs !! i = Some (datagram_bytes self (number_and_end (number + Z.of_nat i) (bool_decide (i + 1 = length cs)%nat)) c).
Proof.
  revert number i. induction cs as [|c0 cs IH]; intros number i Hc; [done|]. destruct i as [|i].
  - injection Hc as <-. cbn [audio_wire lookup list_lookup]. rewrite Z.add_0_r. do 3 f_equal. apply bool_decide_ext.
    destruct cs; cbn; split; try done; lia.
  - cbn [audio_wire]. change (audio_wire self (number + 1) cs !! i = Some (datagram_bytes self (number_and_end (number + Z.of_nat (S i)) (bool_decide (S i + 1 = length (c0 :: cs))%nat)) c)).
    rewrite (IH (number + 1) i Hc). do 3 f_equal; [lia|]. apply bool_decide_ext. cbn. lia.
Qed.

Lemma audio_wire_length self number cs : length (audio_wire self number cs) = length cs.
Proof. revert number. induction cs as [|c cs IH]; intros number; cbn; [done|by rewrite IH]. Qed.

Lemma audio_recv_datagram_wire {E} self i last c :
  is_u32 (kypacket_seq self) → 0 ≤ i < 2 ^ 31 →
  AudioUnreliable.recv_datagram (E:=E) (datagram_bytes self (number_and_end i last) c) =
  Ok (RDatagram {| dm_data := c; dm_raw_kypacket_seq := kypacket_seq self; dm_number := i; dm_end := last |}).
Proof.
  intros Hk Hi. destruct (number_and_end_parts i last Hi) as (H1 & H2 & H3). set (v := number_and_end i last) in *.
  unfold AudioUnreliable.recv_datagram. assert (Hlen : (DATAGRAM_HEADER_SIZE <=? blen (datagram_bytes self v c)) = true).
  { apply Z.leb_le. unfold blen, datagram_bytes, write_datagram_header, DATAGRAM_HEADER_SIZE. rewrite !length_app, !be_bytes_length. lia. }
  rewrite Hlen. cbn [rassert mbind outcome_bind].
  change (slice 2 4 (datagram_bytes self v c)) with (be_bytes 4 (kypacket_seq self)).
  change (slice 6 4 (datagram_bytes self v c)) with (be_bytes 4 v).
  change (drop 10 (datagram_bytes self v c)) with c. rewrite !read_be_be4 by done. by rewrite H2, H3.
Qed.

(** ** The sender *)

Fixpoint send_all (l : list AVPacket) : handler SendDriver ProtocolError unit :=
  match l with
  | [] => mret tt
  | p :: l => _ ← send p; send_all l
  end.

(** The messages of the stream, for a session that goes on from packet [k] *)
Fixpoint stream_messages (k : Z) (l : list AVPacket) : list StreamMsg :=
  match l with
  | [] => []
  | Media p :: l =>
      if is_config (header p) then {| sm_packet := Media p; sm_raw_kypacket_seq := k |} :: stream_messages (k + 1) l
      else stream_messages (k + 1) l
  | p :: l => {| sm_packet := p; sm_raw_kypacket_seq := 0 |} :: stream_messages k l
  end.

Definition message_bytes (m : StreamMsg) : bytes := be_bytes 4 (sm_raw_kypacket_seq m) ++ av_image (sm_packet m).

Definition stream_bytes (ms : list StreamMsg) : bytes := concat (message_bytes <$> ms).

(** The segments of a packet: those of video with datagrams larger by the four
    bytes that its header takes more *)
Definition audio_segments (max : Z) (p : MediaPacket) : list bytes := packet_segments (max + 4) p.

Fixpoint session_datagrams (id max k : Z) (l : list AVPacket) : list bytes :=
  match l with
  | [] => []
  | Media p :: l =>
      if is_config (header p) then session_datagrams id max (k + 1) l
      else audio_wire (driver_at id max [] [] k) 0 (audio_segments max p) ++ session_datagrams id max (k + 1) l
  | _ :: l => session_datagrams id max k l
  end.

(** What may be sent: codecs with a frame size, and media packets that fit in [2^31] segments *)
Definition sendable (p : AVPacket) : Prop :=
  wf_av p ∧ match p with Media m => blen (payload m) ≤ 2 ^ 31 - 12 | Codec h => 0 < Av.frame_size (codec_header h) < 2 ^ 16 | Hole _ => False end.

(** A session has a codec, then its config, then the other media packets; codecs may follow anywhere. *)
Fixpoint in_shape (codec cfg : bool) (l : list AVPacket) : Prop :=
  match l with
  | [] => True
  | Media p :: l => if is_config (header p) then codec = true ∧ cfg = false ∧ in_shape codec true l else cfg = true ∧ in_shape codec cfg l
  | _ :: l => in_shape true cfg l
  end.

Section Sender.
Context (id max : Z) (Hmax : DATAGRAM_HEADER_SIZE < max < DATAGRAM_HEADER_SIZE + 2 ^ 16).

Lemma audio_send_media_at p sent out k :
  wf_media (header p) → is_config (header p) = false → 0 ≤ k < 2 ^ 31 →
  send (Media p) (driver_at id max sent out k) =
    (driver_at id max (sent ++ audio_wire (driver_at id max [] [] k) 0 (audio_segments max p)) out (k + 1), Ok tt).
Proof.
  intros Hwf Hc Hk. unfold send. rewrite Hc. unfold send_datagrams, DATAGRAM_HEADER_SIZE in *. run_handler.
  cbn [ky_channel driver_at open_channel max_datagram_size ok_or]. destruct (Z.ltb_spec 10 max); [|lia]. cbn [rassert].
  rewrite (media_serialize_eq _ Hwf). fold (media_image p).
  change {| ky_channel := open_channel id max sent; stream := open_writer out; kypacket_seq := k |} with (driver_at id max sent out k).
  rewrite audio_send_loop_open by (done || lia). unfold audio_segments, packet_segments, VideoUnreliable.DATAGRAM_HEADER_SIZE.
  replace (max + 4 - 14) with (max - 10) by lia. rewrite drop_0. unfold modifyM, set_seq, wrap32. cbn [driver_at kypacket_seq stream ky_channel].
  by rewrite Z.mod_small by lia.
Qed.

Lemma audio_send_config_at p sent out k :
  wf_media (header p) → is_config (header p) = true → 0 ≤ k < 2 ^ 31 →
  send (Media p) (driver_at id max sent out k) =
    (driver_at id max sent (out ++ message_bytes {| sm_packet := Media p; sm_raw_kypacket_seq := k |}) (k + 1), Ok tt).
Proof.
  intros Hwf Hc Hk. unfold send. rewrite Hc. run_handler. unfold set_seq. rewrite (media_serialize_eq _ Hwf). unfold on_stream.
  cbn [driver_at kypacket_seq stream ky_channel]. rewrite write_all_open. cbn -[be_bytes Z.add]. unfold wrap32. rewrite Z.mod_small by lia.
  unfold message_bytes, driver_at. cbn [sm_packet sm_raw_kypacket_seq av_image]. by rewrite <- !app_assoc.
Qed.

Lemma audio_send_all_at l sent out k :
  Forall sendable l → 0 ≤ k → k + Z.of_nat (length l) < 2 ^ 31 →
  ∃ k', send_all l (driver_at id max sent out k) =
    (driver_at id max (sent ++ session_datagrams id max k l) (out ++ stream_bytes (stream_messages k l)) k', Ok tt).
Proof.
  intros Hl. revert sent out k. induction Hl as [|p l [Hwf Hp] Hl IH]; intros sent out k Hk Hkl; cbn [send_all].
  { exists k. unfold stream_bytes. cbn. by rewrite !app_nil_r. }
  cbn [length] in Hkl. destruct p as [c|p|h]; [| |done].
  - assert (Hs : send (Codec c) (driver_at id max sent out k) = (driver_at id max sent (out ++ be_bytes 4 0 ++ codec_image (codec_header c)) k, Ok tt)).
    { unfold send. run_handler. by rewrite codec_serialize_eq. }
    rewrite (handler_bind_eq _ _ _ _ _ Hs). destruct (IH sent (out ++ be_bytes 4 0 ++ codec_image (codec_header c)) k ltac:(lia) ltac:(lia)) as (k' & ->).
    exists k'. unfold stream_bytes. cbn [session_datagrams stream_messages fmap list_fmap concat]. by rewrite <- app_assoc.
  - destruct Hwf as [Hwf _]. cbn [session_datagrams stream_messages]. destruct (is_config (header p)) eqn:Hc.
    + rewrite (handler_bind_eq _ _ _ _ _ (audio_send_config_at p sent out k Hwf Hc ltac:(lia))).
      match goal with |- context [send_all l (driver_at _ _ ?s ?o ?k1)] => destruct (IH s o k1 ltac:(lia) ltac:(lia)) as (k' & ->) end.
      exists k'. unfold stream_bytes. cbn [fmap list_fmap concat]. by rewrite <- app_assoc.
    + rewrite (handler_bind_eq _ _ _ _ _ (audio_send_media_at p sent out k Hwf Hc ltac:(lia))).
      match goal with |- context [send_all l (driver_at _ _ ?s ?o ?k1)] => destruct (IH s o k1 ltac:(lia) ltac:(lia)) as (k' & ->) end.
      exists k'. by rewrite <- app_assoc.
Qed.
End Sender.

(** ** The stream *)

Definition image (m : RecvMsg) : bytes := match m with RStream m => message_bytes m | RDatagram _ => [] end.
Definition wf_image (m : RecvMsg) : Prop :=
  match m with RStream m => wf_av (sm_packet m) ∧ is_u32 (sm_raw_kypacket_seq m) | RDatagram _ => False end.

#[export] Instance audio_codec : StreamCodec audio_driver image wf_image.
Proof.
  split.
  - intros [m|m] r rest Hm Hd; [|done]. destruct Hm as [Hwf Hk]. cbn [image] in Hd. unfold message_bytes in Hd. rewrite <- app_assoc in Hd.
    cbn [msg_read audio_driver]. unfold recv_stream_packet. destruct (read_exact_app 4 r _ _ Hd) as (r1 & -> & Hd1 & _); [by rewrite be_bytes_length|].
    cbn [map_err mbind outcome_bind]. destruct (av_read_ok _ _ _ Hwf Hd1) as (r2 & -> & Hd2 & _). cbn [map_err mbind outcome_bind ok_or].
    rewrite read_be_be4 by done. exists r2. by destruct m.
  - intros r m r' R extra Hr HR. cbn [msg_read audio_driver] in *. unfold recv_stream_packet in *.
    destruct (read_exact 4 r) as [[seqs r1]|e|] eqn:H1; try done.
    destruct (read_exact_extend _ _ _ _ _ _ H1 HR) as (R1 & -> & HR1). cbn [map_err mbind outcome_bind] in *.
    destruct (av_read r1) as [[[p|] r2]|e|] eqn:H2; try done. destruct (av_read_extend _ _ _ _ _ H2 HR1) as (R2 & -> & HR2).
    cbn [map_err mbind outcome_bind ok_or] in *. injection Hr as <- <-. by eexists.
  - intros r m r' Hd Hr. cbn in Hr. unfold recv_stream_packet in Hr. rewrite read_exact_short in Hr by (rewrite Hd; cbn; lia). done.
Qed.

Lemma audio_stream_bytes_image ms : stream_bytes ms = concat (image <$> (RStream <$> ms)).
Proof. unfold stream_bytes. by rewrite <- list_fmap_compose. Qed.

Lemma audio_stream_messages_wf k l :
  Forall sendable l → 0 ≤ k → k + Z.of_nat (length l) < 2 ^ 31 → Forall wf_image (RStream <$> stream_messages k l).
Proof.
  intros Hl. revert k. induction Hl as [|p l [Hwf Hp] Hl IH]; intros k Hk Hkl; [constructor|]. cbn [length] in *.
  destruct p as [c|p|h]; [| |done]; cbn [stream_messages].
  - constructor; [done|]. apply IH; lia.
  - destruct (is_config (header p)); [constructor; [split; [done|unfold is_u32; cbn; lia]|]|]; apply IH; lia.
Qed.

Lemma audio_stream_messages_codecs k l :
  Forall sendable l → omap codec_event (EvMsg <$> (RStream <$> stream_messages k l)) = omap codec_of l.
Proof.
  intros Hl. revert k. induction Hl as [|p l [_ Hp] Hl IH]; intros k; [done|]. destruct p as [c|p|h]; [| |done].
  - cbn. by rewrite IH.
  - cbn [stream_messages]. destruct (is_config (header p)); cbn; apply IH.
Qed.

(** ** The messages of the sender are those of a session *)

Lemma sendable_video l : Forall sendable l → Forall VideoEndToEnd.sendable l.
Proof. intros Hl. eapply Forall_impl; [exact Hl|]. intros [] [Hwf Hp]; by split. Qed.

Section Messages.
Context (endpoint max : Z) (Hmax : DATAGRAM_HEADER_SIZE < max < DATAGRAM_HEADER_SIZE + 2 ^ 16).
Context (l : list AVPacket) (Hl : Forall sendable l) (Hlen : Z.of_nat (length l) < 2 ^ 31).
#[local] Instance audio_session : Session := sender_session (max + 4) l Hlen.

Lemma audio_session_ok : SessionOk.
Proof. apply sender_session_ok; [unfold DATAGRAM_HEADER_SIZE, VideoUnreliable.DATAGRAM_HEADER_SIZE in *; lia|by apply sendable_video]. Qed.

Lemma audio_stream_genuine l1 l2 : l = l1 ++ l2 →
  Forall (λ m, genuine (EvMsg (RStream m))) (stream_messages (number_after l1) l2).
Proof.
  revert l1. induction l2 as [|p l2 IH]; intros l1 Heq; [constructor|].
  pose proof (IH (l1 ++ [p]) ltac:(by rewrite <- app_assoc)) as IH1. rewrite number_snoc in IH1.
  assert (Hp : sendable p) by (rewrite Forall_forall in Hl; apply Hl; rewrite Heq; apply elem_of_app; right; left).
  destruct p as [c|p|h]; [| |by destruct Hp]; cbn [media_of stream_messages] in *.
  - rewrite Z.add_0_r in IH1. by constructor.
  - destruct (sent_after (max + 4) l Hlen _ _ _ Heq) as [Hs _]. destruct (is_config (header p)) eqn:Hc; [|done]. constructor; [|done]. by split.
Qed.

Lemma audio_datagrams_genuine l1 l2 b : l = l1 ++ l2 → b ∈ session_datagrams endpoint max (number_after l1) l2 →
  ∃ m, AudioUnreliable.recv_datagram (E:=ProtocolError) b = Ok (RDatagram m) ∧ genuine (EvMsg (RDatagram m)).
Proof.
  revert l1. induction l2 as [|p l2 IH]; intros l1 Heq Hb; [by apply not_elem_of_nil in Hb|].
  specialize (IH (l1 ++ [p]) ltac:(by rewrite <- app_assoc)). rewrite number_snoc in IH.
  assert (Hp : sendable p) by (rewrite Forall_forall in Hl; apply Hl; rewrite Heq; apply elem_of_app; right; left).
  destruct p as [c|p|h]; cbn [session_datagrams media_of] in *; [by rewrite Z.add_0_r in IH; auto| |by destruct Hp].
  destruct (is_config (header p)) eqn:Hc; [by auto|]. apply elem_of_app in Hb as [Hb|Hb]; [|by auto].
  destruct (sent_after (max + 4) l Hlen _ _ _ Heq) as [Hs _]. apply list_elem_of_lookup in Hb as [i Hi].
  assert (Hil : (i < length (audio_segments max p))%nat) by (erewrite <- audio_wire_length; by eapply lookup_lt_Some).
  destruct (lookup_lt_is_Some_2 (audio_segments max p) i Hil) as [c Hci]. rewrite (audio_wire_lookup _ _ 0 i c Hci) in Hi. injection Hi as <-.
  assert (Hsegs : (length (audio_segments max p) ≤ length (media_image p))%nat) by apply chunks_length.
  rewrite media_image_length in Hsegs. destruct Hp as [_ Hpl]. unfold blen in Hpl. pose proof (is_sent_bound _ _ Hs) as Hb1.
  eexists. split; [rewrite Z.add_0_l; apply audio_recv_datagram_wire; unfold is_u32; cbn; lia|].
  cbn [genuine dm_raw_kypacket_seq dm_data dm_number dm_end driver_at kypacket_seq]. exists p, i.
  assert (Hseg : segments_of (number_after l1) = audio_segments max p) by exact (segments_of_sent (max + 4) l Hlen _ _ Hs).
  rewrite Hseg. by split_and!.
Qed.

(** The first packet of the session is its config. *)
Lemma first_is_config codec l' p : in_shape codec false l' → omap media_of l' !! 0%nat = Some p → is_config (header p) = true.
Proof.
  revert codec. induction l' as [|[c|q|h] l' IH]; intros codec Hs; [done|by apply (IH true)| |by apply (IH true)].
  cbn in Hs. destruct (is_config (header q)) eqn:Hc; [|by destruct Hs]. by intros [= <-].
Qed.

Lemma datagram_after_config m : in_shape false false l → genuine (EvMsg (RDatagram m)) → 0 < dm_raw_kypacket_seq m < 2 ^ 31.
Proof.
  intros Hs (p & i & Hp & Hc & _). pose proof (is_sent_bound _ _ Hp) as Hb. destruct (decide (dm_raw_kypacket_seq m = 0)) as [H0|]; [|lia].
  destruct Hp as [_ Hp]. rewrite H0 in Hp. cbn in Hp. by rewrite (first_is_config _ _ _ Hs Hp) in Hc.
Qed.
End Messages.

(** ** Honest sessions *)

Definition stream_of (ev : Event) : option StreamMsg := match ev with EvMsg (RStream m) => Some m | _ => None end.

(** The stream: a codec first, one config, the packet number zero *)
Fixpoint stream_ok (codec cfg : bool) (ms : list StreamMsg) : Prop :=
  match ms with
  | [] => True
  | m :: ms =>
      match sm_packet m with
      | Codec p => 0 < Av.frame_size (codec_header p) < 2 ^ 16 ∧ stream_ok true cfg ms
      | _ => codec = true ∧ cfg = false ∧ sm_raw_kypacket_seq m = 0 ∧ stream_ok codec true ms
      end
  end.

Lemma stream_messages_ok codec cfg k l : Forall sendable l → in_shape codec cfg l → (cfg = false → k = 0) → stream_ok codec cfg (stream_messages k l).
Proof.
  intros Hl. revert codec cfg k. induction Hl as [|p l [_ Hp] Hl IH]; intros codec cfg k Hs Hk; [done|].
  destruct p as [c|p|h]; [| |done]; cbn [stream_messages in_shape stream_ok sm_packet] in *.
  - split; [done|]. by apply IH.
  - destruct (is_config (header p)).
    + destruct Hs as (-> & -> & Hs). cbn [stream_ok sm_packet sm_raw_kypacket_seq]. rewrite (Hk eq_refl). split_and!; [done..|]. by apply IH.
    + destruct Hs as (-> & Hs). by apply IH.
Qed.

Lemma honest_session nk codec cfg evs ms :
  0 ≤ nk < 2 ^ 31 → omap stream_of (snd <$> evs) `prefix_of` ms → stream_ok codec cfg ms →
  Forall (λ ev, match ev with EvMsg (RDatagram m) => 0 < dm_raw_kypacket_seq m < 2 ^ 31 | _ => True end) (snd <$> evs) →
  honest 0 nk codec cfg evs.
Proof.
  revert nk codec cfg ms. induction evs as [|[[t1 t2] ev] evs IH]; intros nk codec cfg ms Hnk Hpre Hok Hdg; [done|].
  cbn in Hdg. apply Forall_cons in Hdg as [Hd Hdg].
  assert (Hst : ∀ k, 0 ≤ k < 2 ^ 31 → stamped nk k k).
  { intros k Hk. unfold stamped. change (range SeqU32) with (2 ^ 32). change (half_range SeqU32) with (2 ^ 31). rewrite Z.mod_small by lia. lia. }
  destruct ev as [[m|m]| |]; cbn [honest snd] in *; [| |by eapply IH..].
  - cbn in Hpre. destruct ms as [|m' ms]; [by destruct Hpre as [? [=]]|]. destruct Hpre as [t Ht]. injection Ht as -> Ht.
    cbn [stream_ok] in Hok. destruct (sm_packet m) as [p|p|p]; [destruct Hok as [Hf Hok]; split; [done|]; eapply IH; [done|by exists t|done|done]|..];
      (destruct Hok as (-> & -> & Hr & Hok); split_and!; [done|done|rewrite Hr; apply Hst; lia|]; eapply IH; [lia|by exists t|done|done]).
  - exists (dm_raw_kypacket_seq m). split_and!; [lia|apply Hst; lia|]. eapply IH; [lia|exact Hpre|done|done].
Qed.

(** ** The driver *)

(** The messages taken by [process] in a run whose stream and datagrams come from the sender *)
Lemma audio_taken_of_sender endpoint max l stream stats acts s obs :
  DATAGRAM_HEADER_SIZE < max < DATAGRAM_HEADER_SIZE + 2 ^ 16 → ∀ (Hl : Forall sendable l) (Hlen : Z.of_nat (length l) < 2 ^ 31),
  rd_data stream `prefix_of` stream_bytes (stream_messages 0 l) →
  exec acts (audio_start stream stats) = Some (s, obs) →
  (∀ b, b ∈ datagrams_read obs → b ∈ session_datagrams endpoint max 0 l) →
  (∀ ev, ev ∈ taken obs → genuine (SE := audio_session max l Hlen) ev) ∧
  omap stream_of (taken obs) `prefix_of` stream_messages 0 l ∧
  omap codec_event (taken obs) `prefix_of` omap codec_of l.
Proof.
  intros Hmax Hl Hlen Hpre He Hdg. rewrite audio_stream_bytes_image in Hpre.
  pose proof (audio_stream_genuine max l Hl Hlen [] l eq_refl) as Hgs.
  set (P := λ m, ∃ d, m = RDatagram d ∧ genuine (SE := audio_session max l Hlen) (EvMsg m)).
  pose proof (audio_stream_messages_wf 0 l Hl ltac:(lia) ltac:(lia)) as Hwf.
  destruct (taken_session (D := audio_driver) image wf_image _ P Hwf _ _ _ _ _ Hpre He) as [Hin Hord].
  { intros b Hb. destruct (audio_datagrams_genuine endpoint max l Hl Hlen [] l b eq_refl (Hdg b Hb)) as (m & Hm & Hg).
    exists (RDatagram m). split; [done|]. by exists m. }
  split_and!.
  - intros ev Hev. destruct (Hin ev Hev) as [(m & Hm & ->)|[(m & (d & -> & Hg) & ->)|(err & e & Herr & _)]]; [|done|done].
    apply list_elem_of_fmap in Hm as (m' & -> & Hm). rewrite Forall_forall in Hgs. by apply Hgs.
  - assert (Heq : omap stream_of (EvMsg <$> (RStream <$> stream_messages 0 l)) = stream_messages 0 l).
    { clear. induction (stream_messages 0 l) as [|m ms IH]; [done|]. cbn. by f_equal. }
    rewrite <- Heq. apply (Hord _ stream_of); [by intros m (d & -> & _)|done].
  - rewrite <- (audio_stream_messages_codecs 0 l Hl). apply (Hord _ codec_event); [by intros m (d & -> & _)|done].
Qed.

(** A numbered item is the packet of the session with that number. *)
Definition placed (l : list AVPacket) (item : option Z * AVPacket) : Prop :=
  match item with
  | (Some k, p) => 0 ≤ k ∧ ∃ m, omap media_of l !! Z.to_nat k = Some m ∧ p = Media m
  | (None, Media _) => False
  | (None, _) => True
  end.

(** C4: unreliable audio from end to end.  The sender sends any session of a
    codec, a config and media packets; the network delivers any part of the
    stream and any of the datagrams, in any order and any number of times; the
    tasks of the receiver, the clock and the client are scheduled in any way.
    Then what [recv] returns is the beginning of an exact playback of the session:
    its packets, intact, at their own places on the timeline, every gap announced
    by one hole of exactly the missing samples, and its first codecs, in order;
    [process] neither panics nor fails. *)
Theorem audio_session_end_to_end endpoint max l :
  DATAGRAM_HEADER_SIZE < max < DATAGRAM_HEADER_SIZE + 2 ^ 16 → Forall sendable l → in_shape false false l → Z.of_nat (length l) < 2 ^ 31 →
  ∃ sent wire k,
    send_all l (send_start (open_channel endpoint max []) (open_writer [])) = (driver_at endpoint max sent wire k, Ok tt) ∧
    ∀ stream stats acts s obs,
      rd_data stream `prefix_of` wire → exec acts (audio_start stream stats) = Some (s, obs) →
      (∀ b, b ∈ datagrams_read obs → b ∈ sent) →
      (∃ items pb, received obs = snd <$> items ∧ play_all playback_start items = Some pb ∧ Forall (placed l) items) ∧
      omap codec_of (received obs) `prefix_of` omap codec_of l ∧
      ∃ b, (run_rounds (rounds obs) (process_init stats)).2 = Ok b.
Proof.
  intros Hmax Hl Hs Hlen. destruct (audio_send_all_at endpoint max Hmax l [] [] 0 Hl ltac:(lia) ltac:(lia)) as (k & Hsend).
  exists (session_datagrams endpoint max 0 l), (stream_bytes (stream_messages 0 l)), k. split; [exact Hsend|].
  intros stream stats acts s obs Hpre He Hdg.
  destruct (audio_taken_of_sender endpoint max l stream stats acts s obs Hmax Hl Hlen Hpre He Hdg) as (Hgen & Hst & Hcd).
  pose proof (rounds_of_taken (D := audio_driver) obs) as Hin.
  pose proof (rounds_omap (D := audio_driver) codec_event obs eq_refl eq_refl) as Hfc.
  pose proof (rounds_omap (D := audio_driver) stream_of obs eq_refl eq_refl) as Hfs.
  destruct (driver_inv _ _ _ _ _ He) as [_ _ (r & Hrun & _) (rest & Hsent & _) _ _ _ _].
  pose (SS := audio_session max l Hlen). pose proof (audio_session_ok max Hmax l Hl Hlen) as SO.
  assert (Hall : Forall (genuine (SE := SS)) (snd <$> rounds obs)).
  { apply Forall_forall. intros ev Hev. destruct (Hin ev Hev) as [Ht|[->| ->]]; [by apply Hgen|done|done]. }
  assert (Hh : honest 0 0 false false (rounds obs)).
  { eapply honest_session; [lia|rewrite Hfs; exact Hst|by apply stream_messages_ok|]. eapply Forall_impl; [exact Hall|].
    intros [[m|m]| |] Hg; try done. by eapply (datagram_after_config max l Hlen). }
  destruct (rounds_audio (SE := SS) 0 _ _ _ _ _ _ _ _ _ (audio_process_init_inv 0 stats ltac:(lia)) Hh Hall (audio_content_init stats) Hrun)
    as (Hb & (nk & co & cf & Hinv) & cod & HA & Hcod).
  pose proof (pi_play _ _ _ _ _ _ Hinv) as Hplay. destruct HA as [_ _ _ Hcl Hcods]. cbn [app] in Hcods.
  cbn [ReceiveTasks.sent audio_driver process_init client fmap list_fmap app] in Hsent. split_and!.
  - exists (take (length (received obs)) (client (process_state s))).
    assert (Hr1 : received obs = snd <$> take (length (received obs)) (client (process_state s))) by (rewrite fmap_take, Hsent; by rewrite take_app_length).
    rewrite <- (take_drop (length (received obs)) (client (process_state s))), play_all_app in Hplay.
    destruct (play_all playback_start (take (length (received obs)) (client (process_state s)))) as [pb|]; [|done]. exists pb. split_and!; [done|done|].
    apply Forall_take. eapply Forall_impl; [exact Hcl|]. intros [[i|] p]; [|done]. intros (m & [Hi Hm] & ->). split; [done|]. by exists m.
  - etrans; [|exact Hcd]. rewrite <- Hfc. etrans; [|exact Hcod]. rewrite <- Hcods, Hsent, omap_app. by apply prefix_app_r.
  - rewrite Hrun. exact Hb.
Qed.

(** ** A sample: the first media packet is lost *)

Definition audio_sample : list AVPacket :=
  [Codec {| codec_header := {| codec := 7; rotation := 0; Av.frame_size := 960 |} |};
   Media {| header := {| is_config := true; is_key := false; pts := 0; size := 0 |}; payload := [] |};
   Media {| header := {| is_config := false; is_key := false; pts := 1; size := 1 |}; payload := [1] |};
   Media {| header := {| is_config := false; is_key := false; pts := 2; size := 1 |}; payload := [2] |}].

Lemma audio_sample_sendable : Forall sendable audio_sample.
Proof. repeat constructor; vm_compute; intuition congruence. Qed.

Lemma audio_session_end_to_end_witness :
  ∃ sent wire k,
    send_all audio_sample (send_start (open_channel 5 100 []) (open_writer [])) = (driver_at 5 100 sent wire k, Ok tt) ∧
    ∀ stream stats acts s obs,
      rd_data stream `prefix_of` wire → exec acts (audio_start stream stats) = Some (s, obs) →
      (∀ b, b ∈ datagrams_read obs → b ∈ sent) →
      (∃ items pb, received obs = snd <$> items ∧ play_all playback_start items = Some pb ∧ Forall (placed audio_sample) items) ∧
      omap codec_of (received obs) `prefix_of` omap codec_of audio_sample ∧
      ∃ b, (run_rounds (rounds obs) (process_init stats)).2 = Ok b.
Proof.
  apply (audio_session_end_to_end 5 100 audio_sample); [by vm_compute|apply audio_sample_sendable|by vm_compute|by vm_compute].
Defined.
