(* ===== verification/AudioFecSession.v ===== *)
(** * The content of an audio session with error correction

    For the messages of a sender that sent the packets of a session, in whatever
    order the datagrams arrive, with whatever loss and duplication: what
    [process] forwards is an exact playback of the session.  Every numbered packet
    is the packet of the session with that number, intact, and every gap is
    announced by one hole of exactly the missing samples. *)

From stdpp Require Import prelude list gmap strings.
From Stdlib Require Import ZArith Lia.
From S2P Require Import Prelude SortedVec Sequencer Io Av Packets Channel Reassembly Fec SystematicCode FecSafety VideoOrder VideoSession FecTransfer AudioOrder AudioSession VideoUnreliableFec AudioFecSafety Router ReceiveTasks AudioUnreliableFec AudioFecReceive.
Open Scope Z_scope.

(** ** Objects of a session *)

Section Objects.
Context `{RQ : RaptorQ} (max : Z).

Definition audio_oti (p : MediaPacket) : Oti := encoder_config (media_image p) (max - Z.of_nat DATAGRAM_HEADER_SIZE).
Definition audio_repair (p : MediaPacket) : Z := repair_symbols (div_ceil (blen (media_image p)) (symbol_size (audio_oti p))).
Definition audio_packets (p : MediaPacket) : list (PayloadId * bytes) :=
  get_encoded_packets (media_image p) (audio_oti p) (audio_repair p).

(** The packets are well formed, the receiver accepts the parameters of their
    objects, and the first one is the config. *)
Class AudioFecSessionOk {SE : Session} : Prop := {
  audio_packets_wf k p : is_sent k p → wf_media (header p) ∧ size (header p) = blen (payload p);
  audio_objects_wf k p : is_sent k p → is_config (header p) = false →
    blen (media_image p) < 2 ^ 40 ∧ Z.of_nat DATAGRAM_HEADER_SIZE < max ∧ validate_oti (audio_oti p) MAX_AUDIO_PAYLOAD = Ok tt;
  audio_config_first k p : is_sent k p → is_config (header p) = true ↔ k = 0;
}.
End Objects.

Section Session.
Context `{RL : RaptorQLaws} {SE : Session} (max : Z) {SO : AudioFecSessionOk max}.

(** ** What the receiver holds *)

Definition media_sent (k : Z) (p : MediaPacket) : Prop := is_sent k p ∧ is_config (header p) = false.

Lemma media_sent_positive k p : media_sent k p → 0 < k < 2 ^ 31.
Proof.
  intros [Hs Hc]. pose proof (is_sent_bound _ _ Hs). destruct (decide (k = 0)) as [Hz|]; [|lia].
  by rewrite (proj2 (audio_config_first max k p Hs) Hz) in Hc.
Qed.

Lemma media_sent_unique k p q : media_sent k p → media_sent k q → p = q.
Proof. intros [[_ Hp] _] [[_ Hq] _]. congruence. Qed.

Lemma audio_object_params k p :
  media_sent k p → transfer_length (audio_oti max p) = blen (media_image p) ∧ rfc_valid (audio_oti max p).
Proof.
  intros [Hs Hc]. destruct (audio_objects_wf max k p Hs Hc) as (Hlen & Hmax & Hv). split.
  - apply encoder_config_spec; [|lia]. split; [|done]. unfold media_image, blen. rewrite !length_app, !be_bytes_length. lia.
  - by destruct (validate_oti_acceptable _ _ _ Hv) as (_ & Hr & _).
Qed.

Definition decoder_content (k : Z) (d : ObjectDecoder) : Prop :=
  ∃ p d0 fed, media_sent k p ∧ Decoder_new (audio_oti max p) = Ok d0 ∧
    fed_with (media_image p) (audio_oti max p) (audio_repair max p) d0 fed d.

Record group_content (next : Z) (g : PendingGroup) : Prop := {
  gc_segments s : s ∈ ag_segments g → next ≤ as_seq s ∧ decoder_content (as_seq s) (as_decoder s);
  gc_datagrams d : d ∈ ag_datagrams g → next ≤ ad_seq d ∧ ∃ p, media_sent (ad_seq d) p ∧ ad_packet d = Media p;
  gc_disjoint d s : d ∈ ag_datagrams g → s ∈ ag_segments g → ad_seq d ≠ as_seq s;
}.

(** Nothing is taken before the config, which is the first packet. *)
Definition config_ready (next : Z) (c : ConfigPacket) : Prop :=
  match c with
  | CfgNone => next = 0
  | CfgReady p => next = 0 ∧ st_seq p = 0 ∧ ∃ m, is_sent 0 m ∧ st_packet p = Media m
  | CfgSent => 0 < next
  end.

(** ** Insertions *)

Lemma audio_add_packet_content k p id data s s' :
  media_sent k p → (id, data) ∈ audio_packets max p → decoder_content k (as_decoder s) →
  add_packet (audio_oti max p) id data s = Ok s' →
  as_seq s' = as_seq s ∧ decoder_content k (as_decoder s') ∧ ∀ out, assembled s' = Some out → out = media_image p.
Proof.
  intros Hp Hin (q & d0 & fed & Hq & Hd0 & Hfed) Hadd. assert (q = p) as -> by by eapply media_sent_unique.
  destruct (audio_object_params k p Hp) as [Hlen Hrfc].
  unfold add_packet in Hadd. apply bind_Ok in Hadd as ([d' out] & Hdec & [= <-]). cbn.
  destruct (decode_fed _ _ _ _ Hlen Hrfc Hd0 _ _ _ _ _ _ Hfed Hin Hdec) as [(fed' & Hfed') Hout].
  split; [done|]. split; [|done]. exists p, d0, fed'. done.
Qed.

(** The segments that a symbol of packet [k] goes to *)
Lemma audio_prepare_content next k p g g1 i :
  group_ok g → group_content next g → media_sent k p → next ≤ k → Forall (λ d, ad_seq d ≠ k) (ag_datagrams g) →
  prepare_datagram_segments k (audio_oti max p) g = Ok (g1, i) →
  group_content next g1 ∧ ag_datagrams g1 = ag_datagrams g ∧ ag_config g1 = ag_config g.
Proof.
  intros [Hg _] [H1 H2 H3] Hp Hk Hn Hprep. unfold prepare_datagram_segments in Hprep.
  destruct (binary_search_cases as_seq k (ag_segments g) (wg_segments _ Hg)) as [(j & x & Hb & _)|[Hb _]]; rewrite Hb in Hprep; [by injection Hprep as <- <-|].
  apply bind_Ok in Hprep as ([] & _ & Hprep). apply bind_Ok in Hprep as ([] & _ & Hprep). apply bind_Ok in Hprep as (s & Hs & [= <- <-]).
  unfold DatagramSegments_new in Hs. apply bind_Ok in Hs as (d & Hd & [= <-]). split_and!; [|done|done].
  assert (Hin : ∀ x, x ∈ vec_insert (lower_bound as_seq k (ag_segments g)) {| as_seq := k; as_decoder := d; assembled := None |} (ag_segments g) →
    x = {| as_seq := k; as_decoder := d; assembled := None |} ∨ x ∈ ag_segments g).
  { intros x Hx. rewrite vec_insert_perm in Hx. by apply elem_of_cons in Hx. }
  split; cbn.
  - intros x [->|Hx]%Hin; [|by apply H1]. cbn. split; [done|].
    destruct (decoder_new_ok (audio_oti max p)) as (d0 & Hd0 & _); [by destruct (audio_object_params k p Hp)|].
    exists p, d0, []. split_and!; [done|done|]. by apply (fed_with_new _ _ _ _ Hd0 _ MAX_AUDIO_PAYLOAD).
  - exact H2.
  - intros x y Hx [->|Hy]%Hin; [|by apply H3]. cbn. rewrite Forall_forall in Hn. by apply Hn.
Qed.

Lemma audio_insert_datagram_content next now k p id data g g' :
  group_ok g → group_content next g → media_sent k p → next ≤ k → (id, data) ∈ audio_packets max p →
  insert_datagram now k (audio_oti max p) id data g = Ok g' → group_content next g' ∧ ag_config g' = ag_config g.
Proof.
  intros Hok HC Hp Hk Hin Hins. pose proof Hok as [Hg _]. unfold insert_datagram in Hins.
  destruct (binary_search_cases ad_seq k (ag_datagrams g) (wg_datagrams _ Hg)) as [(i & d & Hb & Hi & _)|[Hb Hn]]; rewrite Hb in Hins.
  { rewrite Hi in Hins. cbn in Hins. apply bind_Ok in Hins as ([] & _ & [= <-]). done. }
  pose proof (audio_prepare_spec k (audio_oti max p) g Hok) as Hspec.
  destruct (prepare_datagram_segments k (audio_oti max p) g) as [[g1 i]|e|] eqn:Hprep; [|done..]. cbn [mbind outcome_bind] in Hins.
  destruct Hspec as (s & _ & Hi & Hsk & Hso & _). destruct (audio_prepare_content _ _ _ _ _ _ Hok HC Hp Hk Hn Hprep) as ([H1 H2 H3] & Hd1 & Hc1).
  rewrite Hi in Hins. cbn [expect mbind outcome_bind] in Hins. destruct (H1 s) as [_ Hsc]; [by eapply list_elem_of_lookup_2|]. rewrite Hsk in Hsc.
  destruct (add_packet (audio_oti max p) id data s) as [s'|e|] eqn:Hadd; [|done..]. cbn [mbind outcome_bind] in Hins.
  destruct (audio_add_packet_content _ _ _ _ _ _ Hp Hin Hsc Hadd) as (Hsk' & Hsc' & Hout). rewrite Hsk in Hsk'.
  assert (HS : ∀ x, x ∈ <[i := s']> (ag_segments g1) → x = s' ∨ x ∈ ag_segments g1) by (intros x Hx; by eapply elem_of_replace).
  destruct (is_complete s') eqn:Hcomp.
  - apply bind_Ok in Hins as (dp & Hdp & [= <-]). unfold assemble in Hdp. apply bind_Ok in Hdp as (out & Hass & Hdp).
    destruct (assembled s') as [out'|] eqn:Ha; [|done]. injection Hass as ->. rewrite (Hout out eq_refl) in Hdp.
    destruct Hp as [Hs Hcf]. destruct (audio_packets_wf max k p Hs) as [Hwfm Hsz]. rewrite (media_packet_image p Hwfm Hcf Hsz) in Hdp. injection Hdp as <-.
    assert (Hdel : ∀ x, x ∈ delete i (ag_segments g1) → x ∈ ag_segments g1 ∧ as_seq x ≠ k).
    { intros x Hx. rewrite <- Hsk. by eapply elem_of_delete_neq. }
    unfold insert_datagram_packet. cbn [ad_seq with_segments ag_datagrams ag_segments]. rewrite delete_insert, Hsk', Hd1.
    destruct (binary_search_by_key ad_seq k (ag_datagrams g)) as [j|j] eqn:Hbs; [congruence|]. split; [|exact Hc1]. split; cbn.
    + intros x [Hx _]%Hdel. by apply H1.
    + intros x Hx. rewrite vec_insert_perm in Hx. apply elem_of_cons in Hx as [->|Hx]; [cbn; split; [done|by exists p]|]. apply H2. by rewrite Hd1.
    + intros x y Hx [Hy Hyk]%Hdel. rewrite vec_insert_perm in Hx. apply elem_of_cons in Hx as [->|Hx]; [cbn; congruence|]. apply H3; [by rewrite Hd1|done].
  - injection Hins as <-. split; [|exact Hc1]. split; cbn.
    + intros x [->|Hx]%HS; [by rewrite Hsk'|by apply H1].
    + exact H2.
    + intros x y Hx [->|Hy]%HS; [|by apply H3]. rewrite Hsk'. rewrite Hd1 in Hx. rewrite Forall_forall in Hn. by apply Hn.
Qed.

(** ** Taking packets *)

Lemma audio_fec_take_content next now g a g' :
  group_ok g → group_content next g → config_ready next (ag_config g) → take_next_packet now next g = Ok (a, g') →
  match a with
  | APacket k packet => next ≤ k < 2 ^ 31 ∧ ag_config g ≠ CfgNone ∧ ag_config g' = CfgSent ∧ group_content (k + 1) g' ∧ ∃ p, is_sent k p ∧ packet = Media p
  | _ => g' = g
  end.
Proof.
  intros [Hg _] [H1 H2 H3] Hc. unfold take_next_packet. destruct (next_packet now next g) as [|b|t] eqn:Hn; [by intros [= <- <-]| |by intros [= <- <-]].
  apply audio_fec_next_packet_ready in Hn as (Hcfg & -> & Hd). destruct (ag_config g) as [|p|] eqn:Hp; [done|..]; cbn.
  - destruct Hc as (-> & Hk & m & Hm & Hpk). intros [= <- <-]. rewrite Hk. split; [lia|]. split; [done|]. split; [done|]. split; [|by exists m].
    split; cbn; [intros s Hs|intros d Hd'|done].
    + destruct (H1 s Hs) as [_ (q & d0 & fed & Hq & Hr)]. pose proof (media_sent_positive _ _ Hq). split; [lia|]. by exists q, d0, fed.
    + destruct (H2 d Hd') as [_ (q & Hq & Hr)]. pose proof (media_sent_positive _ _ Hq). split; [lia|]. by exists q.
  - destruct (ag_datagrams g) as [|d ds] eqn:Hds; [by destruct (Hd eq_refl)|]. intros [= <- <-].
    destruct (H2 d) as [Hdn (q & Hq & Hdp)]; [by left|]. pose proof (media_sent_positive _ _ Hq) as Hpos.
    split; [lia|]. split; [done|]. split; [done|]. split; [|exists q; split; [apply Hq|done]].
    pose proof (wg_datagrams _ Hg) as Hso. rewrite Hds in Hso. apply sorted_cons in Hso as [_ Hlt]. rewrite Forall_forall in Hlt.
    pose proof (drop_lower_bound as_seq (ad_seq d) (ag_segments g) (wg_segments _ Hg)) as Hge. rewrite Forall_forall in Hge.
    unfold drop_expired_segments. cbn [ag_segments with_datagrams].
    destruct (binary_search_cases as_seq (ad_seq d) (ag_segments g) (wg_segments _ Hg)) as [(i & x & _ & Hx & Hk)|[-> Hne]].
    { exfalso. apply (H3 d x); [by left|by eapply list_elem_of_lookup_2|done]. }
    split; cbn.
    + intros s Hs. pose proof (elem_of_drop _ _ _ Hs) as Hs'. destruct (H1 s Hs') as [_ ?]. split; [|done].
      specialize (Hge s Hs). cbn in Hge. rewrite Forall_forall in Hne. specialize (Hne s Hs'). cbn in Hne. lia.
    + intros x Hx. destruct (H2 x) as [_ ?]; [by right|]. split; [|done]. specialize (Hlt x Hx). cbn in Hlt. lia.
    + intros x s Hx Hs%elem_of_drop. apply H3; [by right|done].
Qed.

(** ** [process] *)

(** The messages of the session *)
Definition genuine (ev : Event) : Prop :=
  match ev with
  | EvMsg (RStream m) =>
      match sm_packet m with
      | Codec p => Av.frame_size (codec_header p) ≠ 0
      | Media p => is_sent (sm_raw_kypacket_seq m) p ∧ is_config (header p) = true
      | Hole _ => False
      end
  | EvMsg (RDatagram m) =>
      ∃ p, media_sent (dm_raw_kypacket_seq m) p ∧ dm_oti m = audio_oti max p ∧ (dm_payload_id m, dm_data m) ∈ audio_packets max p
  | _ => True
  end.

Definition codec_event (ev : Event) : option CodecPacket :=
  match ev with EvMsg (RStream m) => codec_of (sm_packet m) | _ => None end.

(** A codec comes before any config. *)
Fixpoint codec_first (codec : bool) (evs : list Event) : Prop :=
  match evs with
  | [] => True
  | EvMsg (RStream m) :: evs =>
      match sm_packet m with Codec _ => codec_first true evs | _ => codec = true ∧ codec_first codec evs end
  | _ :: evs => codec_first codec evs
  end.

Record playback_inv (codecs : list CodecPacket) (codec : bool) (s : Process) : Prop := {
  fa_seq : newest (kypacket_sequencer s);
  fa_ok : process_ok s;
  fa_group : group_content (next_kypacket_seq s) (pending_group s);
  fa_next : 0 ≤ next_kypacket_seq s;
  fa_config : config_ready (next_kypacket_seq s) (ag_config (pending_group s));
  fa_codec : ag_config (pending_group s) ≠ CfgNone → codec = true;
  fa_frame : codec = true → is_Some (frame_size s);
  fa_play : play_all playback_start (client s) = Some {| pb_next := next_kypacket_seq s; pb_frame := frame_size s; pb_hole := None |};
  fa_client : Forall audio_item (client s);
  fa_codecs : omap codec_of (snd <$> client s) = codecs;
  fa_open : client_open s = true;
}.

Lemma playback_init stats : playback_inv [] false (process_init stats).
Proof.
  split; try done; [by exists 0|apply audio_process_init_ok|]. split; cbn; intros *; by rewrite ?elem_of_nil.
Qed.

Lemma audio_hole_exact missing f : hole_samples missing f = gap_samples missing f.
Proof. unfold hole_samples, gap_samples. lia. Qed.

Lemma audio_fec_unroll cod codec k s :
  playback_inv cod codec s → 0 ≤ k < 2 ^ 31 →
  ∃ q, unroll k s = (set_sequencer q s, Ok k) ∧ playback_inv cod codec (set_sequencer q s).
Proof.
  intros Hinv Hk. destruct (seq_newest _ _ (fa_seq _ _ _ Hinv) Hk) as (q & Hq & Hn). exists q. unfold unroll. rewrite Hq. split; [done|].
  destruct Hinv. by split.
Qed.

Lemma audio_fec_take_step cod codec now s s' r :
  playback_inv cod codec s → take_step now s = (s', r) → playback_inv cod codec s'.
Proof.
  intros [H1 H2 H3 H4 H5 H6 H7 H8 H9 H10 H11]. unfold take_step.
  destruct (audio_take_next_packet_spec now (next_kypacket_seq s) (pending_group s) H2) as (a & g & Ht & Ha). rewrite Ht.
  pose proof (audio_fec_take_content _ _ _ _ _ H2 H3 H5 Ht) as Hc. destruct a as [k packet|t|]; [|subst g; intros [= <- <-]; by split..].
  destruct Hc as (Hk & Hcn & Hsent & HC & p & Hp & ->), Ha as [Hok _]. specialize (H6 Hcn). destruct (H7 H6) as [f Hf].
  run_handler. cbn [frame_size set_group]. rewrite Hf. cbn [ok_or]. unfold fill_gap; run_handler. cbn [next_kypacket_seq set_group].
  destruct (Z.ltb_spec (next_kypacket_seq s) k) as [Hlt|Hge].
  - unfold send_client. cbn [client_open set_stats set_group set_next push_client protocol_stats]. rewrite H11. cbn. rewrite H11. intros [= <- <-].
    split; cbn; try done; [lia|rewrite Hsent; cbn; lia| | |].
    + rewrite <- app_assoc, play_all_app, H8. cbn [mbind option_bind app]. rewrite (play_hole_packet _ f); [by rewrite Hf|done|done|done|].
      cbn. apply audio_hole_exact.
    + rewrite !Forall_app. split; [split; [done|by repeat constructor]|]. repeat constructor. by exists p.
    + by rewrite !fmap_app, !omap_app, H10, !app_nil_r.
  - unfold send_client. cbn [mret handler_ret client_open set_next set_group]. rewrite H11. intros [= <- <-].
    assert (k = next_kypacket_seq s) as -> by lia. split; cbn; try done; [lia|rewrite Hsent; cbn; lia| | |].
    + rewrite play_all_app, H8. cbn [mbind option_bind]. rewrite (play_packet _ f); [by rewrite Hf|done|done|done].
    + rewrite Forall_app. split; [done|]. repeat constructor. by exists p.
    + by rewrite fmap_app, omap_app, H10, app_nil_r.
Qed.

Lemma audio_fec_drain cod codec fuel nows i s s' r :
  playback_inv cod codec s → drain_loop fuel nows i s = (s', r) → playback_inv cod codec s'.
Proof.
  revert i s. induction fuel as [|fuel IH]; intros i s Hinv; cbn [drain_loop]; [by intros [= <- <-]|].
  run_handler. destruct (take_step (nows i) s) as [s1 r1] eqn:Ht. pose proof (audio_fec_take_step _ _ _ _ _ _ Hinv Ht) as Hinv1.
  destruct r1 as [[]|e|]; [by apply IH|by intros [= <- <-]..].
Qed.

(** An update of the group that keeps its content and its config *)
Lemma audio_fec_update cod codec f s s' r :
  playback_inv cod codec s → keeps_ok (f (pending_group s)) →
  (∀ g, f (pending_group s) = Ok g → group_content (next_kypacket_seq s) g ∧ config_ready (next_kypacket_seq s) (ag_config g) ∧
     (ag_config g ≠ CfgNone → codec = true)) →
  update_group f s = (s', r) → playback_inv cod codec s'.
Proof.
  intros Hinv Hok Hf. unfold update_group. destruct (f (pending_group s)) as [g|e|] eqn:Hg; intros [= <- <-]; [|done..].
  destruct (Hf g eq_refl) as (G1 & G2 & G3). destruct Hinv. by split.
Qed.

Lemma audio_fec_stream cod k p s s' r :
  playback_inv cod true s → is_sent k p → is_config (header p) = true → next_kypacket_seq s ≤ k →
  update_group (insert_stream_packet k (Media p)) s = (s', r) → playback_inv cod true s'.
Proof.
  intros Hinv Hs Hc Hk. eapply audio_fec_update; [exact Hinv|by apply audio_insert_stream_packet_ok, Hinv|].
  intros g Hg. unfold insert_stream_packet in Hg. apply bind_Ok in Hg as ([] & Hn & Hg). apply bind_Ok in Hg as ([] & _ & [= <-]).
  pose proof (proj1 (audio_config_first max k p Hs) Hc) as ->. pose proof (fa_next _ _ _ Hinv). destruct Hinv as [_ _ [G1 G2 G3] _ _ _ _ _ _ _ _].
  split; [by split|]. split; [|done]. cbn. split; [lia|]. split; [done|]. by exists p.
Qed.

Lemma audio_fec_handle cod codec now ev rest s s' r :
  playback_inv cod codec s → genuine ev → codec_first codec (ev :: rest) → handle_event now ev s = (s', r) →
  ∃ codec', playback_inv (cod ++ option_list (codec_event ev)) codec' s' ∧ codec_first codec' rest.
Proof.
  intros Hinv Hgen Hfirst. destruct ev as [[m|m]|e| |]; cbn [handle_event genuine codec_event codec_first] in *; rewrite ?app_nil_r.
  - destruct (sm_packet m) as [p|p|p] eqn:Hpk; [| |done].
    + run_handler. destruct (Z.eqb_spec (Av.frame_size (codec_header p)) 0); [done|]. cbn [bail_if]. unfold send_client. cbn [client_open set_frame_size].
      rewrite (fa_open _ _ _ Hinv). intros [= <- <-]. exists true. split; [|done]. destruct Hinv as [H1 H2 H3 H4 H5 H6 H7 H8 H9 H10 H11].
      split; cbn; try done.
      * rewrite play_all_app, H8. done.
      * rewrite Forall_app. split; [done|]. by repeat constructor.
      * by rewrite fmap_app, omap_app, H10.
    + cbn [codec_of option_list]. rewrite app_nil_r. destruct Hgen as [Hs Hc], Hfirst as [-> Hrest].
      destruct (audio_fec_unroll _ _ _ _ Hinv (is_sent_bound _ _ Hs)) as (q & Hu & Hinv1). rewrite (handler_bind_eq _ _ _ _ _ Hu).
      rewrite (handler_bind_eq (getM next_kypacket_seq) _ _ (set_sequencer q s) (next_kypacket_seq (set_sequencer q s)) eq_refl).
      destruct (Z.leb_spec (next_kypacket_seq (set_sequencer q s)) (sm_raw_kypacket_seq m)) as [Hle|]; [|intros [= <- <-]; by exists true].
      run_handler. destruct (update_group _ (set_sequencer q s)) as [s2 r2] eqn:Hup. intros Hr. assert (s' = s2) as -> by (by destruct r2; injection Hr).
      exists true. split; [|done]. by eapply audio_fec_stream.
  - destruct Hgen as (p & Hp & Ho & Hin). pose proof (media_sent_positive _ _ Hp).
    destruct (audio_fec_unroll _ _ (dm_raw_kypacket_seq m) _ Hinv) as (q & Hu & Hinv1); [lia|]. rewrite (handler_bind_eq _ _ _ _ _ Hu).
    rewrite (handler_bind_eq (getM next_kypacket_seq) _ _ (set_sequencer q s) (next_kypacket_seq (set_sequencer q s)) eq_refl).
    destruct (Z.ltb_spec (dm_raw_kypacket_seq m) (next_kypacket_seq (set_sequencer q s))) as [|Hle]; [intros [= <- <-]; by exists codec|].
    run_handler. destruct (update_group _ (set_sequencer q s)) as [s2 r2] eqn:Hup. intros Hr. assert (s' = s2) as -> by (by destruct r2; injection Hr).
    exists codec. split; [|done]. rewrite Ho in Hup. eapply audio_fec_update; [exact Hinv1|by apply audio_insert_datagram_ok, Hinv1| |exact Hup].
    intros g Hg. destruct (audio_insert_datagram_content _ _ _ _ _ _ _ _ (fa_ok _ _ _ Hinv1) (fa_group _ _ _ Hinv1) Hp Hle Hin Hg) as [G1 G2].
    rewrite G2. split_and!; [done|apply Hinv1..].
  - intros [= <- <-]. by exists codec.
  - intros [= <- <-]. by exists codec.
  - intros [= <- <-]. by exists codec.
Qed.

Lemma audio_fec_step cod codec now nows ev rest s s' r :
  playback_inv cod codec s → genuine ev → codec_first codec (ev :: rest) → step now nows ev s = (s', r) →
  ∃ codec', playback_inv (cod ++ option_list (codec_event ev)) codec' s' ∧ codec_first codec' rest.
Proof.
  intros Hinv Hgen Hfirst. unfold step. run_handler. destruct (handle_event now ev s) as [s1 r1] eqn:Hh.
  destruct (audio_fec_handle _ _ _ _ _ _ _ _ Hinv Hgen Hfirst Hh) as (co & Hinv1 & Hrest). destruct r1 as [[]|e|]; try (intros [= <- <-]; by exists co).
  unfold drain. destruct (drain_loop _ nows 0 s1) as [s2 r2] eqn:Hd. pose proof (audio_fec_drain _ _ _ _ _ _ _ _ Hinv1 Hd) as Hinv2.
  destruct r2; intros [= <- <-]; by exists co.
Qed.

(** A run of the rounds of the driver *)
Lemma audio_fec_rounds cod codec evs s s' r :
  playback_inv cod codec s → Forall genuine (snd <$> evs) → codec_first codec (snd <$> evs) →
  run_rounds (D := audio_fec_driver) evs s = (s', r) →
  ∃ codec' cod', playback_inv (cod ++ cod') codec' s' ∧ cod' `prefix_of` omap codec_event (snd <$> evs).
Proof.
  revert cod codec s. induction evs as [|[[now nows] ev] evs IH]; intros cod codec s Hinv Hgen Hfirst; cbn [run_rounds].
  { intros [= <- <-]. exists codec, []. by rewrite app_nil_r. }
  apply Forall_cons in Hgen as [Hg Hgen]. cbn [round audio_fec_driver fst snd]. destruct (step now nows ev s) as [s1 r1] eqn:Hs.
  destruct (audio_fec_step _ _ _ _ _ _ _ _ _ Hinv Hg Hfirst Hs) as (co & Hinv1 & Hrest).
  assert (Hcod : omap codec_event (snd <$> (((now, nows), ev) :: evs)) = option_list (codec_event ev) ++ omap codec_event (snd <$> evs)).
  { cbn. by destruct (codec_event ev). }
  rewrite Hcod. destruct r1 as [[]|e|]; [|intros [= <- <-]; exists co, (option_list (codec_event ev)); split; [done|by apply prefix_app_r]..].
  intros Hr. destruct (IH _ _ _ Hinv1 Hgen Hrest Hr) as (co' & cod2 & Hinv2 & Hpre).
  exists co', (option_list (codec_event ev) ++ cod2). rewrite app_assoc. split; [done|]. by apply prefix_app.
Qed.
End Session.
