(* ===== verification/AudioFecEndToEnd.v ===== *)
(** * Audio with error correction from end to end

    What [AudioUnreliableFecProtocolSendDriver::send] puts on the stream and in
    datagrams for a whole session, read by the tasks of the receiving driver:
    whatever the network does to the datagrams, however much of the stream gets
    through and however the tasks are scheduled, the client receives an exact
    playback of the session, with its own packets at their places. *)

From stdpp Require Import prelude list gmap strings.
From Stdlib Require Import ZArith Lia.
From S2P Require Import Prelude SortedVec Sequencer Io Av Packets Channel Reassembly Router ReceiveTasks StreamSession VideoOrder VideoSession VideoEndToEnd Fec SystematicCode FecSafety VideoUnreliableFec VideoFecEndToEnd FecTransfer AudioOrder AudioSession AudioEndToEnd AudioFecSafety AudioUnreliableFec AudioFecReceive AudioFecSession.
Open Scope Z_scope.

Section EndToEnd.
Context `{RL : RaptorQLaws}.

(** ** The stream *)

Definition message_bytes (m : StreamMsg) : bytes := be_bytes 4 (sm_raw_kypacket_seq m) ++ av_image (sm_packet m).

Definition image (m : RecvMsg) : bytes := match m with RStream m => message_bytes m | RDatagram _ => [] end.

Definition wf_image (m : RecvMsg) : Prop :=
  match m with
  | RStream m => streamable MAX_AUDIO_PAYLOAD (sm_packet m) ∧ is_u32 (sm_raw_kypacket_seq m)
  | RDatagram _ => False
  end.

#[export] Instance audio_fec_codec : StreamCodec audio_fec_driver image wf_image.
Proof.
  split.
  - intros [m|m] r rest Hm Hd; [|done]. destruct Hm as [Hp Hk]. cbn [image] in Hd. unfold message_bytes in Hd. rewrite <- app_assoc in Hd.
    cbn [msg_read audio_fec_driver]. unfold recv_stream_packet. destruct (read_exact_app 4 r _ _ Hd) as (r1 & -> & Hd1 & _); [by rewrite be_bytes_length|].
    cbn [map_err mbind outcome_bind]. destruct (read_stream_packet_ok _ _ _ _ Hp Hd1) as (r2 & -> & Hd2). cbn [mbind outcome_bind].
    rewrite read_be_be4 by done. exists r2. by destruct m.
  - intros r m r' R extra Hr HR. cbn [msg_read audio_fec_driver] in *. unfold recv_stream_packet in *.
    destruct (read_exact 4 r) as [[seqs r1]|e|] eqn:H1; try done.
    destruct (read_exact_extend _ _ _ _ _ _ H1 HR) as (R1 & -> & HR1). cbn [map_err mbind outcome_bind] in *.
    destruct (read_stream_packet MAX_AUDIO_PAYLOAD r1) as [[p r2]|e|] eqn:H2; try done.
    destruct (read_stream_packet_extend _ _ _ _ _ _ H2 HR1) as (R2 & -> & HR2). cbn [mbind outcome_bind] in *. injection Hr as <- <-. by eexists.
  - intros r m r' Hd Hr. cbn in Hr. unfold recv_stream_packet in Hr. rewrite read_exact_short in Hr by (rewrite Hd; cbn; lia). done.
Qed.

(** ** The sender *)

Fixpoint send_all (l : list AVPacket) : handler SendDriver ProtocolError unit :=
  match l with
  | [] => mret tt
  | p :: l => _ ← send p; send_all l
  end.

(** The driver on a connection that does not fail *)
Definition driver_at (id max : Z) (sent : list bytes) (out : bytes) (k : Z) : SendDriver :=
  {| ky_channel := open_channel id max sent; stream := open_writer out; kypacket_seq := k |}.

(** The messages of the stream, for a session that goes on from packet [k] *)
Fixpoint stream_messages (k : Z) (l : list AVPacket) : list StreamMsg :=
  match l with
  | [] => []
  | Media p :: l =>
      if is_config (header p) then {| sm_packet := Media p; sm_raw_kypacket_seq := k |} :: stream_messages (k + 1) l
      else stream_messages (k + 1) l
  | p :: l => {| sm_packet := p; sm_raw_kypacket_seq := 0 |} :: stream_messages k l
  end.

Definition stream_bytes (ms : list StreamMsg) : bytes := concat (message_bytes <$> ms).

(** The datagrams of a media packet *)
Definition object_datagrams (id max k : Z) (p : MediaPacket) : list bytes :=
  (λ ps, datagram_bytes (driver_at id max [] [] k) (oti_serialize (audio_oti max p)) ps.1 ps.2) <$> audio_packets max p.

Fixpoint session_datagrams (id max k : Z) (l : list AVPacket) : list bytes :=
  match l with
  | [] => []
  | Media p :: l =>
      if is_config (header p) then session_datagrams id max (k + 1) l
      else object_datagrams id max k p ++ session_datagrams id max (k + 1) l
  | _ :: l => session_datagrams id max k l
  end.

(** What may be sent: codecs with a frame size, configs within the cap of the
    receiver, and media packets whose object it accepts *)
Definition sendable (max : Z) (p : AVPacket) : Prop :=
  match p with
  | Codec c => streamable MAX_AUDIO_PAYLOAD p ∧ Av.frame_size (codec_header c) ≠ 0
  | Media m => if is_config (header m) then streamable MAX_AUDIO_PAYLOAD p
               else wf_av p ∧ blen (media_image m) < 2 ^ 40 ∧ validate_oti (audio_oti max m) MAX_AUDIO_PAYLOAD = Ok tt
  | Hole _ => False
  end.

Lemma audio_fec_sendable_wf max p : sendable max p → wf_av p.
Proof. unfold sendable. destruct p as [c|m|h]; [by intros [[]]| |done]. destruct (is_config (header m)); by intros []. Qed.

Section Sender.
Context (id max : Z) (Hmax : Z.of_nat DATAGRAM_HEADER_SIZE < max < 0x10000).

Lemma audio_fec_send_encoded_open oti ps sent out k :
  send_encoded oti ps (driver_at id max sent out k) =
    (driver_at id max (sent ++ ((λ ps, datagram_bytes (driver_at id max [] [] k) oti ps.1 ps.2) <$> ps)) out k, Ok tt).
Proof.
  revert sent. induction ps as [|[i data] ps IH]; intros sent; cbn [send_encoded]; [cbn; by rewrite app_nil_r|]. run_handler.
  unfold on_channel. cbn [ky_channel driver_at]. rewrite send_datagram_open.
  change {| ky_channel := open_channel id max ?s; stream := _; kypacket_seq := _ |} with (driver_at id max s out k).
  rewrite IH, <- app_assoc. done.
Qed.

Lemma audio_fec_send_media_at p sent out k :
  sendable max (Media p) → is_config (header p) = false → 0 ≤ k < 2 ^ 31 →
  send (Media p) (driver_at id max sent out k) = (driver_at id max (sent ++ object_datagrams id max k p) out (k + 1), Ok tt).
Proof.
  intros Hp Hc Hk. cbn [sendable] in Hp. rewrite Hc in Hp. destruct Hp as ([Hwf _] & _ & Hv). pose proof (validate_oti_acceptable _ _ _ Hv) as (_ & (_ & Hsy & _) & _).
  assert (Hd : send_datagrams p (driver_at id max sent out k) = (driver_at id max (sent ++ object_datagrams id max k p) out k, Ok tt)).
  { unfold send_datagrams. run_handler. cbn [ky_channel driver_at open_channel max_datagram_size ok_or].
    destruct (Z.ltb_spec (Z.of_nat DATAGRAM_HEADER_SIZE) max); [|lia]. destruct (Z.ltb_spec max 0x10000); [|lia]. cbn [rassert].
    rewrite (media_serialize_eq _ Hwf), <- app_assoc. fold (media_image p). fold (audio_oti max p).
    destruct (Z.eqb_spec (symbol_size (audio_oti max p)) 0); [lia|]. cbn [negb rassert]. fold (audio_repair max p). fold (audio_packets max p).
    change {| ky_channel := open_channel id max sent; stream := open_writer out; kypacket_seq := k |} with (driver_at id max sent out k).
    apply audio_fec_send_encoded_open. }
  unfold send. rewrite Hc, (handler_bind_eq _ _ _ _ _ Hd). unfold modifyM, set_seq, wrap32. cbn [driver_at kypacket_seq stream ky_channel].
  by rewrite Z.mod_small by lia.
Qed.

Lemma audio_fec_send_config_at p sent out k :
  wf_media (header p) → is_config (header p) = true → 0 ≤ k < 2 ^ 31 →
  send (Media p) (driver_at id max sent out k) =
    (driver_at id max sent (out ++ message_bytes {| sm_packet := Media p; sm_raw_kypacket_seq := k |}) (k + 1), Ok tt).
Proof.
  intros Hwf Hc Hk. unfold send. rewrite Hc. run_handler. unfold set_seq. rewrite (media_serialize_eq _ Hwf). unfold on_stream.
  cbn [driver_at kypacket_seq stream ky_channel]. rewrite write_all_open. cbn -[be_bytes Z.add]. unfold wrap32. rewrite Z.mod_small by lia.
  unfold message_bytes, driver_at. cbn [sm_packet sm_raw_kypacket_seq av_image]. by rewrite <- !app_assoc.
Qed.

Lemma audio_fec_send_all_at l sent out k :
  Forall (sendable max) l → 0 ≤ k → k + Z.of_nat (length l) < 2 ^ 31 →
  ∃ k', send_all l (driver_at id max sent out k) =
    (driver_at id max (sent ++ session_datagrams id max k l) (out ++ stream_bytes (stream_messages k l)) k', Ok tt).
Proof.
  intros Hl. revert sent out k. induction Hl as [|p l Hp Hl IH]; intros sent out k Hk Hkl; cbn [send_all].
  { exists k. unfold stream_bytes. cbn. by rewrite !app_nil_r. }
  cbn [length] in Hkl. pose proof (audio_fec_sendable_wf _ _ Hp) as Hwf. destruct p as [c|p|h]; [| |done].
  - assert (Hs : send (Codec c) (driver_at id max sent out k) = (driver_at id max sent (out ++ be_bytes 4 0 ++ codec_image (codec_header c)) k, Ok tt)).
    { unfold send. run_handler. by rewrite codec_serialize_eq. }
    rewrite (handler_bind_eq _ _ _ _ _ Hs). destruct (IH sent (out ++ be_bytes 4 0 ++ codec_image (codec_header c)) k ltac:(lia) ltac:(lia)) as (k' & ->).
    exists k'. unfold stream_bytes. cbn [session_datagrams stream_messages fmap list_fmap concat]. by rewrite <- app_assoc.
  - destruct Hwf as [Hwf _]. cbn [session_datagrams stream_messages]. destruct (is_config (header p)) eqn:Hc.
    + rewrite (handler_bind_eq _ _ _ _ _ (audio_fec_send_config_at p sent out k Hwf Hc ltac:(lia))).
      match goal with |- context [send_all l (driver_at _ _ ?s ?o ?k1)] => destruct (IH s o k1 ltac:(lia) ltac:(lia)) as (k' & ->) end.
      exists k'. unfold stream_bytes. cbn [fmap list_fmap concat]. by rewrite <- app_assoc.
    + rewrite (handler_bind_eq _ _ _ _ _ (audio_fec_send_media_at p sent out k Hp Hc ltac:(lia))).
      match goal with |- context [send_all l (driver_at _ _ ?s ?o ?k1)] => destruct (IH s o k1 ltac:(lia) ltac:(lia)) as (k' & ->) end.
      exists k'. by rewrite <- app_assoc.
Qed.
End Sender.

Lemma audio_fec_stream_bytes_image ms : stream_bytes ms = concat (image <$> (RStream <$> ms)).
Proof. unfold stream_bytes. by rewrite <- list_fmap_compose. Qed.

Lemma audio_fec_stream_messages_wf max k l :
  Forall (sendable max) l → 0 ≤ k → k + Z.of_nat (length l) < 2 ^ 31 → Forall wf_image (RStream <$> stream_messages k l).
Proof.
  intros Hl. revert k. induction Hl as [|p l Hp Hl IH]; intros k Hk Hkl; [constructor|]. cbn [length] in *.
  destruct p as [c|p|h]; [| |done]; cbn [stream_messages].
  - constructor; [by destruct Hp|]. apply IH; lia.
  - cbn [sendable] in Hp. destruct (is_config (header p)); [constructor; [split; [done|unfold is_u32; cbn; lia]|]|]; apply IH; lia.
Qed.

Lemma audio_fec_stream_messages_codecs max k l :
  Forall (sendable max) l → omap codec_event (EvMsg <$> (RStream <$> stream_messages k l)) = omap codec_of l.
Proof.
  intros Hl. revert k. induction Hl as [|p l Hp Hl IH]; intros k; [done|]. destruct p as [c|p|h]; [| |done].
  - cbn. by rewrite IH.
  - cbn [stream_messages]. destruct (is_config (header p)); cbn; apply IH.
Qed.

(** ** The messages of the sender are those of a session *)

Lemma audio_parse_datagram_bytes self oti id sym :
  is_u32 (kypacket_seq self) → validate_oti oti MAX_AUDIO_PAYLOAD = Ok tt →
  source_block_number id < source_blocks oti → blen sym = symbol_size oti →
  parse (datagram_bytes self (oti_serialize oti) id sym) =
  Ok {| dm_data := sym; dm_raw_kypacket_seq := kypacket_seq self; dm_oti := oti; dm_payload_id := id |}.
Proof.
  intros Hk Hv Hb Hs. unfold parse, datagram_bytes. set (a := write_datagram_header (ky_channel self)). set (b := be_bytes 4 (kypacket_seq self)).
  assert (Ha : length a = 2%nat) by apply be_bytes_length. assert (Hbl : length b = 4%nat) by apply be_bytes_length.
  pose proof (parse_datagram_image (a ++ b) oti id sym MAX_AUDIO_PAYLOAD Hv Hb Hs) as Hp.
  rewrite !length_app, Ha, Hbl, <- !app_assoc in Hp. change (2 + 4 + 16)%nat with DATAGRAM_HEADER_SIZE in Hp.
  rewrite Hp. cbn [mbind outcome_bind]. unfold slice. rewrite drop_app_length', take_app_length' by done. unfold b. by rewrite read_be_be4.
Qed.

(** The config is the first packet of a session, and no other. *)
Lemma no_other_config codec l k p : in_shape codec true l → omap media_of l !! k = Some p → is_config (header p) = false.
Proof.
  revert codec k. induction l as [|[c|q|h] l IH]; intros codec k Hs; [done|by apply (IH true)| |by apply (IH true)].
  cbn in Hs. destruct (is_config (header q)) eqn:Hc; [by destruct Hs as (_ & ? & _)|]. destruct Hs as [_ Hs].
  destruct k as [|k]; [by intros [= <-]|]. by apply (IH codec).
Qed.

Lemma config_is_first codec l k p : in_shape codec false l → omap media_of l !! k = Some p → is_config (header p) = true ↔ k = 0%nat.
Proof.
  revert codec. induction l as [|[c|q|h] l IH]; intros codec Hs; [done|by apply (IH true)| |by apply (IH true)].
  cbn in Hs. destruct (is_config (header q)) eqn:Hc; [|by destruct Hs]. destruct Hs as (_ & _ & Hs).
  destruct k as [|k]; [by intros [= <-]|]. intros Hp. by rewrite (no_other_config _ _ _ _ Hs Hp).
Qed.

Section Messages.
Context (endpoint max : Z) (Hmax : Z.of_nat DATAGRAM_HEADER_SIZE < max < 0x10000).
Context (l : list AVPacket) (Hl : Forall (sendable max) l) (Hlen : Z.of_nat (length l) < 2 ^ 31) (Hshape : in_shape false false l).
#[local] Instance audio_fec_session : Session := sender_session max l Hlen.

Lemma audio_fec_is_sent_sendable k p : is_sent k p → sendable max (Media p).
Proof.
  intros [_ Hp]. apply list_elem_of_lookup_2 in Hp. cbn in Hp. apply list_elem_of_omap in Hp as (q & Hq & Hm).
  rewrite Forall_forall in Hl. destruct q; try done. injection Hm as ->. by apply Hl.
Qed.

#[local] Instance audio_fec_session_ok : AudioFecSessionOk max.
Proof.
  split.
  - intros k p Hp. exact (audio_fec_sendable_wf _ _ (audio_fec_is_sent_sendable _ _ Hp)).
  - intros k p Hp Hc. pose proof (audio_fec_is_sent_sendable _ _ Hp) as Hs. cbn [sendable] in Hs. rewrite Hc in Hs. destruct Hs as (_ & Hs & Hv).
    split_and!; [done|lia|done].
  - intros k p [Hk Hp]. cbn in Hp. rewrite (config_is_first _ _ _ _ Hshape Hp). lia.
Qed.

Lemma audio_fec_stream_genuine l1 l2 : l = l1 ++ l2 →
  Forall (λ m, genuine max (EvMsg (RStream m))) (stream_messages (number_after l1) l2).
Proof.
  revert l1. induction l2 as [|p l2 IH]; intros l1 Heq; [constructor|].
  pose proof (IH (l1 ++ [p]) ltac:(by rewrite <- app_assoc)) as IH1. rewrite number_snoc in IH1.
  assert (Hp : sendable max p) by (rewrite Forall_forall in Hl; apply Hl; rewrite Heq; apply elem_of_app; right; left).
  destruct p as [c|p|h]; [| |done]; cbn [media_of stream_messages] in *.
  - rewrite Z.add_0_r in IH1. constructor; [apply Hp|done].
  - destruct (sent_after max l Hlen _ _ _ Heq) as [Hs _]. destruct (is_config (header p)) eqn:Hc; [|done]. constructor; [|done]. by split.
Qed.

Lemma audio_object_datagram_genuine k p b :
  media_sent k p → b ∈ object_datagrams endpoint max k p → ∃ m, parse b = Ok m ∧ genuine max (EvMsg (RDatagram m)).
Proof.
  intros Hp Hb. apply list_elem_of_fmap in Hb as ([i sym] & -> & Hin). cbn [fst snd]. pose proof Hp as [Hs Hc].
  destruct (audio_object_params max k p Hp) as [Htl Hrfc]. destruct (audio_objects_wf max k p Hs Hc) as (_ & _ & Hv).
  destruct (encoded_shape _ _ _ _ _ Htl Hrfc Hin) as [Hblk Hsz]. pose proof (is_sent_bound _ _ Hs).
  eexists. split; [apply audio_parse_datagram_bytes; try done; unfold is_u32; cbn [driver_at kypacket_seq]; lia|]. exists p. by split_and!.
Qed.

Lemma audio_fec_datagrams_genuine l1 l2 b : l = l1 ++ l2 → b ∈ session_datagrams endpoint max (number_after l1) l2 →
  ∃ m, parse b = Ok m ∧ genuine max (EvMsg (RDatagram m)).
Proof.
  revert l1. induction l2 as [|p l2 IH]; intros l1 Heq Hb; [by apply not_elem_of_nil in Hb|].
  specialize (IH (l1 ++ [p]) ltac:(by rewrite <- app_assoc)). rewrite number_snoc in IH.
  assert (Hp : sendable max p) by (rewrite Forall_forall in Hl; apply Hl; rewrite Heq; apply elem_of_app; right; left).
  destruct p as [c|p|h]; cbn [session_datagrams media_of] in *; [by rewrite Z.add_0_r in IH; auto| |done].
  destruct (is_config (header p)) eqn:Hc; [by auto|]. apply elem_of_app in Hb as [Hb|Hb]; [|by auto].
  destruct (sent_after max l Hlen _ _ _ Heq) as [Hs _]. eapply audio_object_datagram_genuine; [by split|done].
Qed.
End Messages.

(** ** The order of the stream *)

Definition stream_of (ev : Event) : option StreamMsg := match ev with EvMsg (RStream m) => Some m | _ => None end.

Fixpoint codec_leads (codec : bool) (ms : list StreamMsg) : Prop :=
  match ms with
  | [] => True
  | m :: ms => match sm_packet m with Codec _ => codec_leads true ms | _ => codec = true ∧ codec_leads codec ms end
  end.

Lemma stream_messages_lead codec cfg k l : in_shape codec cfg l → Forall (λ p, media_of p ≠ None ∨ codec_of p ≠ None) l → codec_leads codec (stream_messages k l).
Proof.
  intros Hs Hl. revert codec cfg k Hs. induction Hl as [|p l Hp Hl IH]; intros codec cfg k Hs; [done|].
  destruct p as [c|p|h]; [| |by destruct Hp]; cbn [stream_messages in_shape] in *.
  - by apply (IH true cfg).
  - destruct (is_config (header p)).
    + destruct Hs as (-> & -> & Hs). split; [done|]. by eapply IH.
    + destruct Hs as (-> & Hs). by eapply IH.
Qed.

Lemma leads_first codec evs ms : omap stream_of evs `prefix_of` ms → codec_leads codec ms → codec_first codec evs.
Proof.
  revert codec ms. induction evs as [|ev evs IH]; intros codec ms Hpre Hms; [done|]. destruct ev as [[m|m]|e| |]; [|by eapply IH..].
  cbn in Hpre. destruct ms as [|m' ms]; [by destruct Hpre as [? [=]]|]. destruct Hpre as [t Ht]. injection Ht as -> Ht.
  cbn [codec_leads codec_first] in *. destruct (sm_packet m) as [p|p|p]; [|destruct Hms as [-> Hms]; split; [done|]..]; (eapply IH; [by exists t|done]).
Qed.

(** ** The driver *)

(** The messages taken by [process] in a run whose stream and datagrams come from the sender *)
Lemma audio_fec_taken_of_sender endpoint max l stream stats acts s obs :
  Z.of_nat DATAGRAM_HEADER_SIZE < max < 0x10000 → ∀ (Hl : Forall (sendable max) l) (Hlen : Z.of_nat (length l) < 2 ^ 31), in_shape false false l →
  rd_data stream `prefix_of` stream_bytes (stream_messages 0 l) →
  exec acts (audio_fec_start stream stats) = Some (s, obs) →
  (∀ b, b ∈ datagrams_read obs → b ∈ session_datagrams endpoint max 0 l) →
  (∀ ev, ev ∈ taken obs → genuine (SE := audio_fec_session max l Hlen) max ev) ∧
  omap stream_of (taken obs) `prefix_of` stream_messages 0 l ∧
  omap codec_event (taken obs) `prefix_of` omap codec_of l.
Proof.
  intros Hmax Hl Hlen Hshape Hpre He Hdg. rewrite audio_fec_stream_bytes_image in Hpre.
  pose proof (audio_fec_stream_genuine max l Hl Hlen [] l eq_refl) as Hgs.
  set (P := λ m, ∃ d, m = RDatagram d ∧ genuine (SE := audio_fec_session max l Hlen) max (EvMsg m)).
  pose proof (audio_fec_stream_messages_wf max 0 l Hl ltac:(lia) ltac:(lia)) as Hwf.
  destruct (taken_session (D := audio_fec_driver) image wf_image _ P Hwf _ _ _ _ _ Hpre He) as [Hin Hord].
  { intros b Hb. destruct (audio_fec_datagrams_genuine endpoint max Hmax l Hl Hlen Hshape [] l b eq_refl (Hdg b Hb)) as (m & Hm & Hg).
    exists (RDatagram m). split; [cbn; by rewrite Hm|]. by exists m. }
  split_and!.
  - intros ev Hev. destruct (Hin ev Hev) as [(m & Hm & ->)|[(m & (d & -> & Hg) & ->)|(err & e & [= <-] & ->)]]; [|done|done].
    apply list_elem_of_fmap in Hm as (m' & -> & Hm). rewrite Forall_forall in Hgs. by apply Hgs.
  - assert (Heq : omap stream_of (EvMsg <$> (RStream <$> stream_messages 0 l)) = stream_messages 0 l).
    { clear. induction (stream_messages 0 l) as [|m ms IH]; [done|]. cbn. by f_equal. }
    rewrite <- Heq. apply (Hord _ stream_of); [by intros m (d & -> & _)|by intros err e [= <-]].
  - rewrite <- (audio_fec_stream_messages_codecs max 0 l Hl). apply (Hord _ codec_event); [by intros m (d & -> & _)|by intros err e [= <-]].
Qed.

(** C5: audio with error correction from end to end.  The sender sends any session
    of a codec, a config and media packets that the receiver's limits allow; the
    network delivers any part of the stream and any of the datagrams, in any
    order and any number of times; the tasks of the receiver, the clock and the
    client are scheduled in any way.  Then what [recv] returns is the beginning of
    an exact playback of the session: its packets, decoded intact, at their own
    places on the timeline, every gap announced by one hole of exactly the
    missing samples, and its first codecs, in order; [process] does not panic. *)
Theorem audio_fec_session_end_to_end endpoint max l :
  Z.of_nat DATAGRAM_HEADER_SIZE < max < 0x10000 → Forall (sendable max) l → in_shape false false l → Z.of_nat (length l) < 2 ^ 31 →
  ∃ sent wire k,
    send_all l (send_start (open_channel endpoint max []) (open_writer [])) = (driver_at endpoint max sent wire k, Ok tt) ∧
    ∀ stream stats acts s obs,
      rd_data stream `prefix_of` wire → exec acts (audio_fec_start stream stats) = Some (s, obs) →
      (∀ b, b ∈ datagrams_read obs → b ∈ sent) →
      (∃ items pb, ReceiveTasks.received obs = snd <$> items ∧ play_all playback_start items = Some pb ∧ Forall (placed l) items) ∧
      omap codec_of (ReceiveTasks.received obs) `prefix_of` omap codec_of l ∧
      (run_rounds (rounds obs) (process_init stats)).2 ≠ Panic.
Proof.
  intros Hmax Hl Hs Hlen. destruct (audio_fec_send_all_at endpoint max Hmax l [] [] 0 Hl ltac:(lia) ltac:(lia)) as (k & Hsend).
  exists (session_datagrams endpoint max 0 l), (stream_bytes (stream_messages 0 l)), k. split; [exact Hsend|].
  intros stream stats acts s obs Hpre He Hdg.
  destruct (audio_fec_taken_of_sender endpoint max l stream stats acts s obs Hmax Hl Hlen Hs Hpre He Hdg) as (Hgen & Hst & Hcd).
  pose proof (rounds_of_taken (D := audio_fec_driver) obs) as Hin.
  pose proof (rounds_omap (D := audio_fec_driver) codec_event obs eq_refl eq_refl) as Hfc.
  pose proof (rounds_omap (D := audio_fec_driver) stream_of obs eq_refl eq_refl) as Hfs.
  destruct (driver_inv _ _ _ _ _ He) as [_ _ (r & Hrun & _) (rest & Hsent & _) _ _ _ _].
  pose (SS := audio_fec_session max l Hlen). pose proof (audio_fec_session_ok max Hmax l Hl Hlen Hs) as SO.
  assert (Hall : Forall (genuine (SE := SS) max) (snd <$> rounds obs)).
  { apply Forall_forall. intros ev Hev. destruct (Hin ev Hev) as [Ht|[->| ->]]; [by apply Hgen|done|done]. }
  assert (Hfirst : codec_first false (snd <$> rounds obs)).
  { eapply leads_first; [rewrite Hfs; exact Hst|]. eapply stream_messages_lead; [exact Hs|]. eapply Forall_impl; [exact Hl|].
    intros [] Hp; [by right|by left|done]. }
  destruct (audio_fec_rounds (SE := SS) max _ _ _ _ _ _ (playback_init (SE := SS) max stats) Hall Hfirst Hrun) as (co & cod & Hinv & Hcod).
  pose proof (fa_play _ _ _ _ Hinv) as Hplay. pose proof (fa_client _ _ _ _ Hinv) as Hcl. pose proof (fa_codecs _ _ _ _ Hinv) as Hcods. cbn [app] in Hcods.
  cbn [ReceiveTasks.sent audio_fec_driver process_init client fmap list_fmap app] in Hsent. split_and!.
  - exists (take (length (ReceiveTasks.received obs)) (client (process_state s))).
    assert (Hr1 : ReceiveTasks.received obs = snd <$> take (length (ReceiveTasks.received obs)) (client (process_state s)))
      by (rewrite fmap_take, Hsent; by rewrite take_app_length).
    rewrite <- (take_drop (length (ReceiveTasks.received obs)) (client (process_state s))), play_all_app in Hplay.
    destruct (play_all playback_start (take (length (ReceiveTasks.received obs)) (client (process_state s)))) as [pb|]; [|done]. exists pb. split_and!; [done|done|].
    apply Forall_take. eapply Forall_impl; [exact Hcl|]. intros [[i|] p]; [|done]. intros (m & [Hi Hm] & ->). split; [done|]. by exists m.
  - etrans; [|exact Hcd]. rewrite <- Hfc. etrans; [|exact Hcod]. rewrite <- Hcods, Hsent, omap_app. by apply prefix_app_r.
  - apply audio_fec_rounds_safe.
Qed.
End EndToEnd.

(** ** A sample, with the systematic code: the first media packet is lost *)

Lemma audio_fec_sample_sendable : Forall (sendable (H := systematic) 30) audio_sample.
Proof. repeat constructor; vm_compute; intuition congruence. Qed.

Definition audio_fec_sample_wire : bytes * list bytes :=
  let d := (send_all (H := systematic) audio_sample (send_start (open_channel 5 30 []) (open_writer []))).1 in
  (w_out (stream d), datagrams_sent (ky_channel d)).

Definition audio_fec_sample_stream : Reader := {| rd_chunks := [audio_fec_sample_wire.1]; rd_fail := None |}.

(** The datagrams of packet 2 come last first, before the config. *)
Definition audio_fec_sample_actions : list (ReceiveTasks.Action (Time:=Instant * (nat → Instant))) :=
  [ReadStream; PushStream; Round sample_time false; Deliver; Recv] ++
  concat ((λ b, [GotDatagram (inr b); PushDatagram; Round sample_time false]) <$> reverse (drop (length audio_fec_sample_wire.2 / 2) audio_fec_sample_wire.2)) ++
  [ReadStream; PushStream; Round sample_time false; Deliver; Recv; Round (20000, λ _, 20000) true; Deliver; Recv; Deliver; Recv].

Example audio_fec_sample_received :
  option_map (λ r, ReceiveTasks.received (snd r)) (exec audio_fec_sample_actions (audio_fec_start (H := systematic) audio_fec_sample_stream stats_default)) =
  Some (take 2 audio_sample ++ [Hole {| hole_header := {| missing_audio_samples := 960 |} |}] ++ drop 3 audio_sample).
Proof. by vm_compute. Qed.

Lemma audio_fec_session_end_to_end_witness :
  ∃ sent wire k,
    send_all audio_sample (send_start (open_channel 5 30 []) (open_writer [])) = (driver_at 5 30 sent wire k, Ok tt) ∧
    ∀ stream stats acts s obs,
      rd_data stream `prefix_of` wire → exec acts (audio_fec_start stream stats) = Some (s, obs) →
      (∀ b, b ∈ datagrams_read obs → b ∈ sent) →
      (∃ items pb, ReceiveTasks.received obs = snd <$> items ∧ play_all playback_start items = Some pb ∧ Forall (placed audio_sample) items) ∧
      omap codec_of (ReceiveTasks.received obs) `prefix_of` omap codec_of audio_sample ∧
      (run_rounds (rounds obs) (process_init stats)).2 ≠ Panic.
Proof. apply (audio_fec_session_end_to_end 5 30 audio_sample); [by vm_compute|apply audio_fec_sample_sendable|by vm_compute|by vm_compute]. Defined.
