(* ===== verification/AudioFecComplete.v ===== *)
(** * Nothing is lost: audio with error correction

    The other half of [AudioFecSession]: when the network keeps its promises,
    [process] keeps its own.  If sufficient symbols of the packets arrive before
    the buffering time of the packets that wait for them is over, and what is in
    flight fits the receive budget, then no error occurs, no hole is announced,
    and the client is given every packet as soon as it and all those before it
    have arrived. *)

From stdpp Require Import prelude list gmap strings.
From Stdlib Require Import ZArith Lia.
From S2P Require Import Prelude SortedVec Sequencer Io Av Packets Channel Reassembly Fec SystematicCode FecSafety VideoOrder VideoSession VideoFecSafety FecTransfer FecRecovery Arrivals AudioOrder AudioSession VideoUnreliableFec AudioFecSafety Router ReceiveTasks AudioUnreliableFec AudioFecReceive AudioFecSession.
Open Scope Z_scope.

(** ** What has arrived *)

Abbreviation timed_event := (Instant * (nat → Instant) * Event)%type.

Section Arrivals.
Context `{RQ : RaptorQ} {RR : RaptorQRecovery} (max : Z) (packets : list MediaPacket).

(** The packet a datagram belongs to, and the identifier of its symbol *)
Definition symbol_of (ev : Event) : option (Z * (Z * Z)) :=
  match ev with
  | EvMsg (RDatagram m) => Some (dm_raw_kypacket_seq m, (source_block_number (dm_payload_id m), encoding_symbol_id (dm_payload_id m)))
  | _ => None
  end.

Definition config_event (ev : Event) : bool :=
  match ev with EvMsg (RStream m) => match sm_packet m with Media _ => true | _ => false end | _ => false end.

(** Packet [k] has arrived: the config on the stream, a media packet by symbols
    that determine it. *)
Definition arrived (evs : list Event) (k : Z) : bool :=
  match packets !! Z.to_nat k with
  | Some p => if is_config (header p) then existsb config_event evs else sufficient (audio_oti max p) (packet_ids symbol_of evs k)
  | None => false
  end.

(** Some of packet [k] has arrived. *)
Definition begun (evs : list Event) (k : Z) : bool :=
  match packets !! Z.to_nat k with
  | Some p => if is_config (header p) then existsb config_event evs else bool_decide (packet_ids symbol_of evs k ≠ ∅)
  | None => false
  end.

(** The first packet that has not arrived *)
Definition frontier (evs : list Event) : Z := first_missing (length packets) (arrived evs).

(** The packets that have begun to arrive, among those from [from] on *)
Definition in_flight (from : Z) (evs : list Event) : list Z := filter (λ k, from ≤ k ∧ begun evs k = true) (numbers (length packets)).

(** What packet [k] counts for in the receive budget *)
Definition demand (k : Z) : Z :=
  match packets !! Z.to_nat k with
  | Some p => if is_config (header p) then blen (payload p) else reservation (audio_oti max p)
  | None => 0
  end.

Definition fits (ks : list Z) : Prop :=
  Z.of_nat (length ks) ≤ MAX_PENDING_OBJECTS ∧ sum_list_with demand ks ≤ pending_limit MAX_AUDIO_PAYLOAD.

(** One round, after those of [before]: a message or the deadline, not an error or the end of the
    queue; what is in flight fits the budget; and no packet has waited for
    [MAX_BUFFERING] behind one that has not arrived. *)
Definition round_steady (before : list timed_event) (r : timed_event) : Prop :=
  match r.2 with EvMsg _ | EvDeadline => True | _ => False end ∧
  fits (in_flight (frontier (snd <$> before)) (snd <$> (before ++ [r]))) ∧
  Forall (λ r' : timed_event, match symbol_of r'.2 with
                | Some (k, _) => frontier (snd <$> (before ++ [r])) < k → ∀ i, r.1.2 i < r'.1.1 + MAX_BUFFERING
                | None => True
                end) (before ++ [r]).

Fixpoint steady (before rs : list timed_event) : Prop :=
  match rs with
  | [] => True
  | r :: rs => round_steady before r ∧ steady (before ++ [r]) rs
  end.

(** Distinct packets in flight are within the budget. *)
Lemma fits_some ks ks' : (∀ k, 0 ≤ demand k) → fits ks → NoDup ks' → (∀ k, k ∈ ks' → k ∈ ks) → fits ks'.
Proof. intros Hd [H1 H2] Hnd Hsub. destruct (weights_some demand ks ks' Hd Hnd Hsub). unfold fits. lia. Qed.
End Arrivals.

Abbreviation symbol_ids := (packet_ids symbol_of).

(** ** Insertions *)

Section Complete.
Context `{RL : RaptorQLaws} {RR : RaptorQRecovery} {SE : Session} (max : Z) {SO : AudioFecSessionOk max}.
Hypothesis Hblocks : ∀ k p, media_sent k p → source_blocks (audio_oti max p) ≤ 3.

(** The decoder of a packet of which not enough has come *)
Definition open_decoder (k : Z) (d : ObjectDecoder) : Prop :=
  ∃ p, media_sent k p ∧ open_object (media_image p) (audio_oti max p) (audio_repair max p) d.

Lemma audio_object_ok k p :
  media_sent k p → transfer_length (audio_oti max p) = blen (media_image p) ∧ validate_oti (audio_oti max p) MAX_AUDIO_PAYLOAD = Ok tt.
Proof. intros Hp. split; [by destruct (audio_object_params max k p Hp)|]. by destruct (audio_objects_wf max k p (proj1 Hp) (proj2 Hp)) as (_ & _ & Hv). Qed.

Lemma open_decoder_insufficient k p d ids :
  media_sent k p → open_decoder k d → ids ⊆ Fec.received d → sufficient (audio_oti max p) ids = false.
Proof.
  intros Hp (q & Hq & Hopen) Hids. assert (q = p) as -> by by eapply media_sent_unique. destruct (audio_object_ok k p Hp).
  by eapply open_object_insufficient.
Qed.

Lemma add_symbol k p id data s :
  media_sent k p → (id, data) ∈ audio_packets max p → wf_segments s → open_decoder k (as_decoder s) →
  ∃ s', add_packet (audio_oti max p) id data s = Ok s' ∧ as_seq s' = as_seq s ∧ od_oti (as_decoder s') = audio_oti max p ∧
    Fec.received (as_decoder s') = {[key_of (id, data)]} ∪ Fec.received (as_decoder s) ∧
    match assembled s' with None => open_decoder k (as_decoder s') | Some out => out = media_image p end.
Proof.
  intros Hp Hin [Hwf _] (q & Hq & Hopen). assert (q = p) as -> by by eapply media_sent_unique. destruct (audio_object_ok k p Hp) as [Hlen Hv].
  assert (Hr : audio_repair max p = repair_symbols (symbols_of (audio_oti max p))) by (unfold audio_repair, symbols_of; by rewrite Hlen).
  destruct (repair_within_cap _ _ Hv (Hblocks k p Hp)) as [Hn Hcap]. rewrite <- Hr in Hn, Hcap.
  destruct (open_object_decode _ _ _ _ Hlen Hv _ _ _ Hn (λ b _, Hcap b) Hwf Hopen Hin) as (d' & o & Hdec & Hrec & Ho & Hout).
  unfold add_packet. rewrite Hdec. cbn [mbind outcome_bind]. eexists. split; [done|]. cbn. split_and!; [done|done|done|].
  destruct o as [out|]; [done|]. by exists p.
Qed.

Definition room (k : Z) (p : MediaPacket) (g : PendingGroup) : Prop :=
  k ∉ ad_seq <$> ag_datagrams g → k ∉ as_seq <$> ag_segments g → check_capacity (reservation (audio_oti max p)) g = Ok tt.

(** The segments that a symbol of packet [k] goes to *)
Lemma prepare_total k p g :
  group_ok g → (∀ s, s ∈ ag_segments g → open_decoder (as_seq s) (as_decoder s)) → media_sent k p →
  k ∉ ad_seq <$> ag_datagrams g → room k p g →
  ∃ segs i s, prepare_datagram_segments k (audio_oti max p) g = Ok (with_segments segs g, i) ∧
    segs !! i = Some s ∧ as_seq s = k ∧ sorted_by as_seq segs ∧ wf_segments s ∧ open_decoder k (as_decoder s) ∧
    (∀ x, x ∈ segs ↔ x ∈ ag_segments g ∨ x = s) ∧ (∀ x, x ∈ ag_segments g → as_seq x = k → x = s).
Proof.
  intros Hok Hopen Hp Hnd Hroom. pose proof Hok as [Hg _]. pose proof (audio_prepare_spec k (audio_oti max p) g Hok) as Hspec.
  unfold prepare_datagram_segments in *.
  destruct (binary_search_cases as_seq k (ag_segments g) (wg_segments _ Hg)) as [(i & s & Hb & Hi & Hk)|[Hb Hn]]; rewrite Hb in *.
  { pose proof (list_elem_of_lookup_2 _ _ _ Hi) as Hs. exists (ag_segments g), i, s.
    split_and!; [by destruct g|done|done|apply Hg|by apply Hg|rewrite <- Hk; by apply Hopen| |].
    - intros x. split; [by left|]. by intros [?| ->].
    - intros x Hx Hxk. eapply (sorted_key_inj as_seq); [apply Hg|done|done|congruence]. }
  assert (Hns : k ∉ as_seq <$> ag_segments g).
  { intros (x & -> & Hx)%list_elem_of_fmap. rewrite Forall_forall in Hn. by apply (Hn x). }
  destruct (audio_objects_wf max k p (proj1 Hp) (proj2 Hp)) as (_ & _ & Hv). rewrite Hv, (Hroom Hnd Hns) in *. cbn [mbind outcome_bind] in *.
  unfold DatagramSegments_new in *. destruct (open_object_new (media_image p) _ (audio_repair max p) _ (proj1 (audio_object_ok k p Hp)) Hv) as (d & Hd & Hwf & Hopn & _).
  rewrite Hd in *. cbn [mbind outcome_bind] in *. destruct Hspec as (s & _ & Hi & Hsk & Hso & Hws & _). cbn [with_segments ag_segments] in *.
  rewrite vec_insert_lookup in Hi by apply lower_bound_le. injection Hi as <-.
  eexists _, _, _. split; [reflexivity|]. split; [apply vec_insert_lookup, lower_bound_le|]. split_and!; [done|done|by split| | |].
  - by exists p.
  - intros x. rewrite vec_insert_perm, elem_of_cons. tauto.
  - intros x Hx Hxk. exfalso. rewrite Forall_forall in Hn. by apply (Hn x).
Qed.

(** The effect of a symbol of packet [k] on what is pending *)
Record inserted (now k : Z) (p : MediaPacket) (key : Z * Z) (g g' : PendingGroup) : Prop := {
  in_config : ag_config g' = ag_config g;
  in_datagrams_kept d : d ∈ ag_datagrams g → d ∈ ag_datagrams g';
  in_datagrams_new d : d ∈ ag_datagrams g' → d ∈ ag_datagrams g ∨ ad_seq d = k ∧ ad_oti d = audio_oti max p ∧ ad_instant d = now;
  in_segments_kept s : s ∈ ag_segments g → as_seq s ≠ k → s ∈ ag_segments g';
  in_segments_new s : s ∈ ag_segments g' → s ∈ ag_segments g ∧ as_seq s ≠ k ∨ as_seq s = k ∧ open_decoder k (as_decoder s);
  in_tracked : k ∈ ad_seq <$> ag_datagrams g' ∨
    ∃ s, s ∈ ag_segments g' ∧ as_seq s = k ∧ key ∈ Fec.received (as_decoder s) ∧
      ∀ s0, s0 ∈ ag_segments g → as_seq s0 = k → Fec.received (as_decoder s0) ⊆ Fec.received (as_decoder s);
}.

Lemma insert_datagram_total next now k p id data g :
  group_ok g → group_content max next g → (∀ s, s ∈ ag_segments g → open_decoder (as_seq s) (as_decoder s)) →
  (∀ d, d ∈ ag_datagrams g → ad_seq d = k → ad_oti d = audio_oti max p) →
  media_sent k p → (id, data) ∈ audio_packets max p → room k p g →
  ∃ g', insert_datagram now k (audio_oti max p) id data g = Ok g' ∧ inserted now k p (key_of (id, data)) g g'.
Proof.
  intros Hok HC Hopen Hoti Hp Hin Hroom. pose proof Hok as [Hg _]. unfold insert_datagram.
  destruct (binary_search_cases ad_seq k (ag_datagrams g) (wg_datagrams _ Hg)) as [(i & d & -> & Hi & Hk)|[Hb Hn]].
  { pose proof (list_elem_of_lookup_2 _ _ _ Hi) as Hd. rewrite Hi. cbn [expect mbind outcome_bind]. rewrite (bool_decide_true (ad_oti d = audio_oti max p)) by auto.
    exists g. split; [done|]. split; [done|done|by left|done| |].
    - intros s Hs. left. split; [done|]. rewrite <- Hk. intros Heq. by apply (gc_disjoint max next g HC d s).
    - left. apply list_elem_of_fmap. by exists d. }
  assert (Hnd : k ∉ ad_seq <$> ag_datagrams g).
  { intros (x & -> & Hx)%list_elem_of_fmap. rewrite Forall_forall in Hn. by apply (Hn x). }
  destruct (prepare_total k p g Hok Hopen Hp Hnd Hroom) as (segs & i & s & Hprep & Hi & Hsk & Hso & Hws & Hsd & Hel & Huniq).
  rewrite Hb, Hprep. cbn [mbind outcome_bind with_segments ag_segments]. rewrite Hi. cbn [expect mbind outcome_bind].
  destruct (add_symbol k p id data s Hp Hin Hws Hsd) as (s' & -> & Hsk' & Hso' & Hrec & Hout). cbn [mbind outcome_bind with_segments ag_segments ag_datagrams ag_config].
  rewrite Hsk in Hsk'. rewrite delete_insert. pose proof (lookup_lt_Some _ _ _ Hi) as Hlt.
  assert (Hdel : ∀ x, x ∈ delete i segs ↔ x ∈ ag_segments g ∧ as_seq x ≠ k).
  { intros x. split.
    - intros Hx. destruct (elem_of_delete_neq as_seq _ _ _ _ Hso Hi Hx) as [Hx1 Hx2]. rewrite Hsk in Hx2. split; [|done]. apply Hel in Hx1 as [?| ->]; done.
    - intros [Hx Hxk]. assert (Hx2 : x ∈ segs) by (apply Hel; by left). rewrite (delete_Permutation _ _ _ Hi) in Hx2.
      apply elem_of_cons in Hx2 as [->|]; done. }
  unfold is_complete, assemble. destruct (assembled s') as [out|]; cbn [ok_or mbind outcome_bind].
  - rewrite bool_decide_true by done. subst out. destruct (audio_packets_wf max k p (proj1 Hp)) as [Hwfm Hsz].
    rewrite (media_packet_image p Hwfm (proj2 Hp) Hsz). cbn [mbind outcome_bind]. eexists. split; [done|].
    unfold insert_datagram_packet. cbn [ad_seq with_segments ag_datagrams]. rewrite Hsk', Hb.
    split; cbn [with_segments with_datagrams ag_config ag_datagrams ag_segments].
    + done.
    + intros d Hd. rewrite vec_insert_perm. by right.
    + intros d. rewrite vec_insert_perm. intros [->|]%elem_of_cons; [right|by left]. by rewrite <- Hso'.
    + intros x Hx Hxk. by apply Hdel.
    + intros x Hx%Hdel. by left.
    + left. apply list_elem_of_fmap. eexists. split; [|rewrite vec_insert_perm; left]. done.
  - rewrite bool_decide_false by (by intros [? ?]). eexists. split; [done|].
    split; cbn [with_segments ag_config ag_datagrams ag_segments]; [done|done|by left|..].
    + intros x Hx Hxk. rewrite (insert_delete_perm i s s' segs Hi). right. by apply Hdel.
    + intros x. rewrite (insert_delete_perm i s s' segs Hi). intros [->|Hx%Hdel]%elem_of_cons; [by right|by left].
    + right. exists s'. rewrite (insert_delete_perm i s s' segs Hi). split_and!; [left|done|rewrite Hrec; set_solver|].
      intros s0 Hs0 Hk0. rewrite (Huniq s0 Hs0 Hk0), Hrec. set_solver.
Qed.

(** ** What [process] holds *)

Definition is_hole (p : AVPacket) : bool := match p with Hole _ => true | _ => false end.

Abbreviation ids_of rs k := (symbol_ids (snd <$> rs) k).

(** After the rounds [rs], nothing of what has come from the next packet on is
    lost, and the client has all the packets before it. *)
Record on_time (rs : list timed_event) (s : Process) : Prop := {
  ot_segments sg : sg ∈ ag_segments (pending_group s) → open_decoder (as_seq sg) (as_decoder sg) ∧ ids_of rs (as_seq sg) ≠ ∅;
  ot_tracked k p : media_sent k p → next_kypacket_seq s ≤ k → ids_of rs k ≠ ∅ →
    k ∈ ad_seq <$> ag_datagrams (pending_group s) ∨
    ∃ sg, sg ∈ ag_segments (pending_group s) ∧ as_seq sg = k ∧ ids_of rs k ⊆ Fec.received (as_decoder sg);
  ot_datagrams d : d ∈ ag_datagrams (pending_group s) →
    (∀ p, media_sent (ad_seq d) p → ad_oti d = audio_oti max p) ∧
    ∃ r key, r ∈ rs ∧ r.1.1 = ad_instant d ∧ symbol_of r.2 = Some (ad_seq d, key);
  ot_config : existsb config_event (snd <$> rs) = true → ag_config (pending_group s) ≠ CfgNone;
  ot_media : omap media_of (snd <$> client s) = take (Z.to_nat (next_kypacket_seq s)) sent_packets;
  ot_holes : Forall (λ e, is_hole e.2 = false) (client s);
}.

(** Nothing can be taken. *)
Definition drained (s : Process) : Prop :=
  match ag_config (pending_group s) with
  | CfgNone => True
  | CfgReady _ => False
  | CfgSent => next_kypacket_seq s ∉ ad_seq <$> ag_datagrams (pending_group s)
  end.

Lemma on_time_init stats : on_time [] (process_init stats) ∧ drained (process_init stats).
Proof. split; [|done]. split; cbn; try done; intros; set_solver. Qed.

(** The next packet has not arrived. *)
Lemma drained_missing cod codec rs s :
  playback_inv max cod codec s → on_time rs s → drained s → arrived max sent_packets (snd <$> rs) (next_kypacket_seq s) = false.
Proof.
  intros HP HO HD. unfold arrived. destruct (sent_packets !! _) as [p|] eqn:Hp; [|done]. pose proof (fa_next _ _ _ _ HP) as Hn.
  assert (Hs : is_sent (next_kypacket_seq s) p) by done. pose proof (fa_config _ _ _ _ HP) as Hc. pose proof (ot_config _ _ HO) as Hco. unfold drained in HD.
  destruct (is_config (header p)) eqn:Hcf.
  - apply (audio_config_first max _ _ Hs) in Hcf. apply not_true_is_false. intros Hev. specialize (Hco Hev).
    destruct (ag_config (pending_group s)) as [|q|]; [done|done|]. cbn in Hc. lia.
  - assert (Hm : media_sent (next_kypacket_seq s) p) by by split. pose proof (media_sent_positive max _ _ Hm).
    destruct (ag_config (pending_group s)) as [|q|]; cbn in Hc; [lia|done|].
    destruct (decide (ids_of rs (next_kypacket_seq s) = ∅)) as [He|He].
    + rewrite He. destruct (audio_object_ok _ p Hm) as [Hlen Hv]. by apply (nothing_insufficient (media_image p) _ 0 MAX_AUDIO_PAYLOAD).
    + destruct (ot_tracked _ _ HO _ p Hm ltac:(lia) He) as [?|(sg & Hsg & Hk & Hids)]; [done|].
      destruct (ot_segments _ _ HO sg Hsg) as [Hopen _]. rewrite Hk in Hopen. by eapply open_decoder_insufficient.
Qed.

Lemma drained_frontier cod codec rs s :
  playback_inv max cod codec s → on_time rs s → drained s → frontier max sent_packets (snd <$> rs) ≤ next_kypacket_seq s.
Proof. intros HP HO HD. apply first_missing_le; [apply HP|]. by eapply drained_missing. Qed.

Lemma on_time_snoc cod codec rs r s :
  playback_inv max cod codec s → on_time rs s → (∀ k, next_kypacket_seq s ≤ k → symbol_ids [r.2] k = ∅) → (config_event r.2 = true → ag_config (pending_group s) ≠ CfgNone) → on_time (rs ++ [r]) s.
Proof.
  intros HP [H1 H2 H3 H4 H5 H6] Hids Hc.
  assert (Heq : ∀ k, next_kypacket_seq s ≤ k → ids_of (rs ++ [r]) k = ids_of rs k).
  { intros k Hk. rewrite fmap_app. cbn. rewrite packet_ids_snoc, (Hids k Hk). set_solver. }
  split; try done.
  - intros sg Hsg. rewrite Heq; [by apply H1|]. by destruct (gc_segments _ _ _ (fa_group _ _ _ _ HP) sg Hsg).
  - intros k p Hp Hk. rewrite Heq by done. by apply (H2 k p).
  - intros d Hd. destruct (H3 d Hd) as (Ho & r' & key & Hr & Hrest). split; [done|]. exists r', key. split; [|done]. apply elem_of_app. by left.
  - rewrite fmap_app, existsb_app. cbn. rewrite orb_false_r. intros [Hr|Hr]%orb_prop; auto.
Qed.

(** ** Taking packets *)

(** No packet has waited too long behind a missing one when the clock is read. *)
Definition timely (rs : list timed_event) (nows : nat → Instant) : Prop :=
  ∀ r k key, r ∈ rs → symbol_of r.2 = Some (k, key) → frontier max sent_packets (snd <$> rs) < k → ∀ i, nows i < r.1.1 + MAX_BUFFERING.

Lemma min_instant_held g m : min_instant g = Some m → ∃ d, d ∈ ag_datagrams g ∧ ad_instant d = m.
Proof.
  unfold min_instant. revert m. induction (ag_datagrams g) as [|d ds IH]; intros m; [done|]. cbn.
  destruct (foldr _ None ds) as [x|] eqn:Hx; cbn; intros [= <-].
  - destruct (Z.min_spec (ad_instant d) x) as [[_ ->]|[_ ->]]; [exists d; split; [left|done]|].
    destruct (IH x eq_refl) as (d' & Hd & Hi). exists d'. split; [by right|done].
  - exists d. split; [left|done].
Qed.

Lemma head_not_next next d ds : sorted_by ad_seq (d :: ds) → next ≤ ad_seq d → ad_seq d ≠ next → ∀ x, x ∈ d :: ds → next < ad_seq x.
Proof.
  intros [_ Hlt]%sorted_cons Hle Hne x [->|Hx]%elem_of_cons; [lia|]. rewrite Forall_forall in Hlt. specialize (Hlt x Hx). cbn in Hlt. lia.
Qed.

(** When nothing is ready, nothing can be taken. *)
Lemma idle_drained cod codec now s :
  playback_inv max cod codec s → (∀ b, next_packet now (next_kypacket_seq s) (pending_group s) ≠ NpReady b) → drained s.
Proof.
  intros HP Hn. pose proof (fa_config _ _ _ _ HP) as Hc. destruct (fa_ok _ _ _ _ HP) as [Hg _]. unfold drained, next_packet in *.
  destruct (ag_config (pending_group s)) as [|p|]; cbn [cfg_is_none cfg_is_ready] in Hn; [done|..].
  - destruct Hc as (H0 & H1 & _). rewrite H0, H1 in Hn. by destruct (Hn true).
  - pose proof (wg_datagrams _ Hg) as Hso. pose proof (gc_datagrams _ _ _ (fa_group _ _ _ _ HP)) as Hge.
    destruct (ag_datagrams (pending_group s)) as [|d ds] eqn:Hds; [apply not_elem_of_nil|].
    destruct (Z.eqb_spec (ad_seq d) (next_kypacket_seq s)) as [|Hne]; [by destruct (Hn false)|].
    intros (x & Hx & Hin)%list_elem_of_fmap. destruct (Hge d) as [Hd _]; [by left|]. pose proof (head_not_next _ _ _ Hso Hd Hne x Hin). lia.
Qed.

(** What is taken is the next packet. *)
Lemma ready_next cod codec rs nows i s k packet g' :
  playback_inv max cod codec s → on_time rs s → timely rs nows →
  take_next_packet (nows i) (next_kypacket_seq s) (pending_group s) = Ok (APacket k packet, g') → k = next_kypacket_seq s.
Proof.
  intros HP HO HT. unfold take_next_packet. destruct (next_packet _ _ _) as [|b|t] eqn:Hn; [done| |done].
  pose proof (audio_fec_next_packet_ready _ _ _ _ Hn) as (Hcn & -> & _). pose proof (fa_config _ _ _ _ HP) as Hc. unfold next_packet in Hn.
  destruct (fa_ok _ _ _ _ HP) as [Hg _]. destruct (ag_config (pending_group s)) as [|p|] eqn:Hcfg; [done|..]; cbn in *.
  - destruct Hc as (-> & H1 & _). intros [= <- _ _]. done.
  - destruct (ag_datagrams (pending_group s)) as [|d ds] eqn:Hds; [done|]. intros [= <- _ _].
    destruct (Z.eqb_spec (ad_seq d) (next_kypacket_seq s)) as [|Hne]; [done|]. exfalso.
    destruct (min_instant (pending_group s)) as [m|] eqn:Hm; [|done]. destruct (Z.leb_spec (m + MAX_BUFFERING) (nows i)) as [Hle|]; [|done].
    pose proof (wg_datagrams _ Hg) as Hso. pose proof (gc_datagrams _ _ _ (fa_group _ _ _ _ HP)) as Hge. rewrite Hds in Hso, Hge.
    destruct (Hge d) as [Hd _]; [by left|]. pose proof (head_not_next _ _ _ Hso Hd Hne) as Hlt.
    destruct (min_instant_held _ _ Hm) as (x & Hx & <-). destruct (ot_datagrams _ _ HO x Hx) as (_ & r & key & Hr & Hri & Hrs). rewrite Hds in Hx.
    assert (HD : drained s).
    { unfold drained. rewrite Hcfg, Hds. intros (y & Hy & Hin)%list_elem_of_fmap. specialize (Hlt y Hin). lia. }
    pose proof (drained_frontier _ _ _ _ HP HO HD). specialize (Hlt x Hx). specialize (HT r _ key Hr Hrs ltac:(lia) i). lia.
Qed.

Lemma kept_segment u g sg : wf_group g → sg ∈ ag_segments g → u < as_seq sg → sg ∈ ag_segments (drop_expired_segments u g).
Proof.
  intros Hg Hsg Hu. by apply (kept_after_search as_seq); [apply Hg|..].
Qed.

(** What is left after the next packet has been taken *)
Lemma taken_on_time cod codec rs now s packet g' :
  playback_inv max cod codec s → on_time rs s →
  take_next_packet now (next_kypacket_seq s) (pending_group s) = Ok (APacket (next_kypacket_seq s) packet, g') →
  ag_config g' ≠ CfgNone ∧ (∀ sg, sg ∈ ag_segments g' → sg ∈ ag_segments (pending_group s)) ∧
  (∀ d, d ∈ ag_datagrams g' → d ∈ ag_datagrams (pending_group s)) ∧
  (∀ d, d ∈ ag_datagrams (pending_group s) → ad_seq d ≠ next_kypacket_seq s → d ∈ ag_datagrams g') ∧
  (∀ sg, sg ∈ ag_segments (pending_group s) → next_kypacket_seq s < as_seq sg → sg ∈ ag_segments g').
Proof.
  intros HP HO. unfold take_next_packet. destruct (next_packet _ _ _) as [|b|t] eqn:Hn; [done| |done].
  pose proof (audio_fec_next_packet_ready _ _ _ _ Hn) as (Hcn & -> & _). destruct (fa_ok _ _ _ _ HP) as [Hg _].
  destruct (ag_config (pending_group s)) as [|p|] eqn:Hcfg; [done|..]; cbn [cfg_is_none cfg_is_ready cfg_consume negb rassert mbind outcome_bind].
  - intros [= _ _ <-]. done.
  - destruct (ag_datagrams (pending_group s)) as [|d ds] eqn:Hds; [done|]. intros [= Hk _ <-]. cbn [drop_expired_segments with_segments with_datagrams ag_config ag_datagrams].
    rewrite Hcfg. split_and!; [done|by intros sg Hsg%elem_of_drop|intros x Hx; by right|intros x [->|Hx]%elem_of_cons Hne; done|].
    intros sg Hsg Hlt. rewrite <- Hk in Hlt. pose proof (kept_segment (ad_seq d) _ sg Hg Hsg Hlt) as Hkeep. done.
Qed.

Lemma take_step_on_time cod codec rs nows i s :
  playback_inv max cod codec s → on_time rs s → timely rs nows →
  ∃ s' b, take_step (nows i) s = (s', Ok b) ∧ on_time rs s' ∧ (b = false → drained s').
Proof.
  intros HP HO HT. destruct (audio_take_next_packet_spec (nows i) (next_kypacket_seq s) (pending_group s) (fa_ok _ _ _ _ HP)) as (a & g & Ht & Ha).
  pose proof (audio_fec_take_content max _ _ _ _ _ (fa_ok _ _ _ _ HP) (fa_group _ _ _ _ HP) (fa_config _ _ _ _ HP) Ht) as Hc.
  unfold take_step. rewrite Ht. pose proof HO as [H1 H2 H3 H4 H5 H6].
  destruct a as [k packet|t|].
  - pose proof (ready_next _ _ _ _ _ _ _ _ _ HP HO HT Ht) as ->. destruct (taken_on_time _ _ _ _ _ _ _ HP HO Ht) as (Hcfg & Hsub & Hdsub & Hkeep & Hskeep).
    destruct Hc as (Hk & Hcn & _ & _ & p & [Hp0 Hp] & ->). pose proof (fa_codec _ _ _ _ HP Hcn) as Hcodec.
    destruct (fa_frame _ _ _ _ HP Hcodec) as [f Hf]. run_handler. cbn [frame_size set_group]. rewrite Hf. cbn [ok_or]. unfold fill_gap; run_handler.
    cbn [next_kypacket_seq set_group]. rewrite Z.ltb_irrefl. unfold send_client. cbn [mret handler_ret client_open set_next set_group]. rewrite (fa_open _ _ _ _ HP).
    eexists _, true. split; [done|]. split; [|done]. split; cbn.
    + intros sg Hsg%Hsub. by apply H1.
    + intros k q Hq Hkn Hids. destruct (H2 k q Hq ltac:(lia) Hids) as [(d & -> & Hd)%list_elem_of_fmap|(sg & Hsg & Hsk & Hrec)].
      * left. apply list_elem_of_fmap. exists d. split; [done|]. apply Hkeep; [done|lia].
      * right. exists sg. split_and!; [|done|done]. apply Hskeep; [done|lia].
    + intros d Hd%Hdsub. by apply H3.
    + done.
    + rewrite fmap_app, omap_app, H5. cbn. replace (Z.to_nat (next_kypacket_seq s + 1)) with (S (Z.to_nat (next_kypacket_seq s))) by lia. by rewrite (take_S_r _ _ p).
    + apply Forall_app. split; [done|]. by repeat constructor.
  - destruct Ha as [-> Hn]. eexists _, false. split; [done|]. split; [by split|]. intros _.
    apply (idle_drained cod codec (nows i) s HP). intros b. by rewrite Hn.
  - destruct Ha as [-> Hn]. eexists _, false. split; [done|]. split; [by split|]. intros _.
    apply (idle_drained cod codec (nows i) s HP). intros b. by rewrite Hn.
Qed.

Lemma drain_loop_on_time cod codec rs nows fuel i s :
  playback_inv max cod codec s → on_time rs s → timely rs nows → (deliverable (pending_group s) < fuel)%nat →
  ∃ s', drain_loop fuel nows i s = (s', Ok tt) ∧ on_time rs s' ∧ drained s'.
Proof.
  intros HP HO HT. revert i s HP HO. induction fuel as [|fuel IH]; intros i s HP HO Hf; [lia|]. cbn [drain_loop]. run_handler.
  destruct (take_step_on_time _ _ _ _ i _ HP HO HT) as (s1 & b & Ht & HO1 & Hb). pose proof (audio_fec_take_step max _ _ _ _ _ _ HP Ht) as HP1.
  destruct (take_step_spec (nows i) s (fa_ok _ _ _ _ HP)) as (s2 & r2 & Ht2 & _ & _ & _ & _ & _ & Hmore & _). rewrite Ht in Ht2. injection Ht2 as <- <-.
  rewrite Ht. destruct b; [|exists s1; by split_and!; [|..|apply Hb]]. apply IH; [done|done|]. specialize (Hmore eq_refl). lia.
Qed.

Lemma drain_on_time cod codec rs nows s :
  playback_inv max cod codec s → on_time rs s → timely rs nows → ∃ s', drain nows s = (s', Ok tt) ∧ on_time rs s' ∧ drained s'.
Proof. intros HP HO HT. eapply drain_loop_on_time; [done|done|done|lia]. Qed.

(** ** The budget *)

Lemma demand_nonneg k : 0 ≤ demand max sent_packets k.
Proof.
  unfold demand. destruct (sent_packets !! Z.to_nat k) as [p|] eqn:Hp; [|lia]. destruct (is_config (header p)) eqn:Hc; [unfold blen; lia|].
  assert (Hs : is_sent (Z.of_nat (Z.to_nat k)) p) by (split; [lia|by rewrite Nat2Z.id]).
  destruct (audio_objects_wf max _ p Hs Hc) as (_ & _ & Hv). by apply validate_oti_acceptable, reservation_nonneg in Hv.
Qed.

Lemma media_demand k p : media_sent k p → demand max sent_packets k = reservation (audio_oti max p).
Proof. intros [[_ Hp] Hc]. unfold demand. by rewrite Hp, Hc. Qed.

Lemma media_begun evs k p : media_sent k p → symbol_ids evs k ≠ ∅ → begun sent_packets evs k = true.
Proof. intros [[_ Hp] Hc] Hne. unfold begun. rewrite Hp, Hc. by apply bool_decide_eq_true. Qed.

(** The numbers of what is pending *)
Definition pending_numbers (g : PendingGroup) : list Z := (as_seq <$> ag_segments g) ++ (ad_seq <$> ag_datagrams g).

Lemma pending_usage cod codec rs s :
  playback_inv max cod codec s → on_time rs s →
  NoDup (pending_numbers (pending_group s)) ∧ media_objects (pending_group s) = Z.of_nat (length (pending_numbers (pending_group s))) ∧
  media_bytes (pending_group s) = sum_list_with (demand max sent_packets) (pending_numbers (pending_group s)).
Proof.
  intros HP HO. destruct (fa_ok _ _ _ _ HP) as [Hg _]. pose proof (fa_group _ _ _ _ HP) as HC. unfold pending_numbers. split_and!.
  - apply NoDup_app. split_and!; [apply sorted_NoDup, Hg| |apply sorted_NoDup, Hg].
    intros k (sg & -> & Hsg)%list_elem_of_fmap (d & Heq & Hd)%list_elem_of_fmap. by apply (gc_disjoint _ _ _ HC d sg).
  - unfold media_objects. rewrite length_app, !length_fmap. lia.
  - unfold media_bytes. rewrite sum_list_app, !sum_list_fmap. f_equal; apply sum_list_ext.
    + intros sg Hsg. destruct (ot_segments _ _ HO sg Hsg) as [(p & Hp & Hopen) _]. by rewrite (open_object_oti _ _ _ _ Hopen), (media_demand _ p Hp).
    + intros d Hd. destruct (gc_datagrams _ _ _ HC d Hd) as [_ (p & Hp & _)]. destruct (ot_datagrams _ _ HO d Hd) as [Ho _].
      by rewrite (Ho p Hp), (media_demand _ p Hp).
Qed.

Lemma pending_in_flight cod codec rs r s k :
  playback_inv max cod codec s → on_time rs s → drained s → k ∈ pending_numbers (pending_group s) →
  k ∈ in_flight sent_packets (frontier max sent_packets (snd <$> rs)) (snd <$> rs ++ [r]).
Proof.
  intros HP HO HD Hk. pose proof (drained_frontier _ _ _ _ HP HO HD) as Hf. pose proof (fa_group _ _ _ _ HP) as HC.
  assert (Hm : ∃ p, media_sent k p ∧ next_kypacket_seq s ≤ k ∧ ids_of rs k ≠ ∅).
  { unfold pending_numbers in Hk. apply elem_of_app in Hk as [(sg & -> & Hsg)%list_elem_of_fmap|(d & -> & Hd)%list_elem_of_fmap].
    - destruct (ot_segments _ _ HO sg Hsg) as [(p & Hp & _) Hne]. exists p. split_and!; [done| |done]. by destruct (gc_segments _ _ _ HC sg Hsg).
    - destruct (gc_datagrams _ _ _ HC d Hd) as [Hle (p & Hp & _)]. exists p. split_and!; [done|done|].
      destruct (ot_datagrams _ _ HO d Hd) as (_ & r' & key & Hr & _ & Hs). assert (key ∈ ids_of rs (ad_seq d)); [|set_solver].
      apply elem_of_packet_ids. exists r'.2. split; [|done]. apply list_elem_of_fmap. by exists r'. }
  destruct Hm as (p & Hp & Hle & Hne). pose proof Hp as [[Hp0 Hlk] _]. apply lookup_lt_Some in Hlk. apply list_elem_of_filter. split; [split; [lia|]|].
  - apply (media_begun _ _ p Hp). rewrite fmap_app. cbn. rewrite packet_ids_snoc. set_solver.
  - apply elem_of_numbers. lia.
Qed.

(** A packet that begins to arrive finds room. *)
Lemma check_capacity_fits cod codec rs r s k :
  playback_inv max cod codec s → on_time rs s → drained s →
  fits max sent_packets (in_flight sent_packets (frontier max sent_packets (snd <$> rs)) (snd <$> rs ++ [r])) →
  k ∉ pending_numbers (pending_group s) → next_kypacket_seq s ≤ k → k < Z.of_nat (length sent_packets) →
  begun sent_packets (snd <$> rs ++ [r]) k = true → check_capacity (demand max sent_packets k) (pending_group s) = Ok tt.
Proof.
  intros HP HO HD Hfits Hk Hle Hlt Hb. destruct (pending_usage _ _ _ _ HP HO) as (Hnd & Ho & Hby). pose proof (drained_frontier _ _ _ _ HP HO HD) as Hf.
  pose proof (fa_next _ _ _ _ HP) as H0.
  destruct (fits_some max sent_packets _ (k :: pending_numbers (pending_group s)) demand_nonneg Hfits) as [F1 F2].
  { by constructor. }
  { intros x [->|Hx]%elem_of_cons; [|by eapply pending_in_flight]. apply list_elem_of_filter. split; [split; [lia|done]|]. apply elem_of_numbers. lia. }
  rewrite sum_list_cons in F2. cbn [length] in F1. pose proof (demand_nonneg k). destruct (audio_usage_split (pending_group s)) as [U1 U2].
  assert (Hcz : config_objects (ag_config (pending_group s)) = 0 ∧ config_bytes (ag_config (pending_group s)) = 0) by (unfold drained in HD; by destruct (ag_config _)).
  assert (0 ≤ sum_list_with (demand max sent_packets) (pending_numbers (pending_group s))) by (apply sum_list_nonneg; intros; apply demand_nonneg).
  unfold check_capacity. destruct (usage (pending_group s)) as [o b]. cbn [fst snd] in U1, U2. unfold check_pending, bail_if.
  destruct (_ || _) eqn:Hbad; [exfalso|done]. lia.
Qed.

(** ** [process] *)

Lemma on_time_datagram rs now nows m p s g' :
  on_time rs s → media_sent (dm_raw_kypacket_seq m) p →
  inserted now (dm_raw_kypacket_seq m) p (source_block_number (dm_payload_id m), encoding_symbol_id (dm_payload_id m)) (pending_group s) g' →
  on_time (rs ++ [(now, nows, EvMsg (RDatagram m))]) (set_group g' s).
Proof.
  intros [H1 H2 H3 H4 H5 H6] Hp [I1 I2 I3 I4 I5 I6]. set (r := (now, nows, EvMsg (RDatagram m))). set (k := dm_raw_kypacket_seq m) in *.
  set (key := (source_block_number (dm_payload_id m), encoding_symbol_id (dm_payload_id m))) in *.
  assert (Hother : ∀ j, j ≠ k → ids_of (rs ++ [r]) j = ids_of rs j).
  { intros j Hj. rewrite fmap_app. apply (packet_ids_kept symbol_of). cbn. fold k. done. }
  assert (Hself : ∀ x, x ∈ ids_of (rs ++ [r]) k ↔ x ∈ ids_of rs k ∨ x = key).
  { intros x. rewrite fmap_app. by apply (packet_ids_self symbol_of). }
  split; cbn [set_group pending_group next_kypacket_seq client]; try done.
  - intros sg [[Hsg Hne]|[-> Hopen]]%I5; [rewrite Hother by done; by apply H1|]. split; [done|]. intros He. apply (not_elem_of_empty (C := gset (Z * Z)) key). rewrite <- He. apply Hself. by right.
  - intros j q Hq Hj Hne. destruct (decide (j = k)) as [->|Hjk].
    + destruct I6 as [?|(sg & Hsg & Hsk & Hkey & Hold)]; [by left|].
      assert (Htr : k ∈ ad_seq <$> ag_datagrams (pending_group s) ∨ ids_of rs k ⊆ Fec.received (as_decoder sg)).
      { destruct (decide (ids_of rs k = ∅)) as [->|Hne0]; [right; set_solver|]. destruct (H2 k q Hq Hj Hne0) as [?|(sg0 & Hsg0 & Hk0 & Hrec)]; [by left|right].
        etrans; [exact Hrec|by apply Hold]. }
      destruct Htr as [(d & Hdk & Hd)%list_elem_of_fmap|Htr]; [left; apply list_elem_of_fmap; exists d; by auto|].
      right. exists sg. split_and!; [done|done|]. intros x [Hx| ->]%Hself; [by apply Htr|done].
    + rewrite Hother in Hne |- * by done. destruct (H2 j q Hq Hj Hne) as [(d & Hdk & Hd)%list_elem_of_fmap|(sg & Hsg & Hsk & Hrec)].
      * left. apply list_elem_of_fmap. exists d. by auto.
      * right. exists sg. split_and!; [|done|done]. apply I4; [done|congruence].
  - intros d [Hd|(Hdk & Hdo & Hdi)]%I3.
    + destruct (H3 d Hd) as (Ho & r' & key' & Hr & Hrest). split; [done|]. exists r', key'. split; [|done]. apply elem_of_app. by left.
    + split; [|exists r, key; split; [apply elem_of_app; right; left|by rewrite Hdk, Hdi]]. rewrite Hdk. intros q Hq. by rewrite (media_sent_unique _ _ _ Hq Hp).
  - rewrite fmap_app, existsb_app. cbn. rewrite !orb_false_r, I1. done.
Qed.

(** The config, before any packet has been taken *)
Lemma config_on_time cod codec rs r s p :
  playback_inv max cod codec s → on_time rs s → drained s → is_sent 0 p → is_config (header p) = true →
  fits max sent_packets (in_flight sent_packets (frontier max sent_packets (snd <$> rs)) (snd <$> rs ++ [r])) →
  symbol_of r.2 = None → config_event r.2 = true → next_kypacket_seq s = 0 →
  ∃ s', update_group (insert_stream_packet 0 (Media p)) s = (s', Ok tt) ∧ on_time (rs ++ [r]) s'.
Proof.
  intros HP HO HD Hs Hc Hfits Hsym Hev Hn. pose proof (fa_config _ _ _ _ HP) as Hcr.
  assert (Hnone : ag_config (pending_group s) = CfgNone).
  { unfold drained in HD. destruct (ag_config (pending_group s)) as [|x|]; [done|done|]. cbn in Hcr. lia. }
  unfold update_group, insert_stream_packet. rewrite Hc, Hnone. cbn [cfg_is_none negb orb bail_if mbind outcome_bind].
  assert (Hdem : demand max sent_packets 0 = blen (payload p)) by (unfold demand; destruct Hs as [_ ->]; by rewrite Hc).
  pose proof (lookup_lt_Some _ _ _ (proj2 Hs)). rewrite <- Hdem, (check_capacity_fits _ _ rs r s 0 HP HO HD Hfits); [| |lia|lia|].
  - cbn [mbind outcome_bind]. eexists. split; [done|]. destruct HO as [H1 H2 H3 H4 H5 H6].
    assert (Heq : ∀ k, ids_of (rs ++ [r]) k = ids_of rs k).
    { intros k. rewrite fmap_app. apply (packet_ids_kept symbol_of). by rewrite Hsym. }
    split; cbn [set_group pending_group with_config ag_segments ag_datagrams ag_config next_kypacket_seq client]; try done.
    + intros sg Hsg. rewrite Heq. by apply H1.
    + intros k x. rewrite Heq. apply H2.
    + intros d Hd. destruct (H3 d Hd) as (Ho & r' & key & Hr & Hrest). split; [done|]. exists r', key. split; [|done]. apply elem_of_app. by left.
  - unfold pending_numbers. intros [(sg & Hk & Hsg)%list_elem_of_fmap|(d & Hk & Hd)%list_elem_of_fmap]%elem_of_app.
    + destruct (ot_segments _ _ HO sg Hsg) as [(x & Hx & _) _]. pose proof (media_sent_positive max _ _ Hx). lia.
    + destruct (gc_datagrams _ _ _ (fa_group _ _ _ _ HP) d Hd) as [_ (x & Hx & _)]. pose proof (media_sent_positive max _ _ Hx). lia.
  - unfold begun. destruct Hs as [_ ->]. rewrite Hc, fmap_app, existsb_app. cbn. by rewrite Hev, orb_true_r.
Qed.

(** A symbol of a packet that has not been taken *)
Lemma symbol_on_time cod codec rs now nows m p s :
  playback_inv max cod codec s → on_time rs s → drained s → media_sent (dm_raw_kypacket_seq m) p →
  (dm_payload_id m, dm_data m) ∈ audio_packets max p → next_kypacket_seq s ≤ dm_raw_kypacket_seq m →
  fits max sent_packets (in_flight sent_packets (frontier max sent_packets (snd <$> rs)) (snd <$> rs ++ [(now, nows, EvMsg (RDatagram m))])) →
  ∃ s', update_group (insert_datagram now (dm_raw_kypacket_seq m) (audio_oti max p) (dm_payload_id m) (dm_data m)) s = (s', Ok tt) ∧
    on_time (rs ++ [(now, nows, EvMsg (RDatagram m))]) s'.
Proof.
  intros HP HO HD Hp Hin Hle Hfits. set (r := (now, nows, EvMsg (RDatagram m))) in *.
  destruct (insert_datagram_total _ now (dm_raw_kypacket_seq m) p (dm_payload_id m) (dm_data m) _ (fa_ok _ _ _ _ HP) (fa_group _ _ _ _ HP)) as (g' & Hins & Hi); [| |done|done| |].
  - intros sg Hsg. apply (ot_segments _ _ HO sg Hsg).
  - intros d Hd Hdk. destruct (ot_datagrams _ _ HO d Hd) as [Hdo _]. apply Hdo. by rewrite Hdk.
  - intros Hn1 Hn2. rewrite <- (media_demand _ _ Hp). pose proof (lookup_lt_Some _ _ _ (proj2 (proj1 Hp))). pose proof (media_sent_positive max _ _ Hp).
    apply (check_capacity_fits _ _ rs r s _ HP HO HD Hfits); [|done|lia|].
    + unfold pending_numbers. by intros [?|?]%elem_of_app.
    + apply (media_begun _ _ p Hp). rewrite fmap_app.
      assert ((source_block_number (dm_payload_id m), encoding_symbol_id (dm_payload_id m)) ∈ symbol_ids (rs.*2 ++ [r.2]) (dm_raw_kypacket_seq m)); [|set_solver].
      apply (packet_ids_self symbol_of _ r.2 _ _ _ eq_refl). by right.
  - unfold update_group. rewrite Hins. eexists. split; [done|]. by apply (on_time_datagram rs now nows m p s g').
Qed.

Lemma handle_on_time cod codec rs now nows ev rest s :
  playback_inv max cod codec s → genuine max ev → codec_first codec (ev :: rest) → on_time rs s → drained s →
  round_steady max sent_packets rs (now, nows, ev) →
  ∃ s1 fl, handle_event now ev s = (s1, Ok fl) ∧ on_time (rs ++ [(now, nows, ev)]) s1 ∧ (fl = Continue ∧ drained s1 ∨ fl = Proceed).
Proof.
  intros HP Hgen Hfirst HO HD (Hcar & Hfits & _). cbn [fst snd] in Hcar. set (r := (now, nows, ev)) in *.
  destruct ev as [[m|m]|e| |]; [| |done|done|]; cbn [handle_event genuine codec_first] in *.
  - destruct (sm_packet m) as [c|p|h] eqn:Hpk; [| |done].
    + run_handler. destruct (Z.eqb_spec (Av.frame_size (codec_header c)) 0); [done|]. cbn [bail_if]. unfold send_client. cbn [client_open set_frame_size].
      rewrite (fa_open _ _ _ _ HP). eexists _, Continue. split; [done|]. split; [|by left].
      assert (HO' : on_time (rs ++ [r]) s).
      { apply (on_time_snoc cod codec); [done|done|by intros; apply (packet_ids_other symbol_of)|]. cbn. by rewrite Hpk. }
      destruct HO' as [H1 H2 H3 H4 H5 H6]. split; cbn; try done; [by rewrite fmap_app, omap_app, H5, app_nil_r|].
      apply Forall_app. split; [done|]. by repeat constructor.
    + destruct Hgen as [Hs Hc]. destruct (audio_fec_unroll max _ _ _ _ HP (is_sent_bound _ _ Hs)) as (q & Hu & HP1).
      pose proof (proj1 (audio_config_first max _ _ Hs) Hc) as Hk0. rewrite Hk0 in *. rewrite (handler_bind_eq _ _ _ _ _ Hu).
      rewrite (handler_bind_eq (getM next_kypacket_seq) _ _ (set_sequencer q s) (next_kypacket_seq (set_sequencer q s)) eq_refl).
      assert (HO1 : on_time rs (set_sequencer q s)) by (destruct HO; by split). set (s1 := set_sequencer q s) in *.
      assert (HD1 : drained s1) by exact HD. pose proof (fa_next _ _ _ _ HP1) as Hn. pose proof (fa_config _ _ _ _ HP1) as Hcr.
      destruct (Z.leb_spec (next_kypacket_seq s1) 0) as [Hle|Hgt].
      * destruct (config_on_time _ _ rs r s1 p HP1 HO1 HD1 Hs Hc Hfits) as (s2 & Hup & HO2); [done|cbn; by rewrite Hpk|lia|].
        rewrite (handler_bind_eq _ _ _ _ _ Hup). eexists _, Proceed. split; [done|]. split; [done|by right].
      * eexists _, Proceed. split; [done|]. split; [|by right]. apply (on_time_snoc cod codec); [done|done|by intros; apply (packet_ids_other symbol_of)|].
        intros _ Hnone. rewrite Hnone in Hcr. unfold config_ready in Hcr. lia.
  - destruct Hgen as (p & Hp & Ho & Hin). pose proof (media_sent_positive max _ _ Hp).
    destruct (audio_fec_unroll max _ _ (dm_raw_kypacket_seq m) _ HP) as (q & Hu & HP1); [lia|]. rewrite (handler_bind_eq _ _ _ _ _ Hu).
    rewrite (handler_bind_eq (getM next_kypacket_seq) _ _ (set_sequencer q s) (next_kypacket_seq (set_sequencer q s)) eq_refl).
    assert (HO1 : on_time rs (set_sequencer q s)) by (destruct HO; by split). set (s1 := set_sequencer q s) in *. assert (HD1 : drained s1) by exact HD.
    destruct (Z.ltb_spec (dm_raw_kypacket_seq m) (next_kypacket_seq s1)) as [Hlt|Hle].
    { eexists _, Continue. split; [done|]. split; [|by left]. apply (on_time_snoc cod codec); [done|done| |done].
      intros k Hk. apply (packet_ids_other symbol_of). cbn. lia. }
    rewrite Ho. destruct (symbol_on_time _ _ rs now nows m p s1 HP1 HO1 HD1 Hp Hin Hle Hfits) as (s2 & Hup & HO2).
    rewrite (handler_bind_eq _ _ _ _ _ Hup). eexists _, Proceed. split; [done|]. split; [done|by right].
  - eexists _, Proceed. split; [done|]. split; [|by right]. apply (on_time_snoc cod codec); [done|done|by intros; apply (packet_ids_other symbol_of)|done].
Qed.

Lemma steady_timely rs now nows ev : round_steady max sent_packets rs (now, nows, ev) → timely (rs ++ [(now, nows, ev)]) nows.
Proof.
  intros (_ & _ & Hall) r k key Hr Hs Hk i. rewrite Forall_forall in Hall. specialize (Hall r Hr). rewrite Hs in Hall. by apply Hall.
Qed.

Lemma step_on_time cod codec rs now nows ev rest s :
  playback_inv max cod codec s → genuine max ev → codec_first codec (ev :: rest) → on_time rs s → drained s →
  round_steady max sent_packets rs (now, nows, ev) →
  ∃ s', step now nows ev s = (s', Ok true) ∧ on_time (rs ++ [(now, nows, ev)]) s' ∧ drained s'.
Proof.
  intros HP Hgen Hfirst HO HD Hst. destruct (handle_on_time _ _ _ _ nows _ _ _ HP Hgen Hfirst HO HD Hst) as (s1 & fl & Hh & HO1 & Hfl).
  destruct (audio_fec_handle max _ _ _ _ _ _ _ _ HP Hgen Hfirst Hh) as (co & HP1 & _). unfold step. rewrite (handler_bind_eq _ _ _ _ _ Hh).
  destruct Hfl as [[-> HD1]| ->]; [by exists s1|].
  destruct (drain_on_time _ _ _ nows _ HP1 HO1 (steady_timely _ _ _ _ Hst)) as (s2 & Hd & HO2 & HD2). rewrite (handler_bind_eq _ _ _ _ _ Hd). by exists s2.
Qed.

Lemma rounds_on_time cod codec rs evs s :
  playback_inv max cod codec s → Forall (genuine max) (snd <$> evs) → codec_first codec (snd <$> evs) → on_time rs s → drained s →
  steady max sent_packets rs evs →
  ∃ s', run_rounds (D := audio_fec_driver) evs s = (s', Ok true) ∧ on_time (rs ++ evs) s' ∧ drained s' ∧ ∃ cod' codec', playback_inv max cod' codec' s'.
Proof.
  revert cod codec rs s. induction evs as [|[[now nows] ev] evs IH]; intros cod codec rs s HP Hgen Hfirst HO HD Hst; cbn [run_rounds].
  { exists s. rewrite app_nil_r. by eauto 10. }
  apply Forall_cons in Hgen as [Hg Hgen]. destruct Hst as [Hst1 Hst]. cbn [round audio_fec_driver fst snd].
  destruct (step_on_time _ _ _ now nows ev (evs.*2) _ HP Hg Hfirst HO HD Hst1) as (s1 & Hs & HO1 & HD1).
  destruct (audio_fec_step max _ _ _ _ _ _ _ _ _ HP Hg Hfirst Hs) as (co & HP1 & Hrest). rewrite Hs.
  destruct (IH _ _ _ _ HP1 Hgen Hrest HO1 HD1 Hst) as (s' & Hr & HO' & HD' & HP'). exists s'. rewrite <- app_assoc in HO'. done.
Qed.
End Complete.
