(* ===== verification/AudioFecDelivery.v ===== *)
(** * Audio with error correction: delivery

    The promise of the whole system, from [send] to [recv], to a network that
    loses symbols but not too many of them, and not for too long: nothing of the
    session is lost and no hole is announced. *)

From stdpp Require Import prelude list gmap strings.
From Stdlib Require Import ZArith Lia.
From S2P Require Import Prelude SortedVec Sequencer Io Av Packets Channel Reassembly Router ReceiveTasks StreamSession VideoOrder VideoSession VideoEndToEnd Fec SystematicCode FecSafety VideoUnreliableFec VideoFecEndToEnd FecTransfer FecRecovery Arrivals AudioOrder AudioSession AudioEndToEnd AudioFecSafety AudioUnreliableFec AudioFecReceive AudioFecSession AudioFecEndToEnd AudioFecComplete.
Open Scope Z_scope.

Section Delivery.
Context `{RL : RaptorQLaws} {RR : RaptorQRecovery}.

(** Every media packet has few enough source blocks for the cap of the decoder
    to let all its symbols in. *)
Definition few_blocks (max : Z) (p : MediaPacket) : Prop := is_config (header p) = false → source_blocks (audio_oti max p) ≤ 3.

(** C6: delivery of audio with error correction.  The sender sends any session of
    a codec, a config and media packets that the receiver's limits allow; the
    network delivers some of the symbols, in any order and any number of times,
    and the tasks are scheduled in any way, as long as the run is steady: what is
    in flight fits the receive budget, no packet waits for [MAX_BUFFERING] behind
    one that has not arrived, and no reader fails.  Then [process] does not fail,
    it announces no hole, and it has sent the client, in order, all the packets up to the first one
    of which not enough has arrived; the client receives them as soon as it
    asks for them.  When all have arrived, the client is sent the whole session. *)
Theorem audio_fec_session_delivered endpoint max l :
  Z.of_nat DATAGRAM_HEADER_SIZE < max < 0x10000 → Forall (sendable max) l → in_shape false false l → Z.of_nat (length l) < 2 ^ 31 →
  Forall (few_blocks max) (omap media_of l) →
  ∃ sent wire k,
    send_all l (send_start (open_channel endpoint max []) (open_writer [])) = (driver_at endpoint max sent wire k, Ok tt) ∧
    ∀ stream stats acts s obs,
      rd_data stream `prefix_of` wire → exec acts (audio_fec_start stream stats) = Some (s, obs) →
      (∀ b, b ∈ datagrams_read obs → b ∈ sent) → steady max (omap media_of l) [] (rounds obs) →
      (run_rounds (rounds obs) (process_init stats)).2 = Ok true ∧
      Forall (λ p, is_hole p = false) (ReceiveTasks.sent (process_state s)) ∧
      (∃ n, frontier max (omap media_of l) (snd <$> rounds obs) ≤ n ∧
         omap media_of (ReceiveTasks.sent (process_state s)) = take (Z.to_nat n) (omap media_of l)) ∧
      ((∀ k, 0 ≤ k < Z.of_nat (length (omap media_of l)) → arrived max (omap media_of l) (snd <$> rounds obs) k = true) →
         omap media_of (ReceiveTasks.sent (process_state s)) = omap media_of l) ∧
      ReceiveTasks.received obs `prefix_of` ReceiveTasks.sent (process_state s) ∧
      (future (process_task s) = Selecting → mq (client_queue s) = [] → rx_open (client_queue s) = true →
         ReceiveTasks.received obs = ReceiveTasks.sent (process_state s)).
Proof.
  intros Hmax Hl Hs Hlen Hfew. destruct (audio_fec_send_all_at endpoint max Hmax l [] [] 0 Hl ltac:(lia) ltac:(lia)) as (k & Hsend).
  exists (session_datagrams endpoint max 0 l), (stream_bytes (stream_messages 0 l)), k. split; [exact Hsend|].
  intros stream stats acts s obs Hpre He Hdg Hst.
  destruct (audio_fec_taken_of_sender endpoint max l stream stats acts s obs Hmax Hl Hlen Hs Hpre He Hdg) as (Hgen & Hsm & _).
  pose proof (rounds_of_taken (D := audio_fec_driver) obs) as Hin.
  pose proof (rounds_omap (D := audio_fec_driver) stream_of obs eq_refl eq_refl) as Hfs.
  destruct (driver_inv _ _ _ _ _ He) as [_ _ (r & Hrun & _) (rest & Hsent & Hrest) _ _ _ _].
  pose (SS := audio_fec_session max l Hlen). pose proof (audio_fec_session_ok max Hmax l Hl Hlen Hs) as SO.
  assert (Hall : Forall (genuine (SE := SS) max) (snd <$> rounds obs)).
  { apply Forall_forall. intros ev Hev. destruct (Hin ev Hev) as [Ht|[->| ->]]; [by apply Hgen|done|done]. }
  assert (Hfirst : codec_first false (snd <$> rounds obs)).
  { eapply leads_first; [rewrite Hfs; exact Hsm|]. eapply stream_messages_lead; [exact Hs|]. eapply Forall_impl; [exact Hl|].
    intros [] Hp; [by right|by left|done]. }
  assert (Hblocks : ∀ k p, media_sent (SE := SS) k p → source_blocks (audio_oti max p) ≤ 3).
  { intros k' p [[_ Hp] Hc]. rewrite Forall_forall in Hfew. apply Hfew; [|done]. by eapply list_elem_of_lookup_2. }
  destruct (on_time_init (SE := SS) max Hblocks stats) as [HO0 HD0].
  destruct (rounds_on_time (SE := SS) max Hblocks _ _ _ _ _ (playback_init (SE := SS) max stats) Hall Hfirst HO0 HD0 Hst) as (s' & Hr & HO & HD & cod & codec & HP).
  rewrite Hrun in Hr. injection Hr as <- ->. cbn [app] in HO. pose proof (drained_frontier (SE := SS) max _ _ _ _ HP HO HD) as Hfr.
  pose proof (ot_media _ _ _ HO) as Hm. pose proof (ot_holes _ _ _ HO) as Hh. cbn [ReceiveTasks.sent audio_fec_driver process_init client fmap list_fmap app] in *.
  change sent_packets with (omap media_of l) in *. split_and!.
  - by rewrite Hrun.
  - by apply Forall_fmap.
  - by exists (next_kypacket_seq (process_state s)).
  - intros Hk. rewrite Hm. apply first_missing_all in Hk. unfold frontier in *. apply take_ge. lia.
  - rewrite Hsent. by apply prefix_app_r.
  - intros Hsel Hq Hopen. specialize (Hrest Hopen). rewrite Hsel in Hrest. cbn in Hrest. by rewrite Hsent, Hq, Hrest, !app_nil_r.
Qed.
End Delivery.

(** ** A sample, with the systematic code: the datagrams come last first *)

Definition delivery_actions : list (ReceiveTasks.Action (Time:=Instant * (nat → Instant))) :=
  [ReadStream; PushStream; Round sample_time false; Deliver; Recv] ++
  concat ((λ b, [GotDatagram (inr b); PushDatagram; Round sample_time false]) <$> reverse audio_fec_sample_wire.2) ++
  [ReadStream; PushStream; Round (9000, λ _, 9000) false; Deliver; Recv; Deliver; Recv; Deliver; Recv].

Definition delivery_run : option (Pipeline * list Obs) := exec delivery_actions (audio_fec_start (H := systematic) audio_fec_sample_stream stats_default).

Example delivery_sample_received : option_map (λ r, ReceiveTasks.received (snd r)) delivery_run = Some audio_sample.
Proof. by vm_compute. Qed.

Definition delivery_rounds : list (Instant * (nat → Instant) * @Event systematic) :=
  Eval vm_compute in default [] (option_map (λ r, rounds (snd r)) delivery_run).

#[local] Instance fits_dec `{RaptorQRecovery} max packets ks : Decision (fits max packets ks).
Proof. unfold fits. apply _. Defined.

Lemma delivery_steady : steady (RR := systematic_recovery) 30 (omap media_of audio_sample) [] delivery_rounds.
Proof.
  unfold delivery_rounds. cbn [steady app].
  repeat (split; [split; [done|split; [apply (bool_decide_unpack _); by vm_compute|repeat constructor; cbn; done || (intros _ i; by vm_compute)]]|]).
  done.
Qed.

Lemma delivery_arrived k :
  0 ≤ k < Z.of_nat (length (omap media_of audio_sample)) →
  arrived (RR := systematic_recovery) 30 (omap media_of audio_sample) (snd <$> delivery_rounds) k = true.
Proof. intros Hk. apply (first_missing_all (length (omap media_of audio_sample)) (arrived (RR := systematic_recovery) 30 (omap media_of audio_sample) (snd <$> delivery_rounds))); [by vm_compute|done]. Qed.

Lemma delivery_exec :
  option_map (λ r, (rounds (snd r), datagrams_read (snd r))) (exec delivery_actions (audio_fec_start (H := systematic) audio_fec_sample_stream stats_default)) =
  Some (delivery_rounds, reverse audio_fec_sample_wire.2).
Proof. vm_cast_no_check (eq_refl (Some (delivery_rounds, reverse audio_fec_sample_wire.2))). Qed.

(** The datagrams and the stream are those of the sender. *)
Lemma audio_fec_session_delivered_witness :
  ∃ sent wire k s obs,
    send_all (H := systematic) audio_sample (send_start (open_channel 5 30 []) (open_writer [])) = (driver_at 5 30 sent wire k, Ok tt) ∧
    exec delivery_actions (audio_fec_start audio_fec_sample_stream stats_default) = Some (s, obs) ∧
    omap media_of (ReceiveTasks.sent (process_state s)) = omap media_of audio_sample.
Proof.
  destruct (audio_fec_session_delivered (RL := systematic_laws) (RR := systematic_recovery) 5 30 audio_sample) as (sent & wire & k & Hsend & Hall).
  - by vm_compute.
  - apply audio_fec_sample_sendable.
  - by vm_compute.
  - by vm_compute.
  - repeat constructor; by vm_compute.
  - destruct (exec_result (λ r, (rounds (snd r), datagrams_read (snd r))) delivery_actions (audio_fec_start (H := systematic) audio_fec_sample_stream stats_default)
      (delivery_rounds, reverse audio_fec_sample_wire.2) delivery_exec) as (s & obs & He & Hr). pose proof (f_equal snd Hr) as Hd. apply (f_equal fst) in Hr. cbn [fst snd] in Hr, Hd.
    assert (Hw : audio_fec_sample_wire = (wire, sent)) by (unfold audio_fec_sample_wire; by rewrite Hsend).
    exists sent, wire, k, s, obs. split; [exact Hsend|]. split; [exact He|].
    destruct (Hall audio_fec_sample_stream stats_default delivery_actions s obs) as (_ & _ & _ & Hmedia & _); [|exact He| | |].
    + unfold audio_fec_sample_stream. rewrite Hw. cbn. by rewrite app_nil_r.
    + intros b. rewrite Hd, Hw, elem_of_reverse. done.
    + rewrite Hr. apply delivery_steady.
    + apply Hmedia. rewrite Hr. apply delivery_arrived.
Defined.
