(* ===== verification/Clock.v ===== *)
(** * The clock

    Models [kyproto/src/clock.rs]: [now_micros] on its three platforms, with the
    values of the platform calls as inputs.  Integers are [i64] and wrap. *)

From stdpp Require Import prelude strings.
From Stdlib Require Import ZArith Lia.
From S2P Require Import Prelude SortedVec Io Av Packets Channel ClockSync.
Open Scope Z_scope.

Definition ClockError : Type := string.

(** [now_micros] on Windows, by the frequency and the counter ([None]: the call
    failed) *)
Definition now_micros_windows (frequency counter : option Z) : outcome ClockError Z :=
  f ← ok_or frequency "Query performance frequency error"%string;
  c ← ok_or counter "Query performance counter error"%string;
  _ ← rassert (negb (f =? 0));
  Ok (Z.quot (wrap_i64 (c * 1000000)) f).

(** [now_micros] in a browser, by the raw [u64] time *)
Definition now_micros_wasm (raw_us : Z) : outcome ClockError Z :=
  if raw_us <? 2 ^ 63 then Ok raw_us else Err "Timestamp does not fit into i64"%string.

(** [now_micros] elsewhere, by what [clock_gettime] gives *)
Definition now_micros_unix (timespec : option (Z * Z)) : outcome ClockError Z :=
  '(tv_sec, tv_nsec) ← ok_or timespec "clock_gettime failed"%string;
  Ok (wrap_i64 (wrap_i64 (tv_sec * 1000000) + Z.quot tv_nsec 1000)).

(** The last counter value whose product fits an [i64] *)
Definition LAST_COUNTER : Z := (2 ^ 63 - 1) / 1000000.

Lemma windows_product_wraps c : LAST_COUNTER < c → c * 1000000 < 2 ^ 64 → wrap_i64 (c * 1000000) = c * 1000000 - 2 ^ 64.
Proof.
  unfold LAST_COUNTER, wrap_i64. intros Hc Hlt. pose proof (Z.mul_succ_div_gt (2 ^ 63 - 1) 1000000 ltac:(lia)).
  replace (c * 1000000 + 2 ^ 63) with (c * 1000000 + 2 ^ 63 - 2 ^ 64 + 1 * 2 ^ 64) by lia. rewrite Z.mod_add by lia. rewrite Z.mod_small; lia.
Qed.

(** The clock of the Unix platforms is the monotonic clock in whole
    microseconds, for any time below 292000 years. *)
Theorem unix_clock_exact tv_sec tv_nsec :
  0 ≤ tv_sec < 2 ^ 63 / 1000000 → 0 ≤ tv_nsec < 1000000000 →
  now_micros_unix (Some (tv_sec, tv_nsec)) = Ok ((tv_sec * 1000000000 + tv_nsec) / 1000).
Proof.
  intros Hs Hn. pose proof (Z.mul_div_le (2 ^ 63) 1000000 ltac:(lia)). pose proof (Z.div_lt_upper_bound tv_nsec 1000 1000000 ltac:(lia) ltac:(lia)).
  pose proof (Z.div_pos tv_nsec 1000 ltac:(lia) ltac:(lia)). unfold now_micros_unix. cbn [ok_or mbind outcome_bind].
  rewrite Z.quot_div_nonneg by lia. rewrite !wrap_i64_id; [|unfold is_i64; lia|rewrite wrap_i64_id; unfold is_i64; lia]. f_equal.
  replace (tv_sec * 1000000000 + tv_nsec) with (tv_nsec + tv_sec * 1000000 * 1000) by lia. rewrite Z.div_add by lia. lia.
Qed.

(** The Windows clock is exact up to [LAST_COUNTER] ticks and jumps back to
    a negative time right after, because the product is computed before the
    division; with the usual 10 MHz counter that is after less than eleven days
    of uptime. *)
Theorem windows_clock_jumps_back f c :
  0 < f → 0 ≤ c → c * 1000000 < 2 ^ 64 - f →
  now_micros_windows (Some f) (Some c) = Ok (c * 1000000 / f) ∧ c ≤ LAST_COUNTER ∨
  (∃ t, now_micros_windows (Some f) (Some c) = Ok t ∧ t < 0) ∧ LAST_COUNTER < c.
Proof.
  intros Hf Hc Hlt. unfold now_micros_windows. cbn [ok_or mbind outcome_bind]. destruct (Z.eqb_spec f 0); [lia|]. cbn [negb rassert mbind outcome_bind].
  destruct (Z.le_gt_cases c LAST_COUNTER) as [Hle|Hgt]; [left|right]; (split; [|lia]).
  - pose proof (Z.mul_div_le (2 ^ 63 - 1) 1000000 ltac:(lia)). unfold LAST_COUNTER in Hle. rewrite wrap_i64_id by (unfold is_i64; lia).
    by rewrite Z.quot_div_nonneg by lia.
  - rewrite windows_product_wraps by (done || lia). eexists. split; [reflexivity|].
    rewrite <- (Z.opp_involutive (c * 1000000 - 2 ^ 64)), Z.quot_opp_l, Z.quot_div_nonneg by lia.
    pose proof (Z.div_le_mono f (- (c * 1000000 - 2 ^ 64)) f ltac:(lia) ltac:(lia)). rewrite Z.div_same in * by lia. lia.
Qed.

Lemma unix_clock_exact_witness : now_micros_unix (Some (7, 1999)) = Ok 7000001.
Proof. apply (unix_clock_exact 7 1999); split; by vm_compute. Defined.

(** Eleven days of a 10 MHz counter *)
Lemma windows_clock_jumps_back_witness :
  now_micros_windows (Some 10000000) (Some (11 * 86400 * 10000000)) = Ok (11 * 86400 * 10000000 * 1000000 / 10000000) ∧
    11 * 86400 * 10000000 ≤ LAST_COUNTER ∨
  (∃ t, now_micros_windows (Some 10000000) (Some (11 * 86400 * 10000000)) = Ok t ∧ t < 0) ∧ LAST_COUNTER < 11 * 86400 * 10000000.
Proof. apply (windows_clock_jumps_back 10000000 (11 * 86400 * 10000000)); lia. Defined.
