(* ===== verification/Telemetry.v ===== *)
(** * Diagnostics of the native connections

    [kynet/src/driver/quinn_telemetry.rs]: the bounded queue between [stats()]
    and the one worker that writes the snapshots to the standard error, and the
    line it writes; [kynet/src/sender_timing.rs]: the measurements of a send.
    A queue of 8 and a writer that may fail or block: diagnostics are lost, the
    caller is never held up. *)

From stdpp Require Import prelude list strings.
From Stdlib Require Import ZArith Lia.
From S2P Require Import Prelude Io Fec Router.
Open Scope Z_scope.

(** ** Snapshots *)

(** What the code reads of [quinn_proto::PlankTelemetry]; durations are in nanoseconds *)
Record PlankTelemetry := {
  controller : string;
  side : string;
  remote : string;
  rtt_latest : Z;
  rtt_min : Z;
  rtt_max : Z;
  rtt_var : Z;
  in_flight_bytes : Z;
  in_flight_packets : Z;
  controller_pacing_bps : Z;
  bandwidth_estimate_bps : Z;
  queue_limit_bytes : Z;
  queue_datagrams : Z;
  queue_payload_bytes : Z;
  queue_memory_bytes : Z;
  queue_high_water_payload_bytes : Z;
  queue_high_water_memory_bytes : Z;
  queue_evicted_datagrams : Z;
  queue_evicted_payload_bytes : Z;
  mtu_dropped_datagrams : Z;
  mtu_dropped_payload_bytes : Z;
}.

(** What the code reads of [quinn_proto::ConnectionStats] *)
Record ConnectionStats := {
  path_rtt : Z;
  path_cwnd : Z;
  path_congestion_events : Z;
  path_sent_packets : Z;
  path_lost_packets : Z;
  path_lost_bytes : Z;
  path_current_mtu : Z;
  udp_tx_bytes : Z;
  plank_telemetry : option PlankTelemetry;
}.

Definition QUEUE_CAPACITY : nat := 8.

(** ** The line *)

(** [u128::saturating_mul] *)
Definition saturating_mul128 (a b : Z) : Z := Z.min (a * b) (2 ^ 128 - 1).

Definition effective_pacing_bps (rtt_nanos cwnd : Z) : Z :=
  if rtt_nanos =? 0 then 0
  else
    let bits_per_second :=
      saturating_mul128 (saturating_mul128 (saturating_mul128 cwnd 8) 1000000000) 5 / saturating_mul128 rtt_nanos 4 in
    Z.min bits_per_second (2 ^ 64 - 1).

Definition as_micros (d : Z) : Z := d / 1000.

Definition field (key : string) (value : Z) : string := " " +:+ key +:+ "=" +:+ decimal value.

(** The [format!] *)
Definition snapshot_line (stats : ConnectionStats) (extra : PlankTelemetry) : string :=
  "PLANK QUIC telemetry controller=" +:+ controller extra +:+ " side=" +:+ side extra +:+ " remote=" +:+ remote extra +:+
  field "rtt_us" (as_micros (path_rtt stats)) +:+
  field "rtt_latest_us" (as_micros (rtt_latest extra)) +:+
  field "rtt_min_us" (as_micros (rtt_min extra)) +:+
  field "rtt_max_us" (as_micros (rtt_max extra)) +:+
  field "rtt_var_us" (as_micros (rtt_var extra)) +:+
  field "cwnd_bytes" (path_cwnd stats) +:+
  field "in_flight_bytes" (in_flight_bytes extra) +:+
  field "in_flight_packets" (in_flight_packets extra) +:+
  field "effective_pacing_bps" (effective_pacing_bps (path_rtt stats) (path_cwnd stats)) +:+
  field "controller_pacing_bps" (controller_pacing_bps extra) +:+
  field "bandwidth_estimate_bps" (bandwidth_estimate_bps extra) +:+
  field "congestion_events" (path_congestion_events stats) +:+
  field "sent_packets" (path_sent_packets stats) +:+
  field "sent_bytes" (udp_tx_bytes stats) +:+
  field "lost_packets" (path_lost_packets stats) +:+
  field "lost_bytes" (path_lost_bytes stats) +:+
  field "mtu" (path_current_mtu stats) +:+
  field "queue_limit_bytes" (queue_limit_bytes extra) +:+
  field "queue_datagrams" (queue_datagrams extra) +:+
  field "queue_payload_bytes" (queue_payload_bytes extra) +:+
  field "queue_memory_bytes" (queue_memory_bytes extra) +:+
  field "queue_high_water_payload_bytes" (queue_high_water_payload_bytes extra) +:+
  field "queue_high_water_memory_bytes" (queue_high_water_memory_bytes extra) +:+
  field "queue_evicted_datagrams" (queue_evicted_datagrams extra) +:+
  field "queue_evicted_payload_bytes" (queue_evicted_payload_bytes extra) +:+
  field "mtu_dropped_datagrams" (mtu_dropped_datagrams extra) +:+
  field "mtu_dropped_payload_bytes" (mtu_dropped_payload_bytes extra) +:+
  String (Ascii.ascii_of_nat 10) "".

Definition bytes_of_string (s : string) : bytes := (λ c, Z.of_nat (Ascii.nat_of_ascii c)) <$> String.list_ascii_of_string s.

(** What was written to the [Write] of the worker; it fails once [sink_room] bytes, if any, are used. *)
Record Sink := { sink_out : bytes; sink_room : option nat }.

(** [io::Write::write_all]: a failure may leave the start of the buffer behind *)
Definition sink_write_all (bs : bytes) (w : Sink) : Sink * bool :=
  match sink_room w with
  | None => ({| sink_out := sink_out w ++ bs; sink_room := None |}, true)
  | Some n =>
      if bool_decide (length bs ≤ n)%nat
      then ({| sink_out := sink_out w ++ bs; sink_room := Some (n - length bs)%nat |}, true)
      else ({| sink_out := sink_out w ++ take n bs; sink_room := Some O |}, false)
  end.

(** [write_snapshot]: at most one [write_all]; whether it succeeded *)
Definition write_snapshot (stats : ConnectionStats) (w : Sink) : Sink * bool :=
  match plank_telemetry stats with
  | None => (w, true)
  | Some extra => sink_write_all (bytes_of_string (snapshot_line stats extra)) w
  end.

(** ** The worker *)

(** The thread: waiting in [receiver], in the [write_all] of a snapshot, or over *)
Inductive Worker := Waiting | Writing (stats : ConnectionStats) | WorkerOver.

(** [start_writer]: the channel, the thread and its writer *)
Record LogWriter := { log_queue : Mpsc ConnectionStats; worker : Worker; writer : Sink }.

Definition start_writer (w : Sink) : LogWriter :=
  {| log_queue := mpsc_channel QUEUE_CAPACITY; worker := Waiting; writer := w |}.

(** [sender.try_send(stats)]: never waits; whether the snapshot was queued *)
Definition try_send (stats : ConnectionStats) (self : LogWriter) : LogWriter * bool :=
  let q := log_queue self in
  if rx_open q && bool_decide (length (mq q) < capacity q)%nat
  then ({| log_queue := mpsc_push stats q; worker := worker self; writer := writer self |}, true)
  else (self, false).

(** One step of the loop of the worker: takes a snapshot, or completes its write *)
Definition worker_step (self : LogWriter) : option LogWriter :=
  match worker self with
  | Waiting =>
      match mq (log_queue self) with
      | [] => None
      | stats :: _ => Some {| log_queue := mpsc_pop (log_queue self); worker := Writing stats; writer := writer self |}
      end
  | Writing stats =>
      match write_snapshot stats (writer self) with
      | (w, true) => Some {| log_queue := log_queue self; worker := Waiting; writer := w |}
      | (w, false) => Some {| log_queue := mpsc_close (log_queue self); worker := WorkerOver; writer := w |}
      end
  | WorkerOver => None
  end.

(** The static [SENDER], with the thread that [get_or_init] started or failed to start *)
Inductive Sender := Unset | NoThread | Started (log : LogWriter).

(** [record]; [stderr] is the writer of the thread, when it can be started. *)
Definition record (stderr : option Sink) (stats : ConnectionStats) (self : Sender) : Sender * bool :=
  match plank_telemetry stats with
  | None => (self, false)
  | Some _ =>
      let self := match self with
                  | Unset => match stderr with Some w => Started (start_writer w) | None => NoThread end
                  | s => s
                  end in
      match self with
      | Started log => let '(log, queued) := try_send stats log in (Started log, queued)
      | s => (s, false)
      end
  end.

(** ** The pacing is exact *)

(** For any congestion window and round-trip time that their types allow,
    none of the saturating products saturates: the pacing logged is exactly
    5/4 of the window, in bits per second, rounded down and capped to 64 bits. *)
Theorem effective_pacing_exact rtt_nanos cwnd :
  is_u64 cwnd → 0 ≤ rtt_nanos < 2 ^ 64 * 1000000000 →
  effective_pacing_bps rtt_nanos cwnd =
    if rtt_nanos =? 0 then 0 else Z.min (cwnd * 8 * 1000000000 * 5 / (4 * rtt_nanos)) (2 ^ 64 - 1).
Proof.
  unfold is_u64, effective_pacing_bps, saturating_mul128. intros Hc Hr. destruct (Z.eqb_spec rtt_nanos 0) as [|Hnz]; [done|].
  rewrite !(Z.min_l _ (2 ^ 128 - 1)) by lia. by rewrite (Z.mul_comm rtt_nanos 4).
Qed.

Lemma effective_pacing_exact_witness :
  effective_pacing_bps 20000000 2000000 =
    if 20000000 =? 0 then 0 else Z.min (2000000 * 8 * 1000000000 * 5 / (4 * 20000000)) (2 ^ 64 - 1).
Proof. apply effective_pacing_exact; vm_compute; intuition congruence. Defined.

(** ** The worker writes what was queued *)

Inductive LogOp := Offer (stats : ConnectionStats) | Work.

(** Runs producers and worker; the snapshots that were queued, in order *)
Fixpoint log_run (ops : list LogOp) (self : LogWriter) : LogWriter * list ConnectionStats :=
  match ops with
  | [] => (self, [])
  | Offer stats :: ops =>
      let '(self, queued) := try_send stats self in
      let '(self, acc) := log_run ops self in
      (self, if queued : bool then stats :: acc else acc)
  | Work :: ops => log_run ops (default self (worker_step self))
  end.

Definition snapshot_bytes (stats : ConnectionStats) : bytes :=
  match plank_telemetry stats with Some extra => bytes_of_string (snapshot_line stats extra) | None => [] end.

Definition in_progress (w : Worker) : list ConnectionStats := match w with Writing stats => [stats] | _ => [] end.

(** The output for the snapshots [written], and what became of the [rest] *)
Definition log_rest (out : bytes) (written rest : list ConnectionStats) (self : LogWriter) : Prop :=
  match worker self with
  | WorkerOver =>
      ∃ failed lost part, rest = failed :: lost ∧ part `prefix_of` snapshot_bytes failed ∧
        sink_out (writer self) = out ++ concat (snapshot_bytes <$> written) ++ part
  | wk => rest = in_progress wk ++ mq (log_queue self) ∧ sink_out (writer self) = out ++ concat (snapshot_bytes <$> written)
  end.

(** After the snapshots [acc] were queued: those written, then the one being
    written and the queue; a worker that is over failed in the next one *)
Record log_inv (out : bytes) (acc : list ConnectionStats) (self : LogWriter) : Prop := {
  log_room : capacity (log_queue self) = QUEUE_CAPACITY ∧ (length (mq (log_queue self)) ≤ QUEUE_CAPACITY)%nat;
  log_open : rx_open (log_queue self) = match worker self with WorkerOver => false | _ => true end;
  log_written : ∃ written rest, acc = written ++ rest ∧ log_rest out written rest self;
}.

Lemma write_snapshot_out stats w w' ok :
  write_snapshot stats w = (w', ok) →
  ∃ part, part `prefix_of` snapshot_bytes stats ∧ sink_out w' = sink_out w ++ part ∧ (ok = true → part = snapshot_bytes stats).
Proof.
  unfold write_snapshot, snapshot_bytes, sink_write_all. destruct (plank_telemetry stats) as [extra|]; [|intros [= <- <-]; exists []; by rewrite app_nil_r].
  destruct (sink_room w) as [n|]; [case_bool_decide|]; intros [= <- <-]; cbn; eexists; (split_and!; [|done|done]); [done| |done].
  apply prefix_take.
Qed.

Lemma try_send_inv out acc stats self self' b :
  log_inv out acc self → try_send stats self = (self', b) → log_inv out (acc ++ if b then [stats] else []) self'.
Proof.
  intros [[Hc Hl] Ho (written & rest & -> & Hr)]. unfold try_send. destruct (rx_open (log_queue self)) eqn:Hopen; cbn [andb].
  - case_bool_decide as Hroom; intros [= <- <-]; [|rewrite app_nil_r; split; [done|by rewrite Hopen|by exists written, rest]].
    split; cbn.
    + rewrite length_app. cbn. lia.
    + by rewrite Hopen.
    + exists written, (rest ++ [stats]). rewrite <- app_assoc. split; [done|]. unfold log_rest in *. cbn.
      destruct (worker self); [| |done]; destruct Hr as [-> Hr]; (split; [by rewrite <- app_assoc|done]).
  - intros [= <- <-]. rewrite app_nil_r. split; [done|by rewrite Hopen|]. by exists written, rest.
Qed.

Lemma worker_step_inv out acc self self' : log_inv out acc self → worker_step self = Some self' → log_inv out acc self'.
Proof.
  intros [[Hc Hl] Ho (written & rest & -> & Hr)]. unfold worker_step, log_rest in *. destruct (worker self) as [|stats|] eqn:Hwk; [| |done].
  - destruct (mq (log_queue self)) as [|stats q] eqn:Hq; [done|]. intros [= <-]. split; cbn; rewrite ?Hq; cbn in *; [lia|done|].
    exists written, rest. split; [done|]. unfold log_rest. cbn. destruct Hr as [-> ?]. by rewrite ?Hq.
  - destruct Hr as [-> Hw]. destruct (write_snapshot stats (writer self)) as [w ok] eqn:Hws.
    destruct (write_snapshot_out _ _ _ _ Hws) as (part & Hp & Hout & Hok).
    destruct ok; intros [= <-]; (split; cbn; [split; [done|lia]|done|]); rewrite Hw in Hout.
    + exists (written ++ [stats]), (mq (log_queue self)). rewrite <- app_assoc. split; [done|]. unfold log_rest. cbn. split; [done|].
      rewrite Hout, (Hok eq_refl), fmap_app, concat_app, app_assoc. cbn. by rewrite app_nil_r.
    + exists written, (stats :: mq (log_queue self)). split; [done|]. unfold log_rest. cbn. exists stats, (mq (log_queue self)), part.
      by rewrite Hout, app_assoc.
Qed.

Lemma log_run_inv out ops acc self self' acc' :
  log_inv out acc self → log_run ops self = (self', acc') → log_inv out (acc ++ acc') self'.
Proof.
  revert acc self acc'. induction ops as [|[stats|] ops IH]; intros acc self acc' Hinv; cbn [log_run].
  - intros [= <- <-]. by rewrite app_nil_r.
  - destruct (try_send stats self) as [s1 b] eqn:Ht. destruct (log_run ops s1) as [s2 acc2] eqn:Hrun. intros [= <- <-].
    pose proof (IH _ _ _ (try_send_inv _ _ _ _ _ _ Hinv Ht) Hrun) as H2. rewrite <- app_assoc in H2. by destruct b.
  - destruct (worker_step self) as [s1|] eqn:Hw; cbn [default]; intros Hrun; (eapply IH; [|done]); [by eapply worker_step_inv|done].
Qed.

Definition offered : list LogOp → list ConnectionStats := omap (λ op, match op with Offer stats => Some stats | Work => None end).

Lemma log_run_sublist ops self : (log_run ops self).2 `sublist_of` offered ops.
Proof.
  revert self. induction ops as [|[stats|] ops IH]; intros self; cbn [log_run]; [done| |apply IH].
  destruct (try_send stats self) as [s1 b]. specialize (IH s1). destruct (log_run ops s1) as [s2 acc]. cbn in *.
  destruct b; [by apply sublist_skip|by apply sublist_cons].
Qed.

(** Whatever the pace of the producers, which never wait, and of the worker,
    and wherever the writer fails: at most 8 snapshots are held, those queued
    were offered in that order, and the output is whole lines of the oldest of
    them, in order; while the worker runs the others are in its hands or in the
    queue, and after a failure nothing follows the line it cut. *)
Theorem telemetry_lines_in_order ops w self acc :
  log_run ops (start_writer w) = (self, acc) →
  (length (mq (log_queue self)) ≤ 8)%nat ∧ acc `sublist_of` offered ops ∧
  ∃ written rest, acc = written ++ rest ∧
  match worker self with
  | WorkerOver =>
      ∃ failed lost part, rest = failed :: lost ∧ part `prefix_of` snapshot_bytes failed ∧
        sink_out (writer self) = sink_out w ++ concat (snapshot_bytes <$> written) ++ part
  | wk => rest = in_progress wk ++ mq (log_queue self) ∧ sink_out (writer self) = sink_out w ++ concat (snapshot_bytes <$> written)
  end.
Proof.
  intros Hrun. pose proof (log_run_sublist ops (start_writer w)) as Hsub. rewrite Hrun in Hsub.
  assert (H0 : log_inv (sink_out w) [] (start_writer w)).
  { split; cbn; [split; [done|unfold QUEUE_CAPACITY; lia]|done|]. exists [], []. split; [done|]. split; [done|]. cbn. by rewrite app_nil_r. }
  destruct (log_run_inv _ _ _ _ _ _ H0 Hrun) as [[_ Hl] _ (written & rest & Ha & Hr)]. split; [exact Hl|]. split; [done|].
  by exists written, rest.
Qed.

(** The sample of the tests *)
Definition sample : ConnectionStats :=
  {| path_rtt := 20000000; path_cwnd := 2000000; path_congestion_events := 3; path_sent_packets := 4; udp_tx_bytes := 5;
     path_lost_packets := 6; path_lost_bytes := 7; path_current_mtu := 1320;
     plank_telemetry := Some
       {| controller := "target-rate"; side := "server"; remote := "192.0.2.1:28989"; rtt_latest := 21000000; rtt_min := 19000000;
          rtt_max := 22000000; rtt_var := 1000000; in_flight_bytes := 8; in_flight_packets := 9; controller_pacing_bps := 10;
          bandwidth_estimate_bps := 11; queue_limit_bytes := 12; queue_datagrams := 13; queue_payload_bytes := 14;
          queue_memory_bytes := 15; queue_high_water_payload_bytes := 16; queue_high_water_memory_bytes := 17;
          queue_evicted_datagrams := 18; queue_evicted_payload_bytes := 19; mtu_dropped_datagrams := 20;
          mtu_dropped_payload_bytes := 21 |} |}.

Example preserves_existing_telemetry_fields_and_values :
  option_map (snapshot_line sample) (plank_telemetry sample) = Some (
    "PLANK QUIC telemetry controller=target-rate side=server remote=192.0.2.1:28989 " +:+
    "rtt_us=20000 rtt_latest_us=21000 rtt_min_us=19000 rtt_max_us=22000 rtt_var_us=1000 " +:+
    "cwnd_bytes=2000000 in_flight_bytes=8 in_flight_packets=9 effective_pacing_bps=1000000000 " +:+
    "controller_pacing_bps=10 bandwidth_estimate_bps=11 congestion_events=3 sent_packets=4 " +:+
    "sent_bytes=5 lost_packets=6 lost_bytes=7 mtu=1320 queue_limit_bytes=12 queue_datagrams=13 " +:+
    "queue_payload_bytes=14 queue_memory_bytes=15 queue_high_water_payload_bytes=16 " +:+
    "queue_high_water_memory_bytes=17 queue_evicted_datagrams=18 queue_evicted_payload_bytes=19 " +:+
    "mtu_dropped_datagrams=20 mtu_dropped_payload_bytes=21" +:+ String (Ascii.ascii_of_nat 10) "").
Proof. vm_compute. reflexivity. Qed.

(** A blocked worker: 1 snapshot in its hands, 8 in the queue, 2 lost; then a sink that fails in the second line *)
Definition sample_ops : list LogOp := [Offer sample; Work] ++ replicate 10 (Offer sample) ++ [Work; Work; Work].

Lemma telemetry_lines_in_order_witness :
  ∃ self, log_run sample_ops (start_writer {| sink_out := []; sink_room := Some 1000%nat |}) = (self, replicate 9 sample) ∧
    (length (mq (log_queue self)) ≤ 8)%nat ∧ worker self = WorkerOver ∧ length (sink_out (writer self)) = 1000%nat.
Proof.
  destruct (log_run sample_ops (start_writer {| sink_out := []; sink_room := Some 1000%nat |})) as [self acc] eqn:H.
  destruct (telemetry_lines_in_order _ _ _ _ H) as (Hl & _). exists self.
  assert (Hv : acc = replicate 9 sample ∧ worker self = WorkerOver ∧ length (sink_out (writer self)) = 1000%nat).
  { change self with (self, acc).1. change acc with (self, acc).2 at 1. rewrite <- H. split_and!; vm_compute; reflexivity. }
  destruct Hv as (-> & Hw & Ho). exact (conj eq_refl (conj Hl (conj Hw Ho))).
Defined.
