(* ===== verification/Kynet.v ===== *)
(** * Connections of [kynet]: clients, server, certificates

    Models [kynet/src/driver/quinn.rs], [wtransport.rs] and [common.rs] with
    [kynet/src/cert.rs] and [error.rs]: how a client prepares its TLS and QUIC
    configuration and its socket, how the server does, how the server chooses
    the driver of an incoming connection by the negotiated protocol (ALPN), and
    how the errors of the libraries become those of [kynet].  rustls, quinn,
    wtransport, the operating system and the hash are parameters. *)

From stdpp Require Import prelude list strings.
From Stdlib Require Import ZArith Lia.
From S2P Require Import Prelude Hex Telemetry.
Open Scope Z_scope.

(** ** Errors *)

(** [ConnectionError(pub String)] of [error.rs] *)
Record ConnectionError := { text : string }.

(** The variants of [quinn::ConnectionError] that the code tells apart; the others are numbered. *)
Inductive QuinnError :=
  | TransportError (code : Z)
  | ConnectionClosed (error_code : Z)
  | ApplicationClosed (error_code : Z)
  | LocallyClosed
  | TimedOut
  | OtherError (n : nat).

#[export] Instance QuinnError_eq_dec : EqDecision QuinnError.
Proof. solve_decision. Defined.

(** TLS [no_application_protocol] (120) in the crypto error space of QUIC (0x100) *)
Definition no_application_protocol : Z := 0x178.

Definition KYMUX_ALPN : bytes := bytes_of_string "plank-native/2".

Definition incompatible_text : string :=
  "Incompatible PLANK transport protocol; update both Host and Client to matching builds".

(** [incompatible] in [handshake_error] *)
Definition incompatible (error : QuinnError) : bool :=
  match error with
  | TransportError code => code =? no_application_protocol
  | ConnectionClosed code => code =? no_application_protocol
  | _ => false
  end.

(** ** Data *)

(** [rustls::ClientConfig], what the code sets or leaves of it: the verifier of
    the server's certificate and the protocols offered *)
Record ClientConfig := { verifier : bytes → outcome string unit; alpn_protocols : list bytes }.

Record QuinnClientOptions (Factory : Type) := {
  max_idle_timeout : option Z;
  keep_alive_interval : option Z;
  max_udp_payload_size : option Z;
  certificate_hash : option bytes;
  congestion_controller_factory : option Factory;
}.

Record CommonServerOptions (Factory : Type) := {
  s_max_idle_timeout : option Z;
  s_keep_alive_interval : option Z;
  s_max_udp_payload_size : option Z;
  s_congestion_controller_factory : option Factory;
}.

Record WTransportClientOptions := { wt_max_idle_timeout : option Z; wt_keep_alive_interval : option Z }.

Arguments max_idle_timeout {_}. Arguments keep_alive_interval {_}. Arguments max_udp_payload_size {_}.
Arguments certificate_hash {_}. Arguments congestion_controller_factory {_}.
Arguments s_max_idle_timeout {_}. Arguments s_keep_alive_interval {_}. Arguments s_max_udp_payload_size {_}.
Arguments s_congestion_controller_factory {_}.

(** The setters called on a [quinn::TransportConfig]; [None] is the default of quinn. *)
Record TransportConfig (Factory : Type) := {
  t_idle_timeout : option (option Z);
  t_keep_alive : option (option Z);
  t_controller : option Factory;
  t_initial_mtu : option Z;
  t_min_mtu : option Z;
  t_mtu_discovery : option bool;
}.

Arguments t_idle_timeout {_}. Arguments t_keep_alive {_}. Arguments t_controller {_}.
Arguments t_initial_mtu {_}. Arguments t_min_mtu {_}. Arguments t_mtu_discovery {_}.

Definition transport_default {Factory} : TransportConfig Factory :=
  {| t_idle_timeout := None; t_keep_alive := None; t_controller := None; t_initial_mtu := None; t_min_mtu := None; t_mtu_discovery := None |}.

(** [SocketAddr] *)
Inductive SocketAddr := V4 (ip port : Z) | V6 (ip port : Z).

Definition is_ipv6 (addr : SocketAddr) : bool := match addr with V6 _ _ => true | V4 _ _ => false end.

Inductive Domain := IPV4 | IPV6.

Definition domain_for_address (addr : SocketAddr) : Domain := match addr with V4 _ _ => IPV4 | V6 _ _ => IPV6 end.

(** A bound UDP socket: what the code asked of it, and whether it serves both families *)
Record Socket := { domain : Domain; dual_stack : bool; bound : SocketAddr }.

(** What is handed to [quinn::Endpoint::new]: the payload size advertised (the default is [None]) and the socket *)
Record Endpoint := { advertised : option Z; socket : Socket }.

(** The client's configuration of a connection *)
Record ClientSetup (Factory : Type) := {
  c_tls : ClientConfig;
  c_transport : TransportConfig Factory;
  c_endpoint : Endpoint;
  c_addr : SocketAddr;
  c_server_name : string;
}.

Record CommonServer (Factory : Type) := {
  s_alpn : list bytes;
  s_cert_chain : list bytes;
  s_key : bytes;
  s_transport : TransportConfig Factory;
  s_endpoint : Endpoint;
}.

Arguments c_tls {_}. Arguments c_transport {_}. Arguments c_endpoint {_}. Arguments c_addr {_}. Arguments c_server_name {_}.
Arguments s_alpn {_}. Arguments s_cert_chain {_}. Arguments s_key {_}. Arguments s_transport {_}. Arguments s_endpoint {_}.

(** ** The libraries *)

Class Libraries (Factory Connecting Conn Incoming WtRequest WtConn : Type) := {
  (** The [Display] of [quinn::ConnectionError] *)
  error_to_string : QuinnError → string;
  (** The crates hex and ring *)
  hex_decode : bytes → option bytes;
  hex_encode : bytes → string;
  sha256 : bytes → bytes;
  (** [with_platform_verifier]; the checks of rustls and quinn on the configurations *)
  platform_verifier : outcome string (bytes → outcome string unit);
  quic_client_config_check : ClientConfig → outcome string unit;
  single_cert_check : list bytes → bytes → outcome string unit;
  quic_server_config_check : list bytes → outcome string unit;
  idle_timeout_try_from : Z → outcome string Z;
  udp_payload_size_check : Z → outcome string unit;
  (** The operating system: [Socket::new], [set_only_v6(false)], [bind] *)
  socket_new : Domain → outcome string unit;
  set_only_v6_false : Domain → bool;
  socket_bind : SocketAddr → outcome string unit;
  (** [quinn::Endpoint::new], [connect_with], and the two ends of a connection being set up *)
  endpoint_new : Endpoint → outcome string unit;
  connect_with : ClientSetup Factory → outcome string Connecting;
  await_connecting : Connecting → outcome QuinnError Conn;
  incoming_accept : Incoming → outcome QuinnError Connecting;
  (** [handshake_data]: [None] when the handshake failed, else the protocol *)
  handshake_data : Connecting → option (option bytes);
  (** wtransport *)
  WEBTRANSPORT_ALPN : bytes;
  wt_endpoint_connect : ClientConfig → option Z → option Z → string → outcome string WtConn;
  wt_session : Connecting → outcome string WtRequest;
  wt_session_accept : WtRequest → outcome string WtConn;
}.

(** [kynet::Connection]: the driver behind it *)
Inductive Connection (Conn WtConn : Type) := Quinn (c : Conn) | WTransport (c : WtConn).
Arguments Quinn {_ _}. Arguments WTransport {_ _}.

Section Kynet.
Context {Factory Connecting Conn Incoming WtRequest WtConn : Type} `{Libraries Factory Connecting Conn Incoming WtRequest WtConn}.

(** [From<quinn::ConnectionError>], [From<std::io::Error>] and the like *)
Definition of_text (s : string) : ConnectionError := {| text := s |}.
Definition prefixed (p s : string) : ConnectionError := {| text := p +:+ s |}.
Definition from_quinn (e : QuinnError) : ConnectionError := of_text (error_to_string e).

Definition handshake_error (error : QuinnError) : ConnectionError :=
  if incompatible error then of_text incompatible_text else from_quinn error.

(** ** [HashCertVerifier] *)

Record HashCertVerifier := { expected_hash : bytes }.

Definition hash_cert_verifier_new (expected_hash_hex : bytes) : outcome ConnectionError HashCertVerifier :=
  h ← ok_or (hex_decode expected_hash_hex) (of_text "Invalid certificate hash hex string");
  Ok {| expected_hash := h |}.

Definition verify_server_cert (self : HashCertVerifier) (end_entity : bytes) : outcome string unit :=
  let actual_hash := sha256 end_entity in
  if bool_decide (actual_hash = expected_hash self) then Ok tt
  else Err ("Certificate hash mismatch. Expected: " +:+ hex_encode (expected_hash self) +:+ ", Got: " +:+ hex_encode actual_hash).

(** ** The configurations *)

(** The [tls_config] of [QuinnConnectionDriver::connect] *)
Definition client_tls (tls_config : option ClientConfig) (options : QuinnClientOptions Factory) : outcome ConnectionError ClientConfig :=
  tls ← match certificate_hash options with
        | Some hash =>
            v ← hash_cert_verifier_new hash;
            Ok {| verifier := verify_server_cert v; alpn_protocols := [] |}
        | None =>
            match tls_config with
            | Some tls_config => Ok tls_config
            | None =>
                v ← map_err (prefixed "Platform verifier error: ") platform_verifier;
                Ok {| verifier := v; alpn_protocols := [] |}
            end
        end;
  Ok {| verifier := verifier tls; alpn_protocols := [KYMUX_ALPN] |}.

(** [.map(IdleTimeout::try_from).transpose()] *)
Definition idle_timeout (d : option Z) : outcome ConnectionError (option Z) :=
  match d with
  | None => Ok None
  | Some d => t ← map_err (λ _, of_text "Invalid max_idle_timeout") (idle_timeout_try_from d); Ok (Some t)
  end.

Definition client_transport (options : QuinnClientOptions Factory) : outcome ConnectionError (TransportConfig Factory) :=
  idle ← idle_timeout (max_idle_timeout options);
  Ok {| t_idle_timeout := Some idle;
        t_keep_alive := Some (keep_alive_interval options);
        t_controller := congestion_controller_factory options;
        t_initial_mtu := max_udp_payload_size options;
        t_min_mtu := max_udp_payload_size options;
        t_mtu_discovery := match max_udp_payload_size options with Some _ => Some false | None => None end |}.

Definition server_transport (options : CommonServerOptions Factory) : outcome ConnectionError (TransportConfig Factory) :=
  idle ← idle_timeout (s_max_idle_timeout options);
  Ok {| t_idle_timeout := Some idle;
        t_keep_alive := Some (s_keep_alive_interval options);
        t_controller := s_congestion_controller_factory options;
        t_initial_mtu := s_max_udp_payload_size options;
        t_min_mtu := s_max_udp_payload_size options;
        t_mtu_discovery := match s_max_udp_payload_size options with Some _ => Some false | None => None end |}.

(** [set_only_v6(false)] where the address is IPv6: a failure is only logged *)
Definition make_dual_stack (addr : SocketAddr) : bool := is_ipv6 addr && set_only_v6_false (domain_for_address addr).

Definition client_socket (addr : SocketAddr) : outcome ConnectionError Socket :=
  let bind_addr := match addr with V4 _ _ => V4 0 0 | V6 _ _ => V6 0 0 end in
  _ ← map_err of_text (socket_new (domain_for_address bind_addr));
  let dual := make_dual_stack bind_addr in
  _ ← map_err of_text (socket_bind bind_addr);
  Ok {| domain := domain_for_address bind_addr; dual_stack := dual; bound := bind_addr |}.

Definition server_socket (addr : SocketAddr) : outcome ConnectionError Socket :=
  _ ← map_err (prefixed "Socket creation failed: ") (socket_new (domain_for_address addr));
  let dual := make_dual_stack addr in
  _ ← map_err (prefixed "Socket bind failed: ") (socket_bind addr);
  Ok {| domain := domain_for_address addr; dual_stack := dual; bound := addr |}.

(** [endpoint_config.max_udp_payload_size(..)], if the option is there *)
Definition endpoint_config (size : option Z) : outcome ConnectionError (option Z) :=
  match size with
  | None => Ok None
  | Some n => _ ← map_err (prefixed "Invalid maximum UDP payload size: ") (udp_payload_size_check n); Ok (Some n)
  end.

(** ** The clients *)

(** [QuinnConnectionDriver::connect], up to the first packet *)
Definition client_setup (addr : SocketAddr) (server_name : string) (tls_config : option ClientConfig)
    (options : QuinnClientOptions Factory) : outcome ConnectionError (ClientSetup Factory) :=
  tls ← client_tls tls_config options;
  _ ← map_err (prefixed "QUIC config error: ") (quic_client_config_check tls);
  transport ← client_transport options;
  sock ← client_socket addr;
  size ← endpoint_config (max_udp_payload_size options);
  let endpoint := {| advertised := size; socket := sock |} in
  _ ← map_err of_text (endpoint_new endpoint);
  Ok {| c_tls := tls; c_transport := transport; c_endpoint := endpoint; c_addr := addr; c_server_name := server_name |}.

(** [QuinnConnectionDriver::connect] *)
Definition quinn_connect (addr : SocketAddr) (server_name : string) (tls_config : option ClientConfig)
    (options : QuinnClientOptions Factory) : outcome ConnectionError (Connection Conn WtConn) :=
  setup ← client_setup addr server_name tls_config options;
  connecting ← map_err of_text (connect_with setup);
  conn ← map_err handshake_error (await_connecting connecting);
  Ok (Quinn conn).

(** The TLS configuration of [WTransportConnectionDriver::connect] *)
Definition wtransport_tls (tls_config : option ClientConfig) : outcome ConnectionError ClientConfig :=
  tls ← match tls_config with
        | Some tls_config => Ok tls_config
        | None =>
            v ← map_err (prefixed "Platform verifier error: ") platform_verifier;
            Ok {| verifier := v; alpn_protocols := [] |}
        end;
  Ok {| verifier := verifier tls; alpn_protocols := [WEBTRANSPORT_ALPN] |}.

(** [WTransportConnectionDriver::connect] *)
Definition wtransport_connect (url : string) (tls_config : option ClientConfig) (options : WTransportClientOptions) :
    outcome ConnectionError (Connection Conn WtConn) :=
  tls ← wtransport_tls tls_config;
  idle ← idle_timeout (wt_max_idle_timeout options);
  conn ← map_err of_text (wt_endpoint_connect tls idle (wt_keep_alive_interval options) url);
  Ok (WTransport conn).

(** ** The server *)

(** [CommonServer::start_on_addr]; [wtransport] is the feature [kynet-wtransport]. *)
Definition start_on_addr (wtransport : bool) (addr : SocketAddr) (cert_chain : list bytes) (key : bytes)
    (options : CommonServerOptions Factory) : outcome ConnectionError (CommonServer Factory) :=
  _ ← map_err (prefixed "TLS config error: ") (single_cert_check cert_chain key);
  let alpn := KYMUX_ALPN :: if wtransport then [WEBTRANSPORT_ALPN] else [] in
  _ ← map_err (prefixed "QUIC config error: ") (quic_server_config_check alpn);
  transport ← server_transport options;
  sock ← server_socket addr;
  size ← endpoint_config (s_max_udp_payload_size options);
  let endpoint := {| advertised := size; socket := sock |} in
  _ ← map_err (prefixed "Failed to create endpoint: ") (endpoint_new endpoint);
  Ok {| s_alpn := alpn; s_cert_chain := cert_chain; s_key := key; s_transport := transport; s_endpoint := endpoint |}.

(** [CommonServer::start] *)
Definition start (wtransport : bool) (port : Z) (cert_chain : list bytes) (key : bytes) (options : CommonServerOptions Factory) :
    outcome ConnectionError (CommonServer Factory) :=
  start_on_addr wtransport (V6 0 port) cert_chain key options.

(** [CommonServer::accept], on what [quinn_endpoint.accept()] gives; [None] is an endpoint that is closed. *)
Definition accept (wtransport : bool) (incoming : option Incoming) : outcome ConnectionError (option (Connection Conn WtConn)) :=
  match incoming with
  | None => Ok None
  | Some quinn_incoming =>
      connecting ← map_err handshake_error (incoming_accept quinn_incoming);
      if wtransport && bool_decide (mjoin (handshake_data connecting) = Some WEBTRANSPORT_ALPN) then
        request ← map_err (prefixed "WebTransport accept failed: ") (wt_session connecting);
        conn ← map_err (prefixed "WebTransport session accept failed: ") (wt_session_accept request);
        Ok (Some (WTransport conn))
      else
        conn ← map_err handshake_error (await_connecting connecting);
        Ok (Some (Quinn conn))
  end.
(** ** Handshakes *)

(** The errors that the two ends of a refused handshake may see: the one of the refusal, or one of the network *)
Definition refused (expected : QuinnError) (c : Connecting) : Prop :=
  ∃ e, await_connecting c = Err e ∧ (e = expected ∨ incompatible e = false).

Definition not_refused (c : Connecting) : Prop :=
  match await_connecting c with Ok _ => True | Err e => incompatible e = false | Panic => False end.

(** What is relied on of TLS and of QUIC (RFC 9001, 8.1), for the two ends
    [paired tls alpns cert c s] of a connection between a client with [tls] and
    a server with [alpns] and the end-entity certificate [cert]:
    a handshake without a common protocol is refused by the server with
    [no_application_protocol], and no other handshake is; the protocol is one
    of both sides; the server knows the protocol of a connection that is set
    up; the client has had the certificate verified. *)
Class HandshakeLaws (paired : ClientConfig → list bytes → bytes → Connecting → Connecting → Prop) : Prop := {
  alpn_refused tls alpns cert c s :
    paired tls alpns cert c s → (∀ p, p ∈ alpns → p ∉ alpn_protocols tls) →
    refused (ConnectionClosed no_application_protocol) c ∧ refused (TransportError no_application_protocol) s;
  alpn_not_refused tls alpns cert c s p :
    paired tls alpns cert c s → p ∈ alpns → p ∈ alpn_protocols tls → not_refused c ∧ not_refused s;
  alpn_common tls alpns cert c s p :
    paired tls alpns cert c s → handshake_data s = Some (Some p) → p ∈ alpns ∧ p ∈ alpn_protocols tls;
  alpn_known tls alpns cert c s conn :
    paired tls alpns cert c s → await_connecting s = Ok conn → ∃ p, handshake_data s = Some (Some p);
  cert_verified tls alpns cert c s conn :
    paired tls alpns cert c s → await_connecting c = Ok conn → verifier tls cert = Ok tt;
}.

Lemma client_tls_spec tls_config options tls :
  client_tls tls_config options = Ok tls →
  alpn_protocols tls = [KYMUX_ALPN] ∧
  match certificate_hash options with
  | Some hash => ∃ h, hex_decode hash = Some h ∧ verifier tls = verify_server_cert {| expected_hash := h |}
  | None => match tls_config with
            | Some t => verifier tls = verifier t
            | None => platform_verifier = Ok (verifier tls)
            end
  end.
Proof.
  unfold client_tls, hash_cert_verifier_new. destruct (certificate_hash options) as [hash|].
  - destruct (hex_decode hash) as [h|]; [|done]. intros [= <-]. split; [done|]. by exists h.
  - destruct tls_config as [t|]; [by intros [= <-]|]. destruct platform_verifier; [|done|done]. by intros [= <-].
Qed.

Lemma verify_server_cert_spec self cert : verify_server_cert self cert = Ok tt ↔ sha256 cert = expected_hash self.
Proof. unfold verify_server_cert. case_bool_decide; naive_solver. Qed.

Lemma map_err_Ok_inv {E F A} (f : E → F) (m : outcome E A) a : map_err f m = Ok a → m = Ok a.
Proof. destruct m; cbn; congruence. Qed.

Lemma client_setup_spec addr name tls_config options setup :
  client_setup addr name tls_config options = Ok setup →
  client_tls tls_config options = Ok (c_tls setup) ∧ client_transport options = Ok (c_transport setup) ∧
  client_socket addr = Ok (socket (c_endpoint setup)) ∧ advertised (c_endpoint setup) = max_udp_payload_size options ∧
  c_addr setup = addr ∧ c_server_name setup = name.
Proof.
  unfold client_setup. destruct (client_tls _ _) as [tls| |]; [cbn|done|done]. destruct (quic_client_config_check _); [cbn|done|done].
  destruct (client_transport _) as [t| |]; [cbn|done|done]. destruct (client_socket _) as [sk| |]; [cbn|done|done].
  unfold endpoint_config. destruct (max_udp_payload_size options) as [n|]; [destruct (udp_payload_size_check n); [cbn|done|done]|cbn];
    (destruct (endpoint_new _); [cbn|done|done]); by intros [= <-].
Qed.

Lemma start_spec wt addr chain key options server :
  start_on_addr wt addr chain key options = Ok server →
  s_alpn server = (KYMUX_ALPN :: if wt then [WEBTRANSPORT_ALPN] else []) ∧ s_cert_chain server = chain ∧
  server_transport options = Ok (s_transport server) ∧ server_socket addr = Ok (socket (s_endpoint server)) ∧
  advertised (s_endpoint server) = s_max_udp_payload_size options.
Proof.
  unfold start_on_addr. destruct (single_cert_check _ _); [cbn|done|done]. destruct (quic_server_config_check _); [cbn|done|done].
  destruct (server_transport _) as [t| |]; [cbn|done|done]. destruct (server_socket _) as [sk| |]; [cbn|done|done].
  unfold endpoint_config. destruct (s_max_udp_payload_size options) as [n|]; [destruct (udp_payload_size_check n); [cbn|done|done]|cbn];
    (destruct (endpoint_new _); [cbn|done|done]); by intros [= <-].
Qed.

Section Meetings.
Context (paired : ClientConfig → list bytes → bytes → Connecting → Connecting → Prop) `{!HandshakeLaws paired}.

(** [await_connecting] as the callers see it when the protocol is common: the diagnosis of quinn is kept *)
Definition established (c : Connecting) : outcome ConnectionError Conn := map_err from_quinn (await_connecting c).

Lemma not_refused_established c : not_refused c → map_err handshake_error (await_connecting c) = established c.
Proof.
  unfold not_refused, established, handshake_error. destruct (await_connecting c); [done| |done]. cbn. intros ->. done.
Qed.

Lemma refused_error c e :
  refused e c → incompatible e = true →
  ∃ e', map_err handshake_error (await_connecting c) = Err e' ∧
    (e' = of_text incompatible_text ∨ ∃ q, incompatible q = false ∧ await_connecting c = Err q ∧ e' = from_quinn q).
Proof.
  intros (q & Hq & Hor) He. rewrite Hq. eexists. split; [done|]. unfold handshake_error. destruct Hor as [->|Hn].
  - rewrite He. by left.
  - rewrite Hn. right. by exists q.
Qed.

Lemma quinn_connect_eq addr name tls_config options setup c :
  client_setup addr name tls_config options = Ok setup → connect_with setup = Ok c →
  quinn_connect addr name tls_config options = Quinn <$> map_err handshake_error (await_connecting c).
Proof. intros Hs Hc. unfold quinn_connect. rewrite Hs. cbn. rewrite Hc. cbn. by destruct (await_connecting c). Qed.

Lemma accept_native wt inc s :
  incoming_accept inc = Ok s → mjoin (handshake_data s) ≠ Some WEBTRANSPORT_ALPN →
  accept wt (Some inc) = (λ q, Some (Quinn q)) <$> map_err handshake_error (await_connecting s).
Proof.
  intros Hi Hp. unfold accept. rewrite Hi. cbn. rewrite bool_decide_eq_false_2 by done. rewrite andb_false_r.
  by destruct (await_connecting s).
Qed.

(** The protocol of the server's end, when the client offers only [p] *)
Lemma single_protocol tls alpns cert c s p :
  paired tls alpns cert c s → alpn_protocols tls = [p] → ∀ q, handshake_data s = Some (Some q) → q = p ∧ p ∈ alpns.
Proof.
  intros Hp Ha q Hq. destruct (alpn_common _ _ _ _ _ _ Hp Hq) as [H1 H2]. rewrite Ha in H2. apply list_elem_of_singleton in H2. by subst.
Qed.

(** C22: a native client and a server of the same build that are set up on any
    options: neither end ever reports an incompatible protocol, the server
    never takes the connection for WebTransport, both ends get a connection or
    the error that quinn gives for it, and a client that pinned a certificate
    gets a connection only if the server's certificate has that hash. *)
Theorem native_client_meets_server wt saddr cert chain key soptions server caddr name tls_config options setup c inc s :
  WEBTRANSPORT_ALPN ≠ KYMUX_ALPN →
  start_on_addr wt saddr (cert :: chain) key soptions = Ok server →
  client_setup caddr name tls_config options = Ok setup →
  connect_with setup = Ok c → incoming_accept inc = Ok s →
  paired (c_tls setup) (s_alpn server) cert c s →
  quinn_connect caddr name tls_config options = Quinn <$> established c ∧
  accept wt (Some inc) = (λ q, Some (Quinn q)) <$> established s ∧
  ∀ conn hash, quinn_connect caddr name tls_config options = Ok conn → certificate_hash options = Some hash →
    hex_decode hash = Some (sha256 cert).
Proof.
  intros Hne Hstart Hsetup Hc Hi Hp. destruct (start_spec _ _ _ _ _ _ Hstart) as (Hal & _).
  destruct (client_setup_spec _ _ _ _ _ Hsetup) as (Htls & _). destruct (client_tls_spec _ _ _ Htls) as [Hoff Hver].
  destruct (alpn_not_refused _ _ _ _ _ KYMUX_ALPN Hp) as [Hnc Hns]; [rewrite Hal; left|rewrite Hoff; left|].
  rewrite (quinn_connect_eq _ _ _ _ _ _ Hsetup Hc), (not_refused_established _ Hnc). split; [done|]. split.
  - rewrite (accept_native _ _ _ Hi), (not_refused_established _ Hns); [done|]. intros Hj.
    destruct (handshake_data s) as [[q|]|] eqn:Hd; try done. injection Hj as ->.
    by destruct (single_protocol _ _ _ _ _ _ Hp Hoff _ Hd).
  - intros conn hash Hok Hh. rewrite Hh in Hver. destruct Hver as (h & Hdec & Hv). rewrite Hdec. f_equal.
    unfold established in Hok. destruct (await_connecting c) as [q| |] eqn:Haw; [|done|done].
    pose proof (cert_verified _ _ _ _ _ _ Hp Haw) as Hcert. rewrite Hv in Hcert. by apply verify_server_cert_spec in Hcert.
Qed.

(** A client of another generation (one that offers none of the server's
    protocols) and this server, or this client and a server of another
    generation: the end of this build gets no connection, and reports that the
    builds do not match, unless the network failed first, which it reports as
    quinn does. *)
Theorem other_generation_reported wt saddr cert chain key soptions server caddr name tls_config options setup c inc s :
  (start_on_addr wt saddr (cert :: chain) key soptions = Ok server → incoming_accept inc = Ok s → ∀ tls,
   paired tls (s_alpn server) cert c s → (∀ p, p ∈ alpn_protocols tls → p ≠ KYMUX_ALPN ∧ p ≠ WEBTRANSPORT_ALPN) →
   ∃ e, accept wt (Some inc) = Err e ∧
     (e = of_text incompatible_text ∨ ∃ q, incompatible q = false ∧ await_connecting s = Err q ∧ e = from_quinn q)) ∧
  (client_setup caddr name tls_config options = Ok setup → connect_with setup = Ok c → ∀ alpns,
   paired (c_tls setup) alpns cert c s → KYMUX_ALPN ∉ alpns →
   ∃ e, quinn_connect caddr name tls_config options = Err e ∧
     (e = of_text incompatible_text ∨ ∃ q, incompatible q = false ∧ await_connecting c = Err q ∧ e = from_quinn q)).
Proof.
  split.
  - intros Hstart Hi tls Hp Hoff. destruct (start_spec _ _ _ _ _ _ Hstart) as (Hal & _).
    destruct (alpn_refused _ _ _ _ _ Hp) as [_ Hs].
    { intros p Hpin Hq. destruct (Hoff p Hq) as [H1 H2]. rewrite Hal in Hpin. destruct wt; set_solver. }
    destruct (refused_error _ _ Hs eq_refl) as (e & He & Hor). exists e. split; [|done].
    rewrite (accept_native _ _ _ Hi), He; [done|]. intros Hj. destruct (handshake_data s) as [[q|]|] eqn:Hd; try done.
    injection Hj as ->. destruct (alpn_common _ _ _ _ _ _ Hp Hd) as [_ Hin]. by destruct (Hoff _ Hin).
  - intros Hsetup Hc alpns Hp Hnot. destruct (client_setup_spec _ _ _ _ _ Hsetup) as (Htls & _).
    destruct (client_tls_spec _ _ _ Htls) as [Hoff _]. destruct (alpn_refused _ _ _ _ _ Hp) as [Hcl _].
    { intros p Hpin Hq. rewrite Hoff in Hq. apply list_elem_of_singleton in Hq. by subst. }
    destruct (refused_error _ _ Hcl eq_refl) as (e & He & Hor). exists e. split; [|done].
    by rewrite (quinn_connect_eq _ _ _ _ _ _ Hsetup Hc), He.
Qed.

(** A WebTransport client (which offers only the protocol of WebTransport):
    a server with the feature gives its connection to the WebTransport driver
    and to no other; a server without it never accepts the client. *)
Theorem webtransport_client_dispatched saddr cert chain key soptions server wt tls_config tls c inc s :
  WEBTRANSPORT_ALPN ≠ KYMUX_ALPN →
  start_on_addr wt saddr (cert :: chain) key soptions = Ok server →
  wtransport_tls tls_config = Ok tls → incoming_accept inc = Ok s → paired tls (s_alpn server) cert c s →
  (∀ q, accept wt (Some inc) ≠ Ok (Some (Quinn q))) ∧
  if wt
  then ∀ q r w, await_connecting s = Ok q → wt_session s = Ok r → wt_session_accept r = Ok w → accept wt (Some inc) = Ok (Some (WTransport w))
  else ∃ e, accept wt (Some inc) = Err e.
Proof.
  intros Hne Hstart Htls Hi Hp. destruct (start_spec _ _ _ _ _ _ Hstart) as (Hal & _).
  assert (Hoff : alpn_protocols tls = [WEBTRANSPORT_ALPN]).
  { revert Htls. unfold wtransport_tls. destruct tls_config; [by intros [= <-]|]. destruct platform_verifier; [by intros [= <-]|done|done]. }
  destruct wt.
  - assert (Hwt : ∀ q, await_connecting s = Ok q → mjoin (handshake_data s) = Some WEBTRANSPORT_ALPN).
    { intros q Hq. destruct (alpn_known _ _ _ _ _ _ Hp Hq) as [p Hd]. rewrite Hd. cbn. by destruct (single_protocol _ _ _ _ _ _ Hp Hoff _ Hd) as [-> _]. }
    unfold accept. rewrite Hi. cbn. split.
    + intros q. case_bool_decide as Hd; [by destruct (wt_session s) as [r| |]; [cbn; destruct (wt_session_accept r)| |]|].
      destruct (await_connecting s) as [q'| |] eqn:Hq; [|done|done]. by destruct Hd; eapply Hwt.
    + intros q r w Hq Hr Hw. rewrite bool_decide_eq_true_2 by (by eapply Hwt). rewrite Hr. cbn. by rewrite Hw.
  - destruct (alpn_refused _ _ _ _ _ Hp) as [_ Hs].
    { intros p Hpin Hq. rewrite Hoff in Hq. rewrite Hal in Hpin. set_solver. }
    destruct (refused_error _ _ Hs eq_refl) as (e & He & _). unfold accept. rewrite Hi. cbn. rewrite He. cbn. split; [done|by exists e].
Qed.
End Meetings.

(** The packetization contract: a client and a server set up with the same
    fixed payload size advertise it and use it as the initial and the least
    path MTU, without discovery; and, whatever the options, two sides given the
    same ones configure the same transport. *)
Theorem same_transport_both_sides wt saddr chain key soptions server caddr name tls_config options setup :
  start_on_addr wt saddr chain key soptions = Ok server → client_setup caddr name tls_config options = Ok setup →
  s_max_idle_timeout soptions = max_idle_timeout options → s_keep_alive_interval soptions = keep_alive_interval options →
  s_congestion_controller_factory soptions = congestion_controller_factory options →
  s_max_udp_payload_size soptions = max_udp_payload_size options →
  s_transport server = c_transport setup ∧ advertised (s_endpoint server) = advertised (c_endpoint setup) ∧
  ∀ n, max_udp_payload_size options = Some n →
    advertised (c_endpoint setup) = Some n ∧ t_initial_mtu (c_transport setup) = Some n ∧ t_min_mtu (c_transport setup) = Some n ∧
    t_mtu_discovery (c_transport setup) = Some false ∧ udp_payload_size_check n = Ok tt.
Proof.
  intros Hstart Hsetup Hidle Hkeep Hfac Hsize. destruct (start_spec _ _ _ _ _ _ Hstart) as (_ & _ & Hst & _ & Hsa).
  destruct (client_setup_spec _ _ _ _ _ Hsetup) as (_ & Hct & _ & Hca & _). rewrite Hsa, Hca, Hsize.
  assert (Heq : s_transport server = c_transport setup).
  { revert Hst Hct. unfold server_transport, client_transport. rewrite Hidle, Hkeep, Hfac, Hsize.
    destruct (idle_timeout _); [|done|done]. by intros [= <-] [= <-]. }
  split_and!; [done|done|]. intros n Hn. revert Hct. unfold client_transport. destruct (idle_timeout _); [|done|done].
  cbn. intros [= <-]. cbn. rewrite Hn. split_and!; try done.
  revert Hsetup. unfold client_setup, endpoint_config. rewrite Hn. destruct (client_tls _ _); [cbn|done|done].
  destruct (quic_client_config_check _); [cbn|done|done]. destruct (client_transport _); [cbn|done|done].
  destruct (client_socket _); [cbn|done|done]. by destruct (udp_payload_size_check n) as [[]| |].
Qed.
End Kynet.

(** ** An instance: libraries that behave, and one server *)

Record ToyConnecting := { toy_result : outcome QuinnError nat; toy_protocol : option (option bytes) }.

(** The two ends of an undisturbed handshake *)
Definition toy_handshake (tls : ClientConfig) (alpns : list bytes) (cert : bytes) : ToyConnecting * ToyConnecting :=
  match filter (.∈ alpn_protocols tls) alpns with
  | [] => ({| toy_result := Err (ConnectionClosed no_application_protocol); toy_protocol := None |},
           {| toy_result := Err (TransportError no_application_protocol); toy_protocol := None |})
  | p :: _ =>
      match verifier tls cert with
      | Ok _ => ({| toy_result := Ok 1%nat; toy_protocol := Some (Some p) |}, {| toy_result := Ok 2%nat; toy_protocol := Some (Some p) |})
      | _ => ({| toy_result := Err (TransportError 0x12a); toy_protocol := None |},
              {| toy_result := Err (ConnectionClosed 0x12a); toy_protocol := Some (Some p) |})
      end
  end.

Definition h3 : bytes := bytes_of_string "h3".

Definition toy_libraries (alpns : list bytes) (cert : bytes) : Libraries unit ToyConnecting nat ToyConnecting unit nat := {|
  error_to_string e := match e with TimedOut => "timed out" | _ => "closed" end;
  hex_decode s := match hex_to_bytes s with Ok b => Some b | _ => None end;
  hex_encode _ := "";
  sha256 c := c;
  platform_verifier := Ok (λ _, Ok tt);
  quic_client_config_check _ := Ok tt;
  single_cert_check _ _ := Ok tt;
  quic_server_config_check _ := Ok tt;
  idle_timeout_try_from d := if d <? 2 ^ 62 then Ok d else Err "out of range"%string;
  udp_payload_size_check n := if 1200 <=? n then Ok tt else Err "out of range"%string;
  socket_new _ := Ok tt;
  set_only_v6_false _ := true;
  socket_bind _ := Ok tt;
  endpoint_new _ := Ok tt;
  connect_with setup := Ok (toy_handshake (c_tls setup) alpns cert).1;
  await_connecting := toy_result;
  incoming_accept := Ok;
  handshake_data := toy_protocol;
  WEBTRANSPORT_ALPN := h3;
  wt_endpoint_connect _ _ _ _ := Ok 1%nat;
  wt_session _ := Ok tt;
  wt_session_accept _ := Ok 2%nat;
|}.

Definition toy_paired (tls : ClientConfig) (alpns : list bytes) (cert : bytes) (c s : ToyConnecting) : Prop :=
  (c, s) = toy_handshake tls alpns cert.

Lemma toy_laws alpns0 cert0 : @HandshakeLaws _ _ _ _ _ _ (toy_libraries alpns0 cert0) toy_paired.
Proof.
  split; unfold toy_paired, toy_handshake; intros tls alpns cert c s.
  - intros Hp Hno. destruct (filter _ alpns) as [|p l] eqn:Hf.
    + injection Hp as -> ->. split; eexists; (split; [reflexivity|by left]).
    + assert (Hin : p ∈ filter (.∈ alpn_protocols tls) alpns) by (rewrite Hf; left). apply list_elem_of_filter in Hin as [H1 H2].
      by destruct (Hno p H2).
  - intros p Hp H1 H2. destruct (filter _ alpns) as [|q l] eqn:Hf.
    + assert (Hin : p ∈ filter (.∈ alpn_protocols tls) alpns) by by apply list_elem_of_filter. by rewrite Hf in Hin; apply elem_of_nil in Hin.
    + destruct (verifier tls cert); by injection Hp as -> ->.
  - intros p Hp Hd. destruct (filter _ alpns) as [|q l] eqn:Hf; [by injection Hp as -> ->|].
    assert (Hin : q ∈ filter (.∈ alpn_protocols tls) alpns) by (rewrite Hf; left). apply list_elem_of_filter in Hin as [H1 H2].
    destruct (verifier tls cert); injection Hp as -> ->; cbn in Hd; by simplify_eq.
  - intros conn Hp Hd. destruct (filter _ alpns) as [|q l]; [by injection Hp as -> ->|].
    destruct (verifier tls cert); injection Hp as -> ->; [by exists q|done|done].
  - intros conn Hp Hd. destruct (filter _ alpns) as [|q l]; [by injection Hp as -> ->|].
    destruct (verifier tls cert) as [[]| |] eqn:Hv; injection Hp as -> ->; [done|done|done].
Qed.

Definition toy_cert : bytes := [0xab; 0x01].
Definition toy_options : CommonServerOptions unit :=
  {| s_max_idle_timeout := Some 30000; s_keep_alive_interval := None; s_max_udp_payload_size := Some 1320; s_congestion_controller_factory := None |}.
Definition toy_client_options : QuinnClientOptions unit :=
  {| max_idle_timeout := Some 30000; keep_alive_interval := None; max_udp_payload_size := Some 1320;
     certificate_hash := Some (bytes_of_string "ab01"); congestion_controller_factory := None |}.
Definition toy_addr : SocketAddr := V4 0x7f000001 4433.

#[local] Existing Instance toy_laws.

Definition toy_libs : Libraries unit ToyConnecting nat ToyConnecting unit nat := toy_libraries [KYMUX_ALPN; h3] toy_cert.
#[local] Existing Instance toy_libs.

Definition toy_server : CommonServer unit :=
  match start true 4433 [toy_cert] [] toy_options with Ok s => s | _ => {| s_alpn := []; s_cert_chain := []; s_key := [];
    s_transport := transport_default; s_endpoint := {| advertised := None; socket := {| domain := IPV4; dual_stack := false; bound := toy_addr |} |} |} end.

Lemma native_client_meets_server_witness :
  ∃ setup, client_setup toy_addr "host" None toy_client_options = Ok setup ∧
    quinn_connect toy_addr "host" None toy_client_options = Ok (Quinn 1%nat) ∧
    accept true (Some (toy_handshake (c_tls setup) (s_alpn toy_server) toy_cert).2) = Ok (Some (Quinn 2%nat)) ∧
    hex_decode (bytes_of_string "ab01") = Some (sha256 toy_cert).
Proof.
  destruct (client_setup toy_addr "host" None toy_client_options) as [setup| |] eqn:Hs; [|discriminate Hs|discriminate Hs].
  exists setup.
  destruct (native_client_meets_server toy_paired true (V6 0 4433) toy_cert [] [] toy_options toy_server toy_addr "host" None
    toy_client_options setup (toy_handshake (c_tls setup) [KYMUX_ALPN; h3] toy_cert).1
    (toy_handshake (c_tls setup) (s_alpn toy_server) toy_cert).2 (toy_handshake (c_tls setup) (s_alpn toy_server) toy_cert).2)
    as (H1 & H2 & H3).
  - by vm_compute.
  - reflexivity.
  - exact Hs.
  - reflexivity.
  - reflexivity.
  - unfold toy_paired. change (s_alpn toy_server) with [KYMUX_ALPN; h3]. by destruct (toy_handshake _ _ _).
  - injection Hs as <-. split; [reflexivity|]. split; [rewrite H1; reflexivity|]. split; [rewrite H2; reflexivity|].
    by eapply H3; [rewrite H1; reflexivity|].
Defined.

(** A client of the first generation *)
Definition old_tls : ClientConfig := {| verifier := λ _, Ok tt; alpn_protocols := [bytes_of_string "kymux"] |}.
Definition old_server : list bytes := [bytes_of_string "kymux"].

(** This server with the old client, and, with the libraries of a network where the old server answers, this client *)
Lemma other_generation_reported_witness :
  (∃ e, accept true (Some (toy_handshake old_tls (s_alpn toy_server) toy_cert).2) = Err e) ∧
  (∃ e, @quinn_connect _ _ _ _ _ _ (toy_libraries old_server toy_cert) toy_addr "host" None toy_client_options = Err e).
Proof.
  destruct (client_setup toy_addr "host" None toy_client_options) as [setup| |] eqn:Hs; [|discriminate Hs|discriminate Hs].
  split.
  - destruct (proj1 (@other_generation_reported _ _ _ _ _ _ toy_libs toy_paired (toy_laws _ _) true (V6 0 4433) toy_cert [] [] toy_options toy_server toy_addr "host" None
      toy_client_options setup (toy_handshake old_tls (s_alpn toy_server) toy_cert).1
      (toy_handshake old_tls (s_alpn toy_server) toy_cert).2 (toy_handshake old_tls (s_alpn toy_server) toy_cert).2)
      eq_refl eq_refl old_tls) as (e & He & _).
    + reflexivity.
    + intros p Hp. apply list_elem_of_singleton in Hp as ->. by vm_compute.
    + by exists e.
  - destruct (proj2 (@other_generation_reported _ _ _ _ _ _ (toy_libraries old_server toy_cert) toy_paired (toy_laws _ _) true (V6 0 4433) toy_cert [] []
      toy_options toy_server toy_addr "host" None toy_client_options setup (toy_handshake (c_tls setup) old_server toy_cert).1
      (toy_handshake (c_tls setup) old_server toy_cert).2 (toy_handshake (c_tls setup) old_server toy_cert).2)
      Hs eq_refl old_server) as (e & He & _).
    + unfold toy_paired. by destruct (toy_handshake _ _ _).
    + intros Hp. apply list_elem_of_singleton in Hp. by vm_compute in Hp.
    + by exists e.
Defined.

Lemma webtransport_client_dispatched_witness :
  let tls := {| verifier := λ _, Ok tt; alpn_protocols := [h3] |} in
  accept true (Some (toy_handshake tls (s_alpn toy_server) toy_cert).2) = Ok (Some (WTransport 2%nat)).
Proof.
  intros tls.
  eapply (proj2 (@webtransport_client_dispatched _ _ _ _ _ _ toy_libs toy_paired (toy_laws _ _) (V6 0 4433) toy_cert [] [] toy_options toy_server true
    None tls (toy_handshake tls (s_alpn toy_server) toy_cert).1
    (toy_handshake tls (s_alpn toy_server) toy_cert).2 (toy_handshake tls (s_alpn toy_server) toy_cert).2 ltac:(by vm_compute)
    eq_refl eq_refl eq_refl ltac:(unfold toy_paired; by destruct (toy_handshake _ _ _)))); reflexivity.
Defined.

Lemma same_transport_both_sides_witness :
  ∃ setup, client_setup toy_addr "host" None toy_client_options = Ok setup ∧
    s_transport toy_server = c_transport setup ∧ t_initial_mtu (c_transport setup) = Some 1320.
Proof.
  destruct (client_setup toy_addr "host" None toy_client_options) as [setup| |] eqn:Hs; [|discriminate Hs|discriminate Hs].
  destruct (@same_transport_both_sides _ _ _ _ _ _ toy_libs true (V6 0 4433) [toy_cert] [] toy_options toy_server toy_addr "host" None toy_client_options setup
    eq_refl Hs eq_refl eq_refl eq_refl eq_refl) as (H1 & _ & H3).
  exists setup. split; [reflexivity|]. split; [exact H1|]. apply (H3 1320 eq_refl).
Defined.
