(* ===== verification/KynetDriver.v ===== *)
(** * The drivers of [kynet] and their diagnostics

    Models the operations of [QuinnConnectionDriver] and
    [WTransportConnectionDriver] and of their streams
    ([kynet/src/driver/quinn.rs], [wtransport.rs]), the trait of
    [kynet/src/driver/mod.rs] and the [Connection] of [kynet/src/lib.rs] that
    hides it, the measurements of [kynet/src/sender_timing.rs] and the loading
    of certificates of [kynet/src/cert.rs].  quinn, wtransport, the clock and the
    PEM parser are parameters. *)

From stdpp Require Import prelude list strings.
From Stdlib Require Import ZArith Lia.
From S2P Require Import Prelude Telemetry Kynet.
Open Scope Z_scope.

(** ** [sender_timing.rs] *)

Record Measurements := {
  fec_total_ns : Z;
  fec_copy_ns : Z;
  fec_encoder_ns : Z;
  fec_repair_ns : Z;
  quinn_ns : Z;
  quinn_max_ns : Z;
  datagrams : Z;
  datagram_bytes : Z;
}.

(** [Measurements::default()] *)
Definition measurements_default : Measurements :=
  {| fec_total_ns := 0; fec_copy_ns := 0; fec_encoder_ns := 0; fec_repair_ns := 0; quinn_ns := 0; quinn_max_ns := 0; datagrams := 0; datagram_bytes := 0 |}.

(** [ns]: a duration is its number of nanoseconds *)
Definition ns (duration : Z) : Z := Z.min duration (2 ^ 64 - 1).

(** The update of [send_datagram], in the wrapping arithmetic of a release build *)
Definition count_datagram (elapsed bytes : Z) (m : Measurements) : Measurements :=
  {| fec_total_ns := fec_total_ns m; fec_copy_ns := fec_copy_ns m; fec_encoder_ns := fec_encoder_ns m; fec_repair_ns := fec_repair_ns m;
     quinn_ns := wrap64 (quinn_ns m + elapsed);
     quinn_max_ns := Z.max (quinn_max_ns m) elapsed;
     datagrams := wrap64 (datagrams m + 1);
     datagram_bytes := wrap64 (datagram_bytes m + bytes) |}.

(** ** The trait *)

(** [kynet::ConnectionStats] *)
Record Stats := { rtt : option Z; packets_lost : option Z }.

(** [SendDatagramError(pub String)] *)
Record SendDatagramError := { datagram_error : string }.

(** [dyn ConnectionDriver] over a state [St], with the halves of its streams.
    [send_datagram] takes the time that the call to the library lasted. *)
Record ConnectionDriver (St Snd Rcv : Type) := {
  open_uni : handler St ConnectionError Snd;
  open_bi : handler St ConnectionError (Snd * Rcv);
  accept_uni : handler St ConnectionError Rcv;
  accept_bi : handler St ConnectionError (Snd * Rcv);
  read_datagram : handler St ConnectionError bytes;
  send_datagram : bytes → Z → handler St SendDatagramError unit;
  closed : handler St ConnectionError unit;
  close : Z → string → St → St;
  max_datagram_size : St → option Z;
  stats : St → St * Stats;
}.

Arguments open_uni {_ _ _}. Arguments open_bi {_ _ _}. Arguments accept_uni {_ _ _}. Arguments accept_bi {_ _ _}.
Arguments read_datagram {_ _ _}. Arguments send_datagram {_ _ _}. Arguments closed {_ _ _}. Arguments close {_ _ _}.
Arguments max_datagram_size {_ _ _}. Arguments stats {_ _ _}.

(** The errors of a handler, converted *)
Definition erringM {S E F A} (f : E → F) (m : handler S E A) : handler S F A := λ s, let '(s, r) := m s in (s, map_err f r).

(** ** quinn *)

(** [quinn::Connection], as the driver uses it *)
Class QuinnConnection (Q Snd Rcv : Type) := {
  q_to_string : QuinnError → string;
  q_open_uni : handler Q QuinnError Snd;
  q_open_bi : handler Q QuinnError (Snd * Rcv);
  q_accept_uni : handler Q QuinnError Rcv;
  q_accept_bi : handler Q QuinnError (Snd * Rcv);
  q_read_datagram : handler Q QuinnError bytes;
  q_send_datagram : bytes → handler Q string unit;
  q_closed : Q → Q * QuinnError;
  q_close : Z → string → Q → Q;
  q_max_datagram_size : Q → option Z;
  q_stats : Q → ConnectionStats;
}.

(** The Cargo features; [sink] is the standard error, where a thread can be started. *)
Record Features := { sender_timing : bool; quinn_telemetry : bool; sink : option Sink }.

(** The connection with the task-local [CURRENT] of the running task and the static [SENDER] *)
Record World (Q : Type) := { conn : Q; current : option Measurements; sender : Sender }.
Arguments conn {_}. Arguments current {_}. Arguments sender {_}.

Section Quinn.
Context {Q Snd Rcv : Type} `{!QuinnConnection Q Snd Rcv} (features : Features).

Definition q_error (e : QuinnError) : ConnectionError := {| text := q_to_string e |}.

(** A call on the connection *)
Definition on_conn {E A} (m : handler Q E A) : handler (World Q) E A := λ w,
  let '(q, r) := m (conn w) in ({| conn := q; current := current w; sender := sender w |}, r).

(** [active] and [update] *)
Definition active : World Q → bool := λ w, match current w with Some _ => true | None => false end.
Definition update (f : Measurements → Measurements) : World Q → World Q := λ w,
  {| conn := conn w; current := f <$> current w; sender := sender w |}.

(** [QuinnConnectionDriver::send_datagram] *)
Definition quinn_send_datagram (data : bytes) (elapsed : Z) : handler (World Q) SendDatagramError unit := λ w,
  let timing := sender_timing features && active w in
  let '(w, result) := on_conn (q_send_datagram data) w in
  let w := if timing then update (count_datagram (ns elapsed) (blen data)) w else w in
  (w, map_err (λ e, {| datagram_error := e |}) result).

(** [QuinnConnectionDriver::closed] *)
Definition quinn_closed : handler (World Q) ConnectionError unit := λ w,
  let '(q, error) := q_closed (conn w) in
  ({| conn := q; current := current w; sender := sender w |},
   match error with
   | LocallyClosed | ApplicationClosed _ => Ok tt
   | err => Err (q_error err)
   end).

(** [QuinnConnectionDriver::stats] *)
Definition quinn_stats : World Q → World Q * Stats := λ w,
  let s := q_stats (conn w) in
  let w := if quinn_telemetry features
           then {| conn := conn w; current := current w; sender := (record (sink features) s (sender w)).1 |}
           else w in
  (w, {| rtt := Some (path_rtt s); packets_lost := Some (path_lost_packets s) |}).

(** [impl ConnectionDriver for QuinnConnectionDriver] *)
Definition quinn_driver : ConnectionDriver (World Q) Snd Rcv := {|
  open_uni := erringM q_error (on_conn q_open_uni);
  open_bi := erringM q_error (on_conn q_open_bi);
  accept_uni := erringM q_error (on_conn q_accept_uni);
  accept_bi := erringM q_error (on_conn q_accept_bi);
  read_datagram := erringM q_error (on_conn q_read_datagram);
  send_datagram := quinn_send_datagram;
  closed := quinn_closed;
  close error_code reason w := {| conn := q_close error_code reason (conn w); current := current w; sender := sender w |};
  max_datagram_size w := q_max_datagram_size (conn w);
  stats := quinn_stats;
|}.

(** [measure] of a computation on the connection *)
Definition measure {A} (future : World Q → World Q * A) : World Q → World Q * (A * Measurements) := λ w,
  let '(w1, output) := future {| conn := conn w; current := Some measurements_default; sender := sender w |} in
  ({| conn := conn w1; current := current w; sender := sender w1 |}, (output, default measurements_default (current w1))).
End Quinn.

(** ** Streams of quinn *)

(** [quinn::SendStream] and [quinn::RecvStream], as the drivers use them *)
Class QuinnStreams (Snd Rcv : Type) := {
  send_finish : handler Snd unit unit;
  send_stopped : handler Snd string (option Z);
  send_reset : Z → handler Snd unit unit;
  recv_stop : Z → handler Rcv unit unit;
  recv_received_reset : handler Rcv string (option Z);
}.

Inductive ClosedStreamError := closed_stream.

Section Streams.
Context {Snd Rcv : Type} `{!QuinnStreams Snd Rcv}.

(** The operations of [QuinnSendStreamDriver] *)
Definition finish : handler Snd ClosedStreamError unit :=
  _ ← erringM (λ _, closed_stream) send_finish;
  _ ← erringM (λ _, closed_stream) send_stopped;
  mret tt.

Definition reset : Snd → Snd := λ s, (send_reset 0 s).1.

Definition send_closed : handler Snd ConnectionError unit :=
  _ ← erringM (prefixed "Stopped error: ") send_stopped;
  mret tt.

(** The operations of [QuinnRecvStreamDriver] *)
Definition stop : Rcv → Rcv := λ s, (recv_stop 0 s).1.

Definition recv_closed : handler Rcv ConnectionError unit :=
  _ ← erringM (prefixed "Stopped error: ") recv_received_reset;
  mret tt.
End Streams.

(** [WTransportSendStreamDriver::finish], on [wtransport::SendStream::finish]; its other operations are those of the QUIC stream below. *)
Definition wt_finish {Snd E} (wt_send_finish : handler Snd E unit) : handler Snd ClosedStreamError unit :=
  erringM (λ _, closed_stream) wt_send_finish.

(** ** wtransport *)

(** The variants of [wtransport::error::ConnectionError] that the code tells apart *)
Inductive WtError := WtLocallyClosed | WtApplicationClosed | WtOther (description : string).

(** [wtransport::Connection]: opening a stream waits twice, and the second wait has errors of its own. *)
Class WtConnection (W Snd Rcv Opening OpeningBi : Type) := {
  wt_to_string : WtError → string;
  w_open_uni : handler W WtError Opening;
  w_opened_uni : Opening → handler W string Snd;
  w_open_bi : handler W WtError OpeningBi;
  w_opened_bi : OpeningBi → handler W string (Snd * Rcv);
  w_accept_uni : handler W WtError Rcv;
  w_accept_bi : handler W WtError (Snd * Rcv);
  w_receive_datagram : handler W WtError bytes;
  w_send_datagram : bytes → handler W string unit;
  w_closed : W → W * WtError;
  w_close : Z → string → W → W;
  w_max_datagram_size : W → option Z;
  w_quic_stats : W → ConnectionStats;
}.

Section WTransport.
Context {W Snd Rcv Opening OpeningBi : Type} `{!WtConnection W Snd Rcv Opening OpeningBi}.

Definition wt_error (e : WtError) : ConnectionError := {| text := wt_to_string e |}.

(** [WTransportConnectionDriver::open_uni] *)
Definition wt_open_uni : handler W ConnectionError Snd :=
  opening ← erringM wt_error w_open_uni;
  erringM of_text (w_opened_uni opening).

(** [WTransportConnectionDriver::open_bi] *)
Definition wt_open_bi : handler W ConnectionError (Snd * Rcv) :=
  opening ← erringM wt_error w_open_bi;
  erringM of_text (w_opened_bi opening).

(** [WTransportConnectionDriver::closed] *)
Definition wt_closed : handler W ConnectionError unit := λ w,
  let '(w, error) := w_closed w in
  (w, match error with WtLocallyClosed | WtApplicationClosed => Ok tt | err => Err (wt_error err) end).

(** [impl ConnectionDriver for WTransportConnectionDriver] *)
Definition wtransport_driver : ConnectionDriver W Snd Rcv := {|
  open_uni := wt_open_uni;
  open_bi := wt_open_bi;
  accept_uni := erringM wt_error w_accept_uni;
  accept_bi := erringM wt_error w_accept_bi;
  read_datagram := erringM wt_error w_receive_datagram;
  send_datagram data _ := erringM (λ e, {| datagram_error := e |}) (w_send_datagram data);
  closed := wt_closed;
  close := w_close;
  max_datagram_size := w_max_datagram_size;
  stats w := (w, {| rtt := Some (path_rtt (w_quic_stats w)); packets_lost := Some (path_lost_packets (w_quic_stats w)) |});
|}.
End WTransport.

(** ** [kynet::Connection] *)

Inductive Op :=
  | OpenUni | OpenBi | AcceptUni | AcceptBi | ReadDatagram
  | SendDatagram (data : bytes) (elapsed : Z)
  | Closed | Close (error_code : Z) (reason : string) | MaxDatagramSize | GetStats.

Inductive Res (Snd Rcv : Type) :=
  | RSend (r : outcome ConnectionError Snd)
  | RBi (r : outcome ConnectionError (Snd * Rcv))
  | RRecv (r : outcome ConnectionError Rcv)
  | RDatagram (r : outcome ConnectionError bytes)
  | RSent (r : outcome SendDatagramError unit)
  | RClosed (r : outcome ConnectionError unit)
  | RDone
  | RSize (n : option Z)
  | RStats (s : Stats).
Arguments RSend {_ _}. Arguments RBi {_ _}. Arguments RRecv {_ _}. Arguments RDatagram {_ _}. Arguments RSent {_ _}.
Arguments RClosed {_ _}. Arguments RDone {_ _}. Arguments RSize {_ _}. Arguments RStats {_ _}.

(** The operations of [Connection]: each is that of the driver *)
Definition run_op {St Snd Rcv} (driver : ConnectionDriver St Snd Rcv) (op : Op) (s : St) : St * Res Snd Rcv :=
  match op with
  | OpenUni => let '(s, r) := open_uni driver s in (s, RSend r)
  | OpenBi => let '(s, r) := open_bi driver s in (s, RBi r)
  | AcceptUni => let '(s, r) := accept_uni driver s in (s, RRecv r)
  | AcceptBi => let '(s, r) := accept_bi driver s in (s, RBi r)
  | ReadDatagram => let '(s, r) := read_datagram driver s in (s, RDatagram r)
  | SendDatagram data elapsed => let '(s, r) := send_datagram driver data elapsed s in (s, RSent r)
  | Closed => let '(s, r) := closed driver s in (s, RClosed r)
  | Close error_code reason => (close driver error_code reason s, RDone)
  | MaxDatagramSize => (s, RSize (max_datagram_size driver s))
  | GetStats => let '(s, r) := stats driver s in (s, RStats r)
  end.

Fixpoint run_ops {St Snd Rcv} (driver : ConnectionDriver St Snd Rcv) (ops : list Op) (s : St) : St * list (Res Snd Rcv) :=
  match ops with
  | [] => (s, [])
  | op :: ops =>
      let '(s, r) := run_op driver op s in
      let '(s, rs) := run_ops driver ops s in
      (s, r :: rs)
  end.

(** Two drivers whose operations agree on related states *)
Lemma run_ops_simulation {St St' Snd Rcv} (R : St → St' → Prop) (driver : ConnectionDriver St Snd Rcv) (driver' : ConnectionDriver St' Snd Rcv) :
  (∀ op s s', R s s' → R (run_op driver op s).1 (run_op driver' op s').1 ∧ (run_op driver op s).2 = (run_op driver' op s').2) →
  ∀ ops s s', R s s' → R (run_ops driver ops s).1 (run_ops driver' ops s').1 ∧ (run_ops driver ops s).2 = (run_ops driver' ops s').2.
Proof.
  intros Hop ops. induction ops as [|op ops IH]; intros s s' Hs; [done|]. cbn [run_ops]. destruct (Hop op s s' Hs) as [H1 H2].
  destruct (run_op driver op s) as [s1 r1], (run_op driver' op s') as [s1' r1']. cbn in H1, H2.
  destruct (IH s1 s1' H1) as [H3 H4]. destruct (run_ops driver ops s1), (run_ops driver' ops s1'). cbn in *. by subst.
Qed.

(** ** [cert.rs] *)

(** What [rustls_pemfile::read_one] finds first in a file *)
Inductive PemItem := X509Certificate (der : bytes) | Pkcs1Key (der : bytes) | Pkcs8Key (der : bytes) | Sec1Key (der : bytes) | OtherItem.

Inductive PrivateKeyDer := Pkcs1 (der : bytes) | Pkcs8 (der : bytes) | Sec1 (der : bytes).

Inductive LoadCertError := LoadIo (description : string) | LoadCert (description : string).

Section Certificates.
Context (read_file : string → outcome string bytes) (read_one : bytes → outcome string (option PemItem)).

Definition load_cert_from_pem_file (cert_path : string) : outcome LoadCertError bytes :=
  pem_cert ← map_err LoadIo (read_file cert_path);
  item ← map_err LoadIo (read_one pem_cert);
  match item with
  | Some (X509Certificate cert) => Ok cert
  | _ => Err (LoadCert "Invalid certificate")
  end.

Definition load_private_key_from_pem_file (key_path : string) : outcome LoadCertError PrivateKeyDer :=
  pem_key ← map_err LoadIo (read_file key_path);
  item ← map_err LoadIo (read_one pem_key);
  match item with
  | Some (Pkcs1Key key) => Ok (Pkcs1 key)
  | Some (Pkcs8Key key) => Ok (Pkcs8 key)
  | Some (Sec1Key key) => Ok (Sec1 key)
  | _ => Err (LoadCert "Invalid key")
  end.
End Certificates.

(** ** Diagnostics are passive and exact *)

Section Diagnostics.
Context {Q Snd Rcv : Type} `{!QuinnConnection Q Snd Rcv}.

Implicit Types w : World Q.

(** The driver of a build without the diagnostics *)
Definition plain : Features := {| sender_timing := false; quinn_telemetry := false; sink := None |}.

Lemma run_op_passive features op w w' :
  conn w = conn w' →
  conn (run_op (quinn_driver features) op w).1 = conn (run_op (quinn_driver plain) op w').1 ∧
  (run_op (quinn_driver features) op w).2 = (run_op (quinn_driver plain) op w').2.
Proof.
  intros Hc. destruct op; cbn; unfold erringM, quinn_send_datagram, quinn_closed, quinn_stats, on_conn; cbn; rewrite ?Hc; try done.
  - by destruct (q_open_uni (conn w')).
  - by destruct (q_open_bi (conn w')).
  - by destruct (q_accept_uni (conn w')).
  - by destruct (q_accept_bi (conn w')).
  - by destruct (q_read_datagram (conn w')).
  - destruct (q_send_datagram data (conn w')) as [q r]. by destruct (_ && _).
  - by destruct (q_closed (conn w')).
  - by destruct (quinn_telemetry features).
Qed.

Lemma run_ops_passive features ops w w' :
  conn w = conn w' →
  conn (run_ops (quinn_driver features) ops w).1 = conn (run_ops (quinn_driver plain) ops w').1 ∧
  (run_ops (quinn_driver features) ops w).2 = (run_ops (quinn_driver plain) ops w').2.
Proof. apply (run_ops_simulation (λ w w', conn w = conn w')). intros op s s'. apply run_op_passive. Qed.

(** The measurement of a list of operations *)
Definition op_measured (op : Op) (m : Measurements) : Measurements :=
  match op with SendDatagram data elapsed => count_datagram (ns elapsed) (blen data) m | _ => m end.

Lemma run_op_current features op w :
  sender_timing features = true → current (run_op (quinn_driver features) op w).1 = op_measured op <$> current w.
Proof.
  intros Hf. destruct op; cbn; unfold erringM, quinn_send_datagram, quinn_closed, quinn_stats, on_conn, active; cbn.
  - destruct (q_open_uni (conn w)); cbn; by destruct (current w).
  - destruct (q_open_bi (conn w)); cbn; by destruct (current w).
  - destruct (q_accept_uni (conn w)); cbn; by destruct (current w).
  - destruct (q_accept_bi (conn w)); cbn; by destruct (current w).
  - destruct (q_read_datagram (conn w)); cbn; by destruct (current w).
  - destruct (q_send_datagram data (conn w)) as [q r]. rewrite Hf. by destruct (current w) eqn:Hcur; cbn; rewrite ?Hcur.
  - destruct (q_closed (conn w)); cbn; by destruct (current w).
  - by destruct (current w).
  - by destruct (current w).
  - destruct (quinn_telemetry features); cbn; by destruct (current w).
Qed.

Lemma run_ops_current features ops w :
  sender_timing features = true → current (run_ops (quinn_driver features) ops w).1 = (λ m, foldl (flip op_measured) m ops) <$> current w.
Proof.
  intros Hf. revert w. induction ops as [|op ops IH]; intros w; [by cbn; destruct (current w)|]. cbn [run_ops].
  pose proof (run_op_current features op w Hf) as H1. destruct (run_op _ op w) as [w1 r]. cbn in H1. specialize (IH w1).
  destruct (run_ops _ ops w1) as [w2 rs]. cbn in *. rewrite IH, H1. by destruct (current w).
Qed.

(** The datagrams of the operations, with the time of each call *)
Definition sends : list Op → list (bytes * Z) := omap (λ op, match op with SendDatagram data elapsed => Some (data, elapsed) | _ => None end).

Lemma foldl_measured ops m :
  foldl (flip op_measured) m ops = foldl (λ m d, count_datagram (ns d.2) (blen d.1) m) m (sends ops).
Proof. revert m. induction ops as [|op ops IH]; intros m; [done|]. cbn. rewrite IH. by destruct op. Qed.

Definition total (f : bytes * Z → Z) (ds : list (bytes * Z)) : Z := foldr (λ d acc, f d + acc) 0 ds.

Lemma total_length ds : total (λ _, 1) ds = Z.of_nat (length ds).
Proof. unfold total. induction ds as [|d ds IH]; cbn in *; lia. Qed.

Lemma foldl_counted ds m :
  foldl (λ m d, count_datagram (ns d.2) (blen d.1) m) m ds =
  {| fec_total_ns := fec_total_ns m; fec_copy_ns := fec_copy_ns m; fec_encoder_ns := fec_encoder_ns m; fec_repair_ns := fec_repair_ns m;
     quinn_ns := if decide (ds = []) then quinn_ns m else wrap64 (quinn_ns m + total (λ d, ns d.2) ds);
     quinn_max_ns := foldl (λ x d, Z.max x (ns d.2)) (quinn_max_ns m) ds;
     datagrams := if decide (ds = []) then datagrams m else wrap64 (datagrams m + total (λ _, 1) ds);
     datagram_bytes := if decide (ds = []) then datagram_bytes m else wrap64 (datagram_bytes m + total (λ d, blen d.1) ds) |}.
Proof.
  revert m. induction ds as [|d ds IH]; intros m; [by destruct m|]. cbn [foldl]. rewrite IH. cbn [total foldr].
  unfold count_datagram, wrap64. cbn. destruct (decide (ds = [])) as [->|Hne]; cbn; f_equal;
    rewrite ?Z.add_0_r, ?Zplus_mod_idemp_l; f_equal; unfold total; lia.
Qed.

(** C38: with the diagnostics compiled in, whatever the state of the telemetry
    and of the task, and inside or outside a measurement, every operation of a
    connection has the result and the effect on the connection that it has
    without them; and [measure] reports the number and the bytes of the
    datagrams handed to quinn in it, accepted or not, the time spent there and
    the longest call (64-bit counters), and leaves an outer measurement as it
    was. *)
Theorem diagnostics_passive_and_exact features ops w :
  sender_timing features = true →
  let '(w1, (rs, m)) := measure (run_ops (quinn_driver features) ops) w in
  let '(w2, rs2) := run_ops (quinn_driver features) ops w in
  let '(w3, rs3) := run_ops (quinn_driver plain) ops w in
  rs = rs3 ∧ rs2 = rs3 ∧ conn w1 = conn w3 ∧ conn w2 = conn w3 ∧ current w1 = current w ∧
  m = {| fec_total_ns := 0; fec_copy_ns := 0; fec_encoder_ns := 0; fec_repair_ns := 0;
         quinn_ns := wrap64 (total (λ d, ns d.2) (sends ops));
         quinn_max_ns := foldl (λ x d, Z.max x (ns d.2)) 0 (sends ops);
         datagrams := wrap64 (Z.of_nat (length (sends ops)));
         datagram_bytes := wrap64 (total (λ d, blen d.1) (sends ops)) |}.
Proof.
  intros Hf. unfold measure. set (w0 := {| conn := conn w; current := Some measurements_default; sender := sender w |}).
  pose proof (run_ops_passive features ops w0 w eq_refl) as [H1 H2]. pose proof (run_ops_passive features ops w w eq_refl) as [H3 H4].
  pose proof (run_ops_current features ops w0 Hf) as Hm. destruct (run_ops (quinn_driver features) ops w0) as [w1 rs1].
  destruct (run_ops (quinn_driver features) ops w) as [w2 rs2], (run_ops (quinn_driver plain) ops w) as [w3 rs3]. cbn in *.
  split_and!; [done|done|done|done|done|]. rewrite Hm. cbn. rewrite foldl_measured, foldl_counted. cbn.
  rewrite <- total_length.
  destruct (decide (sends ops = [])) as [->|]; done.
Qed.
End Diagnostics.

(** A connection that takes two datagrams *)
Definition two_datagrams : QuinnConnection nat unit unit := {|
  q_to_string _ := "";
  q_open_uni := mret tt;
  q_open_bi := mret (tt, tt);
  q_accept_uni := mret tt;
  q_accept_bi := mret (tt, tt);
  q_read_datagram := mret [];
  q_send_datagram _ n := match n with O => (O, Err "blocked"%string) | S n => (n, Ok tt) end;
  q_closed n := (n, LocallyClosed);
  q_close _ _ n := n;
  q_max_datagram_size _ := Some 1200;
  q_stats _ := sample;
|}.
#[local] Existing Instance two_datagrams.

Definition all_features : Features := {| sender_timing := true; quinn_telemetry := true; sink := None |}.

Lemma diagnostics_passive_and_exact_witness :
  let ops := [SendDatagram [1; 2] 30; GetStats; SendDatagram [3] 50; SendDatagram [4] 40] in
  (measure (run_ops (quinn_driver all_features) ops) {| conn := 2%nat; current := None; sender := Unset |}).2.2 =
  {| fec_total_ns := 0; fec_copy_ns := 0; fec_encoder_ns := 0; fec_repair_ns := 0;
     quinn_ns := 120; quinn_max_ns := 50; datagrams := 3; datagram_bytes := 4 |}.
Proof.
  intros ops. pose proof (diagnostics_passive_and_exact all_features ops {| conn := 2%nat; current := None; sender := Unset |} eq_refl) as H.
  destruct (measure _ _) as [w1 [rs m]]. destruct (run_ops (quinn_driver all_features) _ _), (run_ops (quinn_driver plain) _ _).
  destruct H as (_ & _ & _ & _ & _ & ->). reflexivity.
Defined.
