(* ===== verification/WebTransport.v ===== *)
(** * The connection of a browser

    Models the rest of [kynet/src/driver/webtransport_js.rs]: the options given
    to the browser, [connect], the operations of
    [WebTransportJSConnectionDriver] as a driver of [kynet::Connection], and
    those of its streams.  The browser ([web_sys]) is a parameter: it answers a
    call with the value or the rejection of its promise. *)

From stdpp Require Import prelude list strings.
From Stdlib Require Import ZArith Lia.
From S2P Require Import Prelude Av Hex WebStreams Telemetry Kynet KynetDriver.
Open Scope Z_scope.

(** ** Options *)

Inductive WebTransportJSCongestionControl := CcDefault | CcThroughput | CcLowLatency.

Record WebTransportJSOptions := {
  congestion_control : WebTransportJSCongestionControl;
  require_unreliable : bool;
  server_certificate_hashes : option (list WebTransportJSHash);
}.

(** The objects of [web_sys], with the members that were set *)
Inductive WsCongestionControl := WsDefault | WsThroughput | WsLowLatency.
Record WsHash := { ws_algorithm : option string; ws_value : option bytes }.
Record WsOptions := { ws_require_unreliable : option bool; ws_congestion_control : option WsCongestionControl; ws_hashes : option (list WsHash) }.

(** [WebTransportJSCongestionControl::to_web_sys] *)
Definition congestion_to_web_sys (self : WebTransportJSCongestionControl) : WsCongestionControl :=
  match self with CcDefault => WsDefault | CcThroughput => WsThroughput | CcLowLatency => WsLowLatency end.

(** [WebTransportJSHash::to_web_sys] *)
Definition hash_to_web_sys (self : WebTransportJSHash) : WsHash :=
  {| ws_algorithm := Some (algorithm self); ws_value := Some (hash_value self) |}.

(** [WebTransportJSOptions::to_web_sys] *)
Definition options_to_web_sys (self : WebTransportJSOptions) : WsOptions :=
  let options := {| ws_require_unreliable := Some (require_unreliable self);
                    ws_congestion_control := Some (congestion_to_web_sys (congestion_control self)); ws_hashes := None |} in
  match server_certificate_hashes self with
  | Some hashes => {| ws_require_unreliable := ws_require_unreliable options; ws_congestion_control := ws_congestion_control options;
                      ws_hashes := Some (foldl (λ array hash, array ++ [hash_to_web_sys hash]) [] hashes) |}
  | None => options
  end.

(** ** The browser *)

(** [web_sys::WebTransport] and the promises it returns *)
Class WebSys (B Snd Rcv : Type) := {
  ws_new : string → WsOptions → outcome JsError B;
  ws_ready : handler B JsError unit;
  ws_create_uni : handler B JsError Snd;
  ws_create_bi : handler B JsError (Snd * Rcv);
  ws_next_uni : B → B * JsNext Rcv;
  ws_next_bi : B → B * JsNext (Snd * Rcv);
  ws_next_datagram : B → B * JsNext bytes;
  ws_locked : JsError;
  ws_write_datagram : bytes → handler B JsError unit;
  ws_closed : handler B JsError unit;
  ws_close : Z → string → B → B;
  ws_max_datagram_size : B → Z;
}.

(** [WebTransportJSConnectionDriver]: the browser's object and the readers and writers held *)
Record WebConnection (B : Type) := { web_transport : B; locks : WebDriver }.
Arguments web_transport {_}. Arguments locks {_}.

Section Driver.
Context {B Snd Rcv : Type} `{!WebSys B Snd Rcv}.

(** [WebTransportJSConnectionDriver::connect] *)
Definition web_connect (url : string) (options : WebTransportJSOptions) : outcome ConnectionError (WebConnection B) :=
  web_transport ← map_err of_text (ws_new url (options_to_web_sys options));
  match ws_ready web_transport with
  | (web_transport, Ok _) => Ok {| web_transport := web_transport; locks := web_wrap |}
  | (_, Err e) => Err (of_text e)
  | (_, Panic) => Panic
  end.

Definition on_browser {A} (m : handler B JsError A) : handler (WebConnection B) ConnectionError A := λ self,
  let '(b, r) := m (web_transport self) in ({| web_transport := b; locks := locks self |}, map_err of_text r).

(** [accept_uni], [accept_bi] and [read_datagram]: the reader is taken, if need be, and then asked for the next value *)
Definition read_next {A} (lock : WebDriver → Lock) (next : B → B * JsNext A) (op : JsNext A → handler WebDriver string A) :
    handler (WebConnection B) ConnectionError A := λ self,
  let '(b, n) := match acquire Panic (lock (locks self)) with
                 | Ok _ => next (web_transport self)
                 | _ => (web_transport self, NextDone)
                 end in
  let '(d, r) := op n (locks self) in ({| web_transport := b; locks := d |}, map_err of_text r).

(** [send_datagram] *)
Definition write_datagram (data : bytes) : handler (WebConnection B) SendDatagramError unit := λ self,
  let '(b, res) := match acquire (Err ws_locked) (datagrams_writer (locks self)) with
                   | Ok _ => ws_write_datagram data (web_transport self)
                   | _ => (web_transport self, Ok tt)
                   end in
  let '(d, r) := web_send_datagram ws_locked res (locks self) in
  ({| web_transport := b; locks := d |}, map_err (λ e, {| datagram_error := e |}) r).

(** [impl ConnectionDriver for WebTransportJSConnectionDriver] *)
Definition web_driver : ConnectionDriver (WebConnection B) Snd Rcv := {|
  open_uni := on_browser ws_create_uni;
  open_bi := on_browser ws_create_bi;
  accept_uni := read_next uni_streams_reader ws_next_uni web_accept_uni;
  accept_bi := read_next bi_streams_reader ws_next_bi web_accept_bi;
  read_datagram := read_next datagrams_reader ws_next_datagram web_read_datagram;
  send_datagram data _ := write_datagram data;
  closed := on_browser ws_closed;
  close error_code reason self := {| web_transport := ws_close error_code reason (web_transport self); locks := locks self |};
  max_datagram_size self := Some (ws_max_datagram_size (web_transport self));
  stats self := (self, {| rtt := None; packets_lost := None |});
|}.
End Driver.

(** ** Streams *)

(** The writer and the reader of a stream, as the drivers use them *)
Class WebWriter (Snd : Type) := { js_close : handler Snd JsError unit; js_abort : handler Snd JsError unit; js_writer_closed : handler Snd JsError unit }.
Class WebReader (Rcv : Type) := { js_cancel : handler Rcv JsError unit; js_reader_closed : handler Rcv JsError unit }.

(** [finish], [reset] and [closed] of [WebTransportJSSendStreamDriver]; the
    result of [abort] is ignored by the spawned future *)
Definition web_finish `{WebWriter Snd} : handler Snd ClosedStreamError unit := erringM (λ _, closed_stream) js_close.
Definition web_reset `{WebWriter Snd} : Snd → Snd := λ s, (js_abort s).1.
Definition web_send_closed `{WebWriter Snd} : handler Snd ConnectionError unit := erringM of_text js_writer_closed.

(** [stop] and [closed] of [WebTransportJSRecvStreamDriver] *)
Definition web_stop `{WebReader Rcv} : Rcv → Rcv := λ s, (js_cancel s).1.
Definition web_recv_closed `{WebReader Rcv} : handler Rcv ConnectionError unit := erringM of_text js_reader_closed.

(** ** The driver adds nothing to the browser *)

Section Transparent.
Context {B Snd Rcv : Type} `{!WebSys B Snd Rcv}.

(** The reference: every operation is one call of the browser *)
Definition next_browser {A} (at_done : string) (next : B → B * JsNext A) : handler B ConnectionError A := λ b,
  let '(b, n) := next b in (b, map_err of_text (next_value at_done n)).

Definition browser_driver : ConnectionDriver B Snd Rcv := {|
  open_uni := erringM of_text ws_create_uni;
  open_bi := erringM of_text ws_create_bi;
  accept_uni := next_browser "No more unistreams" ws_next_uni;
  accept_bi := next_browser "No more bistreams" ws_next_bi;
  read_datagram := next_browser "Could not read datagrams" ws_next_datagram;
  send_datagram data _ := erringM (λ e, {| datagram_error := e |}) (ws_write_datagram data);
  closed := erringM of_text ws_closed;
  close := ws_close;
  max_datagram_size b := Some (ws_max_datagram_size b);
  stats b := (b, {| rtt := None; packets_lost := None |});
|}.

Definition locks_ok (d : WebDriver) : Prop :=
  lock_ok (uni_streams_reader d) ∧ lock_ok (bi_streams_reader d) ∧ lock_ok (datagrams_reader d) ∧ lock_ok (datagrams_writer d).

(** A connection of the driver and the browser's object in it *)
Definition wraps (self : WebConnection B) (b : B) : Prop := web_transport self = b ∧ locks_ok (locks self).

Lemma web_op_transparent op self b :
  wraps self b →
  wraps (run_op web_driver op self).1 (run_op browser_driver op b).1 ∧ (run_op web_driver op self).2 = (run_op browser_driver op b).2.
Proof.
  destruct self as [b0 d]. intros [Hb (Hu & Hbi & Hr & Hw)]. cbn in *. subst b0.
  destruct op; cbn; unfold on_browser, erringM, read_next, next_browser, write_datagram; cbn.
  - by destruct (ws_create_uni b).
  - by destruct (ws_create_bi b).
  - destruct (acquire_ok Panic _ Hu) as (l & Hl & Hok & _). unfold web_accept_uni. rewrite Hl. destruct (ws_next_uni b) as [b1 n]. by destruct n.
  - destruct (acquire_ok Panic _ Hbi) as (l & Hl & Hok & _). unfold web_accept_bi. rewrite Hl. destruct (ws_next_bi b) as [b1 n]. by destruct n.
  - destruct (acquire_ok Panic _ Hr) as (l & Hl & Hok & _). unfold web_read_datagram. rewrite Hl. destruct (ws_next_datagram b) as [b1 n]. by destruct n.
  - destruct (acquire_ok (Err ws_locked) _ Hw) as (l & Hl & Hok & _). unfold web_send_datagram. rewrite Hl. by destruct (ws_write_datagram data b) as [b1 []].
  - by destruct (ws_closed b).
  - done.
  - done.
  - done.
Qed.

(** A browser connection behind [kynet::Connection] behaves as the browser
    itself: whatever operations are called on it, in whatever order, the results
    are those of the browser's own calls, each made once, and no call ever meets a
    reader or writer of the browser that is already taken. *)
Theorem web_driver_transparent url options self ops :
  web_connect url options = Ok self →
  web_transport (run_ops web_driver ops self).1 = (run_ops browser_driver ops (web_transport self)).1 ∧
  (run_ops web_driver ops self).2 = (run_ops browser_driver ops (web_transport self)).2 ∧
  Forall (λ l, requests l ≤ 1)%nat
    ((λ f, f (locks (run_ops web_driver ops self).1)) <$> [uni_streams_reader; bi_streams_reader; datagrams_reader; datagrams_writer]).
Proof.
  intros Hc. assert (Hw : wraps self (web_transport self)).
  { unfold web_connect in Hc. apply bind_Ok in Hc as (b & _ & Hc). destruct (ws_ready b) as [b1 [|e|]]; [|done..]. by injection Hc as <-. }
  destruct (run_ops_simulation wraps web_driver browser_driver web_op_transparent ops _ _ Hw) as [[H1 (Hu & Hb & Hr & Hwr)] H2].
  split; [done|]. split; [done|]. repeat (apply Forall_cons; split; [by apply lock_requests|]). constructor.
Qed.
End Transparent.

(** ** Pinned certificates *)

(** The documented meaning of [serverCertificateHashes]: a connection becomes
    ready only if the certificate of the server has one of the hashes. *)
Class PinningLaws {B Snd Rcv} `{!WebSys B Snd Rcv} (sha_256 : bytes → bytes) (certificate : B → bytes) : Prop := {
  ready_pinned url o b b' hs :
    ws_new url o = Ok b → ws_ready b = (b', Ok tt) → ws_hashes o = Some hs →
    ∃ h, h ∈ hs ∧ ws_algorithm h = Some "sha-256"%string ∧ ws_value h = Some (sha_256 (certificate b'));
}.

Section Pinning.
Context {B Snd Rcv : Type} `{!WebSys B Snd Rcv} (sha_256 : bytes → bytes) (certificate : B → bytes) `{!PinningLaws sha_256 certificate}.

(** A connection made with the hashes of some certificates, given as
    hexadecimal text, is a connection to a server with one of them: the text
    decodes to the hash of the certificate that the server showed. *)
Theorem web_connect_pinned url cc unreliable hexes hashes self :
  Forall2 (λ hex h, new_sha256_from_hex hex = Ok h) hexes hashes →
  web_connect url {| congestion_control := cc; require_unreliable := unreliable; server_certificate_hashes := Some hashes |} = Ok self →
  ∃ hex, hex ∈ hexes ∧ hex_to_bytes hex = Ok (sha_256 (certificate (web_transport self))).
Proof.
  intros Hh Hc. unfold web_connect in Hc. apply bind_Ok in Hc as (b & Hb & Hc). destruct (ws_ready b) as [b1 [[]|e|]] eqn:Hr; [|done..].
  injection Hc as <-. destruct (ws_new url _) as [b0|e|] eqn:Hn; [|done..]. injection Hb as ->.
  destruct (ready_pinned _ _ _ _ _ Hn Hr eq_refl) as (h & Hin & _ & Hv).
  assert (Hfold : ∀ l acc, foldl (λ array hash, array ++ [hash_to_web_sys hash]) acc l = acc ++ (hash_to_web_sys <$> l)).
  { induction l as [|x l IH]; intros acc; cbn; [by rewrite app_nil_r|]. by rewrite IH, <- app_assoc. }
  rewrite Hfold in Hin. cbn [app] in Hin. apply list_elem_of_fmap in Hin as (w & -> & Hw). cbn in Hv. injection Hv as Hv.
  apply list_elem_of_lookup in Hw as [i Hw]. destruct (Forall2_lookup_r _ _ _ _ _ Hh Hw) as (hex & Hhex & Hdec).
  exists hex. split; [by eapply list_elem_of_lookup_2|]. unfold new_sha256_from_hex, new_from_hex in Hdec.
  destruct (hex_to_bytes hex) as [v|e|]; [|done..]. injection Hdec as <-. cbn in Hv. by rewrite Hv.
Qed.
End Pinning.

(** ** A sample: a browser with a queue of datagrams *)

(** The browser knows the certificate of the server, here the bytes [1; 2], of which it takes the sum for the hash. *)
Definition sample_sha (cert : bytes) : bytes := [foldr Z.add 0 cert].

Record SampleBrowser := { sb_hashes : option (list WsHash); sb_datagrams : list bytes; sb_open : bool }.

Definition sample_pinned (b : SampleBrowser) : bool :=
  match sb_hashes b with
  | Some hs => existsb (λ h, bool_decide (ws_algorithm h = Some "sha-256"%string) && bool_decide (ws_value h = Some (sample_sha [1; 2]))) hs
  | None => true
  end.

#[export] Instance sample_web_sys : WebSys SampleBrowser nat nat := {
  ws_new _ o := Ok {| sb_hashes := ws_hashes o; sb_datagrams := [[7]; [8; 9]]; sb_open := true |};
  ws_ready b := (b, if sample_pinned b then Ok tt else Err "handshake failed"%string);
  ws_create_uni b := (b, if sb_open b then Ok 0%nat else Err "closed"%string);
  ws_create_bi b := (b, Ok (0%nat, 0%nat));
  ws_next_uni b := (b, NextDone);
  ws_next_bi b := (b, NextValue (1%nat, 1%nat));
  ws_next_datagram b := match sb_datagrams b with
                        | [] => (b, NextRejected "closed"%string)
                        | d :: ds => ({| sb_hashes := sb_hashes b; sb_datagrams := ds; sb_open := sb_open b |}, NextValue d)
                        end;
  ws_locked := "locked"%string;
  ws_write_datagram _ b := (b, Ok tt);
  ws_closed b := (b, Ok tt);
  ws_close _ _ b := {| sb_hashes := sb_hashes b; sb_datagrams := sb_datagrams b; sb_open := false |};
  ws_max_datagram_size _ := 1200;
}.

#[export] Instance sample_pinning : PinningLaws sample_sha (λ _ : SampleBrowser, [1; 2]).
Proof.
  split. intros url o b b' hs [= <-] Hr Hh. injection Hr as <- Hr. unfold sample_pinned in Hr. cbn [sb_hashes] in Hr. rewrite Hh in Hr.
  destruct (existsb _ hs) eqn:He; [|done]. apply existsb_exists in He as (h & Hin & Hb). apply andb_true_iff in Hb as [H1 H2].
  apply bool_decide_eq_true in H1, H2. exists h. split; [by apply list_elem_of_In|done].
Qed.

(** "03" in hexadecimal *)
Definition sample_hex : bytes := [48; 51].

Definition sample_hash : WebTransportJSHash := {| algorithm := "sha-256"; hash_value := [3] |}.

Definition sample_options : WebTransportJSOptions :=
  {| congestion_control := CcLowLatency; require_unreliable := true; server_certificate_hashes := Some [sample_hash] |}.

Definition sample_connection : WebConnection SampleBrowser :=
  {| web_transport := {| sb_hashes := Some [hash_to_web_sys sample_hash]; sb_datagrams := [[7]; [8; 9]]; sb_open := true |}; locks := web_wrap |}.

Definition sample_ops : list Op := [ReadDatagram; AcceptBi; ReadDatagram; SendDatagram [1] 0; ReadDatagram; Close 0 "done"; OpenUni; GetStats].

Example sample_web_results :
  (run_ops web_driver sample_ops sample_connection).2 =
  [RDatagram (Ok [7]); RBi (Ok (1%nat, 1%nat)); RDatagram (Ok [8; 9]); RSent (Ok tt); RDatagram (Err (of_text "closed")); RDone; RSend (Err (of_text "closed"));
   RStats {| rtt := None; packets_lost := None |}].
Proof. by vm_compute. Qed.

Lemma web_driver_transparent_witness :
  web_connect "https://example.org" sample_options = Ok sample_connection ∧
  web_transport (run_ops web_driver sample_ops sample_connection).1 = (run_ops browser_driver sample_ops (web_transport sample_connection)).1 ∧
  (run_ops web_driver sample_ops sample_connection).2 = (run_ops browser_driver sample_ops (web_transport sample_connection)).2 ∧
  Forall (λ l, requests l ≤ 1)%nat
    ((λ f, f (locks (run_ops web_driver sample_ops sample_connection).1)) <$> [uni_streams_reader; bi_streams_reader; datagrams_reader; datagrams_writer]).
Proof.
  assert (Hc : web_connect "https://example.org" sample_options = Ok sample_connection) by (vm_compute; reflexivity).
  split; [exact Hc|]. exact (web_driver_transparent "https://example.org" sample_options sample_connection sample_ops Hc).
Defined.

Lemma web_connect_pinned_witness :
  ∃ hex, hex ∈ [sample_hex] ∧ hex_to_bytes hex = Ok (sample_sha [1; 2]).
Proof.
  apply (web_connect_pinned sample_sha (λ _ : SampleBrowser, [1; 2]) "https://example.org" CcLowLatency true [sample_hex] [sample_hash] sample_connection);
    [repeat constructor|vm_compute; reflexivity].
Defined.
